(* ===== verification/_CoqProject ===== *)
-Q . S2P
Prelude.v
GoStrings.v
Paths.v
Timestamps.v
Encodings.v
Model.v
Sql.v
StoreDB.v
StoreRequests.v
StoreInstances.v
Network.v
StoreCleanup.v
StoreMigration.v
StorePools.v
StoreDemo.v
StoreTrace.v
CleanupSpec.v
InstanceSpec.v
JournalSpec.v
NetworkSpec.v
RunnerState.v
Runtime.v
Receipts.v
ReceiptStop.v
RunnerTrace.v
RunnerOps.v
RunnerSpec.v
ColdProtocol.v
ColdServer.v
ColdTrace.v
ColdSpec.v
ColdDisk.v
ColdInv.v
ColdOps.v
ColdMoves.v
ColdHandle.v
ColdDiskSpec.v
ColdClient.v
ColdLink.v
ColdRefine.v
ColdDemo.v
PoolHost.v
PoolRunner.v
Provision.v
PoolStore.v
HostCapacity.v
PoolInv.v
PoolCmds.v
PoolSpec.v
Identity.v
Config.v
CommandLine.v
ConfigSpec.v
StoreSpec.v
Lifecycle.v
LifecycleInv.v
LifecycleCmds.v
LifecycleStart.v
LifecycleFrame.v
LifecycleSpec.v
Logs.v
LogsSpec.v
CommandLineSpec.v
Locks.v
Barrier.v
Access.v
AccessSpec.v
DiskLayout.v
DiskLayoutSpec.v
DiskLayoutLive.v
Front.v
FrontSpec.v
FrontMigration.v
Balloons.v
BalloonsSpec.v
Operations.v
Deletion.v
DeletionSpec.v
OperationsSpec.v
Operated.v
