(* ===== verification/Prelude.v ===== *)
(** * srv: a control plane for Firecracker microVMs

    srv runs small virtual machines for the users of a tailnet.  Users reach the
    service ([src/internal/service]) over SSH, directly or through a front end that
    routes them to one of several hosts ([src/internal/front]).  The service keeps what
    it knows in a SQLite database ([src/internal/store]); its provisioner
    ([src/internal/provision]) asks a privileged runner ([src/internal/vmrunner]) to
    start, stop, save and delete machines, and a privileged helper
    ([src/internal/nethelper]) for their networks.  The disks of idle machines can move
    to a second host, a cold store ([src/internal/coldstore]).  This library models each
    of these parts and proves what they promise each other across failures.

    ** The model

    Stateful Go code becomes programs of the monad [M S A] of this file: a function
    of the state and of a schedule of faults, one per call into the environment.  A
    call passes, fails without effect, or the process dies before or after its effect
    ([Pass], [Fail], [CrashBefore], [CrashAfter]); an exhausted schedule stands for
    calls that succeed.  A theorem about [wp] or about a history therefore speaks of
    every combination of I/O errors and crashes.  [finally] is [defer], [try] is an
    error that the code inspects, [require] an early return.  Errors keep the
    sentinels the code tests; the text of [fmt.Errorf] keeps its constant part.
    Integers of 64 bits wrap around by [int64] of this file where the code computes
    with them.  Code that runs concurrently (Locks, Barrier, Operations, Balloons) is a
    step relation on the stages of its sessions, so steps interleave in any order.

    Libraries
    - GoStrings, Paths, Timestamps, Encodings: what the code uses of Go's standard
      library, executable: [strings], [path/filepath], RFC 3339 times as text,
      [encoding/base64] and [crypto/sha256] (its constants computed from the roots of
      the primes).
    - Model, Sql: the records of [src/internal/model]; tables with their SELECT, UPDATE,
      INSERT and transactions, and runs during which nothing fails.

    The database ([src/internal/store])
    - StoreDB, StoreRequests, StoreInstances, StoreCleanup, StoreMigration, StorePools:
      one function per Go method: the schema with its constraints and triggers
      ([sqlite.go]), lifecycle requests ([requests.go]), instances, events and audit
      ([sqlite.go]), authoritative cleanup ([cleanup.go]), migration journals
      ([migration.go]), memory pools and integrations.  A statement is one call that can
      fail; a transaction commits in one call.  The clock is the argument [now]; foreign
      keys are off, as in the code.  StoreTrace: every history of the database.

    The runner ([src/internal/vmrunner])
    - RunnerState, Runtime, Receipts, ReceiptStop: the host (processes, cgroups, sockets,
      jails, RAM images, disks, receipt directories) and the start receipts
      ([receipts.go], [ram_state.go], [cleanup.go], the discovery and clean-up of
      [vmrunner.go]).
    - ColdDisk: [cold_disk.go] with the subvolume calls of
      [src/internal/storage/subvolume.go], against the interface [coldRemote].
    - PoolHost: [pools.go], the cgroups of memory pools and their resize receipts.
    - Balloons: [balloon_pool.go] and the balloon loop of [vmrunner.go].

    The cold store ([src/internal/coldstore])
    - ColdProtocol, ColdServer: the wire protocol ([protocol.go]) and the store
      ([server.go], [local.go], [discard.go], [disk.go]).  ColdClient: [client.go],
      which implements [coldRemote] over the server.

    The provisioner ([src/internal/provision])
    - Provision, HostCapacity: pool commands, admission of pooled starts and the host
      memory budget ([provision.go], [migration.go]).
    - Lifecycle: creation, start, stop, reconciliation ([provision.go],
      [start_outcome.go], [orb.go], [readiness.go], the templates of [template.go] that a
      creation reads).  A creation takes its capacity, pool and record from Provision and
      its network from Network.
    - DiskLayout: [disk.go], the move of a disk to its subvolume; its state is the
      directory as it is and as a power loss may bring it back.
    - Network: the choice of a network ([allocateNetwork]) with the helper of
      [src/internal/nethelper].
    - Deletion: [cleanup.go] and the removal of cold copies of [cold_disk.go], with
      [src/internal/service/cleanup.go]: one command over the states of all the parts.

    The service ([src/internal/service]) and its front end
    - CommandLine: the parsers of the commands.  Access: who a session speaks for and
      what it may run ([forward.go], [replacement.go], [service.go]).  Operations: bound
      starts and stops ([orb_operation.go]), against the interface [Provisioner], which
      Operated implements by Lifecycle.  Locks, Barrier: the instance locks and the gate
      between commands and snapshots ([snapshot.go]).  Logs: the log reader and the
      filter of what it shows.
    - Config, Identity: [src/internal/config] and [src/internal/identity].
    - Front: [src/internal/front], the router, placement, and the cold migration of an
      instance between two hosts.

    Interaction.  The service calls the provisioner, the provisioner the store, the
    runner and the helper; the runner reads only its own journals.  Calls of one
    instance name run one at a time, under the name's lock: histories are sequences of
    calls, each cut off anywhere.  Between calls the machine may change as another party
    of the host would change it (processes die, the host reboots, a guest writes), stated
    by the step relations [jstep] (RunnerTrace), [disk_step] (ColdDiskSpec) and
    [cold_step] (ColdTrace); a request the provisioner gave up on may still arrive later
    (LifecycleSpec, PoolSpec).  The steps of LifecycleSpec are creations, starts, stops,
    reconciliations, restorations and the two writes of a deletion; what other commands
    (import, backup and restore, resize, upgrade, the layout of a disk) may do to a record
    is its [careful].  Those of PoolSpec are the pool commands, the admissions of
    creations and starts, and the starts themselves; [other] says what else may happen.

    ** What is proved

    - CleanupSpec, StoreSpec, InstanceSpec, JournalSpec: well-formedness of the database
      under every call; admission at most once; finality of terminal phases;
      atomicity and guards of cleanup, migration and pool resize; receipts, fences and
      requests of deletions refer to each other over every history; round trips and
      compare-and-set of instances; the retention clock.
    - RunnerSpec (by RunnerTrace, RunnerOps): a start attempt is launched at most once
      over every history; at most one attempt per name is open; an answer of absence,
      and a deletion proof, are final, and the proof finds the fence in place and no
      process, socket, jail or cgroup of the name.
    - ColdSpec (by ColdTrace): integrity, immutability, and permanence of deletion at
      the store; exactness of the protocol.
    - ColdDiskSpec (by ColdInv, ColdOps, ColdMoves, ColdHandle): no byte of a guest's
      disk is lost, a start sees the last write, no uploaded copy is forgotten, and a
      successful request has done its work, against the laws [coldRemoteLaws] of the
      abstract store.  ColdRefine (by ColdLink): the client and the server satisfy those
      laws, so the promises hold of the composed system; ColdDemo runs it.
    - PoolSpec (by PoolRunner, PoolStore, PoolInv, PoolCmds): the memory limit in force
      for a pool is covered by its reservation; answers are truthful; a pending resize
      can be completed.
    - LifecycleSpec (by LifecycleInv, LifecycleCmds, LifecycleStart, LifecycleFrame): an
      instance recorded at rest stays down, at most one start is open, a start that
      succeeds runs the machine it records, a stop that succeeds has closed the start.
    - DiskLayoutSpec, DiskLayoutLive: the guest's bytes survive a move cut off by the
      process or by the power; a move that processes left half done is completed by the
      next attempt (after a loss of power it may need an operator).
    - NetworkSpec: the networks of live instances are disjoint and inside the network of
      the machines, if that is given by its first address; a final deletion has proved
      absence, and its network is never touched again.
    - DeletionSpec: a deletion that succeeds has done what its receipt says in every part
      at once; nothing is touched before the fence; a deletion of another incarnation
      changes nothing.
    - AccessSpec, OperationsSpec, Operated: a session does nothing unless entitled; a
      bound operation runs at most once, [operation-result] tells the truth, and users
      leave each other's instances alone.
    - Locks, Barrier: mutual exclusion, a snapshot is alone, no wakeup is lost.
    - BalloonsSpec: budgets and justification of balloon commands over all interleavings;
      a guest in need is answered, and a stalled inflation called off.
    - FrontSpec, FrontMigration: a command reaches one host once; a migration follows its
      protocol, each message in its order and once, and never leaves two owners.
    - LogsSpec, CommandLineSpec, ConfigSpec: the filter passes what an independent
      reference calls visible, and no control byte; the tail is the last lines of a log
      that grows, or the error of the read that failed; sizes and options are read exactly
      or refused; validation accepts exactly the valid configurations.

    ** Bounds and fuel

    Loops over paths and lists are structural.  [scan_log] has the fuel [scan_fuel], from
    the length of the log and its reads: each of its rounds yields a chunk, takes a read
    or sees the end; a session
    of Operations has no more than nine stages; [digest] and [trim_any] have fuel from
    the length of their input; [free_block] counts the blocks of the network.  Where a
    result depends on fuel, a lemma of the file says that it is enough.

    ** Parameters and their hypotheses

    Code that is not under [src] is a parameter: the launch ([quiet]: it touches no
    journal), what a guest does when it is asked to shut down (DeletionSpec: it leaves the
    disks of the host as they are), url.Parse, time.Parse and time.ParseDuration,
    [uuid.Parse] (its result is in canonical form), encoding/json (it reads back what it
    wrote, and a transfer request keeps its action: [FaithfulCodec]),
    strings.EqualFold and strings.ToLower (for templates), [btrfs send] and [receive] (a
    subvolume's name is one path element), the kernel's subvolume identities, and the tools [ip], [iptables] and [nft] (class
    [NetTools]).  [launches], [w_tried] and [w_truth] are history variables that no code
    reads.  Each theorem with such a hypothesis is applied at a concrete system.

    ** Not modelled

    HTTP and SSH servers, gateways and proxies (Deletion knows their listeners), how the
    SSH server splits a command line into words, the streams of backups, templates and
    migrations with the tools that write them, the copies of files in a creation, the
    jail's mounts and Firecracker's configuration, the rendering of tables, the command
    binaries and the guest agents: their work is I/O against systems the model does not
    hold.  Column upgrades of the schema; ownership, mode and free-space checks (they are
    calls that can fail); cancellation of contexts (a failure at a call). *)
From Stdlib Require Export ZArith Lia Ascii String.
From stdpp Require Export base tactics option list gmap strings sorting.

#[global] Set Default Goal Selector "!".

(** ** Errors and outcomes *)

(** A Go [error] value.  The sentinels the code tests with [errors.Is] are
    constructors of their own; [Errorf] is [errors.New] or [fmt.Errorf], carrying
    the constant part of the message. *)
Inductive error : Type :=
  | ErrNoRows                      (* database/sql.ErrNoRows *)
  | ErrConstraint                  (* a UNIQUE, PRIMARY KEY or CHECK constraint *)
  | ErrNotExist                    (* os.ErrNotExist *)
  | ErrExist                       (* os.ErrExist *)
  | ErrConnRefused                 (* unix.ECONNREFUSED *)
  | ErrIO                          (* an injected failure of the environment *)
  | ErrStartRejected (cause : error) (* provision.ErrStartRejected, wrapping another *)
  | ErrCreateRejected (cause : error) (* provision.ErrCreateRejected, wrapping another *)
  | ErrNoEligibleHost              (* front.errNoEligibleHost *)
  | ErrExit (status : Z) (cause : string) (* ssh.ExitError, wrapped with a text *)
  | Errorf (msg : string).

#[export] Instance error_eq_dec : EqDecision error.
Proof. solve_decision. Defined.

(** [err.Error()]. *)
Fixpoint error_text (e : error) : string :=
  match e with
  | ErrStartRejected cause => ("start rejected before runtime admission: " +:+ error_text cause)%stdpp
  | ErrCreateRejected cause => ("create rejected before allocation: " +:+ error_text cause)%stdpp
  | ErrNoEligibleHost => "no eligible host"
  | ErrExit _ cause => cause
  | ErrNoRows => "sql: no rows in result set"
  | ErrConstraint => "constraint failed"
  | ErrNotExist => "file does not exist"
  | ErrExist => "file already exists"
  | ErrConnRefused => "connection refused"
  | ErrIO => "input/output error"
  | Errorf msg => msg
  end.

(** The fate of one call into the environment (a SQL statement, a system call):
    it succeeds, it reports a failure without effect, or the process dies just
    before or just after its effect. *)
Inductive fault : Type := Pass | Fail | CrashBefore | CrashAfter.

Inductive outcome (A : Type) : Type :=
  | Ok (a : A)
  | Err (e : error)
  | Crashed.
Arguments Ok {A} a.
Arguments Err {A} e.
Arguments Crashed {A}.

#[export] Instance outcome_eq_dec `{EqDecision A} : EqDecision (outcome A).
Proof. solve_decision. Defined.

(** What a call into the environment computes when it is performed. *)
Definition result (A : Type) : Type := sum A error.

Definition of_result {A} (r : result A) : outcome A :=
  match r with inl a => Ok a | inr e => Err e end.

(** ** The state, error and fault monad

    A program runs against a schedule of faults, one per call into the
    environment; an exhausted schedule stands for calls that all succeed. *)
Definition M (S A : Type) : Type := list fault → S → outcome A * S * list fault.

#[export] Instance M_ret {S} : MRet (M S) := λ A a fs s, (Ok a, s, fs).

#[export] Instance M_bind {S} : MBind (M S) := λ A B k m fs s,
  match m fs s with
  | (Ok a, s', fs') => k a fs' s'
  | (Err e, s', fs') => (Err e, s', fs')
  | (Crashed, s', fs') => (Crashed, s', fs')
  end.

Definition throw {S A} (e : error) : M S A := λ fs s, (Err e, s, fs).

(** One call into the environment. *)
Definition env {S A} (f : S → result A * S) : M S A := λ fs s,
  match fs with
  | [] => let '(r, s') := f s in (of_result r, s', [])
  | Pass :: fs' => let '(r, s') := f s in (of_result r, s', fs')
  | Fail :: fs' => (Err ErrIO, s, fs')
  | CrashBefore :: fs' => (Crashed, s, fs')
  | CrashAfter :: fs' => (Crashed, (f s).2, fs')
  end.

(** A call that only reads the state. *)
Definition query {S A} (f : S → result A) : M S A := env (λ s, (f s, s)).

(** [x, err := m]: the error becomes a value the program inspects. *)
Definition try {S A} (m : M S A) : M S (result A) := λ fs s,
  match m fs s with
  | (Ok a, s', fs') => (Ok (inl a), s', fs')
  | (Err e, s', fs') => (Ok (inr e), s', fs')
  | (Crashed, s', fs') => (Crashed, s', fs')
  end.

(** [if !b { return err }]. *)
Definition require {S} (b : bool) (e : error) : M S unit :=
  if b then mret tt else throw e.

(** [defer c()]: runs when [m] returns, with or without an error, but not when
    the process dies; its own error is dropped. *)
Definition finally {S A} (m : M S A) (c : M S unit) : M S A := λ fs s,
  match m fs s with
  | (Crashed, s', fs') => (Crashed, s', fs')
  | (o, s', fs') =>
      match c fs' s' with
      | (Crashed, s'', fs'') => (Crashed, s'', fs'')
      | (_, s'', fs'') => (o, s'', fs'')
      end
  end.

(** [for _, x := range l { if err := f(x); err != nil { return err } }]. *)
Fixpoint for_each {S A} (f : A → M S unit) (l : list A) : M S unit :=
  match l with
  | [] => mret tt
  | x :: l' => f x ;; for_each f l'
  end.

(** Running a program with an environment that never fails. *)
Definition run {S A} (m : M S A) (s : S) : outcome A * S := (m [] s).1.

(** Go's [x, err := f(); if err != nil { return err }] on plain results. *)
#[export] Instance result_ret : MRet result := λ A a, inl a.
#[export] Instance result_bind : MBind result := λ A B k r,
  match r with inl a => k a | inr e => inr e end.

(** A plain result as a program that makes no call. *)
Definition lift {S A} (r : result A) : M S A :=
  match r with inl a => mret a | inr e => throw e end.

(** ** A program logic for [M]

    [wp m Q s]: under every fault schedule, [m] started in [s] ends with an
    outcome and a state that satisfy [Q]. *)
Definition wp {S A} (m : M S A) (Q : outcome A → S → Prop) (s : S) : Prop :=
  ∀ fs, Q (m fs s).1.1 (m fs s).1.2.

Section wp.
Context {S : Type}.
Implicit Types s : S.

Lemma wp_ret {A} (a : A) Q s : Q (Ok a) s → wp (mret a) Q s.
Proof. intros H fs. exact H. Qed.

Lemma wp_throw {A} e (Q : outcome A → S → Prop) s : Q (Err e) s → wp (throw e) Q s.
Proof. intros H fs. exact H. Qed.

Lemma wp_bind {A B} (m : M S A) (k : A → M S B) Q s :
  wp m (λ o s', match o with
                | Ok a => wp (k a) Q s'
                | Err e => Q (Err e) s'
                | Crashed => Q Crashed s'
                end) s →
  wp (m ≫= k) Q s.
Proof.
  intros H fs. specialize (H fs). unfold mbind, M_bind.
  destruct (m fs s) as [[[a|e|] s'] fs']; simpl in *; [apply H|done|done].
Qed.

Lemma wp_env {A} (f : S → result A * S) Q s :
  Q (Err ErrIO) s → Q Crashed s →
  Q (of_result (f s).1) (f s).2 → Q Crashed (f s).2 →
  wp (env f) Q s.
Proof.
  intros Hfail Hbefore Hok Hafter fs. unfold env.
  destruct fs as [|[] fs']; simpl; try done; destruct (f s); done.
Qed.

Lemma wp_query {A} (f : S → result A) Q s :
  Q (Err ErrIO) s → Q Crashed s → Q (of_result (f s)) s →
  wp (query f) Q s.
Proof. intros. by apply wp_env. Qed.

Lemma wp_try {A} (m : M S A) Q s :
  wp m (λ o s', match o with
                | Ok a => Q (Ok (inl a)) s'
                | Err e => Q (Ok (inr e)) s'
                | Crashed => Q Crashed s'
                end) s →
  wp (try m) Q s.
Proof.
  intros H fs. specialize (H fs). unfold try.
  destruct (m fs s) as [[[a|e|] s'] fs']; simpl in *; done.
Qed.

Lemma wp_require b e (Q : outcome unit → S → Prop) s :
  (b = true → Q (Ok tt) s) → (b = false → Q (Err e) s) → wp (require b e) Q s.
Proof. intros Ht Hf fs. destruct b; simpl; auto. Qed.

Lemma wp_finally {A} (m : M S A) c Q s :
  wp m (λ o s', match o with
                | Crashed => Q Crashed s'
                | _ => wp c (λ o' s'', match o' with
                                       | Crashed => Q Crashed s''
                                       | _ => Q o s''
                                       end) s'
                end) s →
  wp (finally m c) Q s.
Proof.
  intros H fs. specialize (H fs). unfold finally.
  destruct (m fs s) as [[[a|e|] s'] fs']; simpl in *; [| |done];
    specialize (H fs'); destruct (c fs' s') as [[[u|e'|] s''] fs'']; done.
Qed.

Lemma wp_mono {A} (m : M S A) (Q Q' : outcome A → S → Prop) s :
  wp m Q s → (∀ o s', Q o s' → Q' o s') → wp m Q' s.
Proof. intros H HQ fs. apply HQ, H. Qed.

Lemma wp_and {A} (m : M S A) (Q Q' : outcome A → S → Prop) s :
  wp m Q s → wp m Q' s → wp m (λ o s', Q o s' ∧ Q' o s') s.
Proof. intros H H' fs. split; [apply H|apply H']. Qed.

(** Loops: a relation between states that every iteration maintains. *)
Lemma wp_for_each {A} (f : A → M S unit) (I : S → Prop) l s :
  I s → (∀ x s', x ∈ l → I s' → wp (f x) (λ _ s'', I s'') s') →
  wp (for_each f l) (λ _ s', I s') s.
Proof.
  revert s. induction l as [|x l IH]; intros s Hs Hf; simpl.
  - by apply wp_ret.
  - apply wp_bind. eapply wp_mono.
    { apply Hf; [left|done]. }
    intros [[]|e|] s' HI; [|done|done].
    apply IH; [done|]. intros y s'' Hy. apply Hf. by right.
Qed.

(** A loop that returns without an error has done all its work. *)
Lemma wp_for_each_all {A} (f : A → M S unit) (R : relation S) `{!PreOrder R}
    (P : A → S → Prop) l s :
  (∀ x s1 s2, R s1 s2 → P x s1 → P x s2) →
  (∀ x s', x ∈ l → R s s' → wp (f x) (λ o s'', R s' s'' ∧ (o = Ok tt → P x s'')) s') →
  wp (for_each f l) (λ o s', R s s' ∧ (o = Ok tt → ∀ x, x ∈ l → P x s')) s.
Proof.
  intros HP. revert s. induction l as [|x l IH]; intros s Hf; simpl.
  - apply wp_ret. split; [done|]. intros _ x Hx. by apply not_elem_of_nil in Hx.
  - apply wp_bind. eapply wp_mono; [apply Hf; [left|done]|].
    intros [[]|e|] s1 [HR HPx]; [|by split..].
    eapply wp_mono; [apply IH|].
    { intros y s2 Hy HR2. apply Hf; [by right|by transitivity s1]. }
    intros o s2 [HR2 Hall]. split; [by transitivity s1|].
    intros Ho y [->|Hy]%elem_of_cons; [|by apply Hall]. eapply HP; [exact HR2|by apply HPx].
Qed.

(** What holds of every fault schedule holds of the run without faults. *)
Lemma wp_run {A} (m : M S A) Q s : wp m Q s → Q (run m s).1 (run m s).2.
Proof. intros H. apply (H []). Qed.
End wp.

(** *** Relations every program step maintains

    [within R m]: whatever the environment does, [m] moves the state along [R].
    For a preorder [R] this composes through the whole program. *)
Definition within {S A} (R : relation S) (m : M S A) : Prop :=
  ∀ s, wp m (λ _ s', R s s') s.

Section within.
Context {S : Type} (R : relation S) `{!PreOrder R}.

Lemma within_ret {A} (a : A) : within R (mret a).
Proof. intros s. apply wp_ret. reflexivity. Qed.
Lemma within_throw {A} e : within R (throw e : M S A).
Proof. intros s. apply wp_throw. reflexivity. Qed.
Lemma within_bind {A B} (m : M S A) (k : A → M S B) :
  within R m → (∀ a, within R (k a)) → within R (m ≫= k).
Proof.
  intros Hm Hk s. apply wp_bind. eapply wp_mono; [apply Hm|].
  intros [a|e|] s' H; [|done|done].
  eapply wp_mono; [apply Hk|]. intros o s'' H'. by etransitivity.
Qed.
Lemma within_query {A} (f : S → result A) : within R (query f).
Proof. intros s. apply wp_query; reflexivity. Qed.
Lemma within_env {A} (f : S → result A * S) :
  (∀ s, R s (f s).2) → within R (env f).
Proof. intros H s. apply wp_env; auto; reflexivity. Qed.
Lemma within_try {A} (m : M S A) : within R m → within R (try m).
Proof.
  intros H s. apply wp_try. eapply wp_mono; [apply H|]. by intros [].
Qed.
Lemma within_require b e : within R (require b e : M S unit).
Proof. intros s. apply wp_require; intros _; reflexivity. Qed.
Lemma within_finally {A} (m : M S A) c :
  within R m → within R c → within R (finally m c).
Proof.
  intros Hm Hc s. apply wp_finally. eapply wp_mono; [apply Hm|].
  intros [a|e|] s' H; try done;
    (eapply wp_mono; [apply Hc|]; intros [] s'' H'; by etransitivity).
Qed.
Lemma within_for_each {A} (f : A → M S unit) l :
  (∀ x, within R (f x)) → within R (for_each f l).
Proof.
  intros Hf. induction l as [|x l IH]; simpl.
  - apply within_ret.
  - apply within_bind; [apply Hf|]. intros _. apply IH.
Qed.
End within.

Lemma within_mono {S A} (R R' : relation S) (m : M S A) :
  (∀ s s', R s s' → R' s s') → within R m → within R' m.
Proof. intros HR Hm s. eapply wp_mono; [apply Hm|]. intros o s'. apply HR. Qed.

(** *** An invariant of all outcomes and a postcondition of success *)

Definition post {S A} (I : S → Prop) (P : A → S → Prop) (o : outcome A) (s : S) : Prop :=
  I s ∧ ∀ a, o = Ok a → P a s.

Section post.
Context {S : Type} (I : S → Prop).

Lemma post_ret {A} (a : A) (P : A → S → Prop) s : I s → P a s → wp (mret a) (post I P) s.
Proof. intros HI HP. apply wp_ret. split; [done|]. by intros ? [= <-]. Qed.
Lemma post_throw {A} e (P : A → S → Prop) s : I s → wp (throw e) (post I P) s.
Proof. intros HI. by apply wp_throw. Qed.
Lemma post_bind {A B} (m : M S A) (k : A → M S B) (P : A → S → Prop) (P' : B → S → Prop) s :
  wp m (post I P) s → (∀ a s', I s' → P a s' → wp (k a) (post I P') s') →
  wp (m ≫= k) (post I P') s.
Proof.
  intros Hm Hk. apply wp_bind. eapply wp_mono; [apply Hm|].
  intros [a|e|] s' [HI HP]; [by apply Hk; [|apply HP]|by split..].
Qed.
Lemma post_mono {A} (I' : S → Prop) (m : M S A) (P P' : A → S → Prop) s :
  wp m (post I' P) s → (∀ s', I' s' → I s') → (∀ a s', I' s' → P a s' → P' a s') →
  wp m (post I P') s.
Proof.
  intros Hm HI HP. eapply wp_mono; [apply Hm|]. intros o s' [Hs Ho].
  split; [by apply HI|]. intros a Ha. by apply HP, Ho.
Qed.
Lemma post_try {A} (m : M S A) (P : A → S → Prop) s :
  wp m (post I P) s → wp (try m) (post I (λ r s', ∀ a, r = inl a → P a s')) s.
Proof.
  intros Hm. apply wp_try. eapply wp_mono; [apply Hm|]. intros [a|e|] s' [HI HP]; split; try done.
  - intros ? [= <-] a' [= <-]. by apply HP.
  - by intros ? [= <-].
Qed.
(** When an error leaves [J], the handler may rely on it. *)
Lemma post_try_keep {A} (J : S → Prop) (m : M S A) (P : A → S → Prop) s :
  wp m (post J P) s → (∀ s', J s' → I s') →
  wp (try m) (post I (λ r s', J s' ∧ ∀ a, r = inl a → P a s')) s.
Proof.
  intros Hm HJ. apply wp_try. eapply wp_mono; [apply Hm|].
  intros [a|e|] s' [Hs HP]; split; auto; try done; intros ? [= <-]; split; try done.
  intros ? [= <-]. by apply HP.
Qed.
Lemma post_require b e s : I s → wp (require b e) (post I (λ _ s', s' = s ∧ b = true)) s.
Proof. intros HI. apply wp_require; intros Hb; by split. Qed.
Lemma post_query {A} (f : S → result A) s :
  I s → wp (query f) (post I (λ a s', s' = s ∧ f s = inl a)) s.
Proof.
  intros HI. apply wp_query; [by split..|]. split; [done|]. intros a Ha.
  split; [done|]. by destruct (f s); simplify_eq/=.
Qed.
Lemma post_env {A} (f : S → result A * S) s :
  I s → I (f s).2 → wp (env f) (post I (λ a s', (f s).1 = inl a ∧ s' = (f s).2)) s.
Proof.
  intros HI HI'. apply wp_env; [by split..| |by split]. split; [done|]. intros a Ha.
  by destruct (f s) as [[] ?]; simplify_eq/=.
Qed.
Lemma post_within {A} (R : relation S) (m : M S A) s :
  within R m → (∀ s', R s s' → I s') → wp m (post I (λ _ s', R s s')) s.
Proof. intros Hm HI. eapply wp_mono; [apply Hm|]. intros o s' HR. split; [by apply HI|done]. Qed.
Lemma post_lift {A} (r : result A) s : I s → wp (lift r) (post I (λ a s', s' = s ∧ r = inl a)) s.
Proof. intros HI fs. destruct r; split; cbn; auto; intros ? [= <-]; auto. Qed.
Lemma post_finally {A} (m : M S A) c (P : A → S → Prop) s :
  wp m (post I P) s → (∀ s', I s' → wp c (λ _ s'', I s'') s') →
  (∀ a s', I s' → P a s' → wp c (λ _ s'', P a s'') s') → wp (finally m c) (post I P) s.
Proof.
  intros Hm Hc Hp. apply wp_finally. eapply wp_mono; [exact Hm|].
  intros [a|e|] s' [HI HP]; [|eapply wp_mono; [by apply Hc|]; intros [] s'' HI'; by split|done].
  specialize (HP a eq_refl). eapply wp_mono; [apply wp_and; [by apply Hc|by apply (Hp a)]|].
  intros [] s'' [HI' HP']; split; try done; by intros ? [= <-].
Qed.
End post.

(** A program that maintains [R] keeps every property [R] transports. *)
Lemma within_wp {S A} (R : relation S) (m : M S A) (Q : S → Prop) s :
  within R m → (∀ s', R s s' → Q s') → wp m (λ _ s', Q s') s.
Proof. intros H HQ. eapply wp_mono; [apply H|]. auto. Qed.

Lemma wp_lift {S A} (r : result A) (Q : outcome A → S → Prop) s :
  Q (of_result r) s → wp (lift r) Q s.
Proof. intros H fs. by destruct r. Qed.

Lemma within_lift {S A} (R : relation S) `{!PreOrder R} (r : result A) : within R (lift r).
Proof. intros s. apply wp_lift. reflexivity. Qed.

(** Concatenation computes on its first argument (stdpp blocks [simpl]). *)
Lemma append_cons c s t : (String c s +:+ t = String c (s +:+ t))%stdpp.
Proof. done. Qed.

Lemma append_assoc s t u : ((s +:+ t) +:+ u = s +:+ (t +:+ u))%stdpp.
Proof. induction s as [|c s IH]; [done|]. by rewrite !append_cons, IH. Qed.

Lemma append_nil_r s : (s +:+ "" = s)%stdpp.
Proof. induction s as [|c s IH]; [done|]. by rewrite append_cons, IH. Qed.

Lemma append_inj s t u : (s +:+ t = s +:+ u)%stdpp → t = u.
Proof. induction s as [|c s IH]; [done|]. rewrite !append_cons. intros [= H]. by apply IH. Qed.

(** *** Automation *)

Create HintDb srv.

#[export] Hint Resolve within_ret within_throw within_query within_require within_lift : srv.
#[export] Hint Resolve within_bind within_try within_finally within_for_each : srv.

(** Symbolic execution of one construct of a program. *)
Ltac wp_step :=
  lazymatch goal with
  | |- wp (mret _) _ _ => apply wp_ret
  | |- wp (throw _) _ _ => apply wp_throw
  | |- wp (lift _) _ _ => apply wp_lift
  | |- wp (_ ≫= _) _ _ => apply wp_bind
  | |- wp (query _) _ _ => apply wp_query
  | |- wp (env _) _ _ => apply wp_env
  | |- wp (try _) _ _ => apply wp_try
  | |- wp (require _ _) _ _ => apply wp_require; intros ?
  | |- wp (finally _ _) _ _ => apply wp_finally
  | |- wp (if ?b then _ else _) _ _ => destruct b eqn:?
  | |- wp (match ?x with _ => _ end) _ _ => destruct x eqn:?
  end; cbn beta iota.

(** Structural part of a [within] goal; leaves the calls into the environment. *)
Ltac within_step :=
  lazymatch goal with
  | |- within _ (mret _) => apply within_ret; apply _
  | |- within _ (throw _) => apply within_throw; apply _
  | |- within _ (lift _) => apply within_lift; apply _
  | |- within _ (query _) => apply within_query; apply _
  | |- within _ (require _ _) => apply within_require; apply _
  | |- within _ (_ ≫= _) => apply within_bind; [apply _| |intros ?]
  | |- within _ (try _) => apply within_try
  | |- within _ (finally _ _) => apply within_finally; [apply _| |]
  | |- within _ (for_each _ _) => apply within_for_each; [apply _|intros ?]
  | |- within _ (if ?b then _ else _) => destruct b eqn:?
  | |- within _ (match ?x with _ => _ end) => destruct x eqn:?
  | |- within _ (let '_ := ?x in _) => destruct x eqn:?
  end.

(** Linear arithmetic with quotients and remainders by constants. *)
Ltac dlia := Z.to_euclidean_division_equations; lia.

(** ** 64-bit integers

    Go's [int64]: arithmetic wraps around. *)

#[local] Open Scope Z_scope.

Definition max_int64 : Z := 2 ^ 63 - 1.

(** The value of [z] in 64 bits, in two's complement. *)
Definition int64 (z : Z) : Z := (z + 2 ^ 63) `mod` 2 ^ 64 - 2 ^ 63.

Definition fits (z : Z) : Prop := - 2 ^ 63 <= z < 2 ^ 63.

Lemma int64_fits z : fits (int64 z).
Proof. unfold fits, int64. pose proof (Z.mod_pos_bound (z + 2 ^ 63) (2 ^ 64)). lia. Qed.
Lemma int64_id z : fits z → int64 z = z.
Proof. unfold fits, int64. intros H. rewrite Z.mod_small; lia. Qed.

(** A running [int64] sum is the sum modulo 2^64. *)
Lemma int64_add_l a b : int64 (int64 a + b) = int64 (a + b).
Proof.
  unfold int64. replace ((a + 2 ^ 63) mod 2 ^ 64 - 2 ^ 63 + b + 2 ^ 63) with ((a + 2 ^ 63) mod 2 ^ 64 + b) by lia.
  rewrite Z.add_mod_idemp_l by lia. do 2 f_equal. lia.
Qed.
Lemma int64_add_r a b : int64 (a + int64 b) = int64 (a + b).
Proof. rewrite Z.add_comm, int64_add_l. f_equal. lia. Qed.

(** [for _, x := range l { total += f(x) }]. *)
Definition sum_int64 {A} (f : A → Z) (l : list A) : Z := fold_left (λ t x, int64 (t + f x)) l 0.
Definition total {A} (f : A → Z) (l : list A) : Z := foldr (λ x t, f x + t) 0 l.

Lemma fold_int64 {A} (f : A → Z) l t :
  fold_left (λ t x, int64 (t + f x)) l (int64 t) = int64 (t + total f l).
Proof.
  revert t. induction l as [|x l IH]; intros t.
  - cbn. by rewrite Z.add_0_r.
  - change (fold_left (λ t x, int64 (t + f x)) l (int64 (int64 t + f x)) = int64 (t + (f x + total f l))).
    rewrite int64_add_l, IH. f_equal. lia.
Qed.
Lemma sum_int64_total {A} (f : A → Z) l : sum_int64 f l = int64 (total f l).
Proof. apply (fold_int64 f l 0). Qed.

Lemma total_cons {A} (f : A → Z) x l : total f (x :: l) = f x + total f l.
Proof. done. Qed.
Lemma total_app {A} (f : A → Z) l1 l2 : total f (l1 ++ l2) = total f l1 + total f l2.
Proof.
  induction l1 as [|x l1 IH]; [done|].
  change (f x + total f (l1 ++ l2)%list = f x + total f l1 + total f l2). rewrite IH. lia.
Qed.
Lemma total_perm {A} (f : A → Z) l1 l2 : l1 ≡ₚ l2 → total f l1 = total f l2.
Proof. unfold total. induction 1; cbn in *; lia. Qed.
Lemma total_map {A B} (g : A → B) (f : B → Z) l : total f (map g l) = total (λ x, f (g x)) l.
Proof. unfold total. induction l as [|x l IH]; cbn; [done|]. by rewrite IH. Qed.
Lemma total_nonneg {A} (f : A → Z) l : (∀ x, x ∈ l → 0 <= f x) → 0 <= total f l.
Proof.
  induction l as [|x l IH]; intros H; [done|]. change (0 <= f x + total f l).
  assert (0 <= f x) by (apply H; left). assert (0 <= total f l) by (apply IH; intros; apply H; by right). lia.
Qed.
