(* ===== verification/GoStrings.v ===== *)
(** * The parts of package strings the source uses

    A Go string is a sequence of bytes: a [string] of 8-bit [ascii] characters.
    The Unicode functions work on the UTF-8 encodings they meet in it. *)
From S2P Require Import Prelude.

#[local] Open Scope Z_scope.

Definition byte (n : Z) : ascii := ascii_of_N (Z.to_N n).
Definition byte_value (c : ascii) : Z := Z.of_N (N_of_ascii c).

Fixpoint of_bytes (l : list Z) : string :=
  match l with
  | [] => EmptyString
  | n :: l' => String (byte n) (of_bytes l')
  end.

(** [strings.CutPrefix]. *)
Fixpoint CutPrefix (s p : string) : option string :=
  match p, s with
  | EmptyString, _ => Some s
  | String c p', String c' s' => if Ascii.eqb c c' then CutPrefix s' p' else None
  | String _ _, EmptyString => None
  end.

Definition HasPrefix (s p : string) : bool :=
  match CutPrefix s p with Some _ => true | None => false end.

Definition TrimPrefix (s p : string) : string :=
  match CutPrefix s p with Some s' => s' | None => s end.

(** [strings.ToLower] and [strings.EqualFold] on ASCII letters. *)
Definition lower (c : ascii) : ascii :=
  let n := byte_value c in
  if (65 <=? n) && (n <=? 90) then byte (n + 32) else c.

Fixpoint map_string (f : ascii → ascii) (s : string) : string :=
  match s with
  | EmptyString => EmptyString
  | String c s' => String (f c) (map_string f s')
  end.

Definition is_ascii (c : ascii) : bool := byte_value c <? 128.
Fixpoint all_chars (p : ascii → bool) (s : string) : bool :=
  match s with
  | EmptyString => true
  | String c s' => p c && all_chars p s'
  end.

(** [strings.EqualFold(s, t)] for a [t] of ASCII letters other than k and s,
    the only two with a non-ASCII character in their folding orbit. *)
Definition EqualFold (s t : string) : bool :=
  String.eqb (map_string lower s) (map_string lower t).

(** The UTF-8 encodings of the characters [unicode.IsSpace] accepts. *)
Definition space_encodings : list string :=
  map of_bytes
    ([[9]; [10]; [11]; [12]; [13]; [32]; [194; 133]; [194; 160]; [225; 154; 128]] ++
     map (λ n, [226; 128; 128 + n]) [0; 1; 2; 3; 4; 5; 6; 7; 8; 9; 10; 40; 41; 47] ++
     [[226; 129; 159]; [227; 128; 128]])%list.

Fixpoint rev_acc (s acc : string) : string :=
  match s with
  | EmptyString => acc
  | String c s' => rev_acc s' (String c acc)
  end.
Definition rev_string (s : string) : string := rev_acc s EmptyString.

Definition cut_any (ps : list string) (s : string) : option string :=
  list_find (λ p, is_Some (CutPrefix s p)) ps ≫= λ '(_, p), CutPrefix s p.

(** Every step removes at least one byte: the length is enough fuel. *)
Fixpoint trim_any (fuel : nat) (ps : list string) (s : string) : string :=
  match fuel with
  | O => s
  | S fuel' => match cut_any ps s with
               | Some s' => trim_any fuel' ps s'
               | None => s
               end
  end.

(** [strings.TrimSpace]: the left, then the right. *)
Definition TrimLeftSpace (s : string) : string :=
  trim_any (String.length s) space_encodings s.
Definition TrimSpace (s : string) : string :=
  let l := TrimLeftSpace s in
  rev_string (trim_any (String.length l) (map rev_string space_encodings) (rev_string l)).

(** [strings.IndexByte >= 0], [strings.Contains] for one byte. *)
Fixpoint ContainsByte (s : string) (c : ascii) : bool :=
  match s with
  | EmptyString => false
  | String c' s' => Ascii.eqb c c' || ContainsByte s' c
  end.

Definition ContainsAny (s cs : string) : bool :=
  negb (all_chars (λ c, negb (ContainsByte cs c)) s).

(** [strings.Cut(s, sep)] for a separator of one byte. *)
Fixpoint Cut (s : string) (c : ascii) : string * string * bool :=
  match s with
  | EmptyString => (EmptyString, EmptyString, false)
  | String c' s' =>
      if Ascii.eqb c c' then (EmptyString, s', true)
      else let '(a, b, found) := Cut s' c in (String c' a, b, found)
  end.

(** [strings.Split(s, sep)] for a separator of one byte. *)
Fixpoint Split (s : string) (c : ascii) : list string :=
  match s with
  | EmptyString => [EmptyString]
  | String c' s' =>
      if Ascii.eqb c c' then EmptyString :: Split s' c
      else match Split s' c with
           | w :: ws => String c' w :: ws
           | [] => [String c' EmptyString]
           end
  end.

Definition HasSuffix (s p : string) : bool := HasPrefix (rev_string s) (rev_string p).

(** [s[strings.LastIndex(s, c)+1:]], when [c] occurs. *)
Fixpoint after_last (c : ascii) (s : string) : option string :=
  match s with
  | EmptyString => None
  | String c' s' =>
      match after_last c s' with
      | Some t => Some t
      | None => if Ascii.eqb c c' then Some s' else None
      end
  end.

(** [strings.Fields] on ASCII text. *)
Definition is_ascii_space (c : ascii) : bool :=
  let n := byte_value c in (n =? 32) || ((9 <=? n) && (n <=? 13)).

Fixpoint fields_from (s word : string) : list string :=
  let flush := if String.eqb word "" then [] else [rev_string word] in
  match s with
  | EmptyString => flush
  | String c s' =>
      if is_ascii_space c then (flush ++ fields_from s' EmptyString)%list
      else fields_from s' (String c word)
  end.
Definition Fields (s : string) : list string := fields_from s EmptyString.

(** [strconv.ParseUint(s, 10, 64)]. *)
Fixpoint decimal (acc : Z) (s : string) : option Z :=
  match s with
  | EmptyString => Some acc
  | String c s' =>
      let n := byte_value c in
      if (48 <=? n) && (n <=? 57) then decimal (acc * 10 + (n - 48)) s' else None
  end.
Definition ParseUint (s : string) : result Z :=
  match s, decimal 0 s with
  | String _ _, Some n => if n <? 2 ^ 64 then inl n else inr (Errorf "value out of range")
  | _, _ => inr (Errorf "invalid syntax")
  end.

(** [strings.Join(l, sep)]. *)
Fixpoint Join (l : list string) (sep : string) : string :=
  match l with
  | [] => EmptyString
  | [w] => w
  | w :: ws => (w +:+ sep +:+ Join ws sep)%stdpp
  end.

Definition nonempty (s : string) : bool := negb (String.eqb s "").

Lemma nonempty_spec s : nonempty s = true ↔ s ≠ EmptyString.
Proof. unfold nonempty. destruct s; simpl; split; congruence. Qed.

(** ** Prefixes and suffixes of concatenations *)

Lemma rev_onto_append s t acc :
  rev_acc (s +:+ t)%stdpp acc = rev_acc t (rev_acc s acc).
Proof. revert acc. induction s as [|c s IH]; intros acc; [done|]. apply IH. Qed.

Lemma rev_onto s acc : rev_acc s acc = (rev_string s +:+ acc)%stdpp.
Proof.
  unfold rev_string. revert acc. induction s as [|c s IH]; intros acc; [done|].
  cbn [rev_acc]. rewrite IH, (IH (String c "")). generalize (rev_acc s "").
  intros t. clear IH. induction t as [|c1 t IHt]; [done|]. by rewrite !append_cons, IHt.
Qed.

Lemma CutPrefix_append p s : CutPrefix (p +:+ s)%stdpp p = Some s.
Proof.
  induction p as [|c p IH]; [by destruct s|]. rewrite append_cons. cbn. by rewrite Ascii.eqb_refl.
Qed.

Lemma CutPrefix_Some s p rest : CutPrefix s p = Some rest → s = (p +:+ rest)%stdpp.
Proof.
  revert s. induction p as [|c p IH]; intros s; [destruct s; by intros [= <-]|].
  destruct s as [|c' s]; [done|]. cbn. destruct (Ascii.eqb_spec c c') as [<-|]; [|done].
  intros H. by rewrite (IH _ H).
Qed.

Lemma HasSuffix_append s p : HasSuffix (s +:+ p)%stdpp p = true.
Proof.
  unfold HasSuffix, HasPrefix, rev_string at 1. rewrite rev_onto_append, rev_onto.
  by rewrite CutPrefix_append.
Qed.
