(* ===== verification/Paths.v ===== *)
(** * The parts of package path/filepath the source uses

    Slash-separated paths: cleaning, joining and splitting, and the single path
    segments the source accepts as instance names. *)
From S2P Require Import Prelude GoStrings.

#[local] Open Scope Z_scope.

Definition IsAbs (p : string) : bool := HasPrefix p "/".

(** The elements of a cleaned path, last first: "." and empty elements vanish, and
    ".." removes the element before it.  At the root ".." stays at the root. *)
Fixpoint clean_elements (rooted : bool) (elems acc : list string) : list string :=
  match elems with
  | [] => acc
  | e :: elems' =>
      if String.eqb e "" || String.eqb e "." then clean_elements rooted elems' acc
      else if String.eqb e ".." then
        match acc with
        | a :: acc' =>
            if String.eqb a ".." then clean_elements rooted elems' (".." :: acc)
            else clean_elements rooted elems' acc'
        | [] => clean_elements rooted elems' (if rooted then [] else [".."])
        end
      else clean_elements rooted elems' (e :: acc)
  end.

(** [filepath.Clean]. *)
Definition Clean (p : string) : string :=
  let body := Join (rev (clean_elements (IsAbs p) (Split p "/") [])) "/" in
  if IsAbs p then ("/" +:+ body)%stdpp else if String.eqb body "" then "." else body.

(** [filepath.Join]: empty elements are ignored. *)
Definition JoinPath (elems : list string) : string :=
  match filter (λ e, e ≠ "") elems with
  | [] => EmptyString
  | elems' => Clean (Join elems' "/")
  end.

Fixpoint drop_slashes (s : string) : string :=
  match s with
  | String c s' => if Ascii.eqb c "/" then drop_slashes s' else s
  | EmptyString => EmptyString
  end.
Definition trim_slashes (s : string) : string := rev_string (drop_slashes (rev_string s)).

(** [filepath.Base]. *)
Definition Base (p : string) : string :=
  if String.eqb p "" then "."
  else let t := trim_slashes p in
       if String.eqb t "" then "/" else default t (after_last "/" t).

(** [filepath.Dir]: everything up to the last slash, cleaned. *)
Fixpoint until_last (c : ascii) (s : string) : string :=
  match s with
  | EmptyString => EmptyString
  | String c' s' =>
      if ContainsByte s c then String c' (until_last c s') else EmptyString
  end.
Definition Dir (p : string) : string := Clean (until_last "/" p).

Example clean_demo : Clean "/srv//data/./x/../instances/" = "/srv/data/instances".
Proof. reflexivity. Qed.
Example base_demo : (Base "/usr/bin/firecracker", Base "", Base "///", Base "a/b/") =
                    ("firecracker", ".", "/", "b").
Proof. reflexivity. Qed.
Example dir_demo : (Dir "/srv/data/instances", Dir "/srv", Dir "x") = ("/srv/data", "/", ".").
Proof. reflexivity. Qed.

(** [validName]: [^[a-z0-9](?:[a-z0-9-]{0,61}[a-z0-9])?$], at most 63 characters
    from a-z, 0-9 and '-', the first and the last not '-'. *)
Definition is_alnum (c : ascii) : bool :=
  let n := byte_value c in ((97 <=? n) && (n <=? 122)) || ((48 <=? n) && (n <=? 57)).

Definition first_char (p : ascii → bool) (s : string) : bool :=
  match s with String c _ => p c | EmptyString => false end.

Definition validName (s : string) : bool :=
  all_chars (λ c, is_alnum c || Ascii.eqb c "-") s && first_char is_alnum s &&
  first_char is_alnum (rev_string s) && (String.length s <=? 63)%nat.

Example validName_demo :
  map validName ["web-1"; "-web"; "web-"; "We"; ""; "a"] = [true; false; false; false; false; true].
Proof. reflexivity. Qed.

(** ** Children of a clean directory *)

(** One element of a path. *)
Definition segment (e : string) : bool :=
  nonempty e && negb (ContainsByte e "/") && negb (String.eqb e ".") && negb (String.eqb e "..").

Definition child (d e : string) : string :=
  if String.eqb d "/" then ("/" +:+ e)%stdpp else (d +:+ "/" +:+ e)%stdpp.

Lemma segment_no_slash e : segment e = true → ContainsByte e "/" = false.
Proof.
  unfold segment. intros [[[_ H]%andb_true_iff _]%andb_true_iff _]%andb_true_iff.
  by apply negb_true_iff.
Qed.

Lemma Split_plain e c : ContainsByte e c = false → Split e c = [e].
Proof.
  induction e as [|c' e IH]; cbn; [done|]. intros [-> H]%orb_false_iff. by rewrite (IH H).
Qed.
Lemma Split_app s e c :
  ContainsByte e c = false → Split (s +:+ String c e)%stdpp c = (Split s c ++ [e])%list.
Proof.
  intros He. induction s as [|c' s IH].
  - change (Split (String c e) c = [""; e]). cbn. rewrite Ascii.eqb_refl. by rewrite Split_plain.
  - rewrite append_cons. cbn. rewrite IH. destruct (Ascii.eqb c c'); [done|].
    assert (Hn : Split s c ≠ []).
    { destruct s as [|c1 s1]; [done|]. cbn. by repeat case_match. }
    by destruct (Split s c).
Qed.

Lemma clean_elements_app r l1 l2 acc :
  clean_elements r (l1 ++ l2) acc = clean_elements r l2 (clean_elements r l1 acc).
Proof.
  revert acc. induction l1 as [|e l1 IH]; intros acc; [done|]. cbn.
  repeat (case_match; try apply IH).
Qed.
Lemma clean_elements_segment r e acc : segment e = true → clean_elements r [e] acc = e :: acc.
Proof.
  unfold segment, nonempty. cbn. destruct (String.eqb e ""), (String.eqb e "."),
    (String.eqb e ".."), (ContainsByte e "/"); cbn; done.
Qed.

Lemma Join_snoc l e : l ≠ [] → Join (l ++ [e]) "/" = (Join l "/" +:+ "/" +:+ e)%stdpp.
Proof.
  induction l as [|w l IH]; [done|]. intros _. destruct l as [|w' l]; [done|].
  change (Join ((w :: w' :: l) ++ [e]) "/") with (w +:+ "/" +:+ Join ((w' :: l) ++ [e]) "/")%stdpp.
  rewrite IH by done. change (Join (w :: w' :: l) "/") with (w +:+ "/" +:+ Join (w' :: l) "/")%stdpp.
  by rewrite !append_assoc.
Qed.

Lemma IsAbs_append d s : IsAbs d = true → IsAbs (d +:+ s)%stdpp = true.
Proof.
  assert (Hn : ∀ t, CutPrefix t "" = Some t) by (by intros []).
  destruct d as [|c d]; [done|]. unfold IsAbs, HasPrefix. rewrite append_cons. cbn [CutPrefix].
  by destruct (Ascii.eqb "/" c); rewrite ?Hn.
Qed.

Lemma Clean_child d e :
  IsAbs d = true → Clean d = d → segment e = true → Clean (d +:+ "/" +:+ e)%stdpp = child d e.
Proof.
  intros Ha Hd He. unfold Clean in *. rewrite IsAbs_append by done. rewrite Ha in Hd.
  change ("/" +:+ e)%stdpp with (String "/" e).
  rewrite (Split_app d e "/") by (by apply segment_no_slash).
  rewrite clean_elements_app, clean_elements_segment by done.
  set (X := clean_elements true (Split d "/") []) in *. cbn [rev]. unfold child.
  destruct (decide (rev X = [])) as [HX|HX].
  - rewrite HX in *. rewrite <- Hd. done.
  - rewrite Join_snoc by done.
    assert (Hne : d ≠ "/").
    { intros Hroot. apply HX. unfold X. by rewrite Hroot. }
    rewrite (proj2 (String.eqb_neq d "/") Hne).
    rewrite <- append_assoc. by rewrite Hd.
Qed.

Lemma child_abs d e : IsAbs d = true → IsAbs (child d e) = true.
Proof. intros Ha. unfold child. case_match; by apply IsAbs_append. Qed.
Lemma child_clean d e :
  IsAbs d = true → Clean d = d → segment e = true → Clean (child d e) = child d e.
Proof.
  intros Ha Hd He. destruct (String.eqb_spec d "/") as [->|Hne].
  - change (child "/" e) with ("" +:+ String "/" e)%stdpp. unfold Clean.
    assert (HA : IsAbs ("" +:+ String "/" e)%stdpp = true) by (by apply (IsAbs_append "/")).
    rewrite HA, Split_app by (by apply segment_no_slash).
    by rewrite clean_elements_app, clean_elements_segment.
  - unfold child. rewrite (proj2 (String.eqb_neq d "/") Hne). rewrite Clean_child by done.
    unfold child. by rewrite (proj2 (String.eqb_neq d "/") Hne).
Qed.
Lemma JoinPath_child d e :
  IsAbs d = true → Clean d = d → segment e = true → JoinPath [d; e] = child d e.
Proof.
  intros Ha Hd He. rewrite <- Clean_child by done. unfold JoinPath.
  assert (Hn : ∀ s, s ≠ EmptyString → filter (λ e, e ≠ "") [s] = [s]).
  { intros s Hs. by rewrite filter_cons_True. }
  rewrite filter_cons_True by (by destruct d). rewrite Hn; [done|].
  by destruct e.
Qed.
