(* ===== verification/Timestamps.v ===== *)
(** * Timestamps as the database stores them

    Models [timeString], [parseTime] and [nullableTime] of
    src/internal/store/sqlite.go: instants go to the database as RFC 3339 text
    with nanoseconds, in UTC, and come back through [time.Parse].  A Go
    [time.Time] is the number of nanoseconds since its zero value, the start of
    year 1; the calendar is the proleptic Gregorian one of package time. *)
From S2P Require Import Prelude.

#[local] Open Scope Z_scope.

Definition time : Type := Z.

Definition IsZero (t : time) : bool := t =? 0.

Definition ns_per_sec : Z := 1000000000.
Definition sec_per_day : Z := 86400.

(** ** The calendar *)

(** Years start in March, so that the leap day is the last of its year; the
    Gregorian calendar repeats every 400 years, an era of 146097 days. *)
Definition era_days : Z := 146097.

Definition year_of_era (doe : Z) : Z :=
  (doe - doe / 1460 + doe / 36524 - doe / 146096) / 365.
Definition day_of_year (doe : Z) : Z :=
  let yoe := year_of_era doe in doe - (365 * yoe + yoe / 4 - yoe / 100).
Definition month_of_era (doe : Z) : Z :=
  let mp := (5 * day_of_year doe + 2) / 153 in if mp <? 10 then mp + 3 else mp - 9.
Definition mday_of_era (doe : Z) : Z :=
  let mp := (5 * day_of_year doe + 2) / 153 in
  day_of_year doe - (153 * mp + 2) / 5 + 1.

(** Days from 0000-03-01 to 0001-01-01. *)
Definition epoch_shift : Z := 306.

Definition civil_of_days (days : Z) : Z * Z * Z :=
  let z := days + epoch_shift in
  let doe := z mod era_days in
  let m := month_of_era doe in
  (year_of_era doe + 400 * (z / era_days) + (if m <=? 2 then 1 else 0), m, mday_of_era doe).

Definition days_of_civil (y m d : Z) : Z :=
  let y' := if m <=? 2 then y - 1 else y in
  let yoe := y' mod 400 in
  let doy := (153 * (if m <=? 2 then m + 9 else m - 3) + 2) / 5 + d - 1 in
  yoe * 365 + yoe / 4 - yoe / 100 + doy + (y' / 400) * era_days - epoch_shift.

Definition is_leap (y : Z) : bool :=
  (y mod 4 =? 0) && (negb (y mod 100 =? 0) || (y mod 400 =? 0)).

Definition daysIn (m y : Z) : Z :=
  if m =? 2 then (if is_leap y then 29 else 28)
  else if (m =? 4) || (m =? 6) || (m =? 9) || (m =? 11) then 30 else 31.

(** ** Text *)

Definition digit (n : Z) : ascii := ascii_of_N (Z.to_N (48 + n mod 10)).

Definition digit_value (c : ascii) : option Z :=
  let n := Z.of_N (N_of_ascii c) in
  if (48 <=? n) && (n <=? 57) then Some (n - 48) else None.

(** The [w] low decimal digits of [n], most significant first. *)
Fixpoint digits (w : nat) (n : Z) : string :=
  match w with
  | O => EmptyString
  | S w' => String (digit (n / 10 ^ Z.of_nat w')) (digits w' n)
  end.

Fixpoint trim_zeros (s : string) : string :=
  match s with
  | EmptyString => EmptyString
  | String c s' =>
      match trim_zeros s' with
      | EmptyString => if Ascii.eqb c "0" then EmptyString else String c EmptyString
      | s'' => String c s''
      end
  end.

(** The fraction of RFC3339Nano: no trailing zeros, and no point when zero. *)
Definition frac_text (ns : Z) : string :=
  match trim_zeros (digits 9 ns) with
  | EmptyString => ""
  | frac => ("." +:+ frac)%stdpp
  end.

(** [t.UTC().Format(time.RFC3339Nano)]. *)
Definition format_RFC3339Nano (t : time) : string :=
  let secs := t / ns_per_sec in
  let '(y, m, d) := civil_of_days (secs / sec_per_day) in
  let sod := secs mod sec_per_day in
  (digits 4 y +:+ "-" +:+ digits 2 m +:+ "-" +:+ digits 2 d +:+ "T" +:+
   digits 2 (sod / 3600) +:+ ":" +:+ digits 2 (sod / 60 mod 60) +:+ ":" +:+
   digits 2 (sod mod 60) +:+
   frac_text (t mod ns_per_sec) +:+ "Z")%stdpp.

(** [timeString]; [now] is the clock it reads for the zero time. *)
Definition timeString (now t : time) : string :=
  format_RFC3339Nano (if IsZero t then now else t).

(** [nullableTime]; [None] is SQL's NULL. *)
Definition nullableTime (now : time) (t : option time) : option string :=
  match t with
  | None => None
  | Some t => if IsZero t then None else Some (timeString now t)
  end.

(** *** Parsing *)

Fixpoint read_uint (w : nat) (acc : Z) (s : string) : option (Z * string) :=
  match w with
  | O => Some (acc, s)
  | S w' =>
      match s with
      | String c s' => match digit_value c with
                       | Some v => read_uint w' (acc * 10 + v) s'
                       | None => None
                       end
      | EmptyString => None
      end
  end.

(** A field of [w] digits within bounds, followed by the separator [sep]. *)
Definition read_field (w : nat) (lo hi : Z) (s : string) : option (Z * string) :=
  '(n, s') ← read_uint w 0 s;
  if (lo <=? n) && (n <=? hi) then Some (n, s') else None.

Definition read_char (c : ascii) (s : string) : option string :=
  match s with
  | String c' s' => if Ascii.eqb c c' then Some s' else None
  | EmptyString => None
  end.

(** The digits at the front of a string: their value scaled to [k] decimals,
    digits past the [k]-th dropped, and the rest of the string. *)
Fixpoint read_frac (k : nat) (s : string) : Z * string :=
  match s with
  | EmptyString => (0, EmptyString)
  | String c s' =>
      match digit_value c with
      | None => (0, s)
      | Some v =>
          match k with
          | O => read_frac O s'
          | S k' => let '(n, rest) := read_frac k' s' in (v * 10 ^ Z.of_nat k' + n, rest)
          end
      end
  end.

Definition read_nanos (s : string) : Z * string :=
  match s with
  | String "." (String c s') =>
      match digit_value c with
      | Some _ => read_frac 9 (String c s')
      | None => (0, s)
      end
  | _ => (0, s)
  end.

Definition err_parse_timestamp : error := Errorf "parse timestamp".

(** [parseTime] on the texts [timeString] writes, which end in Z. *)
Definition parse_fields (v : string) : option time :=
  '(y, s) ← read_field 4 0 9999 v; s ← read_char "-" s;
  '(m, s) ← read_field 2 1 12 s; s ← read_char "-" s;
  '(d, s) ← read_field 2 1 (daysIn m y) s; s ← read_char "T" s;
  '(hh, s) ← read_field 2 0 23 s; s ← read_char ":" s;
  '(mm, s) ← read_field 2 0 59 s; s ← read_char ":" s;
  '(ss, s) ← read_field 2 0 59 s;
  let '(ns, s) := read_nanos s in
  if String.eqb s "Z" then
    Some ((days_of_civil y m d * sec_per_day + hh * 3600 + mm * 60 + ss) * ns_per_sec + ns)
  else None.

Definition parseTime (v : string) : result time :=
  match parse_fields v with
  | Some t => inl t
  | None => inr err_parse_timestamp
  end.

(** ** The calendar round trip *)

(** [p] on the [n] integers from [start]. *)
Fixpoint forall_range (p : Z → bool) (n : nat) (start : Z) : bool :=
  match n with
  | O => true
  | S n' => p start && forall_range p n' (start + 1)
  end.

Lemma forall_range_spec p n : ∀ start x,
  forall_range p n start = true → start <= x < start + Z.of_nat n → p x = true.
Proof.
  induction n as [|n IH]; intros start x; cbn [forall_range]; [lia|].
  rewrite andb_true_iff. intros [H1 H2] Hx.
  destruct (decide (x = start)) as [->|]; [done|]. apply (IH (start + 1)); [done|lia].
Qed.

(** First day and length of a year of the era. *)
Definition year_start (y : Z) : Z := 365 * y + y / 4 - y / 100.
Definition year_length (y : Z) : Z := if is_leap (y + 1) then 366 else 365.

(** The 400 years of an era and the 366 days of a year are checked by
    computation; that they cover every day of the era is by monotonicity. *)
Definition year_ok (y : Z) : bool :=
  (year_of_era (year_start y) =? y) &&
  (year_of_era (year_start y + year_length y - 1) =? y) &&
  ((399 <=? y) || (year_start (y + 1) =? year_start y + year_length y)).

Lemma years_ok y : 0 <= y < 400 → year_ok y = true.
Proof.
  intros H. apply (forall_range_spec year_ok 400 0); [vm_compute; reflexivity|lia].
Qed.

Definition doy_ok (doy : Z) : bool :=
  let mp := (5 * doy + 2) / 153 in
  let m := if mp <? 10 then mp + 3 else mp - 9 in
  let d := doy - (153 * mp + 2) / 5 + 1 in
  (1 <=? m) && (m <=? 12) && (1 <=? d) &&
  (d <=? daysIn m (if doy =? 365 then 4 else 5)) &&
  ((153 * (if m <=? 2 then m + 9 else m - 3) + 2) / 5 + d - 1 =? doy) &&
  ((doy <? 365) || (m =? 2)).

Lemma doys_ok doy : 0 <= doy < 366 → doy_ok doy = true.
Proof.
  intros H. apply (forall_range_spec doy_ok 366 0); [vm_compute; reflexivity|lia].
Qed.

Lemma year_of_era_mono a b : 0 <= a <= b → b < era_days → year_of_era a <= year_of_era b.
Proof.
  unfold year_of_era, era_days. intros Ha Hb. apply Z.div_le_mono; [lia|].
  assert (b / 1460 - a / 1460 <= b - a) by dlia.
  assert (a / 36524 <= b / 36524) by (apply Z.div_le_mono; lia).
  destruct (decide (b = 146096)) as [->|].
  - destruct (decide (a = 146096)) as [->|]; [done|].
    replace (a / 146096) with 0 by dlia. dlia.
  - replace (b / 146096) with 0 by dlia. replace (a / 146096) with 0 by dlia. lia.
Qed.

Lemma year_cover (n : nat) : ∀ doe, (n < 400)%nat →
  0 <= doe < year_start (Z.of_nat n) + year_length (Z.of_nat n) →
  ∃ y, 0 <= y <= Z.of_nat n ∧ year_start y <= doe < year_start y + year_length y.
Proof.
  induction n as [|n IH]; intros doe Hn Hdoe.
  - exists 0. change (Z.of_nat 0) with 0 in *. change (year_start 0) with 0 in *. lia.
  - pose proof (years_ok (Z.of_nat n) ltac:(lia)) as Hok. unfold year_ok in Hok.
    repeat rewrite andb_true_iff in Hok. destruct Hok as [_ Hok].
    apply orb_true_iff in Hok as [Hok|Hok]; [apply Z.leb_le in Hok; lia|].
    apply Z.eqb_eq in Hok. rewrite Nat2Z.inj_succ in *.
    unfold Z.succ in *.
    destruct (Z.lt_ge_cases doe (year_start (Z.of_nat n + 1))) as [Hlt|Hge].
    + destruct (IH doe ltac:(lia) ltac:(lia)) as (y & Hy & Hdoe'). exists y. lia.
    + exists (Z.of_nat n + 1). lia.
Qed.

Lemma year_of_era_spec doe : 0 <= doe < era_days →
  0 <= year_of_era doe < 400 ∧
  year_start (year_of_era doe) <= doe
    < year_start (year_of_era doe) + year_length (year_of_era doe).
Proof.
  intros Hdoe. destruct (year_cover 399 doe) as (y & Hy & Hin); [lia| |].
  { replace (year_start (Z.of_nat 399) + year_length (Z.of_nat 399)) with era_days
      by (vm_compute; reflexivity). done. }
  pose proof (years_ok y ltac:(lia)) as Hok. unfold year_ok in Hok.
  rewrite !andb_true_iff, !Z.eqb_eq in Hok. destruct Hok as [[H1 H2] _].
  assert (Hs : 0 <= year_start y) by (unfold year_start; dlia).
  assert (He : year_start y + year_length y <= era_days).
  { destruct (decide (y = 399)) as [->|]; [by vm_compute|].
    unfold year_start, year_length, era_days. destruct (is_leap (y + 1)); dlia. }
  pose proof (year_of_era_mono (year_start y) doe ltac:(lia) ltac:(lia)).
  pose proof (year_of_era_mono doe (year_start y + year_length y - 1) ltac:(lia) ltac:(lia)).
  replace (year_of_era doe) with y by lia. lia.
Qed.

Lemma era_day_spec doe : 0 <= doe < era_days →
  let m := month_of_era doe in
  let d := mday_of_era doe in
  let b := if m <=? 2 then 1 else 0 in
  0 <= year_of_era doe < 400 ∧ 1 <= m <= 12 ∧
  1 <= d <= daysIn m (year_of_era doe + b) ∧
  year_start (year_of_era doe) +
    ((153 * (if m <=? 2 then m + 9 else m - 3) + 2) / 5 + d - 1) = doe.
Proof.
  intros Hdoe. destruct (year_of_era_spec doe Hdoe) as [Hy Hin].
  assert (Hdoy : day_of_year doe = doe - year_start (year_of_era doe)) by done.
  assert (Hr : 0 <= day_of_year doe < 366)
    by (unfold year_length in *; destruct (is_leap _); lia).
  pose proof (doys_ok _ Hr) as Hok. unfold doy_ok in Hok. revert Hok.
  unfold month_of_era, mday_of_era.
  set (mp := (5 * day_of_year doe + 2) / 153).
  set (m := if mp <? 10 then mp + 3 else mp - 9).
  set (d := day_of_year doe - (153 * mp + 2) / 5 + 1).
  rewrite !andb_true_iff, !Z.leb_le, Z.eqb_eq, orb_true_iff, Z.ltb_lt, Z.eqb_eq.
  intros [[[[[Hm0 Hm1] Hd0] Hd1] Hsum] Hlast]. simpl.
  split; [done|]. split; [lia|]. split; [|lia]. split; [done|].
  etransitivity; [exact Hd1|]. unfold daysIn.
  destruct (m =? 2) eqn:Hm2; [|done]. apply Z.eqb_eq in Hm2. rewrite Hm2. simpl.
  destruct (day_of_year doe =? 365) eqn:H365; simpl; [|by destruct (is_leap _)].
  apply Z.eqb_eq in H365. unfold year_length in Hin. destruct (is_leap _); lia.
Qed.

Lemma is_leap_era y e : is_leap (y + 400 * e) = is_leap y.
Proof.
  unfold is_leap.
  replace ((y + 400 * e) mod 4) with (y mod 4)
    by (replace (400 * e) with (100 * e * 4) by ring; by rewrite Z_mod_plus_full).
  replace ((y + 400 * e) mod 100) with (y mod 100)
    by (replace (400 * e) with (4 * e * 100) by ring; by rewrite Z_mod_plus_full).
  replace ((y + 400 * e) mod 400) with (y mod 400)
    by (replace (400 * e) with (e * 400) by ring; by rewrite Z_mod_plus_full).
  done.
Qed.

Lemma daysIn_era m y e : daysIn m (y + 400 * e) = daysIn m y.
Proof. unfold daysIn. by rewrite is_leap_era. Qed.

Lemma daysIn_max m y : daysIn m y <= 31.
Proof. unfold daysIn. repeat case_match; lia. Qed.

Lemma civil_of_days_spec days y m d :
  civil_of_days days = (y, m, d) →
  1 <= m <= 12 ∧ 1 <= d <= daysIn m y ∧ days_of_civil y m d = days.
Proof.
  unfold civil_of_days, days_of_civil.
  set (z := days + epoch_shift).
  assert (Hdoe : 0 <= z mod era_days < era_days) by (apply Z.mod_pos_bound; reflexivity).
  assert (Hz : z = era_days * (z / era_days) + z mod era_days)
    by (apply Z_div_mod_eq_full).
  destruct (era_day_spec _ Hdoe) as (Hy & Hm & Hd & Hsum).
  revert Hz Hy Hm Hd Hsum. generalize (z mod era_days), (z / era_days).
  intros doe e Hz Hy Hm Hd Hsum [= <- <- <-].
  set (b := if month_of_era doe <=? 2 then 1 else 0) in *.
  replace (year_of_era doe + 400 * e + b) with (year_of_era doe + b + 400 * e) by ring.
  rewrite daysIn_era. split; [done|]. split; [done|].
  replace (if month_of_era doe <=? 2 then year_of_era doe + b + 400 * e - 1
           else year_of_era doe + b + 400 * e) with (year_of_era doe + e * 400)
    by (subst b; destruct (month_of_era doe <=? 2); ring).
  rewrite Z_mod_plus_full, Z_div_plus_full, Z.mod_small, (Z.div_small (year_of_era doe) 400) by lia.
  unfold year_start in Hsum. subst z. unfold era_days in *. lia.
Qed.

(** ** The text round trip *)

Lemma digit_value_digit n : digit_value (digit n) = Some (n mod 10).
Proof.
  assert (H : 0 <= n mod 10 < 10) by (apply Z.mod_pos_bound; lia).
  unfold digit, digit_value. rewrite N_ascii_embedding by lia.
  rewrite Z2N.id by lia.
  rewrite (proj2 (Z.leb_le _ _)), (proj2 (Z.leb_le _ _)) by lia. simpl. f_equal. lia.
Qed.

Lemma pow10_pos w : 0 < 10 ^ Z.of_nat w.
Proof. apply Z.pow_pos_nonneg; lia. Qed.

Lemma mod_pow10_succ n w :
  n mod 10 ^ Z.of_nat (S w) =
  (n / 10 ^ Z.of_nat w) mod 10 * 10 ^ Z.of_nat w + n mod 10 ^ Z.of_nat w.
Proof.
  pose proof (pow10_pos w).
  rewrite Nat2Z.inj_succ, Z.pow_succ_r, (Z.mul_comm 10), Z.rem_mul_r by lia. ring.
Qed.

Lemma read_uint_digits w : ∀ n acc rest,
  read_uint w acc (digits w n +:+ rest) =
  Some (acc * 10 ^ Z.of_nat w + n mod 10 ^ Z.of_nat w, rest).
Proof.
  induction w as [|w IH]; intros n acc rest; cbn [digits read_uint]; rewrite ?append_cons.
  - f_equal. f_equal. rewrite Z.mod_1_r. simpl. lia.
  - rewrite digit_value_digit, IH, mod_pow10_succ. f_equal. f_equal.
    rewrite Nat2Z.inj_succ, Z.pow_succ_r by lia. ring.
Qed.

Lemma read_field_digits w lo hi n rest :
  lo <= n <= hi → 0 <= n < 10 ^ Z.of_nat w →
  read_field w lo hi (digits w n +:+ rest) = Some (n, rest).
Proof.
  intros Hlo Hn. unfold read_field. rewrite read_uint_digits, Z.mod_small by done. simpl.
  by rewrite (proj2 (Z.leb_le _ _)), (proj2 (Z.leb_le _ _)) by lia.
Qed.

Lemma read_frac_cons k c s v n rest :
  digit_value c = Some v → read_frac k s = (n, rest) →
  read_frac (S k) (String c s) = (v * 10 ^ Z.of_nat k + n, rest).
Proof. intros Hc Hs. cbn [read_frac]. by rewrite Hc, Hs. Qed.

(** Dropping trailing zeros of a fraction does not change its value. *)
Lemma read_frac_trim w : ∀ k n rest,
  (match rest with EmptyString => True | String c _ => digit_value c = None end) →
  (w <= k)%nat →
  read_frac k (trim_zeros (digits w n) +:+ rest) =
  (n mod 10 ^ Z.of_nat w * 10 ^ (Z.of_nat k - Z.of_nat w), rest).
Proof.
  induction w as [|w IH]; intros k n rest Hrest Hk.
  - simpl. rewrite Z.mod_1_r. destruct rest as [|c rest]; [done|].
    destruct k; simpl; by rewrite Hrest.
  - destruct k as [|k]; [lia|].
    specialize (IH k n rest Hrest ltac:(lia)).
    rewrite mod_pow10_succ. pose proof (digit_value_digit (n / 10 ^ Z.of_nat w)) as Hdig.
    replace (Z.of_nat (S k) - Z.of_nat (S w)) with (Z.of_nat k - Z.of_nat w) by lia.
    assert (Hpow : 10 ^ Z.of_nat k = 10 ^ Z.of_nat w * 10 ^ (Z.of_nat k - Z.of_nat w))
      by (rewrite <- Z.pow_add_r by lia; f_equal; lia).
    cbn [digits trim_zeros]. destruct (trim_zeros (digits w n)) as [|c s] eqn:Htrim.
    + destruct (Ascii.eqb _ "0") eqn:Heq.
      * apply Ascii.eqb_eq in Heq. rewrite Heq in Hdig. injection Hdig as Hdig.
        simpl. rewrite <- Hdig.
        assert (n mod 10 ^ Z.of_nat w * 10 ^ (Z.of_nat k - Z.of_nat w) = 0) as Hz.
        { simpl in IH. destruct rest as [|c rest].
          - destruct k; simpl in IH; by injection IH.
          - destruct k; simpl in IH; rewrite Hrest in IH; by injection IH. }
        rewrite Z.mul_0_l, Z.add_0_l, Hz.
        destruct rest as [|c rest]; simpl; [done|]. by rewrite Hrest.
      * rewrite append_cons. erewrite read_frac_cons by eassumption. f_equal. rewrite Hpow. ring.
    + rewrite append_cons. erewrite read_frac_cons by eassumption. f_equal. rewrite Hpow. ring.
Qed.

Lemma trim_digits_head w n c s :
  trim_zeros (digits w n) = String c s → is_Some (digit_value c).
Proof.
  destruct w as [|w]; [done|]. cbn [digits trim_zeros].
  destruct (trim_zeros (digits w n)); [destruct (Ascii.eqb _ _); [done|]|];
    intros [= <- _]; rewrite digit_value_digit; eauto.
Qed.

(** What [read_nanos] makes of the optional fraction. *)
Lemma read_nanos_trim n : 0 <= n < ns_per_sec →
  read_nanos (frac_text n +:+ "Z") = (n, "Z").
Proof.
  unfold frac_text.
  intros Hn. pose proof (read_frac_trim 9 9 n "Z" eq_refl ltac:(lia)) as H.
  rewrite Z.mod_small in H by (unfold ns_per_sec in *; simpl; lia).
  rewrite Z.sub_diag, Z.mul_1_r in H.
  destruct (trim_zeros (digits 9 n)) as [|c s] eqn:Htrim.
  - change (EmptyString +:+ "Z") with "Z" in *. by injection H as <-.
  - apply trim_digits_head in Htrim as [v Hv].
    change (("." +:+ String c s) +:+ "Z") with (String "." (String c (s +:+ "Z"))).
    rewrite append_cons in H. cbn [read_nanos]. by rewrite Hv, H.
Qed.

Lemma read_char_here c s : read_char c (String c "" +:+ s) = Some s.
Proof. rewrite append_cons. cbn [read_char]. by rewrite Ascii.eqb_refl. Qed.

(** Start of year 10000: the texts of later instants have five-digit years. *)
Definition max_time : Z := 315537897600 * ns_per_sec.

Lemma civil_year_bound days y m d :
  civil_of_days days = (y, m, d) → 0 <= days < 3652059 → 0 <= y <= 9999.
Proof.
  intros Hciv Hdays. destruct (civil_of_days_spec _ _ _ _ Hciv) as (Hm & Hd & Hinv).
  revert Hciv. unfold civil_of_days. set (z := days + epoch_shift).
  assert (Hdoe : 0 <= z mod era_days < era_days) by (apply Z.mod_pos_bound; reflexivity).
  destruct (year_of_era_spec _ Hdoe) as [Hy _].
  assert (He : 0 <= z / era_days <= 24).
  { subst z. unfold epoch_shift, era_days.
    split; [apply Z.div_pos; lia|]. apply Z.lt_succ_r, Z.div_lt_upper_bound; lia. }
  intros [= Hyear _ _].
  assert (0 <= y <= 10000) by (destruct (month_of_era _ <=? 2); lia).
  destruct (decide (y = 10000)) as [->|]; [|lia].
  exfalso. revert Hinv. unfold days_of_civil, epoch_shift, era_days.
  destruct (m <=? 2) eqn:Hm2; simpl Z.sub; dlia.
Qed.

Lemma seconds_split secs :
  0 <= secs →
  let sod := secs mod sec_per_day in
  0 <= sod / 3600 <= 23 ∧ 0 <= sod / 60 mod 60 <= 59 ∧ 0 <= sod mod 60 <= 59 ∧
  sod / 3600 * 3600 + sod / 60 mod 60 * 60 + sod mod 60 = sod.
Proof. unfold sec_per_day. intros. simpl. dlia. Qed.

(** [parseTime (timeString t)] is [t], for every instant of the years 1 to 9999. *)
Lemma parse_format t : 0 <= t < max_time → parse_fields (format_RFC3339Nano t) = Some t.
Proof.
  intros Ht. unfold format_RFC3339Nano.
  set (secs := t / ns_per_sec).
  assert (Hsecs : 0 <= secs < 315537897600).
  { subst secs. unfold max_time in *. split; [apply Z.div_pos; [lia|done]|].
    apply Z.div_lt_upper_bound; [done|]. lia. }
  assert (Hdays : 0 <= secs / sec_per_day < 3652059) by (unfold sec_per_day; dlia).
  assert (Hns : 0 <= t mod ns_per_sec < ns_per_sec) by (apply Z.mod_pos_bound; done).
  destruct (civil_of_days (secs / sec_per_day)) as [[y m] d] eqn:Hciv.
  pose proof (civil_year_bound _ _ _ _ Hciv Hdays) as Hy.
  destruct (civil_of_days_spec _ _ _ _ Hciv) as (Hm & Hd & Hinv).
  pose proof (daysIn_max m y) as Hmax.
  destruct (seconds_split secs) as (Hhh & Hmm & Hss & Hsod); [lia|].
  pose proof (read_nanos_trim _ Hns) as Hfrac.
  assert (Hsod' : secs / sec_per_day * sec_per_day + (secs mod sec_per_day) / 3600 * 3600 +
    (secs mod sec_per_day) / 60 mod 60 * 60 + (secs mod sec_per_day) mod 60 = secs)
    by (rewrite (Z_div_mod_eq_full secs sec_per_day) at 5; lia).
  unfold parse_fields.
  do 5 (rewrite read_field_digits by (simpl; lia); cbn [mbind option_bind];
        rewrite read_char_here; cbn [mbind option_bind]).
  rewrite read_field_digits by (simpl; lia). cbn [mbind option_bind].
  rewrite Hfrac. cbn [String.eqb]. rewrite Hinv, Hsod'.
  f_equal. unfold secs. rewrite (Z_div_mod_eq_full t ns_per_sec) at 3. unfold ns_per_sec. lia.
Qed.
