(* ===== verification/Encodings.v ===== *)
(** * Encodings

    The unpadded URL encoding of encoding/base64 and its strict decoder, which the
    cold-store protocol (src/internal/coldstore/protocol.go) carries its requests in; and
    SHA-256, by which the runner names its receipt files and digests its start requests. *)
From S2P Require Import Prelude GoStrings.

#[local] Open Scope Z_scope.

(** ** The alphabet *)

Definition char64 (n : Z) : ascii :=
  byte (if n <? 26 then 65 + n else if n <? 52 then 71 + n else if n <? 62 then n - 4
        else if n =? 62 then 45 else 95).

Definition value64 (c : ascii) : option Z :=
  let n := byte_value c in
  if (65 <=? n) && (n <=? 90) then Some (n - 65)
  else if (97 <=? n) && (n <=? 122) then Some (n - 71)
  else if (48 <=? n) && (n <=? 57) then Some (n + 4)
  else if n =? 45 then Some 62
  else if n =? 95 then Some 63 else None.

(** ** Encoding and decoding *)

Fixpoint EncodeToString (s : string) : string :=
  match s with
  | EmptyString => EmptyString
  | String a EmptyString =>
      let a := byte_value a in
      String (char64 (a / 4)) (String (char64 (a mod 4 * 16)) EmptyString)
  | String a (String b EmptyString) =>
      let a := byte_value a in let b := byte_value b in
      String (char64 (a / 4)) (String (char64 (a mod 4 * 16 + b / 16))
        (String (char64 (b mod 16 * 4)) EmptyString))
  | String a (String b (String c s')) =>
      let a := byte_value a in let b := byte_value b in let c := byte_value c in
      String (char64 (a / 4)) (String (char64 (a mod 4 * 16 + b / 16))
        (String (char64 (b mod 16 * 4 + c / 64))
           (String (char64 (c mod 64)) (EncodeToString s'))))
  end.

(** The decoder skips line ends anywhere. *)
Fixpoint drop_newlines (s : string) : string :=
  match s with
  | EmptyString => EmptyString
  | String c s' =>
      if (byte_value c =? 10) || (byte_value c =? 13) then drop_newlines s'
      else String c (drop_newlines s')
  end.

(** Strict: the bits a short last group does not use are zero. *)
Fixpoint decode_groups (s : string) : option string :=
  match s with
  | EmptyString => Some EmptyString
  | String _ EmptyString => None
  | String a (String b EmptyString) =>
      a ← value64 a; b ← value64 b;
      if b mod 16 =? 0 then Some (String (byte (a * 4 + b / 16)) EmptyString) else None
  | String a (String b (String c EmptyString)) =>
      a ← value64 a; b ← value64 b; c ← value64 c;
      if c mod 4 =? 0
      then Some (String (byte (a * 4 + b / 16))
                   (String (byte (b mod 16 * 16 + c / 4)) EmptyString))
      else None
  | String a (String b (String c (String d s'))) =>
      a ← value64 a; b ← value64 b; c ← value64 c; d ← value64 d;
      rest ← decode_groups s';
      Some (String (byte (a * 4 + b / 16)) (String (byte (b mod 16 * 16 + c / 4))
             (String (byte (c mod 4 * 64 + d)) rest)))
  end.

Definition DecodeString (s : string) : result string :=
  match decode_groups (drop_newlines s) with
  | Some b => inl b
  | None => inr (Errorf "illegal base64 data")
  end.

Example encode_demo : EncodeToString "light work?" = "bGlnaHQgd29yaz8".
Proof. reflexivity. Qed.
Example decode_demo : DecodeString "bGlnaHQgd29yaz8" = inl "light work?".
Proof. reflexivity. Qed.

(** ** Round trip *)

(** What the alphabet avoids: line ends and spaces. *)
Definition plain (c : ascii) : bool :=
  let n := byte_value c in negb (n =? 10) && negb (n =? 13) && negb (n =? 32).

Lemma char64_ok n :
  0 <= n < 64 → value64 (char64 n) = Some n ∧ plain (char64 n) = true.
Proof.
  intros Hn.
  assert (H : forallb (λ k, bool_decide (value64 (char64 (Z.of_nat k)) = Some (Z.of_nat k)) &&
                            plain (char64 (Z.of_nat k))) (seq 0 64) = true)
    by (vm_compute; reflexivity).
  rewrite forallb_forall in H. specialize (H (Z.to_nat n)).
  rewrite Z2Nat.id in H by lia.
  apply andb_prop in H as [H1 H2]; [|apply in_seq; lia]. by apply bool_decide_eq_true in H1.
Qed.

Lemma byte_value_range c : 0 <= byte_value c < 256.
Proof.
  unfold byte_value. pose proof (Ascii.N_ascii_bounded c). lia.
Qed.

Lemma byte_byte_value c : byte (byte_value c) = c.
Proof. unfold byte, byte_value. rewrite N2Z.id. apply ascii_N_embedding. Qed.

Lemma byte_of_value n c : n = byte_value c → byte n = c.
Proof. intros ->. apply byte_byte_value. Qed.

(** Induction by groups of three bytes. *)
Lemma string_ind3 (P : string → Prop) :
  P EmptyString → (∀ a, P (String a EmptyString)) → (∀ a b, P (String a (String b EmptyString))) →
  (∀ a b c s, P s → P (String a (String b (String c s)))) → ∀ s, P s.
Proof.
  intros H0 H1 H2 H3. fix IH 1. intros [|a [|b [|c s]]]; [done..|apply H2|]. apply H3, IH.
Qed.

Ltac group_ranges :=
  repeat match goal with
  | c : ascii |- _ =>
      lazymatch goal with
      | H : 0 <= byte_value c < 256 |- _ => fail
      | _ => pose proof (byte_value_range c)
      end
  end.

Lemma plain_encode s : all_chars plain (EncodeToString s) = true.
Proof.
  induction s as [|a|a b|a b c s IH] using string_ind3; [done| | |]; group_ranges;
    cbn [EncodeToString all_chars];
    rewrite !(λ n H, proj2 (char64_ok n H)) by dlia; [done..|exact IH].
Qed.

Lemma drop_plain s : all_chars plain s = true → drop_newlines s = s.
Proof.
  induction s as [|c s IH]; [done|]. cbn [all_chars drop_newlines].
  intros [Hc Hs]%andb_prop. unfold plain in Hc.
  destruct (byte_value c =? 10), (byte_value c =? 13); try done. simpl. by rewrite IH.
Qed.

Lemma decode_encode s : decode_groups (EncodeToString s) = Some s.
Proof.
  induction s as [|a|a b|a b c s IH] using string_ind3; [done| | |]; group_ranges;
    cbn [EncodeToString decode_groups];
    rewrite !(λ n H, proj1 (char64_ok n H)) by dlia; cbn.
  - rewrite (proj2 (Z.eqb_eq _ 0)) by dlia. do 2 f_equal. apply byte_of_value. dlia.
  - rewrite (proj2 (Z.eqb_eq _ 0)) by dlia. do 2 f_equal; [|f_equal]; apply byte_of_value; dlia.
  - rewrite IH. cbn. do 2 f_equal; [|f_equal; [|f_equal]]; apply byte_of_value; dlia.
Qed.

Lemma DecodeString_EncodeToString s : DecodeString (EncodeToString s) = inl s.
Proof. unfold DecodeString. by rewrite drop_plain, decode_encode by apply plain_encode. Qed.

(** ** SHA-256

    The runner names its receipt files and digests its start requests with
    crypto/sha256; this is the function of FIPS 180-4, on bytes and 32-bit
    words. *)

Definition w32 (x : Z) : Z := x mod 2 ^ 32.
Definition rotr (n x : Z) : Z := Z.lor (Z.shiftr x n) (w32 (Z.shiftl x (32 - n))).
Definition not32 (x : Z) : Z := Z.lxor x 4294967295.

Definition Ch (x y z : Z) : Z := Z.lxor (Z.land x y) (Z.land (not32 x) z).
Definition Maj (x y z : Z) : Z := Z.lxor (Z.lxor (Z.land x y) (Z.land x z)) (Z.land y z).
Definition Sigma0 (x : Z) : Z := Z.lxor (Z.lxor (rotr 2 x) (rotr 13 x)) (rotr 22 x).
Definition Sigma1 (x : Z) : Z := Z.lxor (Z.lxor (rotr 6 x) (rotr 11 x)) (rotr 25 x).
Definition sigma0 (x : Z) : Z := Z.lxor (Z.lxor (rotr 7 x) (rotr 18 x)) (Z.shiftr x 3).
Definition sigma1 (x : Z) : Z := Z.lxor (Z.lxor (rotr 17 x) (rotr 19 x)) (Z.shiftr x 10).

(** The constants are the first 32 bits of the fractional parts of the cube roots of
    the first 64 primes, and of the square roots of the first 8: the roots of
    [p * 2^96] and [p * 2^64], found bit by bit. *)
Definition is_prime (n : Z) : bool :=
  forallb (λ d, negb (n mod Z.of_nat d =? 0)) (seq 2 (Z.to_nat n - 2)).
Definition primes : list Z :=
  List.filter is_prime (map Z.of_nat (seq 2 310)).

Fixpoint root (k : Z) (n : Z) (bits : nat) (acc : Z) : Z :=
  match bits with
  | O => acc
  | S bits' =>
      let next := acc + 2 ^ Z.of_nat bits' in
      root k n bits' (if next ^ k <=? n then next else acc)
  end.
Definition fraction_bits (k p : Z) : Z := w32 (root k (p * 2 ^ (32 * k)) 40 0).

Definition round_constants : list Z := Eval vm_compute in map (fraction_bits 3) primes.

(** The chaining value. *)
Record state := mkState { sa : Z; sb : Z; sc : Z; sd : Z; se : Z; sf : Z; sg : Z; sh : Z }.

Definition initial_state : state := Eval vm_compute in
  match map (fraction_bits 2) (take 8 primes) with
  | [a; b; c; d; e; f; g; h] => mkState a b c d e f g h
  | _ => mkState 0 0 0 0 0 0 0 0
  end.

(** The message schedule, by a window of the last 16 words. *)
Fixpoint schedule (n : nat) (window : list Z) : list Z :=
  match n with
  | O => []
  | S n' =>
      match window with
      | w0 :: rest =>
          let w := w32 (sigma1 (nth 13 rest 0) + nth 8 rest 0 + sigma0 (nth 0 rest 0) + w0) in
          w0 :: schedule n' (rest ++ [w])
      | [] => []
      end
  end.

Definition round (s : state) (kw : Z * Z) : state :=
  let t1 := w32 (sh s + Sigma1 (se s) + Ch (se s) (sf s) (sg s) + kw.1 + kw.2) in
  let t2 := w32 (Sigma0 (sa s) + Maj (sa s) (sb s) (sc s)) in
  mkState (w32 (t1 + t2)) (sa s) (sb s) (sc s) (w32 (sd s + t1)) (se s) (sf s) (sg s).

Definition compress (s : state) (block : list Z) : state :=
  let s' := foldl round s (combine round_constants (schedule 64 block)) in
  mkState (w32 (sa s + sa s')) (w32 (sb s + sb s')) (w32 (sc s + sc s')) (w32 (sd s + sd s'))
    (w32 (se s + se s')) (w32 (sf s + sf s')) (w32 (sg s + sg s')) (w32 (sh s + sh s')).

(** ** Padding *)

Definition byte_of (c : ascii) : Z := Z.of_N (N_of_ascii c).

(** [n] bytes of [x], most significant first. *)
Fixpoint be_bytes (n : nat) (x : Z) : list Z :=
  match n with
  | O => []
  | S n' => Z.land (Z.shiftr x (8 * Z.of_nat n')) 255 :: be_bytes n' x
  end.

Definition padded (s : string) : list Z :=
  let bytes := map byte_of (list_ascii_of_string s) in
  let len := Z.of_nat (String.length s) in
  bytes ++ 128 :: repeat 0 (Z.to_nat ((55 - len) mod 64)) ++ be_bytes 8 (8 * len).

Fixpoint words (bytes : list Z) : list Z :=
  match bytes with
  | b0 :: b1 :: b2 :: b3 :: rest =>
      (((b0 * 256 + b1) * 256 + b2) * 256 + b3) :: words rest
  | _ => []
  end.

Fixpoint digest (fuel : nat) (s : state) (ws : list Z) : state :=
  match fuel with
  | O => s
  | S fuel' =>
      match ws with
      | [] => s
      | _ => digest fuel' (compress s (take 16 ws)) (drop 16 ws)
      end
  end.

Definition hex_digit (n : Z) : ascii :=
  let n := Z.land n 15 in ascii_of_N (Z.to_N (if n <? 10 then 48 + n else 87 + n)).

Fixpoint hex_word (n : nat) (w : Z) : string :=
  match n with
  | O => EmptyString
  | S n' => String (hex_digit (Z.shiftr w (4 * Z.of_nat n'))) (hex_word n' w)
  end.

(** [hex.EncodeToString(sha256.Sum256(s))]. *)
Definition sha256_hex (s : string) : string :=
  let ws := words (padded s) in
  let '(mkState a b c d e f g h) := digest (length ws) initial_state ws in
  (hex_word 8 a +:+ hex_word 8 b +:+ hex_word 8 c +:+ hex_word 8 d +:+
   hex_word 8 e +:+ hex_word 8 f +:+ hex_word 8 g +:+ hex_word 8 h)%stdpp.

Example sha256_abc :
  sha256_hex "abc" = "ba7816bf8f01cfea414140de5dae2223b00361a396177a9cb410ff61f20015ad".
Proof. vm_compute. reflexivity. Qed.

Example sha256_two_blocks :
  sha256_hex "abcdbcdecdefdefgefghfghighijhijkijkljklmklmnlmnomnopnopq" =
  "248d6a61d20638b8e5c026930c3e6039a33ce45964ff2167f6ecedd419db06c1".
Proof. vm_compute. reflexivity. Qed.

Lemma length_hex_word n w : String.length (hex_word n w) = n.
Proof. revert w. induction n as [|n IH]; intros w; simpl; [done|]. by rewrite IH. Qed.

Lemma length_append s t : String.length (s +:+ t)%stdpp = (String.length s + String.length t)%nat.
Proof. induction s as [|c s IH]; simpl; [done|]. by rewrite IH. Qed.

Lemma length_sha256_hex s : String.length (sha256_hex s) = 64%nat.
Proof.
  unfold sha256_hex. destruct (digest _ _ _). by rewrite !length_append, !length_hex_word.
Qed.

#[global] Opaque sha256_hex.
