(* ===== verification/Sql.v ===== *)
(** * SQL statements over keyed tables

    What the SQL text of src/internal/store relies on: a table is a finite map
    from its primary key to its rows, a statement is one call into the
    environment, and a transaction keeps the whole effect of its statements or
    none.  SQLite runs with its default [foreign_keys = OFF], so the REFERENCES
    clauses of the schema constrain nothing.  No statement of the source updates
    a key or a UNIQUE column. *)
From S2P Require Import Prelude.

#[local] Open Scope Z_scope.

Section rows.
Context {K : Type} `{Countable K} {R : Type}.
Implicit Types t : gmap K R.

Definition update_where (p : R → bool) (f : R → R) t : gmap K R :=
  (λ r, if p r then f r else r) <$> t.

Definition rows_where (p : R → bool) t : gmap K R :=
  filter (λ kr, p kr.2 = true) t.

Definition delete_where (p : R → bool) t : gmap K R :=
  filter (λ kr, p kr.2 = false) t.

Definition affected (p : R → bool) t : Z := Z.of_nat (size (rows_where p t)).

Definition exists_where (p : R → bool) t : bool := negb (affected p t =? 0).

(** [QueryRow(...).Scan]: a row of the result, or [sql.ErrNoRows]. *)
Definition select_row (p : R → bool) t : result R :=
  match map_to_list (rows_where p t) with
  | (_, r) :: _ => inl r
  | [] => inr ErrNoRows
  end.

Lemma lookup_update_where p f t k :
  update_where p f t !! k = (λ r, if p r then f r else r) <$> t !! k.
Proof. apply lookup_fmap. Qed.

Lemma lookup_rows_where p t k r :
  rows_where p t !! k = Some r ↔ t !! k = Some r ∧ p r = true.
Proof. apply map_lookup_filter_Some. Qed.

Lemma lookup_delete_where p t k r :
  delete_where p t !! k = Some r ↔ t !! k = Some r ∧ p r = false.
Proof. apply map_lookup_filter_Some. Qed.

Lemma exists_where_spec p t :
  exists_where p t = true ↔ ∃ k r, t !! k = Some r ∧ p r = true.
Proof.
  unfold exists_where, affected. rewrite negb_true_iff, Z.eqb_neq. split.
  - intros Hne. destruct (map_choose (rows_where p t)) as (k & r & Hkr).
    { intros Hempty. by rewrite Hempty, map_size_empty in Hne. }
    exists k, r. by apply lookup_rows_where.
  - intros (k & r & Hkr). apply lookup_rows_where in Hkr. intros Hz.
    assert (size (rows_where p t) = 0%nat) as Hsize by lia.
    apply map_size_empty_inv in Hsize. by rewrite Hsize in Hkr.
Qed.

Lemma select_row_Some p t r :
  select_row p t = inl r → ∃ k, t !! k = Some r ∧ p r = true.
Proof.
  unfold select_row. destruct (map_to_list (rows_where p t)) as [|[k r'] l] eqn:Hl; [done|].
  intros [= ->]. exists k. apply lookup_rows_where, elem_of_map_to_list. rewrite Hl. left.
Qed.

Lemma select_row_none p t e :
  select_row p t = inr e → ∀ k r, t !! k = Some r → p r = false.
Proof.
  unfold select_row. destruct (map_to_list (rows_where p t)) as [|[k0 r0] l] eqn:Hl; [|done].
  intros _ k r Hk. destruct (p r) eqn:Hp; [|done].
  assert ((k, r) ∈ map_to_list (rows_where p t)) as Hin
    by (by apply elem_of_map_to_list, lookup_rows_where).
  rewrite Hl in Hin. by apply not_elem_of_nil in Hin.
Qed.

Lemma select_row_error p t e : select_row p t = inr e → e = ErrNoRows.
Proof. unfold select_row. by repeat case_match; intros [= ->]. Qed.

(** A predicate that at most one row, the one under [k], can satisfy. *)
Lemma rows_where_point p t k :
  (∀ k' r, t !! k' = Some r → p r = true → k' = k) →
  rows_where p t =
    match t !! k with
    | Some r => if p r then {[k := r]} else ∅
    | None => ∅
    end.
Proof.
  intros Hp. apply map_eq. intros k'. apply option_eq. intros r'.
  rewrite lookup_rows_where. split.
  - intros [Hk' Hr]. pose proof (Hp _ _ Hk' Hr) as ->.
    rewrite Hk', Hr. apply lookup_singleton_eq.
  - destruct (t !! k) as [r|] eqn:Hk; [destruct (p r) eqn:Hr|]; try done.
    intros Hs. apply lookup_singleton_Some in Hs as [<- <-]. done.
Qed.

Lemma select_row_point p t k :
  (∀ k' r, t !! k' = Some r → p r = true → k' = k) →
  select_row p t =
    match t !! k with
    | Some r => if p r then inl r else inr ErrNoRows
    | None => inr ErrNoRows
    end.
Proof.
  intros Hp. unfold select_row. rewrite (rows_where_point p t k Hp).
  destruct (t !! k) as [r|]; [destruct (p r)|];
    by rewrite ?map_to_list_singleton, ?map_to_list_empty.
Qed.

Lemma affected_point p t k :
  (∀ k' r, t !! k' = Some r → p r = true → k' = k) →
  affected p t =
    match t !! k with
    | Some r => if p r then 1 else 0
    | None => 0
    end.
Proof.
  intros Hp. unfold affected. rewrite (rows_where_point p t k Hp).
  destruct (t !! k) as [r|]; [destruct (p r)|];
    by rewrite ?map_size_singleton, ?map_size_empty.
Qed.

Lemma update_where_point p f t k :
  (∀ k' r, t !! k' = Some r → p r = true → k' = k) →
  update_where p f t =
    match t !! k with
    | Some r => if p r then <[k := f r]> t else t
    | None => t
    end.
Proof.
  intros Hp. apply map_eq. intros k'. rewrite lookup_update_where.
  destruct (decide (k' = k)) as [->|Hne].
  - destruct (t !! k) as [r|] eqn:Hk; simpl; [|by rewrite Hk].
    destruct (p r); [by rewrite lookup_insert_eq|by rewrite Hk].
  - assert (Hk' : (λ r, if p r then f r else r) <$> t !! k' = t !! k').
    { destruct (t !! k') as [r'|] eqn:Hk'; [|done]. simpl.
      destruct (p r') eqn:Hr; [|done]. by pose proof (Hp _ _ Hk' Hr). }
    rewrite Hk'. destruct (t !! k) as [r|]; [destruct (p r)|]; try done.
    by rewrite lookup_insert_ne.
Qed.

(** An UPDATE that touched no row left the table as it was. *)
Lemma update_where_none p f t : affected p t = 0 → update_where p f t = t.
Proof.
  intros Ha. apply map_eq. intros k. rewrite lookup_update_where.
  destruct (t !! k) as [r|] eqn:Hk; [|done]. simpl. destruct (p r) eqn:Hr; [|done].
  assert (exists_where p t = true) as He by (apply exists_where_spec; eauto).
  unfold exists_where in He. by rewrite Ha in He.
Qed.
End rows.

(** A table of the database [D]: access to its rows and its constraints;
    [tclash] compares the secondary UNIQUE columns, [tcheck] is the CHECK. *)
Record Table (D K R : Type) `{Countable K} := mkTable {
  tget : D → gmap K R;
  tset : gmap K R → D → D;
  tkey : R → K;
  tclash : R → R → bool;
  tcheck : R → bool;
}.
Arguments mkTable {D K R _ _}. Arguments tget {D K R _ _}. Arguments tset {D K R _ _}.
Arguments tkey {D K R _ _}. Arguments tclash {D K R _ _}. Arguments tcheck {D K R _ _}.

Section statements.
Context {D K R : Type} `{Countable K} (T : Table D K R).

Definition SELECT (p : R → bool) : M D R := query (λ d, select_row p (tget T d)).
Definition SELECT_EXISTS (p : R → bool) : M D bool :=
  query (λ d, inl (exists_where p (tget T d))).
Definition SELECT_COUNT (p : R → bool) : M D Z :=
  query (λ d, inl (affected p (tget T d))).
Definition SELECT_ALL (p : R → bool) : M D (list R) :=
  query (λ d, inl (map snd (map_to_list (rows_where p (tget T d))))).

(** [UPDATE ... SET ... WHERE ...]; returns [RowsAffected]. *)
Definition UPDATE (p : R → bool) (f : R → R) : M D Z :=
  env (λ d, let t := tget T d in
    if exists_where (λ r, p r && negb (tcheck T (f r))) t then (inr ErrConstraint, d)
    else (inl (affected p t), tset T (update_where p f t) d)).

Definition DELETE (p : R → bool) : M D Z :=
  env (λ d, (inl (affected p (tget T d)), tset T (delete_where p (tget T d)) d)).

Definition insert_row (r : R) (d : D) : D := tset T (<[tkey T r := r]> (tget T d)) d.

(** Whether a row breaks a CHECK or a secondary UNIQUE constraint. *)
Definition violates (r : R) (d : D) : bool :=
  negb (tcheck T r) || exists_where (tclash T r) (tget T d).

Definition INSERT (r : R) : M D unit :=
  env (λ d,
    if violates r d then (inr ErrConstraint, d)
    else match tget T d !! tkey T r with
         | Some _ => (inr ErrConstraint, d)
         | None => (inl tt, insert_row r d)
         end).

(** [INSERT ... ON CONFLICT(key) DO NOTHING]; returns [RowsAffected]. *)
Definition INSERT_OR_NOTHING (r : R) : M D Z :=
  env (λ d,
    if violates r d then (inr ErrConstraint, d)
    else match tget T d !! tkey T r with
         | Some _ => (inl 0, d)
         | None => (inl 1, insert_row r d)
         end).

(** [INSERT ... ON CONFLICT(key) DO UPDATE SET] every other column. *)
Definition INSERT_OR_UPDATE (r : R) : M D unit :=
  env (λ d, if violates r d then (inr ErrConstraint, d) else (inl tt, insert_row r d)).
End statements.

(** ** Transactions

    [BeginTx; defer Rollback; ...; return Commit]. *)
Definition tx {D A} (body : M D A) : M D A := λ fs d,
  match env (λ d, (inl tt, d)) fs d with
  | (Ok _, d0, fs0) =>
      match body fs0 d0 with
      | (Ok a, d1, fs1) =>
          match env (λ _, (inl tt, d1)) fs1 d0 with
          | (Ok _, d2, fs2) => (Ok a, d2, fs2)
          | (Err e, d2, fs2) => (Err e, d2, fs2)
          | (Crashed, d2, fs2) => (Crashed, d2, fs2)
          end
      | (Err e, _, fs1) => (Err e, d0, fs1)
      | (Crashed, _, fs1) => (Crashed, d0, fs1)
      end
  | (Err e, d0, fs0) => (Err e, d0, fs0)
  | (Crashed, d0, fs0) => (Crashed, d0, fs0)
  end.

Lemma wp_tx {D A} (body : M D A) (Q : outcome A → D → Prop) d :
  Q (Err ErrIO) d → Q Crashed d →
  wp body (λ o d', match o with
                   | Ok a => Q (Ok a) d' ∧ Q Crashed d'
                   | Err e => Q (Err e) d
                   | Crashed => True
                   end) d →
  wp (tx body) Q d.
Proof.
  intros Hfail Hcrash Hbody fs. unfold tx.
  assert (Hbegin : ∀ fs0, Q (match body fs0 d with
      | (Ok a, d1, fs1) =>
          match env (λ _, (inl tt, d1)) fs1 d with
          | (Ok _, d2, fs2) => (Ok a, d2, fs2)
          | (Err e, d2, fs2) => (Err e, d2, fs2)
          | (Crashed, d2, fs2) => (Crashed, d2, fs2)
          end
      | (Err e, _, fs1) => (Err e, d, fs1)
      | (Crashed, _, fs1) => (Crashed, d, fs1)
      end).1.1 (match body fs0 d with
      | (Ok a, d1, fs1) =>
          match env (λ _, (inl tt, d1)) fs1 d with
          | (Ok _, d2, fs2) => (Ok a, d2, fs2)
          | (Err e, d2, fs2) => (Err e, d2, fs2)
          | (Crashed, d2, fs2) => (Crashed, d2, fs2)
          end
      | (Err e, _, fs1) => (Err e, d, fs1)
      | (Crashed, _, fs1) => (Crashed, d, fs1)
      end).1.2).
  { intros fs0. specialize (Hbody fs0).
    destruct (body fs0 d) as [[[a|e|] d1] fs1]; simpl in *; try done.
    destruct Hbody as [HOk HCrash]. destruct fs1 as [|[] fs1]; simpl; done. }
  destruct fs as [|[] fs]; simpl; try done; apply Hbegin.
Qed.

(** A transaction moves the database along [R] if its body does, whether or not
    it commits: nothing in between is visible. *)
Lemma within_tx {D A} (R : relation D) `{!PreOrder R} (body : M D A) :
  within R body → within R (tx body).
Proof.
  intros H d. apply wp_tx; [reflexivity..|].
  eapply wp_mono; [apply H|]. intros [a|e|] d' HR; [done|reflexivity|done].
Qed.

(** A statement whose WHERE clause reads other tables: it sees the database it
    runs on. *)
Definition subquery {D A} (k : D → M D A) : M D A := λ fs d, k d fs d.

Lemma wp_subquery {D A} (k : D → M D A) Q d : wp (k d) Q d → wp (subquery k) Q d.
Proof. intros H fs. apply H. Qed.

Lemma within_subquery {D A} (R : relation D) (k : D → M D A) :
  (∀ d, within R (k d)) → within R (subquery k).
Proof. intros H d. apply wp_subquery, H. Qed.

(** ** Relations that statements maintain *)
Section within_statements.
Context {D K S : Type} `{Countable K} (T : Table D K S) (R : relation D) `{!PreOrder R}.

Lemma within_SELECT p : within R (SELECT T p).
Proof. by apply within_query. Qed.
Lemma within_SELECT_EXISTS p : within R (SELECT_EXISTS T p).
Proof. by apply within_query. Qed.
Lemma within_SELECT_COUNT p : within R (SELECT_COUNT T p).
Proof. by apply within_query. Qed.
Lemma within_SELECT_ALL p : within R (SELECT_ALL T p).
Proof. by apply within_query. Qed.

Lemma within_UPDATE p f :
  (∀ d, R d (tset T (update_where p f (tget T d)) d)) → within R (UPDATE T p f).
Proof. intros HR. apply within_env; [done|]. intros d. simpl. case_match; [reflexivity|done]. Qed.

Lemma within_DELETE p :
  (∀ d, R d (tset T (delete_where p (tget T d)) d)) → within R (DELETE T p).
Proof. intros HR. by apply within_env. Qed.

Lemma within_INSERT r :
  (∀ d, violates T r d = false → tget T d !! tkey T r = None → R d (insert_row T r d)) →
  within R (INSERT T r).
Proof.
  intros HR. apply within_env; [done|]. intros d.
  destruct (violates T r d) eqn:?; [reflexivity|].
  destruct (tget T d !! tkey T r) eqn:?; [reflexivity|auto].
Qed.

Lemma within_INSERT_OR_NOTHING r :
  (∀ d, violates T r d = false → tget T d !! tkey T r = None → R d (insert_row T r d)) →
  within R (INSERT_OR_NOTHING T r).
Proof.
  intros HR. apply within_env; [done|]. intros d.
  destruct (violates T r d) eqn:?; [reflexivity|].
  destruct (tget T d !! tkey T r) eqn:?; [reflexivity|auto].
Qed.

Lemma within_INSERT_OR_UPDATE r :
  (∀ d, violates T r d = false → R d (insert_row T r d)) → within R (INSERT_OR_UPDATE T r).
Proof. intros HR. apply within_env; [done|]. intros d. case_match; [reflexivity|auto]. Qed.

Lemma violates_clash r d :
  violates T r d = false → exists_where (tclash T r) (tget T d) = false.
Proof. by intros [_ H']%orb_false_iff. Qed.
End within_statements.

(** Symbolic execution of the statements. *)
Ltac sql_step :=
  lazymatch goal with
  | |- wp (tx _) _ _ => apply wp_tx
  | |- wp (subquery _) _ _ => apply wp_subquery
  | |- wp (SELECT _ _) _ _ => apply wp_query
  | |- wp (SELECT_EXISTS _ _) _ _ => apply wp_query
  | |- wp (SELECT_COUNT _ _) _ _ => apply wp_query
  | |- wp (SELECT_ALL _ _) _ _ => apply wp_query
  | |- wp (UPDATE _ _ _) _ _ => apply wp_env
  | |- wp (DELETE _ _) _ _ => apply wp_env
  | |- wp (INSERT _ _) _ _ => apply wp_env
  | |- wp (INSERT_OR_NOTHING _ _) _ _ => apply wp_env
  | |- wp (INSERT_OR_UPDATE _ _) _ _ => apply wp_env
  | |- _ => wp_step
  end.

Ltac within_sql :=
  repeat first
    [ lazymatch goal with
      | |- within _ (tx _) => apply within_tx; [apply _|]
      | |- within _ (subquery _) => apply within_subquery; intros ?
      | |- within _ (SELECT _ _) => apply within_SELECT; apply _
      | |- within _ (SELECT_EXISTS _ _) => apply within_SELECT_EXISTS; apply _
      | |- within _ (SELECT_COUNT _ _) => apply within_SELECT_COUNT; apply _
      | |- within _ (SELECT_ALL _ _) => apply within_SELECT_ALL; apply _
      end
    | within_step ].

(** ** Runs without failures

    [ends m Q s]: when no call fails, [m] started in [s] returns without an error, and
    its result and state satisfy [Q].  What such a run leaves behind is what every run
    does: [ends_post] takes it from the program logic. *)

Definition ends {S A} (m : M S A) (Q : A → S → Prop) (s : S) : Prop :=
  ∃ a s', m [] s = (Ok a, s', []) ∧ Q a s'.

(** [m] returns, with or without an error. *)
Definition steady {S A} (m : M S A) : Prop :=
  ∀ s, ∃ o s', m [] s = (o, s', []) ∧ o ≠ Crashed.

Section ends.
Context {S : Type}.
Implicit Types s : S.

Lemma ends_ret {A} (a : A) (Q : A → S → Prop) s : Q a s → ends (mret a) Q s.
Proof. intros HQ. by exists a, s. Qed.

Lemma ends_bind {A B} (m : M S A) (k : A → M S B) Q s :
  ends m (λ a s', ends (k a) Q s') s → ends (m ≫= k) Q s.
Proof.
  intros (a & s' & Hm & b & s'' & Hk & HQ). exists b, s''. split; [|done].
  unfold mbind, M_bind. by rewrite Hm.
Qed.

Lemma ends_env {A} (f : S → result A * S) (Q : A → S → Prop) s a :
  (f s).1 = inl a → Q a (f s).2 → ends (env f) Q s.
Proof.
  intros Hf HQ. exists a, (f s).2. split; [|done]. unfold env. destruct (f s). cbn in *. by subst.
Qed.

Lemma ends_query {A} (f : S → result A) (Q : A → S → Prop) s a :
  f s = inl a → Q a s → ends (query f) Q s.
Proof. intros Hf HQ. by apply (ends_env _ _ _ a). Qed.

Lemma ends_lift {A} (r : result A) (Q : A → S → Prop) s a :
  r = inl a → Q a s → ends (lift r) Q s.
Proof. intros -> HQ. by apply ends_ret. Qed.

Lemma ends_require b e (Q : unit → S → Prop) s : b = true → Q tt s → ends (require b e) Q s.
Proof. intros -> HQ. by apply ends_ret. Qed.

Lemma ends_mono {A} (m : M S A) (Q Q' : A → S → Prop) s :
  ends m Q s → (∀ a s', Q a s' → Q' a s') → ends m Q' s.
Proof. intros (a & s' & Hm & HQ) H. exists a, s'. auto. Qed.

Lemma ends_try {A} (m : M S A) (Q : result A → S → Prop) s :
  steady m → (∀ r s', Q r s') → ends (try m) Q s.
Proof.
  intros Hm HQ. destruct (Hm s) as (o & s' & Ho & Hne). unfold ends, try. rewrite Ho.
  destruct o as [a|e|]; [by eexists _, _|by eexists _, _|done].
Qed.

(** The facts every run guarantees. *)
Lemma ends_post {A} (I : S → Prop) (m : M S A) (P : A → S → Prop) (Q : A → S → Prop) s :
  wp m (post I P) s → ends m Q s → ends m (λ a s', I s' ∧ P a s' ∧ Q a s') s.
Proof.
  intros Hp (a & s' & Hm & HQ). exists a, s'. split; [done|]. specialize (Hp []).
  rewrite Hm in Hp. destruct Hp as [HI HP]. split_and!; [done|by apply HP|done].
Qed.

Lemma ends_run {A} (m : M S A) (Q : A → S → Prop) s :
  ends m Q s → ∃ a s', run m s = (Ok a, s') ∧ Q a s'.
Proof. intros (a & s' & Hm & HQ). exists a, s'. split; [|done]. unfold run. by rewrite Hm. Qed.

(** *** Programs that return *)

Lemma steady_ret {A} (a : A) : steady (mret a : M S A).
Proof. intros s. by eexists _, _. Qed.
Lemma steady_throw {A} e : steady (throw e : M S A).
Proof. intros s. by eexists _, _. Qed.
Lemma steady_lift {A} (r : result A) : steady (lift r : M S A).
Proof. intros s. destruct r; by eexists _, _. Qed.
Lemma steady_env {A} (f : S → result A * S) : steady (env f).
Proof. intros s. unfold env. destruct (f s) as [[a|e] s']; by eexists _, _. Qed.
Lemma steady_query {A} (f : S → result A) : steady (query f).
Proof. apply steady_env. Qed.
Lemma steady_require b e : steady (require b e : M S unit).
Proof. destruct b; [apply steady_ret|apply steady_throw]. Qed.
Lemma steady_bind {A B} (m : M S A) (k : A → M S B) :
  steady m → (∀ a, steady (k a)) → steady (m ≫= k).
Proof.
  intros Hm Hk s. destruct (Hm s) as (o & s' & Ho & Hne). unfold mbind, M_bind. rewrite Ho.
  destruct o as [a|e|]; [apply Hk|by eexists _, _|done].
Qed.
End ends.

Create HintDb steady.
#[export] Hint Resolve steady_ret steady_throw steady_lift steady_query steady_env steady_require : steady.
Ltac solve_steady :=
  repeat first [ apply steady_bind; [|intros ?] | progress auto with steady | case_match ].

Lemma ends_tx {D A} (m : M D A) (Q : A → D → Prop) d : ends m Q d → ends (tx m) Q d.
Proof.
  intros (a & d' & Hm & HQ). exists a, d'. split; [|done]. unfold tx, env. by rewrite Hm.
Qed.
