(* ===== verification/StoreDB.v ===== *)
(** * The database of the control plane

    The tables of src/internal/store/sqlite.go ([Store.migrate]), their keys,
    UNIQUE and CHECK constraints and triggers, as one record of finite maps.
    Rows hold timestamps as the texts [timeString] writes. *)
From S2P Require Import Prelude GoStrings Timestamps Model Sql.

#[local] Open Scope Z_scope.

(** An ingress receipt of a lifecycle command. *)
Record LifecycleRequest := mkLifecycleRequest {
  lr_ID : string;
  lr_Actor : string;
  lr_Command : string;
  lr_Name : string;
  lr_Arguments : string;
  lr_Phase : string;
  lr_ExitCode : Z;
}.

(** CREATE TABLE lifecycle_requests. *)
Record request_row := mkRequestRow {
  rq : LifecycleRequest;
  rq_created_at : string;
}.

(** CREATE TABLE enrollment_keys. *)
Record enrollment_row := mkEnrollmentRow { ek_instance_id : string; ek_key_id : string }.

(** CREATE TABLE cleanup_receipts.  The receipt column is the JSON of the struct,
    which [json.Unmarshal] reads back. *)
Record receipt_row := mkReceiptRow {
  rc_request_id : string;
  rc_actor : string;
  rc_receipt : CleanupReceipt;
}.

(** CREATE TABLE cleanup_fences; request_id is UNIQUE. *)
Record fence_row := mkFenceRow { fc_instance_id : string; fc_request_id : string }.

(** CREATE TABLE orb_bootstrap. *)
Record bootstrap_row := mkBootstrapRow {
  ob_instance_id : string;
  ob_created_at : string;
  ob_generation : Z;
}.

(** CREATE TABLE instances, with the column the triggers maintain. *)
Record instance_row := mkInstanceRow {
  in_cols : InstanceOf string;
  in_stopped_since : option string;
}.

(** CREATE TABLE memory_pool_resizes; request_id is UNIQUE. *)
Record resize_row := mkResizeRow {
  rz_pool_id : string;
  rz_request_id : string;
  rz_size_bytes : Z;
  rz_running : bool;
}.

Record DB := mkDB {
  lifecycle_requests : gmap string request_row;
  enrollment_keys : gmap string enrollment_row;
  cleanup_receipts : gmap string receipt_row;
  cleanup_fences : gmap string fence_row;
  orb_bootstrap : gmap string bootstrap_row;
  migrations : gmap string Migration;
  import_receipts : gmap string ImportReceipt;
  instances : gmap string instance_row;
  memory_pools : gmap string (MemoryPoolOf string);
  memory_pool_resizes : gmap string resize_row;
  instance_events : list (InstanceEventOf string);
  last_event_id : Z;
  commands : list (CommandAuditOf string);
  authz_decisions : list (AuthzDecisionOf string);
  integrations : gmap string (IntegrationOf string);
  instance_integrations : gmap (string * string) (BindingOf string);
}.

Definition set_lifecycle_requests (v : gmap string request_row) (d : DB) : DB :=
  mkDB v (enrollment_keys d) (cleanup_receipts d) (cleanup_fences d) (orb_bootstrap d)
    (migrations d) (import_receipts d) (instances d) (memory_pools d) (memory_pool_resizes
    d) (instance_events d) (last_event_id d) (commands d) (authz_decisions d)
    (integrations d) (instance_integrations d).
Definition set_enrollment_keys (v : gmap string enrollment_row) (d : DB) : DB :=
  mkDB (lifecycle_requests d) v (cleanup_receipts d) (cleanup_fences d) (orb_bootstrap
    d) (migrations d) (import_receipts d) (instances d) (memory_pools d)
    (memory_pool_resizes d) (instance_events d) (last_event_id d) (commands d)
    (authz_decisions d) (integrations d) (instance_integrations d).
Definition set_cleanup_receipts (v : gmap string receipt_row) (d : DB) : DB :=
  mkDB (lifecycle_requests d) (enrollment_keys d) v (cleanup_fences d) (orb_bootstrap d)
    (migrations d) (import_receipts d) (instances d) (memory_pools d) (memory_pool_resizes
    d) (instance_events d) (last_event_id d) (commands d) (authz_decisions d)
    (integrations d) (instance_integrations d).
Definition set_cleanup_fences (v : gmap string fence_row) (d : DB) : DB :=
  mkDB (lifecycle_requests d) (enrollment_keys d) (cleanup_receipts d) v (orb_bootstrap
    d) (migrations d) (import_receipts d) (instances d) (memory_pools d)
    (memory_pool_resizes d) (instance_events d) (last_event_id d) (commands d)
    (authz_decisions d) (integrations d) (instance_integrations d).
Definition set_orb_bootstrap (v : gmap string bootstrap_row) (d : DB) : DB :=
  mkDB (lifecycle_requests d) (enrollment_keys d) (cleanup_receipts d) (cleanup_fences
    d) v (migrations d) (import_receipts d) (instances d) (memory_pools d)
    (memory_pool_resizes d) (instance_events d) (last_event_id d) (commands d)
    (authz_decisions d) (integrations d) (instance_integrations d).
Definition set_migrations (v : gmap string Migration) (d : DB) : DB :=
  mkDB (lifecycle_requests d) (enrollment_keys d) (cleanup_receipts d) (cleanup_fences
    d) (orb_bootstrap d) v (import_receipts d) (instances d) (memory_pools d)
    (memory_pool_resizes d) (instance_events d) (last_event_id d) (commands d)
    (authz_decisions d) (integrations d) (instance_integrations d).
Definition set_import_receipts (v : gmap string ImportReceipt) (d : DB) : DB :=
  mkDB (lifecycle_requests d) (enrollment_keys d) (cleanup_receipts d) (cleanup_fences
    d) (orb_bootstrap d) (migrations d) v (instances d) (memory_pools d)
    (memory_pool_resizes d) (instance_events d) (last_event_id d) (commands d)
    (authz_decisions d) (integrations d) (instance_integrations d).
Definition set_instances (v : gmap string instance_row) (d : DB) : DB :=
  mkDB (lifecycle_requests d) (enrollment_keys d) (cleanup_receipts d) (cleanup_fences
    d) (orb_bootstrap d) (migrations d) (import_receipts d) v (memory_pools d)
    (memory_pool_resizes d) (instance_events d) (last_event_id d) (commands d)
    (authz_decisions d) (integrations d) (instance_integrations d).
Definition set_memory_pools (v : gmap string (MemoryPoolOf string)) (d : DB) : DB :=
  mkDB (lifecycle_requests d) (enrollment_keys d) (cleanup_receipts d) (cleanup_fences
    d) (orb_bootstrap d) (migrations d) (import_receipts d) (instances d) v
    (memory_pool_resizes d) (instance_events d) (last_event_id d) (commands d)
    (authz_decisions d) (integrations d) (instance_integrations d).
Definition set_memory_pool_resizes (v : gmap string resize_row) (d : DB) : DB :=
  mkDB (lifecycle_requests d) (enrollment_keys d) (cleanup_receipts d) (cleanup_fences
    d) (orb_bootstrap d) (migrations d) (import_receipts d) (instances d) (memory_pools d)
    v (instance_events d) (last_event_id d) (commands d) (authz_decisions d) (integrations
    d) (instance_integrations d).
Definition set_instance_events (v : list (InstanceEventOf string)) (d : DB) : DB :=
  mkDB (lifecycle_requests d) (enrollment_keys d) (cleanup_receipts d) (cleanup_fences
    d) (orb_bootstrap d) (migrations d) (import_receipts d) (instances d) (memory_pools d)
    (memory_pool_resizes d) v (last_event_id d) (commands d) (authz_decisions d)
    (integrations d) (instance_integrations d).
Definition set_last_event_id (v : Z) (d : DB) : DB :=
  mkDB (lifecycle_requests d) (enrollment_keys d) (cleanup_receipts d) (cleanup_fences
    d) (orb_bootstrap d) (migrations d) (import_receipts d) (instances d) (memory_pools d)
    (memory_pool_resizes d) (instance_events d) v (commands d) (authz_decisions d)
    (integrations d) (instance_integrations d).
Definition set_commands (v : list (CommandAuditOf string)) (d : DB) : DB :=
  mkDB (lifecycle_requests d) (enrollment_keys d) (cleanup_receipts d) (cleanup_fences
    d) (orb_bootstrap d) (migrations d) (import_receipts d) (instances d) (memory_pools d)
    (memory_pool_resizes d) (instance_events d) (last_event_id d) v (authz_decisions d)
    (integrations d) (instance_integrations d).
Definition set_authz_decisions (v : list (AuthzDecisionOf string)) (d : DB) : DB :=
  mkDB (lifecycle_requests d) (enrollment_keys d) (cleanup_receipts d) (cleanup_fences
    d) (orb_bootstrap d) (migrations d) (import_receipts d) (instances d) (memory_pools d)
    (memory_pool_resizes d) (instance_events d) (last_event_id d) (commands d) v
    (integrations d) (instance_integrations d).
Definition set_integrations (v : gmap string (IntegrationOf string)) (d : DB) : DB :=
  mkDB (lifecycle_requests d) (enrollment_keys d) (cleanup_receipts d) (cleanup_fences
    d) (orb_bootstrap d) (migrations d) (import_receipts d) (instances d) (memory_pools d)
    (memory_pool_resizes d) (instance_events d) (last_event_id d) (commands d)
    (authz_decisions d) v (instance_integrations d).
Definition set_instance_integrations (v : gmap (string * string) (BindingOf string)) (d : DB) : DB :=
  mkDB (lifecycle_requests d) (enrollment_keys d) (cleanup_receipts d) (cleanup_fences
    d) (orb_bootstrap d) (migrations d) (import_receipts d) (instances d) (memory_pools d)
    (memory_pool_resizes d) (instance_events d) (last_event_id d) (commands d)
    (authz_decisions d) (integrations d) v.

Definition empty_DB : DB := mkDB ∅ ∅ ∅ ∅ ∅ ∅ ∅ ∅ ∅ ∅ [] 0 [] [] ∅ ∅.

Definition no_clash {R} (_ _ : R) : bool := false.
Definition no_check {R} (_ : R) : bool := true.

Definition Requests : Table DB string request_row :=
  mkTable lifecycle_requests set_lifecycle_requests (λ r, lr_ID (rq r)) no_clash no_check.
Definition EnrollmentKeys : Table DB string enrollment_row :=
  mkTable enrollment_keys set_enrollment_keys ek_instance_id no_clash no_check.
Definition CleanupReceipts : Table DB string receipt_row :=
  mkTable cleanup_receipts set_cleanup_receipts rc_request_id no_clash no_check.
Definition CleanupFences : Table DB string fence_row :=
  mkTable cleanup_fences set_cleanup_fences fc_instance_id
    (λ r r', String.eqb (fc_request_id r) (fc_request_id r')) no_check.
Definition OrbBootstrap : Table DB string bootstrap_row :=
  mkTable orb_bootstrap set_orb_bootstrap ob_instance_id no_clash no_check.
Definition Migrations : Table DB string Migration :=
  mkTable migrations set_migrations mg_InstanceID no_clash no_check.
Definition ImportReceipts : Table DB string ImportReceipt :=
  mkTable import_receipts set_import_receipts ir_InstanceID no_clash no_check.

Definition row_ID (r : instance_row) : string := ID (in_cols r).
Definition row_Name (r : instance_row) : string := Name (in_cols r).
Definition row_State (r : instance_row) : string := State (in_cols r).

(** name TEXT NOT NULL UNIQUE; kind CHECK (kind IN ('vm', 'orb')). *)
Definition Instances : Table DB string instance_row :=
  mkTable instances set_instances row_ID
    (λ r r', String.eqb (row_Name r) (row_Name r'))
    (λ r, String.eqb (Kind (in_cols r)) KindVM || String.eqb (Kind (in_cols r)) KindOrb).

Definition MemoryPools : Table DB string (MemoryPoolOf string) :=
  mkTable memory_pools set_memory_pools mp_ID
    (λ r r', String.eqb (mp_Name r) (mp_Name r')) no_check.
Definition MemoryPoolResizes : Table DB string resize_row :=
  mkTable memory_pool_resizes set_memory_pool_resizes rz_pool_id
    (λ r r', String.eqb (rz_request_id r) (rz_request_id r')) no_check.
Definition Integrations : Table DB string (IntegrationOf string) :=
  mkTable integrations set_integrations ig_ID
    (λ r r', String.eqb (ig_Name r) (ig_Name r')) no_check.
Definition InstanceIntegrations : Table DB (string * string) (BindingOf string) :=
  mkTable instance_integrations set_instance_integrations
    (λ r, (ib_InstanceID r, ib_IntegrationID r)) no_clash no_check.

(** ** Triggers

    [instances_stopped_insert] and [instances_stopped_update]; the second fires
    on every UPDATE that assigns [state], as all of the source's do. *)
Definition stopped_insert (i : InstanceOf string) : instance_row :=
  mkInstanceRow i (if String.eqb (State i) StateStopped then Some (UpdatedAt i) else None).

Definition stopped_update (f : InstanceOf string → InstanceOf string) (r : instance_row)
  : instance_row :=
  let i := f (in_cols r) in
  mkInstanceRow i
    (if String.eqb (State (in_cols r)) (State i) then in_stopped_since r
     else if String.eqb (State i) StateStopped then Some (UpdatedAt i) else None).

Definition UPDATE_instances (p : instance_row → bool)
    (f : InstanceOf string → InstanceOf string) : M DB Z :=
  UPDATE Instances p (stopped_update f).

(** The back-fill at the end of [migrate]: legacy stopped rows start a full
    retention period. *)
Definition migrate_stopped_since (now : time) : M DB Z :=
  UPDATE Instances
    (λ r, String.eqb (row_State r) StateStopped && is_nil (in_stopped_since r))
    (λ r, mkInstanceRow (in_cols r) (Some (timeString now now))).

(** ** Well-formed databases

    Every row sits under its key, names of instances and pools and owners of
    fences are unique, and [stopped_since] is set exactly on stopped rows. *)
Definition keyed {K R} `{Countable K} (key : R → K) (t : gmap K R) : Prop :=
  map_Forall (λ k r, key r = k) t.

Definition unclashed {K R} `{Countable K} (clash : R → R → bool) (t : gmap K R) : Prop :=
  ∀ k k' r r', t !! k = Some r → t !! k' = Some r' → clash r r' = true → k = k'.

Definition stopped_ok (r : instance_row) : Prop :=
  row_State r = StateStopped ↔ is_Some (in_stopped_since r).

Record wf (d : DB) : Prop := {
  wf_requests : keyed (tkey Requests) (lifecycle_requests d);
  wf_keys : keyed (tkey EnrollmentKeys) (enrollment_keys d);
  wf_receipts : keyed (tkey CleanupReceipts) (cleanup_receipts d);
  wf_fences : keyed (tkey CleanupFences) (cleanup_fences d);
  wf_fences_unique : unclashed (tclash CleanupFences) (cleanup_fences d);
  wf_bootstrap : keyed (tkey OrbBootstrap) (orb_bootstrap d);
  wf_migrations : keyed (tkey Migrations) (migrations d);
  wf_import : keyed (tkey ImportReceipts) (import_receipts d);
  wf_instances : keyed (tkey Instances) (instances d);
  wf_instances_unique : unclashed (tclash Instances) (instances d);
  wf_instances_check : map_Forall (λ _ r, tcheck Instances r = true) (instances d);
  wf_stopped : map_Forall (λ _ r, stopped_ok r) (instances d);
  wf_pools : keyed (tkey MemoryPools) (memory_pools d);
  wf_pools_unique : unclashed (tclash MemoryPools) (memory_pools d);
  wf_resizes : keyed (tkey MemoryPoolResizes) (memory_pool_resizes d);
  wf_resizes_unique : unclashed (tclash MemoryPoolResizes) (memory_pool_resizes d);
  wf_integrations : keyed (tkey Integrations) (integrations d);
  wf_integrations_unique : unclashed (tclash Integrations) (integrations d);
  wf_bindings : keyed (tkey InstanceIntegrations) (instance_integrations d);
}.

Lemma wf_empty : wf empty_DB.
Proof.
  split; simpl; first [by apply map_Forall_empty | by intros k k' r r' H; rewrite lookup_empty in H].
Qed.

(** *** What single statements do to these properties *)
Section rows_wf.
Context {K R : Type} `{Countable K}.
Implicit Types t : gmap K R.

Lemma Forall_update_where (P : K → R → Prop) p f t :
  (∀ k r, t !! k = Some r → p r = true → P k r → P k (f r)) →
  map_Forall P t → map_Forall P (update_where p f t).
Proof.
  intros Hf Ht k r. rewrite lookup_update_where.
  destruct (t !! k) as [r0|] eqn:Hk; [|done]. intros [= <-].
  pose proof (Ht _ _ Hk). destruct (p r0) eqn:?; eauto.
Qed.

Lemma keyed_update_where (key : R → K) p f t :
  (∀ r, key (f r) = key r) → keyed key t → keyed key (update_where p f t).
Proof. intros Hf. apply Forall_update_where. intros k r _ _ <-. apply Hf. Qed.

Lemma keyed_insert (key : R → K) r t : keyed key t → keyed key (<[key r := r]> t).
Proof. intros Ht. by apply map_Forall_insert_2. Qed.

Lemma Forall_delete_where (P : K → R → Prop) p t :
  map_Forall P t → map_Forall P (delete_where p t).
Proof. intros Ht k r Hk. apply lookup_delete_where in Hk as [Hk _]. by apply Ht. Qed.

Lemma keyed_delete_where (key : R → K) p t : keyed key t → keyed key (delete_where p t).
Proof. apply Forall_delete_where. Qed.

Lemma unclashed_update_where (clash : R → R → bool) p f t :
  (∀ r r', clash (f r) r' = clash r r') → (∀ r r', clash r (f r') = clash r r') →
  unclashed clash t → unclashed clash (update_where p f t).
Proof.
  intros Hl Hr Ht k k' r r'. rewrite !lookup_update_where.
  destruct (t !! k) as [r0|] eqn:Hk; [|done].
  destruct (t !! k') as [r0'|] eqn:Hk'; [|done].
  intros [= <-] [= <-] Hc. apply (Ht k k' r0 r0'); try done. revert Hc.
  destruct (p r0), (p r0'); by rewrite ?Hl, ?Hr.
Qed.

Lemma unclashed_insert (clash : R → R → bool) k r t :
  (∀ r r', clash r r' = clash r' r) → exists_where (clash r) t = false →
  unclashed clash t → unclashed clash (<[k := r]> t).
Proof.
  intros Hsym Hnone Ht k1 k2 r1 r2.
  assert (Hno : ∀ k' r', t !! k' = Some r' → clash r r' = false).
  { intros k' r' Hk'. destruct (clash r r') eqn:Hc; [|done].
    assert (exists_where (clash r) t = true) by (apply exists_where_spec; eauto).
    congruence. }
  rewrite !lookup_insert_Some. intros [[<- <-]|[? H1]] [[<- <-]|[? H2]] Hc; try done.
  - by rewrite (Hno _ _ H2) in Hc.
  - by rewrite Hsym, (Hno _ _ H1) in Hc.
  - by apply (Ht _ _ _ _ H1 H2).
Qed.

Lemma unclashed_delete_where (clash : R → R → bool) p t :
  unclashed clash t → unclashed clash (delete_where p t).
Proof.
  intros Ht k k' r r' Hk Hk'.
  apply lookup_delete_where in Hk as [Hk _]. apply lookup_delete_where in Hk' as [Hk' _].
  by apply (Ht _ _ _ _ Hk Hk').
Qed.
End rows_wf.

(** A database that keeps the tables of [wf] keeps [wf]: the preorder operations
    are shown to stay within. *)
Definition wf_le : relation DB := λ d d', wf d → wf d'.
#[export] Instance wf_le_preorder : PreOrder wf_le.
Proof. split; [intros d; exact id|intros d1 d2 d3 H1 H2 Hwf; auto]. Qed.

Lemma stopped_ok_insert i : stopped_ok (stopped_insert i).
Proof.
  unfold stopped_ok, stopped_insert, row_State. simpl.
  destruct (String.eqb_spec (State i) StateStopped); split; try done; by intros [].
Qed.

Lemma stopped_ok_update f r : stopped_ok r → stopped_ok (stopped_update f r).
Proof.
  unfold stopped_ok, stopped_update, row_State. simpl.
  destruct (String.eqb_spec (State (in_cols r)) (State (f (in_cols r)))) as [->|]; [done|].
  destruct (String.eqb_spec (State (f (in_cols r))) StateStopped); split; try done; by intros [].
Qed.

Lemma eqb_sym_fun {A} (g : A → string) r r' :
  String.eqb (g r) (g r') = String.eqb (g r') (g r).
Proof. apply String.eqb_sym. Qed.

(** Tables whose only constraint is their key. *)
Lemma violates_free {K R} `{Countable K} (T : Table DB K R) r d :
  tclash T = no_clash → tcheck T = no_check → violates T r d = false.
Proof.
  intros Hc Hk. unfold violates. rewrite Hc, Hk. simpl.
  destruct (exists_where (no_clash r) (tget T d)) eqn:He; [|done].
  by apply exists_where_spec in He as (k & r' & _ & ?).
Qed.

(** Statements on [instances], the table with constraints of every sort. *)
Lemma wf_UPDATE_instances p f :
  (∀ i, ID (f i) = ID i) → (∀ i, Name (f i) = Name i) →
  within wf_le (UPDATE_instances p f).
Proof.
  intros HID HName. apply within_env; [apply _|]. intros d.
  simpl; destruct (exists_where _ (instances d)) eqn:Hex; [by intros Hwf|]. intros []; split; try done; simpl.
  - apply keyed_update_where; [intros r; apply HID|done].
  - apply unclashed_update_where; [| |done];
      intros; unfold row_Name, stopped_update; simpl; by rewrite HName.
  - apply Forall_update_where; [|done]. intros k r Hk Hp _.
    destruct (tcheck Instances (stopped_update f r)) eqn:Hc; [done|].
    assert (exists_where (λ r, p r && negb (tcheck Instances (stopped_update f r)))
              (instances d) = true); [|simpl in *; congruence].
    apply exists_where_spec. exists k, r. by rewrite Hp, Hc.
  - apply Forall_update_where; [|done]. intros k r _ _. apply stopped_ok_update.
Qed.

Lemma wf_INSERT_instances i : within wf_le (INSERT Instances (stopped_insert i)).
Proof.
  apply within_env; [apply _|]. intros d.
  destruct (violates Instances _ d) eqn:Hv; [by intros Hwf|].
  destruct (tget Instances d !! _) eqn:Hnone; [by intros Hwf|].
  unfold violates in Hv. apply orb_false_iff in Hv as [Hcheck Hclash].
  apply negb_false_iff in Hcheck.
  intros []; split; try done; simpl.
  - by apply (keyed_insert row_ID).
  - apply unclashed_insert; [apply eqb_sym_fun|done|done].
  - by apply map_Forall_insert_2.
  - apply map_Forall_insert_2; [apply stopped_ok_insert|done].
Qed.

Lemma wf_DELETE_instances p : within wf_le (DELETE Instances p).
Proof.
  apply within_DELETE; [apply _|]. intros d []; split; try done; simpl.
  - by apply keyed_delete_where.
  - by apply unclashed_delete_where.
  - by apply Forall_delete_where.
  - by apply Forall_delete_where.
Qed.

(** Statements on the other tables: the row properties of the table they touch. *)
Ltac solve_wf :=
  intros []; split; try done; simpl;
  first [ apply keyed_update_where; [by intros []|done]
        | apply map_Forall_insert_2; done
        | apply keyed_delete_where; done
        | apply unclashed_delete_where; done
        | apply unclashed_update_where; [by intros [] []..|done]
        | apply unclashed_insert; [intros; apply String.eqb_sym | |done];
          match goal with H : violates _ _ _ = false |- _ => apply (violates_clash _ _ _ H) end ].

(** *** Statements that address a row by its key

    When the predicate implies the key, the statement reads or writes one entry. *)
Section point_statements.
Context {K R : Type} `{Countable K} (T : Table DB K R).

Definition points_at (p : R → bool) (k : K) : Prop := ∀ r, p r = true → tkey T r = k.

Lemma keyed_point p k d :
  points_at p k → keyed (tkey T) (tget T d) →
  ∀ k' r, tget T d !! k' = Some r → p r = true → k' = k.
Proof. intros Hp Hkey k' r Hk' Hr. rewrite <- (Hp _ Hr). symmetry. by apply (Hkey k' r). Qed.

(** The UPDATE reports one row exactly when the addressed row satisfies [p]. *)
Lemma point_update p f k d :
  points_at p k → keyed (tkey T) (tget T d) →
  (affected p (tget T d) = 1 ∧ ∃ r, tget T d !! k = Some r ∧ p r = true ∧
     update_where p f (tget T d) = <[k := f r]> (tget T d)) ∨
  (affected p (tget T d) = 0 ∧ update_where p f (tget T d) = tget T d).
Proof.
  intros Hp Hkey. pose proof (keyed_point p k d Hp Hkey) as Hpoint.
  rewrite (affected_point _ _ k Hpoint), (update_where_point _ _ _ k Hpoint).
  destruct (tget T d !! k) as [r|] eqn:Hk; [|by right].
  destruct (p r) eqn:Hr; [left|by right]. eauto 6.
Qed.

(** Likewise for DELETE. *)
Lemma point_delete p k d :
  points_at p k → keyed (tkey T) (tget T d) →
  (affected p (tget T d) = 1 ∧ ∃ r, tget T d !! k = Some r ∧ p r = true ∧
     delete_where p (tget T d) = delete k (tget T d)) ∨
  (affected p (tget T d) = 0 ∧ delete_where p (tget T d) = tget T d).
Proof.
  intros Hp Hkey. pose proof (keyed_point p k d Hp Hkey) as Hpoint.
  rewrite (affected_point _ _ k Hpoint).
  assert (Hno : ∀ k' r, k' ≠ k → tget T d !! k' = Some r → p r = false).
  { intros k' r Hne Hk'. destruct (p r) eqn:Hr; [|done]. by pose proof (Hpoint _ _ Hk' Hr). }
  destruct (tget T d !! k) as [r|] eqn:Hk; [destruct (p r) eqn:Hr|].
  - left. split; [done|]. exists r. split; [done|]. split; [done|].
    apply map_eq. intros k'. apply option_eq. intros r'.
    rewrite lookup_delete_where, lookup_delete_Some. split.
    + intros [Hk' Hf]. split; [|done]. intros <-. congruence.
    + intros [Hne Hk']. split; [done|]. by apply (Hno k').
  - right. split; [done|]. apply map_eq. intros k'. apply option_eq. intros r'.
    rewrite lookup_delete_where. split; [by intros []|]. intros Hk'. split; [done|].
    destruct (decide (k' = k)) as [->|]; [congruence|eauto].
  - right. split; [done|]. apply map_eq. intros k'. apply option_eq. intros r'.
    rewrite lookup_delete_where. split; [by intros []|]. intros Hk'. split; [done|].
    destruct (decide (k' = k)) as [->|]; [congruence|eauto].
Qed.

Lemma wp_UPDATE_point p f k (Q : outcome Z → DB → Prop) d :
  points_at p k → keyed (tkey T) (tget T d) →
  (∀ r, p r = true → tcheck T r = true → tcheck T (f r) = true) →
  map_Forall (λ _ r, tcheck T r = true) (tget T d) →
  Q (Err ErrIO) d → Q Crashed d →
  (∀ r, tget T d !! k = Some r → p r = true →
     Q (Ok 1) (tset T (<[k := f r]> (tget T d)) d) ∧
     Q Crashed (tset T (<[k := f r]> (tget T d)) d)) →
  (Q (Ok 0) (tset T (tget T d) d) ∧ Q Crashed (tset T (tget T d) d)) →
  wp (UPDATE T p f) Q d.
Proof.
  intros Hp Hkey Hf Hall Hio Hcr Hone Hnone.
  assert (Hex : exists_where (λ r, p r && negb (tcheck T (f r))) (tget T d) = false).
  { destruct (exists_where _ (tget T d)) eqn:He; [|done].
    apply exists_where_spec in He as (k' & r & Hk' & Hr).
    apply andb_true_iff in Hr as [Hr Hn]. apply negb_true_iff in Hn.
    rewrite Hf in Hn; [done|done|]. by apply (Hall k'). }
  destruct (point_update p f k d Hp Hkey) as [[Ha (r & Hr & Hpr & Hu)]|[Ha Hu]].
  - destruct (Hone r Hr Hpr). apply wp_env; [done..| |]; cbn beta zeta; by rewrite Hex, ?Ha, Hu.
  - destruct Hnone. apply wp_env; [done..| |]; cbn beta zeta; by rewrite Hex, ?Ha, Hu.
Qed.

Lemma wp_DELETE_point p k (Q : outcome Z → DB → Prop) d :
  points_at p k → keyed (tkey T) (tget T d) →
  Q (Err ErrIO) d → Q Crashed d →
  (∀ r, tget T d !! k = Some r → p r = true →
     Q (Ok 1) (tset T (delete k (tget T d)) d) ∧
     Q Crashed (tset T (delete k (tget T d)) d)) →
  (Q (Ok 0) (tset T (tget T d) d) ∧ Q Crashed (tset T (tget T d) d)) →
  wp (DELETE T p) Q d.
Proof.
  intros Hp Hkey Hio Hcr Hone Hnone.
  destruct (point_delete p k d Hp Hkey) as [[Ha (r & Hr & Hpr & Hu)]|[Ha Hu]].
  - destruct (Hone r Hr Hpr). apply wp_env; [done..| |]; cbn beta zeta; by rewrite ?Ha, Hu.
  - destruct Hnone. apply wp_env; [done..| |]; cbn beta zeta; by rewrite ?Ha, Hu.
Qed.

Lemma wp_INSERT_fresh r (Q : outcome unit → DB → Prop) d :
  Q (Err ErrIO) d → Q Crashed d → Q (Err ErrConstraint) d →
  (tget T d !! tkey T r = None → violates T r d = false →
     Q (Ok tt) (insert_row T r d) ∧ Q Crashed (insert_row T r d)) →
  wp (INSERT T r) Q d.
Proof.
  intros Hio Hcr Hdup Hins. apply wp_env; [done..| |]; cbn beta;
    (destruct (violates T r d) eqn:?; [done|]);
    (destruct (tget T d !! tkey T r) eqn:?; [done|]); by apply Hins.
Qed.

Lemma wp_SELECT_point p k (Q : outcome R → DB → Prop) d :
  points_at p k → keyed (tkey T) (tget T d) →
  Q (Err ErrIO) d → Q Crashed d →
  (∀ r, tget T d !! k = Some r → p r = true → Q (Ok r) d) →
  ((∀ r, tget T d !! k = Some r → p r = false) → Q (Err ErrNoRows) d) →
  wp (SELECT T p) Q d.
Proof.
  intros Hp Hkey Hio Hcr Hone Hnone. apply wp_query; [done..|].
  rewrite (select_row_point _ _ k (keyed_point p k d Hp Hkey)).
  destruct (tget T d !! k) as [r|]; [destruct (p r) eqn:?|]; simpl; auto;
    apply Hnone; intros ? [= <-] || intros ? [=]; done.
Qed.
End point_statements.

(** A state assignment by key breaks no constraint of [instances]. *)
Lemma wp_UPDATE_instance p f id (Q : outcome Z → DB → Prop) d :
  points_at Instances p id → wf d → (∀ i, Kind (f i) = Kind i) →
  Q (Err ErrIO) d → Q Crashed d →
  (∀ r, instances d !! id = Some r → p r = true →
     let d' := set_instances (<[id := stopped_update f r]> (instances d)) d in
     Q (Ok 1) d' ∧ Q Crashed d') →
  (let d' := set_instances (instances d) d in Q (Ok 0) d' ∧ Q Crashed d') →
  wp (UPDATE_instances p f) Q d.
Proof.
  intros Hp Hwf Hf HQ1 HQ2 HQ3 HQ4.
  apply (wp_UPDATE_point Instances p (stopped_update f) id);
    [done|apply Hwf| |apply Hwf|done..].
  intros r _ Hr. simpl in *. by rewrite Hf.
Qed.
