(* ===== verification/StoreRequests.v ===== *)
(** * Durable lifecycle requests

    Models src/internal/store/requests.go: the ingress receipts that make every
    lifecycle command execute at most once, and the bootstrap generations of
    Orbs.  [now] is the clock an operation reads. *)
From S2P Require Import Prelude GoStrings Timestamps Model Sql StoreDB.
From stdpp Require Import relations.

#[local] Open Scope Z_scope.

Definition with_phase (phase : string) (code : Z) (r : request_row) : request_row :=
  let q := rq r in
  mkRequestRow
    (mkLifecycleRequest (lr_ID q) (lr_Actor q) (lr_Command q) (lr_Name q) (lr_Arguments q)
       phase code)
    (rq_created_at r).

Definition set_phase (phase : string) (r : request_row) : request_row :=
  with_phase phase (lr_ExitCode (rq r)) r.

(** The row an INSERT writes: exit_code takes its default. *)
Definition new_request (q : LifecycleRequest) (phase : string) (now : time) : request_row :=
  mkRequestRow
    (mkLifecycleRequest (lr_ID q) (lr_Actor q) (lr_Command q) (lr_Name q) (lr_Arguments q)
       phase 0)
    (timeString now now).

Definition owned (id actor : string) (r : request_row) : bool :=
  String.eqb (lr_ID (rq r)) id && String.eqb (lr_Actor (rq r)) actor.
Definition in_phase (phase : string) (r : request_row) : bool :=
  String.eqb (lr_Phase (rq r)) phase.
Definition has_command (cmd : string) (r : request_row) : bool :=
  String.eqb (lr_Command (rq r)) cmd.

Definition same_operation (a b : LifecycleRequest) : bool :=
  String.eqb (lr_Command a) (lr_Command b) && String.eqb (lr_Name a) (lr_Name b) &&
  String.eqb (lr_Arguments a) (lr_Arguments b).

(** ** Operations *)

Definition GetLifecycleRequest (id actor : string) : M DB LifecycleRequest :=
  r ← SELECT Requests (owned id actor); mret (rq r).

Definition AdmitLifecycleRequest (now : time) (r : LifecycleRequest) : M DB bool :=
  n ← INSERT_OR_NOTHING Requests (new_request r "admitted" now);
  if n =? 1 then mret true else
  old ← GetLifecycleRequest (lr_ID r) (lr_Actor r);
  if negb (same_operation old r)
  then throw (Errorf "request ID already bound to another operation")
  else mret false.

Definition FinishLifecycleRequest (id actor : string) (exitCode : Z) : M DB bool :=
  let phase := if exitCode =? 0 then "done" else "failed" in
  n ← UPDATE Requests
        (λ r, owned id actor r &&
              (in_phase "executing" r || (in_phase "admitted" r && negb (exitCode =? 0))))
        (with_phase phase exitCode);
  mret (n =? 1).

Definition RejectLifecycleStart (id actor : string) : M DB unit :=
  n ← UPDATE Requests
        (λ r, owned id actor r && has_command "start" r && in_phase "executing" r)
        (with_phase "rejected" 1);
  require (n =? 1) (Errorf "start request no longer executing").

Definition InterruptLifecycleRequests : M DB unit :=
  _ ← UPDATE Requests
        (λ r, in_phase "admitted" r || in_phase "executing" r)
        (λ r, set_phase (if in_phase "admitted" r then "cancelled" else "interrupted") r);
  mret tt.

Definition BeginLifecycleRequest (id actor : string) : M DB unit :=
  n ← UPDATE Requests (λ r, owned id actor r && in_phase "admitted" r) (set_phase "executing");
  require (n =? 1) (Errorf "request not admitted").

Definition CancelLifecycleRequest (now : time) (r : LifecycleRequest) : M DB unit :=
  _ ← INSERT_OR_NOTHING Requests (new_request r "cancelled" now);
  old ← GetLifecycleRequest (lr_ID r) (lr_Actor r);
  if negb (same_operation old r) then throw (Errorf "request binding differs") else mret tt.

Definition BootstrapGeneration (now : time) (instanceID : string) (created : time) : M DB Z :=
  r ← SELECT OrbBootstrap
        (λ r, String.eqb (ob_instance_id r) instanceID &&
              String.eqb (ob_created_at r) (timeString now created));
  mret (ob_generation r).

Definition set_generation (g : Z) (r : bootstrap_row) : bootstrap_row :=
  mkBootstrapRow (ob_instance_id r) (ob_created_at r) g.

(** Admission and the high-water mark commit together. *)
Definition AdmitBootstrap (now : time) (r : LifecycleRequest) (instanceID : string)
    (created : time) (generation : Z) : M DB unit :=
  if generation <=? 0 then throw (Errorf "positive bootstrap generation required") else
  tx (n ← UPDATE OrbBootstrap
            (λ b, String.eqb (ob_instance_id b) instanceID &&
                  String.eqb (ob_created_at b) (timeString now created) &&
                  (ob_generation b <? generation))
            (set_generation generation);
      if negb (n =? 1) then throw (Errorf "missing or non-increasing bootstrap generation") else
      INSERT Requests (new_request r "executing" now)).

(** ** The request state machine *)

Definition is_delete (cmd : string) : Prop := cmd = "delete" ∨ cmd = "delete-proof".

(** The moves of a request's phase, by its command.  [step_cleanup] are the moves
    of [BeginCleanup]: only a deletion is ever executed again. *)
Inductive phase_step (cmd : string) : string → string → Prop :=
  | step_begin : phase_step cmd "admitted" "executing"
  | step_done : phase_step cmd "executing" "done"
  | step_failed : phase_step cmd "executing" "failed"
  | step_invalid : phase_step cmd "admitted" "failed"
  | step_rejected : cmd = "start" → phase_step cmd "executing" "rejected"
  | step_cancelled : phase_step cmd "admitted" "cancelled"
  | step_interrupted : phase_step cmd "executing" "interrupted"
  | step_cleanup ph : is_delete cmd →
      ph = "failed" ∨ ph = "cancelled" ∨ ph = "interrupted" → phase_step cmd ph "executing".

(** What a later state remembers of a request row. *)
Definition request_later (r r' : request_row) : Prop :=
  lr_ID (rq r') = lr_ID (rq r) ∧ lr_Actor (rq r') = lr_Actor (rq r) ∧
  lr_Command (rq r') = lr_Command (rq r) ∧ lr_Name (rq r') = lr_Name (rq r) ∧
  lr_Arguments (rq r') = lr_Arguments (rq r) ∧ rq_created_at r' = rq_created_at r ∧
  rtc (phase_step (lr_Command (rq r))) (lr_Phase (rq r)) (lr_Phase (rq r')).

#[export] Instance request_later_preorder : PreOrder request_later.
Proof.
  split.
  - intros r. by repeat split.
  - intros r1 r2 r3 (?&?&Hc&?&?&?&Hp) (?&?&?&?&?&?&Hp').
    repeat split; try congruence. rewrite Hc in Hp'. by etransitivity.
Qed.

(** Requests are never forgotten, never rebound, and move by [phase_step]. *)
Definition history : relation DB := λ d d',
  ∀ id r, lifecycle_requests d !! id = Some r →
    ∃ r', lifecycle_requests d' !! id = Some r' ∧ request_later r r'.

#[export] Instance history_preorder : PreOrder history.
Proof.
  split.
  - intros d id r H. by exists r.
  - intros d1 d2 d3 H1 H2 id r H.
    destruct (H1 _ _ H) as (r2 & Hr2 & Hle). destruct (H2 _ _ Hr2) as (r3 & Hr3 & Hle').
    exists r3. split; [done|]. by etransitivity.
Qed.

Lemma history_same d d' : lifecycle_requests d' = lifecycle_requests d → history d d'.
Proof. intros Heq id r H. rewrite Heq. by exists r. Qed.

Lemma history_insert d r :
  lifecycle_requests d !! lr_ID (rq r) = None → history d (insert_row Requests r d).
Proof.
  intros Hnone id r' H. simpl. exists r'. split; [|done].
  rewrite lookup_insert_ne; [done|]. intros <-. simpl in *. congruence.
Qed.

Lemma history_update d p f :
  (∀ r, p r = true → request_later r (f r)) →
  history d (set_lifecycle_requests (update_where p f (lifecycle_requests d)) d).
Proof.
  intros Hf id r H. simpl. rewrite lookup_update_where, H. simpl. eexists. split; [done|].
  destruct (p r) eqn:Hp; [auto|done].
Qed.

Lemma request_later_phase r ph code :
  rtc (phase_step (lr_Command (rq r))) (lr_Phase (rq r)) ph →
  request_later r (with_phase ph code r).
Proof. intros H. by repeat split. Qed.

(** Boolean row tests as facts. *)
Ltac row_tests :=
  repeat match goal with
  | H : (_ && _) = true |- _ => apply andb_true_iff in H as [? ?]
  | H : (_ || _) = true |- _ => apply orb_true_iff in H as [?|?]
  | H : negb _ = true |- _ => apply negb_true_iff in H
  | H : negb _ = false |- _ => apply negb_false_iff in H
  | H : String.eqb _ _ = true |- _ => apply String.eqb_eq in H
  | H : in_phase _ _ = true |- _ => apply String.eqb_eq in H
  | H : has_command _ _ = true |- _ => apply String.eqb_eq in H
  | H : owned _ _ _ = true |- _ => apply andb_true_iff in H as [? ?]
  | H : Z.eqb _ _ = true |- _ => apply Z.eqb_eq in H
  | H : Z.eqb _ _ = false |- _ => apply Z.eqb_neq in H
  end.

Ltac solve_history_update :=
  apply within_UPDATE; [apply _|]; intros ?; apply history_update; intros r Hr;
  row_tests; apply request_later_phase;
  repeat match goal with H : lr_Phase _ = _ |- _ => rewrite H end;
  apply rtc_once.

Create HintDb store.

Lemma GetLifecycleRequest_within R `{!PreOrder R} id actor :
  within R (GetLifecycleRequest id actor).
Proof. unfold GetLifecycleRequest. within_sql. Qed.

Lemma AdmitLifecycleRequest_history now r : within history (AdmitLifecycleRequest now r).
Proof.
  unfold AdmitLifecycleRequest. within_sql; [|by apply GetLifecycleRequest_within, _].
  apply within_INSERT_OR_NOTHING; [apply _|]. intros d _. apply history_insert.
Qed.

Lemma FinishLifecycleRequest_history id actor code :
  within history (FinishLifecycleRequest id actor code).
Proof.
  unfold FinishLifecycleRequest. within_sql. solve_history_update.
  - destruct (code =? 0); constructor.
  - row_tests. rewrite (proj2 (Z.eqb_neq _ _)) by done. constructor.
Qed.

Lemma RejectLifecycleStart_history id actor : within history (RejectLifecycleStart id actor).
Proof. unfold RejectLifecycleStart. within_sql. solve_history_update. by constructor. Qed.

Lemma InterruptLifecycleRequests_history : within history InterruptLifecycleRequests.
Proof.
  unfold InterruptLifecycleRequests. within_sql.
  solve_history_update; unfold in_phase; rewrite H; constructor.
Qed.

Lemma BeginLifecycleRequest_history id actor : within history (BeginLifecycleRequest id actor).
Proof. unfold BeginLifecycleRequest. within_sql. solve_history_update. constructor. Qed.

Lemma CancelLifecycleRequest_history now r : within history (CancelLifecycleRequest now r).
Proof.
  unfold CancelLifecycleRequest. within_sql; [|by apply GetLifecycleRequest_within, _].
  apply within_INSERT_OR_NOTHING; [apply _|]. intros d _. apply history_insert.
Qed.

Lemma BootstrapGeneration_within R `{!PreOrder R} now i c :
  within R (BootstrapGeneration now i c).
Proof. unfold BootstrapGeneration. within_sql. Qed.

Lemma AdmitBootstrap_history now r i c g : within history (AdmitBootstrap now r i c g).
Proof.
  unfold AdmitBootstrap. within_sql.
  - apply within_UPDATE; [apply _|]. intros d. by apply history_same.
  - apply within_INSERT; [apply _|]. intros d _. apply history_insert.
Qed.

(** *** Statements on one request *)

Lemma owned_points id actor (p : request_row → bool) :
  (∀ r, p r = true → owned id actor r = true) → points_at Requests p id.
Proof. intros Hp r Hr. apply Hp in Hr. row_tests. done. Qed.

(** A request has no constraint that an UPDATE could break. *)
Lemma wp_UPDATE_request p f id (Q : outcome Z → DB → Prop) d :
  points_at Requests p id → wf d →
  Q (Err ErrIO) d → Q Crashed d →
  (∀ r, lifecycle_requests d !! id = Some r → p r = true →
     let d' := set_lifecycle_requests (<[id := f r]> (lifecycle_requests d)) d in
     Q (Ok 1) d' ∧ Q Crashed d') →
  (let d' := set_lifecycle_requests (lifecycle_requests d) d in Q (Ok 0) d' ∧ Q Crashed d') →
  wp (UPDATE Requests p f) Q d.
Proof.
  intros Hp Hwf HQ1 HQ2 HQ3 HQ4.
  apply (wp_UPDATE_point Requests p f id); [done|apply Hwf|done|by intros k r _|done..].
Qed.

Lemma wf_set_requests d f id r :
  wf d → lifecycle_requests d !! id = Some r → lr_ID (rq (f r)) = lr_ID (rq r) →
  wf (set_lifecycle_requests (<[id := f r]> (lifecycle_requests d)) d).
Proof.
  intros [] Hr Hf. split; try done. simpl. apply map_Forall_insert_2; [|done].
  simpl. rewrite Hf. by apply (wf_requests id r).
Qed.
