(* ===== verification/StoreInstances.v ===== *)
(** * Instance records

    Models the instance half of src/internal/store/sqlite.go: creation, update,
    compare-and-set of runtime fields, lookup, listing, deletion, the retention
    clock, and the event and audit logs. *)
From S2P Require Import Prelude GoStrings Timestamps Model Sql StoreDB StoreRequests.

#[local] Open Scope Z_scope.

Definition normalizeInstanceMemory {T} (i : InstanceOf T) : InstanceOf T :=
  let i := set_MemoryMode (NormalizeMemoryMode (MemoryMode i)) i in
  if negb (String.eqb (MemoryMode i) MemoryModePool) then set_MemoryPoolID "" i else i.

(** The columns INSERT and UPDATE write for a Go struct. *)
Definition columns (now : time) (i : Instance) : InstanceOf string :=
  mkInstance (ID i) (Name i) (KindName i) (Image i) (State i) (timeString now (CreatedAt i))
    (CreatedByUser i) (CreatedByNode i) (VCPUCount i) (MemoryMiB i) (MemoryMode i)
    (MemoryPoolID i) (RootFSSizeBytes i) (RootFSPath i) (KernelPath i) (InitrdPath i)
    (SocketPath i) (LogPath i) (SerialLogPath i) (TapDevice i) (GuestMAC i) (NetworkCIDR i)
    (HostAddr i) (GuestAddr i) (GatewayAddr i) (FirecrackerPID i) (StartRequestID i)
    (StartBootID i) (TailnetNodeID i) (TailscaleName i) (TailscaleIP i) (LastError i)
    (nullableTime now (DeletedAt i)) (timeString now (UpdatedAt i)).

(** [UPDATE instances SET ...]: every column but the identity ones. *)
Definition assign_columns (new old : InstanceOf string) : InstanceOf string :=
  mkInstance (ID old) (Name old) (Kind new) (Image new) (State new) (CreatedAt old)
    (CreatedByUser old) (CreatedByNode old) (VCPUCount new) (MemoryMiB new) (MemoryMode new)
    (MemoryPoolID new) (RootFSSizeBytes new) (RootFSPath new) (KernelPath new)
    (InitrdPath new) (SocketPath new) (LogPath new) (SerialLogPath new) (TapDevice new)
    (GuestMAC new) (NetworkCIDR new) (HostAddr new) (GuestAddr new) (GatewayAddr new)
    (FirecrackerPID new) (StartRequestID new) (StartBootID new) (TailnetNodeID new)
    (TailscaleName new) (TailscaleIP new) (LastError new) (DeletedAt new) (UpdatedAt new).

(** [scanInstance]. *)
Definition scanInstance (i : InstanceOf string) : result Instance :=
  created ← parseTime (CreatedAt i);
  updated ← parseTime (UpdatedAt i);
  deleted ← match DeletedAt i with
            | None => mret None
            | Some v => t ← parseTime v; mret (Some t)
            end;
  mret (normalizeInstanceMemory
    (mkInstance (ID i) (Name i) (Kind i) (Image i) (State i) created
      (CreatedByUser i) (CreatedByNode i) (VCPUCount i) (MemoryMiB i) (MemoryMode i)
      (MemoryPoolID i) (RootFSSizeBytes i) (RootFSPath i) (KernelPath i) (InitrdPath i)
      (SocketPath i) (LogPath i) (SerialLogPath i) (TapDevice i) (GuestMAC i)
      (NetworkCIDR i) (HostAddr i) (GuestAddr i) (GatewayAddr i) (FirecrackerPID i)
      (StartRequestID i) (StartBootID i) (TailnetNodeID i) (TailscaleName i)
      (TailscaleIP i) (LastError i) deleted updated)).

(** ** Operations *)

Definition CreateInstance (now : time) (inst : Instance) : M DB unit :=
  let inst := normalizeInstanceMemory inst in
  tx (INSERT Instances (stopped_insert (columns now inst));;
      if String.eqb (KindName inst) KindOrb then
        _ ← INSERT_OR_NOTHING OrbBootstrap
              (mkBootstrapRow (ID inst) (timeString now (CreatedAt inst)) 0);
        mret tt
      else mret tt).

Definition named (name : string) (r : instance_row) : bool := String.eqb (row_Name r) name.

Definition UpdateInstance (now : time) (inst : Instance) : M DB unit :=
  let inst := normalizeInstanceMemory inst in
  _ ← UPDATE_instances (named (Name inst)) (assign_columns (columns now inst));
  mret tt.

Definition assign_runtime (now : time) (u : Instance) (i : InstanceOf string)
  : InstanceOf string :=
  set_State (State u) (set_TailscaleName (TailscaleName u)
    (set_TailscaleIP (TailscaleIP u) (set_LastError (LastError u)
      (set_UpdatedAt (timeString now (UpdatedAt u))
        (set_TailnetNodeID (TailnetNodeID u) (set_FirecrackerPID (FirecrackerPID u) i)))))).

(** The WHERE clause: the row is still the one that was observed. *)
Definition still_observed (now : time) (o : Instance) (r : instance_row) : bool :=
  let i := in_cols r in
  String.eqb (ID i) (ID o) && String.eqb (Name i) (Name o) && String.eqb (State i) (State o) &&
  (FirecrackerPID i =? FirecrackerPID o) &&
  String.eqb (UpdatedAt i) (timeString now (UpdatedAt o)) &&
  String.eqb (TailscaleName i) (TailscaleName o) && String.eqb (TailscaleIP i) (TailscaleIP o) &&
  String.eqb (StartRequestID i) (StartRequestID o) && is_nil (DeletedAt i).

Definition UpdateInstanceRuntime (now : time) (observed updated : Instance) : M DB unit :=
  n ← UPDATE_instances (still_observed now observed) (assign_runtime now updated);
  require (n =? 1) (Errorf "instance changed during readiness verification; retry").

Definition GetInstance (name : string) : M DB Instance :=
  r ← SELECT Instances (named name); lift (scanInstance (in_cols r)).

Definition FindInstance (name : string) : M DB (option Instance) :=
  r ← try (GetInstance name);
  match r with
  | inl inst => mret (Some inst)
  | inr ErrNoRows => mret None
  | inr e => throw e
  end.

Definition DELETE_events (instanceID : string) : M DB unit :=
  env (λ d, (inl tt,
    set_instance_events
      (filter (λ e, ev_InstanceID e ≠ instanceID) (instance_events d)) d)).

Definition DeleteInstance (name : string) : M DB unit :=
  found ← FindInstance name;
  match found with
  | None => mret tt
  | Some inst =>
      tx (_ ← DELETE InstanceIntegrations (λ b, String.eqb (ib_InstanceID b) (ID inst));
          DELETE_events (ID inst);;
          _ ← DELETE Migrations (λ m, String.eqb (mg_InstanceID m) (ID inst));
          _ ← DELETE ImportReceipts (λ r, String.eqb (ir_InstanceID r) (ID inst));
          _ ← DELETE Instances (named name);
          mret tt)
  end.

(** [ORDER BY created_at ASC]: SQLite compares the texts byte by byte; the order
    of equal keys is left to the table scan. *)
Definition text_le (a b : string) : Prop := String.leb a b = true.
#[export] Instance text_le_dec : RelDecision text_le.
Proof. intros a b. apply bool_eq_dec. Defined.

Definition created_le {A} (created : A → string) (a b : A) : Prop :=
  text_le (created a) (created b).
#[export] Instance created_le_dec {A} (created : A → string) : RelDecision (created_le created).
Proof. intros a b. apply text_le_dec. Defined.

Definition row_created (r : instance_row) : string := CreatedAt (in_cols r).

Fixpoint scan_all {A B} (scan : A → result B) (l : list A) : result (list B) :=
  match l with
  | [] => mret []
  | a :: l' => b ← scan a; bs ← scan_all scan l'; mret (b :: bs)
  end.

Definition ListInstances (includeDeleted : bool) : M DB (list Instance) :=
  rows ← SELECT_ALL Instances
           (λ r, includeDeleted || negb (String.eqb (row_State r) StateDeleted));
  lift (scan_all (λ r, scanInstance (in_cols r)) (merge_sort (created_le row_created) rows)).

(** [StoppedSince]: zero unless this incarnation is still stopped. *)
Definition StoppedSince (id : string) : M DB time :=
  r ← try (SELECT Instances
             (λ r, String.eqb (row_ID r) id && String.eqb (row_State r) StateStopped &&
                   (FirecrackerPID (in_cols r) =? 0) && is_nil (DeletedAt (in_cols r))));
  match r with
  | inr ErrNoRows => mret 0
  | inr e => throw e
  | inl r => match in_stopped_since r with
             | None => mret 0
             | Some v => lift (parseTime v)
             end
  end.

(** ** The event log and the audit logs *)

Definition stored_event (now : time) (id : Z) (e : InstanceEventOf time)
  : InstanceEventOf string :=
  mkInstanceEvent id (ev_InstanceID e) (timeString now (ev_CreatedAt e)) (ev_Type e)
    (ev_Message e) (ev_Payload e).

(** id INTEGER PRIMARY KEY AUTOINCREMENT. *)
Definition RecordEvent (now : time) (e : InstanceEventOf time) : M DB unit :=
  env (λ d, let id := last_event_id d + 1 in
    (inl tt, set_last_event_id id
      (set_instance_events (instance_events d ++ [stored_event now id e])%list d))).

Definition scan_event (e : InstanceEventOf string) : result (InstanceEventOf time) :=
  created ← parseTime (ev_CreatedAt e);
  mret (mkInstanceEvent (ev_ID e) (ev_InstanceID e) created (ev_Type e) (ev_Message e)
          (ev_Payload e)).

Definition ListEvents (instanceID : string) (limit : Z) : M DB (list (InstanceEventOf time)) :=
  let limit := if limit <=? 0 then 20 else limit in
  rows ← query (λ d, inl (filter (λ e, ev_InstanceID e = instanceID) (instance_events d)));
  lift (scan_all scan_event
    (take (Z.to_nat limit) (merge_sort (flip (created_le ev_CreatedAt)) rows))).

Definition stored_command (now : time) (a : CommandAuditOf time) : CommandAuditOf string :=
  let '(mkCommandAudit t a1 a2 a3 a4 a5 a6 a7 a8 a9 a10 a11) := a in
  mkCommandAudit (timeString now t) a1 a2 a3 a4 a5 a6 a7 a8 a9 a10 a11.

Definition RecordCommand (now : time) (a : CommandAuditOf time) : M DB unit :=
  env (λ d, (inl tt, set_commands (commands d ++ [stored_command now a])%list d)).

Definition stored_decision (now : time) (a : AuthzDecisionOf time) : AuthzDecisionOf string :=
  let '(mkAuthzDecision t a1 a2 a3 a4 a5 a6) := a in
  mkAuthzDecision (timeString now t) a1 a2 a3 a4 a5 a6.

Definition RecordAuthz (now : time) (a : AuthzDecisionOf time) : M DB unit :=
  env (λ d, (inl tt, set_authz_decisions (authz_decisions d ++ [stored_decision now a])%list d)).
