(* ===== verification/Network.v ===== *)
(** * The networks of the instances

    Models the choice of a network ([allocateNetwork] of src/internal/provision/provision.go)
    and the privileged helper of src/internal/nethelper: setting a network up, cleaning it
    up, and the final deletion of the network of an incarnation with its record on disk and
    the proof of absence from what the tools of the host print.
    The tools ([ip], [iptables], [nft]) are a parameter: commands that change the state of the
    kernel, and their output. *)
From S2P Require Import Prelude GoStrings Timestamps Model Sql StoreDB StoreInstances.
From stdpp Require Import pretty.

#[local] Open Scope Z_scope.

(** ** IPv4 addresses and prefixes *)

Definition is_decimal (c : ascii) : bool := let n := byte_value c in (48 <=? n) && (n <=? 57).
Definition leading_zero (s : string) : bool :=
  match s with String "0" (String _ _) => true | _ => false end.

Definition parse_octet (s : string) : option Z :=
  if negb (nonempty s) || (3 <? String.length s)%nat || leading_zero s then None else
  n ← decimal 0 s; if n <=? 255 then Some n else None.

(** [netip.ParseAddr] of an IPv4 address. *)
Definition ParseIPv4 (s : string) : option Z :=
  match Split s "." with
  | [a; b; c; d] =>
      a ← parse_octet a; b ← parse_octet b; c ← parse_octet c; d ← parse_octet d;
      Some (((a * 256 + b) * 256 + c) * 256 + d)
  | _ => None
  end.

(** [uint32ToIP(v).String()]. *)
Definition octets (ip : Z) : list Z := [(ip / 2 ^ 24) `mod` 256; (ip / 2 ^ 16) `mod` 256; (ip / 2 ^ 8) `mod` 256; ip `mod` 256].
Definition IP_String (ip : Z) : string := GoStrings.Join (map pretty (octets ip)) ".".

(** [net.ParseCIDR] of an IPv4 prefix: the address as it is given, and the length. *)
Definition ParseCIDR (s : string) : option (Z * Z) :=
  match Cut s "/" with
  | (addr, mask, true) =>
      ip ← ParseIPv4 addr;
      if negb (nonempty mask) then None else
      ones ← decimal 0 mask; if ones <=? 32 then Some (ip, ones) else None
  | _ => None
  end.

(** [netip.ParsePrefix] of an IPv4 prefix: no leading zeros in the length. *)
Definition ParsePrefix (s : string) : option (Z * Z) :=
  if leading_zero (Cut s "/").1.2 then None else ParseCIDR s.

(** Modulo 2^32. *)
Definition uint32 (z : Z) : Z := z `mod` 2 ^ 32.

(** ** The choice of a network *)

(** [(&net.IPNet{IP: ip, Mask: net.CIDRMask(30, 32)}).String()]. *)
Definition subnet_String (ip : Z) : string := (IP_String ip +:+ "/30")%stdpp.

(** The first block of four addresses that is not in use, among [n] from [offset] on. *)
Fixpoint free_block (n : nat) (base offset : Z) (used : list string) : option Z :=
  match n with
  | O => None
  | S n =>
      if bool_decide (subnet_String (uint32 (base + offset)) ∈ used) then free_block n base (offset + 4) used
      else Some offset
  end.

(** Network, address of the host, address of the guest, gateway. *)
Definition allocateNetwork (VMNetworkCIDR : string) : M DB (string * string * string * string) :=
  instances ← ListInstances false;
  let used := filter (λ n, n ≠ "") (map NetworkCIDR instances) in
  match ParseCIDR VMNetworkCIDR with
  | None => throw (Errorf "parse vm network cidr")
  | Some (base, ones) =>
      if 30 <? ones then throw (Errorf "vm network cidr must be an IPv4 prefix with room for /30 allocations") else
      let size := uint32 (2 ^ (32 - ones)) in
      match free_block (Z.to_nat (size / 4)) base 0 used with
      | None => throw (Errorf "no free /30 network blocks remain")
      | Some offset =>
          let host := IP_String (uint32 (base + offset + 1)) in
          let guest := IP_String (uint32 (base + offset + 2)) in
          mret (subnet_String (uint32 (base + offset)), (host +:+ "/30")%stdpp, (guest +:+ "/30")%stdpp, host)
      end
  end.

(** [Create] under its lock: a network is chosen, and the record of [inst] written with it. *)
Definition with_network (inst : Instance) (c : string * string * string * string) : Instance :=
  let '(network, host, guest, gateway) := c in
  mkInstance (ID inst) (Name inst) (Kind inst) (Image inst) (State inst) (CreatedAt inst) (CreatedByUser inst)
    (CreatedByNode inst) (VCPUCount inst) (MemoryMiB inst) (MemoryMode inst) (MemoryPoolID inst) (RootFSSizeBytes inst)
    (RootFSPath inst) (KernelPath inst) (InitrdPath inst) (SocketPath inst) (LogPath inst) (SerialLogPath inst)
    (TapDevice inst) (GuestMAC inst) network host guest gateway (FirecrackerPID inst) (StartRequestID inst)
    (StartBootID inst) (TailnetNodeID inst) (TailscaleName inst) (TailscaleIP inst) (LastError inst) (DeletedAt inst)
    (UpdatedAt inst).
Definition create_with_network (cidr : string) (now : time) (inst : Instance) : M DB Instance :=
  network ← allocateNetwork cidr;
  CreateInstance now (with_network inst network);;
  mret (with_network inst network).

(** ** Requests *)

Record SetupRequest := mkSetupRequest {
  sr_InstanceID : string; sr_TapDevice : string; sr_HostAddr : string; sr_NetworkCIDR : string; sr_OutboundInterface : string;
}.
Record NetCleanup := mkNetCleanup {
  nc_InstanceID : string; nc_TapDevice : string; nc_NetworkCIDR : string; nc_OutboundInterface : string;
}.
Record FinalizeRequest := mkFinalizeRequest { fq_cleanup : NetCleanup; fq_RequestID : string }.
Record networkDeletion := mkNetworkDeletion { nd_request : FinalizeRequest; nd_Done : bool }.

#[export] Instance NetCleanup_eq_dec : EqDecision NetCleanup.
Proof. solve_decision. Defined.
#[export] Instance FinalizeRequest_eq_dec : EqDecision FinalizeRequest.
Proof. solve_decision. Defined.

Definition fq_id (q : FinalizeRequest) : string := nc_InstanceID (fq_cleanup q).
Definition set_outbound (v : string) (q : FinalizeRequest) : FinalizeRequest :=
  mkFinalizeRequest (mkNetCleanup (nc_InstanceID (fq_cleanup q)) (nc_TapDevice (fq_cleanup q)) (nc_NetworkCIDR (fq_cleanup q)) v)
    (fq_RequestID q).

(** [^[a-zA-Z0-9_.:-]{1,15}$] *)
Definition is_iface_char (c : ascii) : bool :=
  let n := byte_value c in
  is_decimal c || ((65 <=? n) && (n <=? 90)) || ((97 <=? n) && (n <=? 122)) ||
  Ascii.eqb c "_" || Ascii.eqb c "." || Ascii.eqb c ":" || Ascii.eqb c "-".
Definition validateInterfaceName (value : string) : result unit :=
  let value := TrimSpace value in
  if negb (nonempty value) then inr (Errorf "interface name is required") else
  if all_chars is_iface_char value && (String.length value <=? 15)%nat then inl tt else inr (Errorf "interface name is invalid").

Section requests.
(** [uuid.Parse], as its canonical text; [net.ParseCIDR] of an IPv6 prefix. *)
Context (uuid_Parse : string → option string) (ParseCIDR6 : string → bool).

Definition validateCIDR (value : string) : result unit :=
  let value := TrimSpace value in
  if negb (nonempty value) then inr (Errorf "cidr is required") else
  match ParseCIDR value with
  | Some _ => inl tt
  | None => if ParseCIDR6 value then inl tt else inr (Errorf "cidr is invalid")
  end.

Definition validate_setup (r : SetupRequest) : result unit :=
  validateInterfaceName (sr_TapDevice r);;
  validateCIDR (sr_HostAddr r);;
  validateCIDR (sr_NetworkCIDR r);;
  validateInterfaceName (sr_OutboundInterface r).
Definition validate_cleanup (r : NetCleanup) : result unit :=
  validateInterfaceName (nc_TapDevice r);;
  validateCIDR (nc_NetworkCIDR r);;
  if nonempty (TrimSpace (nc_OutboundInterface r)) then validateInterfaceName (nc_OutboundInterface r) else inl tt.

Definition uuid_Nil : string := "00000000-0000-0000-0000-000000000000".
(** A canonical, not the nil, identity. *)
Definition canonical_id (id : string) : bool := bool_decide (uuid_Parse id = Some id) && negb (String.eqb id uuid_Nil).
Definition validate_finalize (q : FinalizeRequest) : result unit :=
  validate_cleanup (fq_cleanup q);;
  if negb (canonical_id (fq_id q)) then inr (Errorf "canonical network identity required") else
  match uuid_Parse (fq_RequestID q) with Some _ => inl tt | None => inr (Errorf "invalid UUID") end.
End requests.

(** ** What the tools print *)

(** Around an address: neither the digits of another number nor of another address. *)
Definition address_char (c : ascii) : bool := is_decimal c || Ascii.eqb c ".".
Definition starts_address (prev : option ascii) : bool :=
  match prev with Some c => negb (address_char c) | None => true end.
Definition ends_address (rest : string) : bool :=
  match rest with
  | EmptyString => true
  | String c rest' =>
      negb (address_char c) ||
      (Ascii.eqb c "." && match rest' with EmptyString => true | String c' _ => negb (is_decimal c') end)
  end.
(** [ownedAddress.Match]. *)
Fixpoint mentions_address (addrs : list string) (prev : option ascii) (data : string) : bool :=
  (starts_address prev &&
   existsb (λ a, match CutPrefix data a with Some rest => ends_address rest | None => false end) addrs) ||
  match data with
  | EmptyString => false
  | String c data' => mentions_address addrs (Some c) data'
  end.

Definition is_token_char (c : ascii) : bool := is_iface_char c || Ascii.eqb c "/".
(** [strings.FieldsFunc]: [word] is the field before [data], reversed. *)
Fixpoint tokens (data word : string) : list string :=
  let flush := if nonempty word then [rev_string word] else [] in
  match data with
  | EmptyString => flush
  | String c data' => if is_token_char c then tokens data' (String c word) else (flush ++ tokens data' EmptyString)%list
  end.

(** The addresses of the block that holds [ip]. *)
Definition block_addresses (ip ones : Z) : list string :=
  let size := 2 ^ (32 - ones) in
  map (λ i, IP_String (ip - ip `mod` size + Z.of_nat i)) (seq 0 (Z.to_nat size)).

Definition proof_commands : list (string * list string) :=
  [("ip", ["-j"; "link"; "show"]); ("ip", ["-j"; "route"; "show"; "table"; "all"]); ("ip", ["-j"; "rule"; "show"]);
   ("iptables-save", []); ("ip6tables-save", []); ("nft", ["-j"; "list"; "ruleset"])].

(** The tools of the host: a command with its effect on the kernel, [iptables -C], the
    output of a command, and whether an output is a JSON array of objects or a ruleset. *)
Class NetTools (K : Type) := {
  nt_Run : string → list string → K → result unit * K;
  nt_RuleExists : string → string → list string → K → bool;
  nt_Output : string → list string → K → result string;
  nt_array : string → bool;
  nt_ruleset : string → bool;
}.

(** ** The state of the helper

    [nh_older]: what a power loss may bring back of the directory of deletions. *)
Record NetHost (K : Type) := mkNetHost {
  nh_kernel : K;
  nh_deletions : gmap string networkDeletion;
  nh_older : list (gmap string networkDeletion);
}.
Arguments mkNetHost {K} _ _ _.
Arguments nh_kernel {K} n.
Arguments nh_deletions {K} n.
Arguments nh_older {K} n.

Section helper.
Context {K : Type} `{NetTools K}.
Context (uuid_Parse : string → option string) (ParseCIDR6 : string → bool) (tapUser : string).

#[local] Abbreviation NetHost := (NetHost K).

Definition net_call : M NetHost unit := query (λ _, inl tt).
Definition run_tool (name : string) (args : list string) : M NetHost unit :=
  env (λ s, let '(r, k) := nt_Run name args (nh_kernel s) in (r, mkNetHost k (nh_deletions s) (nh_older s))).

Definition lockNetwork : M NetHost unit := net_call;; net_call;; net_call. (* ValidatePath, OpenFile, Flock *)

(** *** Deletions on disk *)

Definition checkDeletion (id : string) (required : bool) : M NetHost unit :=
  if String.eqb id "" && negb required then mret tt else
  require (canonical_id uuid_Parse id) (Errorf "canonical network identity required");;
  query (λ s, match nh_deletions s !! id with
              | Some _ => inr (Errorf "network incarnation has deletion intent")
              | None => inl tt
              end).

Definition sync_deletions : M NetHost unit := env (λ s, (inl tt, mkNetHost (nh_kernel s) (nh_deletions s) [])).
Definition rename_deletion (d : networkDeletion) : M NetHost unit :=
  env (λ s, (inl tt, mkNetHost (nh_kernel s) (<[fq_id (nd_request d) := d]> (nh_deletions s))
                       (nh_deletions s :: nh_older s))).
Definition writeDeletion (d : networkDeletion) : M NetHost unit :=
  net_call;; net_call;; net_call;; net_call;; (* CreateTemp, Encode, Sync, Close *)
  rename_deletion d;;
  sync_deletions.

(** *** Rules and devices *)

Definition ensureIPTablesRule (table chain : string) (rule : list string) : M NetHost unit :=
  r ← try (query (λ s, if nt_RuleExists table chain rule (nh_kernel s) then inl tt else inr (Errorf "exit status 1")));
  match r with
  | inl _ => mret tt
  | inr _ => run_tool "iptables" (["-t"; table; "-A"; chain] ++ rule)%list
  end.

Fixpoint ContainsStr (s sub : string) : bool :=
  HasPrefix s sub || match s with EmptyString => false | String _ s' => ContainsStr s' sub end.

Definition deleteIPTablesRule (table chain : string) (rule : list string) : M NetHost unit :=
  r ← try (run_tool "iptables" (["-t"; table; "-D"; chain] ++ rule)%list);
  match r with
  | inl _ => mret tt
  | inr e =>
      if ContainsStr (error_text e) "No chain/target/match" || ContainsStr (error_text e) "Bad rule" then mret tt
      else throw (Errorf ("iptables delete rule: " +:+ error_text e +:+ ": " +:+ error_text e)%stdpp)
  end.

Definition isMissingNetworkDeviceError (e : error) : bool :=
  let text := error_text e in
  ContainsStr text "Cannot find device" || ContainsStr text "No such device" || ContainsStr text "does not exist".

Definition masquerade (cidr outbound : string) : list string := ["-s"; cidr; "-o"; outbound; "-j"; "MASQUERADE"].
Definition forward_out (tap : string) : list string := ["-i"; tap; "-j"; "ACCEPT"].
Definition forward_back (tap : string) : list string :=
  ["-o"; tap; "-m"; "state"; "--state"; "RELATED,ESTABLISHED"; "-j"; "ACCEPT"].

Definition setupNetwork (req : SetupRequest) : M NetHost unit :=
  run_tool "ip" ["tuntap"; "add"; "dev"; sr_TapDevice req; "mode"; "tap"; "user"; tapUser];;
  run_tool "ip" ["addr"; "add"; sr_HostAddr req; "dev"; sr_TapDevice req];;
  run_tool "ip" ["link"; "set"; "dev"; sr_TapDevice req; "up"];;
  ensureIPTablesRule "nat" "POSTROUTING" (masquerade (sr_NetworkCIDR req) (sr_OutboundInterface req));;
  ensureIPTablesRule "filter" "FORWARD" (forward_out (sr_TapDevice req));;
  ensureIPTablesRule "filter" "FORWARD" (forward_back (sr_TapDevice req)).

(** [m], its error added to those before it unless it is one of [missing]. *)
Definition attempt (missing : error → bool) (m : M NetHost unit) (errs : list string) : M NetHost (list string) :=
  r ← try m;
  match r with
  | inl _ => mret errs
  | inr e => mret (if missing e then errs else (errs ++ [error_text e])%list)
  end.
Definition none_missing (e : error) : bool := false.

Definition cleanupNetwork (req : NetCleanup) : M NetHost unit :=
  errs ← (if nonempty (nc_OutboundInterface req)
          then attempt none_missing (deleteIPTablesRule "nat" "POSTROUTING"
                 (masquerade (nc_NetworkCIDR req) (nc_OutboundInterface req))) []
          else mret []);
  errs ← attempt none_missing (deleteIPTablesRule "filter" "FORWARD" (forward_out (nc_TapDevice req))) errs;
  errs ← attempt none_missing (deleteIPTablesRule "filter" "FORWARD" (forward_back (nc_TapDevice req))) errs;
  errs ← attempt isMissingNetworkDeviceError (run_tool "ip" ["link"; "set"; "dev"; nc_TapDevice req; "down"]) errs;
  errs ← attempt isMissingNetworkDeviceError (run_tool "ip" ["tuntap"; "del"; "dev"; nc_TapDevice req; "mode"; "tap"]) errs;
  require (bool_decide (errs = [])) (Errorf (GoStrings.Join errs "; ")).

(** *** The proof of absence *)

Definition read_tool (name : string) (args : list string) : M NetHost string :=
  query (λ s, nt_Output name args (nh_kernel s)).

Definition check_output (addrs : list string) (tap : string) (command : string * list string) : M NetHost unit :=
  data ← read_tool command.1 command.2;
  require (negb (String.eqb command.1 "ip") || nt_array data) (Errorf "invalid ip network proof array");;
  require (negb (String.eqb command.1 "nft") || nt_ruleset data) (Errorf "invalid nft network proof ruleset");;
  require (negb (mentions_address addrs None data)) (Errorf "network residual");;
  require (negb (existsb (String.eqb tap) (tokens data ""))) (Errorf "network residual").

Definition verifyNetworkAbsent (q : NetCleanup) : M NetHost unit :=
  match ParsePrefix (nc_NetworkCIDR q) with
  | None => throw (Errorf "invalid prefix")
  | Some (ip, ones) =>
      require (30 <=? ones) (Errorf "cleanup proof requires the native IPv4 /30-or-smaller allocation");;
      for_each (check_output (block_addresses ip ones) (nc_TapDevice q)) proof_commands
  end.

(** *** The final deletion of a network *)

(** The request with the interface of the first attempt, and whether that has ended. *)
Definition read_deletion (q : FinalizeRequest) : M NetHost (FinalizeRequest * bool) :=
  r ← try (query (λ s, match nh_deletions s !! fq_id q with Some d => inl d | None => inr ErrNotExist end));
  match r with
  | inl d =>
      lift (validate_finalize uuid_Parse ParseCIDR6 (nd_request d));;
      require (nonempty (nc_OutboundInterface (fq_cleanup (nd_request d))))
        (Errorf "stored network deletion has no outbound interface");;
      let q := set_outbound (nc_OutboundInterface (fq_cleanup (nd_request d))) q in
      require (bool_decide (nd_request d = q)) (Errorf "network deletion binding mismatch");;
      mret (q, nd_Done d)
  | inr ErrNotExist => mret (q, false)
  | inr e => throw e
  end.

Definition finalize (q : FinalizeRequest) : M NetHost unit :=
  lockNetwork;;
  start ← read_deletion q;
  let '(q, over) := start in
  if (over : bool) then sync_deletions else (* never clean again *)
  require (nonempty (nc_OutboundInterface (fq_cleanup q)))
    (Errorf "initial network finalization requires an outbound interface");;
  writeDeletion (mkNetworkDeletion q false);;
  cleanupNetwork (fq_cleanup q);;
  verifyNetworkAbsent (fq_cleanup q);;
  writeDeletion (mkNetworkDeletion q true).

(** *** Handlers; [v2]: the protocol that names the incarnation *)

Definition handleSetup (v2 : bool) (req : SetupRequest) : M NetHost unit :=
  lift (validate_setup ParseCIDR6 req);;
  lockNetwork;;
  checkDeletion (sr_InstanceID req) v2;;
  setupNetwork req.
Definition handleCleanup (v2 : bool) (req : NetCleanup) : M NetHost unit :=
  lift (validate_cleanup ParseCIDR6 req);;
  lockNetwork;;
  checkDeletion (nc_InstanceID req) v2;;
  cleanupNetwork req.
Definition handleFinalize (q : FinalizeRequest) : M NetHost unit :=
  lift (validate_finalize uuid_Parse ParseCIDR6 q);;
  finalize q.
Definition handleCleanupProof (q : NetCleanup) : M NetHost unit :=
  lift (validate_cleanup ParseCIDR6 q);;
  verifyNetworkAbsent q.

(** *** The client: the request may not arrive, its answer may be lost *)

Definition client_post (handler : M NetHost unit) : M NetHost unit := net_call;; handler;; net_call.

Definition SetupInstanceNetwork (req : SetupRequest) : M NetHost unit :=
  lift (validate_setup ParseCIDR6 req);;
  client_post (handleSetup (nonempty (sr_InstanceID req)) req).
Definition CleanupInstanceNetwork (req : NetCleanup) : M NetHost unit :=
  lift (validate_cleanup ParseCIDR6 req);;
  client_post (handleCleanup (nonempty (nc_InstanceID req)) req).
Definition FinalizeInstanceNetwork (q : FinalizeRequest) : M NetHost unit :=
  lift (validate_finalize uuid_Parse ParseCIDR6 q);;
  client_post (handleFinalize q).

(** ** Histories *)

(** The requests that name an incarnation, and the one they name. *)
Inductive net_request : string → M NetHost unit → Prop :=
  | nr_setup v2 req : net_request (sr_InstanceID req) (handleSetup v2 req)
  | nr_cleanup v2 req : net_request (nc_InstanceID req) (handleCleanup v2 req)
  | nr_finalize q : net_request (fq_id q) (handleFinalize q)
  | nr_proof q : net_request (nc_InstanceID q) (handleCleanupProof q).

(** A directory that was not synced may come back older, file by file. *)
Definition power_loss (s s' : NetHost) : Prop :=
  nh_older s' = [] ∧
  ∀ id, ∃ k, (k = nh_deletions s ∨ k ∈ nh_older s) ∧ nh_deletions s' !! id = k !! id.

Inductive net_step : NetHost → NetHost → Prop :=
  | ns_request id m fs s : net_request id m → net_step s (m fs s).1.2
  | ns_kernel k s : net_step s (mkNetHost k (nh_deletions s) (nh_older s))
  | ns_power s s' : power_loss s s' → net_step s s'.
End helper.
