(* ===== verification/StoreCleanup.v ===== *)
(** * Authoritative cleanup

    Models src/internal/store/cleanup.go: deletion of an instance runs under a
    fence owned by one request and ends by committing, in one transaction, the
    request's outcome, the tombstone and the receipt. *)
From S2P Require Import Prelude GoStrings Timestamps Model Sql StoreDB StoreRequests.

#[local] Open Scope Z_scope.

Definition RecordEnrollmentKey (instanceID keyID : string) : M DB unit :=
  if String.eqb instanceID "" || String.eqb keyID "" then
    throw (Errorf "enrollment identity required")
  else INSERT EnrollmentKeys (mkEnrollmentRow instanceID keyID).

Definition EnrollmentKey (instanceID : string) : M DB string :=
  r ← SELECT EnrollmentKeys (λ r, String.eqb (ek_instance_id r) instanceID);
  mret (ek_key_id r).

Definition fence_of (instanceID : string) (f : fence_row) : bool :=
  String.eqb (fc_instance_id f) instanceID.

Definition CheckCleanupFence (instanceID : string) : M DB unit :=
  fenced ← SELECT_EXISTS CleanupFences (fence_of instanceID);
  if (fenced : bool)
  then throw (Errorf "instance has unresolved authoritative cleanup; operator reconciliation required")
  else mret tt.

(** [cleanup_fences f JOIN lifecycle_requests r ON r.id = f.request_id]. *)
Definition CleanupRequest (instanceID : string) : M DB LifecycleRequest :=
  r ← query (λ d,
    f ← select_row (fence_of instanceID) (cleanup_fences d);
    select_row (λ r, String.eqb (lr_ID (rq r)) (fc_request_id f)) (lifecycle_requests d));
  GetLifecycleRequest (lr_ID (rq r)) (lr_Actor (rq r)).

Definition str_in (s : string) (l : list string) : bool := existsb (String.eqb s) l.

Definition delete_commands : list string := ["delete"; "delete-proof"].

Definition live_states : list string :=
  ["ready"; "stopped"; "failed"; "provisioning"; "awaiting-tailnet"; "awaiting-guest"; "stopping"].

(** [created_at=? AND created_by_user=? AND created_by_node=?]: the incarnation
    the caller observed, not merely its name. *)
Definition same_incarnation (id name : string) (created_at user node : string)
    (i : InstanceOf string) : bool :=
  String.eqb (ID i) id && String.eqb (Name i) name && String.eqb (CreatedAt i) created_at &&
  String.eqb (CreatedByUser i) user && String.eqb (CreatedByNode i) node.

(** The second half of [BeginCleanup]: the request executes, the instance is
    deleting, and a fresh deletion takes the fence. *)
Definition begin_cleanup_updates (now : time) (resume : bool) (requestID actor : string)
    (inst : Instance) (states : list string) : M DB unit :=
  let phases := if resume then ["executing"; "interrupted"]
                else ["admitted"; "failed"; "cancelled"] in
  n ← UPDATE Requests
        (λ r, owned requestID actor r && str_in (lr_Command (rq r)) delete_commands &&
              String.eqb (lr_Name (rq r)) (Name inst) && str_in (lr_Phase (rq r)) phases)
        (with_phase "executing" 0);
  require (n =? 1) (Errorf "cleanup request cannot begin or resume");;
  n ← UPDATE_instances
        (λ r, let i := in_cols r in
              same_incarnation (ID inst) (Name inst) (timeString now (CreatedAt inst))
                (CreatedByUser inst) (CreatedByNode inst) i &&
              String.eqb (TailnetNodeID i) (TailnetNodeID inst) && str_in (State i) states)
        (λ i, set_State StateDeleting (set_UpdatedAt (timeString now now) i));
  require (n =? 1) (Errorf "cleanup incarnation changed");;
  if resume then mret tt else INSERT CleanupFences (mkFenceRow (ID inst) requestID).

(** An ordinary deletion may not bypass a fence that was lost. *)
Definition unresolved_check (command : string) (resume : bool) (name : string) : M DB unit :=
  if String.eqb command "delete" && negb resume then
    unresolved ← SELECT_EXISTS Requests
      (λ r, String.eqb (lr_Name (rq r)) name &&
            str_in (lr_Command (rq r)) delete_commands &&
            str_in (lr_Phase (rq r)) ["executing"; "interrupted"]);
    require (negb unresolved)
      (Errorf "cleanup owner fence is missing; operator reconciliation required")
  else mret tt.

Definition BeginCleanup (now : time) (requestID actor : string) (inst : Instance) : M DB unit :=
  tx (owner ← try (SELECT CleanupFences (fence_of (ID inst)));
      match owner with
      | inr e => if decide (e = ErrNoRows) then mret tt else throw e
      | inl f => require (String.eqb (fc_request_id f) requestID)
                   (Errorf "cleanup fence belongs to another request")
      end;;
      let resume := match owner with inl _ => true | inr _ => false end in
      r ← SELECT Requests (owned requestID actor);
      let command := lr_Command (rq r) in
      unresolved_check command resume (Name inst);;
      let states := if resume then ["deleting"]
                    else if String.eqb command "delete" then (live_states ++ ["deleting"])%list
                    else live_states in
      begin_cleanup_updates now resume requestID actor inst states).

(** The proof [CommitCleanup] insists on before it touches the database. *)
Definition complete_proof (r : CleanupReceipt) : bool :=
  ValidCopyScope r && cr_GatewaysAbsent r &&
  (String.eqb (cr_Kind r) KindOrb || String.eqb (cr_Kind r) KindVM) &&
  nonempty (cr_BackendID r) && nonempty (cr_Image r) && nonempty (cr_RequestID r) &&
  nonempty (cr_Actor r) && nonempty (cr_InstanceID r) && nonempty (cr_Name r) &&
  negb (IsZero (cr_CreatedAt r)) && nonempty (cr_CreatedByUser r) &&
  nonempty (cr_CreatedByNode r) && negb (IsZero (cr_DeletedAt r)) && cr_IngressClosed r &&
  cr_RuntimeAbsent r && cr_JailerAbsent r && cr_CgroupAbsent r && cr_NetworkAbsent r &&
  cr_StorageAbsent r && nonempty (cr_RootFSPath r) && nonempty (cr_InstanceDir r) &&
  nonempty (cr_BackupsDir r) && nonempty (cr_TapDevice r) && nonempty (cr_NetworkCIDR r).

Definition orb_key_proven (r : CleanupReceipt) : bool :=
  negb (String.eqb (cr_Kind r) KindOrb) ||
  (String.eqb (cr_AuthKeyDisposition r) "never-minted" && negb (nonempty (cr_TailnetNodeID r))).

Definition vm_key_disposed (r : CleanupReceipt) : bool :=
  negb (String.eqb (cr_Kind r) KindVM) ||
  ((cr_Version r =? 5) && String.eqb (cr_AuthKeyDisposition r) "not-asserted").

Definition tailnet_disposed (r : CleanupReceipt) : bool :=
  negb (cr_Version r =? 5) ||
  (negb (nonempty (cr_TailnetNodeID r)) && String.eqb (cr_TailnetDisposition r) "absent") ||
  (nonempty (cr_TailnetNodeID r) &&
     (String.eqb (cr_TailnetDisposition r) "removed" ||
      String.eqb (cr_TailnetDisposition r) "retained")).

Definition tombstone (now : time) (r : CleanupReceipt) (i : InstanceOf string)
  : InstanceOf string :=
  set_State StateDeleted (set_UpdatedAt (timeString now (cr_DeletedAt r))
    (set_DeletedAt (Some (timeString now (cr_DeletedAt r))) (set_FirecrackerPID 0
      (set_LastError "" (set_TailscaleName "" (set_TailscaleIP ""
        (set_TailnetNodeID "" i))))))).

(** [COALESCE(NULLIF(image,''),'arch')]. *)
Definition image_or_arch (i : InstanceOf string) : string :=
  if String.eqb (Image i) "" then "arch" else Image i.

Definition cleanup_target (now : time) (r : CleanupReceipt) (keys : gmap string enrollment_row)
    (row : instance_row) : bool :=
  let i := in_cols row in
  same_incarnation (cr_InstanceID r) (cr_Name r) (timeString now (cr_CreatedAt r))
    (cr_CreatedByUser r) (cr_CreatedByNode r) i &&
  String.eqb (Kind i) (cr_Kind r) && String.eqb (image_or_arch i) (cr_Image r) &&
  String.eqb (TailnetNodeID i) (cr_TailnetNodeID r) && String.eqb (RootFSPath i) (cr_RootFSPath r) &&
  String.eqb (TapDevice i) (cr_TapDevice r) && String.eqb (NetworkCIDR i) (cr_NetworkCIDR r) &&
  String.eqb (State i) StateDeleting &&
  (String.eqb (Kind i) KindVM ||
   negb (exists_where (λ k, String.eqb (ek_instance_id k) (cr_InstanceID r)) keys)).

Definition finishing_request (r : CleanupReceipt) (q : request_row) : bool :=
  owned (cr_RequestID r) (cr_Actor r) q && str_in (lr_Command (rq q)) delete_commands &&
  String.eqb (lr_Name (rq q)) (cr_Name r) && in_phase "executing" q.

(** The transaction of [CommitCleanup]: request outcome, tombstone, receipt, fence. *)
Definition commit_cleanup_tx (now : time) (r : CleanupReceipt) : M DB unit :=
  tx (n ← UPDATE Requests (finishing_request r) (with_phase "done" 0);
      require (n =? 1) (Errorf "cleanup request no longer executing");;
      n ← subquery (λ d, UPDATE_instances (cleanup_target now r (enrollment_keys d))
                           (tombstone now r));
      require (n =? 1) (Errorf "cleanup identity changed");;
      INSERT CleanupReceipts (mkReceiptRow (cr_RequestID r) (cr_Actor r) r);;
      n ← DELETE CleanupFences
            (λ f, fence_of (cr_InstanceID r) f &&
                  String.eqb (fc_request_id f) (cr_RequestID r));
      require (n =? 1) (Errorf "cleanup fence changed")).

Definition CommitCleanup (now : time) (r : CleanupReceipt) : M DB unit :=
  if negb (complete_proof r) then throw (Errorf "incomplete cleanup proof")
  else if negb (orb_key_proven r) then throw (Errorf "auth key disposition not proven")
  else if negb (vm_key_disposed r)
  then throw (Errorf "VM cleanup requires its own identity disposition")
  else if negb (tailnet_disposed r) then throw (Errorf "incomplete tailnet disposition")
  else commit_cleanup_tx now r.

Definition GetCleanupReceipt (requestID actor : string) : M DB CleanupReceipt :=
  r ← SELECT CleanupReceipts
        (λ r, String.eqb (rc_request_id r) requestID && String.eqb (rc_actor r) actor);
  mret (rc_receipt r).

(** [json_extract(receipt, '$.instance_id') = ?]. *)
Definition CleanupReceiptForInstance (instanceID : string) : M DB CleanupReceipt :=
  r ← SELECT CleanupReceipts (λ r, String.eqb (cr_InstanceID (rc_receipt r)) instanceID);
  mret (rc_receipt r).
