(* ===== verification/StoreMigration.v ===== *)
(** * Migration and import journals

    Models src/internal/store/migration.go. *)
From S2P Require Import Prelude GoStrings Timestamps Model Sql StoreDB StoreRequests.

#[local] Open Scope Z_scope.

Definition GetMigration (instanceID : string) : M DB Migration :=
  SELECT Migrations (λ m, String.eqb (mg_InstanceID m) instanceID).

Definition PutMigration (m : Migration) : M DB unit := INSERT_OR_UPDATE Migrations m.

Definition GetImportReceipt (instanceID : string) : M DB ImportReceipt :=
  SELECT ImportReceipts (λ r, String.eqb (ir_InstanceID r) instanceID).

Definition PutImportReceipt (r : ImportReceipt) : M DB unit := INSERT_OR_UPDATE ImportReceipts r.

Definition id_is (id : string) (r : instance_row) : bool := String.eqb (row_ID r) id.

(** [INSERT ... SELECT ... WHERE NOT EXISTS ... ON CONFLICT DO UPDATE], one
    statement; returns [RowsAffected]. *)
Definition INSERT_unless_instance (r : ImportReceipt) : M DB Z :=
  env (λ d,
    if exists_where (id_is (ir_InstanceID r)) (instances d) then (inl 0, d)
    else (inl 1, insert_row ImportReceipts r d)).

Definition ReserveImportReceipt (r : ImportReceipt) : M DB unit :=
  n ← INSERT_unless_instance r;
  require (n =? 1) (Errorf "import instance ID already exists").

Definition imported (r : ImportReceipt) : ImportReceipt :=
  mkImportReceipt (ir_InstanceID r) (ir_Token r) (ir_SourceInstanceID r) (ir_ExportedAt r)
    "imported".

Definition finalized (now updatedAt : time) (i : InstanceOf string) : InstanceOf string :=
  set_State StateStopped (set_FirecrackerPID 0 (set_LastError ""
    (set_DeletedAt None (set_UpdatedAt (timeString now updatedAt) i)))).

(** Atomically releases the start fence of the destination and records the
    committed stopped instance. *)
Definition FinalizeImport (now : time) (instanceID : string) (updatedAt : time) : M DB unit :=
  tx (n ← UPDATE_instances
            (λ r, id_is instanceID r && String.eqb (row_State r) StateProvisioning)
            (finalized now updatedAt);
      require (n =? 1) (Errorf "import reservation missing");;
      n ← UPDATE ImportReceipts
            (λ r, String.eqb (ir_InstanceID r) instanceID && String.eqb (ir_Phase r) "importing")
            imported;
      require (n =? 1) (Errorf "import receipt missing")).
