(* ===== verification/StorePools.v ===== *)
(** * Memory pools and integrations

    Models the memory-pool and integration halves of
    src/internal/store/sqlite.go. *)
From S2P Require Import Prelude GoStrings Timestamps Model Sql StoreDB StoreRequests StoreInstances.

#[local] Open Scope Z_scope.

Definition MemoryPool : Type := MemoryPoolOf time.
Definition Integration : Type := IntegrationOf time.

Definition pool_columns (now : time) (p : MemoryPool) : MemoryPoolOf string :=
  mkMemoryPool (mp_ID p) (mp_Name p) (mp_ReservedBytes p) (timeString now (mp_CreatedAt p))
    (timeString now (mp_UpdatedAt p)) (mp_CreatedByUser p) (mp_CreatedByNode p).

Definition scanMemoryPool (p : MemoryPoolOf string) : result MemoryPool :=
  created ← parseTime (mp_CreatedAt p);
  updated ← parseTime (mp_UpdatedAt p);
  mret (mkMemoryPool (mp_ID p) (mp_Name p) (mp_ReservedBytes p) created updated
          (mp_CreatedByUser p) (mp_CreatedByNode p)).

Definition CreateMemoryPool (now : time) (p : MemoryPool) : M DB unit :=
  INSERT MemoryPools (pool_columns now p).

Definition GetMemoryPoolByName (name : string) : M DB MemoryPool :=
  p ← SELECT MemoryPools (λ p, String.eqb (mp_Name p) name); lift (scanMemoryPool p).

Definition FindMemoryPoolByName (name : string) : M DB (option MemoryPool) :=
  r ← try (GetMemoryPoolByName name);
  match r with
  | inl p => mret (Some p)
  | inr ErrNoRows => mret None
  | inr e => throw e
  end.

Definition GetMemoryPoolByID (id : string) : M DB MemoryPool :=
  p ← SELECT MemoryPools (λ p, String.eqb (mp_ID p) id); lift (scanMemoryPool p).

Definition ListMemoryPools : M DB (list MemoryPool) :=
  rows ← SELECT_ALL MemoryPools (λ _, true);
  lift (scan_all scanMemoryPool (merge_sort (created_le mp_CreatedAt) rows)).

Definition CountMemoryPoolMembers (poolID : string) : M DB Z :=
  SELECT_COUNT Instances
    (λ r, String.eqb (MemoryPoolID (in_cols r)) poolID &&
          negb (String.eqb (row_State r) StateDeleted)).

Record MemoryPoolResize := mkMemoryPoolResize {
  RequestID : string;
  SizeBytes : Z;
  Running : bool;
}.

(** The zero value stands for no pending resize. *)
Definition PendingMemoryPoolResize (poolID : string) : M DB MemoryPoolResize :=
  r ← try (SELECT MemoryPoolResizes (λ r, String.eqb (rz_pool_id r) poolID));
  match r with
  | inl r => mret (mkMemoryPoolResize (rz_request_id r) (rz_size_bytes r) (rz_running r))
  | inr ErrNoRows => mret (mkMemoryPoolResize "" 0 false)
  | inr e => throw e
  end.

Definition CheckMemoryPoolResize (poolID : string) : M DB unit :=
  op ← PendingMemoryPoolResize poolID;
  require (negb (nonempty (RequestID op)))
    (Errorf "memory pool resize pending; retry pool resize with --size").

Definition reserve (now : time) (pool : MemoryPool) (p : MemoryPoolOf string)
  : MemoryPoolOf string :=
  mkMemoryPool (mp_ID p) (mp_Name p) (mp_ReservedBytes pool) (mp_CreatedAt p)
    (timeString now (mp_UpdatedAt pool)) (mp_CreatedByUser p) (mp_CreatedByNode p).

Definition BeginMemoryPoolResize (now : time) (pool : MemoryPool) (op : MemoryPoolResize)
  : M DB unit :=
  tx (INSERT MemoryPoolResizes (mkResizeRow (mp_ID pool) (RequestID op) (SizeBytes op) (Running op));;
      _ ← UPDATE MemoryPools (λ p, String.eqb (mp_ID p) (mp_ID pool)) (reserve now pool);
      mret tt).

Definition FinishMemoryPoolResize (now : time) (pool : MemoryPool) (requestID : string)
  : M DB unit :=
  tx (_ ← DELETE MemoryPoolResizes
            (λ r, String.eqb (rz_pool_id r) (mp_ID pool) && String.eqb (rz_request_id r) requestID);
      _ ← UPDATE MemoryPools (λ p, String.eqb (mp_ID p) (mp_ID pool)) (reserve now pool);
      mret tt).

Definition DeleteMemoryPool (id : string) : M DB unit :=
  _ ← DELETE MemoryPools (λ p, String.eqb (mp_ID p) id); mret tt.

(** ** Integrations *)

Definition integration_columns (now : time) (i : Integration) : IntegrationOf string :=
  mkIntegration (ig_ID i) (ig_Name i) (ig_Kind i) (ig_TargetURL i) (ig_AuthMode i)
    (ig_BearerEnv i) (ig_BasicUser i) (ig_BasicPasswordEnv i) (ig_HeadersJSON i)
    (timeString now (ig_CreatedAt i)) (timeString now (ig_UpdatedAt i)).

Definition scanIntegration (i : IntegrationOf string) : result Integration :=
  created ← parseTime (ig_CreatedAt i);
  updated ← parseTime (ig_UpdatedAt i);
  mret (mkIntegration (ig_ID i) (ig_Name i) (ig_Kind i) (ig_TargetURL i) (ig_AuthMode i)
          (ig_BearerEnv i) (ig_BasicUser i) (ig_BasicPasswordEnv i) (ig_HeadersJSON i)
          created updated).

Definition CreateIntegration (now : time) (i : Integration) : M DB unit :=
  INSERT Integrations (integration_columns now i).

Definition GetIntegrationByName (name : string) : M DB Integration :=
  i ← SELECT Integrations (λ i, String.eqb (ig_Name i) name); lift (scanIntegration i).

Definition ListIntegrations : M DB (list Integration) :=
  rows ← SELECT_ALL Integrations (λ _, true);
  lift (scan_all scanIntegration (merge_sort (created_le ig_Name) rows)).

Definition DeleteIntegration (name : string) : M DB unit :=
  _ ← DELETE Integrations (λ i, String.eqb (ig_Name i) name); mret tt.

Definition CountIntegrationBindings (integrationID : string) : M DB Z :=
  SELECT_COUNT InstanceIntegrations (λ b, String.eqb (ib_IntegrationID b) integrationID).

Definition binding_columns (now : time) (b : BindingOf time) : BindingOf string :=
  mkBinding (ib_InstanceID b) (ib_IntegrationID b) (timeString now (ib_CreatedAt b))
    (ib_CreatedByUser b) (ib_CreatedByNode b).

(** [INSERT OR IGNORE]. *)
Definition BindIntegrationToInstance (now : time) (b : BindingOf time) : M DB unit :=
  _ ← INSERT_OR_NOTHING InstanceIntegrations (binding_columns now b); mret tt.

Definition UnbindIntegrationFromInstance (instanceID integrationID : string) : M DB unit :=
  _ ← DELETE InstanceIntegrations
        (λ b, String.eqb (ib_InstanceID b) instanceID &&
              String.eqb (ib_IntegrationID b) integrationID);
  mret tt.

(** [integrations i JOIN instance_integrations ii ON ii.integration_id = i.id]. *)
Definition ListInstanceIntegrations (instanceID : string) : M DB (list Integration) :=
  rows ← subquery (λ d, SELECT_ALL Integrations
    (λ i, exists_where
       (λ b, String.eqb (ib_IntegrationID b) (ig_ID i) &&
             String.eqb (ib_InstanceID b) instanceID) (instance_integrations d)));
  lift (scan_all scanIntegration (merge_sort (created_le ig_Name) rows)).
