(* ===== verification/StoreDemo.v ===== *)
(** * Sample data for the concrete runs of the store *)
From S2P Require Import Prelude GoStrings Timestamps Model Sql StoreDB StoreRequests StoreInstances.
From S2P Require Import StoreCleanup StoreMigration StorePools.

#[local] Open Scope Z_scope.

Definition t0 : time := 63900000000 * ns_per_sec.

Definition demo_request (cmd : string) : LifecycleRequest :=
  mkLifecycleRequest "req-1" "alice@example.com" cmd "demo" "[]" "" 0.

Definition demo_instance : Instance :=
  mkInstance "id-1" "demo" "vm" "" StateReady t0 "alice@example.com" "laptop" 2 1024 "POOL "
    "pool-1" 0 "/srv/rootfs.img" "/srv/vmlinux" "" "/run/fc.sock" "/log" "/serial" "tap0" "mac"
    "172.28.0.0/30" "172.28.0.1" "172.28.0.2" "172.28.0.1" 41 "start-1" "boot-1" "" "" "" ""
    None t0.

Definition demo_pool : MemoryPool :=
  mkMemoryPool "pool-1" "shared" 1073741824 t0 t0 "alice@example.com" "laptop".

Definition demo_import (phase : string) : ImportReceipt :=
  mkImportReceipt "id-1" "token-1" "id-1" "2026-01-01T00:00:00Z" phase.

(** A host with one instance. *)
Definition demo_db : DB := (run (CreateInstance t0 demo_instance) empty_DB).2.

(** ... whose deletion has been admitted ... *)
Definition admitted_db : DB :=
  (run (AdmitLifecycleRequest t0 (demo_request "delete")) demo_db).2.

(** ... and begun. *)
Definition deleting_db : DB :=
  (run (BeginCleanup t0 "req-1" "alice@example.com" demo_instance) admitted_db).2.

Definition demo_receipt : CleanupReceipt :=
  mkCleanupReceipt 5 "SHA256:backend" "vm" "arch" "req-1" "alice@example.com" "id-1" "demo" t0
    "alice@example.com" "laptop" "not-asserted" "" "absent" None true true true true true true
    "tap0" "172.28.0.0/30" "/srv/instances/demo" "/srv/rootfs.img" "/srv/backups/demo"
    true false false t0.

Lemma deleting_db_ok : (run (CommitCleanup t0 demo_receipt) deleting_db).1 = Ok tt.
Proof. vm_compute. reflexivity. Qed.
