(* ===== verification/StoreTrace.v ===== *)
(** * Every history of the database

    [store_op] lists the operations of [*store.Store]; [store_step] is one call of
    any of them, under any faults.  What every operation maintains holds of every
    later database: well-formedness, the request state machine, permanence of
    cleanup receipts and monotonicity of bootstrap generations. *)
From S2P Require Import Prelude GoStrings Timestamps Model Sql StoreDB StoreRequests StoreInstances.
From S2P Require Import StoreCleanup StoreMigration StorePools.
From stdpp Require Import relations.

#[local] Open Scope Z_scope.

Inductive store_op : ∀ A, M DB A → Prop :=
  | op_GetLifecycleRequest id a : store_op _ (GetLifecycleRequest id a)
  | op_AdmitLifecycleRequest n r : store_op _ (AdmitLifecycleRequest n r)
  | op_FinishLifecycleRequest id a c : store_op _ (FinishLifecycleRequest id a c)
  | op_RejectLifecycleStart id a : store_op _ (RejectLifecycleStart id a)
  | op_InterruptLifecycleRequests : store_op _ InterruptLifecycleRequests
  | op_BeginLifecycleRequest id a : store_op _ (BeginLifecycleRequest id a)
  | op_CancelLifecycleRequest n r : store_op _ (CancelLifecycleRequest n r)
  | op_BootstrapGeneration n i c : store_op _ (BootstrapGeneration n i c)
  | op_AdmitBootstrap n r i c g : store_op _ (AdmitBootstrap n r i c g)
  | op_CreateInstance n i : store_op _ (CreateInstance n i)
  | op_UpdateInstance n i : store_op _ (UpdateInstance n i)
  | op_UpdateInstanceRuntime n o u : store_op _ (UpdateInstanceRuntime n o u)
  | op_GetInstance s : store_op _ (GetInstance s)
  | op_FindInstance s : store_op _ (FindInstance s)
  | op_DeleteInstance s : store_op _ (DeleteInstance s)
  | op_ListInstances b : store_op _ (ListInstances b)
  | op_StoppedSince id : store_op _ (StoppedSince id)
  | op_RecordEvent n e : store_op _ (RecordEvent n e)
  | op_ListEvents id l : store_op _ (ListEvents id l)
  | op_RecordCommand n a : store_op _ (RecordCommand n a)
  | op_RecordAuthz n a : store_op _ (RecordAuthz n a)
  | op_RecordEnrollmentKey i k : store_op _ (RecordEnrollmentKey i k)
  | op_EnrollmentKey i : store_op _ (EnrollmentKey i)
  | op_CheckCleanupFence i : store_op _ (CheckCleanupFence i)
  | op_CleanupRequest i : store_op _ (CleanupRequest i)
  | op_BeginCleanup n id a i : store_op _ (BeginCleanup n id a i)
  | op_CommitCleanup n r : store_op _ (CommitCleanup n r)
  | op_CleanupReceipt id a : store_op _ (GetCleanupReceipt id a)
  | op_CleanupReceiptForInstance i : store_op _ (CleanupReceiptForInstance i)
  | op_GetMigration i : store_op _ (GetMigration i)
  | op_PutMigration m : store_op _ (PutMigration m)
  | op_GetImportReceipt i : store_op _ (GetImportReceipt i)
  | op_PutImportReceipt r : store_op _ (PutImportReceipt r)
  | op_ReserveImportReceipt r : store_op _ (ReserveImportReceipt r)
  | op_FinalizeImport n i u : store_op _ (FinalizeImport n i u)
  | op_CreateMemoryPool n p : store_op _ (CreateMemoryPool n p)
  | op_GetMemoryPoolByName s : store_op _ (GetMemoryPoolByName s)
  | op_FindMemoryPoolByName s : store_op _ (FindMemoryPoolByName s)
  | op_GetMemoryPoolByID s : store_op _ (GetMemoryPoolByID s)
  | op_ListMemoryPools : store_op _ ListMemoryPools
  | op_CountMemoryPoolMembers s : store_op _ (CountMemoryPoolMembers s)
  | op_PendingMemoryPoolResize s : store_op _ (PendingMemoryPoolResize s)
  | op_CheckMemoryPoolResize s : store_op _ (CheckMemoryPoolResize s)
  | op_BeginMemoryPoolResize n p o : store_op _ (BeginMemoryPoolResize n p o)
  | op_FinishMemoryPoolResize n p s : store_op _ (FinishMemoryPoolResize n p s)
  | op_DeleteMemoryPool s : store_op _ (DeleteMemoryPool s)
  | op_CreateIntegration n i : store_op _ (CreateIntegration n i)
  | op_GetIntegrationByName s : store_op _ (GetIntegrationByName s)
  | op_ListIntegrations : store_op _ ListIntegrations
  | op_DeleteIntegration s : store_op _ (DeleteIntegration s)
  | op_CountIntegrationBindings s : store_op _ (CountIntegrationBindings s)
  | op_BindIntegrationToInstance n b : store_op _ (BindIntegrationToInstance n b)
  | op_UnbindIntegrationFromInstance i j : store_op _ (UnbindIntegrationFromInstance i j)
  | op_ListInstanceIntegrations i : store_op _ (ListInstanceIntegrations i)
  | op_migrate n : store_op _ (migrate_stopped_since n).

(** One call, with whatever the environment does to it. *)
Definition store_step (d d' : DB) : Prop :=
  ∃ A (m : M DB A) fs, store_op A m ∧ (m fs d).1.2 = d'.

(** A later database. *)
Definition later : relation DB := rtc store_step.

Lemma later_within (R : relation DB) `{!PreOrder R} :
  (∀ A m, store_op A m → within R m) → ∀ d d', later d d' → R d d'.
Proof.
  intros Hops d d' Hrtc. induction Hrtc as [d|d d1 d2 (A & m & fs & Hop & <-) _ IH].
  - reflexivity.
  - etransitivity; [|exact IH]. by apply (Hops A m Hop).
Qed.

Lemma later_run {A} (m : M DB A) d : store_op A m → later d (run m d).2.
Proof. intros H. apply rtc_once. by exists A, m, []. Qed.

(** Down to the statements of an operation: unfold it and the operations it calls. *)
Ltac head_of t := lazymatch t with ?f _ => head_of f | _ => t end.

Ltac unfold_op :=
  lazymatch goal with
  | |- within _ (UPDATE_instances _ _) => fail
  | |- within _ (env _) => fail
  | |- within _ (UPDATE _ _ _) => fail
  | |- within _ (DELETE _ _) => fail
  | |- within _ (INSERT _ _) => fail
  | |- within _ (INSERT_OR_NOTHING _ _) => fail
  | |- within _ (INSERT_OR_UPDATE _ _) => fail
  | |- within _ ?m => let h := head_of m in unfold h
  end.

Ltac to_statements := repeat (progress within_sql || unfold_op); cbv zeta.

Ltac statement :=
  lazymatch goal with
  | |- within _ (UPDATE_instances _ _) =>
      unfold UPDATE_instances; apply within_UPDATE; [apply _|intros ?]
  | |- within _ (UPDATE _ _ _) => apply within_UPDATE; [apply _|intros ?]
  | |- within _ (DELETE _ _) => apply within_DELETE; [apply _|intros ?]
  | |- within _ (INSERT _ _) => apply within_INSERT; [apply _|intros ? ? ?]
  | |- within _ (INSERT_OR_NOTHING _ _) => apply within_INSERT_OR_NOTHING; [apply _|intros ? ? ?]
  | |- within _ (INSERT_OR_UPDATE _ _) => apply within_INSERT_OR_UPDATE; [apply _|intros ? ?]
  | |- within _ (env _) => apply within_env; [apply _|intros ?]
  end.

(** ** Well-formedness *)

Ltac wf_statement :=
  lazymatch goal with
  | |- within _ (UPDATE_instances _ _) => apply wf_UPDATE_instances; by intros []
  | |- within _ (INSERT Instances _) => apply wf_INSERT_instances
  | |- within _ (DELETE Instances _) => apply wf_DELETE_instances
  | |- _ => statement
  end.

Lemma migrate_stopped_since_wf now : within wf_le (migrate_stopped_since now).
Proof.
  apply within_UPDATE; [apply _|]. intros d []; split; try done; simpl.
  - by apply keyed_update_where.
  - by apply unclashed_update_where.
  - by apply Forall_update_where.
  - apply Forall_update_where; [|done]. intros k r _ Hr _. row_tests.
    unfold stopped_ok, row_State in *. simpl. by split.
Qed.

Lemma op_wf A (m : M DB A) : store_op A m → within wf_le m.
Proof.
  destruct 1;
    lazymatch goal with
    | |- within _ (migrate_stopped_since _) => apply migrate_stopped_since_wf
    | |- _ => to_statements; wf_statement; cbn [snd]; repeat case_match; simpl;
              try done; solve_wf
    end.
Qed.

(** ** The request state machine *)

(** A move of [phase_step], or none. *)
Ltac solve_phase :=
  repeat match goal with
  | H : lr_Phase _ = _ |- _ => rewrite H; clear H
  | H : lr_Command _ = _ |- _ => rewrite H; clear H
  end;
  first [ apply rtc_refl
        | apply rtc_once; constructor; unfold is_delete; naive_solver ].

Ltac solve_history :=
  lazymatch goal with
  | |- history _ (set_lifecycle_requests (update_where _ _ _) _) =>
      apply history_update; unfold finishing_request; intros ? ?; row_tests; apply request_later_phase;
      solve_phase
  | |- history _ (insert_row Requests _ _) => by apply history_insert
  | |- _ => by apply history_same
  end.

Lemma op_history A (m : M DB A) : store_op A m → within history m.
Proof.
  destruct 1;
    lazymatch goal with
    | |- within _ (AdmitLifecycleRequest _ _) => apply AdmitLifecycleRequest_history
    | |- within _ (FinishLifecycleRequest _ _ _) => apply FinishLifecycleRequest_history
    | |- within _ (RejectLifecycleStart _ _) => apply RejectLifecycleStart_history
    | |- within _ InterruptLifecycleRequests => apply InterruptLifecycleRequests_history
    | |- within _ (BeginLifecycleRequest _ _) => apply BeginLifecycleRequest_history
    | |- within _ (CancelLifecycleRequest _ _) => apply CancelLifecycleRequest_history
    | |- within _ (AdmitBootstrap _ _ _ _ _) => apply AdmitBootstrap_history
    | |- _ => to_statements; statement; cbn [snd]; repeat case_match; simpl; try done;
              solve_history
    end.
Qed.

(** ** Receipts and generations only accumulate *)

(** A cleanup receipt, once written, is there for good. *)
Definition receipts_kept : relation DB := λ d d', cleanup_receipts d ⊆ cleanup_receipts d'.
#[export] Instance receipts_kept_preorder : PreOrder receipts_kept.
Proof.
  unfold receipts_kept. split; [intros d; reflexivity|].
  intros d1 d2 d3 H1 H2. by etransitivity.
Qed.

Lemma receipts_same d d' : cleanup_receipts d' = cleanup_receipts d → receipts_kept d d'.
Proof. unfold receipts_kept. by intros ->. Qed.

Lemma op_receipts A (m : M DB A) : store_op A m → within receipts_kept m.
Proof.
  destruct 1; to_statements; statement; cbn [snd]; repeat case_match;
    lazymatch goal with
    | |- receipts_kept _ (insert_row CleanupReceipts _ _) => by apply insert_subseteq
    | |- _ => by apply receipts_same
    end.
Qed.

(** The bootstrap generation of an incarnation never goes back. *)
Definition generations_up : relation DB := λ d d',
  ∀ i b, orb_bootstrap d !! i = Some b →
    ∃ b', orb_bootstrap d' !! i = Some b' ∧ ob_created_at b' = ob_created_at b ∧
          ob_generation b <= ob_generation b'.
#[export] Instance generations_up_preorder : PreOrder generations_up.
Proof.
  split.
  - intros d i b Hb. exists b. split; [done|]. split; [done|lia].
  - intros d1 d2 d3 H1 H2 i b Hb. destruct (H1 i b Hb) as (b2 & Hb2 & Hc2 & Hg2).
    destruct (H2 i b2 Hb2) as (b3 & Hb3 & Hc3 & Hg3). exists b3. split; [done|].
    split; [congruence|lia].
Qed.

Lemma generations_same d d' : orb_bootstrap d' = orb_bootstrap d → generations_up d d'.
Proof. intros Heq i b Hb. rewrite Heq. exists b. split; [done|]. split; [done|lia]. Qed.

Lemma generations_insert d r :
  orb_bootstrap d !! ob_instance_id r = None → generations_up d (insert_row OrbBootstrap r d).
Proof.
  intros Hnone i b Hb. simpl. exists b. split; [|split; [done|lia]].
  rewrite lookup_insert_ne; [done|]. intros <-. simpl in *. congruence.
Qed.

Lemma generations_update d p g :
  (∀ b, p b = true → ob_generation b < g) →
  generations_up d (set_orb_bootstrap (update_where p (set_generation g) (orb_bootstrap d)) d).
Proof.
  intros Hp i b Hb. simpl. rewrite lookup_update_where, Hb. eexists. split; [done|].
  destruct (p b) eqn:Hpb; simpl; (split; [done|]); [|lia]. apply Hp in Hpb. lia.
Qed.

Lemma op_generations A (m : M DB A) : store_op A m → within generations_up m.
Proof.
  destruct 1; to_statements; statement; cbn [snd]; repeat case_match;
    lazymatch goal with
    | |- generations_up _ (tset OrbBootstrap _ _) =>
        apply generations_update; intros b Hb; row_tests; by apply Z.ltb_lt
    | |- generations_up _ (insert_row OrbBootstrap _ _) => by apply generations_insert
    | |- _ => by apply generations_same
    end.
Qed.

(** ** What holds of every later database *)

Lemma later_wf d d' : wf d → later d d' → wf d'.
Proof. intros Hwf Hl. by apply (later_within wf_le op_wf d d' Hl). Qed.

Lemma later_history d d' : later d d' → history d d'.
Proof. by apply later_within, op_history; apply _. Qed.

Lemma run_wf {A} (m : M DB A) d : store_op A m → wf d → wf (run m d).2.
Proof. intros Hop Hwf. eapply later_wf; [done|]. by apply later_run. Qed.
