(* ===== verification/CleanupSpec.v ===== *)
(** * Cleanup is all or nothing

    The transactions of cleanup.go against their abstract effect: what a
    successful [BeginCleanup] or [CommitCleanup] did to the database, and that any
    other outcome did nothing. *)
From S2P Require Import Prelude GoStrings Timestamps Model Sql StoreDB StoreRequests StoreInstances.
From S2P Require Import StoreCleanup StoreMigration StorePools StoreTrace StoreDemo.
From stdpp Require Import relations.

#[local] Open Scope Z_scope.

(** ** Predicates that address one row *)

Lemma same_incarnation_ID id name created user node i :
  same_incarnation id name created user node i = true → ID i = id.
Proof. unfold same_incarnation. intros. by row_tests. Qed.

(** ** Committing *)

(** The abstract effect of a committed cleanup: the request is done, the
    instance a tombstone, the receipt filed and the fence gone; nothing else. *)
Definition commit_effect (now : time) (r : CleanupReceipt) (q : request_row)
    (row : instance_row) (d : DB) : DB :=
  set_cleanup_fences (delete (cr_InstanceID r) (cleanup_fences d))
    (set_cleanup_receipts
       (<[cr_RequestID r := mkReceiptRow (cr_RequestID r) (cr_Actor r) r]> (cleanup_receipts d))
       (set_instances
          (<[cr_InstanceID r := stopped_update (tombstone now r) row]> (instances d))
          (set_lifecycle_requests
             (<[cr_RequestID r := with_phase "done" 0 q]> (lifecycle_requests d)) d))).

Definition committed (now : time) (r : CleanupReceipt) (d d' : DB) : Prop :=
  ∃ q row f,
    lifecycle_requests d !! cr_RequestID r = Some q ∧ finishing_request r q = true ∧
    instances d !! cr_InstanceID r = Some row ∧
    cleanup_target now r (enrollment_keys d) row = true ∧
    cleanup_receipts d !! cr_RequestID r = None ∧
    cleanup_fences d !! cr_InstanceID r = Some f ∧ fc_request_id f = cr_RequestID r ∧
    d' = commit_effect now r q row d.

Lemma commit_cleanup_tx_spec now r d :
  wf d →
  wp (commit_cleanup_tx now r) (λ o d',
    match o with
    | Ok _ => committed now r d d'
    | Err _ => d' = d
    | Crashed => d' = d ∨ committed now r d d'
    end) d.
Proof.
  intros Hwf. unfold commit_cleanup_tx. apply wp_tx; [done|by left|].
  apply wp_bind. eapply (wp_UPDATE_request _ _ (cr_RequestID r)); [|done..| |].
  { apply (owned_points _ (cr_Actor r)). unfold finishing_request. intros q. rewrite !andb_true_iff. tauto. }
  2: { split; [|done]. apply wp_bind, wp_require; done. }
  intros q Hq Hfin. split; [|done]. apply wp_bind, wp_require; [|done]. intros _.
  set (d1 := set_lifecycle_requests _ d).
  assert (Hwf1 : wf d1) by (by apply wf_set_requests).
  apply wp_bind, wp_subquery.
  eapply (wp_UPDATE_instance _ _ (cr_InstanceID r)); [|done|by intros []|done..| |].
  { intros row Hrow. unfold cleanup_target in Hrow. rewrite !andb_true_iff in Hrow.
    eapply same_incarnation_ID, Hrow. }
  2: { split; [|done]. apply wp_bind, wp_require; done. }
  intros row Hrow Htgt. split; [|done]. apply wp_bind, wp_require; [|done]. intros _.
  apply wp_bind. eapply wp_INSERT_fresh; [done..|]. intros Hnew _. split; [|done].
  apply wp_bind. eapply (wp_DELETE_point _ _ (cr_InstanceID r)); [|apply Hwf|done..| |].
  { unfold fence_of. intros f Hf. by row_tests. }
  2: { split; [|done]. apply wp_require; done. }
  intros f Hf Hown. split; [|done]. apply wp_require; [|done]. intros _.
  assert (Hc : committed now r d (commit_effect now r q row d)).
  { exists q, row, f. unfold fence_of in Hown. row_tests. by repeat split. }
  split; [exact Hc|right; exact Hc].
Qed.

Lemma CommitCleanup_spec now r d :
  wf d →
  wp (CommitCleanup now r) (λ o d',
    match o with
    | Ok _ => complete_proof r = true ∧ committed now r d d'
    | Err _ => d' = d
    | Crashed => d' = d ∨ (complete_proof r = true ∧ committed now r d d')
    end) d.
Proof.
  intros Hwf. unfold CommitCleanup. repeat (wp_step; [done|]).
  apply negb_false_iff in Heqb. eapply wp_mono; [by apply commit_cleanup_tx_spec|].
  intros [a|e|] d' H; [by split|done|]. destruct H; [by left|by right].
Qed.

(** C25. [CommitCleanup] never writes a tombstone without the receipt, the outcome and
    the removal of the fence, and only for a complete proof: it has the whole of
    [commit_effect] or none, under every failure; when it reports success the
    effect is there, and when it reports an error the database is untouched. *)
Theorem commit_cleanup_atomic now r d :
  wf d →
  wp (CommitCleanup now r) (λ o d',
    match o with
    | Ok _ => complete_proof r = true ∧ committed now r d d'
    | Err _ => d' = d
    | Crashed => d' = d ∨ (complete_proof r = true ∧ committed now r d d')
    end) d.
Proof. apply CommitCleanup_spec. Qed.

Lemma demo_wf : wf demo_db ∧ wf admitted_db ∧ wf deleting_db.
Proof.
  assert (wf demo_db) by (apply run_wf; [constructor|apply wf_empty]).
  assert (wf admitted_db) by (apply run_wf; [constructor|done]).
  split; [done|]. split; [done|]. apply run_wf; [constructor|done].
Qed.

Lemma commit_cleanup_atomic_witness :
  committed t0 demo_receipt deleting_db (run (CommitCleanup t0 demo_receipt) deleting_db).2.
Proof.
  pose proof (wp_run _ _ _ (commit_cleanup_atomic t0 demo_receipt deleting_db
                              (proj2 (proj2 demo_wf)))) as H.
  rewrite deleting_db_ok in H. exact (proj2 H).
Defined.

(** ** Beginning *)

(** The abstract effect of a begun cleanup; [fresh] is a first attempt, which
    takes the fence, as opposed to a resumption by the owner of the fence. *)
Definition begin_effect (now : time) (fresh : bool) (requestID : string) (inst : Instance)
    (q : request_row) (row : instance_row) (d : DB) : DB :=
  let d' := set_instances
    (<[ID inst := stopped_update
         (λ i, set_State StateDeleting (set_UpdatedAt (timeString now now) i)) row]> (instances d))
    (set_lifecycle_requests
       (<[requestID := with_phase "executing" 0 q]> (lifecycle_requests d)) d) in
  if fresh then insert_row CleanupFences (mkFenceRow (ID inst) requestID) d' else d'.

Definition begun (now : time) (requestID actor : string) (inst : Instance) (d d' : DB) : Prop :=
  ∃ fresh q row,
    lifecycle_requests d !! requestID = Some q ∧ lr_Actor (rq q) = actor ∧
    str_in (lr_Command (rq q)) delete_commands = true ∧ lr_Name (rq q) = Name inst ∧
    instances d !! ID inst = Some row ∧
    same_incarnation (ID inst) (Name inst) (timeString now (CreatedAt inst))
      (CreatedByUser inst) (CreatedByNode inst) (in_cols row) = true ∧
    (if fresh : bool
     then cleanup_fences d !! ID inst = None ∧
          str_in (lr_Phase (rq q)) ["admitted"; "failed"; "cancelled"] = true
     else (∃ f, cleanup_fences d !! ID inst = Some f ∧ fc_request_id f = requestID) ∧
          str_in (lr_Phase (rq q)) ["executing"; "interrupted"] = true ∧
          row_State row = StateDeleting) ∧
    d' = begin_effect now fresh requestID inst q row d.

(** What [BeginCleanup] does once the fence has been looked up and the ordinary
    deletion checked. *)
Lemma begin_updates_spec now (resume : bool) requestID actor inst states d :
  wf d →
  (resume = true → states = ["deleting"]) →
  (if resume then ∃ f, cleanup_fences d !! ID inst = Some f ∧ fc_request_id f = requestID
   else cleanup_fences d !! ID inst = None) →
  wp (begin_cleanup_updates now resume requestID actor inst states)
     (λ o d', match o with Ok _ => begun now requestID actor inst d d' | _ => True end) d.
Proof.
  intros Hwf Hstates Hfence. unfold begin_cleanup_updates. apply wp_bind.
  eapply (wp_UPDATE_request _ _ requestID); [|done..| |].
  { apply (owned_points _ actor). intros q. rewrite !andb_true_iff. tauto. }
  2: { split; [|done]. apply wp_bind, wp_require; done. }
  intros q Hq Hreq. split; [|done]. apply wp_bind, wp_require; [|done]. intros _.
  set (d1 := set_lifecycle_requests _ d).
  assert (Hwf1 : wf d1) by (by apply wf_set_requests).
  apply wp_bind. eapply (wp_UPDATE_instance _ _ (ID inst)); [|done|by intros []|done..| |].
  { intros row Hrow. rewrite !andb_true_iff in Hrow. eapply same_incarnation_ID, Hrow. }
  2: { split; [|done]. apply wp_bind, wp_require; done. }
  intros row Hrow Htgt. split; [|done]. apply wp_bind, wp_require; [|done]. intros _.
  apply andb_true_iff in Hreq as [[[Hown Hcmd]%andb_true_iff Hname]%andb_true_iff Hphase].
  apply andb_true_iff in Htgt as [[Hinc _]%andb_true_iff Hstate].
  assert (Hbegun : ∀ fresh, fresh = negb resume →
    begun now requestID actor inst d (begin_effect now fresh requestID inst q row d)).
  { intros fresh ->. exists (negb resume), q, row. apply String.eqb_eq in Hname.
    apply andb_true_iff in Hown as [_ Hactor%String.eqb_eq]. repeat (split; [done|]). split; [|done].
    destruct resume; simpl; [|done]. split; [done|]. split; [done|].
    rewrite Hstates in Hstate by done. apply orb_true_iff in Hstate as [Hs|[=]].
    by apply String.eqb_eq in Hs. }
  destruct resume.
  - apply wp_ret. exact (Hbegun false eq_refl).
  - eapply wp_INSERT_fresh; [done..|]. intros _ _. split; [|done].
    exact (Hbegun true eq_refl).
Qed.

Lemma unresolved_check_spec command resume name (Q : outcome unit → DB → Prop) d :
  Q (Ok tt) d → (∀ o, o ≠ Ok tt → Q o d) → wp (unresolved_check command resume name) Q d.
Proof.
  intros HOk Hno. unfold unresolved_check. destruct (_ && _); [|by apply wp_ret].
  apply wp_bind, wp_query; [by apply Hno..|]. apply wp_require; [done|]. intros _. by apply Hno.
Qed.

(** [BeginCleanup] admits or resumes the deletion of exactly the observed
    incarnation: on success a fresh request takes the fence, or the owner of the
    fence resumes an interrupted deletion; no other request ever passes a fence,
    and any error, or a crash before the commit, leaves the database untouched. *)
Theorem begin_cleanup_atomic now requestID actor inst d :
  wf d →
  wp (BeginCleanup now requestID actor inst) (λ o d',
    match o with
    | Ok _ => begun now requestID actor inst d d'
    | Err _ => d' = d
    | Crashed => d' = d ∨ begun now requestID actor inst d d'
    end) d.
Proof.
  intros Hwf. unfold BeginCleanup. apply wp_tx; [done|by left|].
  eapply (wp_mono _ (λ o d', match o with Ok _ => begun now requestID actor inst d d'
                                        | _ => True end));
    [|intros [a|e|] d' H; [split; [done|by right]|done|done]].
  assert (Hpoint : points_at CleanupFences (fence_of (ID inst)) (ID inst)).
  { intros f Hf. by apply String.eqb_eq in Hf. }
  apply wp_bind, wp_try. eapply (wp_SELECT_point _ _ (ID inst)); [done|apply Hwf|done..| |].
  - intros f Hf _. apply wp_bind, wp_require; [|done]. intros Hown.
    apply String.eqb_eq in Hown. apply wp_bind, wp_query; [done..|].
    destruct (select_row _ (tget Requests d)) as [r|e]; [|done].
    apply wp_bind, unresolved_check_spec; [|by intros [[]| |]].
    apply begin_updates_spec; [done|done|by exists f].
  - intros Hnone. destruct (decide (ErrNoRows = ErrNoRows)); [|done]. apply wp_bind, wp_ret.
    apply wp_bind, wp_query; [done..|].
    destruct (select_row _ (tget Requests d)) as [r|e']; [|done].
    apply wp_bind, unresolved_check_spec; [|by intros [[]| |]].
    apply begin_updates_spec; [done|done|].
    destruct (cleanup_fences d !! ID inst) as [f|] eqn:Hf; [|done].
    specialize (Hnone f Hf). unfold fence_of in Hnone.
    pose proof (wf_fences d Hwf _ _ Hf) as Hk. simpl in Hk.
    by rewrite Hk, String.eqb_refl in Hnone.
Qed.

Lemma begin_cleanup_atomic_witness :
  begun t0 "req-1" "alice@example.com" demo_instance admitted_db deleting_db.
Proof.
  pose proof (wp_run _ _ _ (begin_cleanup_atomic t0 "req-1" "alice@example.com" demo_instance
                              admitted_db (proj1 (proj2 demo_wf)))) as H.
  assert ((run (BeginCleanup t0 "req-1" "alice@example.com" demo_instance) admitted_db).1
          = Ok tt) as Hok by (vm_compute; reflexivity).
  rewrite Hok in H. exact H.
Defined.

(** ** Receipts are proofs, and fences have their request *)

(** A filed receipt is backed by a done deletion request of the same actor and
    name, and carries a complete proof. *)
Definition receipt_backed (d : DB) : Prop :=
  ∀ id rc, cleanup_receipts d !! id = Some rc →
    complete_proof (rc_receipt rc) = true ∧
    ∃ q, lifecycle_requests d !! id = Some q ∧ lr_Phase (rq q) = "done" ∧
         lr_Actor (rq q) = rc_actor rc ∧ str_in (lr_Command (rq q)) delete_commands = true ∧
         lr_Name (rq q) = cr_Name (rc_receipt rc).

Lemma done_stuck cmd ph : rtc (phase_step cmd) "done" ph → ph = "done".
Proof. intros Hrtc. inversion Hrtc as [|? ? ? Hstep]; [done|]. inversion Hstep; subst; by destruct_or!. Qed.

(** Databases whose receipts are unchanged stay backed: requests only move along
    the state machine, and "done" is final for deletions too. *)
Lemma backed_history d d' :
  history d d' → cleanup_receipts d' = cleanup_receipts d → receipt_backed d → receipt_backed d'.
Proof.
  intros Hh Heq Hb id rc Hrc. rewrite Heq in Hrc.
  destruct (Hb id rc Hrc) as (Hproof & q & Hq & Hdone & Hactor & Hcmd & Hname).
  destruct (Hh id q Hq) as (q' & Hq' & _ & Ha & Hc & Hn & _ & _ & Hph).
  rewrite Hdone in Hph. apply done_stuck in Hph. split; [done|]. exists q'.
  by rewrite Hq', Hph, Ha, Hc, Hn, Hactor, Hname.
Qed.

Lemma committed_backed now r d d' :
  complete_proof r = true → committed now r d d' → history d d' → receipt_backed d →
  receipt_backed d'.
Proof.
  intros Hproof (q & row & f & Hq & Hfin & _ & _ & Hnew & _ & _ & ->) Hh Hb id rc.
  unfold commit_effect. simpl. rewrite lookup_insert_Some. intros [[<- <-]|[Hne Hrc]].
  - split; [done|]. exists (with_phase "done" 0 q). rewrite lookup_insert_eq.
    apply andb_true_iff in Hfin as
      [[[[_ Ha%String.eqb_eq]%andb_true_iff Hc]%andb_true_iff Hn%String.eqb_eq]%andb_true_iff _].
    by repeat split.
  - destruct (Hb id rc Hrc) as (Hp & q' & Hq' & Hrest). split; [done|]. exists q'.
    by rewrite lookup_insert_ne by done.
Qed.

(** A fence is backed by a deletion request that is not finished: no receipt is filed
    for it. *)
Definition fence_backed (d : DB) : Prop :=
  ∀ i f, cleanup_fences d !! i = Some f →
    cleanup_receipts d !! fc_request_id f = None ∧
    ∃ q, lifecycle_requests d !! fc_request_id f = Some q ∧ str_in (lr_Command (rq q)) delete_commands = true.

Lemma fences_history d d' :
  history d d' → cleanup_receipts d' = cleanup_receipts d → cleanup_fences d' = cleanup_fences d →
  fence_backed d → fence_backed d'.
Proof.
  intros Hh Hr Hf Hb i f Hi. rewrite Hf in Hi. destruct (Hb i f Hi) as (Hnone & q & Hq & Hcmd).
  rewrite Hr. split; [done|]. destruct (Hh _ _ Hq) as (q' & Hq' & _ & _ & Hc & _). exists q'. by rewrite Hc.
Qed.

Lemma committed_fences now r d d' :
  wf d → committed now r d d' → fence_backed d → fence_backed d'.
Proof.
  intros Hwf (q & row & f & Hq & Hfin & _ & _ & Hnew & Hf & Hid & ->) Hb i f'. unfold commit_effect. cbn.
  intros [Hne Hi]%lookup_delete_Some. destruct (Hb i f' Hi) as (Hnone & q' & Hq' & Hcmd).
  assert (Hother : cr_RequestID r ≠ fc_request_id f').
  { intros He. apply Hne. refine (wf_fences_unique d Hwf _ _ f f' Hf Hi _). cbn. by rewrite Hid, He, String.eqb_refl. }
  rewrite !lookup_insert_ne by done. split; [done|]. by exists q'.
Qed.

(** A fresh fence is taken for a request that is not done, so it has no receipt. *)
Lemma begun_fences now requestID actor inst d d' :
  history d d' → begun now requestID actor inst d d' → receipt_backed d → fence_backed d → fence_backed d'.
Proof.
  intros Hh (fresh & q & row & Hq & _ & Hcmd & _ & _ & _ & Hphase & ->) Hr Hb. unfold begin_effect. destruct fresh.
  2:{ eapply fences_history; done. }
  intros i f. cbn. rewrite lookup_insert_Some. intros [[<- <-]|[Hne Hi]]; cbn.
  - split.
    + destruct (cleanup_receipts d !! requestID) as [rc|] eqn:Hrc; [|done].
      destruct (Hr _ _ Hrc) as (_ & q' & Hq' & Hdone & _). assert (q' = q) as -> by congruence.
      destruct Hphase as [_ Hph]. by rewrite Hdone in Hph.
    + eexists. by rewrite lookup_insert_eq.
  - destruct (Hb i f Hi) as (Hnone & q' & Hq' & Hc). split; [done|].
    destruct (Hh _ _ Hq') as (q2 & Hq2 & _ & _ & Hc2 & _). exists q2. by rewrite Hc2.
Qed.

(** *** Over every history *)

Definition linked (d : DB) : Prop := receipt_backed d ∧ fence_backed d.
Definition linked_le : relation DB := λ d d', wf d ∧ linked d → wf d' ∧ linked d'.
#[export] Instance linked_le_preorder : PreOrder linked_le.
Proof. split; [intros d; exact id|intros d1 d2 d3 H1 H2 H; auto]. Qed.

(** The other operations leave receipts and fences alone. *)
Definition cleanup_same_le : relation DB := λ d d',
  cleanup_receipts d' = cleanup_receipts d ∧ cleanup_fences d' = cleanup_fences d.
#[export] Instance cleanup_same_le_preorder : PreOrder cleanup_same_le.
Proof. split; [done|]. intros d1 d2 d3 [] []. split; congruence. Qed.

Lemma op_cleanup_cases A (m : M DB A) :
  store_op A m →
  within cleanup_same_le m ∨
  (∃ now r, ∀ d fs, (m fs d).1.2 = (CommitCleanup now r fs d).1.2) ∨
  (∃ now id actor inst, ∀ d fs, (m fs d).1.2 = (BeginCleanup now id actor inst fs d).1.2).
Proof.
  destruct 1; try (by right; left; eauto); try (by right; right; eauto 6); left;
    to_statements; statement; cbn [snd]; repeat case_match; done.
Qed.

Lemma op_linked A (m : M DB A) : store_op A m → within linked_le m.
Proof.
  intros Hop d fs [Hwf [Hr Hf]]. split; [by apply (op_wf A m Hop d fs)|].
  pose proof (op_history A m Hop d fs) as Hh. cbv beta in Hh.
  destruct (op_cleanup_cases A m Hop) as [Hsame|[(now & r & Heq)|(now & id & actor & inst & Heq)]].
  - destruct (Hsame d fs) as [H1 H2]. split; [by eapply backed_history|by eapply fences_history].
  - assert (Hdone : ∀ d', history d d' → complete_proof r = true ∧ committed now r d d' → linked d').
    { intros d' Hh' [Hp Hc]. split; [by eapply committed_backed|by eapply committed_fences]. }
    pose proof (CommitCleanup_spec now r d Hwf fs) as Hc. rewrite Heq in *. cbv beta in Hc.
    destruct (CommitCleanup now r fs d).1.1 as [a|e|]; [by apply Hdone|by rewrite Hc|].
    destruct Hc as [->|Hc]; [done|by apply Hdone].
  - assert (Hdone : ∀ d', history d d' → begun now id actor inst d d' → linked d').
    { intros d' Hh' Hb. split; [|by eapply begun_fences]. eapply backed_history; [done| |done].
      destruct Hb as (fresh & q & row & _ & _ & _ & _ & _ & _ & _ & ->). by destruct fresh. }
    pose proof (begin_cleanup_atomic now id actor inst d Hwf fs) as Hc. rewrite Heq in *. cbv beta in Hc.
    destruct (BeginCleanup now id actor inst fs d).1.1 as [a|e|]; [by apply Hdone|by rewrite Hc|].
    destruct Hc as [->|Hc]; [done|by apply Hdone].
Qed.

(** C36. Over every history of the database its records of deletions refer to each other: each
    filed receipt carries a complete proof and belongs to a done deletion request of the same
    actor and name; each fence belongs to a deletion request that has no receipt; and no
    request holds the fences of two instances. *)
Theorem cleanup_records_linked d :
  later empty_DB d →
  receipt_backed d ∧ fence_backed d ∧
  ∀ i j f g, cleanup_fences d !! i = Some f → cleanup_fences d !! j = Some g → fc_request_id f = fc_request_id g → i = j.
Proof.
  intros Hl. destruct (later_within linked_le op_linked empty_DB d Hl) as [Hwf [Hr Hf]].
  { split; [apply wf_empty|]. split; intros ? ?; cbn; by rewrite lookup_empty. }
  split; [done|]. split; [done|]. intros i j f g Hi Hj He.
  refine (wf_fences_unique d Hwf _ _ f g Hi Hj _). cbn. by rewrite He, String.eqb_refl.
Qed.

Lemma deleting_reachable : later empty_DB deleting_db.
Proof.
  unfold later. etransitivity; [apply (later_run (CreateInstance t0 demo_instance)); constructor|].
  etransitivity;
    [apply (later_run (AdmitLifecycleRequest t0 (demo_request "delete"))); constructor|].
  apply (later_run (BeginCleanup t0 "req-1" "alice@example.com" demo_instance)). constructor.
Qed.

(** A deletion that has begun holds the fence of its request, and has no receipt yet. *)
Lemma cleanup_records_linked_witness :
  cleanup_fences deleting_db !! "id-1" = Some (mkFenceRow "id-1" "req-1") ∧
  cleanup_receipts deleting_db !! "req-1" = None ∧
  ∃ q, lifecycle_requests deleting_db !! "req-1" = Some q ∧ str_in (lr_Command (rq q)) delete_commands = true.
Proof.
  assert (Hf : cleanup_fences deleting_db !! "id-1" = Some (mkFenceRow "id-1" "req-1")) by (vm_compute; reflexivity).
  split; [exact Hf|].
  exact (proj1 (proj2 (cleanup_records_linked deleting_db deleting_reachable)) "id-1" _ Hf).
Defined.
