(* ===== verification/InstanceSpec.v ===== *)
(** * Instance records: round trip, compare-and-set, retention clock

    What the instance operations of sqlite.go and the journals of migration.go
    promise. *)
From S2P Require Import Prelude GoStrings Timestamps Model Sql StoreDB StoreRequests StoreInstances.
From S2P Require Import StoreCleanup StoreMigration StorePools StoreDemo StoreTrace.
From stdpp Require Import relations.

#[local] Open Scope Z_scope.

(** ** Round trips *)

Definition valid_time (t : time) : Prop := 0 <= t < max_time.

(** [timeString] replaces the zero time by the clock. *)
Definition or_now (now t : time) : time := if IsZero t then now else t.

Lemma parse_timeString now t :
  valid_time now → valid_time t → parseTime (timeString now t) = inl (or_now now t).
Proof.
  intros Hnow Ht. unfold parseTime, timeString, or_now. destruct (IsZero t);
    by rewrite parse_format.
Qed.

(** Every instant of the years 1 to 9999 survives the trip through its text. *)
Theorem timestamp_roundtrip now t :
  valid_time t → IsZero t = false → parseTime (timeString now t) = inl t.
Proof.
  intros Ht Hz. unfold parseTime, timeString. rewrite Hz. by rewrite parse_format.
Qed.

Lemma timestamp_roundtrip_witness :
  parseTime (timeString 0 (t0 + 120000000)) = inl (t0 + 120000000).
Proof.
  apply timestamp_roundtrip; [|reflexivity]. split; [by vm_compute|by vm_compute].
Defined.

(** The struct a row reads back as: memory normalised, legacy kind named, zero
    times replaced. *)
Definition refreshed (now : time) (i : Instance) : Instance :=
  mkInstance (ID i) (Name i) (KindName i) (Image i) (State i) (or_now now (CreatedAt i))
    (CreatedByUser i) (CreatedByNode i) (VCPUCount i) (MemoryMiB i) (MemoryMode i)
    (MemoryPoolID i) (RootFSSizeBytes i) (RootFSPath i) (KernelPath i) (InitrdPath i)
    (SocketPath i) (LogPath i) (SerialLogPath i) (TapDevice i) (GuestMAC i) (NetworkCIDR i)
    (HostAddr i) (GuestAddr i) (GatewayAddr i) (FirecrackerPID i) (StartRequestID i)
    (StartBootID i) (TailnetNodeID i) (TailscaleName i) (TailscaleIP i) (LastError i)
    (match DeletedAt i with
     | Some t => if IsZero t then None else Some t
     | None => None
     end) (or_now now (UpdatedAt i)).
Definition stored (now : time) (i : Instance) : Instance :=
  refreshed now (normalizeInstanceMemory i).

Definition valid_times (now : time) (i : Instance) : Prop :=
  valid_time now ∧ valid_time (CreatedAt i) ∧ valid_time (UpdatedAt i) ∧
  match DeletedAt i with Some t => valid_time t | None => True end.

Lemma normalize_cases (i : Instance) :
  normalizeInstanceMemory i = set_MemoryMode MemoryModePool i ∨
  normalizeInstanceMemory i = set_MemoryPoolID "" (set_MemoryMode MemoryModeFixed i).
Proof.
  unfold normalizeInstanceMemory.
  destruct (NormalizeMemoryMode_cases (MemoryMode i)) as [-> | ->]; [left|right]; by destruct i.
Qed.

Lemma normalize_idemp (i : Instance) :
  normalizeInstanceMemory (normalizeInstanceMemory i) = normalizeInstanceMemory i.
Proof.
  destruct (normalize_cases i) as [-> | ->]; destruct i; reflexivity.
Qed.

Lemma normalize_refreshed now i :
  normalizeInstanceMemory (refreshed now (normalizeInstanceMemory i)) =
  refreshed now (normalizeInstanceMemory i).
Proof.
  destruct (normalize_cases i) as [-> | ->]; destruct i; reflexivity.
Qed.

(** The nullable deletion time. *)
Definition scan_deleted (v : option string) : result (option time) :=
  match v with
  | None => mret None
  | Some v => t ← parseTime v; mret (Some t)
  end.

Lemma scan_nullable now d :
  valid_time now → match d with Some t => valid_time t | None => True end →
  scan_deleted (nullableTime now d) =
  inl match d with Some t => if IsZero t then None else Some t | None => None end.
Proof.
  intros Hnow Hd. unfold scan_deleted, nullableTime. destruct d as [t|]; [|done].
  destruct (IsZero t) eqn:Hz; [done|]. rewrite parse_timeString by done.
  unfold or_now. by rewrite Hz.
Qed.

Lemma scan_columns now i :
  valid_times now i →
  scanInstance (columns now i) = inl (normalizeInstanceMemory (refreshed now i)).
Proof.
  intros (Hnow & Hc & Hu & Hd). unfold scanInstance, columns.
  cbn [CreatedAt UpdatedAt DeletedAt].
  rewrite !parse_timeString by done. cbn [mbind result_bind].
  fold (scan_deleted (nullableTime now (DeletedAt i))).
  rewrite scan_nullable by done. reflexivity.
Qed.

Lemma valid_times_normalize now i :
  valid_times now i → valid_times now (normalizeInstanceMemory i).
Proof.
  destruct (normalize_cases i) as [-> | ->]; by destruct i.
Qed.

Lemma normalize_fields (i : Instance) :
  ID (normalizeInstanceMemory i) = ID i ∧ Name (normalizeInstanceMemory i) = Name i ∧
  KindName (normalizeInstanceMemory i) = KindName i ∧ State (normalizeInstanceMemory i) = State i.
Proof.
  destruct (normalize_cases i) as [-> | ->]; by destruct i.
Qed.

(** A row of a well-formed database is the only one of its name. *)
Lemma named_point d k r :
  wf d → instances d !! k = Some r →
  ∀ k' r', instances d !! k' = Some r' → named (row_Name r) r' = true → k' = k.
Proof.
  intros Hwf Hk k' r' Hk' Hn. apply (wf_instances_unique d Hwf k' k r' r Hk' Hk Hn).
Qed.

Lemma GetInstance_row d k r :
  wf d → instances d !! k = Some r →
  run (GetInstance (row_Name r)) d = (of_result (scanInstance (in_cols r)), d).
Proof.
  intros Hwf Hk. unfold run, GetInstance, SELECT, query, mbind, M_bind. cbn [env tget Instances].
  rewrite (select_row_point _ _ k (named_point d k r Hwf Hk)), Hk.
  unfold named. rewrite String.eqb_refl. simpl. by destruct (scanInstance (in_cols r)).
Qed.

(** Creating an instance and looking it up by name gives it back: its memory
    mode normalised (a pool ID only survives in pool mode), its kind named and
    its zero times replaced by the clock; creation of a fresh, valid instance
    always succeeds. *)
Theorem create_get_roundtrip now inst d :
  wf d → valid_times now inst →
  instances d !! ID inst = None →
  (∀ k r, instances d !! k = Some r → row_Name r ≠ Name inst) →
  KindName inst = KindVM ∨ KindName inst = KindOrb →
  (run (CreateInstance now inst) d).1 = Ok tt ∧
  run (GetInstance (Name inst)) (run (CreateInstance now inst) d).2 =
    (Ok (stored now inst), (run (CreateInstance now inst) d).2).
Proof.
  intros Hwf Ht Hid Hname Hkind.
  destruct (normalize_fields inst) as (HID & HName & HKind & _).
  set (row := stopped_insert (columns now (normalizeInstanceMemory inst))).
  set (d1 := insert_row Instances row d).
  assert (Hv : violates Instances row d = false).
  { unfold violates. apply orb_false_iff. split.
    - simpl. rewrite HKind. by destruct Hkind as [-> | ->].
    - destruct (exists_where _ _) eqn:He; [|done].
      apply exists_where_spec in He as (k & r & Hk & Hc). apply String.eqb_eq in Hc.
      unfold row_Name in Hc. simpl in Hc. rewrite HName in Hc. by destruct (Hname k r). }
  assert (Hrun : ∃ d2, run (CreateInstance now inst) d = (Ok tt, d2) ∧
                       instances d2 = instances d1).
  { unfold run, CreateInstance, tx, mbind, M_bind, INSERT. cbn [env].
    fold row. rewrite Hv. change (tkey Instances row) with (ID (normalizeInstanceMemory inst)).
    cbn [tget Instances]. rewrite HID, Hid. cbn [of_result].
    destruct (String.eqb _ KindOrb); [|by eexists].
    unfold INSERT_OR_NOTHING. cbn [env]. rewrite violates_free by done.
    simpl. destruct (orb_bootstrap d !! ID inst); by eexists. }
  destruct Hrun as (d2 & Hrun & Hinst). pose proof (run_wf _ d (op_CreateInstance now inst) Hwf) as Hwf2.
  rewrite Hrun in *. split; [done|]. simpl in *.
  assert (Hk : instances d2 !! ID inst = Some row).
  { rewrite Hinst. unfold d1. rewrite <- HID. apply lookup_insert_eq. }
  pose proof (GetInstance_row d2 _ row Hwf2 Hk) as Hget.
  change (row_Name row) with (Name (normalizeInstanceMemory inst)) in Hget. rewrite HName in Hget.
  rewrite Hget. simpl in_cols. rewrite scan_columns by (by apply valid_times_normalize).
  by rewrite normalize_refreshed.
Qed.

Lemma create_get_roundtrip_witness :
  (run (GetInstance "demo") (run (CreateInstance t0 demo_instance) empty_DB).2).1 =
  Ok (stored t0 demo_instance).
Proof.
  destruct (create_get_roundtrip t0 demo_instance empty_DB) as [_ H].
  - apply wf_empty.
  - repeat split; by vm_compute.
  - reflexivity.
  - intros k r Hk. simpl in Hk. by rewrite lookup_empty in Hk.
  - by left.
  - change "demo" with (Name demo_instance). by rewrite H.
Defined.

(** ** Compare-and-set of the runtime fields *)

Lemma set_instances_same d : set_instances (instances d) d = d.
Proof. by destruct d. Qed.

Lemma still_observed_ID now o r : still_observed now o r = true → row_ID r = ID o.
Proof. unfold still_observed. intros. by row_tests. Qed.

Lemma assign_runtime_Kind now u i : Kind (assign_runtime now u i) = Kind i.
Proof. by destruct i. Qed.

(** The row was still the observed one, and only its runtime fields changed. *)
Definition runtime_written (now : time) (o u : Instance) (d d' : DB) : Prop :=
  ∃ r, instances d !! ID o = Some r ∧ still_observed now o r = true ∧
    d' = set_instances (<[ID o := stopped_update (assign_runtime now u) r]> (instances d)) d.

Lemma UpdateInstanceRuntime_spec now o u d :
  wf d →
  wp (UpdateInstanceRuntime now o u) (λ out d',
    match out with
    | Ok _ => runtime_written now o u d d'
    | Err _ => d' = d
    | Crashed => d' = d ∨ runtime_written now o u d d'
    end) d.
Proof.
  intros Hwf. unfold UpdateInstanceRuntime. apply wp_bind.
  eapply (wp_UPDATE_instance _ _ (ID o));
    [by intros r Hr%still_observed_ID|done|apply assign_runtime_Kind|done|by left| |].
  - intros r Hr Hs d'. assert (runtime_written now o u d d') by (by exists r).
    split; [by apply wp_require|by right].
  - cbn beta zeta. rewrite set_instances_same. split; [by apply wp_require|by left].
Qed.

(** [UpdateInstanceRuntime] writes only over the row its caller observed: success
    means the stored row still had the observed state, PID, timestamps and start
    receipt, and exactly the runtime fields of that row changed; otherwise nothing
    changed. *)
Theorem runtime_compare_and_set now o u d :
  wf d →
  wp (UpdateInstanceRuntime now o u) (λ out d',
    match out with
    | Ok _ => runtime_written now o u d d'
    | Err _ => d' = d
    | Crashed => d' = d ∨ runtime_written now o u d d'
    end) d.
Proof. apply UpdateInstanceRuntime_spec. Qed.

Lemma demo_db_wf : wf demo_db.
Proof. apply run_wf; [apply op_CreateInstance|apply wf_empty]. Qed.

Definition demo_stopped : Instance :=
  set_State StateStopped (set_FirecrackerPID 0 (set_UpdatedAt (t0 + 5) demo_instance)).

Lemma runtime_compare_and_set_witness :
  match run (UpdateInstanceRuntime t0 demo_instance demo_stopped) demo_db with
  | (Ok _, d') => runtime_written t0 demo_instance demo_stopped demo_db d'
  | _ => False
  end.
Proof.
  pose proof (runtime_compare_and_set t0 demo_instance demo_stopped demo_db demo_db_wf []) as H.
  assert (Hok : (run (UpdateInstanceRuntime t0 demo_instance demo_stopped) demo_db).1 = Ok tt)
    by (vm_compute; reflexivity).
  unfold run in *. destruct (UpdateInstanceRuntime _ _ _ _ _) as [[o d'] fs].
  cbn [fst snd] in *. rewrite Hok in H. by rewrite Hok.
Defined.

(** A concurrent update wins at most once: after one call that changes the
    timestamp succeeded, a second call made from the same observation fails and
    writes nothing. *)
Theorem runtime_update_race now o u now' u' d fs fs' :
  wf d → timeString now (UpdatedAt u) ≠ timeString now' (UpdatedAt o) →
  (UpdateInstanceRuntime now o u fs d).1.1 = Ok tt →
  let d1 := (UpdateInstanceRuntime now o u fs d).1.2 in
  (UpdateInstanceRuntime now' o u' fs' d1).1.1 ≠ Ok tt ∧
  (UpdateInstanceRuntime now' o u' fs' d1).1.2 = d1.
Proof.
  intros Hwf Hne Hok. pose proof (UpdateInstanceRuntime_spec now o u d Hwf fs) as H.
  pose proof (later_wf d _ Hwf (rtc_once _ _ (ex_intro _ _ (ex_intro _ _ (ex_intro _ fs
    (conj (op_UpdateInstanceRuntime now o u) eq_refl)))))) as Hwf1.
  rewrite Hok in H. destruct H as (r & Hr & _ & Hd1). rewrite Hd1 in *. cbn zeta.
  set (d1 := set_instances _ d) in *.
  assert (Hstale : ¬ ∃ d', runtime_written now' o u' d1 d').
  { intros (d' & r1 & Hr1 & Hs & _). unfold d1 in Hr1. simpl in Hr1.
    rewrite lookup_insert_eq in Hr1. injection Hr1 as <-.
    unfold still_observed in Hs. row_tests. destruct r as [[] ?]. by apply Hne. }
  pose proof (UpdateInstanceRuntime_spec now' o u' d1 Hwf1 fs') as H.
  destruct (UpdateInstanceRuntime now' o u' fs' d1) as [[[a|e|] d2] fs2]; simpl in *.
  - destruct Hstale. by exists d2.
  - by split.
  - split; [done|]. destruct H as [H|H]; [done|]. destruct Hstale. by exists d2.
Qed.

Lemma runtime_update_race_witness :
  let d1 := (UpdateInstanceRuntime t0 demo_instance demo_stopped [] demo_db).1.2 in
  (UpdateInstanceRuntime t0 demo_instance demo_instance [] d1).1.1 ≠ Ok tt ∧
  (UpdateInstanceRuntime t0 demo_instance demo_instance [] d1).1.2 = d1.
Proof.
  apply (runtime_update_race t0 demo_instance demo_stopped t0 demo_instance demo_db [] []).
  - apply demo_db_wf.
  - by vm_compute.
  - vm_compute. reflexivity.
Defined.

(** ** The retention clock *)

Lemma assign_columns_Name i i' : Name (assign_columns i i') = Name i'.
Proof. done. Qed.

(** A successful [UpdateInstance] replaced the one row of that name. *)
Lemma UpdateInstance_run now inst d k r :
  wf d → instances d !! k = Some r → row_Name r = Name inst →
  KindName inst = KindVM ∨ KindName inst = KindOrb →
  run (UpdateInstance now inst) d =
    (Ok tt, set_instances
       (<[k := stopped_update (assign_columns (columns now (normalizeInstanceMemory inst))) r]>
          (instances d)) d).
Proof.
  intros Hwf Hk Hn Hkind. destruct (normalize_fields inst) as (_ & HName & HKind & _).
  pose proof (named_point d k r Hwf Hk) as Hpoint. rewrite Hn in Hpoint.
  unfold run, UpdateInstance, UPDATE_instances, UPDATE, mbind, M_bind, env. rewrite HName.
  cbn [tget tset Instances].
  assert (exists_where (λ r', named (Name inst) r' && negb (tcheck Instances
    (stopped_update (assign_columns (columns now (normalizeInstanceMemory inst))) r')))
    (instances d) = false) as ->.
  { destruct (exists_where _ (instances d)) eqn:He; [|done].
    apply exists_where_spec in He as (k' & r' & _ & Hbad).
    apply andb_true_iff in Hbad as [_ Hbad]. simpl in Hbad. rewrite HKind in Hbad.
    by destruct Hkind as [Hk'|Hk']; rewrite Hk' in Hbad. }
  rewrite (update_where_point _ _ _ k Hpoint), Hk. unfold named.
  by rewrite Hn, String.eqb_refl.
Qed.

(** The row an update leaves, as far as the clock depends on it. *)
Definition updated_row (now : time) (i : Instance) (r : instance_row) : instance_row :=
  stopped_update (assign_columns (columns now (normalizeInstanceMemory i))) r.

Lemma updated_row_fields now i r :
  let r' := updated_row now i r in
  row_Name r' = row_Name r ∧ row_State r' = State i ∧
  FirecrackerPID (in_cols r') = FirecrackerPID i ∧
  DeletedAt (in_cols r') = nullableTime now (DeletedAt i) ∧
  in_stopped_since r' =
    if String.eqb (row_State r) (State i) then in_stopped_since r
    else if String.eqb (State i) StateStopped then Some (timeString now (UpdatedAt i)) else None.
Proof.
  unfold updated_row. destruct (normalize_cases i) as [-> | ->]; by destruct i.
Qed.

Lemma parse_timeString_outcome now t :
  valid_time now → valid_time t → of_result (parseTime (timeString now t)) = Ok (or_now now t).
Proof. intros. by rewrite parse_timeString. Qed.

Lemma StoppedSince_row d k r v :
  wf d → instances d !! k = Some r → row_State r = StateStopped →
  FirecrackerPID (in_cols r) = 0 → DeletedAt (in_cols r) = None → in_stopped_since r = Some v →
  run (StoppedSince k) d = (of_result (parseTime v), d).
Proof.
  intros Hwf Hk Hst Hpid Hdel Hv. pose proof (wf_instances d Hwf k r Hk) as HID. simpl in HID.
  unfold run, StoppedSince, try, SELECT, query, mbind, M_bind, env. cbn [tget Instances].
  rewrite (select_row_point _ _ k).
  - rewrite Hk, HID, Hst, Hpid, Hdel, !String.eqb_refl. cbn. rewrite Hv. by destruct (parseTime v).
  - intros k' r' Hk' Hp. row_tests. rewrite <- (wf_instances d Hwf k' r' Hk'). done.
Qed.

(** An update that leaves the instance stopped, without a process or a deletion. *)
Definition stops (i : Instance) : Prop :=
  State i = StateStopped ∧ FirecrackerPID i = 0 ∧ DeletedAt i = None ∧
  (KindName i = KindVM ∨ KindName i = KindOrb).

(** The retention period of a stopped instance starts when it stopped: an update
    that stops a running instance sets the clock to its own timestamp, and later
    updates of the stopped instance (a metadata change, a repeated stop) leave the
    clock alone, whatever timestamp they carry. *)
Theorem retention_clock_starts_once now inst now' inst' d k r :
  wf d → instances d !! k = Some r → row_Name r = Name inst → Name inst' = Name inst →
  row_State r ≠ StateStopped → stops inst → stops inst' →
  valid_time now → valid_time (UpdatedAt inst) →
  let d1 := (run (UpdateInstance now inst) d).2 in
  let d2 := (run (UpdateInstance now' inst') d1).2 in
  (run (StoppedSince k) d1).1 = Ok (or_now now (UpdatedAt inst)) ∧
  (run (StoppedSince k) d2).1 = Ok (or_now now (UpdatedAt inst)).
Proof.
  intros Hwf Hk Hn Hn' Hst (Hs1 & Hp1 & Hd1 & Hk1) (Hs2 & Hp2 & Hd2 & Hk2) Hnow Hu.
  pose proof (run_wf _ d (op_UpdateInstance now inst) Hwf) as Hwf1.
  pose proof (run_wf _ _ (op_UpdateInstance now' inst') Hwf1) as Hwf2. revert Hwf1 Hwf2.
  rewrite (UpdateInstance_run now inst d k r) by done. cbn [snd].
  fold (updated_row now inst r). destruct (updated_row_fields now inst r) as (E1 & E2 & E3 & E4 & E5).
  set (r1 := updated_row now inst r) in *. set (d1 := set_instances _ d). intros Hwf1.
  assert (Hr1 : instances d1 !! k = Some r1) by apply lookup_insert_eq.
  rewrite (UpdateInstance_run now' inst' d1 k r1) by (done || congruence). cbn [snd].
  fold (updated_row now' inst' r1).
  destruct (updated_row_fields now' inst' r1) as (F1 & F2 & F3 & F4 & F5).
  set (r2 := updated_row now' inst' r1) in *. set (d2 := set_instances _ d1). intros Hwf2.
  assert (Hr2 : instances d2 !! k = Some r2) by apply lookup_insert_eq.
  apply String.eqb_neq in Hst. rewrite Hs1, Hst, String.eqb_refl in E5.
  rewrite E2, Hs1, Hs2, String.eqb_refl, E5 in F5. rewrite Hd1 in E4. rewrite Hd2 in F4.
  rewrite <- (parse_timeString_outcome now (UpdatedAt inst)) by done.
  split; erewrite StoppedSince_row; done || congruence.
Qed.

Lemma retention_clock_starts_once_witness :
  let again := set_UpdatedAt (t0 + 77) demo_stopped in
  let d1 := (run (UpdateInstance t0 demo_stopped) demo_db).2 in
  let d2 := (run (UpdateInstance t0 again) d1).2 in
  (run (StoppedSince "id-1") d1).1 = Ok (t0 + 5) ∧ (run (StoppedSince "id-1") d2).1 = Ok (t0 + 5).
Proof.
  destruct (instances demo_db !! "id-1") as [r|] eqn:Hr; [|by vm_compute in Hr].
  assert (Hs : row_State r = StateReady ∧ row_Name r = "demo")
    by (vm_compute in Hr; injection Hr as <-; by split).
  refine (retention_clock_starts_once t0 demo_stopped t0 (set_UpdatedAt (t0 + 77) demo_stopped)
            demo_db "id-1" r demo_db_wf Hr _ eq_refl _ _ _ _ _).
  - apply Hs.
  - destruct Hs as [-> _]. discriminate.
  - repeat split. by left.
  - repeat split. by left.
  - split; by vm_compute.
  - split; by vm_compute.
Defined.

(** ** Deletion *)

Lemma scan_ID c i : scanInstance c = inl i → ID i = ID c.
Proof.
  unfold scanInstance. destruct (parseTime (CreatedAt c)); [|done].
  destruct (parseTime (UpdatedAt c)); [|done]. cbn [mbind result_bind].
  fold (scan_deleted (DeletedAt c)). destruct (scan_deleted (DeletedAt c)); [|done].
  cbn [mbind result_bind mret result_ret]. intros [= <-]. apply normalize_fields.
Qed.

Lemma FindInstance_spec name d :
  wp (FindInstance name) (λ o d', d' = d ∧
    match o with
    | Ok None => ∀ k r, instances d !! k = Some r → row_Name r ≠ name
    | Ok (Some i) => ∃ k r, instances d !! k = Some r ∧ row_Name r = name ∧ ID i = row_ID r
    | _ => True
    end) d.
Proof.
  unfold FindInstance, GetInstance. apply wp_bind, wp_try, wp_bind, wp_query; [done|done|].
  cbn [tget Instances]. destruct (select_row (named name) (instances d)) as [r|e] eqn:Hsel; simpl.
  - apply select_row_Some in Hsel as (k & Hk & Hn). apply String.eqb_eq in Hn.
    apply wp_lift. destruct (scanInstance (in_cols r)) as [i|e] eqn:Hscan; simpl.
    + apply scan_ID in Hscan. apply wp_ret. split; [done|]. by exists k, r.
    + assert (e ≠ ErrNoRows) as He.
      { intros ->. revert Hscan. unfold scanInstance, parseTime.
        repeat (case_match; simpl; try done). }
      destruct e; try (by apply wp_throw). done.
  - rewrite (select_row_error _ _ _ Hsel). apply wp_ret. split; [done|]. intros k r Hk Hn.
    pose proof (select_row_none _ _ _ Hsel k r Hk) as Hf. unfold named in Hf.
    by rewrite Hn, String.eqb_refl in Hf.
Qed.

(** The rows that belong to an instance. *)
Definition no_trace (id : string) (d : DB) : Prop :=
  instances d !! id = None ∧ migrations d !! id = None ∧ import_receipts d !! id = None ∧
  Forall (λ e, ev_InstanceID e ≠ id) (instance_events d) ∧
  map_Forall (λ _ b, ib_InstanceID b ≠ id) (instance_integrations d).

Definition same_trace (id : string) (d d' : DB) : Prop :=
  instances d' !! id = instances d !! id ∧ migrations d' !! id = migrations d !! id ∧
  import_receipts d' !! id = import_receipts d !! id ∧
  filter (λ e, ev_InstanceID e = id) (instance_events d') =
    filter (λ e, ev_InstanceID e = id) (instance_events d) ∧
  ∀ j, instance_integrations d' !! (id, j) = instance_integrations d !! (id, j).

(** The history that outlives the instance. *)
Definition same_history (d d' : DB) : Prop :=
  lifecycle_requests d' = lifecycle_requests d ∧ cleanup_receipts d' = cleanup_receipts d ∧
  cleanup_fences d' = cleanup_fences d ∧ orb_bootstrap d' = orb_bootstrap d ∧
  enrollment_keys d' = enrollment_keys d ∧ commands d' = commands d ∧
  authz_decisions d' = authz_decisions d.

Definition purged (id : string) (d d' : DB) : Prop :=
  no_trace id d' ∧ (∀ id', id' ≠ id → same_trace id' d d') ∧ same_history d d'.

(** The row that a creation writes. *)
Definition created_row (now : time) (inst : Instance) : instance_row := stopped_insert (columns now (normalizeInstanceMemory inst)).

Lemma CreateInstance_wp now inst d :
  wp (CreateInstance now inst) (λ o d',
    (memory_pools d' = memory_pools d ∧ memory_pool_resizes d' = memory_pool_resizes d) ∧
    ((instances d' = instances d ∧ o ≠ Ok tt) ∨
     (instances d !! ID inst = None ∧ instances d' = <[ID inst := created_row now inst]> (instances d)))) d.
Proof.
  unfold CreateInstance. apply wp_tx; [by split; [|left]..|]. change (stopped_insert _) with (created_row now inst).
  assert (Hid : row_ID (created_row now inst) = ID inst) by apply (normalize_fields inst).
  apply wp_bind, wp_INSERT_fresh; [by split; [|left]|done|by split; [|left]|]. intros Hnew _. split; [|done].
  change (instances d !! row_ID (created_row now inst) = None) in Hnew. rewrite Hid in Hnew.
  assert (Hins : instances (insert_row Instances (created_row now inst) d) = <[ID inst := created_row now inst]> (instances d))
    by (by rewrite <- Hid).
  destruct (String.eqb _ _); [|by apply wp_ret; split; (split; [|right])].
  set (d1 := insert_row Instances _ d) in *. apply wp_bind. set (boot := mkBootstrapRow _ _ _).
  apply wp_env; [by split; [|left]|done| |]; cbn beta; (destruct (violates OrbBootstrap boot d1); [done || by split; [|left]|]);
    destruct (tget OrbBootstrap d1 !! tkey OrbBootstrap boot); cbn [of_result fst snd];
    try done; try apply wp_ret; try (split; (split; [done|by right])).
Qed.

(** The deletions [DeleteInstance] makes, for the instance [id] named [name]. *)
Definition delete_effect (name id : string) (d : DB) : DB :=
  set_instances (delete_where (named name) (instances d))
    (set_import_receipts (delete_where (λ r, String.eqb (ir_InstanceID r) id) (import_receipts d))
       (set_migrations (delete_where (λ m, String.eqb (mg_InstanceID m) id) (migrations d))
          (set_instance_events (filter (λ e, ev_InstanceID e ≠ id) (instance_events d))
             (set_instance_integrations
                (delete_where (λ b, String.eqb (ib_InstanceID b) id) (instance_integrations d))
                d)))).

Lemma filter_events_kept (id id' : string) (l : list (InstanceEventOf string)) :
  id' ≠ id →
  filter (λ e, ev_InstanceID e = id') (filter (λ e, ev_InstanceID e ≠ id) l) =
  filter (λ e, ev_InstanceID e = id') l.
Proof.
  intros Hne. apply list_filter_filter_l. by intros e ->.
Qed.

Lemma lookup_delete_where_ne {K R} `{Countable K} (p : R → bool) (t : gmap K R) k :
  (∀ r, t !! k = Some r → p r = false) → delete_where p t !! k = t !! k.
Proof.
  intros Hp. apply option_eq. intros r. rewrite lookup_delete_where. split; [by intros []|auto].
Qed.

Lemma delete_where_gone {K R} `{Countable K} (p : R → bool) (t : gmap K R) k :
  (∀ r, t !! k = Some r → p r = true) → delete_where p t !! k = None.
Proof.
  intros Hp. destruct (delete_where p t !! k) as [r|] eqn:Hk; [|done].
  apply lookup_delete_where in Hk as [Hk Hf]. by rewrite Hp in Hf.
Qed.

Lemma delete_effect_purged name id r d :
  wf d → instances d !! id = Some r → row_Name r = name → purged id d (delete_effect name id d).
Proof.
  intros Hwf Hr <-. pose proof (named_point d id r Hwf Hr) as Hpoint.
  split; [|split; [|done]].
  - split; [|split; [|split; [|split]]]; simpl.
    + apply delete_where_gone. intros r' Hr'. rewrite Hr in Hr'. injection Hr' as <-.
      apply String.eqb_refl.
    + apply delete_where_gone. intros m Hm. apply String.eqb_eq, (wf_migrations d Hwf id m Hm).
    + apply delete_where_gone. intros m Hm. apply String.eqb_eq, (wf_import d Hwf id m Hm).
    + apply list.Forall_forall. intros e He. by apply list_elem_of_filter in He as [He _].
    + intros k b [_ Hb]%lookup_delete_where. by apply String.eqb_neq.
  - intros id' Hne. split; [|split; [|split; [|split]]]; simpl.
    + apply lookup_delete_where_ne. intros r' Hr'. destruct (named _ r') eqn:Hn; [|done].
      by pose proof (Hpoint _ _ Hr' Hn).
    + apply lookup_delete_where_ne. intros m Hm. apply String.eqb_neq.
      by rewrite (wf_migrations d Hwf id' m Hm : mg_InstanceID m = id').
    + apply lookup_delete_where_ne. intros m Hm. apply String.eqb_neq.
      by rewrite (wf_import d Hwf id' m Hm : ir_InstanceID m = id').
    + by apply filter_events_kept.
    + intros j. apply lookup_delete_where_ne. intros b Hb. apply String.eqb_neq.
      pose proof (wf_bindings d Hwf _ b Hb) as Hkey. simpl in Hkey. by injection Hkey as -> _.
Qed.

Lemma DeleteInstance_spec name d :
  wf d →
  wp (DeleteInstance name) (λ o d',
    let deleted := ∃ id r, instances d !! id = Some r ∧ row_Name r = name ∧ purged id d d' in
    match o with
    | Ok _ => (d' = d ∧ ∀ k r, instances d !! k = Some r → row_Name r ≠ name) ∨ deleted
    | Err _ => d' = d
    | Crashed => d' = d ∨ deleted
    end) d.
Proof.
  intros Hwf. unfold DeleteInstance. apply wp_bind.
  eapply wp_mono; [apply FindInstance_spec|]. intros [found|e|] d' [-> Hfound]; [|done|by left].
  destruct found as [inst|]; [|apply wp_ret; by left].
  destruct Hfound as (id & r & Hr & Hn & Hid). pose proof (wf_instances d Hwf id r Hr) as HID.
  simpl in HID. rewrite HID in Hid. rewrite Hid.
  apply wp_tx; [done|by left|].
  do 5 (apply wp_bind, wp_env; [done|done| |done]; cbn [fst snd of_result tget tset]).
  apply wp_ret.
  assert (purged id d (delete_effect name id d)) by (by eapply delete_effect_purged).
  split; right; by exists id, r.
Qed.

(** [DeleteInstance] removes an instance with all that belongs to it (its record,
    events, integration bindings and journals) or nothing; other instances, the
    command requests, the cleanup receipts and the audit logs are untouched. *)
Theorem delete_instance_atomic name d :
  wf d →
  wp (DeleteInstance name) (λ o d',
    let deleted := ∃ id r, instances d !! id = Some r ∧ row_Name r = name ∧ purged id d d' in
    match o with
    | Ok _ => (d' = d ∧ ∀ k r, instances d !! k = Some r → row_Name r ≠ name) ∨ deleted
    | Err _ => d' = d
    | Crashed => d' = d ∨ deleted
    end) d.
Proof. apply DeleteInstance_spec. Qed.

Lemma delete_instance_atomic_witness :
  match DeleteInstance "demo" [Pass; Pass; Pass; CrashAfter] demo_db with
  | (Crashed, d', _) => d' = demo_db ∨
      ∃ id r, instances demo_db !! id = Some r ∧ row_Name r = "demo" ∧ purged id demo_db d'
  | _ => False
  end.
Proof.
  pose proof (delete_instance_atomic "demo" demo_db demo_db_wf [Pass; Pass; Pass; CrashAfter]) as H.
  assert (Ho : (DeleteInstance "demo" [Pass; Pass; Pass; CrashAfter] demo_db).1.1 = Crashed)
    by (vm_compute; reflexivity).
  destruct (DeleteInstance _ _ _) as [[o d'] fs']. cbn [fst snd] in *. rewrite Ho in *. exact H.
Defined.

(** ** Listing *)

Lemma scan_all_spec {A B} (scan : A → result B) l bs :
  scan_all scan l = inl bs → Forall2 (λ a b, scan a = inl b) l bs.
Proof.
  revert bs. induction l as [|a l IH]; intros bs; simpl; [intros [= <-]; constructor|].
  destruct (scan a) as [b|e] eqn:Ha; cbn [mbind result_bind]; [|done].
  destruct (scan_all scan l) as [bs'|e]; cbn [mbind result_bind mret result_ret]; [|done].
  intros [= <-]. constructor; [done|]. by apply IH.
Qed.

Definition listed (includeDeleted : bool) (r : instance_row) : bool :=
  includeDeleted || negb (String.eqb (row_State r) StateDeleted).

Lemma scanned_IDs l bs :
  Forall2 (λ r i, scanInstance (in_cols r) = inl i) l bs → ID <$> bs = row_ID <$> l.
Proof.
  induction 1 as [|r i l bs Hri _ IH]; [done|]. cbn. f_equal; [|exact IH]. by apply scan_ID.
Qed.

Lemma listed_rows_NoDup p d :
  wf d → NoDup (row_ID <$> (map_to_list (rows_where p (instances d))).*2).
Proof.
  intros Hwf.
  assert (row_ID <$> (map_to_list (rows_where p (instances d))).*2 =
          (map_to_list (rows_where p (instances d))).*1) as ->;
    [|apply NoDup_fst_map_to_list].
  rewrite <- list_fmap_compose. apply list_fmap_ext. intros n [k r] Hn.
  apply list_elem_of_lookup_2, elem_of_map_to_list, lookup_rows_where in Hn as [Hk _].
  simpl. by apply (wf_instances d Hwf k r).
Qed.

(** [ListInstances] returns every recorded instance exactly once (the deleted ones
    only on demand), each as its own row reads back. *)
Theorem list_instances_complete includeDeleted d l :
  wf d → (run (ListInstances includeDeleted) d).1 = Ok l →
  NoDup (ID <$> l) ∧
  ∀ i, i ∈ l ↔ ∃ k r, instances d !! k = Some r ∧ listed includeDeleted r = true ∧
                      scanInstance (in_cols r) = inl i.
Proof.
  intros Hwf. unfold run, ListInstances, SELECT_ALL, query, mbind, M_bind.
  cbn [env tget Instances of_result fst snd].
  fold (listed includeDeleted). change (map snd ?x) with (snd <$> x).
  set (rows := (map_to_list _).*2). set (sorted := merge_sort _ rows).
  assert (Hperm : sorted ≡ₚ rows) by apply merge_sort_Permutation.
  destruct (scan_all _ sorted) as [bs|e] eqn:Hscan; cbn [lift]; [|done].
  intros [= ->]. apply scan_all_spec in Hscan. split.
  - rewrite (scanned_IDs _ _ Hscan), Hperm. by apply listed_rows_NoDup.
  - intros i. split.
    + intros (n & Hn)%list_elem_of_lookup.
      destruct (Forall2_lookup_r _ _ _ _ _ Hscan Hn) as (r & Hr & Hri).
      apply list_elem_of_lookup_2 in Hr. rewrite Hperm in Hr.
      apply list_elem_of_fmap in Hr as ([k r'] & -> & Hkr).
      apply elem_of_map_to_list, lookup_rows_where in Hkr as [Hk Hp]. by exists k, r'.
    + intros (k & r & Hk & Hp & Hri).
      assert (r ∈ sorted) as Hin.
      { rewrite Hperm. apply list_elem_of_fmap. exists (k, r). split; [done|].
        by apply elem_of_map_to_list, lookup_rows_where. }
      apply list_elem_of_lookup in Hin as (n & Hn).
      destruct (Forall2_lookup_l _ _ _ _ _ Hscan Hn) as (i' & Hi' & Hri').
      apply list_elem_of_lookup_2 in Hi'. congruence.
Qed.

Lemma list_instances_complete_witness :
  NoDup (ID <$> [stored t0 demo_instance]).
Proof.
  apply (list_instances_complete false demo_db); [apply demo_db_wf|]. vm_compute. reflexivity.
Defined.

(** An instance created half a second after [demo_instance]. *)
Definition late_instance : Instance :=
  mkInstance "id-2" "late" "vm" "" StateReady (t0 + 500000000) "alice@example.com" "laptop" 2 1024
    "fixed" "" 0 "/srv/rootfs2.img" "/srv/vmlinux" "" "/run/fc2.sock" "/log2" "/serial2" "tap1"
    "mac2" "172.28.0.4/30" "172.28.0.5" "172.28.0.6" "172.28.0.5" 42 "start-2" "boot-2" "" "" ""
    "" None t0.

(** [ORDER BY created_at] compares the texts, in which a whole second ("...20Z")
    sorts after its fractions ("...20.5Z"): an instance created later in that second
    is listed first. *)
Theorem list_order_not_chronological :
  let d := (run (CreateInstance t0 late_instance) demo_db).2 in
  match (run (ListInstances false) d).1 with
  | Ok [first; second] => CreatedAt second < CreatedAt first
  | _ => False
  end.
Proof. vm_compute. reflexivity. Qed.
