(* ===== verification/JournalSpec.v ===== *)
(** * Journals, generations and pool resizes

    What the transactions of migration.go and the pool operations of sqlite.go
    promise, and the effect of a daemon restart on pending requests. *)
From S2P Require Import Prelude GoStrings Timestamps Model Sql StoreDB StoreRequests StoreInstances.
From S2P Require Import StoreCleanup StoreMigration StorePools StoreTrace StoreDemo.
From stdpp Require Import relations.

#[local] Open Scope Z_scope.

(** ** Import journals *)

(** [ReserveImportReceipt] never writes the journal of an instance that is already
    visible; when it reports success, the journal entry is the caller's and
    nothing else changed. *)
Theorem reserve_import_guarded r d :
  wf d →
  wp (ReserveImportReceipt r) (λ o d',
    match o with
    | Ok _ => instances d !! ir_InstanceID r = None ∧ d' = insert_row ImportReceipts r d
    | Err _ => d' = d
    | Crashed => d' = d ∨
        (instances d !! ir_InstanceID r = None ∧ d' = insert_row ImportReceipts r d)
    end) d.
Proof.
  intros Hwf. unfold ReserveImportReceipt, INSERT_unless_instance. apply wp_bind.
  destruct (exists_where (id_is (ir_InstanceID r)) (instances d)) eqn:He.
  - apply wp_env; rewrite ?He; simpl; [done|by left|by apply wp_throw|by left].
  - assert (instances d !! ir_InstanceID r = None) as Hnone.
    { destruct (instances d !! ir_InstanceID r) as [row|] eqn:Hrow; [|done].
      assert (exists_where (id_is (ir_InstanceID r)) (instances d) = true) as Hc; [|congruence].
      apply exists_where_spec. exists (ir_InstanceID r), row. split; [done|].
      apply String.eqb_eq, (wf_instances d Hwf _ _ Hrow). }
    apply wp_env; rewrite ?He; simpl; [done|by left|by apply wp_ret|by right].
Qed.

Lemma reserve_import_guarded_witness :
  (ReserveImportReceipt (demo_import "importing") [] demo_db).1.1 ≠ Ok tt.
Proof.
  assert (Hwf : wf demo_db) by (apply run_wf; [apply op_CreateInstance|apply wf_empty]).
  pose proof (reserve_import_guarded (demo_import "importing") demo_db Hwf []) as H.
  destruct (ReserveImportReceipt _ _ _) as [[o d'] fs']. simpl in *. intros ->.
  destruct H as [H _]. by vm_compute in H.
Defined.

(** The destination became a stopped instance and its journal says so. *)
Definition import_finalized (now : time) (id : string) (updatedAt : time) (d d' : DB) : Prop :=
  ∃ row r,
    instances d !! id = Some row ∧ row_State row = StateProvisioning ∧
    import_receipts d !! id = Some r ∧ ir_Phase r = "importing" ∧
    d' = set_import_receipts (<[id := imported r]> (import_receipts d))
           (set_instances (<[id := stopped_update (finalized now updatedAt) row]> (instances d)) d).

(** [FinalizeImport] releases the start fence of the destination exactly together
    with recording the journal entry as imported, and only for a provisioning
    instance with an open journal entry. *)
Theorem finalize_import_atomic now id updatedAt d :
  wf d →
  wp (FinalizeImport now id updatedAt) (λ o d',
    match o with
    | Ok _ => import_finalized now id updatedAt d d'
    | Err _ => d' = d
    | Crashed => d' = d ∨ import_finalized now id updatedAt d d'
    end) d.
Proof.
  intros Hwf. unfold FinalizeImport. apply wp_tx; [done|by left|].
  apply wp_bind. eapply (wp_UPDATE_instance _ _ id); [|done|by intros []|done..| |].
  { unfold id_is. intros row Hrow. by row_tests. }
  2: { split; [|done]. by apply wp_bind, wp_require. }
  intros row Hrow Hp. split; [|done]. apply wp_bind, wp_require; [|done]. intros _.
  apply wp_bind. eapply (wp_UPDATE_point ImportReceipts _ _ id);
    [|apply Hwf|done|by intros k r _|done|done| |].
  { intros r Hr. by row_tests. }
  2: { split; [|done]. by apply wp_require. }
  intros r Hr Hq. row_tests. split; [|done]. apply wp_require; [|done]. intros _.
  assert (import_finalized now id updatedAt d
    (set_import_receipts (<[id := imported r]> (import_receipts d))
       (set_instances (<[id := stopped_update (finalized now updatedAt) row]> (instances d)) d)))
    by (exists row, r; by repeat split).
  split; [done|by right].
Qed.

(** A host that is importing an instance. *)
Definition importing_db : DB :=
  (run (CreateInstance t0 (set_State StateProvisioning demo_instance);;
        PutImportReceipt (demo_import "importing")) empty_DB).2.

Lemma importing_wf : wf importing_db.
Proof.
  unfold importing_db. eapply (later_wf (run (CreateInstance t0 (set_State StateProvisioning
    demo_instance)) empty_DB).2).
  - apply run_wf; [apply op_CreateInstance|apply wf_empty].
  - apply rtc_once. eexists _, _, []. split; [apply op_PutImportReceipt|reflexivity].
Qed.

Lemma finalize_import_atomic_witness :
  import_finalized t0 "id-1" t0 importing_db (FinalizeImport t0 "id-1" t0 [] importing_db).1.2.
Proof.
  pose proof (finalize_import_atomic t0 "id-1" t0 importing_db importing_wf []) as H.
  assert (Ho : (FinalizeImport t0 "id-1" t0 [] importing_db).1.1 = Ok tt)
    by (vm_compute; reflexivity).
  destruct (FinalizeImport _ _ _ _ _) as [[o d'] fs']. cbn [fst snd] in *. by rewrite Ho in H.
Defined.

(** ** Bootstrap generations *)

Lemma AdmitBootstrap_spec now r i c g d :
  wf d →
  wp (AdmitBootstrap now r i c g) (λ o d', o = Ok tt →
    ∃ b, orb_bootstrap d !! i = Some b ∧ ob_created_at b = timeString now c ∧
         ob_generation b < g ∧ orb_bootstrap d' !! i = Some (set_generation g b) ∧
         lifecycle_requests d !! lr_ID r = None ∧
         lifecycle_requests d' !! lr_ID r = Some (new_request r "executing" now)) d.
Proof.
  intros Hwf. unfold AdmitBootstrap. wp_step; [by apply wp_throw|].
  apply wp_tx; [done|done|]. apply wp_bind.
  eapply (wp_UPDATE_point OrbBootstrap _ _ i);
    [|apply Hwf|done|by intros k b _|done|done| |].
  { intros b Hb. by row_tests. }
  2: { split; [|done]. by apply wp_throw. }
  intros b Hb Hp. row_tests. apply Z.ltb_lt in H0. split; [|done]. simpl.
  apply wp_INSERT_fresh; [done..|]. intros Hnew _. split; [|done]. split; [|done].
  intros _. exists b. repeat split; try done; apply lookup_insert_eq.
Qed.

(** Guest bootstraps are admitted with strictly increasing generations: whatever
    happened in between, a generation admitted later for the same instance is
    greater, so a replayed or reordered bootstrap is refused. *)
Theorem bootstrap_generations_increase now r i c g fs d d' now' r' c' g' fs' :
  wf d → (AdmitBootstrap now r i c g fs d).1.1 = Ok tt →
  later (AdmitBootstrap now r i c g fs d).1.2 d' →
  (AdmitBootstrap now' r' i c' g' fs' d').1.1 = Ok tt → g < g'.
Proof.
  intros Hwf Hok Hl Hok'.
  assert (Hwf' : wf d').
  { eapply later_wf; [|exact Hl]. eapply later_wf; [done|]. apply rtc_once.
    by eexists _, _, fs; split; [apply op_AdmitBootstrap|]. }
  destruct (AdmitBootstrap_spec now r i c g d Hwf fs Hok) as (b & _ & _ & _ & Hb & _).
  destruct (AdmitBootstrap_spec now' r' i c' g' d' Hwf' fs' Hok') as (b' & Hb' & _ & Hlt & _).
  destruct (later_within generations_up op_generations _ _ Hl i _ Hb) as (b1 & Hb1 & _ & Hge).
  simplify_eq. simpl in Hge. lia.
Qed.

Definition demo_orb : Instance :=
  mkInstance "id-1" "demo" KindOrb "arch" StateReady t0 "alice@example.com" "laptop" 2 1024 "fixed"
    "" 0 "/srv/rootfs.img" "/srv/vmlinux" "" "/run/fc.sock" "/log" "/serial" "tap0" "mac"
    "172.28.0.0/30" "172.28.0.1" "172.28.0.2" "172.28.0.1" 41 "start-1" "boot-1" "" "" "" ""
    None t0.

Definition orb_db : DB :=
  (run (CreateInstance t0 (demo_orb)) empty_DB).2.

Definition bootstrap_request (id : string) : LifecycleRequest :=
  mkLifecycleRequest id "guest" "bootstrap" "demo" "[]" "" 0.

Lemma bootstrap_generations_increase_witness :
  let d1 := (AdmitBootstrap t0 (bootstrap_request "b1") "id-1" t0 1 [] orb_db).1.2 in
  (AdmitBootstrap t0 (bootstrap_request "b2") "id-1" t0 3 [] d1).1.1 = Ok tt ∧ 1 < 3.
Proof.
  split; [vm_compute; reflexivity|].
  eapply (bootstrap_generations_increase t0 (bootstrap_request "b1") "id-1" t0 1 [] orb_db _
            t0 (bootstrap_request "b2") t0 3 []); [|vm_compute; reflexivity|apply rtc_refl|].
  - apply run_wf; [apply op_CreateInstance|apply wf_empty].
  - vm_compute. reflexivity.
Defined.

(** ** Restarts *)

(** When the daemon starts, no request is left admitted or executing: those that
    never began are cancelled and those that did are interrupted; every other
    request, and everything else, is as it was. *)
Theorem interrupt_settles d :
  wp InterruptLifecycleRequests (λ o d', o = Ok tt →
    (∀ id r', lifecycle_requests d' !! id = Some r' →
       in_phase "admitted" r' = false ∧ in_phase "executing" r' = false) ∧
    (∀ id r, lifecycle_requests d !! id = Some r →
       lifecycle_requests d' !! id = Some
         (if in_phase "admitted" r then set_phase "cancelled" r
          else if in_phase "executing" r then set_phase "interrupted" r else r)) ∧
    d' = set_lifecycle_requests (lifecycle_requests d') d) d.
Proof.
  unfold InterruptLifecycleRequests, UPDATE. apply wp_bind, wp_env; cbn [fst snd tget tset Requests].
  1,2: done.
  all: destruct (exists_where _ _); cbn [of_result fst snd]; try done.
  apply wp_ret. intros _. simpl.
  assert (Hnew : ∀ r, (if in_phase "admitted" r || in_phase "executing" r
      then set_phase (if in_phase "admitted" r then "cancelled" else "interrupted") r else r) =
      (if in_phase "admitted" r then set_phase "cancelled" r
       else if in_phase "executing" r then set_phase "interrupted" r else r))
    by (intros r; destruct (in_phase "admitted" r), (in_phase "executing" r); done).
  split; [|split; [|done]].
  - intros id r'. rewrite lookup_update_where.
    destruct (lifecycle_requests d !! id) as [r|]; [|done]. simpl. rewrite Hnew. intros [= <-].
    destruct (in_phase "admitted" r) eqn:Ha; [done|].
    destruct (in_phase "executing" r) eqn:Hx; done.
  - intros id r Hr. by rewrite lookup_update_where, Hr, <- Hnew.
Qed.

Lemma interrupt_settles_witness :
  let d := (run (AdmitLifecycleRequest t0 (demo_request "start")) empty_DB).2 in
  lifecycle_requests (InterruptLifecycleRequests [] d).1.2 !! "req-1" =
    Some (set_phase "cancelled" (new_request (demo_request "start") "admitted" t0)).
Proof.
  intros d. destruct (interrupt_settles d [] eq_refl) as (_ & H & _).
  apply (H "req-1" (new_request (demo_request "start") "admitted" t0)). reflexivity.
Defined.

(** ** Pool resizes *)

Definition resize_pending (id : string) (op : MemoryPoolResize) (d : DB) : Prop :=
  memory_pool_resizes d !! id =
    Some (mkResizeRow id (RequestID op) (SizeBytes op) (Running op)).

Lemma BeginMemoryPoolResize_spec now p op d :
  wf d →
  wp (BeginMemoryPoolResize now p op) (λ o d',
    (o ≠ Ok tt → o ≠ Crashed → d' = d) ∧
    (o = Ok tt → memory_pool_resizes d !! mp_ID p = None ∧ resize_pending (mp_ID p) op d')) d.
Proof.
  intros Hwf. unfold BeginMemoryPoolResize. apply wp_tx; [by split|by split|].
  apply wp_bind, wp_INSERT_fresh; [by split|done|by split|]. intros Hnew _. split; [|done].
  apply wp_bind. eapply (wp_UPDATE_point MemoryPools _ _ (mp_ID p));
    [|apply Hwf|done|by intros k r _|done|done| |].
  { intros r Hr. by row_tests. }
  - intros q Hq _. split; [|done]. apply wp_ret. split; [|by split]. split; [done|].
    intros _. split; [done|]. apply lookup_insert_eq.
  - split; [|done]. apply wp_ret. split; [|by split]. split; [done|].
    intros _. split; [done|]. apply lookup_insert_eq.
Qed.

Lemma CheckMemoryPoolResize_run d id :
  wf d →
  run (CheckMemoryPoolResize id) d =
    (match memory_pool_resizes d !! id with
     | Some r => if nonempty (rz_request_id r)
                 then Err (Errorf "memory pool resize pending; retry pool resize with --size")
                 else Ok tt
     | None => Ok tt
     end, d).
Proof.
  intros Hwf. unfold run, CheckMemoryPoolResize, PendingMemoryPoolResize, try, SELECT, query,
    mbind, M_bind, env. cbn [tget MemoryPoolResizes].
  rewrite (select_row_point _ _ id).
  - destruct (memory_pool_resizes d !! id) as [r|] eqn:Hr; [|done].
    pose proof (wf_resizes d Hwf id r Hr) as Hid. simpl in Hid. rewrite Hid, String.eqb_refl. simpl.
    by destruct (nonempty (rz_request_id r)).
  - intros k r Hk Hp. row_tests. rewrite <- Hp. symmetry. apply (wf_resizes d Hwf k r Hk).
Qed.

Lemma FinishMemoryPoolResize_run now p op d :
  wf d → resize_pending (mp_ID p) op d →
  memory_pool_resizes (run (FinishMemoryPoolResize now p (RequestID op)) d).2 =
    delete (mp_ID p) (memory_pool_resizes d).
Proof.
  intros Hwf Hp. unfold resize_pending in Hp.
  assert (Hrun : memory_pool_resizes (run (FinishMemoryPoolResize now p (RequestID op)) d).2 =
    delete_where (λ r, String.eqb (rz_pool_id r) (mp_ID p) &&
                       String.eqb (rz_request_id r) (RequestID op)) (memory_pool_resizes d)).
  { unfold run, FinishMemoryPoolResize, tx, DELETE, UPDATE, mbind, M_bind. cbn [env tcheck MemoryPools].
    destruct (exists_where _ _) eqn:He; [|done]. exfalso.
    apply exists_where_spec in He as (k & r & _ & Hr). by apply andb_true_iff in Hr as [_ Hr]. }
  rewrite Hrun. edestruct (point_delete MemoryPoolResizes) as [(_ & r & _ & _ & H)|[Ha _]];
    [|apply Hwf|exact H|].
  - intros r Hr. by row_tests.
  - exfalso. rewrite (affected_point _ _ (mp_ID p)) in Ha.
    + cbn [tget MemoryPoolResizes] in Ha. rewrite Hp in Ha. simpl in Ha.
      by rewrite !String.eqb_refl in Ha.
    + intros k r Hk Hr. row_tests. rewrite <- H. symmetry. apply (wf_resizes d Hwf k r Hk).
Qed.

(** A begun resize excludes every other one of the pool, and blocks its
    admissions, until it is finished by its own request; then the pool is free
    again. *)
Theorem pool_resize_exclusive now p op fs d :
  wf d → nonempty (RequestID op) = true →
  (BeginMemoryPoolResize now p op fs d).1.1 = Ok tt →
  let d1 := (BeginMemoryPoolResize now p op fs d).1.2 in
  (∀ now' p' op' fs', mp_ID p' = mp_ID p →
     (BeginMemoryPoolResize now' p' op' fs' d1).1.1 ≠ Ok tt) ∧
  (run (CheckMemoryPoolResize (mp_ID p)) d1).1 =
    Err (Errorf "memory pool resize pending; retry pool resize with --size") ∧
  ∀ now' p', mp_ID p' = mp_ID p →
    (run (CheckMemoryPoolResize (mp_ID p))
       (run (FinishMemoryPoolResize now' p' (RequestID op)) d1).2).1 = Ok tt.
Proof.
  intros Hwf Hid Hok d1.
  assert (Hwf1 : wf d1).
  { eapply later_wf; [done|]. apply rtc_once. eexists _, _, fs.
    by split; [apply op_BeginMemoryPoolResize|]. }
  destruct (BeginMemoryPoolResize_spec now p op d Hwf fs) as [_ H]. destruct (H Hok) as [_ Hp].
  fold d1 in Hp. split; [|split].
  - intros now' p' op' fs' Heq Hok'.
    destruct (BeginMemoryPoolResize_spec now' p' op' d1 Hwf1 fs') as [_ H'].
    destruct (H' Hok') as [Hn _]. unfold resize_pending in Hp. rewrite Heq in Hn. congruence.
  - rewrite CheckMemoryPoolResize_run by done. rewrite Hp. simpl. by rewrite Hid.
  - intros now' p' Heq. rewrite CheckMemoryPoolResize_run.
    + rewrite <- Heq in Hp. rewrite (FinishMemoryPoolResize_run now' p' op d1 Hwf1 Hp), Heq.
      by rewrite lookup_delete_eq.
    + apply run_wf; [apply op_FinishMemoryPoolResize|done].
Qed.

Lemma pool_resize_exclusive_witness :
  let d := (run (CreateMemoryPool t0 demo_pool) empty_DB).2 in
  let op := mkMemoryPoolResize "r-1" 2147483648 true in
  (BeginMemoryPoolResize t0 demo_pool op []
     (BeginMemoryPoolResize t0 demo_pool op [] d).1.2).1.1 ≠ Ok tt.
Proof.
  intros d op. refine (proj1 (pool_resize_exclusive t0 demo_pool op [] d _ eq_refl _) t0 demo_pool
                         op [] eq_refl).
  - apply run_wf; [apply op_CreateMemoryPool|apply wf_empty].
  - vm_compute. reflexivity.
Defined.
