(* ===== verification/NetworkSpec.v ===== *)
(** * What is promised of the networks of instances

    Addresses read back as they are printed; a network is free when it is chosen and lies in
    the network of the machines; what the proof of absence accepts does not mention the
    deleted network; and once the network of an incarnation is finally deleted, no request
    that names the incarnation changes the kernel any more, over power losses. *)
From stdpp Require Import relations pretty.
From S2P Require Import Prelude GoStrings Paths Timestamps Model Sql StoreDB StoreRequests StoreInstances StoreCleanup.
From S2P Require Import StoreMigration StorePools StoreTrace StoreDemo InstanceSpec Network.

#[local] Open Scope Z_scope.

(** ** Addresses *)

Lemma Split_cons a s c : ContainsByte a c = false → Split (a +:+ String c s)%stdpp c = a :: Split s c.
Proof.
  induction a as [|c' a IH]; intros H.
  - change (Split (String c s) c = "" :: Split s c). cbn. by rewrite Ascii.eqb_refl.
  - cbn in H. apply orb_false_iff in H as [Hc H]. rewrite append_cons. cbn. by rewrite Hc, (IH H).
Qed.
Lemma Cut_cons a s c : ContainsByte a c = false → Cut (a +:+ String c s)%stdpp c = (a, s, true).
Proof.
  induction a as [|c' a IH]; intros H.
  - change (Cut (String c s) c = ("", s, true)). cbn. by rewrite Ascii.eqb_refl.
  - cbn in H. apply orb_false_iff in H as [Hc H]. rewrite append_cons. cbn. by rewrite Hc, (IH H).
Qed.
Lemma ContainsByte_append a b c : ContainsByte (a +:+ b)%stdpp c = ContainsByte a c || ContainsByte b c.
Proof. induction a as [|c' a IH]; [done|]. rewrite append_cons. cbn. by rewrite IH, orb_assoc. Qed.

Definition octet_ok (n : Z) : bool :=
  bool_decide (parse_octet (pretty n) = Some n) && negb (ContainsByte (pretty n) ".") && negb (ContainsByte (pretty n) "/").
Lemma octets_ok : forallb octet_ok (seqZ 0 256) = true.
Proof. vm_compute. reflexivity. Qed.
Lemma octet_read n : 0 <= n < 256 →
  parse_octet (pretty n) = Some n ∧ ContainsByte (pretty n) "." = false ∧ ContainsByte (pretty n) "/" = false.
Proof.
  intros Hn. pose proof octets_ok as H. rewrite forallb_forall in H. specialize (H n).
  rewrite <- list_elem_of_In, elem_of_seqZ in H. specialize (H ltac:(lia)). unfold octet_ok in H.
  rewrite !andb_true_iff, !negb_true_iff, bool_decide_eq_true in H. tauto.
Qed.

Lemma IP_String_unfold ip : IP_String ip =
  (pretty ((ip / 2 ^ 24) `mod` 256) +:+ String "." (pretty ((ip / 2 ^ 16) `mod` 256) +:+
   String "." (pretty ((ip / 2 ^ 8) `mod` 256) +:+ String "." (pretty (ip `mod` 256)))))%stdpp.
Proof. reflexivity. Qed.

(** Addresses read back as they are printed. *)
Lemma IP_read ip : 0 <= ip < 2 ^ 32 → ParseIPv4 (IP_String ip) = Some ip ∧ ContainsByte (IP_String ip) "/" = false.
Proof.
  intros Hip.
  destruct (octet_read ((ip / 2 ^ 24) `mod` 256)) as (Ha & Hadot & Haslash); [apply Z.mod_pos_bound; lia|].
  destruct (octet_read ((ip / 2 ^ 16) `mod` 256)) as (Hb & Hbdot & Hbslash); [apply Z.mod_pos_bound; lia|].
  destruct (octet_read ((ip / 2 ^ 8) `mod` 256)) as (Hc & Hcdot & Hcslash); [apply Z.mod_pos_bound; lia|].
  destruct (octet_read (ip `mod` 256)) as (Hd & Hddot & Hdslash); [apply Z.mod_pos_bound; lia|].
  rewrite IP_String_unfold. split.
  - unfold ParseIPv4. rewrite !Split_cons, Split_plain by done. rewrite Ha, Hb, Hc, Hd. cbn. f_equal. dlia.
  - rewrite !ContainsByte_append, Haslash. cbn. rewrite !ContainsByte_append, Hbslash. cbn.
    rewrite !ContainsByte_append, Hcslash. cbn. by rewrite Hdslash.
Qed.

Lemma IP_String_inj a b : 0 <= a < 2 ^ 32 → 0 <= b < 2 ^ 32 → IP_String a = IP_String b → a = b.
Proof. intros Ha Hb H. destruct (IP_read a Ha) as [Ha' _], (IP_read b Hb) as [Hb' _]. congruence. Qed.

(** A network reads back as the block it names. *)
Lemma subnet_read ip : 0 <= ip < 2 ^ 32 → ParsePrefix (subnet_String ip) = Some (ip, 30).
Proof.
  intros Hip. destruct (IP_read ip Hip) as [Hp Hs]. unfold ParsePrefix, ParseCIDR, subnet_String.
  change (IP_String ip +:+ "/30")%stdpp with (IP_String ip +:+ String "/" "30")%stdpp.
  rewrite Cut_cons by done. cbn -[ParseIPv4 IP_String]. by rewrite Hp.
Qed.
Lemma subnet_inj a b : 0 <= a < 2 ^ 32 → 0 <= b < 2 ^ 32 → subnet_String a = subnet_String b → a = b.
Proof. intros Ha Hb H. pose proof (subnet_read a Ha). pose proof (subnet_read b Hb). congruence. Qed.

(** ** The choice of a network *)

Lemma free_block_spec n base offset used o :
  free_block n base offset used = Some o →
  ∃ k, 0 <= k < Z.of_nat n ∧ o = offset + 4 * k ∧ subnet_String (uint32 (base + o)) ∉ used.
Proof.
  revert offset. induction n as [|n IH]; intros offset; cbn [free_block]; [done|]. case_bool_decide as Hin.
  - intros (k & Hk & -> & Hnot)%IH. exists (k + 1). split; [lia|]. split; [lia|done].
  - intros [= <-]. exists 0. split; [lia|]. split; [lia|done].
Qed.
Lemma free_block_none n base offset used k :
  free_block n base offset used = None → 0 <= k < Z.of_nat n → subnet_String (uint32 (base + (offset + 4 * k))) ∈ used.
Proof.
  revert offset k. induction n as [|n IH]; intros offset k; cbn [free_block]; [lia|]. case_bool_decide as Hin; [|done].
  intros Hnone Hk. destruct (Z.eq_dec k 0) as [->|]; [by rewrite Z.mul_0_r, Z.add_0_r|].
  replace (offset + 4 * k) with (offset + 4 + 4 * (k - 1)) by lia. apply IH; [done|lia].
Qed.

(** The machines' network: its address, aligned, and how many addresses it has. *)
Record vm_network (cidr : string) (base size : Z) : Prop := {
  vn_parse : ∃ ones, ParseCIDR cidr = Some (base, ones) ∧ 1 <= ones <= 30 ∧ size = 2 ^ (32 - ones);
  vn_base : 0 <= base ∧ base `mod` size = 0 ∧ base + size <= 2 ^ 32;
}.

(** A block of four addresses of it. *)
Definition own_block (base size ip : Z) : Prop := ip `mod` 4 = 0 ∧ base <= ip ∧ ip + 4 <= base + size.
Definition in_block (ip a : Z) : Prop := ip <= a < ip + 4.

Definition live (r : instance_row) : bool := negb (String.eqb (row_State r) StateDeleted).
Definition row_network (r : instance_row) : string := NetworkCIDR (in_cols r).

(** Every instance that is not deleted has no network or a block of its own. *)
Record networks_ok (base size : Z) (d : DB) : Prop := {
  no_blocks k r : instances d !! k = Some r → live r = true → row_network r ≠ "" →
    ∃ ip, own_block base size ip ∧ row_network r = subnet_String ip;
  no_distinct k k' r r' : instances d !! k = Some r → instances d !! k' = Some r' → live r = true → live r' = true →
    k ≠ k' → row_network r ≠ "" → row_network r ≠ row_network r';
}.

Lemma pow2_4 ones : ones <= 30 → ∃ m, 0 < m ∧ 2 ^ (32 - ones) = 4 * m.
Proof.
  intros H. exists (2 ^ (30 - ones)). split; [apply Z.pow_pos_nonneg; lia|].
  replace (32 - ones) with (2 + (30 - ones)) by lia. rewrite Z.pow_add_r; lia.
Qed.

Lemma vm_network_mult cidr base size : vm_network cidr base size → ∃ m, 0 < m ∧ size = 4 * m ∧ base `mod` 4 = 0 ∧ size < 2 ^ 32.
Proof.
  intros [(ones & _ & Hones & ->) (H0 & Hmod & _)]. destruct (pow2_4 ones) as (m & Hm & Heq); [lia|].
  exists m. split; [done|]. split; [done|]. split.
  - rewrite Heq in Hmod. apply Z.mod_divide in Hmod as [q Hq]; [|lia]. rewrite Hq. apply Z.mod_divide; [lia|]. exists (q * m). lia.
  - apply Z.pow_lt_mono_r; lia.
Qed.

(** Two blocks have an address in common only if they are one. *)
Lemma blocks_disjoint base size ip ip' a : own_block base size ip → own_block base size ip' → in_block ip a → in_block ip' a → ip = ip'.
Proof. unfold own_block, in_block. intros (H & _) (H' & _). dlia. Qed.

(** A list that is returned has read every row. *)
Lemma listed_scans d l k r :
  (run (ListInstances false) d).1 = Ok l → instances d !! k = Some r → live r = true → ∃ i, scanInstance (in_cols r) = inl i.
Proof.
  unfold run, ListInstances, SELECT_ALL, query, mbind, M_bind. cbn [env tget Instances of_result fst snd].
  set (rows := map snd _). set (sorted := merge_sort _ rows).
  assert (Hperm : sorted ≡ₚ rows) by apply merge_sort_Permutation.
  destruct (scan_all _ sorted) as [bs|e] eqn:Hscan; cbn [lift]; [|done]. intros _ Hr Hlive.
  apply scan_all_spec in Hscan. assert (r ∈ sorted) as Hin.
  { rewrite Hperm. apply list_elem_of_fmap. exists (k, r). split; [done|]. by apply elem_of_map_to_list, lookup_rows_where. }
  apply list_elem_of_lookup in Hin as (n & Hn). destruct (Forall2_lookup_l _ _ _ _ _ Hscan Hn) as (i & _ & Hi). by exists i.
Qed.
Lemma normalize_network (i : Instance) : NetworkCIDR (normalizeInstanceMemory i) = NetworkCIDR i.
Proof. destruct (normalize_cases i) as [-> | ->]; by destruct i. Qed.
Lemma scan_network (c : InstanceOf string) (i : Instance) : scanInstance c = inl i → NetworkCIDR i = NetworkCIDR c.
Proof.
  unfold scanInstance. destruct (parseTime (CreatedAt c)); [|done].
  destruct (parseTime (UpdatedAt c)); [|done]. cbn [mbind result_bind].
  fold (scan_deleted (DeletedAt c)). destruct (scan_deleted (DeletedAt c)); [|done].
  cbn [mbind result_bind mret result_ret]. intros [= <-]. by rewrite normalize_network.
Qed.

Lemma ListInstances_wp b d :
  wp (ListInstances b) (λ o d', d' = d ∧ ∀ l, o = Ok l → (run (ListInstances b) d).1 = Ok l) d.
Proof.
  unfold ListInstances, SELECT_ALL, run. apply wp_bind, wp_query; [by split..|]. cbn [of_result].
  apply wp_lift. unfold query, env, mbind, M_bind. cbn. destruct (scan_all _ _); cbn; split; try done; by intros ? [= <-].
Qed.

(** The result of a choice. *)
Record chosen (base size : Z) (d : DB) (network host guest gateway : string) (ip : Z) : Prop := {
  ch_own : own_block base size ip;
  ch_network : network = subnet_String ip;
  ch_host : host = (IP_String (ip + 1) +:+ "/30")%stdpp ∧ gateway = IP_String (ip + 1);
  ch_guest : guest = (IP_String (ip + 2) +:+ "/30")%stdpp;
  ch_free k r : instances d !! k = Some r → live r = true → row_network r ≠ network;
}.

Lemma allocateNetwork_spec cidr base size d :
  wf d → vm_network cidr base size →
  wp (allocateNetwork cidr) (λ o d', d' = d ∧ ∀ n h g gw, o = Ok (n, h, g, gw) → ∃ ip, chosen base size d n h g gw ip) d.
Proof.
  intros Hwf Hvm. destruct (vm_network_mult _ _ _ Hvm) as (m & Hm & Hsz & Hb4 & Hlt).
  destruct Hvm as [(ones & Hparse & Hones & Hsize) (H0 & Hmod & Hend)].
  unfold allocateNetwork. apply wp_bind. eapply wp_mono; [apply ListInstances_wp|].
  intros [l|e|] d' [-> Hl]; [|by split..]. specialize (Hl l eq_refl).
  destruct (list_instances_complete false d l Hwf Hl) as [_ Hcomplete].
  rewrite Hparse, (proj2 (Z.ltb_ge 30 ones)) by lia. cbv zeta. rewrite <- Hsize.
  assert (uint32 size = size) as -> by (unfold uint32; apply Z.mod_small; lia).
  destruct (free_block _ _ _ _) as [off|] eqn:Hfree; [|by apply wp_throw].
  apply free_block_spec in Hfree as (k & Hk & -> & Hnot). rewrite Z2Nat.id in Hk by (apply Z.div_pos; lia).
  assert (Hk4 : 4 * k + 4 <= size) by (rewrite Hsz in *; dlia). cbn [Z.add].
  assert (Hu : ∀ j, 0 <= j < 4 → uint32 (base + (0 + 4 * k) + j) = base + 4 * k + j)
    by (intros j Hj; unfold uint32; rewrite Z.mod_small; lia).
  assert (Hu0 : uint32 (base + (0 + 4 * k)) = base + 4 * k) by (unfold uint32; rewrite Z.mod_small; lia).
  change (Z.add 0 (4 * k)) with (0 + 4 * k) in *.
  apply wp_ret. split; [done|]. intros n h g gw [= <- <- <- <-]. exists (base + 4 * k). rewrite Hu0 in *.
  constructor; [unfold own_block; split; [dlia|lia]|done|by rewrite Hu by lia..|].
  intros key r Hr Hlive Heq. apply Hnot, list_elem_of_filter. split.
  { intros Hempty. apply (f_equal String.length) in Hempty. revert Hempty. unfold subnet_String.
    rewrite IP_String_unfold. destruct (pretty _); done. }
  destruct (listed_scans _ _ _ _ Hl Hr) as (i & Hi); [done|].
  apply list_elem_of_In, in_map_iff. exists i. split.
  - rewrite (scan_network _ _ Hi). exact Heq.
  - apply list_elem_of_In, Hcomplete. exists key, r. by split.
Qed.

Lemma created_network now inst : row_network (created_row now inst) = NetworkCIDR inst.
Proof. apply (normalize_network inst). Qed.

Lemma networks_insert base size d d' row key n h g gw ip :
  networks_ok base size d → chosen base size d n h g gw ip → row_network row = n →
  instances d !! key = None → instances d' = <[key := row]> (instances d) → networks_ok base size d'.
Proof.
  intros [Hblocks Hdist] [Hown Hn _ _ Hfree] Hrow Hnew Heq. constructor.
  - intros k r Hk Hlive Hne. rewrite Heq, lookup_insert_Some in Hk.
    destruct Hk as [[-> <-]|[_ Hk]]; [by exists ip; rewrite Hrow|by apply (Hblocks k)].
  - intros k k' r r' Hk Hk' Hlive Hlive' Hkk Hne. rewrite Heq, lookup_insert_Some in Hk, Hk'.
    destruct Hk as [[-> <-]|[_ Hk]], Hk' as [[-> <-]|[_ Hk']]; [done| | |by apply (Hdist k k')].
    + rewrite Hrow. intros Hn'. by destruct (Hfree k' r').
    + rewrite Hrow. by apply (Hfree k).
Qed.

(** Two blocks of the machines' network are read back from the rows and hold no common address. *)
Definition networks_disjoint (d : DB) : Prop :=
  ∀ k k' r r' ip ones ip' ones' a, instances d !! k = Some r → instances d !! k' = Some r' →
    live r = true → live r' = true → k ≠ k' →
    ParsePrefix (row_network r) = Some (ip, ones) → ParsePrefix (row_network r') = Some (ip', ones') →
    ip <= a < ip + 2 ^ (32 - ones) → ¬ ip' <= a < ip' + 2 ^ (32 - ones').

Lemma networks_ok_disjoint cidr base size d : vm_network cidr base size → networks_ok base size d → networks_disjoint d.
Proof.
  intros [_ (H0 & _ & Hend)] [Hblocks Hdist] k k' r r' ip ones ip' ones' a Hk Hk' Hl Hl' Hkk Hp Hp' Ha Ha'.
  assert (Hne : row_network r ≠ "") by (intros E; rewrite E in Hp; discriminate).
  assert (Hne' : row_network r' ≠ "") by (intros E; rewrite E in Hp'; discriminate).
  destruct (Hblocks k r Hk Hl Hne) as (x & Hx & Hrx), (Hblocks k' r' Hk' Hl' Hne') as (x' & Hx' & Hrx').
  pose proof Hx as (_ & ? & ?). pose proof Hx' as (_ & ? & ?).
  rewrite Hrx, subnet_read in Hp by lia. rewrite Hrx', subnet_read in Hp' by lia. injection Hp as <- <-. injection Hp' as <- <-.
  assert (x = x') as <- by (apply (blocks_disjoint base size x x' a); done).
  apply (Hdist k k' r r' Hk Hk' Hl Hl' Hkk Hne). by rewrite Hrx, Hrx'.
Qed.

(** C20. Creating an instance, whatever fails and wherever it is cut off, keeps the networks of
    the instances that are not deleted in the network of the machines, and no address belongs
    to two of them, when the network of the machines is given by its first address
    ([vm_network]); with host bits set it may fail ([host_bits_misalign]). *)
Theorem created_networks_disjoint cidr base size now inst fs d :
  wf d → vm_network cidr base size → networks_ok base size d →
  networks_ok base size (create_with_network cidr now inst fs d).1.2 ∧
  networks_disjoint (create_with_network cidr now inst fs d).1.2.
Proof.
  intros Hwf Hvm Hok. enough (H : networks_ok base size (create_with_network cidr now inst fs d).1.2).
  { split; [done|]. by eapply networks_ok_disjoint. }
  assert (Hwp : wp (create_with_network cidr now inst) (λ _ d', networks_ok base size d') d).
  { unfold create_with_network. apply wp_bind. eapply wp_mono; [by apply (allocateNetwork_spec _ base size)|].
    intros [[[[n h] g] gw]|e|] d' [-> Hc]; [|done..]. destruct (Hc n h g gw eq_refl) as (ip & Hip).
    apply wp_bind. eapply wp_mono; [apply CreateInstance_wp|]. intros o d' [_ Hcase].
    enough (Hd : networks_ok base size d') by (destruct o; [by apply wp_ret|done..]).
    destruct Hcase as [[Heq _]|[Hnew Heq]].
    - destruct Hok. constructor; rewrite Heq; eauto.
    - eapply networks_insert; [done..| |exact Hnew|exact Heq]. rewrite created_network. by destruct inst. }
  specialize (Hwp fs). by destruct (create_with_network cidr now inst fs d) as [[o d'] fs'].
Qed.

Lemma empty_DB_networks base size : networks_ok base size empty_DB.
Proof. by constructor. Qed.

Lemma created_networks_disjoint_witness :
  networks_disjoint (run (create_with_network "172.28.0.0/16" t0 demo_instance) empty_DB).2 ∧
  (row_network <$> instances (run (create_with_network "172.28.0.0/16" t0 demo_instance) empty_DB).2 !! ID demo_instance) = Some "172.28.0.0/30".
Proof.
  split; [|vm_compute; reflexivity].
  refine (proj2 (created_networks_disjoint "172.28.0.0/16" (172 * 2 ^ 24 + 28 * 2 ^ 16) (2 ^ 16) t0 demo_instance [] empty_DB wf_empty _ (empty_DB_networks _ _))).
  constructor; [exists 16; vm_compute|]; repeat split; try done; lia.
Defined.

(** The address given as the network is where the first block begins, even when it is not
    the first of its network: the guest is then given the broadcast address of its block. *)
Lemma host_bits_misalign :
  (run (allocateNetwork "172.28.0.1/16") empty_DB).1 =
    Ok ("172.28.0.1/30", "172.28.0.2/30", "172.28.0.3/30", "172.28.0.2").
Proof. vm_compute. reflexivity. Qed.

(** ** What the proof of absence excludes *)

Fixpoint last_char (prev : option ascii) (s : string) : option ascii :=
  match s with EmptyString => prev | String c s => last_char (Some c) s end.

(** One of [addrs] as an address of its own in what is printed. *)
Definition address_in (addrs : list string) (prev : option ascii) (data : string) : Prop :=
  ∃ pre a post, data = (pre +:+ (a +:+ post))%stdpp ∧ a ∈ addrs ∧
    starts_address (last_char prev pre) = true ∧ ends_address post = true.

Lemma mentions_address_spec addrs prev data : mentions_address addrs prev data = true ↔ address_in addrs prev data.
Proof.
  assert (Hhere : ∀ data, existsb (λ a, match CutPrefix data a with Some rest => ends_address rest | None => false end) addrs = true ↔
    ∃ a post, data = (a +:+ post)%stdpp ∧ a ∈ addrs ∧ ends_address post = true).
  { intros s. rewrite existsb_exists. split.
    - intros (a & Ha%list_elem_of_In & Hc). destruct (CutPrefix s a) eqn:E; [|done]. apply CutPrefix_Some in E. eauto.
    - intros (a & post & -> & Ha%list_elem_of_In & Hp). exists a. by rewrite CutPrefix_append. }
  revert prev. induction data as [|c data IH]; intros prev; cbn [mentions_address]; rewrite orb_true_iff, andb_true_iff, Hhere.
  - split; [|intros (pre & a & post & Heq & ?); left].
    + intros [(? & a & post & ? & ? & ?)|]; [|done]. by exists "", a, post.
    + destruct pre; [|by rewrite append_cons in Heq]. split; [apply H|]. exists a, post. naive_solver.
  - rewrite IH. split.
    + intros [(? & a & post & ? & ? & ?)|(pre & a & post & -> & ?)]; [by exists "", a, post|by exists (String c pre), a, post].
    + intros ([|c' pre] & a & post & Heq & Ha & Hs & He); [left|right].
      * split; [done|]. by exists a, post.
      * rewrite append_cons in Heq. injection Heq as <- ->. by exists pre, a, post.
Qed.

(** The name of the device as a word of its own. *)
Definition ends_token (rest : string) : bool := match rest with EmptyString => true | String c _ => negb (is_token_char c) end.
Definition token_in (t data : string) : Prop :=
  ∃ pre post, data = (pre +:+ (t +:+ post))%stdpp ∧
    match last_char None pre with Some c => negb (is_token_char c) | None => true end = true ∧ ends_token post = true.

Lemma tokens_take t word post : all_chars is_token_char t = true → ends_token post = true →
  nonempty (rev_string word +:+ t)%stdpp = true → (rev_string word +:+ t)%stdpp ∈ tokens (t +:+ post) word.
Proof.
  revert word. induction t as [|c t IH]; intros word Ht Hp Hne.
  - rewrite append_nil_r in *. change (("" +:+ post)%stdpp) with post.
    assert (nonempty word = true) as Hw by (by destruct word).
    destruct post as [|c post]; cbn in *; rewrite ?Hw; [by left|]. apply negb_true_iff in Hp. rewrite Hp. cbn. by left.
  - cbn in Ht. apply andb_true_iff in Ht as [Hc Ht]. rewrite append_cons. cbn [tokens]. rewrite Hc.
    assert (Hr : (rev_string word +:+ String c t)%stdpp = (rev_string (String c word) +:+ t)%stdpp).
    { unfold rev_string at 2. cbn [rev_acc]. rewrite rev_onto, append_assoc. done. }
    rewrite Hr in *. by apply IH.
Qed.

Lemma tokens_spec t data : nonempty t = true → all_chars is_token_char t = true → token_in t data → t ∈ tokens data "".
Proof.
  intros Hne Ht (pre & post & -> & Hs & Hp).
  enough (H : ∀ word prev, match last_char prev pre with Some c => negb (is_token_char c) | None => true end = true →
    (prev = None → word = "") → (∀ c, prev = Some c → is_token_char c = false → word = "") →
    t ∈ tokens (pre +:+ (t +:+ post))%stdpp word) by (by apply (H "" None)).
  clear Hs. induction pre as [|c pre IH]; intros word prev Hs Hn Hw; cbn [last_char] in Hs.
  - assert (word = "") as ->. { destruct prev as [c|]; [|auto]. apply (Hw c); [done|]. by apply negb_true_iff. }
    by apply (tokens_take t "").
  - rewrite append_cons. cbn [tokens]. destruct (is_token_char c) eqn:Hc.
    + apply (IH _ (Some c)); [done..|]. intros c' [= <-]. by rewrite Hc.
    + apply elem_of_app. right. by apply (IH _ (Some c)).
Qed.

Lemma block_addresses_spec ip a : 0 <= ip → IP_String a ∈ block_addresses ip 30 ∨ ¬ in_block (ip - ip `mod` 4) a.
Proof.
  intros Hip. destruct (decide (in_block (ip - ip `mod` 4) a)) as [[? ?]|]; [left|by right].
  unfold block_addresses. change (2 ^ (32 - 30)) with 4. apply list_elem_of_In, in_map_iff.
  exists (Z.to_nat (a - (ip - ip `mod` 4))). rewrite Z2Nat.id by lia. split; [f_equal; lia|]. apply in_seq. lia.
Qed.

Section deletion.
Context {K : Type} `{NetTools K}.
Context (uuid_Parse : string → option string) (ParseCIDR6 : string → bool) (tapUser : string).

#[local] Abbreviation Net := (NetHost K).

(** None of the tools prints an address of the network or the device. *)
Definition absent (q : NetCleanup) (k : K) : Prop :=
  ∃ ip ones, ParsePrefix (nc_NetworkCIDR q) = Some (ip, ones) ∧ 30 <= ones ∧
    ∀ command, command ∈ proof_commands → ∃ data, nt_Output command.1 command.2 k = inl data ∧
      ¬ address_in (block_addresses ip ones) None data ∧
      (nonempty (nc_TapDevice q) = true → all_chars is_token_char (nc_TapDevice q) = true → ¬ token_in (nc_TapDevice q) data).

Lemma verifyNetworkAbsent_wp q (s : Net) : wp (verifyNetworkAbsent q) (λ o s', s' = s ∧ (o = Ok tt → absent q (nh_kernel s))) s.
Proof.
  unfold verifyNetworkAbsent. destruct (ParsePrefix _) as [[ip ones]|] eqn:Hp; [|by apply wp_throw].
  apply wp_bind, wp_require; intros Hones; [|done]. apply Z.leb_le in Hones.
  eapply wp_mono; [apply (wp_for_each_all _ eq (λ command (s : Net), ∃ data, nt_Output command.1 command.2 (nh_kernel s) = inl data ∧
    mentions_address (block_addresses ip ones) None data = false ∧ existsb (String.eqb (nc_TapDevice q)) (tokens data "") = false))|].
  - by intros x ? ? ->.
  - intros [name args] s' _ <-. unfold check_output, read_tool. apply wp_bind, wp_query; [done..|]. cbn [fst snd].
    destruct (nt_Output name args (nh_kernel s)) as [data|e] eqn:Hd; cbn [of_result]; [|done].
    do 2 (apply wp_bind, wp_require; intros _; [|done]). apply wp_bind, wp_require; intros Hb; [|done]. apply negb_true_iff in Hb.
    apply wp_require; intros Ht; [|done]. apply negb_true_iff in Ht. split; [done|]. intros _. exists data. by rewrite Hd.
  - intros o s' [<- Ho]. split; [done|]. intros ->. exists ip, ones. split; [done|]. split; [done|].
    intros command Hc. destruct (Ho eq_refl _ Hc) as (data & Hd & Ha & Ht). exists data. split; [done|]. split.
    + intros Hin%mentions_address_spec. congruence.
    + intros Hne Hall Hin%tokens_spec; [|done..]. apply not_true_iff_false in Ht. apply Ht, existsb_exists.
      exists (nc_TapDevice q). split; [by apply list_elem_of_In|apply String.eqb_refl].
Qed.

(** The deletion of the incarnation is recorded as done, and no power loss brings an older
    record back. *)
Record finalized (id : string) (d : networkDeletion) (s : Net) : Prop := {
  fi_record : nh_deletions s !! id = Some d;
  fi_older old : old ∈ nh_older s → old !! id = Some d;
  fi_done : nd_Done d = true;
}.

(** What keeps it: the tools, and writing the record of another incarnation. *)
Definition keeps (id : string) (s s' : Net) : Prop := ∀ d, finalized id d s → finalized id d s'.
#[local] Instance keeps_preorder id : PreOrder (keeps id).
Proof. split; [by intros s d|]. intros s1 s2 s3 H1 H2 d Hd. by apply H2, H1. Qed.

Lemma final_keeps_tool id name args : within (keeps id) (run_tool name args).
Proof. apply within_env; [apply _|]. intros s d [? ? ?]. destruct (nt_Run name args (nh_kernel s)). by constructor. Qed.
Lemma final_keeps_sync id : within (keeps id) sync_deletions.
Proof. apply within_env; [apply _|]. intros s d [? ? ?]. constructor; [done| |done]. intros old Hold. by apply elem_of_nil in Hold. Qed.
Lemma final_keeps_write id d : fq_id (nd_request d) ≠ id → within (keeps id) (writeDeletion d).
Proof.
  intros Hne. unfold writeDeletion, net_call, rename_deletion.
  repeat (apply within_bind; [apply _| |intros _]); try (apply within_query; apply _); [|apply final_keeps_sync].
  apply within_env; [apply _|]. intros s d' [Hd Hold Hdone]. constructor; [by cbn; rewrite lookup_insert_ne| |done].
  intros old [->|Hin]%elem_of_cons; [done|by apply Hold].
Qed.

Lemma final_keeps_lock id : within (keeps id) (lockNetwork (K := K)).
Proof. unfold lockNetwork, net_call. repeat within_step. Qed.
Lemma final_keeps_check id id' b : within (keeps id) (checkDeletion (K := K) uuid_Parse id' b).
Proof. unfold checkDeletion. repeat within_step. Qed.
Lemma final_keeps_setup id req : within (keeps id) (setupNetwork tapUser req).
Proof. unfold setupNetwork, ensureIPTablesRule. repeat (apply final_keeps_tool || within_step). Qed.
Lemma final_keeps_attempt id missing m errs : within (keeps id) m → within (keeps id) (attempt (K := K) missing m errs).
Proof. intros Hm. unfold attempt. apply within_bind; [apply _|by apply within_try|]. intros []; repeat within_step. Qed.
Lemma final_keeps_cleanup id req : within (keeps id) (cleanupNetwork req).
Proof.
  unfold cleanupNetwork, deleteIPTablesRule. repeat (apply final_keeps_tool || apply final_keeps_attempt || within_step).
Qed.
Lemma final_keeps_absent id q : within (keeps id) (verifyNetworkAbsent q).
Proof. intros s. eapply wp_mono; [apply verifyNetworkAbsent_wp|]. by intros o s' [-> _]. Qed.
#[local] Hint Resolve final_keeps_tool final_keeps_sync final_keeps_lock final_keeps_check final_keeps_setup final_keeps_cleanup final_keeps_absent : srv.

(** What is read of an earlier attempt. *)
Lemma read_deletion_wp q (s : Net) :
  wp (read_deletion uuid_Parse ParseCIDR6 q) (λ o s', s' = s ∧ ∀ q' over, o = Ok (q', over) →
    (∃ v, q' = set_outbound v q) ∧
    (nh_deletions s !! fq_id q = Some (mkNetworkDeletion q' over) ∨ nh_deletions s !! fq_id q = None ∧ over = false)) s.
Proof.
  unfold read_deletion. apply wp_bind, wp_try, wp_query; [by split..|].
  destruct (nh_deletions s !! fq_id q) as [[q0 over0]|] eqn:Hd; cbn [of_result].
  - apply wp_bind, wp_lift. destruct (validate_finalize _ _ _); [|done]. cbn [of_result nd_request nd_Done].
    apply wp_bind, wp_require; [intros _|done]. apply wp_bind, wp_require; [intros Hq|done]. apply bool_decide_eq_true in Hq.
    apply wp_ret. split; [done|]. intros q' over [= <- <-]. split; [by eexists|]. left. by rewrite <- Hq.
  - apply wp_ret. split; [done|]. intros q' over [= <- <-]. split; [|by right].
    exists (nc_OutboundInterface (fq_cleanup q)). by destruct q as [[]].
Qed.

(** A request that names another incarnation, and the deletion of this one. *)
Lemma final_keeps_finalize id q : fq_id q ≠ id → within (keeps id) (handleFinalize uuid_Parse ParseCIDR6 q).
Proof.
  intros Hne. unfold handleFinalize. apply within_bind; [apply _|by repeat within_step|intros _].
  unfold finalize. apply within_bind; [apply _|apply final_keeps_lock|intros _]. intros s. apply wp_bind.
  eapply wp_mono; [apply read_deletion_wp|]. intros [[q' over]|e|] s' [-> Hq]; [|by intros d..].
  destruct (Hq q' over eq_refl) as ((v & ->) & _).
  match goal with |- wp ?m _ _ => enough (within (keeps id) m) as Hw by apply Hw end.
  destruct over; [apply final_keeps_sync|]. repeat (solve [eauto with srv] || (apply final_keeps_write; by destruct q as [[]]) || within_step).
Qed.

(** Nothing is done for an incarnation whose network is finally deleted. *)
Lemma check_final id b d (s : Net) : id ≠ "" → finalized id d s →
  wp (checkDeletion uuid_Parse id b) (λ o s', s' = s ∧ o ≠ Ok tt) s.
Proof.
  intros Hid [Hd _ _]. unfold checkDeletion. rewrite (proj2 (String.eqb_neq id "") Hid). cbn [andb].
  apply wp_bind, wp_require; [intros _|done]. apply wp_query; [done..|]. by rewrite Hd.
Qed.
Lemma lock_wp (s : Net) Q : Q (Err ErrIO) s → Q Crashed s → Q (Ok tt) s → wp lockNetwork Q s.
Proof. intros. unfold lockNetwork, net_call. repeat (apply wp_bind, wp_query; [done..|]). by apply wp_query. Qed.
Lemma refused_final {A} id b d (k : M Net A) (s : Net) : id ≠ "" → finalized id d s →
  wp (lockNetwork;; checkDeletion uuid_Parse id b;; k) (λ _ s', s' = s) s.
Proof.
  intros Hid Hd. apply wp_bind, lock_wp; [done..|]. apply wp_bind. eapply wp_mono; [exact (check_final id b d s Hid Hd)|].
  by intros [[]|e|] s' [-> Ho].
Qed.
Lemma finalize_final q d (s : Net) : finalized (fq_id q) d s →
  wp (handleFinalize uuid_Parse ParseCIDR6 q) (λ _ s', finalized (fq_id q) d s' ∧ nh_kernel s' = nh_kernel s) s.
Proof.
  intros Hd. unfold handleFinalize, finalize. apply wp_bind, wp_lift. destruct (validate_finalize _ _ _); [|done].
  cbn [of_result]. apply wp_bind, lock_wp; [done..|]. apply wp_bind. eapply wp_mono; [apply read_deletion_wp|].
  intros [[q' over]|e|] s' [-> Hq]; [|done..]. destruct (Hq q' over eq_refl) as (_ & [Hr|[Hr _]]); [|by rewrite (fi_record _ _ _ Hd) in Hr].
  assert (d = mkNetworkDeletion q' over) as -> by (pose proof (fi_record _ _ _ Hd); congruence).
  pose proof (fi_done _ _ _ Hd) as Hover. cbn in Hover. subst over.
  apply wp_env; [done..| |]; (split; [|done]); destruct Hd; constructor; try done; intros old Hin; by apply elem_of_nil in Hin.
Qed.

(** Writing the record that ends the deletion makes it durable. *)
Lemma write_done d (s : Net) : nd_Done d = true →
  wp (writeDeletion d) (λ o s', nh_kernel s' = nh_kernel s ∧ (o = Ok tt → finalized (fq_id (nd_request d)) d s')) s.
Proof.
  intros Hd. unfold writeDeletion, net_call, rename_deletion, sync_deletions.
  do 4 (apply wp_bind, wp_query; [by split..|]). cbn [of_result].
  apply wp_bind, wp_env; [by split..| |]; [|by split]. cbn [of_result fst snd]. apply wp_env; [by split..| |]; [|by split].
  cbn. split; [done|]. intros _. constructor; [apply lookup_insert_eq| |done]. intros old Hin. by apply elem_of_nil in Hin.
Qed.

Lemma after_any {A} (m : M Net A) (k : A → M Net unit) (P : Net → Prop) s :
  (∀ a s', wp (k a) (λ o s', o = Ok tt → P s') s') → wp (m ≫= k) (λ o s', o = Ok tt → P s') s.
Proof. intros Hk. apply wp_bind. intros fs. destruct (m fs s) as [[[a|e|] s'] fs']; cbn; [apply Hk|done..]. Qed.

(** A final deletion that succeeds. *)
Lemma finalize_succeeds q (s : Net) :
  wp (handleFinalize uuid_Parse ParseCIDR6 q) (λ o s', o = Ok tt → ∃ v, finalized (fq_id q) (mkNetworkDeletion (set_outbound v q) true) s' ∧
    (nh_deletions s !! fq_id q = Some (mkNetworkDeletion (set_outbound v q) true) ∧ nh_kernel s' = nh_kernel s ∨ absent (fq_cleanup q) (nh_kernel s'))) s.
Proof.
  unfold handleFinalize, finalize. apply wp_bind, wp_lift. destruct (validate_finalize _ _ _); [|done].
  cbn [of_result]. apply wp_bind, lock_wp; [done..|]. apply wp_bind. eapply wp_mono; [apply read_deletion_wp|].
  intros [[q' over]|e|] s' [-> Hq]; [|done..]. destruct (Hq q' over eq_refl) as ((v & ->) & Hr). destruct over.
  - destruct Hr as [Hr|[_ ?]]; [|done]. apply wp_env; [done..| |done]. cbn. intros _. exists v. split; [|by left].
    constructor; [done| |done]. intros old Hin. by apply elem_of_nil in Hin.
  - apply wp_bind, wp_require; [intros _|done]. do 2 (apply after_any; intros ? ?). apply wp_bind.
    eapply wp_mono; [apply verifyNetworkAbsent_wp|]. intros [[]|e|] s2 [-> Ha]; [|done..].
    eapply wp_mono; [by apply write_done|]. cbn. intros o s3 [Hk Ho] Hok. exists v. destruct q as [[]]. split; [by apply Ho|].
    right. rewrite Hk. by apply Ha.
Qed.

(** ** Histories *)

Lemma final_keeps_wp id d {A} (m : M Net A) s : finalized id d s → within (keeps id) m → wp m (λ _ s', finalized id d s') s.
Proof. intros Hd Hm. eapply wp_mono; [apply Hm|]. intros o s' Hk. by apply Hk. Qed.
Lemma final_keeps_step id s s' d : id ≠ "" → finalized id d s → net_step uuid_Parse ParseCIDR6 tapUser s s' → finalized id d s'.
Proof.
  intros Hid Hd Hstep. destruct Hstep as [id' m fs s Hm|k s|s s' [Hold Hback]].
  - enough (Hw : wp m (λ _ s', finalized id d s') s) by apply Hw. destruct Hm.
    + unfold handleSetup. apply (final_keeps_wp id); [done|]. repeat (solve [eauto with srv] || within_step).
    + unfold handleCleanup. apply (final_keeps_wp id); [done|]. repeat (solve [eauto with srv] || within_step).
    + destruct (decide (fq_id q = id)) as [<-|Hne]; [|by eapply wp_mono; [apply (final_keeps_finalize id q Hne)|]; intros o s' H'; apply H'].
      eapply wp_mono; [by apply finalize_final|]. by intros o s' [].
    + unfold handleCleanupProof. apply (final_keeps_wp id); [done|]. repeat (solve [eauto with srv] || within_step).
  - by destruct Hd.
  - destruct Hd as [Hd Hall Hdone]. constructor; [|by rewrite Hold; intros ? ?%elem_of_nil|done].
    destruct (Hback id) as (k & [->|Hin] & ->); [done|by apply Hall].
Qed.

(** C21. Once the deletion of the network of an incarnation is recorded as done, it stays so, and no request that
    names the incarnation changes the kernel any more: neither a late setup nor a late
    clean-up nor a repeated deletion touches the device and the addresses that may by then
    belong to another machine, over failures, power losses and all other requests. *)
Theorem finalized_network_untouched id d s s' m fs :
  id ≠ "" → finalized id d s → rtc (net_step uuid_Parse ParseCIDR6 tapUser) s s' →
  net_request uuid_Parse ParseCIDR6 tapUser id m →
  finalized id d s' ∧ nh_kernel (m fs s').1.2 = nh_kernel s'.
Proof.
  intros Hid Hd Hsteps Hm. assert (Hd' : finalized id d s') by (induction Hsteps; eauto using final_keeps_step).
  split; [done|]. clear Hd Hsteps s. enough (Hw : wp m (λ _ s, nh_kernel s = nh_kernel s') s') by apply Hw. destruct Hm.
  - unfold handleSetup. apply wp_bind, wp_lift. destruct (validate_setup _ _); [|done].
    eapply wp_mono; [by eapply refused_final|]. by intros ? ? ->.
  - unfold handleCleanup. apply wp_bind, wp_lift. destruct (validate_cleanup _ _); [|done].
    eapply wp_mono; [by eapply refused_final|]. by intros ? ? ->.
  - eapply wp_mono; [by apply finalize_final|]. by intros ? ? [].
  - unfold handleCleanupProof. apply wp_bind, wp_lift. destruct (validate_cleanup _ _); [|done].
    eapply wp_mono; [apply verifyNetworkAbsent_wp|]. by intros ? ? [-> _].
Qed.

(** C22. A final deletion that succeeds has its record on disk for good; and unless an earlier
    attempt had ended already, in which case nothing is touched, none of the tools then
    prints the device or any address of the network of the machine. *)
Theorem finalize_proves_absence q s fs ip :
  nc_NetworkCIDR (fq_cleanup q) = subnet_String ip → 0 <= ip < 2 ^ 32 →
  (handleFinalize uuid_Parse ParseCIDR6 q fs s).1.1 = Ok tt →
  let s' := (handleFinalize uuid_Parse ParseCIDR6 q fs s).1.2 in
  ∃ v, finalized (fq_id q) (mkNetworkDeletion (set_outbound v q) true) s' ∧
    (nh_deletions s !! fq_id q = Some (mkNetworkDeletion (set_outbound v q) true) ∧ nh_kernel s' = nh_kernel s ∨
     ∀ command, command ∈ proof_commands → ∃ data, nt_Output command.1 command.2 (nh_kernel s') = inl data ∧
       (∀ a, in_block (ip - ip `mod` 4) a → ¬ address_in [IP_String a] None data) ∧
       (nonempty (nc_TapDevice (fq_cleanup q)) = true → all_chars is_token_char (nc_TapDevice (fq_cleanup q)) = true →
        ¬ token_in (nc_TapDevice (fq_cleanup q)) data)).
Proof.
  intros Hnet Hip Hok s'. destruct (finalize_succeeds q s fs Hok) as (v & Hfin & Hcase). exists v. split; [done|].
  destruct Hcase as [?|(ip' & ones & Hp & _ & Hall)]; [by left|right]. rewrite Hnet, subnet_read in Hp by done. injection Hp as <- <-.
  intros command Hc. destruct (Hall _ Hc) as (data & Hd & Ha & Ht). exists data. split; [done|]. split; [|done].
  intros a Hin (pre & x & post & Heq & ->%list_elem_of_singleton & Hs). apply Ha. exists pre, (IP_String a), post.
  split; [done|]. split; [|done]. by destruct (block_addresses_spec ip a) as [?|?]; [lia| |].
Qed.
End deletion.

(** *** A host without devices or rules *)

Definition empty_ruleset : string := ("{" +:+ String "034" ("nftables" +:+ String "034" ": []}"))%stdpp.
Definition bare_tools : NetTools (list (list string)) := {|
  nt_Run name args k := (inl tt, (name :: args) :: k);
  nt_RuleExists _ _ _ _ := false;
  nt_Output name _ _ := inl (if String.eqb name "ip" then "[]" else if String.eqb name "nft" then empty_ruleset else "");
  nt_array := String.eqb "[]";
  nt_ruleset := String.eqb empty_ruleset;
|}.
Definition demo_uuid (s : string) : option string := if nonempty s then Some s else None.
Definition demo_cleanup : NetCleanup := mkNetCleanup "i-1" "tap0" "172.28.0.0/30" "eth0".
Definition demo_finalize : FinalizeRequest := mkFinalizeRequest demo_cleanup "r-1".
Definition bare_host : NetHost (list (list string)) := mkNetHost [] ∅ [].
Definition no_CIDR6 (s : string) : bool := false.
Definition after_finalize : outcome unit * NetHost (list (list string)) :=
  (handleFinalize (H := bare_tools) demo_uuid no_CIDR6 demo_finalize [] bare_host).1.

Lemma finalize_proves_absence_witness :
  ∃ v, finalized "i-1" (mkNetworkDeletion (set_outbound v demo_finalize) true) after_finalize.2.
Proof.
  destruct (finalize_proves_absence (H := bare_tools) demo_uuid no_CIDR6 demo_finalize bare_host [] (172 * 2 ^ 24 + 28 * 2 ^ 16))
    as (v & Hv & _); [vm_compute; reflexivity|lia|vm_compute; reflexivity|by exists v].
Defined.

Lemma after_finalize_final : finalized "i-1" (mkNetworkDeletion demo_finalize true) after_finalize.2.
Proof. constructor; [vm_compute; reflexivity| |reflexivity]. vm_compute. by intros old Hin%elem_of_nil. Qed.

(** A setup of the deleted incarnation, after a power loss. *)
Lemma finalized_network_untouched_witness :
  nh_kernel (handleSetup (H := bare_tools) demo_uuid no_CIDR6 "srv" true
    (mkSetupRequest "i-1" "tap0" "172.28.0.1/30" "172.28.0.0/30" "eth0") [] after_finalize.2).1.2 = nh_kernel after_finalize.2.
Proof.
  apply (finalized_network_untouched (H := bare_tools) demo_uuid no_CIDR6 "srv" "i-1" (mkNetworkDeletion demo_finalize true)
    after_finalize.2 after_finalize.2); [done|apply after_finalize_final| |exact (nr_setup demo_uuid no_CIDR6 "srv" true
      (mkSetupRequest "i-1" "tap0" "172.28.0.1/30" "172.28.0.0/30" "eth0"))].
  eapply rtc_l; [|apply rtc_refl]. apply ns_power. split; [vm_compute; reflexivity|]. intros id. exists (nh_deletions after_finalize.2). auto.
Defined.
