(* ===== verification/RunnerState.v ===== *)
(** * The state the VM runner works on

    Data of src/internal/vmrunner: requests, start receipts, cold-disk journals,
    and the machine below the runner (processes, cgroups, sockets, jails, disks),
    with the primitives that read and change it.

    The runner serialises the calls for one instance name by a file lock that the
    kernel releases when the runner dies, so calls are modelled one at a time, each
    ended by success, an error or a crash. *)
From S2P Require Import Prelude GoStrings Paths Encodings.

#[local] Open Scope Z_scope.

(** ** Requests *)

Record StartResultRequest := mkStartResultRequest {
  q_Name : string;
  q_InstanceID : string;
  q_RequestID : string;
  q_HostBootID : string;
}.
#[export] Instance StartResultRequest_eq_dec : EqDecision StartResultRequest.
Proof. solve_decision. Defined.

Definition err_identity : error := Errorf "complete start attempt identity is required".

Definition complete_identity (r : StartResultRequest) : bool :=
  validName (q_Name r) && nonempty (q_InstanceID r) && nonempty (q_RequestID r) &&
  nonempty (q_HostBootID r).

(** [StartResultRequest.Validate]. *)
Definition Validate (r : StartResultRequest) : result unit :=
  if complete_identity r then inl tt else inr err_identity.

Record Bootstrap := mkBootstrap {
  bs_Version : Z;
  bs_Hostname : string;
  bs_EnrollmentNonce : string;
  bs_TailscaleAuthKey : string;
  bs_TailscaleControlURL : string;
  bs_TailscaleTags : list string;
  bs_ZenGatewayPort : Z;
  bs_DeepSeekGatewayPort : Z;
}.
Definition no_bootstrap : Bootstrap := mkBootstrap 0 "" "" "" "" [] 0 0.

Record StartRequest := mkStartRequest {
  sq_DiscardState : bool;
  sq_Kind : string;
  sq_KernelPath : string;
  sq_InitrdPath : string;
  sq_InstanceID : string;
  sq_RequestID : string;
  sq_HostBootID : string;
  sq_Name : string;
  sq_TapDevice : string;
  sq_GuestMAC : string;
  sq_GuestAddr : string;
  sq_GatewayAddr : string;
  sq_Nameservers : list string;
  sq_VCPUCount : Z;
  sq_MemoryMiB : Z;
  sq_MemoryMode : string;
  sq_MemoryPoolName : string;
  sq_MemoryPoolSizeBytes : Z;
  sq_KernelArgs : string;
  sq_Bootstrap : Bootstrap;
}.

Record StartResponse := mkStartResponse { Outcome : string; Reason : string; rs_PID : Z }.

Definition StartRunning : string := "running".
Definition StartAbsent : string := "absent".
Definition StartUnknown : string := "unknown".

(** [validateStartResponse]. *)
Definition validateStartResponse (r : StartResponse) : result unit :=
  if (String.eqb (Outcome r) StartRunning && (0 <? rs_PID r)) ||
     ((String.eqb (Outcome r) StartAbsent || String.eqb (Outcome r) StartUnknown) && (rs_PID r =? 0))
  then inl tt else inr (Errorf "invalid start outcome from runner").

Record StopRequest := mkStopRequest {
  tq_SaveState : bool;
  tq_InstanceID : string;
  tq_RequestID : string;
  tq_HostBootID : string;
  tq_Name : string;
  tq_PID : Z;
}.

(** ** Journals *)

Record startReceipt := mkReceipt {
  sr_req : StartResultRequest;
  Digest : string;
  RState : string;
  PID : Z;
  Ticks : Z;
  ResumeConfig : string;
  SaveState : bool;
}.

(** The flat files of a receipt directory: the receipts [<key>.json], the deletion
    fences [cold-deleted-<key>] that hold an instance ID, and others, such as the
    lock.  A crash can leave temporary files under names no call reads. *)
Inductive file := F_receipt (r : startReceipt) | F_fence (id : string) | F_other.

Record SubvolumeIdentity := mkSubvolumeIdentity {
  sv_UUID : string;
  sv_ID : string;
  sv_ParentUUID : string;
  sv_ReceivedUUID : string;
}.
#[export] Instance SubvolumeIdentity_eq_dec : EqDecision SubvolumeIdentity.
Proof. solve_decision. Defined.
Definition no_subvolume : SubvolumeIdentity := mkSubvolumeIdentity "" "" "" "".

Record Object := mkObject {
  ob_ID : string;
  ob_UUID : string;
  ob_SHA256 : string;
  ob_Size : Z;
  ob_Parent : string;
}.

Record coldDiskRecord := mkCold {
  cd_Version : Z;
  cd_InstanceID : string;
  cd_Phase : string;
  cd_Remote : bool;
  cd_Host : string;
  cd_Disk : SubvolumeIdentity;
  cd_Candidate : SubvolumeIdentity;
  cd_Object : Object;
  cd_Base : SubvolumeIdentity;
  cd_BaseName : string;
}.

(** A file of JSON: what it decodes to, or nothing when it does not. *)
Definition json (A : Type) : Type := option A.

Definition unmarshal {A} (f : json A) : result A :=
  match f with Some a => inl a | None => inr (Errorf "invalid JSON") end.

(** *** Saved RAM *)

Record fileStamp := mkStamp { Inode : Z; Size : Z; Mtime : Z }.
#[export] Instance fileStamp_eq_dec : EqDecision fileStamp.
Proof. solve_decision. Defined.

Record ramState := mkRamState {
  Attempt : StartResultRequest;
  rm_Config : string;
  rm_Disk : fileStamp;
  rm_Binary : string;
  SnapshotVersion : string;
}.

(** ** The machine *)

Inductive socket := Refusing | Peer (pid : Z).

Record cgroup := mkCgroup {
  cg_parent : option string;     (* a memory pool, or the root of the fixed VMs *)
  cg_name : string;
  cg_pids : list Z;
}.

Record disk := mkDisk {
  dk_id : SubvolumeIdentity;
  dk_readonly : bool;
  dk_stamp : fileStamp;          (* of rootfs.img *)
  dk_content : string;           (* of rootfs.img *)
}.

Record Machine := mkMachine {
  boot_file : string;                     (* /proc/sys/kernel/random/boot_id *)
  procs : gmap Z string;                  (* /proc/<pid>/stat *)
  cgroups : list cgroup;                  (* in directory order *)
  sockets : gmap string socket;           (* by path *)
  jails : gset string;                    (* jailer workspaces, by path *)
  ram : gmap string (json ramState);      (* <instance>/ram-state, by path *)
  disks : gmap string disk;               (* Btrfs subvolumes, by path *)
  exes : gmap Z (string * string);        (* /proc/<pid>/exe: bytes, --snapshot-version output *)
  installed : string * string;            (* the installed firecracker, likewise *)
}.

(** [launches] is a history variable: the attempts for which the runner called
    its start function, the latest first. *)
Record Host := mkHost {
  receipts : gmap string (gmap string file);   (* by receipt directory, by file name *)
  colds : gmap string (json coldDiskRecord);   (* <receipt directory>/cold/state *)
  markers : gmap string (string * string * bool);   (* <instance>/cold-disk.json, by path *)
  machine : Machine;
  launches : list StartResultRequest;
}.

Definition set_receipts v h := mkHost v (colds h) (markers h) (machine h) (launches h).
Definition set_colds v h := mkHost (receipts h) v (markers h) (machine h) (launches h).
Definition set_markers v h := mkHost (receipts h) (colds h) v (machine h) (launches h).
Definition set_machine v h := mkHost (receipts h) (colds h) (markers h) v (launches h).
Definition set_launches v h := mkHost (receipts h) (colds h) (markers h) (machine h) v.

Definition set_procs v m :=
  mkMachine (boot_file m) v (cgroups m) (sockets m) (jails m) (ram m) (disks m) (exes m) (installed m).
Definition set_cgroups v m :=
  mkMachine (boot_file m) (procs m) v (sockets m) (jails m) (ram m) (disks m) (exes m) (installed m).
Definition set_sockets v m :=
  mkMachine (boot_file m) (procs m) (cgroups m) v (jails m) (ram m) (disks m) (exes m) (installed m).
Definition set_jails v m :=
  mkMachine (boot_file m) (procs m) (cgroups m) (sockets m) v (ram m) (disks m) (exes m) (installed m).
Definition set_ram v m :=
  mkMachine (boot_file m) (procs m) (cgroups m) (sockets m) (jails m) v (disks m) (exes m) (installed m).
Definition set_disks v m :=
  mkMachine (boot_file m) (procs m) (cgroups m) (sockets m) (jails m) (ram m) v (exes m) (installed m).

(** A call that reads, or changes, only the machine. *)
Definition query_machine {A} (f : Machine → result A) : M Host A := query (λ h, f (machine h)).
Definition env_machine {A} (f : Machine → result A * Machine) : M Host A :=
  env (λ h, let '(r, m) := f (machine h) in (r, set_machine m h)).

(** A system call with no effect the model tracks, which can still fail. *)
Definition syscall : M Host unit := query (λ _, inl tt).

(** ** Configuration *)

Record ServerConfig := mkServerConfig {
  FirecrackerBinary : string;
  JailerBaseDir : string;
  InstancesDir : string;
  ColdHost : string;             (* ColdStorage.Host *)
}.

(** *** Paths *)

Definition directChildPath (base name : string) : result string :=
  let name := TrimSpace name in
  if String.eqb name "" then inr (Errorf "name is empty") else
  if String.eqb name "." || String.eqb name ".." || negb (String.eqb (Base name) name)
  then inr (Errorf "name must be a single path segment")
  else inl (JoinPath [Clean base; name]).

Record instanceRuntimePaths := mkInstancePaths {
  ip_SocketPath : string;
  ip_LogPath : string;
  ip_SerialLog : string;
  ip_RootFSPath : string;
}.

Definition resolveInstanceRuntimePaths (instancesDir name : string)
  : result instanceRuntimePaths :=
  instanceDir ← directChildPath instancesDir name;
  mret (mkInstancePaths (JoinPath [instanceDir; "firecracker.sock"])
          (JoinPath [instanceDir; "firecracker.log"]) (JoinPath [instanceDir; "serial.log"])
          (JoinPath [instanceDir; "disk"; "rootfs.img"])).

Record jailerRuntimePaths := mkJailerPaths {
  jp_WorkspaceDir : string;
  jp_RootDir : string;
  jp_SocketPath : string;
  jp_LogPath : string;
}.

Definition resolveJailerRuntimePaths (jailerBaseDir firecrackerBinary name : string)
  : result jailerRuntimePaths :=
  let execName := TrimSpace (Base (TrimSpace firecrackerBinary)) in
  if String.eqb execName "" || String.eqb execName "." || String.eqb execName "/"
  then inr (Errorf "resolve jailer workspace: firecracker binary path is invalid") else
  baseDir ← directChildPath jailerBaseDir execName;
  workspaceDir ← directChildPath baseDir name;
  let rootDir := JoinPath [workspaceDir; "root"] in
  mret (mkJailerPaths workspaceDir rootDir (JoinPath [rootDir; "firecracker.sock"])
          (JoinPath [rootDir; "firecracker.log"])).

Definition maxUnixSocketPathLen : nat := 107.

Definition validateHostSocketPaths (cfg : ServerConfig) (name kind : string) : result unit :=
  paths ← resolveInstanceRuntimePaths (InstancesDir cfg) name;
  jailerPaths ← resolveJailerRuntimePaths (JailerBaseDir cfg) (FirecrackerBinary cfg) name;
  let sockets :=
    ([jp_SocketPath jailerPaths; ip_SocketPath paths] ++
     (if String.eqb kind "orb" then [JoinPath [Dir (ip_SocketPath paths); "orb.vsock"]] else []))%list in
  if forallb (λ p, (String.length p <=? maxUnixSocketPathLen)%nat) sockets then mret tt
  else inr (Errorf "unix socket path is too long").
