(* ===== verification/Runtime.v ===== *)
(** * Probing and cleaning the runtime of an instance

    The parts of src/internal/vmrunner that inspect processes, sockets, cgroups and
    jails: receipts.go (identity checks), vmrunner.go (cgroup enumeration, cleanup)
    and the disk inspection the fences need. *)
From S2P Require Import Prelude GoStrings Paths RunnerState Encodings.

#[local] Open Scope Z_scope.

(** ** Processes *)

Definition hostBootID : M Host string :=
  b ← query_machine (λ m, inl (boot_file m));
  let id := TrimSpace b in
  if String.eqb id "" then throw (Errorf "empty host boot ID") else mret id.

(** The start time in a /proc/<pid>/stat line; zombies count as gone. *)
Definition read_ticks (stat : option string) : result Z :=
  match stat with
  | None => inr ErrNotExist
  | Some b =>
      match after_last ")" b with
      | None => inr (Errorf "invalid process stat")
      | Some rest =>
          let f := Fields rest in
          if (length f <? 20)%nat then inr (Errorf "short process stat")
          else if String.eqb (nth 0 f "") "Z" || String.eqb (nth 0 f "") "X" then inr ErrNotExist
          else ParseUint (nth 19 f "")
      end
  end.

Definition processTicks (pid : Z) : M Host Z :=
  query_machine (λ m, read_ticks (procs m !! pid)).

Definition process_exists (m : Machine) (pid : Z) : bool :=
  (0 <? pid) && bool_decide (is_Some (procs m !! pid)).

(** ** Sockets *)

Definition socket_path (cfg : ServerConfig) (name : string) : string :=
  JoinPath [InstancesDir cfg; name; "firecracker.sock"].

(** [net.DialTimeout]: the peer's PID when something listens. *)
Definition dial (path : string) (m : Machine) : result Z :=
  match sockets m !! path with
  | None => inr ErrNotExist
  | Some Refusing => inr ErrConnRefused
  | Some (Peer pid) => if process_exists m pid then inl pid else inr ErrConnRefused
  end.

(** The socket must belong to the recorded process, whose identity is checked
    again afterwards. *)
Definition validateRuntime (cfg : ServerConfig) (r : startReceipt) : M Host unit :=
  pid ← query_machine (dial (socket_path cfg (q_Name (sr_req r))));
  syscall;; syscall;;
  require (pid =? PID r) (Errorf "socket belongs to another process");;
  ticks ← processTicks (PID r);
  require (ticks =? Ticks r) (Errorf "process identity changed").

(** ** Cgroups *)

Fixpoint liveProcessPIDs (m : Machine) (seen pids : list Z) : list Z :=
  match pids with
  | [] => []
  | pid :: pids' =>
      if (pid <=? 0) || bool_decide (pid ∈ seen) then liveProcessPIDs m seen pids'
      else if process_exists m pid then pid :: liveProcessPIDs m (pid :: seen) pids'
      else liveProcessPIDs m (pid :: seen) pids'
  end.

Record runningVM := mkRunningVM { vm_Name : string; vm_SocketPath : string; vm_PIDs : list Z }.

(** [appendRunningVMsFromRoot] on the entries of one parent. *)
Fixpoint appendRunningVMs (cfg : ServerConfig) (m : Machine) (entries : list cgroup)
  : result (list runningVM) :=
  match entries with
  | [] => mret []
  | g :: entries' =>
      _ ← directChildPath "/" (cg_name g);
      match liveProcessPIDs m [] (cg_pids g) with
      | [] => appendRunningVMs cfg m entries'
      | pids =>
          paths ← resolveInstanceRuntimePaths (InstancesDir cfg) (cg_name g);
          vms ← appendRunningVMs cfg m entries';
          mret (mkRunningVM (cg_name g) (ip_SocketPath paths) pids :: vms)
      end
  end.

(** Fixed VMs first, then the pools; [delegatedCgroupRoot] is a call of its own. *)
Definition in_pool (g : cgroup) : bool := match cg_parent g with Some _ => true | None => false end.
Definition cgroup_listing (m : Machine) : list cgroup :=
  (filter (λ g, in_pool g = false) (cgroups m) ++ filter (λ g, in_pool g = true) (cgroups m))%list.

Definition listRunningVMs (cfg : ServerConfig) : M Host (list runningVM) :=
  syscall;; query_machine (λ m, appendRunningVMs cfg m (cgroup_listing m)).

Definition runs_name (name : string) (vms : list runningVM) : bool :=
  existsb (λ vm, String.eqb (vm_Name vm) name) vms.

Definition noLiveRuntimeLocked (cfg : ServerConfig) (name : string) : M Host unit :=
  vms ← listRunningVMs cfg;
  require (negb (runs_name name vms)) (Errorf "live cgroup occupies name");;
  r ← try (query_machine (dial (socket_path cfg name)));
  match r with
  | inl _ => throw (Errorf "live socket occupies name")
  | inr ErrNotExist => mret tt
  | inr ErrConnRefused => mret tt
  | inr e => throw e
  end.

(** [resolveFirecrackerCgroupPath]: the fixed cgroup, or the first pooled one. *)
Definition find_cgroup (m : Machine) (name : string) : option cgroup :=
  snd <$> list_find (λ g, cg_name g = name) (cgroup_listing m).

Definition cgroup_eqb (g g' : cgroup) : bool :=
  bool_decide (cg_parent g = cg_parent g') && String.eqb (cg_name g) (cg_name g').

(** Removing a cgroup directory fails while processes live in it. *)
Definition rmdir_cgroup (g : cgroup) (m : Machine) : result unit * Machine :=
  match liveProcessPIDs m [] (cg_pids g) with
  | [] => (inl tt, set_cgroups (filter (λ g', cgroup_eqb g g' = false) (cgroups m)) m)
  | _ => (inr (Errorf "cleanup firecracker cgroup"), m)
  end.

Definition cleanupFirecrackerCgroup (name : string) : M Host unit :=
  syscall;;
  g ← query_machine (λ m, match find_cgroup m name with
                          | Some g => inl g
                          | None => inr ErrNotExist
                          end);
  env_machine (rmdir_cgroup g).

(** ** Jails *)

(** [errors.Join] of two steps that are both attempted. *)
Definition both (a b : M Host unit) : M Host unit :=
  ra ← try a;
  rb ← try b;
  match ra, rb with
  | inl _, inl _ => mret tt
  | inr e, _ => throw e
  | _, inr e => throw e
  end.

(** [cleanupJailedRuntimePaths]: nothing is unlinked before the jail's mounts are
    gone; a missing path is no error. *)
Definition cleanupJailedRuntimePaths (host : instanceRuntimePaths) (jail : jailerRuntimePaths)
  : M Host unit :=
  syscall;; (* unmountJail *)
  both syscall (* orb.vsock *)
    (both (env_machine (λ m, (inl tt, set_sockets (delete (ip_SocketPath host) (sockets m)) m)))
       (env_machine (λ m, (inl tt, set_jails (jails m ∖ {[jp_WorkspaceDir jail]}) m)))).

Definition cleanupVMRuntime (cfg : ServerConfig) (name : string) : M Host unit :=
  host ← lift (resolveInstanceRuntimePaths (InstancesDir cfg) name);
  jail ← lift (resolveJailerRuntimePaths (JailerBaseDir cfg) (FirecrackerBinary cfg) name);
  cleanupJailedRuntimePaths host jail.

(** [os.Lstat] of a jail workspace or of a socket, as an existence test. *)
Definition lstat_jail (path : string) : M Host bool :=
  query_machine (λ m, inl (bool_decide (path ∈ jails m))).
Definition lstat_socket (path : string) : M Host bool :=
  query_machine (λ m, inl (bool_decide (is_Some (sockets m !! path)))).

(** ** Disks *)

Definition disk_path (cfg : ServerConfig) (name : string) : string :=
  JoinPath [InstancesDir cfg; name; "disk"].

(** [storage.ValidateDiskSubvolume]: the identity of the subvolume at a path, which
    has a persistent UUID and a nonempty rootfs.img. *)
Definition ValidateDiskSubvolume (path : string) : M Host SubvolumeIdentity :=
  query_machine (λ m, match disks m !! path with
                      | Some d =>
                          if String.eqb (sv_UUID (dk_id d)) ""
                          then inr (Errorf "subvolume without a persistent UUID")
                          else if nonempty (dk_content d) then inl (dk_id d)
                          else inr (Errorf "disk rootfs must be a nonempty regular file")
                      | None => inr (Errorf "not a disk subvolume")
                      end).

(** [stampFile] of a disk's rootfs.img. *)
Definition stampFile (path : string) : M Host fileStamp :=
  query_machine (λ m, match disks m !! path with
                      | Some d => inl (dk_stamp d)
                      | None => inr ErrNotExist
                      end).

(** ** Process control *)

(** The process behind a pidfd has exited (its PID may belong to another). *)
Definition exited (pid ticks : Z) (m : Machine) : bool :=
  match read_ticks (procs m !! pid) with inl t => negb (t =? ticks) | inr _ => true end.

Definition errProcessExitTimeout : error := Errorf "process did not exit before timeout".

Definition waitPidfd (pid ticks : Z) : M Host unit :=
  query_machine (λ m, if exited pid ticks m then inl tt else inr errProcessExitTimeout).

(** [PidfdSendSignal(SIGKILL)]; ESRCH is ignored by the callers. *)
Definition sigkill (pid ticks : Z) : M Host unit :=
  env_machine (λ m, (inl tt, if exited pid ticks m then m else set_procs (delete pid (procs m)) m)).
