(* ===== verification/Receipts.v ===== *)
(** * Start receipts

    Models src/internal/vmrunner/receipts.go, with the start fences of cold_disk.go
    and the RAM-state checks of ram_state.go it calls: every managed start attempt
    has a durable receipt that is accepted before the launch, started once the
    launched process is identified, and closed when the attempt is over. *)
From S2P Require Import Prelude GoStrings Paths RunnerState Runtime Encodings.

#[local] Open Scope Z_scope.

(** [text_le] orders directory entries by name, as [os.ReadDir] does. *)
Definition name_le (a b : string) : Prop := String.leb a b = true.
#[export] Instance name_le_dec : RelDecision name_le.
Proof. intros a b. apply bool_eq_dec. Defined.

Definition receiptKey (s : string) : string := sha256_hex s.
Definition receiptDir (cfg : ServerConfig) (name : string) : string :=
  JoinPath [JailerBaseDir cfg; ".start-receipts"; receiptKey name].
Definition receipt_file (id : string) : string := (receiptKey id +:+ ".json")%stdpp.
Definition fence_file (instanceID : string) : string :=
  ("cold-deleted-" +:+ receiptKey instanceID)%stdpp.

(** The flat files of an instance name's directory. *)
Definition dir_of (cfg : ServerConfig) (name : string) (h : Host) : option (gmap string file) :=
  receipts h !! receiptDir cfg name.
Definition lookup_file (cfg : ServerConfig) (name fname : string) (h : Host) : option file :=
  dir_of cfg name h ≫= λ d, d !! fname.
Definition put_file (cfg : ServerConfig) (name fname : string) (f : file) (h : Host) : Host :=
  set_receipts
    (<[receiptDir cfg name := <[fname := f]> (default ∅ (dir_of cfg name h))]> (receipts h)) h.

(** ** The name lock *)

Definition mkdir_receipts (cfg : ServerConfig) (name : string) (h : Host) : Host :=
  match dir_of cfg name h with
  | Some _ => h
  | None => set_receipts (<[receiptDir cfg name := ∅]> (receipts h)) h
  end.

Definition touch_lock (cfg : ServerConfig) (name : string) (h : Host) : Host :=
  match lookup_file cfg name "lock" h with
  | Some _ => h
  | None => put_file cfg name "lock" F_other h
  end.

Definition lockName (cfg : ServerConfig) (name : string) : M Host unit :=
  require (validName name) (Errorf "invalid instance name");;
  require (nonempty (JailerBaseDir cfg))
    (Errorf "jailer base directory required for lifecycle locking");;
  env (λ h, (inl tt, mkdir_receipts cfg name h));;
  syscall;; syscall;; syscall;; syscall;; (* syncDirectory *)
  env (λ h, (inl tt, touch_lock cfg name h));;
  syscall. (* flock *)

(** ** Reading and writing receipts *)

(** The receipt replaces its predecessor by a rename: a crash leaves either. *)
Definition writeReceipt (cfg : ServerConfig) (r : startReceipt) : M Host unit :=
  let name := q_Name (sr_req r) in
  query (λ h, match dir_of cfg name h with Some _ => inl tt | None => inr ErrNotExist end);;
  syscall;; syscall;; syscall;; (* Write, Sync, Close *)
  env (λ h, (inl tt, put_file cfg name (receipt_file (q_RequestID (sr_req r))) (F_receipt r) h));;
  syscall. (* syncDirectory *)

Definition decode_receipt (f : file) : result startReceipt :=
  match f with F_receipt r => inl r | _ => inr (Errorf "invalid JSON") end.

Definition known_state (s : string) : bool :=
  String.eqb s "accepted" || String.eqb s "started" || String.eqb s "closed".

(** What [readReceipt] demands of the file it found. *)
Definition checkReceipt (q : StartResultRequest) (f : file) : result startReceipt :=
  r ← decode_receipt f;
  if negb (bool_decide (sr_req r = q)) then inr (Errorf "receipt identity mismatch") else
  _ ← Validate (sr_req r);
  if negb (known_state (RState r)) then inr (Errorf "corrupt receipt state") else
  if negb (String.eqb (RState r) "closed") && negb (String.length (Digest r) =? 64)%nat
  then inr (Errorf "corrupt receipt digest") else
  if String.eqb (RState r) "started" &&
     ((PID r <=? 0) || (Ticks r =? 0) || String.eqb (Digest r) "")
  then inr (Errorf "corrupt started receipt") else mret r.

Definition readReceipt (cfg : ServerConfig) (q : StartResultRequest)
  : M Host (option startReceipt) :=
  f ← query (λ h, inl (lookup_file cfg (q_Name q) (receipt_file (q_RequestID q)) h));
  match f with
  | None => mret None
  | Some f => r ← lift (checkReceipt q f); mret (Some r)
  end.

(** One directory entry of [activeReceipt]. *)
Definition read_entry (cfg : ServerConfig) (name e : string) : M Host startReceipt :=
  f ← query (λ h, match lookup_file cfg name e h with
                  | Some f => inl f
                  | None => inr ErrNotExist
                  end);
  r ← lift (decode_receipt f);
  require (String.eqb (q_Name (sr_req r)) name && String.eqb e (receipt_file (q_RequestID (sr_req r))))
    (Errorf "corrupt receipt identity");;
  checked ← readReceipt cfg (sr_req r);
  match checked with
  | Some r => mret r
  | None => throw (Errorf "nil receipt") (* the file was just read *)
  end.

Fixpoint scan_active (cfg : ServerConfig) (name : string) (entries : list string)
    (active : option startReceipt) : M Host (option startReceipt) :=
  match entries with
  | [] => mret active
  | e :: entries' =>
      if negb (HasSuffix e ".json") then scan_active cfg name entries' active else
      checked ← read_entry cfg name e;
      if negb (String.eqb (RState checked) "closed") then
        match active with
        | Some _ => throw (Errorf "multiple active attempts")
        | None => scan_active cfg name entries' (Some checked)
        end
      else scan_active cfg name entries' active
  end.

Definition activeReceipt (cfg : ServerConfig) (name : string) : M Host (option startReceipt) :=
  entries ← query (λ h, match dir_of cfg name h with
                        | Some d => inl (merge_sort name_le (map fst (map_to_list d)))
                        | None => inr ErrNotExist
                        end);
  scan_active cfg name entries None.

(** [a != nil && a.StartResultRequest == r.StartResultRequest], with the error. *)
Definition owns (q : StartResultRequest) (a : result (option startReceipt)) : bool :=
  match a with
  | inl (Some a) => bool_decide (sr_req a = q)
  | _ => false
  end.

Definition with_state (state : string) (r : startReceipt) : startReceipt :=
  mkReceipt (sr_req r) (Digest r) state (PID r) (Ticks r) (ResumeConfig r) (SaveState r).

(** ** Resolving an attempt *)

Definition nameVacantLocked (cfg : ServerConfig) (name : string) : M Host unit :=
  a ← activeReceipt cfg name;
  match a with
  | Some _ => throw (Errorf "another attempt occupies name")
  | None =>
      noLiveRuntimeLocked cfg name;;
      paths ← lift (resolveJailerRuntimePaths (JailerBaseDir cfg) (FirecrackerBinary cfg) name);
      jail ← lstat_jail (jp_WorkspaceDir paths);
      require (negb jail) (Errorf "unowned runtime path");;
      sock ← lstat_socket (socket_path cfg name);
      require (negb sock) (Errorf "unowned runtime path")
  end.

Definition unknown (reason : string) : StartResponse := mkStartResponse StartUnknown reason 0.
Definition absent (reason : string) : StartResponse := mkStartResponse StartAbsent reason 0.

(** [err != nil && !errors.Is(err, os.ErrNotExist)] is returned. *)
Definition ignore_missing (m : M Host unit) : M Host unit :=
  v ← try m;
  match v with
  | inl _ => mret tt
  | inr ErrNotExist => mret tt
  | inr e => throw e
  end.

Definition finishDeadReceiptLocked (cfg : ServerConfig) (r : startReceipt)
  : M Host StartResponse :=
  let name := q_Name (sr_req r) in
  a ← try (activeReceipt cfg name);
  if negb (owns (sr_req r) a) then mret (unknown "receipt ownership ambiguous") else
  live ← try (noLiveRuntimeLocked cfg name);
  match live with
  | inr _ => mret (unknown "runtime absence cannot be verified")
  | inl _ =>
      ignore_missing (cleanupFirecrackerCgroup name);;
      cleanupVMRuntime cfg name;;
      writeReceipt cfg (with_state "closed" r);;
      mret (absent "dead owned runtime cleaned")
  end.

(** Whether [processTicks] shows that the receipt's process is gone. *)
Definition process_gone (r : startReceipt) (t : result Z) : bool :=
  match t with
  | inr ErrNotExist => true
  | inr _ => false
  | inl ticks => negb (ticks =? Ticks r)
  end.

Definition resultLocked (cfg : ServerConfig) (r : startReceipt) : M Host StartResponse :=
  let name := q_Name (sr_req r) in
  boot ← hostBootID;
  if String.eqb (RState r) "closed" then
    v ← try (nameVacantLocked cfg name);
    match v with
    | inr _ => mret (unknown "name is not proven vacant")
    | inl _ => mret (absent "attempt fenced")
    end
  else if negb (String.eqb (q_HostBootID (sr_req r)) boot) then finishDeadReceiptLocked cfg r
  else if String.eqb (RState r) "accepted" then
    mret (unknown "launch may have occurred; attempt quarantined")
  else
    a ← try (activeReceipt cfg name);
    if negb (owns (sr_req r) a) then mret (unknown "receipt ownership ambiguous") else
    t ← try (processTicks (PID r));
    if process_gone r t then finishDeadReceiptLocked cfg r else
    match t with
    | inr e => throw e
    | inl _ =>
        v ← try (validateRuntime cfg r);
        match v with
        | inr _ => mret (unknown "runtime ownership cannot be verified")
        | inl _ => mret (mkStartResponse StartRunning "" (PID r))
        end
    end.

Definition resolveStart (cfg : ServerConfig) (q : StartResultRequest) : M Host StartResponse :=
  lockName cfg (q_Name q);;
  r ← readReceipt cfg q;
  match r with
  | Some r => resultLocked cfg r
  | None =>
      let r := mkReceipt q "" "closed" 0 0 "" false in
      writeReceipt cfg r;;
      resultLocked cfg r
  end.

(** ** Fences *)

Definition err_deletion : error :=
  Errorf "disk incarnation has deletion intent; retry delete, not offload or start".

Definition coldDeletionFence (cfg : ServerConfig) (name instanceID : string) : M Host unit :=
  f ← try (query (λ h, inl (lookup_file cfg name (fence_file instanceID) h)));
  match f with
  | inl None => mret tt
  | _ => throw err_deletion
  end.

Definition cold_phases : list string :=
  ["offloading"; "evicting"; "cold"; "restoring"; "hot"; "purged"].

Definition check_cold (instanceID : string) (r : coldDiskRecord) : result coldDiskRecord :=
  if negb (cd_Version r =? 1) || negb (String.eqb (cd_InstanceID r) instanceID) ||
     String.eqb (sv_UUID (cd_Disk r)) ""
  then inr (Errorf "cold disk identity mismatch; operator inspection required")
  else if bool_decide (cd_Phase r ∈ cold_phases) then mret r
  else inr (Errorf "unknown cold disk phase").

Definition readCold (cfg : ServerConfig) (name instanceID : string)
  : M Host (option coldDiskRecord) :=
  syscall;; (* storage.ValidatePath *)
  f ← query (λ h, inl (colds h !! receiptDir cfg name));
  match f with
  | None => mret None
  | Some f => r ← lift (unmarshal f); r ← lift (check_cold instanceID r); mret (Some r)
  end.

Definition coldStartFence (cfg : ServerConfig) (name instanceID : string) : M Host unit :=
  coldDeletionFence cfg name instanceID;;
  r ← readCold cfg name instanceID;
  match r with
  | None => mret tt
  | Some r =>
      require (String.eqb (cd_Phase r) "hot" || String.eqb (cd_Phase r) "purged")
        (Errorf "disk requires hydration before start");;
      id ← try (ValidateDiskSubvolume (disk_path cfg name));
      require (match id with inl id => bool_decide (id = cd_Disk r) | inr _ => false end)
        (Errorf "authoritative hot disk is missing or changed")
  end.

(** ** Saved RAM *)

Definition ramStateDir (cfg : ServerConfig) (name : string) : string :=
  JoinPath [InstancesDir cfg; name; "ram-state"].

Definition readRAMState (cfg : ServerConfig) (name : string) : M Host (option ramState) :=
  f ← query_machine (λ m, inl (ram m !! ramStateDir cfg name));
  match f with
  | None => mret None
  | Some f =>
      syscall;;
      st ← lift (unmarshal f);
      require (String.eqb (q_Name (Attempt st)) name && complete_identity (Attempt st) &&
               nonempty (rm_Config st)) (Errorf "invalid RAM state identity");;
      mret (Some st)
  end.

Definition discardRAMState (cfg : ServerConfig) (name : string) : M Host unit :=
  f ← query_machine (λ m, inl (ram m !! ramStateDir cfg name));
  match f with
  | None => mret tt
  | Some _ =>
      syscall;;
      env_machine (λ m, (inl tt, set_ram (delete (ramStateDir cfg name) (ram m)) m));;
      syscall
  end.

Definition is_digit (c : ascii) : bool :=
  let n := byte_value c in (48 <=? n) && (n <=? 57).

(** [^v[0-9]+\.[0-9]+\.[0-9]+$] *)
Definition snapshotVersionOutput (v : string) : bool :=
  match CutPrefix v "v" with
  | Some rest =>
      let parts := Split rest "." in
      (length parts =? 3)%nat && forallb (λ p, nonempty p && all_chars is_digit p) parts
  | None => false
  end.

Definition newline : ascii := byte 10.

(** [ramSnapshotVersion]: the first line the binary prints. *)
Definition snapshot_version (output : string) : result string :=
  let '(line, _, _) := Cut output newline in
  let version := TrimSpace line in
  if snapshotVersionOutput version then inl version
  else inr (Errorf "invalid Firecracker snapshot format output").

(** ** Starting *)

Section start.
(** [json.Marshal] of a start request, and the launch itself: [startVM] up to the
    Firecracker SDK's [machine.Start]. *)
Context (marshal : StartRequest → string) (start : StartRequest → M Host StartResponse).
Context (cfg : ServerConfig).

Definition resumeConfig (req : StartRequest) : string :=
  receiptKey (marshal
    (mkStartRequest false (sq_Kind req) (sq_KernelPath req) (sq_InitrdPath req)
       (sq_InstanceID req) "" "" (sq_Name req) (sq_TapDevice req) (sq_GuestMAC req)
       (sq_GuestAddr req) (sq_GatewayAddr req) (sq_Nameservers req) (sq_VCPUCount req)
       (sq_MemoryMiB req) (sq_MemoryMode req) (sq_MemoryPoolName req)
       (sq_MemoryPoolSizeBytes req) (sq_KernelArgs req) no_bootstrap)).

Definition checkRAMState (req : StartRequest) : M Host (option ramState) :=
  let name := sq_Name req in
  if sq_DiscardState req then discardRAMState cfg name;; mret None else
  st ← readRAMState cfg name;
  match st with
  | None => mret None
  | Some st =>
      require (String.eqb (q_InstanceID (Attempt st)) (sq_InstanceID req) &&
               String.eqb (rm_Config st) (resumeConfig req))
        (Errorf "RAM state does not match VM configuration; use start --discard-state");;
      r ← readReceipt cfg (Attempt st);
      require (match r with
               | Some r => String.eqb (RState r) "closed" && SaveState r
               | None => false
               end) (Errorf "RAM state source has not finished stopping");;
      disk ← stampFile (disk_path cfg name);
      require (bool_decide (disk = rm_Disk st))
        (Errorf "disk changed since suspend; use start --discard-state");;
      if String.eqb (SnapshotVersion st) "" then discardRAMState cfg name;; mret None else
      syscall;;
      v ← query_machine (λ m, inl (installed m));
      version ← lift (snapshot_version v.2);
      if negb (String.eqb version (SnapshotVersion st)) then discardRAMState cfg name;; mret None
      else mret (Some st)
  end.

Definition attempt (req : StartRequest) : StartResultRequest :=
  mkStartResultRequest (sq_Name req) (sq_InstanceID req) (sq_RequestID req) (sq_HostBootID req).

(** [s.start]: the call is recorded in the history variable. *)
Definition record_launch (q : StartResultRequest) : M Host unit := λ fs h,
  (Ok tt, set_launches (q :: launches h) h, fs).

Definition s_start (req : StartRequest) : M Host StartResponse :=
  record_launch (attempt req);; start req.

(** The launch of an accepted attempt and what becomes of its receipt. *)
Definition launch (r : startReceipt) (req : StartRequest) : M Host StartResponse :=
  resp ← try (s_start req);
  match resp with
  | inr _ => mret (unknown "launch failed after acceptance; quarantined")
  | inl resp =>
      ticks ← try (processTicks (rs_PID resp));
      match ticks with
      | inr _ => mret (unknown "launched process identity unavailable")
      | inl ticks =>
          let r := mkReceipt (sr_req r) (Digest r) "started" (rs_PID resp) ticks
                     (ResumeConfig r) (SaveState r) in
          writeReceipt cfg r;;
          resultLocked cfg r
      end
  end.

(** Nothing unowned may occupy the name. *)
Definition unowned_runtime (name : string) : M Host bool :=
  paths ← lift (resolveJailerRuntimePaths (JailerBaseDir cfg) (FirecrackerBinary cfg) name);
  jail ← lstat_jail (jp_WorkspaceDir paths);
  if (jail : bool) then mret true else lstat_socket (socket_path cfg name).

(** A first attempt, below the fences. *)
Definition new_attempt (req : StartRequest) (digest : string) : M Host StartResponse :=
  let name := sq_Name req in
  boot ← hostBootID;
  let r := mkReceipt (attempt req) digest "closed" 0 0 "" false in
  if negb (String.eqb boot (sq_HostBootID req)) then writeReceipt cfg r;; resultLocked cfg r else
  a ← activeReceipt cfg name;
  match a with
  | Some _ => mret (unknown "another attempt occupies name")
  | None =>
      vms ← listRunningVMs cfg;
      if runs_name name vms then mret (unknown "unowned cgroup runtime occupies name") else
      occupied ← unowned_runtime name;
      if (occupied : bool) then mret (unknown "unowned runtime occupies name") else
      v ← try (checkRAMState req);
      match v with
      | inr e => writeReceipt cfg r;; mret (absent (error_text e))
      | inl _ =>
          let r := mkReceipt (attempt req) digest "accepted" 0 0 (resumeConfig req) false in
          writeReceipt cfg r;;
          launch r req
      end
  end.

(** [receiptStart] of a request without an ID: the legacy path. *)
Definition legacyStart (req : StartRequest) : M Host StartResponse :=
  let name := sq_Name req in
  coldStartFence cfg name (sq_InstanceID req);;
  a ← activeReceipt cfg name;
  match a with
  | Some _ => mret (unknown "managed attempt occupies name")
  | None => s_start req
  end.

Definition managedStart (req : StartRequest) : M Host StartResponse :=
  let q := attempt req in
  lift (Validate q);;
  let digest := receiptKey (marshal req) in
  r ← readReceipt cfg q;
  match r with
  | Some r =>
      if nonempty (Digest r) && negb (String.eqb (Digest r) digest)
      then throw (Errorf "start request payload mismatch")
      else resultLocked cfg r
  | None =>
      coldStartFence cfg (sq_Name req) (sq_InstanceID req);;
      new_attempt req digest
  end.

Definition receiptStart (req : StartRequest) : M Host StartResponse :=
  if negb (nonempty (sq_RequestID req)) && negb (nonempty (JailerBaseDir cfg)) then s_start req else
  lift (validateHostSocketPaths cfg (sq_Name req) (sq_Kind req));;
  lockName cfg (sq_Name req);;
  if negb (nonempty (sq_RequestID req)) then legacyStart req else managedStart req.
End start.
