(* ===== verification/ReceiptStop.v ===== *)
(** * Stopping attempts

    Models the stop half of src/internal/vmrunner/receipts.go, [saveRAMState] of
    ram_state.go, [shutdownRunningVM] of vmrunner.go and the deletion proof of
    cleanup.go. *)
From S2P Require Import Prelude GoStrings Paths RunnerState Runtime Receipts Encodings.

#[local] Open Scope Z_scope.

Section stop.
(** What a guest does with the shutdown request it is sent, the Firecracker SDK's
    part of [requestGuestShutdown], and what waiting for it lets happen. *)
Context (guest_shutdown : string → Machine → Machine).
Context (cfg : ServerConfig).

Definition requestGuestShutdown (path : string) : M Host unit :=
  env_machine (λ m, (inl tt, guest_shutdown path m)).

(** Wait for the exit, kill after the grace period, wait again. *)
Definition wait_or_kill (pid ticks : Z) : M Host unit :=
  w ← try (waitPidfd pid ticks);
  match w with
  | inl _ => mret tt
  | inr e =>
      if bool_decide (e = errProcessExitTimeout)
      then sigkill pid ticks;; waitPidfd pid ticks
      else throw e
  end.

(** ** Saving RAM *)

Definition probe_rename : M Host unit := syscall;; syscall;; syscall;; syscall;; syscall.

Definition checkRAMStateLayout (name : string) : M Host unit :=
  lift (resolveJailerRuntimePaths (JailerBaseDir cfg) (FirecrackerBinary cfg) name);;
  probe_rename.

(** The API calls that pause the VM and write the image, up to the rename that
    publishes it. *)
Definition saveRAMState (r : startReceipt) : M Host unit :=
  let name := q_Name (sr_req r) in
  require (nonempty (ResumeConfig r))
    (Errorf "VM predates RAM-state support; cold-start it before suspending");;
  st ← readRAMState cfg name;
  match st with
  | Some st =>
      require (bool_decide (Attempt st = sr_req r))
        (Errorf "RAM state belongs to another attempt");;
      syscall
  | None =>
      lift (resolveJailerRuntimePaths (JailerBaseDir cfg) (FirecrackerBinary cfg) name);;
      syscall;; (* GET /machine-config *)
      syscall;; syscall;; syscall;; (* RemoveAll, Mkdir, Chown of the stage *)
      syscall;; (* Statfs, and the space it must show *)
      exe ← query_machine (λ m, match exes m !! PID r with
                                | Some e => inl e
                                | None => inr ErrNotExist
                                end);
      version ← lift (snapshot_version exe.2);
      syscall;; syscall;; (* PATCH /vm Paused, PUT /snapshot/create *)
      stamp ← stampFile (disk_path cfg name);
      syscall;; syscall;; syscall;; (* sync both images, write state.json *)
      env_machine (λ m, (inl tt,
        set_ram (<[ramStateDir cfg name :=
          Some (mkRamState (sr_req r) (ResumeConfig r) stamp (sha256_hex exe.1) version)]>
          (ram m)) m));;
      syscall
  end.

(** ** Stopping *)

Definition absent_or_reason (resp : StartResponse) : M Host unit :=
  require (String.eqb (Outcome resp) StartAbsent) (Errorf (Reason resp)).

Definition stop_live (r : startReceipt) : M Host unit :=
  let name := q_Name (sr_req r) in
  a ← try (activeReceipt cfg name);
  require (owns (sr_req r) a) (Errorf "receipt ownership ambiguous");;
  syscall;; (* PidfdOpen *)
  validateRuntime cfg r;;
  (if SaveState r then saveRAMState r
   else _ ← try (requestGuestShutdown (socket_path cfg name)); mret tt);;
  wait_or_kill (PID r) (Ticks r);;
  noLiveRuntimeLocked cfg name;;
  ignore_missing (cleanupFirecrackerCgroup name);;
  cleanupVMRuntime cfg name;;
  writeReceipt cfg (with_state "closed" r).

Definition stopReceiptLocked (r : startReceipt) : M Host unit :=
  boot ← hostBootID;
  if String.eqb (RState r) "closed" then mret tt else
  if negb (String.eqb (q_HostBootID (sr_req r)) boot) then
    resp ← finishDeadReceiptLocked cfg r; absent_or_reason resp
  else if negb (String.eqb (RState r) "started") then
    throw (Errorf "cannot stop quarantined or unverified attempt")
  else
    t ← try (processTicks (PID r));
    if process_gone r t then resp ← finishDeadReceiptLocked cfg r; absent_or_reason resp
    else match t with
         | inr e => throw e
         | inl _ => stop_live r
         end.

(** The single process of a runtime without receipts. *)
Fixpoint owned_legacy (name : string) (vms : list runningVM) (owned : option runningVM)
  : result (option runningVM) :=
  match vms with
  | [] => mret owned
  | vm :: vms' =>
      if negb (String.eqb (vm_Name vm) name) then owned_legacy name vms' owned
      else match owned, vm_PIDs vm with
           | None, [_] => owned_legacy name vms' (Some vm)
           | _, _ => inr (Errorf "legacy runtime ownership ambiguous")
           end
  end.

Definition stop_legacy_process (name : string) (suppliedPID : Z) (vm : runningVM) : M Host unit :=
  let pid := hd 0 (vm_PIDs vm) in
  require (negb ((0 <? suppliedPID) && negb (suppliedPID =? pid)))
    (Errorf "legacy runtime PID mismatch");;
  syscall;;
  ticks ← processTicks pid;
  validateRuntime cfg
    (mkReceipt (mkStartResultRequest name "" "" "") "" "" pid ticks "" false);;
  _ ← try (requestGuestShutdown (vm_SocketPath vm));
  wait_or_kill pid ticks.

Definition stopLegacyLocked (name : string) (suppliedPID : Z) : M Host unit :=
  vms ← listRunningVMs cfg;
  owned ← lift (owned_legacy name vms None);
  (match owned with
   | Some vm => stop_legacy_process name suppliedPID vm
   | None => mret tt
   end);;
  noLiveRuntimeLocked cfg name;;
  ignore_missing (cleanupFirecrackerCgroup name);;
  cleanupVMRuntime cfg name.

(** A stop without an attempt: a deleted incarnation is left alone. *)
Definition legacyStop (req : StopRequest) : M Host unit :=
  let name := tq_Name req in
  fence ← (if nonempty (tq_InstanceID req)
           then query (λ h, inl (lookup_file cfg name (fence_file (tq_InstanceID req)) h))
           else mret None);
  match fence with
  | Some (F_fence id) =>
      require (String.eqb id (tq_InstanceID req)) (Errorf "invalid incarnation deletion fence")
  | Some _ => throw (Errorf "invalid incarnation deletion fence")
  | None =>
      a ← activeReceipt cfg name;
      match a with
      | Some _ => throw (Errorf "managed attempt occupies name")
      | None => stopLegacyLocked name (tq_PID req)
      end
  end.

Definition with_save (r : startReceipt) : startReceipt :=
  mkReceipt (sr_req r) (Digest r) (RState r) (PID r) (Ticks r) (ResumeConfig r) true.

Definition stop_attempt (req : StopRequest) : StartResultRequest :=
  mkStartResultRequest (tq_Name req) (tq_InstanceID req) (tq_RequestID req) (tq_HostBootID req).

(** Save intent is recorded before the stop. *)
Definition intend_save (req : StopRequest) (r : startReceipt) : M Host startReceipt :=
  if tq_SaveState req && negb (SaveState r) then
    require (String.eqb (RState r) "started" && nonempty (ResumeConfig r))
      (Errorf "saving RAM requires a running VM started with RAM-state support");;
    checkRAMStateLayout (q_Name (sr_req r));;
    writeReceipt cfg (with_save r);;
    mret (with_save r)
  else mret r.

Definition managedStop (req : StopRequest) : M Host unit :=
  let q := stop_attempt req in
  lift (Validate q);;
  r ← readReceipt cfg q;
  match r with
  | None => throw (Errorf "start receipt not found")
  | Some r =>
      r ← intend_save req r;
      stopReceiptLocked r;;
      if tq_SaveState req then
        st ← readRAMState cfg (q_Name (sr_req r));
        require (match st with Some st => bool_decide (Attempt st = sr_req r) | None => false end)
          (Errorf "no saved RAM for this attempt: source exited before capture, or snapshot was already consumed")
      else mret tt
  end.

Definition receiptStop (req : StopRequest) : M Host unit :=
  if tq_SaveState req && negb (nonempty (tq_RequestID req))
  then throw (Errorf "saving RAM requires a managed start attempt") else
  if negb (nonempty (tq_RequestID req)) && negb (nonempty (JailerBaseDir cfg))
  then stopLegacyLocked (tq_Name req) (tq_PID req) else
  lockName cfg (tq_Name req);;
  if negb (nonempty (tq_RequestID req)) then legacyStop req else managedStop req.

(** One VM of a runner shutdown. *)
Definition shutdownRunningVM (name : string) : M Host unit :=
  lockName cfg name;;
  a ← activeReceipt cfg name;
  match a with
  | Some a => stopReceiptLocked a
  | None => stopLegacyLocked name 0
  end.
End stop.

(** ** The deletion proof *)
Section deletion.
Context (cfg : ServerConfig).

Definition storageIdleLocked (name : string) : M Host unit :=
  nameVacantLocked cfg name;;
  syscall;; (* delegatedCgroupRoot *)
  g ← query_machine (λ m, inl (find_cgroup m name));
  match g with
  | Some _ => throw (Errorf "cgroup still present")
  | None => mret tt
  end.

Definition verifyDeletion (q : StartResultRequest) : M Host unit :=
  require (validName (q_Name q) && nonempty (q_InstanceID q) &&
           Bool.eqb (nonempty (q_RequestID q)) (nonempty (q_HostBootID q)))
    (Errorf "complete incarnation and optional complete attempt required");;
  lockName cfg (q_Name q);;
  f ← query (λ h, match lookup_file cfg (q_Name q) (fence_file (q_InstanceID q)) h with
                  | Some f => inl f
                  | None => inr ErrNotExist
                  end);
  require (match f with F_fence id => String.eqb id (q_InstanceID q) | _ => false end)
    (Errorf "exact incarnation deletion fence required");;
  (if nonempty (q_RequestID q) then
     r ← readReceipt cfg q;
     require (match r with Some r => String.eqb (RState r) "closed" | None => false end)
       (Errorf "exact attempt not closed")
   else mret tt);;
  cold ← try (readCold cfg (q_Name q) (q_InstanceID q));
  require (match cold with inl None => true | _ => false end)
    (Errorf "cold disk journal must be settled before runtime cleanup proof");;
  storageIdleLocked (q_Name q).
End deletion.
