(* ===== verification/RunnerTrace.v ===== *)
(** * What the runner does to its journals

    Every call of the runner moves the journals along [jstep]: receipts are
    registered once, move forward and are never removed; an attempt is launched
    only while its receipt is accepted.  The invariant [journal_ok] follows by rule
    induction. *)
From S2P Require Import Prelude GoStrings Paths RunnerState Runtime Receipts ReceiptStop Encodings.
From stdpp Require Import relations.

#[local] Open Scope Z_scope.

(** ** File names *)

Lemma receipt_fence_ne id instanceID : receipt_file id ≠ fence_file instanceID.
Proof.
  intros H. apply (f_equal String.length) in H. unfold receipt_file, fence_file, receiptKey in H.
  rewrite !length_append, !length_sha256_hex in H. simpl in H. lia.
Qed.

Lemma receipt_lock_ne id : receipt_file id ≠ "lock".
Proof.
  intros H. apply (f_equal String.length) in H. unfold receipt_file, receiptKey in H.
  rewrite !length_append, !length_sha256_hex in H. simpl in H. lia.
Qed.

Lemma fence_lock_ne id : fence_file id ≠ "lock".
Proof.
  intros H. apply (f_equal String.length) in H. unfold fence_file, receiptKey in H.
  rewrite !length_append, !length_sha256_hex in H. simpl in H. lia.
Qed.

Lemma HasSuffix_receipt id : HasSuffix (receipt_file id) ".json" = true.
Proof. apply HasSuffix_append. Qed.

Section trace.
Context (cfg : ServerConfig).

(** ** Files *)

Definition file_of (q : StartResultRequest) (h : Host) : option file :=
  lookup_file cfg (q_Name q) (receipt_file (q_RequestID q)) h.
Definition put_receipt (r : startReceipt) (h : Host) : Host :=
  put_file cfg (q_Name (sr_req r)) (receipt_file (q_RequestID (sr_req r))) (F_receipt r) h.
Definition fenced (name instanceID : string) (h : Host) : Prop :=
  is_Some (lookup_file cfg name (fence_file instanceID) h).

(** The file at a directory path and file name. *)
Definition at_path (D fname : string) (h : Host) : option file := receipts h !! D ≫= (.!! fname).

Lemma lookup_at_path name fname h : lookup_file cfg name fname h = at_path (receiptDir cfg name) fname h.
Proof. done. Qed.

Lemma at_path_put name fname f h D fname' :
  at_path D fname' (put_file cfg name fname f h) =
    if bool_decide (D = receiptDir cfg name ∧ fname' = fname) then Some f else at_path D fname' h.
Proof.
  unfold at_path, put_file, dir_of. simpl. case_bool_decide as Hd.
  - destruct Hd as [-> ->]. rewrite lookup_insert_eq. simpl. by rewrite lookup_insert_eq.
  - destruct (decide (D = receiptDir cfg name)) as [->|Hne].
    + rewrite lookup_insert_eq. simpl. rewrite lookup_insert_ne by naive_solver.
      by destruct (receipts h !! receiptDir cfg name).
    + by rewrite lookup_insert_ne.
Qed.

Lemma at_path_mkdir name h D fname : at_path D fname (mkdir_receipts cfg name h) = at_path D fname h.
Proof.
  unfold mkdir_receipts, dir_of. destruct (receipts h !! _) eqn:Hd; [done|].
  unfold at_path. simpl. destruct (decide (D = receiptDir cfg name)) as [->|Hne].
  - by rewrite lookup_insert_eq, Hd.
  - by rewrite lookup_insert_ne.
Qed.

Lemma at_path_lock name h D fname :
  fname ≠ "lock" → at_path D fname (touch_lock cfg name h) = at_path D fname h.
Proof.
  intros Hne. unfold touch_lock. destruct (lookup_file _ _ _ _); [done|].
  rewrite at_path_put, bool_decide_eq_false_2; [done|]. by intros [_ ->].
Qed.

Lemma at_path_lock_receipt name h D fname r :
  at_path D fname (touch_lock cfg name h) = Some (F_receipt r) →
  at_path D fname h = Some (F_receipt r).
Proof.
  unfold touch_lock. destruct (lookup_file _ _ _ _); [done|].
  rewrite at_path_put. by case_bool_decide.
Qed.

(** ** Steps *)

(** A receipt's moves: identity, digest and configuration stay. *)
Inductive receipt_step (r : startReceipt) : startReceipt → Prop :=
  | rs_started pid ticks :
      RState r = "accepted" →
      receipt_step r (mkReceipt (sr_req r) (Digest r) "started" pid ticks (ResumeConfig r) (SaveState r))
  | rs_save : RState r = "started" → receipt_step r (with_save r)
  | rs_closed : RState r ≠ "closed" → receipt_step r (with_state "closed" r).

Definition no_active (name : string) (h : Host) : Prop :=
  ∀ fname r, lookup_file cfg name fname h = Some (F_receipt r) →
    HasSuffix fname ".json" = true → RState r = "closed".

Inductive jstep : Host → Host → Prop :=
  | js_frame h h' : receipts h' = receipts h → launches h' = launches h → jstep h h'
  | js_dir name h : jstep h (mkdir_receipts cfg name h)
  | js_lock name h : jstep h (touch_lock cfg name h)
  | js_fence name id h : jstep h (put_file cfg name (fence_file id) (F_fence id) h)
  | js_register r h :
      file_of (sr_req r) h = None →
      RState r = "closed" ∨ (RState r = "accepted" ∧ no_active (q_Name (sr_req r)) h) →
      jstep h (put_receipt r h)
  | js_update r0 r h :
      file_of (sr_req r) h = Some (F_receipt r0) → receipt_step r0 r → jstep h (put_receipt r h)
  | js_launch r h :
      q_RequestID (sr_req r) ≠ "" → file_of (sr_req r) h = Some (F_receipt r) →
      RState r = "accepted" → ¬ fenced (q_Name (sr_req r)) (q_InstanceID (sr_req r)) h →
      sr_req r ∉ launches h → jstep h (set_launches (sr_req r :: launches h) h)
  | js_legacy q h :
      q_RequestID q = "" →
      (JailerBaseDir cfg ≠ "" →
         no_active (q_Name q) h ∧ ¬ fenced (q_Name q) (q_InstanceID q) h) →
      jstep h (set_launches (q :: launches h) h).

Definition jsteps : relation Host := rtc jstep.

(** ** The invariant *)

Definition managed (q : StartResultRequest) : Prop := q_RequestID q ≠ "".
#[export] Instance managed_dec q : Decision (managed q).
Proof. unfold managed. apply _. Defined.

Definition active (f : option file) : Prop :=
  ∃ r, f = Some (F_receipt r) ∧ RState r ≠ "closed".

Record journal_ok (h : Host) : Prop := {
  jo_place : ∀ D fname r, at_path D fname h = Some (F_receipt r) →
    D = receiptDir cfg (q_Name (sr_req r)) ∧ fname = receipt_file (q_RequestID (sr_req r));
  jo_exclusive : ∀ D fname fname', active (at_path D fname h) → active (at_path D fname' h) →
    fname = fname';
  jo_launched : ∀ q, q ∈ launches h → managed q →
    ∃ r, file_of q h = Some (F_receipt r) ∧ sr_req r = q;
  jo_once : NoDup (filter managed (launches h));
}.

Lemma journal_ok_empty m : journal_ok (mkHost ∅ ∅ ∅ m []).
Proof.
  split; unfold at_path; simpl.
  - intros D fname r. by rewrite lookup_empty.
  - intros D f f' (r & Hr & _). by rewrite lookup_empty in Hr.
  - intros q Hq. by apply not_elem_of_nil in Hq.
  - constructor.
Qed.

(** A journal step that changes files one by one: enough to know each file. *)
Lemma journal_ok_files h h' :
  (∀ D fname r, at_path D fname h' = Some (F_receipt r) → at_path D fname h = Some (F_receipt r)) →
  (∀ D fname r, at_path D fname h = Some (F_receipt r) → at_path D fname h' = Some (F_receipt r)) →
  launches h' = launches h → journal_ok h → journal_ok h'.
Proof.
  intros Hback Hforth Hl [Hp Hx Hla Ho]. split.
  - intros D f r Hr. by apply Hp, Hback.
  - intros D f f' (r & Hr & Hs) (r' & Hr' & Hs'). apply (Hx D); [exists r|exists r']; auto.
  - rewrite Hl. intros q Hq Hm. destruct (Hla q Hq Hm) as (r & Hr & <-). exists r.
    split; [|done]. by apply Hforth.
  - by rewrite Hl.
Qed.

Lemma at_path_put_receipt r h D fname :
  at_path D fname (put_receipt r h) =
    if bool_decide (D = receiptDir cfg (q_Name (sr_req r)) ∧
                    fname = receipt_file (q_RequestID (sr_req r)))
    then Some (F_receipt r) else at_path D fname h.
Proof. apply at_path_put. Qed.

Lemma receipt_step_req r r' : receipt_step r r' → sr_req r' = sr_req r.
Proof. by destruct 1. Qed.

Lemma jstep_ok h h' : jstep h h' → journal_ok h → journal_ok h'.
Proof.
  intros Hs. destruct Hs as [h h' Hr Hl|name h|name h|name id h|r h Hnone Hst|r0 r h Hr0 Hst
                            |r h Hm Hr Ha _ Hq|q h Hq _]; intros Hok.
  - apply (journal_ok_files h); [unfold at_path; by rewrite Hr..|done|done].
  - apply (journal_ok_files h); [intros *; by rewrite at_path_mkdir..| |done].
    unfold mkdir_receipts. by case_match.
  - apply (journal_ok_files h); [apply at_path_lock_receipt| | |done].
    + intros D f r Hr. rewrite at_path_lock; [done|].
      destruct (jo_place h Hok D f r Hr) as [_ ->]. apply receipt_lock_ne.
    + unfold touch_lock. by case_match.
  - apply (journal_ok_files h); [| |done|done].
    + intros D f r. rewrite at_path_put. by case_bool_decide.
    + intros D f r Hr. rewrite at_path_put, bool_decide_eq_false_2; [done|].
      intros [_ ->]. destruct (jo_place h Hok _ _ r Hr) as [_ He]. by destruct (receipt_fence_ne _ _ (eq_sym He)).
  - destruct Hok as [Hp Hx Hla Ho]. split.
    + intros D f r'. rewrite at_path_put_receipt. case_bool_decide as Hd; [|apply Hp].
      destruct Hd as [-> ->]. by intros [= <-].
    + intros D f f'. rewrite !at_path_put_receipt.
      destruct Hst as [Hc|[_ Hna]].
      * assert (∀ f0, active (if bool_decide (D = receiptDir cfg (q_Name (sr_req r)) ∧
          f0 = receipt_file (q_RequestID (sr_req r))) then Some (F_receipt r) else at_path D f0 h) →
          active (at_path D f0 h)) as Hc'.
        { intros f0. case_bool_decide; [|done]. by intros (r' & [= <-] & Hs). }
        intros H1%Hc' H2%Hc'. by apply (Hx D).
      * assert (∀ f0, D = receiptDir cfg (q_Name (sr_req r)) → ¬ active (at_path D f0 h)) as Hn.
        { intros f0 -> (r' & Hr' & Hs). apply Hs, (Hna f0 r' Hr').
          destruct (Hp _ _ _ Hr') as [_ ->]. apply HasSuffix_receipt. }
        case_bool_decide as H1; case_bool_decide as H2.
        -- by destruct H1 as [_ ->], H2 as [_ ->].
        -- intros _ Hact. exfalso. destruct H1 as [-> _]. by eapply Hn.
        -- intros Hact. exfalso. destruct H2 as [-> _]. by eapply Hn.
        -- apply Hx.
    + intros q Hq Hm. destruct (Hla q Hq Hm) as (r' & Hr' & Heq).
      exists r'. split; [|done]. unfold file_of. rewrite lookup_at_path, at_path_put_receipt.
      rewrite bool_decide_eq_false_2; [done|]. intros [HD Hf].
      unfold file_of in Hnone, Hr'. rewrite lookup_at_path in *. congruence.
    + done.
  - pose proof (receipt_step_req _ _ Hst) as Hreq. destruct Hok as [Hp Hx Hla Ho].
    assert (Hr : at_path (receiptDir cfg (q_Name (sr_req r)))
                   (receipt_file (q_RequestID (sr_req r))) h = Some (F_receipt r0)) by exact Hr0.
    assert (Hact : ∀ D f0, active (if bool_decide (D = receiptDir cfg (q_Name (sr_req r)) ∧
          f0 = receipt_file (q_RequestID (sr_req r))) then Some (F_receipt r) else at_path D f0 h) →
          active (at_path D f0 h)).
    { intros D f0. case_bool_decide as Hd; [|done]. destruct Hd as [-> ->].
      intros (r' & [= <-] & Hs). exists r0. split; [done|]. destruct Hst; congruence. }
    split.
    + intros D f r'. rewrite at_path_put_receipt. case_bool_decide as Hd; [|apply Hp].
      destruct Hd as [-> ->]. by intros [= <-].
    + intros D f f'. rewrite !at_path_put_receipt. intros H1%Hact H2%Hact. by apply (Hx D).
    + intros q Hq Hm. destruct (Hla q Hq Hm) as (r' & Hr' & Heq). unfold file_of.
      rewrite lookup_at_path, at_path_put_receipt. case_bool_decide as Hd.
      * exists r. split; [done|]. destruct Hd as [HD Hf]. unfold file_of in Hr'.
        rewrite lookup_at_path, HD, Hf, Hr in Hr'. congruence.
      * by exists r'.
    + done.
  - destruct Hok as [Hp Hx Hla Ho]. split; [done|done| |].
    + simpl. intros q [->|Hin]%elem_of_cons Hman; [by exists r|by apply Hla].
    + simpl. rewrite filter_cons_True by done. constructor; [|done].
      intros Hin. by apply list_elem_of_filter in Hin as [_ Hin].
  - destruct Hok as [Hp Hx Hla Ho]. split; [done|done| |].
    + simpl. intros q' [->|Hin]%elem_of_cons Hman; [done|by apply Hla].
    + simpl. rewrite filter_cons_False; [done|]. unfold managed. by intros [].
Qed.

Lemma jsteps_ok h h' : jsteps h h' → journal_ok h → journal_ok h'.
Proof. induction 1; eauto using jstep_ok. Qed.
End trace.
