(* ===== verification/RunnerOps.v ===== *)
(** * What each call of the runner does to the journals

    Calls that only probe or change the machine are [quiet]; the others are
    followed through their writes. *)
From S2P Require Import Prelude GoStrings Paths RunnerState Runtime Receipts ReceiptStop Encodings.
From S2P Require Import RunnerTrace.
From stdpp Require Import relations.

#[local] Open Scope Z_scope.

(** ** Quiet calls *)

(** Nothing but the machine changed. *)
Definition same_journals : relation Host := λ h h',
  receipts h' = receipts h ∧ colds h' = colds h ∧ markers h' = markers h ∧
  launches h' = launches h.
#[export] Instance same_journals_preorder : PreOrder same_journals.
Proof.
  split; [by repeat split|]. intros h1 h2 h3 (?&?&?&?) (?&?&?&?). repeat split; congruence.
Qed.

Definition quiet {A} (m : M Host A) : Prop := within same_journals m.

Lemma quiet_query_machine {A} (f : Machine → result A) : quiet (query_machine f).
Proof. apply within_query, _. Qed.
Lemma quiet_env_machine {A} (f : Machine → result A * Machine) : quiet (env_machine f).
Proof.
  apply within_env; [apply _|]. intros h. destruct (f (machine h)). by repeat split.
Qed.

Create HintDb quiet.
#[export] Hint Resolve quiet_query_machine quiet_env_machine : quiet.

Ltac quiet_step :=
  first
    [ lazymatch goal with |- within same_journals ?m => change (quiet m); solve [auto with quiet nocore] end
    | within_step ].
Ltac solve_quiet := unfold quiet; repeat quiet_step.

(** *** The probes of Runtime.v *)

Lemma quiet_hostBootID : quiet hostBootID.
Proof. unfold hostBootID. solve_quiet. Qed.
Lemma quiet_processTicks pid : quiet (processTicks pid).
Proof. apply quiet_query_machine. Qed.
Lemma quiet_syscall : quiet syscall.
Proof. apply within_query, _. Qed.
#[export] Hint Resolve quiet_hostBootID quiet_processTicks quiet_syscall : quiet.

Lemma quiet_validateRuntime cfg r : quiet (validateRuntime cfg r).
Proof. unfold validateRuntime. solve_quiet. Qed.
Lemma quiet_listRunningVMs cfg : quiet (listRunningVMs cfg).
Proof. unfold listRunningVMs. solve_quiet. Qed.
#[export] Hint Resolve quiet_validateRuntime quiet_listRunningVMs : quiet.
Lemma quiet_noLive cfg name : quiet (noLiveRuntimeLocked cfg name).
Proof. unfold noLiveRuntimeLocked. solve_quiet. Qed.
Lemma quiet_cleanupCgroup name : quiet (cleanupFirecrackerCgroup name).
Proof. unfold cleanupFirecrackerCgroup. solve_quiet. Qed.
Lemma quiet_both a b : quiet a → quiet b → quiet (both a b).
Proof. intros Ha Hb. unfold both. solve_quiet. destruct a0, a1; solve_quiet. Qed.
Lemma quiet_ignore_missing m : quiet m → quiet (ignore_missing m).
Proof. intros Hm. unfold ignore_missing. solve_quiet. Qed.
#[export] Hint Resolve quiet_noLive quiet_cleanupCgroup quiet_both quiet_ignore_missing : quiet.
Lemma quiet_cleanupVMRuntime cfg name : quiet (cleanupVMRuntime cfg name).
Proof. unfold cleanupVMRuntime, cleanupJailedRuntimePaths. solve_quiet. Qed.
Lemma quiet_lstat_jail p : quiet (lstat_jail p).
Proof. apply quiet_query_machine. Qed.
Lemma quiet_lstat_socket p : quiet (lstat_socket p).
Proof. apply quiet_query_machine. Qed.
Lemma quiet_Validate_disk p : quiet (ValidateDiskSubvolume p).
Proof. apply quiet_query_machine. Qed.
Lemma quiet_stampFile p : quiet (stampFile p).
Proof. apply quiet_query_machine. Qed.
Lemma quiet_waitPidfd p t : quiet (waitPidfd p t).
Proof. apply quiet_query_machine. Qed.
Lemma quiet_sigkill p t : quiet (sigkill p t).
Proof. apply quiet_env_machine. Qed.
#[export] Hint Resolve quiet_cleanupVMRuntime quiet_lstat_jail quiet_lstat_socket quiet_Validate_disk
  quiet_stampFile quiet_waitPidfd quiet_sigkill : quiet.

(** *** Reading receipts *)

Lemma quiet_readReceipt cfg q : quiet (readReceipt cfg q).
Proof. unfold readReceipt. solve_quiet. Qed.
#[export] Hint Resolve quiet_readReceipt : quiet.
Lemma quiet_read_entry cfg name e : quiet (read_entry cfg name e).
Proof. unfold read_entry. solve_quiet. Qed.
#[export] Hint Resolve quiet_read_entry : quiet.
Lemma quiet_scan_active cfg name es a : quiet (scan_active cfg name es a).
Proof.
  revert a. induction es as [|e es IH]; intros a; simpl; [apply within_ret, _|].
  solve_quiet; apply IH.
Qed.
#[export] Hint Resolve quiet_scan_active : quiet.
Lemma quiet_activeReceipt cfg name : quiet (activeReceipt cfg name).
Proof. unfold activeReceipt. solve_quiet. Qed.
#[export] Hint Resolve quiet_activeReceipt : quiet.
Lemma quiet_nameVacant cfg name : quiet (nameVacantLocked cfg name).
Proof. unfold nameVacantLocked. solve_quiet. Qed.
Lemma quiet_deletionFence cfg name id : quiet (coldDeletionFence cfg name id).
Proof. unfold coldDeletionFence. solve_quiet. Qed.
Lemma quiet_readCold cfg name id : quiet (readCold cfg name id).
Proof. unfold readCold. solve_quiet. Qed.
#[export] Hint Resolve quiet_nameVacant quiet_deletionFence quiet_readCold : quiet.
Lemma quiet_startFence cfg name id : quiet (coldStartFence cfg name id).
Proof. unfold coldStartFence. solve_quiet. Qed.
Lemma quiet_readRAM cfg name : quiet (readRAMState cfg name).
Proof. unfold readRAMState. solve_quiet. Qed.
Lemma quiet_discardRAM cfg name : quiet (discardRAMState cfg name).
Proof. unfold discardRAMState. solve_quiet. Qed.
#[export] Hint Resolve quiet_startFence quiet_readRAM quiet_discardRAM : quiet.
Lemma quiet_checkRAM marshal cfg req : quiet (checkRAMState marshal cfg req).
Proof. unfold checkRAMState. solve_quiet. Qed.
Lemma quiet_unowned cfg name : quiet (unowned_runtime cfg name).
Proof. unfold unowned_runtime. solve_quiet. Qed.
#[export] Hint Resolve quiet_checkRAM quiet_unowned : quiet.

(** *** Stopping processes *)

Lemma quiet_wait_or_kill p t : quiet (wait_or_kill p t).
Proof. unfold wait_or_kill. solve_quiet. Qed.
Lemma quiet_requestShutdown g p : quiet (requestGuestShutdown g p).
Proof. apply quiet_env_machine. Qed.
Lemma quiet_saveRAM cfg r : quiet (saveRAMState cfg r).
Proof. unfold saveRAMState. solve_quiet. Qed.
Lemma quiet_layout cfg name : quiet (checkRAMStateLayout cfg name).
Proof. unfold checkRAMStateLayout, probe_rename. solve_quiet. Qed.
#[export] Hint Resolve quiet_wait_or_kill quiet_requestShutdown quiet_saveRAM quiet_layout : quiet.
Lemma quiet_legacy_process g cfg name p vm : quiet (stop_legacy_process g cfg name p vm).
Proof. unfold stop_legacy_process. solve_quiet. Qed.
#[export] Hint Resolve quiet_legacy_process : quiet.
Lemma quiet_stopLegacy g cfg name p : quiet (stopLegacyLocked g cfg name p).
Proof. unfold stopLegacyLocked. solve_quiet. Qed.
#[export] Hint Resolve quiet_stopLegacy : quiet.
Lemma quiet_storageIdle cfg name : quiet (storageIdleLocked cfg name).
Proof. unfold storageIdleLocked. solve_quiet. Qed.
#[export] Hint Resolve quiet_storageIdle : quiet.

(** ** Following calls through the journals *)

Lemma wp_quiet {A B} (m : M Host A) (k : A → M Host B) (Q : outcome B → Host → Prop) h :
  quiet m → (∀ a h', same_journals h h' → wp (k a) Q h') →
  (∀ h', same_journals h h' → (∀ e, Q (Err e) h') ∧ Q Crashed h') → wp (m ≫= k) Q h.
Proof.
  intros Hm Hk Hf. apply wp_bind. eapply wp_mono; [apply Hm|].
  intros [a|e|] h' Hs; [by apply Hk|by apply Hf..].
Qed.

(** A quiet call with more to say. *)
Lemma wp_quiet_and {A} (m : M Host A) (Q : outcome A → Host → Prop) h :
  quiet m → wp m Q h → wp m (λ o h', same_journals h h' ∧ Q o h') h.
Proof. intros Hm HQ. apply wp_and; [apply Hm|done]. Qed.

(** *** Calls that leave the processes alone *)

Definition procs_kept : relation Host := λ h h', procs (machine h') = procs (machine h).
#[export] Instance procs_kept_preorder : PreOrder procs_kept.
Proof. split; [done|]. intros h1 h2 h3. unfold procs_kept. congruence. Qed.

Lemma within_env_machine_procs {A} (f : Machine → result A * Machine) :
  (∀ m, procs (f m).2 = procs m) → within procs_kept (env_machine f).
Proof.
  intros Hf. apply within_env; [apply _|]. intros h. specialize (Hf (machine h)).
  by destruct (f (machine h)).
Qed.

Lemma rmdir_procs g m : procs (rmdir_cgroup g m).2 = procs m.
Proof. unfold rmdir_cgroup. by case_match. Qed.

Ltac kept_call :=
  first
    [ within_step
    | lazymatch goal with
      | |- within _ (env_machine _) =>
          apply within_env_machine_procs; intros ?; first [apply rmdir_procs|done]
      | |- within _ (env _) => apply within_env; [apply _|by intros ?]
      | |- within _ (query_machine _) => apply within_query, _
      | |- within _ syscall => apply within_query, _
      | |- within _ (scan_active _ _ _ _) => fail
      | |- within _ ?m =>
          let rec head t := lazymatch t with ?f _ => head f | _ => t end in
          let h := head m in unfold h
      end ].

Lemma scan_active_procs cfg name es a : within procs_kept (scan_active cfg name es a).
Proof.
  revert a. induction es as [|e es IH]; intros a; simpl; [apply within_ret, _|].
  repeat (apply IH || kept_call).
Qed.

Ltac solve_kept :=
  repeat (apply scan_active_procs || kept_call
          || match goal with |- within _ (match _ with _ => _ end _) =>
               repeat case_match; kept_call end).

Definition machine_kept : relation Host := λ h h', machine h' = machine h.
#[export] Instance machine_kept_preorder : PreOrder machine_kept.
Proof. split; [done|]. intros h1 h2 h3. unfold machine_kept. congruence. Qed.

Section ops.
Context (cfg : ServerConfig).
#[local] Abbreviation file_of := (file_of cfg).
#[local] Abbreviation put_receipt := (put_receipt cfg).
#[local] Abbreviation jsteps := (jsteps cfg).
#[local] Abbreviation jstep := (jstep cfg).

Lemma same_file q h h' : same_journals h h' → file_of q h' = file_of q h.
Proof. intros (Hr & _). unfold RunnerTrace.file_of, lookup_file, dir_of. by rewrite Hr. Qed.
Lemma same_lookup name f h h' :
  same_journals h h' → lookup_file cfg name f h' = lookup_file cfg name f h.
Proof. intros (Hr & _). unfold lookup_file, dir_of. by rewrite Hr. Qed.
Lemma same_jsteps h h' : same_journals h h' → jsteps h h'.
Proof. intros (Hr & _ & _ & Hl). apply rtc_once. by apply js_frame. Qed.
Lemma same_no_active name h h' :
  same_journals h h' → no_active cfg name h → no_active cfg name h'.
Proof. intros Hs Hn f r. rewrite (same_lookup _ _ h h' Hs). apply Hn. Qed.

(** *** Receipts *)

Lemma checkReceipt_inl q f r :
  checkReceipt q f = inl r → f = F_receipt r ∧ sr_req r = q ∧ known_state (RState r) = true.
Proof.
  unfold checkReceipt. destruct f as [r0| |]; [|done..]. cbn.
  case_bool_decide as Hq; cbn; [|done].
  destruct (Validate (sr_req r0)); cbn; [|done].
  destruct (known_state (RState r0)) eqn:Hk; cbn; [|done].
  repeat (case_match; try done). intros [= ->]. by subst.
Qed.

Lemma readReceipt_spec q h :
  wp (readReceipt cfg q) (λ o h', same_journals h h' ∧
    match o with
    | Ok None => file_of q h = None
    | Ok (Some r) => file_of q h = Some (F_receipt r) ∧ sr_req r = q ∧
                     known_state (RState r) = true
    | _ => True
    end) h.
Proof.
  apply wp_quiet_and; [auto with quiet|]. unfold readReceipt. apply wp_bind, wp_query; [done..|].
  cbn. fold (file_of q h). destruct (file_of q h) as [f|]; [|by apply wp_ret].
  apply wp_bind, wp_lift. destruct (checkReceipt q f) as [r|e] eqn:Hc; cbn; [|done].
  apply wp_ret. by apply checkReceipt_inl in Hc as (-> & ? & ?).
Qed.

Lemma read_entry_spec name e h :
  wp (read_entry cfg name e) (λ o h', same_journals h h' ∧
    match o with Ok r => lookup_file cfg name e h = Some (F_receipt r) | _ => True end) h.
Proof.
  apply wp_quiet_and; [auto with quiet|]. unfold read_entry. apply wp_bind, wp_query; [done..|].
  destruct (lookup_file cfg name e h) as [f|] eqn:Hf; cbn; [|done].
  apply wp_bind, wp_lift. destruct (decode_receipt f) as [r|] eqn:Hd; cbn; [|done].
  apply wp_bind, wp_require; [|done]. intros Heq.
  apply andb_true_iff in Heq as [Hn%String.eqb_eq He%String.eqb_eq].
  apply wp_bind. eapply wp_mono; [apply readReceipt_spec|].
  intros [[r'|]| |] h' [Hs Hr]; [|by apply wp_throw|done|done]. apply wp_ret.
  destruct Hr as (Hr & _ & _). unfold RunnerTrace.file_of in Hr. by rewrite Hn, <- He, Hf in Hr.
Qed.

Lemma scan_active_spec name es h : ∀ a,
  wp (scan_active cfg name es a) (λ o h', same_journals h h' ∧
    (o = Ok None → a = None ∧ ∀ e r, e ∈ es → HasSuffix e ".json" = true →
       lookup_file cfg name e h = Some (F_receipt r) → RState r = "closed")) h.
Proof.
  revert h. induction es as [|e es IH]; intros h a; simpl.
  { apply wp_ret. split; [done|]. intros [= ->]. split; [done|].
    by intros e r He%not_elem_of_nil. }
  destruct (HasSuffix e ".json") eqn:Hsuf; simpl.
  - apply wp_bind. eapply wp_mono; [apply read_entry_spec|].
    intros [r| |] h1 [Hs Hr]; [|done..]. destruct (String.eqb (RState r) "closed") eqn:Hc; simpl.
    + apply String.eqb_eq in Hc. eapply wp_mono; [apply IH|]. intros o h2 [Hs2 Hall].
      split; [by etransitivity|]. intros Ho. destruct (Hall Ho) as [Ha Hall']. split; [done|].
      intros e' r' [->|Hin]%elem_of_cons He' Hl; [congruence|].
      apply (Hall' e' r'); [done..|]. by rewrite (same_lookup _ _ h h1).
    + destruct a as [a|]; [by apply wp_throw|]. eapply wp_mono; [apply IH|].
      intros o h2 [Hs2 Hall]. split; [by etransitivity|]. intros Ho. by destruct (Hall Ho).
  - eapply wp_mono; [apply IH|]. intros o h2 [Hs2 Hall]. split; [done|]. intros Ho.
    destruct (Hall Ho) as [Ha Hall']. split; [done|].
    intros e' r' [->|Hin]%elem_of_cons He' Hl; [congruence|by eapply Hall'].
Qed.

Lemma activeReceipt_spec name h :
  wp (activeReceipt cfg name) (λ o h', same_journals h h' ∧
    (o = Ok None → no_active cfg name h)) h.
Proof.
  apply wp_quiet_and; [auto with quiet|]. unfold activeReceipt. apply wp_bind, wp_query; [done..|].
  destruct (dir_of cfg name h) as [d|] eqn:Hd; cbn; [|done].
  eapply wp_mono; [apply scan_active_spec|]. intros o h' [_ Hall] Ho f r Hl Hsuf.
  destruct (Hall Ho) as [_ Hall']. apply (Hall' f r); [|done..].
  rewrite merge_sort_Permutation. apply list_elem_of_fmap. exists (f, F_receipt r). split; [done|].
  apply elem_of_map_to_list. unfold lookup_file in Hl. by rewrite Hd in Hl.
Qed.

(** The file of a written receipt, and of the others. *)
Lemma file_of_put r h : file_of (sr_req r) (put_receipt r h) = Some (F_receipt r).
Proof.
  unfold RunnerTrace.file_of. rewrite lookup_at_path, at_path_put_receipt.
  by rewrite bool_decide_eq_true_2.
Qed.

Lemma writeReceipt_spec r h :
  wp (writeReceipt cfg r) (λ o h',
    (h' = h ∧ o ≠ Ok tt) ∨ h' = put_receipt r h) h.
Proof.
  unfold writeReceipt. apply wp_bind, wp_query; [by left..|].
  destruct (dir_of _ _ h); cbn; [|by left].
  do 3 (apply wp_bind, wp_query; [by left..|]; cbn).
  apply wp_bind, wp_env; cbn; [by left|by left| |by right].
  apply wp_query; [by right..|]. by right.
Qed.

(** Writing a registered, or moved, receipt. *)
Lemma write_jsteps r h :
  jstep h (put_receipt r h) →
  wp (writeReceipt cfg r) (λ o h', jsteps h h' ∧ (o = Ok tt → h' = put_receipt r h)) h.
Proof.
  intros Hs. eapply wp_mono; [apply writeReceipt_spec|].
  intros o h' [[-> Hne]| ->]; [by split|]. split; [by apply rtc_once|done].
Qed.

(** *** Resolving *)

Definition closed_at (q : StartResultRequest) (h : Host) : Prop :=
  ∃ r, file_of q h = Some (F_receipt r) ∧ RState r = "closed".

(** What a response says about the journals and the machine. *)
Definition truthful (q : StartResultRequest) (o : outcome StartResponse) (h : Host) : Prop :=
  match o with
  | Ok resp =>
      (Outcome resp = StartRunning → ∃ r,
         file_of q h = Some (F_receipt r) ∧ RState r = "started" ∧ rs_PID resp = PID r ∧
         read_ticks (procs (machine h) !! PID r) = inl (Ticks r)) ∧
      (Outcome resp = StartAbsent → closed_at q h)
  | _ => True
  end.

Lemma truthful_unknown q reason h : truthful q (Ok (unknown reason)) h.
Proof. by split. Qed.

Lemma truthful_absent q reason h : closed_at q h → truthful q (Ok (absent reason)) h.
Proof. intros Hc. split; [done|]. intros _. exact Hc. Qed.

Lemma same_closed q h h' : same_journals h h' → closed_at q h → closed_at q h'.
Proof. intros Hs (r & Hr & Hc). exists r. by rewrite (same_file _ h h'). Qed.

(** The goal every call below is proved for: the journals moved by steps, and the
    response is truthful. *)
Definition resolved (q : StartResultRequest) (h : Host) (o : outcome StartResponse) (h' : Host)
  : Prop := jsteps h h' ∧ truthful q o h'.

Lemma resolved_frame q h h1 o h' : same_journals h h1 → resolved q h1 o h' → resolved q h o h'.
Proof. intros Hs [Hj Ht]. split; [|done]. etransitivity; [by apply same_jsteps|done]. Qed.

Lemma resolved_quiet q h o h' :
  same_journals h h' → truthful q o h' → resolved q h o h'.
Proof. intros Hs Ht. split; [by apply same_jsteps|done]. Qed.

Lemma finishDead_spec r h :
  file_of (sr_req r) h = Some (F_receipt r) → RState r ≠ "closed" →
  wp (finishDeadReceiptLocked cfg r) (λ o h', resolved (sr_req r) h o h') h.
Proof.
  intros Hr Hst. unfold finishDeadReceiptLocked.
  assert (Hquiet : ∀ h', same_journals h h' →
    (∀ e, resolved (sr_req r) h (Err e) h') ∧ resolved (sr_req r) h Crashed h')
    by (intros h' Hs; split; intros; by apply resolved_quiet).
  apply wp_quiet; [solve_quiet| |done]. intros a h1 Hs1.
  destruct (owns (sr_req r) a); simpl.
  2: { apply wp_ret, resolved_quiet; [done|apply truthful_unknown]. }
  apply wp_quiet; [solve_quiet| |intros h' Hs; apply Hquiet; by etransitivity].
  intros live h2 Hs2. destruct live as [[]|e].
  2: { apply wp_ret, resolved_quiet; [by etransitivity|apply truthful_unknown]. }
  assert (Hs12 : same_journals h h2) by (by etransitivity).
  apply wp_quiet; [auto with quiet| |intros h' Hs; apply Hquiet; by etransitivity].
  intros _ h3 Hs3.
  assert (Hs13 : same_journals h h3) by (by etransitivity).
  apply wp_quiet; [auto with quiet| |intros h' Hs; apply Hquiet; by etransitivity].
  intros _ h4 Hs4.
  assert (Hs14 : same_journals h h4) by (by etransitivity).
  apply wp_bind. eapply wp_mono; [apply write_jsteps|].
  - apply (js_update _ r); [|by constructor]. simpl. by rewrite (same_file _ h h4).
  - intros o h5 [Hj Hput].
    assert (Hj5 : jsteps h h5) by (etransitivity; [by apply same_jsteps|done]).
    destruct o as [[]|e|]; [|by split|by split]. apply wp_ret. split; [done|].
    apply truthful_absent. exists (with_state "closed" r). split; [|done].
    rewrite Hput by done. apply (file_of_put (with_state "closed" r)).
Qed.

Lemma validateRuntime_spec r h :
  wp (validateRuntime cfg r) (λ o h', same_journals h h' ∧
    (o = Ok tt → read_ticks (procs (machine h') !! PID r) = inl (Ticks r))) h.
Proof.
  apply wp_quiet_and; [auto with quiet|]. unfold validateRuntime.
  apply wp_bind, wp_query; [done..|]. destruct (dial _ _); cbn; [|done].
  do 2 (apply wp_bind, wp_query; [done..|]; cbn).
  apply wp_bind, wp_require; [intros _|done].
  apply wp_bind, wp_query; [done..|]. destruct (read_ticks _) as [t|] eqn:Ht; cbn; [|done].
  apply wp_require; [|done]. intros Heq%Z.eqb_eq _. by subst.
Qed.

Lemma resultLocked_spec r h :
  file_of (sr_req r) h = Some (F_receipt r) → known_state (RState r) = true →
  wp (resultLocked cfg r) (λ o h', resolved (sr_req r) h o h') h.
Proof.
  intros Hr Hknown. unfold resultLocked.
  assert (Hquiet : ∀ h', same_journals h h' →
    (∀ e, resolved (sr_req r) h (Err e) h') ∧ resolved (sr_req r) h Crashed h')
    by (intros h' Hs; split; intros; by apply resolved_quiet).
  apply wp_quiet; [auto with quiet| |done]. intros boot h1 Hs1.
  destruct (String.eqb (RState r) "closed") eqn:Hc.
  { apply String.eqb_eq in Hc.
    apply wp_quiet; [solve_quiet| |intros h' Hs; apply Hquiet; by etransitivity].
    intros v h2 Hs2. assert (Hs12 : same_journals h h2) by (by etransitivity).
    destruct v; (apply wp_ret, resolved_quiet; [done|]); [|apply truthful_unknown].
    apply truthful_absent. exists r. by rewrite (same_file _ h h2). }
  apply String.eqb_neq in Hc.
  assert (Hdead : ∀ h', same_journals h h' →
    wp (finishDeadReceiptLocked cfg r) (λ o h'', resolved (sr_req r) h o h'') h').
  { intros h' Hs. eapply wp_mono; [apply finishDead_spec; [by rewrite (same_file _ h h')|done]|].
    intros o h'' Hres. by eapply resolved_frame. }
  destruct (String.eqb (q_HostBootID _) boot); simpl; [|by apply Hdead].
  destruct (String.eqb (RState r) "accepted") eqn:Ha.
  { apply wp_ret, resolved_quiet; [done|apply truthful_unknown]. }
  assert (Hstarted : RState r = "started").
  { unfold known_state in Hknown. apply String.eqb_neq in Hc. rewrite Ha, Hc in Hknown.
    simpl in Hknown. rewrite orb_false_r in Hknown. by apply String.eqb_eq. }
  apply wp_quiet; [solve_quiet| |intros h' Hs; apply Hquiet; by etransitivity].
  intros a h2 Hs2. assert (Hs12 : same_journals h h2) by (by etransitivity).
  destruct (owns (sr_req r) a); simpl.
  2: { apply wp_ret, resolved_quiet; [done|apply truthful_unknown]. }
  apply wp_quiet; [solve_quiet| |intros h' Hs; apply Hquiet; by etransitivity].
  intros t h3 Hs3. assert (Hs13 : same_journals h h3) by (by etransitivity).
  destruct (process_gone r t); [by apply Hdead|].
  destruct t as [ticks|e]; [|by apply wp_throw, Hquiet].
  apply wp_bind, wp_try. eapply wp_mono; [apply validateRuntime_spec|].
  intros o h4 [Hs4 Ht]. assert (Hs14 : same_journals h h4) by (by etransitivity).
  destruct o as [[]|e|]; [| |by apply Hquiet].
  - apply wp_ret, resolved_quiet; [done|]. split; [|done]. intros _.
    exists r. rewrite (same_file _ h h4) by done. auto.
  - apply wp_ret, resolved_quiet; [done|apply truthful_unknown].
Qed.

Lemma lockName_spec name h : wp (lockName cfg name) (λ _ h', jsteps h h') h.
Proof.
  unfold lockName. do 2 (apply wp_bind, wp_require; [intros _|done]).
  apply wp_bind, wp_env; cbn; [done..| |by apply rtc_once, js_dir].
  assert (Hd : jsteps h (mkdir_receipts cfg name h)) by (by apply rtc_once, js_dir).
  do 4 (apply wp_bind, wp_query; [done..|]; cbn).
  assert (Hl : jsteps h (touch_lock cfg name (mkdir_receipts cfg name h)))
    by (eapply rtc_r; [exact Hd|apply js_lock]).
  apply wp_bind, wp_env; cbn; [done..| |done]. by apply wp_query.
Qed.

(** A call that starts by taking the lock. *)
Lemma wp_locked {B} name (k : unit → M Host B) (P : outcome B → Host → Prop) h :
  (∀ h1, jsteps h h1 → wp (k tt) P h1) →
  (∀ h1, jsteps h h1 → (∀ e, P (Err e) h1) ∧ P Crashed h1) →
  wp (lockName cfg name ≫= k) P h.
Proof.
  intros Hk Hf. apply wp_bind. eapply wp_mono; [apply lockName_spec|].
  intros [[]|e|] h' Hj; [by apply Hk|by apply Hf..].
Qed.

Lemma resolved_steps q h h1 o h' : jsteps h h1 → resolved q h1 o h' → resolved q h o h'.
Proof. intros Hj [Hj' Ht]. split; [by etransitivity|done]. Qed.

Lemma resolved_failed q h h' :
  jsteps h h' → (∀ e, resolved q h (Err e) h') ∧ resolved q h Crashed h'.
Proof. intros Hj. by split; [intros e|]. Qed.

(** Registering a receipt and resolving it at once. *)
Lemma register_closed_spec r h :
  file_of (sr_req r) h = None → RState r = "closed" →
  wp (writeReceipt cfg r;; resultLocked cfg r) (λ o h', resolved (sr_req r) h o h') h.
Proof.
  intros Hnone Hc. apply wp_bind. eapply wp_mono; [apply write_jsteps|].
  { apply js_register; [done|by left]. }
  intros [[]|e|] h1 [Hj Hput]; [|by apply resolved_failed..].
  rewrite Hput by done. eapply wp_mono; [apply resultLocked_spec|].
  - apply file_of_put.
  - by rewrite Hc.
  - intros o h'. apply resolved_steps. by apply rtc_once, js_register; [|left].
Qed.

Lemma resolveStart_spec q h :
  wp (resolveStart cfg q) (λ o h', resolved q h o h') h.
Proof.
  unfold resolveStart. apply wp_locked; [|intros h1; apply resolved_failed].
  intros h1 Hj1. apply wp_bind. eapply wp_mono; [apply readReceipt_spec|].
  intros o h2 [Hs Hr].
  assert (Hj2 : jsteps h h2) by (etransitivity; [done|by apply same_jsteps]).
  destruct o as [[r|]|e|]; [| |by apply resolved_failed..].
  - destruct Hr as (Hr & <- & Hk). eapply wp_mono; [apply resultLocked_spec; [|done]|].
    + by rewrite (same_file _ h1 h2).
    + intros o h'. by apply resolved_steps.
  - eapply wp_mono; [apply (register_closed_spec (mkReceipt q "" "closed" 0 0 "" false))|].
    + simpl. by rewrite (same_file _ h1 h2).
    + done.
    + intros o h'. by apply resolved_steps.
Qed.

(** *** Starting *)

Section start_ops.
Context (marshal : StartRequest → string) (start : StartRequest → M Host StartResponse).
(** The launch leaves the journals alone. *)
Context (start_quiet : ∀ req, quiet (start req)).

Lemma wp_record_launch q (Q : outcome unit → Host → Prop) h :
  Q (Ok tt) (set_launches (q :: launches h) h) → wp (record_launch q) Q h.
Proof. by intros HQ fs. Qed.

(** The launch of an accepted attempt. *)
Lemma s_start_spec r req h :
  sr_req r = attempt req → RState r = "accepted" → managed (attempt req) →
  file_of (attempt req) h = Some (F_receipt r) →
  ¬ fenced cfg (sq_Name req) (sq_InstanceID req) h → attempt req ∉ launches h →
  wp (s_start start req) (λ _ h', jsteps h h' ∧ file_of (attempt req) h' = Some (F_receipt r)) h.
Proof.
  intros Hq Ha Hm Hr Hf Hl. unfold s_start. apply wp_bind, wp_record_launch.
  set (h1 := set_launches _ h).
  assert (Hj1 : jsteps h h1).
  { apply rtc_once. unfold h1. rewrite <- Hq. by apply js_launch; rewrite ?Hq. }
  eapply wp_mono; [apply start_quiet|]. intros o h2 Hs2. split.
  - etransitivity; [done|by apply same_jsteps].
  - by rewrite (same_file _ h1 h2).
Qed.

Lemma launch_spec r req h :
  sr_req r = attempt req → RState r = "accepted" → managed (attempt req) →
  file_of (attempt req) h = Some (F_receipt r) →
  ¬ fenced cfg (sq_Name req) (sq_InstanceID req) h → attempt req ∉ launches h →
  wp (launch start cfg r req) (λ o h', resolved (attempt req) h o h') h.
Proof.
  intros Hq Ha Hm Hr Hf Hl. unfold launch. apply wp_bind, wp_try.
  eapply wp_mono; [by eapply s_start_spec|]. intros o h2 [Hj2 Hr2].
  destruct o as [resp|e|].
  - apply wp_quiet; [solve_quiet| |].
    + intros t h3 Hs3.
      assert (Hj3 : jsteps h h3) by (etransitivity; [done|by apply same_jsteps]).
      destruct t as [ticks|e].
      * set (r' := mkReceipt _ _ _ _ _ _ _).
        assert (Hstep : jstep h3 (put_receipt r' h3)).
        { apply (js_update _ r); [|by constructor]. simpl. rewrite Hq.
          by rewrite (same_file _ h2 h3). }
        apply wp_bind. eapply wp_mono; [by apply write_jsteps|].
        intros [[]|e|] h4 [Hj4 Hput];
          [|apply resolved_failed; by etransitivity..].
        rewrite Hput by done. eapply wp_mono; [apply resultLocked_spec|].
        -- apply file_of_put.
        -- done.
        -- intros o h5. simpl. rewrite Hq. apply resolved_steps.
           eapply rtc_r; [exact Hj3|done].
      * apply wp_ret. split; [done|apply truthful_unknown].
    + intros h3 Hs3. apply resolved_failed. etransitivity; [done|by apply same_jsteps].
  - apply wp_ret. split; [done|apply truthful_unknown].
  - by split.
Qed.

Lemma coldStartFence_spec name id h :
  wp (coldStartFence cfg name id) (λ o h', same_journals h h' ∧
    (o = Ok tt → ¬ fenced cfg name id h)) h.
Proof.
  apply wp_quiet_and; [auto with quiet|]. unfold coldStartFence, coldDeletionFence.
  apply wp_bind, wp_bind, wp_try, wp_query; cbn; [by apply wp_throw|done|].
  unfold fenced. destruct (lookup_file cfg name (fence_file id) h) as [f|]; [by apply wp_throw|].
  apply wp_ret. eapply wp_mono.
  { eapply (within_wp same_journals _ (λ _, True)); [solve_quiet|done]. }
  intros o h' _ _. by intros [? [=]].
Qed.

Lemma same_fenced name id h h' : same_journals h h' → fenced cfg name id h' → fenced cfg name id h.
Proof. intros Hs. unfold fenced. by rewrite (same_lookup _ _ h h'). Qed.

(** A written receipt hides no fence. *)
Lemma fenced_put name id r h : fenced cfg name id (put_receipt r h) → fenced cfg name id h.
Proof.
  unfold fenced. rewrite !lookup_at_path, at_path_put_receipt.
  rewrite bool_decide_eq_false_2; [done|]. intros [_ Heq]. by apply (receipt_fence_ne _ _ (eq_sym Heq)).
Qed.

Lemma new_attempt_spec req digest h :
  journal_ok cfg h → managed (attempt req) → file_of (attempt req) h = None →
  ¬ fenced cfg (sq_Name req) (sq_InstanceID req) h →
  wp (new_attempt marshal start cfg req digest) (λ o h', resolved (attempt req) h o h') h.
Proof.
  intros Hok Hm Hnone Hfence. unfold new_attempt.
  assert (Hquiet : ∀ h', same_journals h h' →
    (∀ e, resolved (attempt req) h (Err e) h') ∧ resolved (attempt req) h Crashed h')
    by (intros h' Hs; by apply resolved_failed, same_jsteps).
  assert (Hunknown : ∀ reason h', same_journals h h' →
    wp (mret (unknown reason)) (λ o h', resolved (attempt req) h o h') h')
    by (intros reason h' Hs; apply wp_ret, resolved_quiet; [done|apply truthful_unknown]).
  apply wp_quiet; [auto with quiet| |done]. intros boot h1 Hs1.
  set (r := mkReceipt (attempt req) digest "closed" 0 0 "" false).
  destruct (String.eqb boot _); simpl.
  2: { eapply wp_mono; [apply (register_closed_spec r)|]; [|done|].
       - simpl. by rewrite (same_file _ h h1).
       - intros o h'. apply resolved_steps. by apply same_jsteps. }
  apply wp_bind. eapply wp_mono; [apply activeReceipt_spec|]. intros a h2 [Hs2 Hna].
  assert (Hs12 : same_journals h h2) by (by etransitivity).
  destruct a as [[a|]|e|]; [by apply Hunknown| |by apply Hquiet..].
  specialize (Hna eq_refl). apply (same_no_active _ h1 h2) in Hna; [|done].
  apply wp_quiet; [auto with quiet| |intros h' Hs; apply Hquiet; by etransitivity].
  intros vms h3 Hs3. assert (Hs23 : same_journals h h3) by (by etransitivity).
  destruct (runs_name _ vms); [by apply Hunknown|].
  apply wp_quiet; [auto with quiet| |intros h' Hs; apply Hquiet; by etransitivity].
  intros occ h4 Hs4. assert (Hs24 : same_journals h h4) by (by etransitivity).
  destruct occ; [by apply Hunknown|].
  apply wp_quiet; [solve_quiet| |intros h' Hs; apply Hquiet; by etransitivity].
  intros v h5 Hs5. assert (Hs25 : same_journals h h5) by (by etransitivity).
  assert (Hj5 : jsteps h h5) by (by apply same_jsteps).
  assert (Hnone5 : file_of (attempt req) h5 = None) by (by rewrite (same_file _ h h5)).
  destruct v as [_|e].
  - set (ra := mkReceipt (attempt req) digest "accepted" 0 0 (resumeConfig marshal req) false).
    assert (Hstep : jstep h5 (put_receipt ra h5)).
    { apply js_register; [done|]. right. split; [done|]. simpl.
      apply (same_no_active _ h2 h5); [|done]. by do 2 (etransitivity; [done|]). }
    apply wp_bind. eapply wp_mono; [by apply write_jsteps|].
    intros [[]|e|] h6 [Hj6 Hput]; [|apply resolved_failed; by etransitivity..].
    rewrite Hput by done. eapply wp_mono; [apply (launch_spec ra)|].
    + done.
    + done.
    + done.
    + apply (file_of_put ra).
    + intros Hf. apply Hfence. by eapply same_fenced, fenced_put.
    + intros Hin. destruct Hs25 as (_ & _ & _ & Hl). simpl in Hin. rewrite Hl in Hin.
      destruct (jo_launched cfg h Hok _ Hin Hm) as (r' & Hr' & _).
      unfold RunnerTrace.file_of in *. congruence.
    + intros o h'. apply resolved_steps. eapply rtc_r; [exact Hj5|done].
  - apply wp_bind. eapply wp_mono; [apply (write_jsteps r)|].
    { apply js_register; [done|by left]. }
    intros [[]|e'|] h6 [Hj6 Hput]; [|apply resolved_failed; by etransitivity..].
    apply wp_ret. split; [by etransitivity|]. apply truthful_absent. exists r. split; [|done].
    rewrite Hput by done. apply (file_of_put r).
Qed.

Lemma managedStart_spec req h :
  journal_ok cfg h →
  wp (managedStart marshal start cfg req) (λ o h', resolved (attempt req) h o h') h.
Proof.
  intros Hok. unfold managedStart.
  assert (Hquiet : ∀ h', same_journals h h' →
    (∀ e, resolved (attempt req) h (Err e) h') ∧ resolved (attempt req) h Crashed h')
    by (intros h' Hs; by apply resolved_failed, same_jsteps).
  apply wp_bind, wp_lift. unfold Validate.
  destruct (complete_identity (attempt req)) eqn:Hc; cbn; [|by apply Hquiet].
  assert (Hm : managed (attempt req)).
  { unfold complete_identity in Hc. rewrite !andb_true_iff in Hc.
    destruct Hc as [[_ Hid] _]. by apply nonempty_spec. }
  apply wp_bind. eapply wp_mono; [apply readReceipt_spec|]. intros o h1 [Hs1 Hr].
  destruct o as [[r|]|e|]; [| |by apply Hquiet..].
  - destruct Hr as (Hr & Hq & Hk). destruct (_ && _); [by apply wp_throw, Hquiet|].
    rewrite <- Hq in *. eapply wp_mono; [apply resultLocked_spec; [|done]|].
    + by rewrite (same_file _ h h1).
    + intros o h'. apply resolved_steps. by apply same_jsteps.
  - apply wp_bind. eapply wp_mono; [apply coldStartFence_spec|]. intros o h2 [Hs2 Hf].
    assert (Hs12 : same_journals h h2) by (by etransitivity).
    destruct o as [[]|e|]; [|by apply Hquiet..]. specialize (Hf eq_refl).
    eapply wp_mono; [apply new_attempt_spec|].
    + eapply jsteps_ok; [|done]. by apply same_jsteps.
    + done.
    + by rewrite (same_file _ h h2).
    + intros Hf2. apply Hf. by eapply same_fenced.
    + intros o h'. apply resolved_steps. by apply same_jsteps.
Qed.

Lemma legacyStart_spec req h :
  sq_RequestID req = "" →
  wp (legacyStart start cfg req) (λ _ h', jsteps h h') h.
Proof.
  intros Hid. unfold legacyStart. apply wp_bind.
  eapply wp_mono; [apply coldStartFence_spec|]. intros o h1 [Hs1 Hf].
  destruct o as [[]|e|]; [|by apply same_jsteps..]. specialize (Hf eq_refl).
  apply wp_bind. eapply wp_mono; [apply activeReceipt_spec|]. intros o h2 [Hs2 Hna].
  assert (Hs12 : same_journals h h2) by (by etransitivity).
  destruct o as [[a|]|e|]; [by apply wp_ret, same_jsteps| |by apply same_jsteps..].
  unfold s_start. apply wp_bind, wp_record_launch. eapply wp_mono; [apply start_quiet|].
  intros o h3 Hs3. transitivity h2; [by apply same_jsteps|].
  transitivity (set_launches (attempt req :: launches h2) h2); [|by apply same_jsteps].
  apply rtc_once, js_legacy; [done|]. intros _. split.
  - apply (same_no_active _ h1 h2); [done|]. by apply Hna.
  - intros Hf2. apply Hf. by eapply same_fenced.
Qed.

(** A start moves the journals by steps, and a managed one answers truthfully. *)
Lemma receiptStart_spec req h :
  journal_ok cfg h →
  wp (receiptStart marshal start cfg req) (λ o h', jsteps h h' ∧
    (sq_RequestID req ≠ "" → truthful (attempt req) o h')) h.
Proof.
  intros Hok. unfold receiptStart. case_match eqn:Hraw.
  - apply andb_true_iff in Hraw as [Hid Hdir]. apply negb_true_iff in Hid, Hdir.
    assert (Hid' : sq_RequestID req = "").
    { destruct (sq_RequestID req); [done|]. by rewrite (proj2 (nonempty_spec _)) in Hid. }
    unfold s_start. apply wp_bind, wp_record_launch. eapply wp_mono; [apply start_quiet|].
    intros o h' Hs. split; [|done].
    transitivity (set_launches (attempt req :: launches h) h); [|by apply same_jsteps].
    apply rtc_once, js_legacy; [done|]. intros Hne%nonempty_spec. congruence.
  - apply wp_bind, wp_lift. destruct (validateHostSocketPaths _ _ _); cbn; [|done].
    apply wp_locked; [|intros h1 Hj; by split]. intros h1 Hj1.
    destruct (nonempty (sq_RequestID req)) eqn:Hid; simpl.
    + eapply wp_mono; [apply managedStart_spec; by eapply jsteps_ok|].
      intros o h' [Hj Ht]. split; [by etransitivity|done].
    + assert (Hid' : sq_RequestID req = "").
      { destruct (sq_RequestID req); [done|]. by rewrite (proj2 (nonempty_spec _)) in Hid. }
      eapply wp_mono; [by apply legacyStart_spec|]. intros o h' Hj. split; [by etransitivity|done].
Qed.
End start_ops.

(** *** Calls that leave the machine alone *)

Lemma readReceipt_eq q : within eq (readReceipt cfg q).
Proof. unfold readReceipt. repeat within_step. Qed.
Lemma readRAM_eq name : within eq (readRAMState cfg name).
Proof.
  unfold readRAMState. repeat (within_step || (apply within_query; apply _)).
Qed.
Lemma layout_machine name : within eq (checkRAMStateLayout cfg name).
Proof.
  unfold checkRAMStateLayout, probe_rename. repeat (within_step || (apply within_query; apply _)).
Qed.

Lemma writeReceipt_machine r : within machine_kept (writeReceipt cfg r).
Proof.
  unfold writeReceipt.
  repeat (within_step || (apply within_query; apply _) || (apply within_env; [apply _|done])).
Qed.
Lemma lockName_machine name : within machine_kept (lockName cfg name).
Proof.
  unfold lockName, mkdir_receipts, touch_lock.
  repeat (within_step || (apply within_query; apply _)
          || (apply within_env; [apply _|intros ?; by case_match])).
Qed.

(** The active receipt is the file of its own attempt. *)
Lemma read_entry_file name e h :
  wp (read_entry cfg name e) (λ o h', same_journals h h' ∧
    (∀ r, o = Ok r → file_of (sr_req r) h = Some (F_receipt r))) h.
Proof.
  apply wp_quiet_and; [auto with quiet|]. unfold read_entry. apply wp_bind, wp_query; [done..|].
  destruct (lookup_file cfg name e h) as [f|]; cbn; [|done].
  apply wp_bind, wp_lift. destruct (decode_receipt f) as [r|]; cbn; [|done].
  apply wp_bind, wp_require; [|done]. intros _.
  apply wp_bind. eapply wp_mono; [apply readReceipt_spec|].
  intros [[r'|]| |] h' [Hs Hr]; [|by apply wp_throw|done|done]. apply wp_ret.
  intros r0 [= <-]. by destruct Hr as (Hr & -> & _).
Qed.

Lemma activeReceipt_found name h :
  wp (activeReceipt cfg name) (λ o h', same_journals h h' ∧
    (∀ r, o = Ok (Some r) → file_of (sr_req r) h = Some (F_receipt r))) h.
Proof.
  apply wp_quiet_and; [auto with quiet|]. unfold activeReceipt. apply wp_bind, wp_query; [done..|].
  destruct (dir_of cfg name h) as [d|]; cbn; [|done].
  generalize (merge_sort name_le (map fst (map_to_list d))). intros es.
  assert (Hgen : ∀ a h0, same_journals h h0 →
    (∀ r, a = Some r → file_of (sr_req r) h = Some (F_receipt r)) →
    wp (scan_active cfg name es a)
      (λ o _, ∀ r, o = Ok (Some r) → file_of (sr_req r) h = Some (F_receipt r)) h0).
  { induction es as [|e es IH]; intros a h0 Hs Ha; simpl.
    { apply wp_ret. intros r [= ->]. by apply Ha. }
    destruct (HasSuffix e ".json"); simpl; [|by apply IH].
    apply wp_bind. eapply wp_mono; [apply read_entry_file|]. intros o h1 [Hs1 Hr].
    destruct o as [r|e'|]; [|done..]. assert (Hs2 : same_journals h h1) by (by etransitivity).
    case_match; [|by apply IH]. destruct a as [a|]; [by apply wp_throw|].
    apply IH; [done|]. intros r0 [= <-]. rewrite <- (same_file _ h h0) by done. by apply Hr. }
  by apply Hgen.
Qed.

(** *** Stopping *)

Lemma hostBootID_spec h :
  wp hostBootID (λ o h', h' = h ∧
    (∀ b, o = Ok b → b = TrimSpace (boot_file (machine h)))) h.
Proof.
  unfold hostBootID. apply wp_bind, wp_query; [done..|]. cbn. case_match.
  - by apply wp_throw.
  - apply wp_ret. split; [done|]. by intros b [= <-].
Qed.

Lemma finishDead_procs r : within procs_kept (finishDeadReceiptLocked cfg r).
Proof. unfold finishDeadReceiptLocked. solve_kept. Qed.

Lemma processTicks_gone r h :
  wp (try (processTicks (PID r))) (λ o h', h' = h ∧
    (∀ t, o = Ok t → process_gone r t = true → exited (PID r) (Ticks r) (machine h) = true)) h.
Proof.
  apply wp_try, wp_query; cbn; [by split; [|intros t [= <-]]|done|].
  unfold exited. destruct (read_ticks _) as [t|e]; cbn; (split; [done|]); intros t0 [= <-]; cbn;
    [done|]. by destruct e.
Qed.

Lemma wait_or_kill_spec pid ticks h :
  wp (wait_or_kill pid ticks) (λ o h', o = Ok tt → exited pid ticks (machine h') = true) h.
Proof.
  assert (Hw : ∀ h, wp (waitPidfd pid ticks)
    (λ o h', h' = h ∧ (o = Ok tt → exited pid ticks (machine h') = true)) h).
  { intros h0. apply wp_query; [done..|]. by destruct (exited pid ticks (machine h0)) eqn:He. }
  unfold wait_or_kill. apply wp_bind, wp_try. eapply wp_mono; [apply Hw|].
  intros [[]|e|] h' [-> H]; [apply wp_ret; auto| |done].
  case_bool_decide; [|by apply wp_throw]. apply wp_bind. unfold sigkill, env_machine.
  apply wp_env; cbn; [done..| |done]. eapply wp_mono; [apply Hw|]. by intros o h' [_ Ho].
Qed.

(** What a successful stop of an attempt of this boot established. *)
Definition stopped (r : startReceipt) (boot : string) (h' : Host) : Prop :=
  closed_at (sr_req r) h' ∧
  (RState r ≠ "closed" → q_HostBootID (sr_req r) = boot →
   exited (PID r) (Ticks r) (machine h') = true).

(** Finishing a dead receipt within a stop. *)
Lemma stop_dead_spec r boot h :
  file_of (sr_req r) h = Some (F_receipt r) → RState r ≠ "closed" →
  (q_HostBootID (sr_req r) = boot → exited (PID r) (Ticks r) (machine h) = true) →
  wp (resp ← finishDeadReceiptLocked cfg r; absent_or_reason resp)
     (λ o h', jsteps h h' ∧ (o = Ok tt → stopped r boot h')) h.
Proof.
  intros Hr Hc Hgone. apply wp_bind.
  eapply wp_mono; [apply wp_and; [by apply finishDead_spec|apply finishDead_procs]|].
  intros [resp|e|] h' [[Hj Ht] Hp]; [|by split..]. apply wp_require; [|by split].
  intros Ho%String.eqb_eq. split; [done|]. intros _. split; [by apply Ht|].
  intros _ Hb. specialize (Hgone Hb). unfold exited in *. by rewrite Hp.
Qed.

Section stop_ops.
Context (guest_shutdown : string → Machine → Machine).

Lemma stop_live_spec r h :
  file_of (sr_req r) h = Some (F_receipt r) → RState r ≠ "closed" →
  wp (stop_live guest_shutdown cfg r)
     (λ o h', jsteps h h' ∧
        (o = Ok tt → closed_at (sr_req r) h' ∧ exited (PID r) (Ticks r) (machine h') = true)) h.
Proof.
  intros Hr Hc. unfold stop_live.
  assert (Hquiet : ∀ h', same_journals h h' →
    (∀ e : error, jsteps h h' ∧ (@Err unit e = Ok tt → closed_at (sr_req r) h' ∧
       exited (PID r) (Ticks r) (machine h') = true)) ∧
    (jsteps h h' ∧ (@Crashed unit = Ok tt → closed_at (sr_req r) h' ∧
       exited (PID r) (Ticks r) (machine h') = true)))
    by (intros h' Hs; by repeat split; try apply same_jsteps).
  apply wp_quiet; [solve_quiet| |done]. intros a h1 Hs1.
  apply wp_bind, wp_require; [intros _|intros _; by apply Hquiet].
  do 3 (apply wp_quiet; [solve_quiet| |intros ?hq ?Hs; apply Hquiet; by etransitivity];
        intros ? ?hq ?; match goal with H1 : same_journals h ?a, H2 : same_journals ?a ?b |- _ =>
          assert (same_journals h b) by (by etransitivity); clear H1 H2 end).
  apply wp_bind. eapply wp_mono; [apply wp_and; [apply quiet_wait_or_kill|apply wait_or_kill_spec]|].
  intros o h5 [Hs5 Hx]. assert (Hs05 : same_journals h h5) by (by etransitivity).
  destruct o as [[]|e|]; [|by apply Hquiet..]. specialize (Hx eq_refl).
  assert (Hrest : wp (noLiveRuntimeLocked cfg (q_Name (sr_req r));;
      ignore_missing (cleanupFirecrackerCgroup (q_Name (sr_req r)));;
      cleanupVMRuntime cfg (q_Name (sr_req r));;
      writeReceipt cfg (with_state "closed" r))
    (λ o h', (jsteps h h' ∧ (o = Ok tt → closed_at (sr_req r) h')) ∧ procs_kept h5 h') h5).
  { apply wp_and; [|assert (within procs_kept (noLiveRuntimeLocked cfg (q_Name (sr_req r));;
      ignore_missing (cleanupFirecrackerCgroup (q_Name (sr_req r)));;
      cleanupVMRuntime cfg (q_Name (sr_req r));;
      writeReceipt cfg (with_state "closed" r))) as Hp by solve_kept; apply Hp].
    do 3 (apply wp_quiet; [solve_quiet| |intros ?hq ?Hs; repeat split; try done;
            apply same_jsteps; by etransitivity];
          intros ? ?hq ?; match goal with H1 : same_journals h ?a, H2 : same_journals ?a ?b |- _ =>
            assert (same_journals h b) by (by etransitivity); clear H2 end).
    eapply wp_mono; [apply write_jsteps|].
    - apply (js_update _ r); [|by constructor]. simpl. by rewrite (same_file _ h).
    - intros o h' [Hj Hput]. split; [etransitivity; [by apply same_jsteps|done]|].
      intros Ho. exists (with_state "closed" r). split; [|done].
      rewrite Hput by done. apply (file_of_put (with_state "closed" r)). }
  eapply wp_mono; [exact Hrest|]. intros o h' [[Hj Hcl] Hp]. split; [done|].
  intros Ho. split; [by apply Hcl|]. unfold exited in *. by rewrite Hp.
Qed.

Lemma stopReceiptLocked_spec r h :
  file_of (sr_req r) h = Some (F_receipt r) →
  wp (stopReceiptLocked guest_shutdown cfg r)
     (λ o h', jsteps h h' ∧ (o = Ok tt → stopped r (TrimSpace (boot_file (machine h))) h')) h.
Proof.
  intros Hr. unfold stopReceiptLocked. apply wp_bind.
  eapply wp_mono; [apply hostBootID_spec|]. intros o h1 [-> Hb].
  destruct o as [boot|e|]; [|by split..]. rewrite <- (Hb boot eq_refl). clear Hb.
  destruct (String.eqb (RState r) "closed") eqn:Hc.
  { apply String.eqb_eq in Hc. apply wp_ret. split; [done|]. intros _. split; [by exists r|done]. }
  apply String.eqb_neq in Hc.
  destruct (String.eqb (q_HostBootID (sr_req r)) boot) eqn:Hboot; simpl.
  2: { apply String.eqb_neq in Hboot. by apply stop_dead_spec. }
  destruct (String.eqb (RState r) "started"); simpl; [|by apply wp_throw].
  apply wp_bind. eapply wp_mono; [apply processTicks_gone|]. intros o h1 [-> Hg].
  destruct o as [t|e|]; [|by split..]. destruct (process_gone r t) eqn:Hpg.
  - apply stop_dead_spec; [done..|]. intros _. by eapply Hg.
  - destruct t; [|by apply wp_throw]. eapply wp_mono; [by apply stop_live_spec|].
    intros o h' [Hj Ho]. split; [done|]. intros Hok. destruct (Ho Hok). by split.
Qed.

Lemma intend_save_spec req r h :
  file_of (sr_req r) h = Some (F_receipt r) →
  wp (intend_save cfg req r) (λ o h', (jsteps h h' ∧ machine_kept h h') ∧
    match o with
    | Ok r' => file_of (sr_req r) h' = Some (F_receipt r') ∧
               sr_req r' = sr_req r ∧ RState r' = RState r ∧ PID r' = PID r ∧ Ticks r' = Ticks r
    | _ => True
    end) h.
Proof.
  intros Hr. unfold intend_save. destruct (_ && _); [|by apply wp_ret].
  apply wp_bind, wp_require; [|done]. intros [Hst%String.eqb_eq _]%andb_true_iff.
  assert (Hstep : jstep h (put_receipt (with_save r) h))
    by (apply (js_update _ r); [done|by constructor]).
  apply wp_bind. eapply wp_mono; [apply layout_machine|]. intros o h1 <-.
  destruct o as [[]|e|]; [|done..]. apply wp_bind.
  eapply wp_mono; [apply wp_and; [by apply write_jsteps|apply writeReceipt_machine]|].
  intros [[]|e|] h2 [[Hj Hput] Hm]; [|done..]. apply wp_ret. split; [done|].
  rewrite Hput by done. split; [|done]. apply (file_of_put (with_save r)).
Qed.

(** What a successful managed stop established. *)
Definition stop_done (q : StartResultRequest) (h h' : Host) : Prop :=
  ∃ r, file_of q h = Some (F_receipt r) ∧ closed_at q h' ∧
    (RState r ≠ "closed" → q_HostBootID q = TrimSpace (boot_file (machine h)) →
     exited (PID r) (Ticks r) (machine h') = true).

Lemma managedStop_spec req h :
  wp (managedStop guest_shutdown cfg req)
     (λ o h', jsteps h h' ∧ (o = Ok tt → stop_done (stop_attempt req) h h')) h.
Proof.
  unfold managedStop. apply wp_bind, wp_lift. destruct (Validate _); cbn; [|done].
  apply wp_bind. eapply wp_mono; [apply wp_and; [apply readReceipt_spec|apply readReceipt_eq]|].
  intros o h1 [[_ Hr] <-]. destruct o as [[r|]|e|]; [|by apply wp_throw|done..].
  destruct Hr as (Hr & Hq & _). rewrite <- Hq in *.
  apply wp_bind. eapply wp_mono; [by apply intend_save_spec|].
  intros [r'|e|] h1 [[Hj1 Hm1] Hr']; [|by split..].
  destruct Hr' as (Hr' & Hq' & Hst' & Hpid' & Hticks').
  apply wp_bind. eapply wp_mono; [apply stopReceiptLocked_spec; by rewrite Hq'|].
  intros [[]|e|] h2 [Hj2 Hs]; [|split; [by etransitivity|done]..].
  assert (Hdone : stop_done (sr_req r) h h2).
  { destruct (Hs eq_refl) as [Hc Hx]. rewrite Hq', Hst', Hpid', Hticks', Hm1 in *. by exists r. }
  assert (Hj : jsteps h h2) by (by etransitivity).
  destruct (tq_SaveState req); [|by apply wp_ret].
  apply wp_bind. eapply wp_mono; [apply readRAM_eq|].
  intros [st|e|] h3 <-; [|done..]. by apply wp_require.
Qed.

Lemma quiet_legacyStop req : quiet (legacyStop guest_shutdown cfg req).
Proof. unfold legacyStop. solve_quiet. Qed.

Lemma receiptStop_spec req h :
  wp (receiptStop guest_shutdown cfg req)
     (λ o h', jsteps h h' ∧
        (tq_RequestID req ≠ "" → o = Ok tt →
         ∃ h0, machine_kept h h0 ∧ stop_done (stop_attempt req) h0 h')) h.
Proof.
  unfold receiptStop. case_match eqn:Hsave; [by apply wp_throw|].
  case_match eqn:Hraw.
  - eapply wp_mono; [apply quiet_stopLegacy|]. intros o h' Hs. split; [by apply same_jsteps|].
    intros Hne%nonempty_spec. rewrite Hne in Hraw. done.
  - apply wp_bind. eapply wp_mono; [apply wp_and; [apply lockName_spec|apply lockName_machine]|].
    intros [[]|e|] h1 [Hj Hm]; [|by split..].
    destruct (nonempty (tq_RequestID req)) eqn:Hid; simpl.
    + eapply wp_mono; [apply managedStop_spec|]. intros o h' [Hj' Ho].
      split; [by etransitivity|]. intros _ Hok. exists h1. split; [done|]. by apply Ho.
    + eapply wp_mono; [apply quiet_legacyStop|]. intros o h' Hs.
      split; [etransitivity; [done|by apply same_jsteps]|].
      intros Hne%nonempty_spec. congruence.
Qed.

Lemma shutdownRunningVM_spec name h :
  wp (shutdownRunningVM guest_shutdown cfg name) (λ _ h', jsteps h h') h.
Proof.
  unfold shutdownRunningVM. apply wp_locked; [|by intros h1 Hj; split].
  intros h1 Hj. apply wp_bind. eapply wp_mono; [apply activeReceipt_found|].
  intros o h2 [Hs Ha]. assert (Hj2 : jsteps h h2) by (etransitivity; [done|by apply same_jsteps]).
  destruct o as [[a|]|e|]; [| |done..].
  - eapply wp_mono; [apply stopReceiptLocked_spec; by rewrite (same_file _ h1 h2) by done; apply Ha|].
    intros o h3 [Hj3 _]. by etransitivity.
  - eapply wp_mono; [apply quiet_stopLegacy|]. intros o h3 Hs3.
    etransitivity; [done|by apply same_jsteps].
Qed.
End stop_ops.
End ops.
