(* ===== verification/RunnerSpec.v ===== *)
(** * What the runner promises about start attempts

    At most one launch per attempt, one active attempt per name, truthful answers,
    finality of absence, and fences of deleted incarnations: over every sequence of
    calls, with any faults and crashes, and any behaviour of the machine and its
    guests in between. *)
From S2P Require Import Prelude GoStrings Paths RunnerState Runtime Receipts ReceiptStop RunnerTrace Encodings.
From S2P Require Import RunnerOps.
From stdpp Require Import relations.

#[local] Open Scope Z_scope.

Section spec.
Context (cfg : ServerConfig) (marshal : StartRequest → string)
  (start : StartRequest → M Host StartResponse) (guest_shutdown : string → Machine → Machine).

(** ** Histories *)

(** The calls of [*Server] on attempts, and the write of a deletion fence by the
    cold-disk handler. *)
Inductive runner_op : ∀ A, M Host A → Prop :=
  | ro_start req : runner_op _ (receiptStart marshal start cfg req)
  | ro_resolve q : runner_op _ (resolveStart cfg q)
  | ro_stop req : runner_op _ (receiptStop guest_shutdown cfg req)
  | ro_shutdown name : runner_op _ (shutdownRunningVM guest_shutdown cfg name)
  | ro_verify q : runner_op _ (verifyDeletion cfg q)
  | ro_fence name id :
      runner_op _ (env (λ h, (inl tt, put_file cfg name (fence_file id) (F_fence id) h))).

(** A call under any faults, or anything that happens to the machine: processes
    exit, PIDs are reused, the host reboots, files under the instance directories
    change. *)
Inductive runner_step : Host → Host → Prop :=
  | step_call A (m : M Host A) fs h : runner_op A m → runner_step h (m fs h).1.2
  | step_machine m h : runner_step h (set_machine m h).

Definition after : relation Host := rtc runner_step.

Context (start_quiet : ∀ req, quiet (start req)).

(** Nothing of a machine of the name is there: no socket, so nothing to talk to; no jail;
    and no cgroup, so no process of it. *)
Record vacant (name : string) (m : Machine) : Prop := {
  va_socket : sockets m !! socket_path cfg name = None;
  va_jail : ∀ paths, resolveJailerRuntimePaths (JailerBaseDir cfg) (FirecrackerBinary cfg) name = inl paths →
    jp_WorkspaceDir paths ∉ jails m;
  va_cgroup : ∀ g, g ∈ cgroups m → cg_name g ≠ name;
}.

Lemma find_cgroup_none m name : find_cgroup m name = None → ∀ g, g ∈ cgroups m → cg_name g ≠ name.
Proof.
  unfold find_cgroup. intros Hf g Hg. destruct (list_find _ (cgroup_listing m)) as [[i g']|] eqn:Hl; [done|].
  apply list_find_None in Hl. rewrite Forall_forall in Hl. apply Hl. unfold cgroup_listing.
  apply elem_of_app. destruct (in_pool g) eqn:Hp; [right|left]; by apply list_elem_of_filter.
Qed.

Lemma noLive_reads name : within eq (noLiveRuntimeLocked cfg name).
Proof. unfold noLiveRuntimeLocked, listRunningVMs, syscall, query_machine. repeat within_step. Qed.

(** The checks on the machine, of one moment. *)
Lemma storageIdle_spec name h :
  wp (storageIdleLocked cfg name) (λ o h', same_journals h h' ∧
    (o = Ok tt → no_active cfg name h' ∧ vacant name (machine h'))) h.
Proof.
  unfold storageIdleLocked, nameVacantLocked. apply wp_bind, wp_bind.
  eapply wp_mono; [apply activeReceipt_spec|]. intros o h1 [Hs Hna].
  destruct o as [[a|]|e|]; [by apply wp_throw| |done..]. specialize (Hna eq_refl).
  apply wp_bind. eapply wp_mono; [apply noLive_reads|]. intros o ? <-. destruct o as [[]|e|]; [|done..].
  apply wp_bind, wp_lift. destruct (resolveJailerRuntimePaths _ _ _) as [paths|e] eqn:Hp; cbn [of_result]; [|done].
  apply wp_bind. unfold lstat_jail, lstat_socket, query_machine. apply wp_query; [done..|]. cbn [of_result].
  apply wp_bind, wp_require; [intros Hj|done]. apply wp_bind, wp_query; [done..|]. cbn [of_result].
  apply wp_require; [intros Hk|done]. apply wp_bind. unfold syscall. apply wp_query; [done..|]. cbn [of_result].
  apply wp_bind, wp_query; [done..|]. cbn [of_result].
  destruct (find_cgroup (machine h1) name) as [g|] eqn:Hg; [by apply wp_throw|]. apply wp_ret. split; [done|].
  intros _. split; [by apply (same_no_active _ _ h h1)|]. constructor.
  - apply negb_true_iff, bool_decide_eq_false in Hk. by apply eq_None_not_Some.
  - intros paths' Hp'. rewrite Hp in Hp'. injection Hp' as <-. by apply negb_true_iff, bool_decide_eq_false in Hj.
  - by apply find_cgroup_none.
Qed.

(** What a successful proof of absence has found. *)
Record proved_absent (q : StartResultRequest) (h : Host) : Prop := {
  pa_fence : lookup_file cfg (q_Name q) (fence_file (q_InstanceID q)) h = Some (F_fence (q_InstanceID q));
  pa_closed : q_RequestID q ≠ "" → closed_at cfg q h;
  pa_settled : colds h !! receiptDir cfg (q_Name q) = None;
  pa_no_active : no_active cfg (q_Name q) h;
  pa_vacant : vacant (q_Name q) (machine h);
}.

Lemma verifyDeletion_spec q h :
  wp (verifyDeletion cfg q) (λ o h', jsteps cfg h h' ∧ (o = Ok tt → proved_absent q h')) h.
Proof.
  unfold verifyDeletion. apply wp_bind, wp_require; [intros _|done].
  apply wp_locked; [|by intros h1 Hj; split]. intros h1 Hj1.
  apply wp_bind, wp_query; cbn; [done..|].
  destruct (lookup_file cfg (q_Name q) _ h1) as [f|] eqn:Hf; cbn; [|done].
  apply wp_bind, wp_require; [|done]. intros Hid.
  assert (Hf' : f = F_fence (q_InstanceID q)).
  { destruct f; try done. apply String.eqb_eq in Hid. by subst. }
  rewrite Hf' in Hf. clear Hid Hf' f.
  assert (Hframe : ∀ h', same_journals h1 h' → jsteps cfg h h')
    by (intros h' Hs; etransitivity; [done|by apply same_jsteps]).
  apply wp_bind.
  assert (Hreq : wp (if nonempty (q_RequestID q) then
      r ← readReceipt cfg q;
      require (match r with Some r => String.eqb (RState r) "closed" | None => false end)
        (Errorf "exact attempt not closed") else mret tt)
    (λ o h', same_journals h1 h' ∧ (o = Ok tt → q_RequestID q ≠ "" → closed_at cfg q h1)) h1).
  { destruct (nonempty (q_RequestID q)) eqn:Hne.
    - apply wp_bind. eapply wp_mono; [apply readReceipt_spec|]. intros o h2 [Hs Hr].
      destruct o as [[r|]|e|]; [| |done..]; apply wp_require; try done.
      intros Hc%String.eqb_eq. split; [done|]. intros _ _. destruct Hr as (Hr & _). by exists r.
    - apply wp_ret. split; [done|]. intros _ Hne'%nonempty_spec. congruence. }
  eapply wp_mono; [exact Hreq|]. intros o h2 [Hs2 Hcl].
  destruct o as [[]|e|]; [|split; [by apply Hframe|done]..].
  apply wp_bind, wp_try. eapply wp_mono.
  { apply wp_quiet_and; [auto with quiet|]. unfold readCold.
    apply (wp_bind syscall _ (λ o (h' : Host), o = Ok None → colds h2 !! receiptDir cfg (q_Name q) = None)).
    apply wp_query; [done..|]. apply wp_bind, wp_query; [done..|]. cbn.
    destruct (colds h2 !! _) as [f|]; [|by apply wp_ret].
    apply wp_bind, wp_lift. destruct (unmarshal f); cbn; [|done].
    apply wp_bind, wp_lift. destruct (check_cold _ _); cbn; [|done]. by apply wp_ret. }
  intros o h3 [Hs3 Hcold]. assert (Hs13 : same_journals h1 h3) by (by etransitivity).
  destruct o as [cold|e|].
  2: { by apply wp_bind, wp_require; [|split; [apply Hframe|]]. }
  2: { split; [by apply Hframe|done]. }
  apply wp_bind, wp_require; [|intros _; split; [by apply Hframe|done]]. intros Hc.
  destruct cold as [r|]; [done|]. specialize (Hcold eq_refl).
  eapply wp_mono; [apply storageIdle_spec|]. intros o h6 [Hs6 Hidle].
  assert (Hs16 : same_journals h1 h6) by (by do 2 (etransitivity; [done|])).
  split; [by apply Hframe|]. intros Ho. destruct (Hidle Ho) as [Hna Hvac]. constructor; [| | |done..].
  - by rewrite (same_lookup _ _ _ h1 h6).
  - intros Hne. apply (same_closed _ _ h1 h6); [done|]. by apply Hcl.
  - destruct Hs2 as (_ & H2 & _), Hs3 as (_ & H3 & _), Hs6 as (_ & H6 & _). congruence.
Qed.

(** Every step moves the journals along [jstep]. *)
Lemma runner_step_jsteps h h' : journal_ok cfg h → runner_step h h' → jsteps cfg h h'.
Proof.
  intros Hok Hs. revert Hok. destruct Hs as [A m fs h0 Hop|m h0]; [|by intros _; apply rtc_once, js_frame].
  destruct Hop as [req|q|req|name|q|name id]; intros Hok.
  - apply (receiptStart_spec cfg marshal start start_quiet req h0 Hok fs).
  - apply (resolveStart_spec cfg q h0 fs).
  - apply (receiptStop_spec cfg guest_shutdown req h0 fs).
  - apply (shutdownRunningVM_spec cfg guest_shutdown name h0 fs).
  - apply (verifyDeletion_spec q h0 fs).
  - assert (H : wp (env (λ h, (inl tt : result unit,
      put_file cfg name (fence_file id) (F_fence id) h))) (λ _ h', jsteps cfg h0 h') h0);
      [|apply H].
    apply wp_env; cbn; try done; apply rtc_once, js_fence.
Qed.

Lemma after_jsteps h h' : journal_ok cfg h → after h h' → jsteps cfg h h' ∧ journal_ok cfg h'.
Proof.
  intros Hok Hrtc. revert Hok. induction Hrtc as [h|h h1 h2 Hstep _ IH]; intros Hok; [done|].
  pose proof (runner_step_jsteps _ _ Hok Hstep) as Hj.
  destruct (IH (jsteps_ok cfg _ _ Hj Hok)) as [Hj' Hok']. split; [by etransitivity|done].
Qed.

(** ** What journal steps keep *)

Lemma receipt_step_closed r r' : receipt_step r r' → RState r ≠ "closed".
Proof. destruct 1; congruence. Qed.

(** A closed attempt stays closed and is not launched. *)
Lemma jstep_closed q h h' :
  closed_at cfg q h → journal_ok cfg h → jstep cfg h h' →
  closed_at cfg q h' ∧ (managed q → q ∈ launches h' → q ∈ launches h).
Proof.
  intros (rc & Hrc & Hc) Hok Hs.
  assert (Hat : at_path (receiptDir cfg (q_Name q)) (receipt_file (q_RequestID q)) h =
                Some (F_receipt rc)) by exact Hrc.
  destruct Hs as [h h' Hr Hl|name h|name h|name id h|r h Hnone Hst|r0 r h Hr0 Hst
                 |r h Hm Hr Ha Hf Hq|q' h Hq' _]; simpl.
  - split; [|by rewrite Hl]. exists rc. split; [|done].
    unfold file_of, lookup_file, dir_of in *. by rewrite Hr.
  - split; [|by unfold mkdir_receipts; case_match]. exists rc. split; [|done].
    unfold file_of. by rewrite lookup_at_path, at_path_mkdir.
  - split; [|by unfold touch_lock; case_match]. exists rc. split; [|done].
    unfold file_of. rewrite lookup_at_path, at_path_lock; [done|apply receipt_lock_ne].
  - split; [|done]. exists rc. split; [|done].
    unfold file_of. rewrite lookup_at_path, at_path_put, bool_decide_eq_false_2; [done|].
    intros [_ He]. by apply receipt_fence_ne in He.
  - split; [|done]. exists rc. split; [|done].
    unfold file_of. rewrite lookup_at_path, at_path_put_receipt, bool_decide_eq_false_2; [done|].
    intros [HD He]. unfold file_of in Hnone. rewrite lookup_at_path in Hnone. congruence.
  - split; [|done].
    unfold closed_at, file_of. rewrite lookup_at_path, at_path_put_receipt.
    case_bool_decide as Hd; [|by exists rc]. exfalso. destruct Hd as [HD He].
    unfold file_of in Hr0. rewrite lookup_at_path, <- HD, <- He, Hat in Hr0. injection Hr0 as ->.
    by apply receipt_step_closed in Hst.
  - split; [by exists rc|]. intros Hman [->|Hin]%elem_of_cons; [|done]. congruence.
  - split; [by exists rc|]. intros Hman [->|Hin]%elem_of_cons; [done|done].
Qed.

Lemma jsteps_closed q h h' :
  closed_at cfg q h → journal_ok cfg h → jsteps cfg h h' →
  closed_at cfg q h' ∧ (managed q → q ∈ launches h' → q ∈ launches h).
Proof.
  intros Hc Hok Hj. revert Hc Hok. induction Hj as [h|h h1 h2 Hs _ IH]; intros Hc Hok; [done|].
  destruct (jstep_closed q _ _ Hc Hok Hs) as [Hc1 Hl1].
  destruct (IH Hc1 (jstep_ok cfg _ _ Hs Hok)) as [Hc2 Hl2]. split; [done|]. auto.
Qed.

(** A fence stays, and holds back the launches of its incarnation. *)
Lemma jstep_fenced name id h h' :
  JailerBaseDir cfg ≠ "" → fenced cfg name id h → jstep cfg h h' →
  fenced cfg name id h' ∧
  (∀ q, q_Name q = name → q_InstanceID q = id → q ∈ launches h' → q ∈ launches h).
Proof.
  intros Hdir [f Hf] Hs.
  assert (Hat : at_path (receiptDir cfg name) (fence_file id) h = Some f) by exact Hf.
  destruct Hs as [h h' Hr Hl|name' h|name' h|name' id' h|r h Hnone Hst|r0 r h Hr0 Hst
                 |r h Hm Hr Ha Hfence Hq|q' h Hq' Hleg]; simpl; unfold fenced;
    rewrite lookup_at_path.
  - split; [|by rewrite Hl]. exists f. unfold at_path in *. by rewrite Hr.
  - rewrite at_path_mkdir. split; [by exists f|by unfold mkdir_receipts; case_match].
  - rewrite at_path_lock by apply fence_lock_ne.
    split; [by exists f|by unfold touch_lock; case_match].
  - rewrite at_path_put. split; [|done]. case_bool_decide; eauto.
  - rewrite at_path_put_receipt. split; [|done]. case_bool_decide; eauto.
  - rewrite at_path_put_receipt. split; [|done]. case_bool_decide; eauto.
  - split; [by exists f|]. intros q Hn Hi [->|Hin]%elem_of_cons; [|done].
    destruct Hfence. exists f. by rewrite Hn, Hi.
  - split; [by exists f|]. intros q Hn Hi [->|Hin]%elem_of_cons; [|done].
    destruct (Hleg Hdir) as [_ Hfence]. destruct Hfence. exists f. by rewrite Hn, Hi.
Qed.

Lemma jsteps_fenced name id h h' :
  JailerBaseDir cfg ≠ "" → fenced cfg name id h → jsteps cfg h h' →
  fenced cfg name id h' ∧
  (∀ q, q_Name q = name → q_InstanceID q = id → q ∈ launches h' → q ∈ launches h).
Proof.
  intros Hdir Hf Hj. revert Hf. induction Hj as [h|h h1 h2 Hs _ IH]; intros Hf; [done|].
  destruct (jstep_fenced name id _ _ Hdir Hf Hs) as [Hf1 Hl1].
  destruct (IH Hf1) as [Hf2 Hl2]. split; [done|]. auto.
Qed.
End spec.

(** ** A host that starts and stops *)

Definition cfg0 : ServerConfig :=
  mkServerConfig "/usr/bin/firecracker" "/srv/jailer" "/srv/data/instances" "cold.example".

Definition machine0 : Machine :=
  mkMachine ("boot-7" +:+ String newline "")%stdpp ∅ [] ∅ ∅ ∅ ∅ ∅ ("", "").
Definition host0 : Host := mkHost ∅ ∅ ∅ machine0 [].

Definition request0 : StartRequest :=
  mkStartRequest false "" "" "" "id-1" "req-1" "boot-7" "demo" "tap0" "aa:fc:00:00:00:01"
    "172.28.0.2/30" "172.28.0.1" [] 2 1024 "" "" 0 "" no_bootstrap.
Definition attempt0 : StartResultRequest := attempt request0.

(** A serialiser, a launch that succeeds and a guest that obeys. *)
Definition marshal0 (req : StartRequest) : string :=
  GoStrings.Join [sq_Name req; sq_InstanceID req; sq_RequestID req; sq_GuestAddr req] " ".

Definition stat0 : string :=
  "100 (firecracker) S 1 100 100 0 -1 4194560 900 0 0 0 10 5 0 0 20 0 3 0 7700 1000 200".

Definition start0 (req : StartRequest) : M Host StartResponse :=
  env_machine (λ m, (inl tt,
    set_procs (<[100 := stat0]> (procs m))
      (set_cgroups (mkCgroup None (sq_Name req) [100] :: cgroups m)
         (set_sockets (<[socket_path cfg0 (sq_Name req) := Peer 100]> (sockets m)) m))));;
  mret (mkStartResponse "" "" 100).

Definition guest0 (path : string) (m : Machine) : Machine :=
  match sockets m !! path with
  | Some (Peer pid) => set_procs (delete pid (procs m)) m
  | _ => m
  end.

Lemma start0_quiet req : quiet (start0 req).
Proof. unfold start0. solve_quiet. Qed.

Definition start_call : M Host StartResponse := receiptStart marshal0 start0 cfg0 request0.
Definition started_host : Host := (run start_call host0).2.

Definition stop0 : StopRequest := mkStopRequest false "id-1" "req-1" "boot-7" "demo" 0.
Definition stop_call : M Host unit := receiptStop guest0 cfg0 stop0.

Lemma host0_ok : journal_ok cfg0 host0.
Proof. apply journal_ok_empty. Qed.

Lemma start_call_after fs h :
  after cfg0 marshal0 start0 guest0 h (start_call fs h).1.2.
Proof. apply rtc_once. apply step_call, ro_start. Qed.

(** ** The properties of start attempts

    The claims about receipts.go and cleanup.go, each over every sequence of calls
    of the runner and every behaviour of the machine in between ([after]). *)

Section claims.
Context (cfg : ServerConfig) (marshal : StartRequest → string)
  (start : StartRequest → M Host StartResponse) (guest_shutdown : string → Machine → Machine).

(** C1. A managed attempt is launched at most once: retries after lost replies,
    errors, crashes of the runner and reboots of the host never call the launcher
    a second time for it. *)
Theorem launch_at_most_once h h' :
  (∀ req, quiet (start req)) → journal_ok cfg h →
  after cfg marshal start guest_shutdown h h' → NoDup (filter managed (launches h')).
Proof.
  intros Hq Hok Ha.
  destruct (after_jsteps cfg marshal start guest_shutdown Hq h h' Hok Ha) as [_ Hok'].
  apply (jo_once cfg h' Hok').
Qed.

(** C23. No two attempts of one instance name are active at a time: every other receipt
    of its directory is closed. *)
Theorem one_active_attempt h h' D fname fname' :
  (∀ req, quiet (start req)) → journal_ok cfg h →
  after cfg marshal start guest_shutdown h h' →
  active (at_path D fname h') → active (at_path D fname' h') → fname = fname'.
Proof.
  intros Hq Hok Ha.
  destruct (after_jsteps cfg marshal start guest_shutdown Hq h h' Hok Ha) as [_ Hok'].
  apply (jo_exclusive cfg h' Hok').
Qed.

(** A managed start answers truthfully: "running" names the process of the started
    receipt, alive with the recorded identity; "absent" means that the attempt is
    closed.  Whatever else happened, the answer is "unknown" or an error. *)
Theorem start_answers_truthfully req h :
  (∀ req, quiet (start req)) → journal_ok cfg h → sq_RequestID req ≠ "" →
  wp (receiptStart marshal start cfg req) (λ o h',
    match o with
    | Ok resp =>
        (Outcome resp = StartRunning → ∃ r,
           file_of cfg (attempt req) h' = Some (F_receipt r) ∧ RState r = "started" ∧
           rs_PID resp = PID r ∧ read_ticks (procs (machine h') !! PID r) = inl (Ticks r)) ∧
        (Outcome resp = StartAbsent → closed_at cfg (attempt req) h')
    | _ => True
    end) h.
Proof.
  intros Hq Hok Hid.
  eapply wp_mono; [by apply (receiptStart_spec cfg marshal start Hq req h Hok)|].
  intros o h' [_ Ht]. by apply Ht.
Qed.

(** Absence is final: once a resolution has answered "absent" for an attempt, the
    attempt is never launched, however late its start request arrives. *)
Theorem absent_is_final q fs h h' resp :
  (∀ req, quiet (start req)) → journal_ok cfg h → managed q →
  (resolveStart cfg q fs h).1.1 = Ok resp → Outcome resp = StartAbsent →
  let h1 := (resolveStart cfg q fs h).1.2 in
  after cfg marshal start guest_shutdown h1 h' → q ∈ launches h' → q ∈ launches h1.
Proof.
  intros Hq Hok Hm Hres Hout h1 Ha.
  destruct (resolveStart_spec cfg q h fs) as [Hj Ht]. rewrite Hres in Ht. fold h1 in Hj, Ht.
  destruct Ht as [_ Hc]. pose proof (jsteps_ok cfg _ _ Hj Hok) as Hok1.
  destruct (after_jsteps cfg marshal start guest_shutdown Hq h1 h' Hok1 Ha) as [Hj' _].
  by apply (jsteps_closed cfg q h1 h' (Hc Hout) Hok1 Hj').
Qed.

(** A managed stop that succeeds closed the attempt; and an attempt of this boot
    that was still open has lost its process. *)
Theorem stop_closes_attempt req h :
  tq_RequestID req ≠ "" →
  wp (receiptStop guest_shutdown cfg req) (λ o h', o = Ok tt →
    ∃ h0 r, machine_kept h h0 ∧ file_of cfg (stop_attempt req) h0 = Some (F_receipt r) ∧
      closed_at cfg (stop_attempt req) h' ∧
      (RState r ≠ "closed" → tq_HostBootID req = TrimSpace (boot_file (machine h)) →
       exited (PID r) (Ticks r) (machine h') = true)) h.
Proof.
  intros Hid. eapply wp_mono; [apply receiptStop_spec|]. intros o h' [_ Ho] Hok.
  destruct (Ho Hid Hok) as (h0 & Hm & r & Hr & Hc & Hx). exists h0, r.
  unfold machine_kept in Hm. rewrite Hm in Hx. by repeat split.
Qed.

(** C35. The deletion proof: it is given only when the incarnation's deletion fence is on
    disk, its attempt is closed, its cold-disk journal is settled, its name has no active
    attempt, and nothing of a machine of the name is there: no socket, no jail, no cgroup.
    From then on no start of that incarnation, managed or legacy, is ever launched. *)
Theorem deletion_proof_final q fs h h' :
  (∀ req, quiet (start req)) → journal_ok cfg h → JailerBaseDir cfg ≠ "" →
  (verifyDeletion cfg q fs h).1.1 = Ok tt →
  let h1 := (verifyDeletion cfg q fs h).1.2 in
  after cfg marshal start guest_shutdown h1 h' →
  proved_absent cfg q h1 ∧
  (∀ q', q_Name q' = q_Name q → q_InstanceID q' = q_InstanceID q →
     q' ∈ launches h' → q' ∈ launches h1).
Proof.
  intros Hq Hok Hdir Hres h1 Ha.
  destruct (verifyDeletion_spec cfg q h fs) as [Hj Ho]. specialize (Ho Hres).
  fold h1 in Hj, Ho. split; [done|]. destruct Ho as [Hf _ _ _ _].
  pose proof (jsteps_ok cfg _ _ Hj Hok) as Hok1.
  destruct (after_jsteps cfg marshal start guest_shutdown Hq h1 h' Hok1 Ha) as [Hj' _].
  apply (jsteps_fenced cfg _ _ h1 h' Hdir); [by exists (F_fence (q_InstanceID q))|done].
Qed.
End claims.

(** ** Concrete runs *)

(** Two starts of one request: one launch. *)
Lemma launch_at_most_once_witness :
  launches (run start_call started_host).2 = [attempt0] ∧
  NoDup (filter managed (launches (run start_call started_host).2)).
Proof.
  split; [vm_compute; reflexivity|].
  apply (launch_at_most_once cfg0 marshal0 start0 guest0 host0); [apply start0_quiet|apply host0_ok|].
  eapply rtc_r; [apply (start_call_after [])|]. apply (step_call cfg0 marshal0 start0 guest0), ro_start.
Defined.

Lemma one_active_attempt_witness :
  active (at_path (receiptDir cfg0 "demo") (receipt_file "req-1") started_host) ∧
  ¬ active (at_path (receiptDir cfg0 "demo") (receipt_file "req-2") started_host).
Proof.
  assert (Hact : active (at_path (receiptDir cfg0 "demo") (receipt_file "req-1") started_host)).
  { exists (mkReceipt attempt0 (receiptKey (marshal0 request0)) "started" 100 7700
              (resumeConfig marshal0 request0) false).
    split; [vm_compute; reflexivity|done]. }
  split; [exact Hact|]. intros Hf.
  pose proof (one_active_attempt cfg0 marshal0 start0 guest0 host0 started_host _ _ _
                start0_quiet host0_ok (start_call_after [] host0) Hact Hf) as He.
  vm_compute in He. discriminate He.
Defined.

Lemma start_answers_truthfully_witness :
  ∃ r, file_of cfg0 attempt0 started_host = Some (F_receipt r) ∧ RState r = "started" ∧
    100 = PID r ∧ read_ticks (procs (machine started_host) !! PID r) = inl (Ticks r).
Proof.
  pose proof (start_answers_truthfully cfg0 marshal0 start0 request0 host0 start0_quiet host0_ok
                ltac:(discriminate) []) as H.
  assert (Ho : (receiptStart marshal0 start0 cfg0 request0 [] host0).1.1 =
               Ok (mkStartResponse "running" "" 100)) by (vm_compute; reflexivity).
  rewrite Ho in H. exact (proj1 H eq_refl).
Defined.

(** An attempt resolved before its start request arrives. *)
Lemma absent_is_final_witness :
  attempt0 ∉ launches (run start_call (resolveStart cfg0 attempt0 [] host0).1.2).2.
Proof.
  intros Hin.
  apply (absent_is_final cfg0 marshal0 start0 guest0 attempt0 [] host0 _
           (absent "attempt fenced") start0_quiet host0_ok) in Hin.
  - vm_compute in Hin. inversion Hin.
  - discriminate.
  - vm_compute. reflexivity.
  - reflexivity.
  - apply (start_call_after []).
Defined.

Lemma stop_closes_attempt_witness :
  closed_at cfg0 attempt0 (run stop_call started_host).2.
Proof.
  pose proof (stop_closes_attempt cfg0 guest0 stop0 started_host ltac:(discriminate) []) as H.
  assert (Ho : (receiptStop guest0 cfg0 stop0 [] started_host).1.1 = Ok tt)
    by (vm_compute; reflexivity).
  destruct (H Ho) as (h0 & r & _ & _ & Hc & _). exact Hc.
Defined.

Definition fence_call : M Host unit :=
  env (λ h, (inl tt, put_file cfg0 "demo" (fence_file "id-1") (F_fence "id-1") h)).
Definition fenced_host : Host := (fence_call [] (run stop_call started_host).2).1.2.

Lemma fenced_host_ok : journal_ok cfg0 fenced_host.
Proof.
  apply (after_jsteps cfg0 marshal0 start0 guest0 start0_quiet host0 fenced_host host0_ok).
  eapply rtc_r; [eapply rtc_r; [apply (start_call_after [])|]|].
  - apply (step_call cfg0 marshal0 start0 guest0 _ stop_call [] started_host), ro_stop.
  - apply (step_call cfg0 marshal0 start0 guest0 _ fence_call []), ro_fence.
Qed.

(** A later attempt of the fenced incarnation. *)
Definition late_request : StartRequest :=
  mkStartRequest false "vm" "" "" "id-1" "req-2" "boot-7" "demo" "tap0" "02:00" "10.0.0.2"
    "10.0.0.1" [] 2 1024 "" "" 0 "" no_bootstrap.
Definition late_call : M Host StartResponse := receiptStart marshal0 start0 cfg0 late_request.

Lemma deletion_proof_final_witness :
  proved_absent cfg0 attempt0 (verifyDeletion cfg0 attempt0 [] fenced_host).1.2 ∧
  attempt late_request ∉
    launches (run late_call (verifyDeletion cfg0 attempt0 [] fenced_host).1.2).2.
Proof.
  edestruct (deletion_proof_final cfg0 marshal0 start0 guest0 attempt0 [] fenced_host
              (run late_call (verifyDeletion cfg0 attempt0 [] fenced_host).1.2).2
              start0_quiet fenced_host_ok) as [Hc Hl].
  - discriminate.
  - vm_compute. reflexivity.
  - apply rtc_once. apply step_call, ro_start.
  - split; [exact Hc|]. intros Hin.
    apply (Hl (attempt late_request)) in Hin; [|reflexivity..].
    vm_compute in Hin. inversion Hin as [|? ? ? Hin']; subst. inversion Hin'.
Defined.
