(* ===== verification/ColdProtocol.v ===== *)
(** * The cold store's requests

    Models src/internal/coldstore/protocol.go: the objects of the store, the
    requests the runner sends it over SSH, their validation and their encoding as
    one forced command.  [uuid_Parse] is github.com/google/uuid's parser, giving
    the canonical text of the UUID it read; JSON is the pair
    [marshal]/[unmarshal]. *)
From S2P Require Import Prelude GoStrings Encodings RunnerState.

#[local] Open Scope Z_scope.

#[export] Instance Object_eq_dec : EqDecision Object.
Proof. solve_decision. Defined.

Definition protocol : string := "srv-cold-store-v1".
Definition maxMetadata : nat := 4096.

Record request := mkRequest {
  rq_Operation : string;
  rq_Object : Object;
  rq_Parent : string;
  rq_Compression : string;
}.

Definition id_only (id : string) : Object := mkObject id "" "" 0 "".

(** [hex.DecodeString] of 32 bytes, in lower case. *)
Definition is_hex (c : ascii) : bool :=
  let n := byte_value c in
  ((48 <=? n) && (n <=? 57)) || ((65 <=? n) && (n <=? 70)) || ((97 <=? n) && (n <=? 102)).
Definition valid_SHA256 (s : string) : bool :=
  (String.length s =? 64)%nat && all_chars is_hex s && String.eqb (map_string lower s) s.

Definition space : ascii := byte 32.

Section protocol.
Context (uuid_Parse : string → option string).
Context (marshal : request → string) (unmarshal : string → result request).

(** ** Validation *)

Definition validID (s : string) : bool :=
  match uuid_Parse s with
  | Some u => negb (String.eqb u "00000000-0000-0000-0000-000000000000") && String.eqb u s
  | None => false
  end.

(** [Object.validate]. *)
Definition validate_object (o : Object) : result unit :=
  if negb (validID (ob_ID o)) || negb (validID (ob_UUID o)) || (ob_Size o <=? 0) ||
     (nonempty (ob_Parent o) &&
        (negb (validID (ob_Parent o)) || String.eqb (ob_Parent o) (ob_ID o)))
  then inr (Errorf "invalid cold object identity, parent, or size")
  else if negb (valid_SHA256 (ob_SHA256 o)) then inr (Errorf "invalid SHA256") else mret tt.

(** [request.validate]. *)
Definition validate_request (r : request) : result unit :=
  let op := rq_Operation r in
  let only_id :=
    if bool_decide (rq_Object r = id_only (ob_ID (rq_Object r))) then mret tt
    else inr (Errorf "unexpected object metadata") in
  if nonempty (rq_Compression r) &&
     (negb (String.eqb (rq_Compression r) "zstd") ||
      (negb (String.eqb op "put") && negb (String.eqb op "get")))
  then inr (Errorf "unsupported transfer compression")
  else if negb (validID (ob_ID (rq_Object r))) then inr (Errorf "invalid object ID")
  else if String.eqb op "put" then
    if nonempty (rq_Parent r) then inr (Errorf "unexpected parent")
    else validate_object (rq_Object r)
  else if String.eqb op "get" then
    if nonempty (rq_Parent r) &&
       (negb (validID (rq_Parent r)) || String.eqb (rq_Parent r) (ob_ID (rq_Object r)))
    then inr (Errorf "invalid get parent") else only_id
  else if String.eqb op "stat" || String.eqb op "delete" then
    if nonempty (rq_Parent r) then inr (Errorf "unexpected parent") else only_id
  else inr (Errorf "unknown operation").

(** ** The wire *)

Definition encodeRequest (r : request) : result string :=
  _ ← validate_request r;
  mret (protocol +:+ String space (EncodeToString (marshal r)))%stdpp.

(** [decode]: a bounded number of bytes, one JSON value and nothing after it. *)
Definition decode_metadata (b : string) : result request :=
  if (maxMetadata <? String.length b)%nat then inr (Errorf "metadata too large")
  else unmarshal b.

Definition parseRequest (command : string) : result request :=
  match Split command space with
  | [p; e] =>
      if (2 * maxMetadata <? String.length command)%nat || negb (String.eqb p protocol)
      then inr (Errorf "invalid forced-command protocol")
      else
        b ← DecodeString e;
        if negb (String.eqb (EncodeToString b) e)
        then inr (Errorf "noncanonical request encoding")
        else r ← decode_metadata b; _ ← validate_request r; mret r
  | _ => inr (Errorf "invalid forced-command protocol")
  end.
End protocol.
