(* ===== verification/ColdServer.v ===== *)
(** * The cold store

    Models src/internal/coldstore/server.go, with discard.go, local.go and the disk
    checks of disk.go: immutable objects (a manifest and a read-only disk) that are
    received into private stages, published by a rename, and deleted behind
    permanent fences.  Every operation holds the store's lock: the model runs them
    one at a time.  Ownership and permission checks of the root-owned directories
    are [check]s that can fail.  [btrfs send] and [btrfs receive] are parameters,
    from and to streams. *)
From S2P Require Import Prelude GoStrings RunnerState Receipts ColdProtocol Encodings.

#[local] Open Scope Z_scope.

(** ** State *)

(** objects/<id>: manifest.json and disk. *)
Record container := mkContainer { ct_manifest : json Object; ct_disk : disk }.

(** .stage-put-<uuid>: what was received so far. *)
Record put_stage := mkPutStage { ps_disks : list disk; ps_manifest : option Object }.

Record Store := mkStore {
  objects : gmap string container;
  deleted : gset string;                      (* deleted/<id> *)
  put_stages : gmap string put_stage;         (* .stage-put-<uuid> *)
  delete_stages : gmap string container;      (* .stage-delete-<id> *)
}.
Definition empty_Store : Store := mkStore ∅ ∅ ∅ ∅.

Definition set_objects v s := mkStore v (deleted s) (put_stages s) (delete_stages s).
Definition set_deleted v s := mkStore (objects s) v (put_stages s) (delete_stages s).
Definition set_put_stages v s := mkStore (objects s) (deleted s) v (delete_stages s).
Definition set_delete_stages v s := mkStore (objects s) (deleted s) (put_stages s) v.

(** A call with no effect the model tracks, which can fail: a sync, a check. *)
Definition check {S} : M S unit := query (λ _, inl tt).

Definition errObjectDeleted : error := Errorf "object ID is permanently deleted".

(** ** Disk checks (disk.go) *)

Definition verifyDiskIdentity (d : disk) (o : Object) (received : bool) : result unit :=
  if negb (dk_readonly d) then inr (Errorf "disk subvolume is not read-only") else
  let want := if received then sv_ReceivedUUID (dk_id d) else sv_UUID (dk_id d) in
  if negb (String.eqb want (ob_UUID o)) then inr (Errorf "disk subvolume UUID mismatch")
  else mret tt.

Definition disk_size (d : disk) : Z := Z.of_nat (String.length (dk_content d)).

Definition verifyDisk (d : disk) (o : Object) (received : bool) : result unit :=
  _ ← verifyDiskIdentity d o received;
  if negb (disk_size d =? ob_Size o) then inr (Errorf "rootfs size mismatch") else
  if negb (String.eqb (sha256_hex (dk_content d)) (ob_SHA256 o))
  then inr (Errorf "rootfs checksum mismatch") else mret tt.

(** Exactly one disk in the stage. *)
Definition receivedDisk (ds : list disk) (o : Object) : result disk :=
  match ds with
  | [d] => _ ← verifyDisk d o true; mret d
  | _ => inr (Errorf "receive must contain exactly one disk subvolume")
  end.

Section server.
Context (uuid_Parse : string → option string) {stream : Type}.
(** [btrfs send] of a disk, with a parent, and [btrfs receive] beside the disks the
    store already has; with or without zstd. *)
Context (send : disk → option disk → string → stream)
  (receive : stream → string → list disk → result (list disk)).

(** ** Deletion records and stages *)

Definition deletionRecord (id : string) (create : bool) : M Store bool :=
  if create then
    check;; (* mkdir deleted *)
    check;; (* ordinaryDir *)
    env (λ s, (inl tt, set_deleted ({[id]} ∪ deleted s) s));;
    check;; check;; (* close, lstat *)
    check;; check;; check;; (* sync *)
    mret true
  else
    check;;
    query (λ s, inl (bool_decide (id ∈ deleted s))).

Definition sorted_keys {A} (m : gmap string A) : list string :=
  merge_sort name_le (map fst (map_to_list m)).

Definition remove_delete_stage (id : string) : M Store unit :=
  deletionRecord id true;;
  env (λ s, (inl tt, set_delete_stages (delete id (delete_stages s)) s)).
Definition remove_put_stage (u : string) : M Store unit :=
  env (λ s, (inl tt, set_put_stages (delete u (put_stages s)) s)).

(** The directory lists the delete stages before the put stages. *)
Definition recoverStages : M Store unit :=
  '(deletes, puts) ← query (λ s, inl (sorted_keys (delete_stages s), sorted_keys (put_stages s)));
  require (forallb (validID uuid_Parse) (deletes ++ puts))
    (Errorf "foreign staging namespace entry");;
  check;; (* modes *)
  check;; check;; (* sync objects and root before anything is removed *)
  for_each remove_delete_stage deletes;;
  for_each remove_put_stage puts;;
  check.

Definition withServer {A} (fn : M Store A) : M Store A :=
  check;; check;; (* ValidateRoot, the lock *)
  check;; check;; (* the objects directory *)
  recoverStages;;
  fn.

(** ** Operations *)

Definition manifest (id : string) : M Store Object :=
  c ← query (λ s, match objects s !! id with Some c => inl c | None => inr ErrNotExist end);
  check;;
  o ← lift (unmarshal (ct_manifest c));
  lift (validate_object uuid_Parse o);;
  require (String.eqb (ob_ID o) id) (Errorf "manifest ID mismatch");;
  mret o.

(** The disk of an object directory. *)
Definition object_disk (id : string) : M Store disk :=
  query (λ s, match objects s !! id with
              | Some c => inl (ct_disk c)
              | None => inr ErrNotExist
              end).

Definition stat (id : string) : M Store Object :=
  gone ← deletionRecord id false;
  if (gone : bool) then throw errObjectDeleted else
  o ← manifest id;
  d ← object_disk id;
  lift (verifyDiskIdentity d o true);;
  mret o.

Definition put_disks (u : string) (ds : list disk) (s : Store) : Store :=
  set_put_stages (<[u := mkPutStage ds None]> (put_stages s)) s.

(** The rename that publishes a complete stage. *)
Definition publish (u id : string) : M Store unit :=
  env (λ s, match put_stages s !! u, objects s !! id with
            | Some (mkPutStage [d] (Some o)), None =>
                (inl tt, set_objects (<[id := mkContainer (Some o) d]> (objects s))
                           (set_put_stages (delete u (put_stages s)) s))
            | _, Some _ => (inr ErrExist, s)
            | _, _ => (inr ErrNotExist, s)
            end).

(** The body of [put] below the stage directory, [u] being its UUID. *)
Definition receive_object (u : string) (o : Object) (input : stream) (compression : string)
  : M Store unit :=
  ds ← query (λ s, receive input compression (ct_disk <$> (map_to_list (objects s)).*2));
  env (λ s, (inl tt, put_disks u ds s));;
  d ← lift (receivedDisk ds o);
  check;; check;; check;; (* rename to disk, sync rootfs.img, sync disk *)
  env (λ s, (inl tt, set_put_stages (<[u := mkPutStage [d] (Some o)]> (put_stages s)) s));;
  check;; check;; (* sync manifest.json, sync the stage *)
  publish u (ob_ID o);;
  check;; check.

Definition put (u : string) (o : Object) (input : stream) (compression : string) : M Store unit :=
  gone ← deletionRecord (ob_ID o) false;
  if (gone : bool) then throw errObjectDeleted else
  query (λ s, match objects s !! ob_ID o with
              | None => inl tt
              | Some _ => inr (Errorf "object exists or cannot be inspected; refusing overwrite")
              end);;
  (if nonempty (ob_Parent o) then stat (ob_Parent o);; mret tt else mret tt);;
  env (λ s, match put_stages s !! u with
            | None => (inl tt, put_disks u [] s)
            | Some _ => (inr ErrExist, s)
            end);;
  finally (receive_object u o input compression) (remove_put_stage u).

Definition get (id parent compression : string) : M Store stream :=
  stat id;;
  p ← (if nonempty parent then
         o ← try (stat parent);
         match o with
         | inl _ => d ← object_disk parent; mret (Some d)
         | inr ErrNotExist => mret None
         | inr e => throw e
         end
       else mret None);
  d ← object_disk id;
  check;; (* the pipeline *)
  mret (send d p compression).

(** No object names [id] as its parent. *)
Definition no_child (id e : string) : M Store unit :=
  require (validID uuid_Parse e) (Errorf "unexpected object namespace entry");;
  o ← manifest e;
  require (negb (String.eqb (ob_Parent o) id)) (Errorf "object is referenced by a child").

(** The rename that withdraws an object. *)
Definition withdraw (id : string) : M Store unit :=
  env (λ s, match objects s !! id, delete_stages s !! id with
            | Some c, None =>
                (inl tt, set_objects (delete id (objects s))
                           (set_delete_stages (<[id := c]> (delete_stages s)) s))
            | _, Some _ => (inr ErrExist, s)
            | None, _ => (inr ErrNotExist, s)
            end).

Definition s_delete (id : string) : M Store unit :=
  recoverStages;;
  present ← query (λ s, inl (bool_decide (is_Some (objects s !! id))));
  if negb (present : bool) then deletionRecord id true;; mret tt else
  o ← manifest id;
  d ← object_disk id;
  lift (verifyDiskIdentity d o true);;
  es ← query (λ s, inl (sorted_keys (objects s)));
  for_each (no_child id) es;;
  check;; (* mode of the container *)
  deletionRecord id true;;
  withdraw id;;
  recoverStages.

(** ** Entry points *)

(** What a request is answered with. *)
Inductive reply := R_object (o : Object) | R_done | R_stream (s : stream).

(** [Serve] of a parsed command; [u] names the stage of a put. *)
Definition Serve (unmarshal_request : string → result request) (u command : string)
    (input : stream) : M Store reply :=
  r ← lift (parseRequest uuid_Parse unmarshal_request command);
  withServer
    (if String.eqb (rq_Operation r) "stat" then
       o ← stat (ob_ID (rq_Object r)); mret (R_object o)
     else if String.eqb (rq_Operation r) "put" then
       put u (rq_Object r) input (rq_Compression r);; mret R_done
     else if String.eqb (rq_Operation r) "get" then
       out ← get (ob_ID (rq_Object r)) (rq_Parent r) (rq_Compression r); mret (R_stream out)
     else if String.eqb (rq_Operation r) "delete" then
       s_delete (ob_ID (rq_Object r));; mret R_done
     else throw (Errorf "invalid operation")).

(** [Receive] of local.go: an exact existing object is kept. *)
Definition Receive (u : string) (o : Object) (input : stream) : M Store unit :=
  lift (validate_object uuid_Parse o);;
  withServer
    (actual ← try (stat (ob_ID o));
     match actual with
     | inl actual =>
         require (bool_decide (actual = o))
           (Errorf "immutable object already exists with different metadata");;
         check
     | inr ErrNotExist => put u o input ""
     | inr e => throw e
     end).

Definition LocalStat (id : string) : M Store Object :=
  require (validID uuid_Parse id) (Errorf "invalid object ID");;
  withServer (stat id).

(** [Clone]: the caller snapshots the verified disk to its destination. *)
Definition Clone (o : Object) (snapshot : disk → M Store unit) : M Store unit :=
  lift (validate_object uuid_Parse o);;
  withServer
    (actual ← stat (ob_ID o);
     require (bool_decide (actual = o)) (Errorf "stored object metadata mismatch");;
     d ← object_disk (ob_ID o);
     lift (verifyDisk d o true);;
     snapshot d).

Definition Remove (id : string) : M Store unit :=
  require (validID uuid_Parse id) (Errorf "invalid object ID");;
  withServer (s_delete id).

(** ** Discarding damaged objects *)

(** One entry of the object directory: kept objects do not depend on the set, and
    those of the set are containers with a read-only disk. *)
Definition disposition (ids : list string) (id : string) : M Store (option string) :=
  require (validID uuid_Parse id) (Errorf "unexpected object namespace entry");;
  if bool_decide (id ∈ ids) then
    check;; check;; (* the container and its manifest are private regular files *)
    d ← object_disk id;
    require (dk_readonly d) (Errorf "disk subvolume is not read-only");;
    mret (Some id)
  else
    o ← manifest id;
    require (negb (bool_decide (ob_Parent o ∈ ids)))
      (Errorf "retained object depends on discard set");;
    mret None.

Fixpoint dispositions (ids es : list string) : M Store (list string) :=
  match es with
  | [] => mret []
  | e :: es' =>
      p ← disposition ids e;
      ps ← dispositions ids es';
      mret (match p with Some p => p :: ps | None => ps end)
  end.

Definition DiscardObjects (ids : list string) : M Store unit :=
  require (negb (bool_decide (ids = []))) (Errorf "explicit nonempty discard set required");;
  require (forallb (validID uuid_Parse) ids && bool_decide (NoDup ids))
    (Errorf "discard IDs must be unique canonical UUIDs");;
  withServer
    (es ← query (λ s, inl (sorted_keys (objects s)));
     present ← dispositions ids es;
     for_each (λ id, deletionRecord id true;; mret tt) ids;;
     for_each withdraw present;;
     recoverStages).
End server.
