(* ===== verification/ColdTrace.v ===== *)
(** * What every operation of the cold store keeps

    Published objects are intact and never change; fences are permanent; a fenced
    ID is never published again; the parents of the objects in use are present. *)
From S2P Require Import Prelude GoStrings RunnerState Receipts ColdProtocol ColdServer Encodings.
From stdpp Require Import relations.

#[local] Open Scope Z_scope.

(** ** Histories of the store *)

(** Objects only appear under unfenced IDs, and disappear behind fences. *)
Record store_le (s s' : Store) : Prop := {
  le_fences : deleted s ⊆ deleted s';
  le_new : ∀ id c, objects s' !! id = Some c →
    objects s !! id = Some c ∨ (objects s !! id = None ∧ id ∉ deleted s);
  le_old : ∀ id, is_Some (objects s !! id) → is_Some (objects s' !! id) ∨ id ∈ deleted s';
}.

#[export] Instance store_le_preorder : PreOrder store_le.
Proof.
  split.
  - intros s. split; [done|by left|by left].
  - intros s1 s2 s3 [H1 H2 H3] [G1 G2 G3]. split.
    + set_solver.
    + intros id c Hc. destruct (G2 id c Hc) as [H|[Hn Hd]]; [by apply H2|]. right.
      split; [|set_solver]. destruct (objects s1 !! id) eqn:E; [|done].
      destruct (H3 id) as [Hs|Hs]; [by rewrite E|..]; [|done]. by destruct Hs; simplify_eq.
    + intros id Hid. destruct (H3 id Hid) as [Hs|Hs]; [by apply G3|right; set_solver].
Qed.

(** Only fences were added: stages and reads do not count. *)
Definition fences_le : relation Store := λ s s', objects s' = objects s ∧ deleted s ⊆ deleted s'.
#[export] Instance fences_le_preorder : PreOrder fences_le.
Proof. split; [by intros s|]. intros s1 s2 s3 [H1 H2] [G1 G2]. split; [congruence|set_solver]. Qed.

(** Nothing that counts changed. *)
Definition same_store : relation Store := λ s s', objects s' = objects s ∧ deleted s' = deleted s.
#[export] Instance same_store_preorder : PreOrder same_store.
Proof. split; [by intros s|]. intros s1 s2 s3 [H1 H2] [G1 G2]. split; congruence. Qed.

Lemma same_fences s s' : same_store s s' → fences_le s s'.
Proof. intros [H1 H2]. split; [done|]. by rewrite H2. Qed.

Lemma fences_store_le s s' : fences_le s s' → store_le s s'.
Proof. intros [H1 H2]. split; [done|rewrite H1; by left|rewrite H1; by left]. Qed.

Section trace.
Context (uuid_Parse : string → option string) {stream : Type}.
Context (send : disk → option disk → string → stream)
  (receive : stream → string → list disk → result (list disk)).

(** ** The invariant *)

Record store_ok (s : Store) : Prop := {
  ok_manifest : ∀ id c, objects s !! id = Some c →
    ∃ o, ct_manifest c = Some o ∧ ob_ID o = id ∧ validate_object uuid_Parse o = inl tt ∧
         verifyDisk (ct_disk c) o true = inl tt;
  ok_parents : ∀ id c o, objects s !! id = Some c → id ∉ deleted s →
    ct_manifest c = Some o → ob_Parent o ≠ "" → is_Some (objects s !! ob_Parent o);
}.

Lemma store_ok_empty : store_ok empty_Store.
Proof. split; simpl; intros id c *; by rewrite lookup_empty. Qed.

Lemma store_ok_fences s s' : fences_le s s' → store_ok s → store_ok s'.
Proof.
  intros [Ho Hd] [Hm Hp]. split; rewrite Ho; [done|]. intros id c o Hc Hn. apply (Hp id c o Hc). set_solver.
Qed.

(** ** Calls that add fences at most *)

Lemma same_check {A} (f : Store → result A) : within same_store (query f).
Proof. apply within_query, _. Qed.

Ltac same_call :=
  repeat first
    [ within_step
    | lazymatch goal with
      | |- within _ (env _) => apply within_env; [apply _|intros ?; repeat case_match; done]
      | |- within _ check => apply within_query, _
      end ].

Lemma same_read_fence id : within same_store (deletionRecord id false).
Proof. unfold deletionRecord. same_call. Qed.
Lemma same_manifest id : within same_store (manifest uuid_Parse id).
Proof. unfold manifest. same_call. Qed.
Lemma same_object_disk id : within same_store (object_disk id).
Proof. apply same_check. Qed.
Lemma same_stat id : within same_store (stat uuid_Parse id).
Proof. unfold stat. same_call; auto using same_read_fence, same_manifest, same_object_disk. Qed.
Lemma same_remove_put_stage u : within same_store (remove_put_stage u).
Proof. unfold remove_put_stage. same_call. Qed.
Lemma same_no_child id e : within same_store (no_child uuid_Parse id e).
Proof. unfold no_child. same_call. apply same_manifest. Qed.
Lemma same_get id parent c : within same_store (get uuid_Parse send id parent c).
Proof. unfold get. same_call; auto using same_stat, same_object_disk. Qed.
Lemma same_disposition ids id : within same_store (disposition uuid_Parse ids id).
Proof. unfold disposition. same_call; auto using same_object_disk, same_manifest. Qed.

Lemma fence_record id create : within fences_le (deletionRecord id create).
Proof.
  destruct create; [|eapply within_mono; [apply same_fences|apply same_read_fence]].
  unfold deletionRecord.
  repeat first [within_step | apply within_query; apply _].
  apply within_env; [apply _|]. intros s. split; [done|]. simpl. set_solver.
Qed.

Lemma fence_recoverStages : within fences_le (recoverStages uuid_Parse).
Proof using uuid_Parse.
  unfold recoverStages, remove_delete_stage, remove_put_stage.
  repeat first [within_step | apply fence_record | apply within_query; apply _
               | apply within_env; [apply _|intros ?; by split] ].
Qed.

(** A record that was created is there. *)
Lemma record_created id s :
  wp (deletionRecord id true) (λ o s', fences_le s s' ∧ (∀ b, o = Ok b → id ∈ deleted s')) s.
Proof using Type.
  clear uuid_Parse stream send receive.
  assert (Hf : fences_le s (set_deleted ({[id]} ∪ deleted s) s))
    by (split; [done|simpl; set_solver]).
  unfold deletionRecord. do 2 (apply wp_bind, wp_query; cbn; [done..|]).
  apply wp_bind, wp_env; cbn; [done..| |done].
  do 5 (apply wp_bind, wp_query; cbn; [done..|]).
  apply wp_ret. split; [done|]. intros _ _. simpl. set_solver.
Qed.

Lemma not_fenced id s :
  wp (deletionRecord id false) (λ o s', same_store s s' ∧ (o = Ok false → id ∉ deleted s)) s.
Proof.
  unfold deletionRecord. apply wp_bind, wp_query; cbn; [done..|].
  apply wp_query; cbn; [done..|]. split; [done|]. intros [= H]. by apply bool_decide_eq_false in H.
Qed.

(** An object that [stat] reports is there. *)
Lemma stat_present id s :
  wp (stat uuid_Parse id) (λ r _, ∀ o, r = Ok o → is_Some (objects s !! id)) s.
Proof.
  destruct (objects s !! id) eqn:Hc; [by intros fs o _; eexists|].
  unfold stat. apply wp_bind. eapply wp_mono; [apply same_read_fence|].
  intros [[]|e|] s1 [Ho _]; [by apply wp_throw| |done..].
  unfold manifest. do 2 apply wp_bind. apply wp_query; [done..|]. by rewrite Ho, Hc.
Qed.

(** ** Sound operations *)

Definition sound {A} (m : M Store A) : Prop :=
  ∀ s, store_ok s → wp m (λ _ s', store_le s s' ∧ store_ok s') s.

Lemma sound_fences {A} (m : M Store A) : within fences_le m → sound m.
Proof.
  intros Hm s Hok. eapply wp_mono; [apply Hm|]. intros o s' Hs.
  split; [by apply fences_store_le|by apply (store_ok_fences s)].
Qed.

Lemma sound_same {A} (m : M Store A) : within same_store m → sound m.
Proof. intros Hm. apply sound_fences. eapply within_mono; [apply same_fences|done]. Qed.

Lemma sound_bind {A B} (m : M Store A) (k : A → M Store B) :
  sound m → (∀ a, sound (k a)) → sound (m ≫= k).
Proof.
  intros Hm Hk s Hok. apply wp_bind. eapply wp_mono; [by apply Hm|].
  intros [a|e|] s1 [Hle1 Hok1]; [|done|done].
  eapply wp_mono; [by apply Hk|]. intros o s2 [Hle2 Hok2]. split; [by etransitivity|done].
Qed.

(** *** Publishing *)

(** What [put] has established when it starts to receive. *)
Definition may_publish (o : Object) (s : Store) : Prop :=
  objects s !! ob_ID o = None ∧ ob_ID o ∉ deleted s ∧
  (ob_Parent o ≠ "" → is_Some (objects s !! ob_Parent o)).

Lemma may_publish_same o s s' : same_store s s' → may_publish o s → may_publish o s'.
Proof. intros [Ho Hd]. unfold may_publish. by rewrite Ho, Hd. Qed.

Lemma published_ok o d s :
  store_ok s → validate_object uuid_Parse o = inl tt → may_publish o s →
  verifyDisk d o true = inl tt →
  (λ s', store_le s s' ∧ store_ok s')
    (set_objects (<[ob_ID o := mkContainer (Some o) d]> (objects s)) s).
Proof.
  intros [Hm Hp] Hv (Hnew & Hnd & Hpar) Hd. split; split; simpl.
  - done.
  - intros id c [[<- <-]|[Hne Hc]]%lookup_insert_Some; [by right|by left].
  - intros id Hid. left. destruct (decide (ob_ID o = id)) as [<-|Hne].
    + by rewrite lookup_insert_eq.
    + by rewrite lookup_insert_ne.
  - intros id c [[<- <-]|[Hne Hc]]%lookup_insert_Some; [by exists o|by apply Hm].
  - intros id c o' Hc Hid Ho' Hne. apply lookup_insert_is_Some'.
    apply lookup_insert_Some in Hc as [[<- <-]|[_ Hc]].
    + right. injection Ho' as <-. by apply Hpar.
    + right. by eapply Hp.
Qed.

(** The object is published with this manifest. *)
Definition holds (o : Object) (s : Store) : Prop :=
  ∃ d, objects s !! ob_ID o = Some (mkContainer (Some o) d).

(** What holds before and after the publication in [receive_object]. *)
Lemma receive_object_sound u o input compression s :
  store_ok s → validate_object uuid_Parse o = inl tt → may_publish o s →
  wp (receive_object receive u o input compression) (λ r s', store_le s s' ∧ store_ok s' ∧
     (r = Ok tt → holds o s')) s.
Proof using uuid_Parse receive.
  intros Hok Hv Hmay.
  assert (Hsame : ∀ s', same_store s s' → store_le s s' ∧ store_ok s').
  { intros s' Hs. split; [by apply fences_store_le, same_fences|].
    apply (store_ok_fences s); [by apply same_fences|done]. }
  assert (Hq : ∀ (r : outcome unit) s', same_store s s' → r ≠ Ok tt →
    store_le s s' ∧ store_ok s' ∧ (r = Ok tt → holds o s')).
  { intros r s' Hs Hr. destruct (Hsame s' Hs) as [??]. by split; [|split; [|intros ->]]. }
  unfold receive_object. apply wp_bind, wp_query; [apply Hq; [by split|done]..|].
  destruct (receive _ _ _) as [ds|e]; cbn [fst snd of_result]; [|apply Hq; [by split|done]].
  apply wp_bind, wp_env; cbn [fst snd of_result]; [apply Hq; [by split|done]..| |apply Hq; [by split|done]].
  apply wp_bind, wp_lift. destruct (receivedDisk ds o) as [d|e] eqn:Hd; cbn [fst snd of_result]; [|apply Hq; [by split|done]].
  assert (Hver : verifyDisk d o true = inl tt).
  { destruct ds as [|d0 [|]]; try done. simpl in Hd. unfold mbind, result_bind in Hd.
    destruct (verifyDisk d0 o true) as [[]|] eqn:E; [|done]. by injection Hd as <-. }
  do 3 (apply wp_bind, wp_query; cbn [fst snd of_result]; [apply Hq; [by split|done]..|]).
  apply wp_bind, wp_env; cbn [fst snd of_result]; [apply Hq; [by split|done]..| |apply Hq; [by split|done]].
  do 2 (apply wp_bind, wp_query; cbn [fst snd of_result]; [apply Hq; [by split|done]..|]).
  set (s1 := set_put_stages _ _).
  assert (Hs1 : same_store s s1) by done.
  set (s2 := set_put_stages (delete u (put_stages s1)) s1).
  assert (Hs2 : same_store s s2) by done.
  destruct (published_ok o d s2) as [Hle Hok2]; [by apply Hsame|done| |done|].
  { by eapply may_publish_same. }
  assert (Hle' : store_le s (set_objects (<[ob_ID o := mkContainer (Some o) d]> (objects s2)) s2)).
  { etransitivity; [|exact Hle]. by apply Hsame. }
  apply wp_bind. unfold publish. destruct Hmay as (Hnew & _).
  apply wp_env; cbn [fst snd of_result]; [apply Hq; [by split|done]..| |];
    replace (objects s1 !! ob_ID o) with (@None container) by done;
    replace (put_stages s1 !! u) with (Some (mkPutStage [d] (Some o)))
      by (symmetry; apply lookup_insert_eq); cbn [fst snd of_result].
  - apply wp_bind, wp_query; [| |apply wp_query]; cbn [fst snd of_result].
    all: split; [exact Hle'|split; [exact Hok2|]]; try done.
    intros _. exists d. simpl. by rewrite lookup_insert_eq.
  - split; [exact Hle'|split; [exact Hok2|done]].
Qed.

Lemma sound_put u o input compression :
  validate_object uuid_Parse o = inl tt →
  ∀ s, store_ok s → wp (put uuid_Parse receive u o input compression)
    (λ r s', store_le s s' ∧ store_ok s' ∧ (r = Ok tt → holds o s')) s.
Proof using uuid_Parse receive.
  intros Hv s Hok.
  set (Q := λ (r : outcome unit) s',
    store_le s s' ∧ store_ok s' ∧ (r = Ok tt → holds o s')).
  assert (Hq : ∀ r s', same_store s s' → r ≠ Ok tt → Q r s').
  { intros r s' Hs Hr. pose proof (same_fences _ _ Hs) as Hf.
    split; [by apply fences_store_le|]. split; [by apply (store_ok_fences s)|by intros ->]. }
  unfold put. apply wp_bind. eapply wp_mono; [apply not_fenced|].
  intros [[]|e|] s1 [Hs1 Hnd]; [apply wp_throw; by apply Hq| |by apply Hq..].
  specialize (Hnd eq_refl).
  apply wp_bind, wp_query; [by apply Hq..|].
  destruct (objects s1 !! ob_ID o) eqn:Hnew; cbn [of_result]; [by apply Hq|].
  apply wp_bind.
  assert (Hparent : wp (if nonempty (ob_Parent o) then stat uuid_Parse (ob_Parent o);; mret tt
                        else mret tt)
    (λ r s2, same_store s1 s2 ∧
       (r = Ok tt → ob_Parent o ≠ "" → is_Some (objects s1 !! ob_Parent o))) s1).
  { destruct (nonempty (ob_Parent o)) eqn:Hne.
    - apply wp_bind. eapply wp_mono; [apply wp_and; [apply same_stat|apply stat_present]|].
      intros [o'|e|] s2 [Hs2 Hp]; [apply wp_ret|..]; (split; [done|]); [|done..].
      intros _ _. by apply (Hp o').
    - apply wp_ret. split; [done|]. intros _ Hc. by apply nonempty_spec in Hc; rewrite Hc in Hne. }
  eapply wp_mono; [exact Hparent|]. clear Hparent.
  intros r s2 [Hs2 Hp]. assert (Hs02 : same_store s s2) by (by transitivity s1).
  destruct r as [[]|e|]; [|by apply Hq..].
  apply wp_bind, wp_env; [by apply Hq..| |].
  2: { apply Hq; [|done]. by destruct (put_stages s2 !! u). }
  destruct (put_stages s2 !! u); cbn [fst snd of_result]; [by apply Hq|].
  assert (Hs3 : same_store s (put_disks u [] s2)) by (transitivity s2; [done|by split]).
  apply wp_finally.
  eapply wp_mono; [apply (receive_object_sound u o input compression)|].
  - apply (store_ok_fences s); [by apply same_fences|done].
  - done.
  - apply (may_publish_same o s); [done|]. destruct Hs1 as [Ho Hd].
    rewrite Ho in *. by split_and!; [| |by apply Hp].
  - assert (Hend : ∀ (r : outcome unit) s3 s4, store_le (put_disks u [] s2) s3 ∧ store_ok s3 ∧
      (r = Ok tt → holds o s3) → same_store s3 s4 →
      store_le s s4 ∧ store_ok s4 ∧ (r = Ok tt → holds o s4)).
    { intros r s3 s4 (Hle & Hok3 & Hr) Hs4. pose proof (same_fences _ _ Hs4) as Hf.
      split; [|split; [by apply (store_ok_fences s3)|unfold holds; by rewrite (proj1 Hs4)]].
      etransitivity; [by apply fences_store_le, same_fences|].
      etransitivity; [exact Hle|by apply fences_store_le]. }
    intros r s3 H3. destruct r as [[]|e|]; [| |by apply (Hend _ s3)];
      (eapply wp_mono; [apply same_remove_put_stage|]; intros [[]|e'|] s4 Hs4;
       (eapply Hend; [|exact Hs4]; destruct H3 as (?&?&?); by split_and!)).
Qed.

(** *** Withdrawing *)

Lemma elem_of_sorted_keys {A} (m : gmap string A) k : k ∈ sorted_keys m ↔ is_Some (m !! k).
Proof.
  unfold sorted_keys. rewrite merge_sort_Permutation, list_elem_of_fmap. split.
  - intros ([k' a] & -> & Hk%elem_of_map_to_list). by exists a.
  - intros [a Ha]. exists (k, a). split; [done|]. by apply elem_of_map_to_list.
Qed.

(** Fenced, and no object in use has it as its parent. *)
Definition withdrawable (id : string) (s : Store) : Prop :=
  id ∈ deleted s ∧ ∀ id' c o, objects s !! id' = Some c → id' ∉ deleted s →
    ct_manifest c = Some o → ob_Parent o ≠ "" → ob_Parent o ≠ id.

Lemma withdraw_spec id s :
  store_ok s → withdrawable id s →
  wp (withdraw id) (λ r s', store_le s s' ∧ store_ok s' ∧ deleted s' = deleted s ∧
     (objects s' = objects s ∨ objects s' = delete id (objects s)) ∧
     (r = Ok tt → objects s' !! id = None)) s.
Proof.
  intros Hok [Hf Hch].
  set (Q := λ (r : outcome unit) s', store_le s s' ∧ store_ok s' ∧ deleted s' = deleted s ∧
     (objects s' = objects s ∨ objects s' = delete id (objects s)) ∧
     (r = Ok tt → objects s' !! id = None)).
  assert (Hq : ∀ r, r ≠ Ok tt → Q r s).
  { intros r Hr. split; [done|]. split; [done|]. split; [done|]. split; [by left|by intros ->]. }
  assert (HQ : ∀ r c, Q r (set_objects (delete id (objects s))
                 (set_delete_stages (<[id := c]> (delete_stages s)) s))).
  { intros r c. split; [|split; [|split; [done|split; [by right|]]]].
    - split; simpl; [done| |].
      + intros id' c' [_ Hc]%lookup_delete_Some. by left.
      + intros id' Hid. destruct (decide (id = id')) as [<-|Hne]; [by right|left].
        by rewrite lookup_delete_ne.
    - destruct Hok as [Hm Hp]. split; simpl.
      + intros id' c' [_ Hc]%lookup_delete_Some. by apply Hm.
      + intros id' c' o [_ Hc]%lookup_delete_Some Hid Ho Hne.
        rewrite lookup_delete_ne by (by apply not_eq_sym, (Hch id' c' o)). by eapply Hp.
    - intros _. simpl. apply lookup_delete_eq. }
  unfold withdraw. apply wp_env; [by apply Hq..| |];
    destruct (objects s !! id), (delete_stages s !! id); cbn [fst snd of_result];
    try apply HQ; by apply Hq.
Qed.

Lemma manifest_spec id s :
  wp (manifest uuid_Parse id) (λ r s', same_store s s' ∧ (∀ o, r = Ok o → ∃ c,
    objects s !! id = Some c ∧ ct_manifest c = Some o ∧ ob_ID o = id ∧
    validate_object uuid_Parse o = inl tt)) s.
Proof.
  apply wp_and; [apply same_manifest|]. unfold manifest.
  apply wp_bind, wp_query; [done..|]. destruct (objects s !! id) as [c|] eqn:Hc; [|done].
  cbn [of_result]. apply wp_bind, wp_query; [done..|]. cbn [of_result].
  apply wp_bind, wp_lift. destruct (ct_manifest c) as [o|] eqn:Ho; [|done]. cbn.
  apply wp_bind, wp_lift. destruct (validate_object _ _) as [[]|] eqn:Hv; [|done]. cbn.
  apply wp_bind, wp_require; [intros Hid%String.eqb_eq|done]. apply wp_ret.
  intros o' [= <-]. by exists c.
Qed.

Lemma no_child_spec id e s :
  wp (no_child uuid_Parse id e) (λ r s', same_store s s' ∧ (r = Ok tt → ∀ c o,
    objects s !! e = Some c → ct_manifest c = Some o → ob_Parent o ≠ id)) s.
Proof.
  apply wp_and; [apply same_no_child|].
  unfold no_child. apply wp_bind, wp_require; [intros _|done].
  apply wp_bind. eapply wp_mono; [apply manifest_spec|].
  intros [o|e'|] s1 [_ Hm]; [|done..]. destruct (Hm o eq_refl) as (c & Hc & Ho & _).
  apply wp_require; [|done]. intros Hne%negb_true_iff%String.eqb_neq _ c' o' Hc' Ho'. congruence.
Qed.

(** What deletion promises: everything the invariant says, and, on success, the
    object is gone behind its fence. *)
Lemma sound_delete id s :
  store_ok s → wp (s_delete uuid_Parse id) (λ r s', store_le s s' ∧ store_ok s' ∧
    (r = Ok tt → id ∈ deleted s' ∧ objects s' !! id = None)) s.
Proof using uuid_Parse.
  clear send receive stream.
  intros Hok.
  set (Q := λ (r : outcome unit) s', store_le s s' ∧ store_ok s' ∧
    (r = Ok tt → id ∈ deleted s' ∧ objects s' !! id = None)).
  assert (Hq : ∀ r s', fences_le s s' → r ≠ Ok tt → Q r s').
  { intros r s' Hs Hr. split; [by apply fences_store_le|].
    split; [by apply (store_ok_fences s)|by intros ->]. }
  unfold s_delete. apply wp_bind. eapply wp_mono; [apply fence_recoverStages|].
  intros [[]|e|] s1 Hs1; [|by apply Hq..].
  apply wp_bind, wp_query; [by apply Hq..|]. cbn [of_result].
  case_bool_decide as Hin; cbn [negb].
  - apply wp_bind. eapply wp_mono; [apply same_manifest|].
    intros [o|e|] s2 Hs2; [|apply Hq; [|done]; etransitivity; [done|by apply same_fences]..].
    apply wp_bind. eapply wp_mono; [apply same_object_disk|].
    intros [d|e|] s3 Hs3;
      (assert (Hs13 : same_store s1 s3) by (by transitivity s2));
      (assert (Hf3 : fences_le s s3) by (transitivity s1; [done|by apply same_fences]));
      [|by apply Hq..].
    apply wp_bind, wp_lift. destruct (verifyDiskIdentity d o true) as [[]|]; [|by apply Hq].
    cbn [of_result]. apply wp_bind, wp_query; [by apply Hq..|]. cbn [of_result].
    apply wp_bind. eapply wp_mono.
    { apply (wp_for_each_all _ same_store (λ e s', ∀ c o,
        objects s' !! e = Some c → ct_manifest c = Some o → ob_Parent o ≠ id)).
      { intros e s4 s5 [Ho _]. by rewrite Ho. }
      intros e s' _ Hs'. eapply wp_mono; [apply no_child_spec|].
      intros r s'' [Hs'' Hr]. split; [done|]. by rewrite (proj1 Hs''). }
    intros r s4 [Hs4 Hall].
    assert (Hf4 : fences_le s s4) by (transitivity s3; [done|by apply same_fences]).
    destruct r as [[]|e|]; [|by apply Hq..]. specialize (Hall eq_refl).
    apply wp_bind, wp_query; [by apply Hq..|]. cbn [of_result].
    apply wp_bind. eapply wp_mono; [apply record_created|].
    intros r s5 [Hs5 Hrec]. assert (Hf5 : fences_le s s5) by (by transitivity s4).
    destruct r as [b|e|]; [|by apply Hq..]. specialize (Hrec b eq_refl).
    apply wp_bind. eapply wp_mono.
    { apply withdraw_spec; [by apply (store_ok_fences s)|]. split; [done|].
      intros id' c o' Hc _ Ho' _. rewrite (proj1 Hs5) in Hc.
      assert (Hid' : is_Some (objects s1 !! id'))
        by (rewrite <- (proj1 Hs13), <- (proj1 Hs4); by eexists).
      apply (Hall id' ltac:(rewrite (proj1 Hs13); by apply elem_of_sorted_keys) c o' Hc Ho'). }
    intros r s6 (Hle & Hok6 & Hd & _ & Hgone).
    assert (Hle6 : store_le s s6) by (etransitivity; [by apply fences_store_le|done]).
    destruct r as [[]|e|]; [|by split_and!..].
    eapply wp_mono; [apply fence_recoverStages|]. intros r s7 Hs7.
    split; [etransitivity; [done|by apply fences_store_le]|].
    split; [by apply (store_ok_fences s6)|]. intros _.
    destruct Hs7 as [Ho7 Hd7]. rewrite Ho7, Hd in *. split; [set_solver|by apply Hgone].
  - apply wp_bind. eapply wp_mono; [apply record_created|]. intros r s2 [Hs2 Hrec].
    assert (Hf2 : fences_le s s2) by (by transitivity s1).
    destruct r as [b|e|]; [|by apply Hq..].
    apply wp_ret. split; [by apply fences_store_le|]. split; [by apply (store_ok_fences s)|].
    intros _. split; [by apply (Hrec b)|]. rewrite (proj1 Hs2). by apply eq_None_not_Some.
Qed.

(** *** Discarding *)

(** The objects outside the set do not depend on it. *)
Definition independent (ids : list string) (e : string) (s : Store) : Prop :=
  ∀ c o, objects s !! e = Some c → ct_manifest c = Some o → ob_Parent o ∉ ids.

Lemma disposition_spec ids e s :
  wp (disposition uuid_Parse ids e) (λ r s', same_store s s' ∧ (∀ p, r = Ok p →
    (∀ x, p = Some x → x ∈ ids) ∧ (e ∉ ids → independent ids e s))) s.
Proof.
  apply wp_and; [apply same_disposition|].
  unfold disposition. apply wp_bind, wp_require; [intros _|done]. case_bool_decide as Hin.
  - do 2 (apply wp_bind, wp_query; [done..|]; cbn [of_result]).
    apply wp_bind, wp_query; [done..|]. destruct (objects s !! e); [|done]. cbn [of_result].
    apply wp_bind, wp_require; [intros _|done]. apply wp_ret. intros p [= <-].
    split; [by intros x [= <-]|done].
  - apply wp_bind. eapply wp_mono; [apply manifest_spec|].
    intros [o|e'|] s1 [_ Hm]; [|done..]. destruct (Hm o eq_refl) as (c & Hc & Ho & _).
    apply wp_bind, wp_require; [|done]. intros Hne%negb_true_iff%bool_decide_eq_false.
    apply wp_ret. intros p [= <-]. split; [done|]. intros _ c' o' Hc' Ho'. congruence.
Qed.

Lemma dispositions_spec ids es s :
  wp (dispositions uuid_Parse ids es) (λ r s', same_store s s' ∧ (∀ ps, r = Ok ps →
    ps ⊆ ids ∧ ∀ e, e ∈ es → e ∉ ids → independent ids e s)) s.
Proof.
  revert s. induction es as [|e es IH]; intros s; cbn [dispositions].
  - apply wp_ret. split; [done|]. intros ps [= <-].
    split; [apply list_subseteq_nil|]. intros e He. by apply not_elem_of_nil in He.
  - apply wp_bind. eapply wp_mono; [apply disposition_spec|].
    intros [p|e'|] s1 [Hs1 Hp]; [|by split..]. destruct (Hp p eq_refl) as [Hin Hi].
    apply wp_bind. eapply wp_mono; [apply IH|].
    intros [ps|e'|] s2 [Hs2 Hps]; [|split; [by transitivity s1|done]..].
    destruct (Hps ps eq_refl) as [Hsub Hall].
    apply wp_ret. split; [by transitivity s1|]. intros ps' [= <-]. split.
    + destruct p as [x|]; [|done]. intros y [->|Hy]%elem_of_cons; auto.
    + intros y [->|Hy]%elem_of_cons Hn; [by apply Hi|].
      intros c o. rewrite <- (proj1 Hs1). by apply Hall.
Qed.

(** While the set is withdrawn: all of it is fenced, the rest is independent. *)
Record discarding (ids : list string) (s0 s : Store) : Prop := {
  dc_le : store_le s0 s;
  dc_ok : store_ok s;
  dc_fenced : ∀ id, id ∈ ids → id ∈ deleted s;
  dc_rest : ∀ e, e ∉ ids → independent ids e s;
}.

Lemma withdraw_discarding ids s0 s x :
  x ∈ ids → discarding ids s0 s → wp (withdraw x) (λ _ s', discarding ids s0 s') s.
Proof.
  intros Hx [Hle Hok Hf Hi]. eapply wp_mono.
  { apply withdraw_spec; [done|]. split; [by apply Hf|].
    intros e c o Hc He Ho _ Heq. apply (Hi e (λ Hin, He (Hf e Hin)) c o Hc Ho).
    by rewrite Heq. }
  intros r s' (Hle' & Hok' & Hd & Hobj & _). split; [by etransitivity|done|by rewrite Hd|].
  intros e He c o Hc. destruct Hobj as [Hobj|Hobj]; rewrite Hobj in Hc; [by apply (Hi e)|].
  apply lookup_delete_Some in Hc as [_ Hc]. by apply (Hi e).
Qed.

Lemma sound_discard ids : sound (DiscardObjects uuid_Parse ids).
Proof using uuid_Parse.
  clear send receive stream.
  intros s Hok.
  set (Q := λ (r : outcome unit) s', store_le s s' ∧ store_ok s').
  assert (Hq : ∀ r s', fences_le s s' → Q r s').
  { intros r s' Hs. split; [by apply fences_store_le|by apply (store_ok_fences s)]. }
  unfold DiscardObjects, withServer.
  do 2 (apply wp_bind, wp_require; [intros _|intros _; by apply Hq]).
  do 4 (apply wp_bind, wp_query; [by apply Hq..|]; cbn [of_result]).
  apply wp_bind. eapply wp_mono; [apply fence_recoverStages|].
  intros [[]|e|] s1 Hs1; [|by apply Hq..].
  apply wp_bind, wp_query; [by apply Hq..|]. cbn [of_result].
  apply wp_bind. eapply wp_mono; [apply dispositions_spec|].
  intros r s2 [Hs2 Hps]. assert (Hf2 : fences_le s s2)
    by (transitivity s1; [done|by apply same_fences]).
  destruct r as [ps|e|]; [|by apply Hq..]. destruct (Hps ps eq_refl) as [Hsub Hind].
  apply wp_bind. eapply wp_mono.
  { apply (wp_for_each_all _ fences_le (λ x s', x ∈ deleted s')).
    { intros x s3 s4 [_ Hd]. set_solver. }
    intros x s' _ _. apply wp_bind. eapply wp_mono; [apply record_created|].
    intros [b|e|] s'' [Hs'' Hx]; [apply wp_ret|..]; (split; [done|]); [|done..].
    intros _. by apply (Hx b). }
  intros r s3 [Hs3 Hall]. assert (Hf3 : fences_le s s3) by (by transitivity s2).
  destruct r as [[]|e|]; [|by apply Hq..]. specialize (Hall eq_refl).
  assert (Hdc : discarding ids s s3).
  { split; [by apply fences_store_le|by apply (store_ok_fences s)|done|].
    intros e He c o Hc. rewrite (proj1 Hs3), (proj1 Hs2) in Hc.
    apply (Hind e (proj2 (elem_of_sorted_keys _ _) (mk_is_Some _ _ Hc)) He c o Hc). }
  apply wp_bind. eapply wp_mono.
  { apply (wp_for_each _ (discarding ids s)); [done|]. intros x s' Hx Hdc'.
    apply withdraw_discarding; [|done]. by apply Hsub. }
  intros [[]|e|] s4 Hdc4; [|by destruct Hdc4..].
  eapply wp_mono; [apply fence_recoverStages|]. intros o s5 Hs5. destruct Hdc4 as [Hle Hok4 _ _].
  split; [etransitivity; [exact Hle|by apply fences_store_le]|by apply (store_ok_fences s4)].
Qed.

End trace.
