(* ===== verification/ColdSpec.v ===== *)
(** * What the cold store promises

    Integrity and immutability of objects, permanence of deletion, exactness of the
    protocol: over every sequence of served commands and local operations, with any
    faults, lost connections and crashes. *)
From S2P Require Import Prelude GoStrings Encodings RunnerState Receipts.
From S2P Require Import ColdProtocol ColdServer ColdTrace.
From stdpp Require Import relations.

#[local] Open Scope Z_scope.

(** ** Splitting a command *)

Definition no_space (c : ascii) : bool := negb (Ascii.eqb space c).

Lemma Split_none s : all_chars no_space s = true → Split s space = [s].
Proof.
  induction s as [|c s IH]; [done|]. cbn [all_chars Split]. intros [Hc Hs]%andb_prop.
  unfold no_space in Hc. destruct (Ascii.eqb space c); [done|]. by rewrite IH.
Qed.

Lemma Split_two a e :
  all_chars no_space a = true → Split (a +:+ String space e)%stdpp space = a :: Split e space.
Proof.
  induction a as [|c a IH].
  - done.
  - cbn [all_chars]. intros [Hc Ha]%andb_prop. rewrite append_cons. cbn [Split].
    unfold no_space in Hc. destruct (Ascii.eqb space c); [done|]. by rewrite IH.
Qed.

Lemma Split_nonnil s : Split s space ≠ [].
Proof. destruct s; cbn [Split]; [done|]. destruct (Ascii.eqb _ _); [done|]. by destruct (Split s _). Qed.

Lemma Split_one_inv s w : Split s space = [w] → s = w.
Proof.
  revert w. induction s as [|c s IH]; intros w; cbn [Split]; [by intros [= <-]|].
  destruct (Ascii.eqb space c).
  - intros [= _ He]. by destruct (Split_nonnil s).
  - destruct (Split s space) as [|w' ws] eqn:E; [by destruct (Split_nonnil s)|]. intros [= <- ->].
    by rewrite (IH w').
Qed.

Lemma Split_two_inv s a e : Split s space = [a; e] → s = (a +:+ String space e)%stdpp.
Proof.
  revert a. induction s as [|c s IH]; intros a; cbn [Split]; [done|].
  destruct (Ascii.eqb_spec space c) as [<-|Hne].
  - intros [= <- He]. by rewrite (Split_one_inv s e).
  - destruct (Split s space) as [|w ws] eqn:E; [done|]. intros [= <- ->].
    by rewrite (IH w).
Qed.

Lemma plain_no_space s : all_chars plain s = true → all_chars no_space s = true.
Proof.
  induction s as [|c s IH]; [done|]. cbn [all_chars]. intros [Hc Hs]%andb_prop.
  rewrite (IH Hs), andb_true_r. unfold plain in Hc. unfold no_space.
  destruct (Ascii.eqb_spec space c) as [<-|]; done.
Qed.

Lemma length_encode s : (3 * String.length (EncodeToString s) <= 4 * String.length s + 2)%nat.
Proof. induction s as [| | |a b c s IH] using string_ind3; simpl in *; lia. Qed.

(** ** The protocol *)

Section protocol.
Context (uuid_Parse : string → option string).
Context (marshal : request → string) (unmarshal : string → result request).

Definition command_of (b : string) : string := (protocol +:+ String space (EncodeToString b))%stdpp.

Lemma length_command b :
  (String.length b <= maxMetadata → String.length (command_of b) <= 2 * maxMetadata)%nat.
Proof.
  intros Hb. unfold command_of. rewrite length_append. pose proof (length_encode b).
  unfold maxMetadata in *. simpl. lia.
Qed.

Lemma parse_command b r :
  (String.length b <= maxMetadata)%nat → unmarshal b = inl r →
  validate_request uuid_Parse r = inl tt →
  parseRequest uuid_Parse unmarshal (command_of b) = inl r.
Proof.
  intros Hb Hu Hv. unfold parseRequest, command_of.
  rewrite Split_two, Split_none by (done || apply plain_no_space, plain_encode).
  fold (command_of b).
  rewrite (proj2 (Nat.ltb_ge _ _)) by by apply length_command.
  rewrite String.eqb_refl. cbn [negb orb]. rewrite DecodeString_EncodeToString. simpl.
  rewrite String.eqb_refl. simpl. unfold decode_metadata.
  rewrite (proj2 (Nat.ltb_ge _ _)) by done. rewrite Hu. simpl. by rewrite Hv.
Qed.

Lemma parse_inv command r :
  parseRequest uuid_Parse unmarshal command = inl r →
  ∃ b, command = command_of b ∧ (String.length b <= maxMetadata)%nat ∧ unmarshal b = inl r ∧
       validate_request uuid_Parse r = inl tt.
Proof.
  unfold parseRequest. destruct (Split command space) as [|p [|e [|]]] eqn:Hs; try done.
  destruct (_ || _) eqn:Hp; [done|]. apply orb_false_elim in Hp as [_ Hp].
  apply negb_false_iff, String.eqb_eq in Hp as ->.
  destruct (DecodeString e) as [b|] eqn:Hb; [|done]. simpl.
  destruct (negb _) eqn:He; [done|]. apply negb_false_iff, String.eqb_eq in He.
  unfold decode_metadata. destruct (_ <? _)%nat eqn:Hl; [done|]. apply Nat.ltb_ge in Hl.
  destruct (unmarshal b) as [r'|] eqn:Hu; [|done]. simpl.
  destruct (validate_request _ r') as [[]|] eqn:Hv; [|done]. intros [= <-].
  exists b. split_and!; try done. rewrite (Split_two_inv _ _ _ Hs). unfold command_of. by rewrite He.
Qed.

(** The server reads exactly the valid requests in canonical form: the protocol's
    name, one space and the base64 of at most 4096 bytes of JSON; and what a client
    encodes is read back as it was. *)
Theorem protocol_exact command r :
  (parseRequest uuid_Parse unmarshal command = inl r ↔
     ∃ b, command = command_of b ∧ (String.length b <= maxMetadata)%nat ∧ unmarshal b = inl r ∧
          validate_request uuid_Parse r = inl tt) ∧
  (unmarshal (marshal r) = inl r → (String.length (marshal r) <= maxMetadata)%nat →
     encodeRequest uuid_Parse marshal r = inl command →
     parseRequest uuid_Parse unmarshal command = inl r).
Proof.
  split; [split; [apply parse_inv|]|].
  - intros (b & -> & Hb & Hu & Hv). by apply parse_command.
  - intros Hu Hb. unfold encodeRequest.
    destruct (validate_request uuid_Parse r) as [[]|] eqn:Hv; [|done].
    intros [= <-]. by apply parse_command.
Qed.
End protocol.

(** ** Histories *)

Section spec.
Context (uuid_Parse : string → option string) (unmarshal : string → result request).
Context {stream : Type} (send : disk → option disk → string → stream)
  (receive : stream → string → list disk → result (list disk)).

Inductive cold_op : ∀ A, M Store A → Prop :=
  | co_serve u command input :
      cold_op _ (Serve uuid_Parse send receive unmarshal u command input)
  | co_receive u o input : cold_op _ (Receive uuid_Parse receive u o input)
  | co_stat id : cold_op _ (LocalStat uuid_Parse id)
  | co_clone o snapshot :
      (∀ d, within same_store (snapshot d)) → cold_op _ (Clone uuid_Parse o snapshot)
  | co_remove id : cold_op _ (Remove uuid_Parse id)
  | co_discard ids : cold_op _ (DiscardObjects uuid_Parse ids).

Definition cold_step (s s' : Store) : Prop :=
  ∃ A (m : M Store A) fs, cold_op A m ∧ s' = (m fs s).1.2.
Definition cold_later : relation Store := rtc cold_step.

Lemma sound_withServer {A} (m : M Store A) :
  sound uuid_Parse m → sound uuid_Parse (withServer uuid_Parse m).
Proof.
  intros Hm. unfold withServer.
  repeat (apply sound_bind; [apply sound_same, within_query, _|intros []]).
  apply sound_bind; [apply sound_fences, fence_recoverStages|done].
Qed.

Lemma sound_throw {A} e : sound uuid_Parse (throw e : M Store A).
Proof. apply sound_same, within_throw, _. Qed.
Lemma sound_ret {A} (a : A) : sound uuid_Parse (mret a).
Proof. apply sound_same, within_ret, _. Qed.

Lemma sound_put' u o input c :
  validate_object uuid_Parse o = inl tt → sound uuid_Parse (put uuid_Parse receive u o input c).
Proof. intros Hv s Hok. eapply wp_mono; [by apply sound_put|]. by intros r s' (? & ? & _). Qed.
Lemma sound_delete' id : sound uuid_Parse (s_delete uuid_Parse id).
Proof. intros s Hok. eapply wp_mono; [by apply sound_delete|]. by intros r s' (? & ? & _). Qed.

Lemma sound_lift_bind {A B} (r : result A) (k : A → M Store B) :
  (∀ a, r = inl a → sound uuid_Parse (k a)) → sound uuid_Parse (lift r ≫= k).
Proof.
  intros Hk s Hok. apply wp_bind, wp_lift. destruct r as [a|e]; [by apply Hk|done].
Qed.

(** A put request carries a valid object. *)
Lemma valid_put r :
  validate_request uuid_Parse r = inl tt → rq_Operation r = "put" →
  validate_object uuid_Parse (rq_Object r) = inl tt.
Proof.
  unfold validate_request. intros Hv Hop. rewrite Hop in Hv. cbn in Hv.
  repeat case_match; done.
Qed.

Lemma sound_Serve u command input :
  sound uuid_Parse (Serve uuid_Parse send receive unmarshal u command input).
Proof.
  unfold Serve. apply sound_lift_bind. intros r (_ & _ & _ & _ & Hv)%parse_inv.
  apply sound_withServer.
  destruct (String.eqb_spec (rq_Operation r) "stat");
    [|destruct (String.eqb_spec (rq_Operation r) "put");
      [|destruct (String.eqb (rq_Operation r) "get");
        [|destruct (String.eqb (rq_Operation r) "delete"); [|apply sound_throw]]]];
    (apply sound_bind; [|intros ?; apply sound_ret]).
  - apply sound_same, same_stat.
  - by apply sound_put', valid_put.
  - apply sound_same, same_get.
  - apply sound_delete'.
Qed.

Lemma cold_op_sound A (m : M Store A) : cold_op A m → sound uuid_Parse m.
Proof.
  destruct 1 as [u command input|u o input|id|o snapshot Hsnap|id|ids].
  - apply sound_Serve.
  - apply sound_lift_bind. intros [] Hv. apply sound_withServer.
    apply sound_bind; [apply sound_same, within_try, same_stat|].
    intros [o'|[]]; try apply sound_throw; [|by apply sound_put'].
    apply sound_same. repeat within_step. apply within_query, _.
  - apply sound_bind; [apply sound_same, within_require, _|intros _].
    apply sound_withServer, sound_same, same_stat.
  - apply sound_bind; [apply sound_same, within_lift, _|intros _].
    apply sound_withServer. apply sound_same.
    repeat first [apply same_stat|apply same_object_disk|apply Hsnap|within_step].
  - apply sound_bind; [apply sound_same, within_require, _|intros _].
    apply sound_withServer, sound_delete'.
  - apply sound_discard.
Qed.

Lemma cold_later_sound s s' :
  store_ok uuid_Parse s → cold_later s s' → store_le s s' ∧ store_ok uuid_Parse s'.
Proof.
  intros Hok Hl. revert Hok. induction Hl as [s|s s1 s2 (A & m & fs & Hop & ->) _ IH]; intros Hok.
  - by split.
  - destruct (cold_op_sound A m Hop s Hok fs) as [Hle Hok1].
    destruct (IH Hok1) as [Hle2 Hok2]. split; [by etransitivity|done].
Qed.

(** ** Integrity *)

(** Every published object of a reachable store is intact: its manifest is valid
    and names it, its disk is read-only and carries the identity, the size and the
    SHA-256 the manifest says; and the parent of an object in use is there. *)
Theorem objects_intact s id c :
  cold_later empty_Store s → objects s !! id = Some c →
  ∃ o, ct_manifest c = Some o ∧ ob_ID o = id ∧ dk_readonly (ct_disk c) = true ∧
       sv_ReceivedUUID (dk_id (ct_disk c)) = ob_UUID o ∧
       disk_size (ct_disk c) = ob_Size o ∧ sha256_hex (dk_content (ct_disk c)) = ob_SHA256 o ∧
       (id ∉ deleted s → ob_Parent o ≠ "" → is_Some (objects s !! ob_Parent o)).
Proof.
  intros Hl Hc. destruct (cold_later_sound _ _ (store_ok_empty uuid_Parse) Hl) as [_ [Hm Hp]].
  destruct (Hm id c Hc) as (o & Ho & Hid & _ & Hd).
  unfold verifyDisk, verifyDiskIdentity in Hd.
  destruct (dk_readonly (ct_disk c)); [|done]. simpl in Hd.
  destruct (String.eqb_spec (sv_ReceivedUUID (dk_id (ct_disk c))) (ob_UUID o)); [|done].
  simpl in Hd. destruct (Z.eqb_spec (disk_size (ct_disk c)) (ob_Size o)); [|done]. simpl in Hd.
  destruct (String.eqb_spec (sha256_hex (dk_content (ct_disk c))) (ob_SHA256 o)); [|done].
  exists o. split_and!; try done. intros Hf. by apply (Hp id c o).
Qed.

(** A published object never changes: later it is the same, or its ID is fenced for
    ever. *)
Theorem objects_immutable s s' id c :
  store_ok uuid_Parse s → cold_later s s' → objects s !! id = Some c →
  objects s' !! id = Some c ∨ id ∈ deleted s'.
Proof.
  intros Hok Hl Hc. destruct (cold_later_sound s s' Hok Hl) as [[_ Hnew Hold] _].
  destruct (Hold id) as [[c' Hc']|]; [by eexists| |by right].
  left. destruct (Hnew id c' Hc') as [H|[H _]]; congruence.
Qed.

(** Deletion is permanent: once it has been acknowledged, the object is gone, and no
    later command, not even a put of the same object that was already on its way,
    brings it back. *)
Theorem deletion_permanent id fs s s' :
  store_ok uuid_Parse s → (Remove uuid_Parse id fs s).1.1 = Ok tt →
  cold_later (Remove uuid_Parse id fs s).1.2 s' →
  objects s' !! id = None ∧ id ∈ deleted s'.
Proof.
  intros Hok Hr Hl.
  assert (Hspec : wp (Remove uuid_Parse id) (λ r s1, store_le s s1 ∧ store_ok uuid_Parse s1 ∧
    (r = Ok tt → id ∈ deleted s1 ∧ objects s1 !! id = None)) s).
  { assert (Hq : ∀ (r : outcome unit) s1, fences_le s s1 → r ≠ Ok tt →
      store_le s s1 ∧ store_ok uuid_Parse s1 ∧
      (r = Ok tt → id ∈ deleted s1 ∧ objects s1 !! id = None)).
    { intros r s1 Hs Hne. split; [by apply fences_store_le|].
      split; [by apply (store_ok_fences uuid_Parse s)|by intros ->]. }
    unfold Remove, withServer. apply wp_bind, wp_require; [intros _|intros _; by apply Hq].
    do 4 (apply wp_bind, wp_query; [by apply Hq..|]; cbn [of_result]).
    apply wp_bind. eapply wp_mono; [apply fence_recoverStages|].
    intros [[]|e|] s1 Hs1; [|by apply Hq..].
    eapply wp_mono; [apply (sound_delete uuid_Parse id s1)|].
    - by apply (store_ok_fences uuid_Parse s).
    - intros r s2 (Hle & ?). split; [|done].
      etransitivity; [by apply fences_store_le|done]. }
  destruct (Hspec fs) as (_ & Hok1 & Hd). destruct (Hd Hr) as [Hin Hnone].
  destruct (cold_later_sound _ _ Hok1 Hl) as [[Hf Hnew _] _].
  split; [|set_solver]. destruct (objects s' !! id) as [c|] eqn:Hc; [|done].
  destruct (Hnew id c Hc) as [H|[_ H]]; [congruence|done].
Qed.
End spec.

(** ** Concrete runs *)

(** UUIDs in canonical form only, JSON by the operation's name, streams that carry
    the disks they move. *)
Definition uuid0 (s : string) : option string := if nonempty s then Some s else None.
Definition disk0 : disk :=
  mkDisk (mkSubvolumeIdentity "u-9" "300" "" "u-1") true (mkStamp 257 11 0) "hello world".
Definition object0 : Object :=
  mkObject "o-1" "u-1" (sha256_hex "hello world") 11 "".
Definition stat0 : request := mkRequest "stat" (id_only "o-1") "" "".
Definition marshal0 (r : request) : string := (rq_Operation r +:+ " " +:+ ob_ID (rq_Object r))%stdpp.
Definition unmarshal0 (b : string) : result request :=
  match Split b space with
  | [op; id] => inl (mkRequest op (id_only id) "" "")
  | _ => inr (Errorf "invalid JSON")
  end.
Definition send0 (d : disk) (_ : option disk) (_ : string) : list disk := [d].
Definition receive0 (st : list disk) (_ : string) (_ : list disk) : result (list disk) := inl st.

Definition receive_call : M Store unit := Receive uuid0 receive0 "s-1" object0 [disk0].
Definition store1 : Store := (receive_call [] empty_Store).1.2.

Lemma store1_reached :
  cold_later uuid0 unmarshal0 send0 receive0 empty_Store store1.
Proof.
  apply rtc_once. exists unit, receive_call, []. split; [|done].
  apply (co_receive uuid0 unmarshal0 send0 receive0).
Qed.

Lemma store1_ok : store_ok uuid0 store1.
Proof.
  by apply (cold_later_sound uuid0 unmarshal0 send0 receive0 empty_Store);
    [apply store_ok_empty|apply store1_reached].
Qed.

Lemma protocol_exact_witness :
  encodeRequest uuid0 marshal0 stat0 = inl "srv-cold-store-v1 c3RhdCBvLTE" ∧
  parseRequest uuid0 unmarshal0 "srv-cold-store-v1 c3RhdCBvLTE" = inl stat0.
Proof.
  split; [vm_compute; reflexivity|].
  apply (protocol_exact uuid0 marshal0 unmarshal0 _ stat0); [vm_compute; reflexivity| |].
  - apply Nat.leb_le. vm_compute. reflexivity.
  - vm_compute. reflexivity.
Defined.

Lemma objects_intact_witness :
  sv_ReceivedUUID (dk_id disk0) = "u-1" ∧
  ∃ o, ct_manifest (mkContainer (Some object0) disk0) = Some o ∧ ob_Size o = 11.
Proof.
  edestruct (objects_intact uuid0 unmarshal0 send0 receive0 store1 "o-1"
              (mkContainer (Some object0) disk0) store1_reached) as (o & Ho & _ & _ & _ & Hs & _).
  - vm_compute. reflexivity.
  - split; [reflexivity|]. exists o. split; [exact Ho|]. rewrite <- Hs. vm_compute. reflexivity.
Defined.

Lemma objects_immutable_witness :
  objects (receive_call [] store1).1.2 !! "o-1" = Some (mkContainer (Some object0) disk0) ∨
  "o-1" ∈ deleted (receive_call [] store1).1.2.
Proof.
  apply (objects_immutable uuid0 unmarshal0 send0 receive0 store1); [apply store1_ok| |].
  - apply rtc_once. exists unit, receive_call, []. split; [|done].
    apply (co_receive uuid0 unmarshal0 send0 receive0).
  - vm_compute. reflexivity.
Defined.

(** A put that arrives after the deletion. *)
Lemma deletion_permanent_witness :
  objects (receive_call [] (Remove uuid0 "o-1" [] store1).1.2).1.2 !! "o-1" = None ∧
  "o-1" ∈ deleted (receive_call [] (Remove uuid0 "o-1" [] store1).1.2).1.2.
Proof.
  apply (deletion_permanent uuid0 unmarshal0 send0 receive0 "o-1" [] store1); [apply store1_ok| |].
  - vm_compute. reflexivity.
  - apply rtc_once. exists unit, receive_call, []. split; [|done].
    apply (co_receive uuid0 unmarshal0 send0 receive0).
Defined.
