(* ===== verification/ColdDisk.v ===== *)
(** * Cold disks

    Models src/internal/vmrunner/cold_disk.go: the runner moves the disk of a
    stopped instance to the cold store and back.  A journal in the receipt
    directory says where the authoritative copy is; the transfers go through
    stages beside the instances.

    The cold store is reached through the interface [coldRemote]; the disks through
    the btrfs calls of src/internal/storage/subvolume.go, run as root. *)
From S2P Require Import Prelude GoStrings Paths RunnerState Runtime Receipts ReceiptStop Encodings.

#[local] Open Scope Z_scope.

(** ** The state of a transfer *)

(** [w_reg] is the record the running call holds in memory (Go's [*r]); it is lost
    between calls.  [w_tried] and [w_truth] are history variables: the objects the
    runner has asked the store to put, and what the guest wrote last. *)
Record World (R : Type) := mkWorld {
  w_host : Host;
  w_remote : R;
  w_dirs : gset string;              (* ordinary directories of the stages *)
  w_reg : coldDiskRecord;
  w_tried : list string;
  w_truth : string;
}.
Arguments mkWorld {R}.
Arguments w_host {R}.
Arguments w_remote {R}.
Arguments w_dirs {R}.
Arguments w_reg {R}.
Arguments w_tried {R}.
Arguments w_truth {R}.

Section setters.
Context {R : Type}.
Implicit Types w : World R.
Definition set_host v w := mkWorld v (w_remote w) (w_dirs w) (w_reg w) (w_tried w) (w_truth w).
Definition set_remote (v : R) w := mkWorld (w_host w) v (w_dirs w) (w_reg w) (w_tried w) (w_truth w).
Definition set_dirs v w := mkWorld (w_host w) (w_remote w) v (w_reg w) (w_tried w) (w_truth w).
Definition set_reg v w := mkWorld (w_host w) (w_remote w) (w_dirs w) v (w_tried w) (w_truth w).
Definition set_tried v w := mkWorld (w_host w) (w_remote w) (w_dirs w) (w_reg w) v (w_truth w).
Definition set_truth v w := mkWorld (w_host w) (w_remote w) (w_dirs w) (w_reg w) (w_tried w) v.

Definition w_disks w : gmap string disk := disks (machine (w_host w)).
Definition put_disks v w : World R :=
  set_host (set_machine (set_disks v (machine (w_host w))) (w_host w)) w.

(** A call of the runner on its own state. *)
Definition on_host {A} (m : M Host A) : M (World R) A := λ fs w,
  let '(o, h', fs') := m fs (w_host w) in (o, set_host h' w, fs').

(** The record in memory: reading and writing it cannot fail. *)
Definition get_reg : M (World R) coldDiskRecord := λ fs w, (Ok (w_reg w), w, fs).
Definition update_reg (f : coldDiskRecord → coldDiskRecord) : M (World R) unit := λ fs w,
  (Ok tt, set_reg (f (w_reg w)) w, fs).

(** A check, or a sync, of what the model does not track. *)
Definition step : M (World R) unit := query (λ _, inl tt).
End setters.

(** ** Records *)

Definition with_phase (p : string) (r : coldDiskRecord) : coldDiskRecord :=
  mkCold (cd_Version r) (cd_InstanceID r) p (cd_Remote r) (cd_Host r) (cd_Disk r)
    (cd_Candidate r) (cd_Object r) (cd_Base r) (cd_BaseName r).
Definition with_remote (b : bool) (r : coldDiskRecord) : coldDiskRecord :=
  mkCold (cd_Version r) (cd_InstanceID r) (cd_Phase r) b (cd_Host r) (cd_Disk r)
    (cd_Candidate r) (cd_Object r) (cd_Base r) (cd_BaseName r).
Definition with_disk (id : SubvolumeIdentity) (r : coldDiskRecord) : coldDiskRecord :=
  mkCold (cd_Version r) (cd_InstanceID r) (cd_Phase r) (cd_Remote r) (cd_Host r) id
    (cd_Candidate r) (cd_Object r) (cd_Base r) (cd_BaseName r).
Definition with_candidate (id : SubvolumeIdentity) (r : coldDiskRecord) : coldDiskRecord :=
  mkCold (cd_Version r) (cd_InstanceID r) (cd_Phase r) (cd_Remote r) (cd_Host r) (cd_Disk r)
    id (cd_Object r) (cd_Base r) (cd_BaseName r).
Definition with_object (o : Object) (r : coldDiskRecord) : coldDiskRecord :=
  mkCold (cd_Version r) (cd_InstanceID r) (cd_Phase r) (cd_Remote r) (cd_Host r) (cd_Disk r)
    (cd_Candidate r) o (cd_Base r) (cd_BaseName r).
Definition with_base (name : string) (id : SubvolumeIdentity) (r : coldDiskRecord)
  : coldDiskRecord :=
  mkCold (cd_Version r) (cd_InstanceID r) (cd_Phase r) (cd_Remote r) (cd_Host r) (cd_Disk r)
    (cd_Candidate r) (cd_Object r) id name.

Definition with_parent (p : string) (o : Object) : Object :=
  mkObject (ob_ID o) (ob_UUID o) (ob_SHA256 o) (ob_Size o) p.
Definition no_object : Object := mkObject "" "" "" 0 "".

Record ColdRequest := mkColdRequest {
  cq_Name : string;
  cq_InstanceID : string;
  cq_Action : string;
  cq_ExpectedDisk : SubvolumeIdentity;
}.

Record ColdStatus := mkColdStatus { cs_Phase : string; cs_Remote : bool; cs_JournalPresent : bool }.
Definition hot_status : ColdStatus := mkColdStatus "hot" false false.
Definition status_of (r : coldDiskRecord) : ColdStatus :=
  mkColdStatus (cd_Phase r) (cd_Remote r) true.

(** ** Paths *)

(** [p] is [d] or below it. *)
Definition dir_prefix (d : string) : string := if HasSuffix d "/" then d else (d +:+ "/")%stdpp.
Definition under (d p : string) : bool := String.eqb p d || HasPrefix p (dir_prefix d).

Section paths.
Context (cfg : ServerConfig) (name : string).
Definition instance_dir : string := JoinPath [InstancesDir cfg; name].
Definition coldDir : string := JoinPath [receiptDir cfg name; "cold"].
Definition coldStageDir : string :=
  JoinPath [Dir (InstancesDir cfg); ".cold-staging"; receiptKey name].
Definition stage_path (s : string) : string := JoinPath [coldStageDir; s].
Definition coldMarker : string := JoinPath [InstancesDir cfg; name; "cold-disk.json"].
Definition image_bases : string := JoinPath [Dir (InstancesDir cfg); "image-bases"].
Definition basePath (r : coldDiskRecord) : string := JoinPath [image_bases; cd_BaseName r; "disk"].
End paths.

(** ** The cold store's interface *)

(** Go's [coldRemote]: [Put] an object from a local snapshot and its parent's, [Get] an
    object into a directory, knowing which parent is there, [Delete] an ID. *)
Class coldRemote (R : Type) := {
  Put : Object → string → string → M (World R) unit;
  Get : Object → string → string → M (World R) string;
  Delete : string → M (World R) unit;
}.

Section cold.
Context {R : Type} `{!coldRemote R}.
Context (cfg : ServerConfig).
(** The kernel's choice of a new subvolume's identity, [uuid.NewString], and whether a
    text is a UUID in canonical form. *)
Context (new_identity : World R → string → SubvolumeIdentity) (NewString : World R → string)
  (canonicalColdUUID : string → bool).
Implicit Types w : World R.

(** ** Subvolumes (storage/subvolume.go) *)

Definition ValidateDisk (path : string) : M (World R) SubvolumeIdentity :=
  on_host (ValidateDiskSubvolume path).

Definition RequireReadonly (path : string) : M (World R) unit :=
  query (λ w, match w_disks w !! path with
              | Some d => if dk_readonly d then inl tt
                          else inr (Errorf "immutable disk subvolume is not read-only")
              | None => inr ErrNotExist
              end).

Definition snapshot_of (id : SubvolumeIdentity) (readonly : bool) (d : disk) : disk :=
  mkDisk id readonly (dk_stamp d) (dk_content d).

Definition SnapshotSubvolume (source dest : string) (readonly : bool) : M (World R) unit :=
  env (λ w, match w_disks w !! source, w_disks w !! dest with
            | Some d, None =>
                if bool_decide (Dir dest ∈ w_dirs w)
                then (inl tt, put_disks (<[dest := snapshot_of (new_identity w dest) readonly d]>
                                           (w_disks w)) w)
                else (inr ErrNotExist, w)
            | None, _ => (inr ErrNotExist, w)
            | _, Some _ => (inr (Errorf "snapshot destination exists or cannot be inspected"), w)
            end);;
  step. (* SyncPath *)

Definition DeleteSubvolume (path : string) (expected : SubvolumeIdentity) : M (World R) unit :=
  actual ← query (λ w, match w_disks w !! path with
                       | Some d => inl (dk_id d)
                       | None => inr ErrNotExist
                       end);
  require (nonempty (sv_UUID expected) && String.eqb (sv_UUID actual) (sv_UUID expected) &&
           String.eqb (sv_ID actual) (sv_ID expected))
    (Errorf "subvolume identity changed; refusing deletion");;
  env (λ w, (inl tt, put_disks (delete path (w_disks w)) w));;
  step.

(** A tree may hold read-only subvolumes; a missing one is no error. *)
Definition without (path : string) w : World R :=
  set_dirs (filter (λ d, under path d = false) (w_dirs w))
    (put_disks (filter (λ '(p, _), under path p = false) (w_disks w)) w).
Definition RemoveTree (path : string) : M (World R) unit :=
  step;;
  env (λ w, (inl tt, without path w));;
  step.

(** [os.Lstat(path)] of a disk. *)
Definition disk_exists (path : string) : M (World R) bool :=
  query (λ w, inl (bool_decide (is_Some (w_disks w !! path)))).

(** ** The journal *)

Definition put_state (name : string) (r : coldDiskRecord) w : World R :=
  set_host (set_colds (<[receiptDir cfg name := Some r]> (colds (w_host w))) (w_host w)) w.
Definition put_marker (name : string) (r : coldDiskRecord) w : World R :=
  set_host (set_markers (<[coldMarker cfg name := (cd_InstanceID r, cd_Phase r, cd_Remote r)]>
                           (markers (w_host w))) (w_host w)) w.

(** [atomicColdJSON]: a temporary file, renamed into place and synced. *)
Definition atomicColdJSON (publish : World R → World R) : M (World R) unit :=
  step;; step;; (* CreateTemp; Write, Chmod, Sync, Close *)
  env (λ w, (inl tt, publish w));;
  step.

Definition writeCold (name : string) : M (World R) unit :=
  r ← get_reg;
  atomicColdJSON (put_state name r);;
  atomicColdJSON (put_marker name r).

(** ** Objects and bases *)

Definition destination (r : coldDiskRecord) : M (World R) unit :=
  require (nonempty (ColdHost cfg) && String.eqb (cd_Host r) (ColdHost cfg))
    (Errorf "restore the original cold-storage destination configuration before accessing this generation").

Definition coldObject (id path : string) : M (World R) Object :=
  identity ← ValidateDisk path;
  RequireReadonly path;;
  step;; (* Open *)
  query (λ w, match w_disks w !! path with
              | Some d => inl (mkObject id (sv_UUID identity) (sha256_hex (dk_content d))
                                 (Z.of_nat (String.length (dk_content d))) "")
              | None => inr ErrNotExist
              end).

(** The entries of the base directory, named by a digest. *)
Definition is_base_char (c : ascii) : bool :=
  let n := byte_value c in ((48 <=? n) && (n <=? 57)) || ((97 <=? n) && (n <=? 102)).
Definition base_names (w : World R) : list string :=
  merge_sort name_le
    (omap (λ '(p, _),
       rest ← CutPrefix p (image_bases cfg +:+ "/")%stdpp;
       let n := (String.length rest - 5)%nat in
       let name := substring 0 n rest in
       if String.eqb (substring n 5 rest) "/disk" && (String.length name =? 64)%nat &&
          all_chars is_base_char name then Some name else None)
       (map_to_list (w_disks w))).

Fixpoint find_base (parentUUID : string) (names : list string)
  : M (World R) (string * SubvolumeIdentity) :=
  match names with
  | [] => mret ("", no_subvolume)
  | n :: names' =>
      let path := JoinPath [image_bases cfg; n; "disk"] in
      id ← try (ValidateDisk path);
      match id with
      | inr _ => find_base parentUUID names'
      | inl id =>
          if negb (String.eqb (sv_UUID id) parentUUID) then find_base parentUUID names' else
          ro ← try (RequireReadonly path);
          match ro with
          | inr _ => find_base parentUUID names'
          | inl _ => mret (n, id)
          end
      end
  end.
Definition findColdBase (parentUUID : string) : M (World R) (string * SubvolumeIdentity) :=
  names ← query (λ w, inl (base_names w));
  find_base parentUUID names.

(** The recorded base is still there, unchanged and read-only. *)
Definition base_usable (r : coldDiskRecord) : M (World R) bool :=
  id ← try (ValidateDisk (basePath cfg r));
  match id with
  | inl id =>
      if bool_decide (id = cd_Base r) then
        ro ← try (RequireReadonly (basePath cfg r));
        mret (match ro with inl _ => true | inr _ => false end)
      else mret false
  | inr _ => mret false
  end.

(** ** Offloading *)

(** The base the object is sent against, and its object. *)
Definition choose_base : M (World R) unit :=
  r ← get_reg;
  (if nonempty (cd_BaseName r) then
     usable ← base_usable r;
     if (usable : bool) then mret tt else update_reg (with_base "" no_subvolume)
   else mret tt);;
  r ← get_reg;
  if nonempty (cd_BaseName r) then mret tt else
  found ← try (findColdBase (sv_ParentUUID (cd_Disk r)));
  match found with
  | inl (n, id) => update_reg (with_base n id)
  | inr e => update_reg (with_base "" no_subvolume);; throw e
  end.

Definition put_base : M (World R) string :=
  choose_base;;
  r ← get_reg;
  if negb (nonempty (cd_BaseName r)) then mret "" else
  let parent := basePath cfg r in
  base ← coldObject (sv_UUID (cd_Base r)) parent;
  Put base parent "";;
  update_reg (λ r, with_object (with_parent (ob_ID base) (cd_Object r)) r);;
  mret parent.

(** [remote.Put] of the generation: recorded in the history variable. *)
Definition put_generation (send parent : string) : M (World R) unit :=
  r ← get_reg;
  (λ fs w, (Ok tt, set_tried (ob_ID (cd_Object r) :: w_tried w) w, fs));;
  Put (cd_Object r) send parent.

(** Below the upload: the local copy goes. *)
Definition evict (name : string) : M (World R) unit :=
  update_reg (with_phase "evicting");;
  writeCold name;;
  r ← get_reg;
  DeleteSubvolume (disk_path cfg name) (cd_Disk r);;
  RemoveTree (stage_path cfg name "send");;
  update_reg (with_phase "cold");;
  writeCold name.

Definition offloadCold (name : string) : M (World R) unit :=
  r ← get_reg;
  destination r;;
  let disk := disk_path cfg name in
  actual ← try (ValidateDisk disk);
  require (match actual with inl id => bool_decide (id = cd_Disk r) | inr _ => false end)
    (Errorf "local disk identity changed before offload");;
  require (negb (cd_Remote r))
    (Errorf "previous upload outcome requires hydrate and purge before retry");;
  let send := stage_path cfg name "send" in
  RemoveTree send;;
  SnapshotSubvolume disk send true;;
  o ← try (coldObject (ob_ID (cd_Object r)) send);
  match o with
  | inr e => update_reg (with_object no_object);; throw e
  | inl o =>
      update_reg (with_object o);;
      parent ← put_base;
      update_reg (with_remote true);;
      writeCold name;;
      put_generation send parent;;
      evict name
  end.

(** ** Local recovery, restore and purge *)

Definition cleanColdStages (name : string) : M (World R) unit :=
  for_each (λ s, RemoveTree (stage_path cfg name s)) ["send"; "receive"; "candidate"];;
  step.

Definition recoverLocalCold (name : string) : M (World R) unit :=
  id ← ValidateDisk (disk_path cfg name);
  r ← get_reg;
  require (bool_decide (id = cd_Disk r) ||
           (nonempty (sv_UUID (cd_Candidate r)) && bool_decide (id = cd_Candidate r)))
    (Errorf "unrecognized local disk during cold recovery");;
  update_reg (λ r, with_phase "hot" (with_disk id r));;
  writeCold name;;
  cleanColdStages name.

(** [os.Mkdir]. *)
Definition mkdir (path : string) : M (World R) unit :=
  env (λ w, if bool_decide (path ∈ w_dirs w) then (inr ErrExist, w)
            else (inl tt, set_dirs ({[path]} ∪ w_dirs w) w)).

(** A candidate is received and recorded. *)
Definition receive_candidate (name : string) : M (World R) unit :=
  let candidate := stage_path cfg name "candidate" in
  step;; (* CheckDiskSpace *)
  update_reg (with_phase "restoring");;
  writeCold name;;
  cleanColdStages name;;
  let receive := stage_path cfg name "receive" in
  mkdir receive;;
  r ← get_reg;
  parent ← (if nonempty (cd_BaseName r) then
              usable ← base_usable r;
              mret (if (usable : bool) then ob_Parent (cd_Object r) else "")
            else mret "");
  received ← Get (cd_Object r) receive parent;
  require (String.eqb (Dir received) (JoinPath [receive; ob_ID (cd_Object r)]))
    (Errorf "received disk escaped private staging directory");;
  SnapshotSubvolume received candidate false;;
  id ← try (ValidateDisk candidate);
  match id with
  | inr e => update_reg (with_candidate no_subvolume);; throw e
  | inl id => update_reg (with_candidate id);; writeCold name
  end.

(** [unix.Renameat2(candidate, disk, RENAME_NOREPLACE)]. *)
Definition rename_noreplace (source dest : string) : M (World R) unit :=
  env (λ w, match w_disks w !! source, w_disks w !! dest with
            | Some d, None => (inl tt, put_disks (<[dest := d]> (delete source (w_disks w))) w)
            | None, _ => (inr ErrNotExist, w)
            | _, Some _ => (inr ErrExist, w)
            end).

Definition hydrateCold (name : string) : M (World R) unit :=
  let disk := disk_path cfg name in
  present ← disk_exists disk;
  r ← get_reg;
  if (present : bool) then
    if String.eqb (cd_Phase r) "cold"
    then throw (Errorf "unexpected disk alongside cold generation")
    else recoverLocalCold name
  else
    require (negb (String.eqb (cd_Phase r) "hot" || String.eqb (cd_Phase r) "offloading" ||
                   negb (cd_Remote r)))
      (Errorf "authoritative local disk is missing; refusing stale remote fallback");;
    destination r;;
    let candidate := stage_path cfg name "candidate" in
    (if nonempty (sv_UUID (cd_Candidate r)) then
       id ← try (ValidateDisk candidate);
       require (match id with inl id => bool_decide (id = cd_Candidate r) | inr _ => false end)
         (Errorf "cold restore candidate identity mismatch")
     else receive_candidate name);;
    rename_noreplace candidate disk;;
    step;;
    recoverLocalCold name.

(** [os.Remove] of an empty directory; a missing one is no error. *)
Definition rmdir (path : string) : M (World R) unit :=
  env (λ w, if existsb (λ p, under path p && negb (String.eqb p path))
                 (elements (w_dirs w) ++ map fst (map_to_list (w_disks w)))
            then (inr (Errorf "directory not empty"), w)
            else (inl tt, set_dirs (w_dirs w ∖ {[path]}) w)).

Definition remove_marker (name : string) w : World R :=
  set_host (set_markers (delete (coldMarker cfg name) (markers (w_host w))) (w_host w)) w.
Definition remove_state (name : string) w : World R :=
  set_host (set_colds (delete (receiptDir cfg name) (colds (w_host w))) (w_host w)) w.

Definition finishColdPurge (name : string) : M (World R) unit :=
  rmdir (coldStageDir cfg name);;
  step;;
  env (λ w, (inl tt, remove_marker name w));;
  step;;
  env (λ w, (inl tt, remove_state name w));;
  step.

Definition purgeCold (name : string) : M (World R) unit :=
  r ← get_reg;
  (if cd_Remote r then
     destination r;;
     Delete (ob_ID (cd_Object r));;
     update_reg (with_remote false);;
     writeCold name
   else mret tt);;
  cleanColdStages name;;
  update_reg (with_phase "purged");;
  writeCold name;;
  finishColdPurge name.

(** ** The handler *)

Definition deleting (q : ColdRequest) : bool :=
  String.eqb (cq_Action q) "delete" || String.eqb (cq_Action q) "fence-delete".
Definition offloading (q : ColdRequest) : bool := String.eqb (cq_Action q) "offload".

(** No stage of the older layout is left. *)
Definition legacy_stage (name s : string) : M (World R) unit :=
  query (λ w, let p := JoinPath [coldDir cfg name; s] in
    if bool_decide (is_Some (w_disks w !! p)) || bool_decide (p ∈ w_dirs w)
    then inr (Errorf "legacy cold transfer stage requires operator recovery before layout upgrade")
    else inl tt).

(** The instance is idle and, unless it is being deleted, has no saved RAM and no
    deletion fence; a deletion is fenced first. *)
Definition admission (q : ColdRequest) : M (World R) unit :=
  let name := cq_Name q in
  (if deleting q then mret tt else
     on_host (coldDeletionFence cfg name (cq_InstanceID q));;
     saved ← on_host (query_machine (λ m, inl (bool_decide (is_Some (ram m !! ramStateDir cfg name)))));
     require (negb (saved : bool))
       (Errorf "cold disk operation would invalidate saved RAM; resume or discard it first"));;
  on_host (storageIdleLocked cfg name);;
  if deleting q then
    st ← on_host (readRAMState cfg name);
    require (match st with
             | Some st => String.eqb (q_InstanceID (Attempt st)) (cq_InstanceID q)
             | None => true
             end) (Errorf "saved RAM belongs to another incarnation");;
    step;; step;; (* atomicColdJSON *)
    on_host (env (λ h, (inl tt, put_file cfg name (fence_file (cq_InstanceID q))
                                  (F_fence (cq_InstanceID q)) h)));;
    step;;
    on_host (discardRAMState cfg name)
  else mret tt.

(** The private staging directory, on the disks' file system. *)
Definition prepare_stage (name : string) : M (World R) unit :=
  step;; step;; step;; (* coldNoLoop, ValidatePath, MkdirAll *)
  env (λ w, (inl tt, set_dirs ({[coldStageDir cfg name]} ∪ w_dirs w) w));;
  step;; step;; (* coldPrivateDir *)
  step;; step. (* FilesystemUUID *)

(** The first publication is bound to the disk its caller observed. *)
Definition expected_disk (q : ColdRequest) : M (World R) unit :=
  id ← try (ValidateDisk (disk_path cfg (cq_Name q)));
  require (match id with
           | inl id => nonempty (sv_UUID (cq_ExpectedDisk q)) &&
                       String.eqb (sv_UUID id) (sv_UUID (cq_ExpectedDisk q)) &&
                       String.eqb (sv_ID id) (sv_ID (cq_ExpectedDisk q))
           | inr _ => false
           end) (Errorf "offload disk no longer matches the requested incarnation").

(** The previous generation of an offload, recovered and purged; a purged one,
    finished.  The result says whether a generation is left. *)
Definition settle (q : ColdRequest) (r : option coldDiskRecord)
  : M (World R) (bool * (SubvolumeIdentity * string)) :=
  let name := cq_Name q in
  match r with
  | None => mret (false, (no_subvolume, ""))
  | Some r =>
      if offloading q && String.eqb (cd_Phase r) "hot" then
        recoverLocalCold name;;
        r ← get_reg;
        purgeCold name;;
        mret (false, (cd_Base r, cd_BaseName r))
      else if String.eqb (cd_Phase r) "purged" then
        (if String.eqb (cq_Action q) "delete" then mret tt else
           id ← try (ValidateDisk (disk_path cfg name));
           require (match id with inl id => bool_decide (id = cd_Disk r) | inr _ => false end)
             (Errorf "purged generation has no valid local disk"));;
        finishColdPurge name;;
        mret (false, (no_subvolume, ""))
      else mret (true, (no_subvolume, ""))
  end.

(** A new generation: its journal comes first. *)
Definition new_generation (q : ColdRequest) (base : SubvolumeIdentity) (baseName : string)
  : M (World R) unit :=
  let name := cq_Name q in
  require (nonempty (ColdHost cfg)) (Errorf "cold storage is disabled");;
  env (λ w, (inl tt, set_dirs ({[coldStageDir cfg name]} ∪ w_dirs w) w));;
  id ← ValidateDisk (disk_path cfg name);
  step;; step;; (* MkdirAll, SyncPath *)
  u ← (λ fs w, (Ok (NewString w), w, fs));
  update_reg (λ _, mkCold 1 (cq_InstanceID q) "offloading" false (ColdHost cfg) id no_subvolume
                     (mkObject u "" "" 0 "") base baseName);;
  writeCold name.

(** The action on a generation. *)
Definition act (q : ColdRequest) : M (World R) ColdStatus :=
  let name := cq_Name q in
  r ← get_reg;
  if offloading q then
    if String.eqb (cd_Phase r) "cold" then mret (status_of r) else
    require (String.eqb (cd_Phase r) "offloading")
      (Errorf "hydrate and purge previous cold generation before offloading again");;
    o ← try (offloadCold name);
    match o with
    | inl _ => r ← get_reg; mret (status_of r)
    | inr e => try (recoverLocalCold name);; throw e
    end
  else if String.eqb (cq_Action q) "hydrate" then
    hydrateCold name;; r ← get_reg; mret (status_of r)
  else if String.eqb (cq_Action q) "purge" || String.eqb (cq_Action q) "delete" then
    (if String.eqb (cq_Action q) "purge" then
       o ← try (recoverLocalCold name);
       require (match o with inl _ => true | inr _ => false end)
         (Errorf "hydrate the cold disk before purging its remote copy")
     else mret tt);;
    purgeCold name;;
    mret hot_status
  else mret (status_of r).

Definition known_action (a : string) : bool :=
  bool_decide (a ∈ ["offload"; "hydrate"; "purge"; "delete"; "fence-delete"]).

Definition coldDiskLocked (q : ColdRequest) : M (World R) ColdStatus :=
  let name := cq_Name q in
  step;; (* ValidatePath *)
  r ← on_host (readCold cfg name (cq_InstanceID q));
  if String.eqb (cq_Action q) "status" then
    mret (match r with Some r => status_of r | None => hot_status end)
  else
    require (known_action (cq_Action q)) (Errorf "unknown cold disk action");;
    for_each (legacy_stage name) ["send"; "receive"; "candidate"];;
    require (negb (String.eqb (cq_Action q) "fence-delete" && bool_decide (is_Some r)))
      (Errorf "cleanup proof refuses retained cold disk state; hydrate and purge first");;
    admission q;;
    prepare_stage name;;
    (match r with Some r => update_reg (λ _, r) | None => mret tt end);;
    (if offloading q &&
        match r with
        | None => true
        | Some r => String.eqb (cd_Phase r) "hot" || String.eqb (cd_Phase r) "purged"
        end
     then expected_disk q else mret tt);;
    '(present, (base, baseName)) ← settle q r;
    if (present : bool) then act q else
    marker ← on_host (query (λ h, inl (bool_decide (is_Some (markers h !! coldMarker cfg name)))));
    require (negb (marker : bool))
      (Errorf "cold marker without authoritative runner journal; operator inspection required");;
    if negb (offloading q) then rmdir (coldStageDir cfg name);; mret hot_status else
    new_generation q base baseName;;
    act q.

(** The handler, under the name's lock. *)
Definition handleColdDisk (q : ColdRequest) : M (World R) ColdStatus :=
  require (validName (cq_Name q) && canonicalColdUUID (cq_InstanceID q))
    (Errorf "valid instance name and UUID required");;
  if String.eqb (cq_Action q) "status" then
    r ← on_host (readCold cfg (cq_Name q) (cq_InstanceID q));
    mret (match r with Some r => status_of r | None => hot_status end)
  else
    on_host (lockName cfg (cq_Name q));;
    coldDiskLocked q.
End cold.
