(* ===== verification/ColdInv.v ===== *)
(** * What the journal of a cold disk means

    The laws the runner expects of the cold store ([coldRemoteLaws]) and the
    invariant of one incarnation: while it is not being deleted, the bytes the guest
    wrote last are on the local disk, or in a restore candidate, or in the object
    the journal names; and every object the runner ever sent is the one the journal
    names, or deleted for ever. *)
From S2P Require Import Prelude GoStrings Paths RunnerState Runtime Receipts ReceiptStop Encodings.
From S2P Require Import RunnerTrace ColdDisk.

#[local] Open Scope Z_scope.

(** ** The cold store, as the runner sees it *)

(** [has x o]: the object is published with exactly this metadata, and its disk has
    the size and the digest it says; [present x id]: something is published under
    the ID; [gone x id]: the ID is fenced against any publication. *)
Class coldRemoteView (R : Type) := {
  remote_ok : R → Prop;
  has : R → Object → Prop;
  present : R → string → Prop;
  gone : R → string → Prop;
}.

(** A change that publishes only [puts] and deletes only [dels]. *)
Record remote_step {R} `{!coldRemoteView R} (puts dels : string → Prop) (x x' : R) : Prop := {
  rst_ok : remote_ok x';
  rst_gone : ∀ i, gone x i → gone x' i;
  rst_fence : ∀ i, gone x' i → gone x i ∨ dels i;
  rst_present : ∀ i, present x' i → present x i ∨ (puts i ∧ ¬ gone x i);
  rst_has : ∀ o, has x o → has x' o ∨ gone x' (ob_ID o);
}.

Definition nothing : string → Prop := λ _, False.

Class coldRemoteLaws (R : Type) `{!coldRemote R, !coldRemoteView R} := {
  law_put : ∀ o path parent (w : World R), remote_ok (w_remote w) →
    wp (Put o path parent) (λ r w', ∃ x', w' = set_remote x' w ∧
      remote_step (eq (ob_ID o)) nothing (w_remote w) x' ∧
      (r = Ok tt → has x' o ∧ ¬ gone x' (ob_ID o))) w;
  law_get : ∀ o dest parent (w : World R), remote_ok (w_remote w) →
    wp (Get o dest parent) (λ r w', ∃ x' dirs ds,
      w' = set_remote x' (set_dirs dirs (put_disks ds w)) ∧
      remote_step nothing nothing (w_remote w) x' ∧
      (∀ p, under dest p = false → ds !! p = w_disks w !! p) ∧
      (∀ p, r = Ok p → ∃ d, ds !! p = Some d ∧
         ob_Size o = Z.of_nat (String.length (dk_content d)) ∧
         ob_SHA256 o = sha256_hex (dk_content d))) w;
  law_delete : ∀ id (w : World R), remote_ok (w_remote w) →
    wp (Delete id) (λ r w', ∃ x', w' = set_remote x' w ∧
      remote_step nothing (eq id) (w_remote w) x' ∧
      (r = Ok tt → gone x' id ∧ ¬ present x' id)) w;
}.

(** Equality up to SHA-256. *)
Definition same_bytes (c t : string) : Prop :=
  String.length c = String.length t ∧ sha256_hex c = sha256_hex t.
Definition matches (o : Object) (t : string) : Prop :=
  ob_Size o = Z.of_nat (String.length t) ∧ ob_SHA256 o = sha256_hex t.

(** The stages lie apart from the instance's disk. *)
Record layout_ok (cfg : ServerConfig) (name : string) : Prop := {
  lo_send : under (stage_path cfg name "send") (disk_path cfg name) = false;
  lo_receive : under (stage_path cfg name "receive") (disk_path cfg name) = false;
  lo_candidate : under (stage_path cfg name "candidate") (disk_path cfg name) = false;
  lo_send_candidate :
    under (stage_path cfg name "send") (stage_path cfg name "candidate") = false;
  lo_receive_candidate :
    under (stage_path cfg name "receive") (stage_path cfg name "candidate") = false;
}.

Section inv.
Context {R : Type} `{!coldRemote R, !coldRemoteView R}.
Context (cfg : ServerConfig) (name iid : string).
Implicit Types w : World R.

#[local] Abbreviation D := (disk_path cfg name).
#[local] Abbreviation C := (stage_path cfg name "candidate").

Definition journal w : option (json coldDiskRecord) :=
  colds (w_host w) !! receiptDir cfg name.
Definition w_fenced w : Prop := fenced cfg name iid (w_host w).

(** ** The journal's claims *)

Definition good_disk (p : string) (id : SubvolumeIdentity) w : Prop :=
  ∃ d, w_disks w !! p = Some d ∧ dk_id d = id ∧ same_bytes (dk_content d) (w_truth w).
Definition backed (r : coldDiskRecord) w : Prop :=
  cd_Remote r = true ∧ has (w_remote w) (cd_Object r) ∧
  ¬ gone (w_remote w) (ob_ID (cd_Object r)) ∧ matches (cd_Object r) (w_truth w).
Definition no_candidate (r : coldDiskRecord) : Prop := sv_UUID (cd_Candidate r) = "".

(** Where the authoritative bytes are, phase by phase. *)
Inductive safe (r : coldDiskRecord) w : Prop :=
  | safe_hot : cd_Phase r = "hot" → good_disk D (cd_Disk r) w → safe r w
  | safe_purged : cd_Phase r = "purged" → good_disk D (cd_Disk r) w → safe r w
  | safe_offloading :
      cd_Phase r = "offloading" → no_candidate r → good_disk D (cd_Disk r) w → safe r w
  | safe_evicting :
      cd_Phase r = "evicting" → no_candidate r → backed r w →
      good_disk D (cd_Disk r) w ∨ w_disks w !! D = None → safe r w
  | safe_cold :
      cd_Phase r = "cold" → no_candidate r → backed r w → w_disks w !! D = None → safe r w
  | safe_restoring :
      cd_Phase r = "restoring" → backed r w → w_disks w !! D = None →
      no_candidate r ∨ good_disk C (cd_Candidate r) w → safe r w
  | safe_restored :
      cd_Phase r = "restoring" → backed r w → ¬ no_candidate r →
      good_disk D (cd_Candidate r) w → safe r w.

Definition rec_ok (r : coldDiskRecord) : Prop :=
  cd_Version r = 1 ∧ cd_InstanceID r = iid ∧ sv_UUID (cd_Disk r) ≠ "".

(** Every object ever sent is this record's, or deleted. *)
Definition settled w (i : string) : Prop := gone (w_remote w) i ∧ ¬ present (w_remote w) i.
Definition tracks (r : coldDiskRecord) w : Prop :=
  ∀ i, i ∈ w_tried w → settled w i ∨ (cd_Remote r = true ∧ ob_ID (cd_Object r) = i).

Definition data_ok w : Prop :=
  w_fenced w ∨
  match journal w with
  | None => ∃ d, w_disks w !! D = Some d ∧ same_bytes (dk_content d) (w_truth w)
  | Some None => False
  | Some (Some r) => rec_ok r ∧ safe r w
  end.
Definition journal_tracks w : Prop :=
  match journal w with
  | Some (Some r) => tracks r w ∧ (cd_Phase r = "purged" → cd_Remote r = false)
  | _ => ∀ i, i ∈ w_tried w → settled w i
  end.

Record inv w : Prop := {
  inv_remote : remote_ok (w_remote w);
  inv_data : data_ok w;
  inv_tracks : journal_tracks w;
}.

(** The record in memory may be published. *)
Definition publishable (r : coldDiskRecord) w : Prop :=
  (w_fenced w ∨ (rec_ok r ∧ safe r w)) ∧ tracks r w ∧
  (cd_Phase r = "purged" → cd_Remote r = false).

(** The invariant of a running call. *)
Definition running w : Prop := inv w ∧ rec_ok (w_reg w) ∧ tracks (w_reg w) w.

(** ** Frames *)

(** Nothing the journal speaks of changed; [view] leaves the candidate open. *)
Record view w w' : Prop := {
  vw_disk : w_disks w' !! D = w_disks w !! D;
  vw_remote : w_remote w' = w_remote w;
  vw_tried : w_tried w' = w_tried w;
  vw_truth : w_truth w' = w_truth w;
  vw_fence : w_fenced w → w_fenced w';
}.
Record calm w w' : Prop := {
  cm_view : view w w';
  cm_candidate : w_disks w' !! C = w_disks w !! C;
  cm_journal : journal w' = journal w;
  cm_reg : w_reg w' = w_reg w;
}.

#[export] Instance view_preorder : PreOrder view.
Proof.
  split; [by intros w; split|]. intros w1 w2 w3 [] []. split; [congruence..|auto].
Qed.
#[export] Instance calm_preorder : PreOrder calm.
Proof.
  split; [by intros w; split|]. intros w1 w2 w3 [] []. split; [by transitivity w2|congruence..].
Qed.

Lemma good_view id w w' : view w w' → good_disk D id w → good_disk D id w'.
Proof. intros [Hd _ _ Ht _] (d & H). exists d. by rewrite Hd, Ht. Qed.
Lemma backed_view r w w' : view w w' → backed r w → backed r w'.
Proof. intros [_ Hr _ Ht _] H. unfold backed. by rewrite Hr, Ht. Qed.
Lemma tracks_view r w w' : view w w' → tracks r w → tracks r w'.
Proof. intros [_ Hr Hi _ _] H i. unfold settled. rewrite Hr, Hi. apply H. Qed.

(** A record that does not rest on the candidate. *)
Definition independent (r : coldDiskRecord) : Prop := cd_Phase r = "restoring" → no_candidate r.

Lemma safe_view r w w' : view w w' → independent r → safe r w → safe r w'.
Proof.
  intros Hv Hi Hs. pose proof (λ id, good_view id w w' Hv) as Hg.
  pose proof (backed_view r w w' Hv) as Hb. pose proof (vw_disk _ _ Hv) as Hd.
  destruct Hs.
  - apply safe_hot; auto.
  - apply safe_purged; auto.
  - apply safe_offloading; auto.
  - apply safe_evicting; auto. rewrite Hd. naive_solver.
  - apply safe_cold; auto. by rewrite Hd.
  - apply safe_restoring; auto. by rewrite Hd.
  - apply safe_restored; auto.
Qed.

Lemma safe_calm r w w' :
  view w w' → w_disks w' !! C = w_disks w !! C → safe r w → safe r w'.
Proof.
  intros Hv Hc Hs. destruct Hs as [| | | | |Hp Hb Hd [Hn|Hg]|];
    try (apply (safe_view _ w); [done| |]; [intros Hp'; congruence|]).
  - by apply safe_hot.
  - by apply safe_purged.
  - by apply safe_offloading.
  - by apply safe_evicting.
  - by apply safe_cold.
  - apply (safe_view _ w); [done|by intros _|]. apply safe_restoring; auto.
  - apply safe_restoring; [done|by apply (backed_view r w)|by rewrite (vw_disk _ _ Hv)|].
    right. destruct Hg as (d & Hg). exists d. by rewrite Hc, (vw_truth _ _ Hv).
  - apply safe_restored; [done|by apply (backed_view r w)|done|by apply (good_view _ w)].
Qed.

Lemma inv_view w w' :
  view w w' → journal w' = journal w →
  (∀ r, journal w = Some (Some r) → safe r w → safe r w') → inv w → inv w'.
Proof.
  intros Hv Hj Hsafe [Hr Hd Ht]. split.
  - by rewrite (vw_remote _ _ Hv).
  - destruct Hd as [Hf|Hd]; [left; by apply (vw_fence _ _ Hv)|]. right. rewrite Hj.
    destruct (journal w) as [[r|]|] eqn:Ej; [|done|].
    + destruct Hd as [Hrec Hs]. split; [done|by apply Hsafe].
    + destruct Hd as (d & Hd & Hb). exists d. by rewrite (vw_disk _ _ Hv), (vw_truth _ _ Hv).
  - unfold journal_tracks. rewrite Hj. unfold journal_tracks in Ht.
    destruct (journal w) as [[r|]|].
    + destruct Ht. split; [by apply (tracks_view r w)|done].
    + intros i. unfold settled. rewrite (vw_tried _ _ Hv), (vw_remote _ _ Hv). apply Ht.
    + intros i. unfold settled. rewrite (vw_tried _ _ Hv), (vw_remote _ _ Hv). apply Ht.
Qed.

Lemma inv_calm w w' : calm w w' → inv w → inv w'.
Proof.
  intros [Hv Hc Hj _]. apply inv_view; [done..|]. intros r _. by apply safe_calm.
Qed.

Lemma running_calm w w' : calm w w' → running w → running w'.
Proof.
  intros Hc (Hi & Hr & Ht). pose proof (cm_reg _ _ Hc) as Hreg. unfold running. rewrite Hreg.
  split; [by apply (inv_calm w)|]. split; [done|]. apply (tracks_view _ w); [apply Hc|done].
Qed.

(** In memory, only the record in the register may change freely. *)
Lemma running_reg r w : inv w → rec_ok r → tracks r w → running (set_reg r w).
Proof.
  intros Hi Hr Ht. split; [|done]. apply (inv_view w); [by split|done| |done].
  intros r0 _. apply safe_calm; [by split|done].
Qed.

(** *** The store changes *)

Definition ours w (i : string) : Prop :=
  i ∈ w_tried w ∨ ∃ r, journal w = Some (Some r) ∧ ob_ID (cd_Object r) = i.

Lemma settled_step puts dels w x' i :
  remote_step puts dels (w_remote w) x' → settled w i → settled (set_remote x' w) i.
Proof.
  intros [_ Hg _ Hp _] [H1 H2]. split; [by apply Hg|]. intros Hx. by destruct (Hp i Hx) as [|[]].
Qed.

Lemma tracks_step puts dels r w x' :
  remote_step puts dels (w_remote w) x' → tracks r w → tracks r (set_remote x' w).
Proof.
  intros Hs Ht i Hi. destruct (Ht i Hi) as [H|H]; [left|by right]. by eapply settled_step.
Qed.

Lemma backed_step puts dels r w x' :
  remote_step puts dels (w_remote w) x' → ¬ dels (ob_ID (cd_Object r)) →
  backed r w → backed r (set_remote x' w).
Proof.
  intros [_ _ Hf _ Hh] Hn (Hr & Ho & Hg & Hm). split; [done|].
  assert (Hg' : ¬ gone x' (ob_ID (cd_Object r))) by (intros H; by destruct (Hf _ H)).
  split; [|done]. by destruct (Hh _ Ho).
Qed.

Lemma safe_step puts dels r w x' :
  remote_step puts dels (w_remote w) x' → ¬ dels (ob_ID (cd_Object r)) →
  safe r w → safe r (set_remote x' w).
Proof.
  intros Hs Hn. pose proof (backed_step puts dels r w x' Hs Hn) as Hb.
  destruct 1; [by apply safe_hot|by apply safe_purged|by apply safe_offloading
    |apply safe_evicting; auto|apply safe_cold; auto|apply safe_restoring; auto
    |apply safe_restored; auto].
Qed.

(** Unless it deletes the object the data rests on, the store may change. *)
Lemma inv_step puts dels w x' :
  remote_step puts dels (w_remote w) x' →
  (w_fenced w ∨ ∀ r, journal w = Some (Some r) →
     ¬ dels (ob_ID (cd_Object r)) ∨ good_disk D (cd_Disk r) w ∧ cd_Phase r = "hot") →
  inv w → inv (set_remote x' w).
Proof.
  intros Hs Hn [Hr Hd Ht]. split; [apply Hs| |].
  - destruct Hd as [Hf|Hd]; [by left|]. destruct Hn as [Hf|Hn]; [by left|]. right.
    change (journal (set_remote x' w)) with (journal w).
    destruct (journal w) as [[r|]|] eqn:Ej; [|done|done]. destruct Hd as [Hrec Hsafe].
    split; [done|]. destruct (Hn r eq_refl) as [Hne|[Hg Hp]]; [by eapply safe_step|].
    by apply safe_hot.
  - unfold journal_tracks in *. change (journal (set_remote x' w)) with (journal w).
    destruct (journal w) as [[r|]|].
    + destruct Ht. split; [by eapply tracks_step|done].
    + intros i Hi. eapply settled_step; [done|by apply Ht].
    + intros i Hi. eapply settled_step; [done|by apply Ht].
Qed.

(** ** What the invariant says of the local disk *)

(** Whatever its phase, a local disk of a journaled incarnation is up to date. *)
Lemma local_bytes w d :
  inv w → w_disks w !! D = Some d → w_fenced w ∨ same_bytes (dk_content d) (w_truth w).
Proof.
  intros [_ [Hf|Hd] _] Hl; [by left|right].
  destruct (journal w) as [[r|]|]; [|done|].
  - destruct Hd as [_ Hs]. destruct Hs as [_ H|_ H|_ _ H|_ _ _ [H|H]|_ _ _ H|_ _ H _|_ _ _ H];
      try destruct H as (d' & Hd' & _ & Hb); congruence.
  - destruct Hd as (d' & Hd' & Hb). congruence.
Qed.

Lemma tracks_none r r' w : cd_Remote r = false → tracks r w → tracks r' w.
Proof. intros Hr Ht i Hi. destruct (Ht i Hi) as [?|[? _]]; [by left|congruence]. Qed.
End inv.
