(* ===== verification/ColdOps.v ===== *)
(** * What each step of a transfer does to the invariant

    Every function of ColdDisk.v below the handler keeps [running], whatever fails
    and wherever the process dies; the functions that publish a journal say which
    one. *)
From S2P Require Import Prelude GoStrings Paths RunnerState Runtime Receipts ReceiptStop Encodings.
From S2P Require Import RunnerTrace ColdDisk ColdInv.

#[local] Open Scope Z_scope.

Section ops.
Context {R : Type} `{!coldRemote R, !coldRemoteView R, !coldRemoteLaws R}.
Context (cfg : ServerConfig) (name iid : string) (Hlayout : layout_ok cfg name).
Implicit Types w : World R.

#[local] Abbreviation D := (disk_path cfg name).
#[local] Abbreviation C := (stage_path cfg name "candidate").
#[local] Abbreviation calm := (calm (R:=R) cfg name iid).
#[local] Abbreviation view := (view (R:=R) cfg name iid).
#[local] Abbreviation running := (running cfg name iid).
#[local] Abbreviation inv := (inv cfg name iid).
#[local] Abbreviation journal := (journal cfg name).
#[local] Abbreviation w_fenced := (w_fenced cfg name iid).

(** ** Calls of the host below the disks *)

Definition host_frame : relation Host := λ h h',
  disks (machine h') = disks (machine h) ∧ colds h' = colds h ∧
  (fenced cfg name iid h → fenced cfg name iid h').
#[export] Instance host_frame_preorder : PreOrder host_frame.
Proof.
  split; [by intros h|]. intros h1 h2 h3 (?&?&?) (?&?&?). repeat split; [congruence..|auto].
Qed.

Lemma fence_kept_put fname f h :
  fenced cfg name iid h → fenced cfg name iid (put_file cfg name fname f h).
Proof.
  unfold fenced. rewrite !lookup_at_path, at_path_put. by case_bool_decide.
Qed.
Lemma fence_kept_mkdir h : fenced cfg name iid h → fenced cfg name iid (mkdir_receipts cfg name h).
Proof.
  unfold fenced, lookup_file, mkdir_receipts. destruct (dir_of cfg name h) eqn:E; [by rewrite E|].
  by intros [? ?].
Qed.

Ltac solve_frame :=
  repeat first [within_step | apply within_query; apply _
    | apply within_env; [apply _|intros ?; cbn; try (by split; [|split])] ].

Lemma frame_readRAM : within host_frame (readRAMState cfg name).
Proof. unfold readRAMState, query_machine. solve_frame. Qed.
Lemma frame_discardRAM : within host_frame (discardRAMState cfg name).
Proof. unfold discardRAMState, query_machine, env_machine, syscall. solve_frame. Qed.
Lemma frame_fence : within host_frame (coldDeletionFence cfg name iid).
Proof. unfold coldDeletionFence. solve_frame. Qed.
Lemma frame_lockName : within host_frame (lockName cfg name).
Proof.
  unfold lockName, syscall. solve_frame.
  - split; [|split; [|apply fence_kept_mkdir]]; unfold mkdir_receipts; by case_match.
  - unfold touch_lock. case_match; [done|]. split; [|split; [|apply fence_kept_put]]; done.
Qed.
Lemma frame_put f : within host_frame
  (env (λ h, (inl tt, put_file cfg name (fence_file iid) f h))).
Proof.
  apply within_env; [apply _|]. intros h. split; [|split; [|apply fence_kept_put]]; done.
Qed.
Lemma frame_read_entry e : within host_frame (read_entry cfg name e).
Proof. unfold read_entry, readReceipt. solve_frame. Qed.
Lemma frame_activeReceipt : within host_frame (activeReceipt cfg name).
Proof.
  unfold activeReceipt. apply within_bind; [apply _|by apply within_query, _|]. intros es.
  generalize (None : option startReceipt).
  induction es as [|e es IH]; intros a; simpl; [apply within_ret, _|].
  repeat first [apply IH | apply frame_read_entry | within_step].
Qed.
Lemma frame_storageIdle : within host_frame (storageIdleLocked cfg name).
Proof.
  unfold storageIdleLocked, nameVacantLocked, noLiveRuntimeLocked, listRunningVMs, syscall,
    query_machine, lstat_jail, lstat_socket.
  apply within_bind; [apply _| |]; [|intros _; solve_frame].
  apply within_bind; [apply _|apply frame_activeReceipt|]. intros a. solve_frame.
Qed.

(** *** The host under a transfer *)

Lemma wp_on_host {A} (m : M Host A) (Q : outcome A → World R → Prop) w :
  wp m (λ o h', Q o (set_host h' w)) (w_host w) → wp (on_host m) Q w.
Proof.
  intros H fs. specialize (H fs). unfold on_host. by destruct (m fs (w_host w)) as [[o h'] fs'].
Qed.

Lemma calm_host h w : host_frame (w_host w) h → calm w (set_host h w).
Proof.
  intros (Hd & Hc & Hf).
  split; [split|..]; unfold w_disks, ColdInv.journal, ColdInv.w_fenced; cbn; congruence || auto.
Qed.

Lemma calm_on_host {A} (m : M Host A) : within host_frame m → within calm (on_host m).
Proof.
  intros Hm w. apply wp_on_host. eapply wp_mono; [apply Hm|]. intros o h'. apply calm_host.
Qed.

Lemma calm_step : within calm step.
Proof. apply within_query, _. Qed.

(** [readCold] finds the journal. *)
Lemma readCold_spec w :
  wp (on_host (readCold cfg name iid)) (λ o w', w' = w ∧
    match o with
    | Ok None => journal w = None
    | Ok (Some r) => journal w = Some (Some r) ∧ rec_ok iid r
    | _ => True
    end) w.
Proof.
  apply wp_on_host. unfold readCold, syscall.
  assert (Hw : set_host (w_host w) w = w) by (by destruct w).
  apply wp_bind, wp_query; cbn; rewrite ?Hw; [done..|].
  apply wp_bind, wp_query; cbn; rewrite ?Hw; [done..|].
  destruct (colds (w_host w) !! receiptDir cfg name) as [[r|]|] eqn:E.
  - apply wp_bind, wp_lift; cbn. apply wp_bind, wp_lift. unfold check_cold.
    destruct (_ || _ || _)%bool eqn:Ec; cbn; [by rewrite Hw|].
    case_bool_decide as Hp; cbn; [|by rewrite Hw]. apply wp_ret. rewrite Hw.
    apply orb_false_iff in Ec as [[Ev Ei]%orb_false_iff Eu].
    apply negb_false_iff, Z.eqb_eq in Ev. apply negb_false_iff, String.eqb_eq in Ei.
    apply String.eqb_neq in Eu. done.
  - apply wp_bind, wp_lift; cbn. by rewrite Hw.
  - apply wp_ret. by rewrite Hw.
Qed.

Lemma ValidateDisk_spec p w :
  wp (ValidateDisk p) (λ o w', w' = w ∧ ∀ id, o = Ok id →
    sv_UUID id ≠ "" ∧ ∃ d, w_disks w !! p = Some d ∧ dk_id d = id) w.
Proof.
  apply wp_on_host. unfold ValidateDiskSubvolume, query_machine.
  assert (Hw : set_host (w_host w) w = w) by (by destruct w).
  apply wp_query; rewrite Hw; [done..|]. split; [done|]. intros id. unfold w_disks.
  destruct (disks (machine (w_host w)) !! p) as [d|]; [|done].
  destruct (String.eqb _ _) eqn:E; [done|]. destruct (nonempty _); [|done].
  intros [= <-]. apply String.eqb_neq in E. eauto.
Qed.

(** ** The record in memory *)

Lemma wp_get_reg {A} (k : coldDiskRecord → M (World R) A) Q w :
  wp (k (w_reg w)) Q w → wp (get_reg ≫= k) Q w.
Proof. intros H fs. apply H. Qed.
Lemma wp_update_reg {A} f (k : unit → M (World R) A) Q w :
  wp (k tt) Q (set_reg (f (w_reg w)) w) → wp (update_reg f ≫= k) Q w.
Proof. intros H fs. apply H. Qed.

(** ** Stages *)

Lemma lookup_without p q w :
  under p q = false → w_disks (without p w) !! q = w_disks w !! q.
Proof.
  intros Hq. unfold w_disks, without. cbn. apply option_eq. intros d.
  rewrite map_lookup_filter_Some. naive_solver.
Qed.

(** Everything but the candidate stays; so does the record in memory. *)
Record swept w w' : Prop := {
  sw_view : view w w';
  sw_journal : journal w' = journal w;
  sw_reg : w_reg w' = w_reg w;
}.
#[export] Instance swept_preorder : PreOrder swept.
Proof.
  split; [by intros w; split|]. intros w1 w2 w3 [] []. split; [by transitivity w2|congruence..].
Qed.

Lemma swept_RemoveTree p : under p D = false → within swept (RemoveTree p).
Proof.
  intros Hp. unfold RemoveTree. apply within_bind; [apply _|by apply within_query, _|]. intros _.
  apply within_bind; [apply _| |intros _; by apply within_query, _].
  apply within_env; [apply _|]. intros w. split; [split|..]; try done. by apply lookup_without.
Qed.
Lemma swept_cleanColdStages : within swept (cleanColdStages cfg name).
Proof.
  unfold cleanColdStages. apply within_bind; [apply _| |intros _; by apply within_query, _].
  destruct Hlayout as [Hs Hr Hc _ _]. cbn.
  repeat (apply within_bind; [apply _|by apply swept_RemoveTree|intros _]). apply within_ret, _.
Qed.
Lemma calm_RemoveTree p : under p D = false → under p C = false → within calm (RemoveTree p).
Proof.
  intros Hd Hc. unfold RemoveTree. apply within_bind; [apply _|by apply within_query, _|]. intros _.
  apply within_bind; [apply _| |intros _; by apply within_query, _].
  apply within_env; [apply _|]. intros w.
  split; [split|..]; try done; by apply lookup_without.
Qed.

(** Sweeping is harmless unless the journal rests on the candidate. *)
Lemma inv_swept w w' :
  swept w w' → w_fenced w ∨ (∀ r, journal w = Some (Some r) → independent r) →
  inv w → inv w'.
Proof.
  intros [Hv Hj _] Hi Hw. destruct Hi as [Hf|Hi].
  - destruct Hw as [Hr Hd Ht]. split; [by rewrite (vw_remote _ _ _ _ _ Hv)|left; by apply Hv|].
    unfold journal_tracks in *. rewrite Hj. destruct Hv as [_ Hvr Hvt _ _].
    unfold tracks, settled in *. by rewrite Hvr, Hvt.
  - apply (inv_view cfg name iid w); [done..| |done]. intros r Hr. apply (safe_view cfg name iid _ w); [done|by apply Hi].
Qed.
Lemma running_swept w w' :
  swept w w' → w_fenced w ∨ (∀ r, journal w = Some (Some r) → independent r) →
  running w → running w'.
Proof.
  intros Hs Hi (Hw & Hr & Ht). split; [by apply (inv_swept w)|]. rewrite (sw_reg _ _ Hs).
  split; [done|]. apply (tracks_view cfg name iid _ w); [apply Hs|done].
Qed.

(** ** Writing the journal *)

Lemma atomicColdJSON_post (I : World R → Prop) f w :
  I w → I (f w) → wp (atomicColdJSON f) (post I (λ _ w', w' = f w)) w.
Proof.
  intros HI HI'. unfold atomicColdJSON, step.
  do 2 (eapply post_bind; [by apply post_query|]; intros _ ? _ [-> _]).
  eapply post_bind; [by apply post_env|]. intros _ ? _ [_ ->].
  eapply post_mono; [by apply (post_query I)|done|]. by intros _ ? _ [-> _].
Qed.

Record saved w w' : Prop := {
  sv_view : view w w';
  sv_candidate : w_disks w' !! C = w_disks w !! C;
  sv_journal : journal w' = Some (Some (w_reg w));
  sv_reg : w_reg w' = w_reg w;
}.

Definition sound_reg w : Prop :=
  (w_fenced w ∨ safe cfg name (w_reg w) w) ∧ (cd_Phase (w_reg w) = "purged" → cd_Remote (w_reg w) = false).

Lemma saved_state w : saved w (put_state cfg name (w_reg w) w).
Proof.
  split; [by split|done| |done]. unfold ColdInv.journal. cbn. by rewrite lookup_insert_eq.
Qed.

Lemma running_saved w w' : saved w w' → sound_reg w → running w → running w'.
Proof.
  intros [Hv Hc Hj Hr] [Hs Hp] ([Hok Hd Ht] & Hrec & Htr). unfold ColdInv.running. rewrite Hr.
  assert (Htr' : tracks (w_reg w) w') by (by apply (tracks_view cfg name iid _ w)).
  split; [|done]. split; [by rewrite (vw_remote _ _ _ _ _ Hv)| |].
  - destruct Hs as [Hf|Hs]; [left; by apply Hv|right]. rewrite Hj. split; [done|].
    by apply (safe_calm cfg name iid _ w).
  - unfold journal_tracks. by rewrite Hj.
Qed.

Lemma writeCold_post w :
  running w → sound_reg w → wp (writeCold cfg name) (post running (λ _ w', saved w w')) w.
Proof.
  intros Hw Hs. unfold writeCold.
  pose proof (saved_state w) as Hst. pose proof (running_saved _ _ Hst Hs Hw) as Hw'.
  apply wp_get_reg.
  eapply post_bind; [by apply atomicColdJSON_post|]. intros _ ? _ ->.
  eapply post_mono; [apply (atomicColdJSON_post running); [done|]|done|].
  - apply (running_calm cfg name iid (put_state cfg name (w_reg w) w)); [|done].
    by split; [split|..].
  - intros _ ? _ ->. destruct Hst as [Hv Hc Hj Hr]. split; [|done..]. etransitivity; [exact Hv|].
    by split.
Qed.

(** ** Subvolumes *)

Context (new_identity : World R → string → SubvolumeIdentity).

Lemma Snapshot_post (I : World R → Prop) src dst ro w :
  I w → (∀ d, w_disks w !! src = Some d → w_disks w !! dst = None →
              I (put_disks (<[dst := snapshot_of (new_identity w dst) ro d]> (w_disks w)) w)) →
  wp (SnapshotSubvolume new_identity src dst ro) (post I (λ _ w', ∃ d,
    w_disks w !! src = Some d ∧ w_disks w !! dst = None ∧
    w' = put_disks (<[dst := snapshot_of (new_identity w dst) ro d]> (w_disks w)) w)) w.
Proof.
  intros HI HI'. unfold SnapshotSubvolume, step.
  eapply post_bind; [apply (post_env I); [done|]|].
  - destruct (w_disks w !! src) as [d|] eqn:Es, (w_disks w !! dst) eqn:Ed; try done.
    case_bool_decide; [by apply HI'|done].
  - intros a w' Hw' [Hr ->]. eapply post_mono; [by apply (post_query I)|done|].
    intros _ w2 _ [-> _].
    destruct (w_disks w !! src) as [d|] eqn:Es, (w_disks w !! dst) eqn:Ed; try done.
    case_bool_decide; [|done]. eauto.
Qed.

Lemma DeleteSubvolume_post (I : World R → Prop) p id w :
  I w → I (put_disks (delete p (w_disks w)) w) →
  wp (DeleteSubvolume p id)
    (post I (λ _ w', w' = put_disks (delete p (w_disks w)) w)) w.
Proof.
  intros HI HI'. unfold DeleteSubvolume, step.
  eapply post_bind; [by apply (post_query I)|]. intros actual ? _ [-> _].
  eapply post_bind; [by apply (post_require I)|]. intros _ ? _ [-> _].
  eapply post_bind; [by apply (post_env I)|]. intros _ ? _ [_ ->].
  eapply post_mono; [by apply (post_query I)|done|]. by intros _ ? _ [-> _].
Qed.

Definition describes (o : Object) (c : string) : Prop :=
  ob_SHA256 o = sha256_hex c ∧ ob_Size o = Z.of_nat (String.length c).

Lemma ValidateDisk_post (I : World R → Prop) p w :
  I w → wp (ValidateDisk p) (post I (λ id w', w' = w ∧ sv_UUID id ≠ "" ∧
    ∃ d, w_disks w !! p = Some d ∧ dk_id d = id)) w.
Proof.
  intros HI. eapply wp_mono; [apply ValidateDisk_spec|]. intros o w' [-> Ho].
  split; [done|]. intros id Hid. split; [done|]. by apply Ho.
Qed.

Lemma coldObject_post (I : World R → Prop) id p w :
  I w → wp (coldObject id p) (post I (λ o w', w' = w ∧ ob_ID o = id ∧
    ∃ d, w_disks w !! p = Some d ∧ describes o (dk_content d))) w.
Proof.
  intros HI. unfold coldObject, RequireReadonly, step.
  eapply post_bind; [by apply ValidateDisk_post|]. intros u ? _ [-> _].
  eapply post_bind; [by apply (post_query I)|]. intros _ ? _ [-> _].
  eapply post_bind; [by apply (post_query I)|]. intros _ ? _ [-> _].
  eapply post_mono; [by apply (post_query I)|done|]. intros o ? _ [-> Ho]. split; [done|].
  destruct (w_disks w !! p) as [d|]; [|done]. injection Ho as <-. split; [done|]. by exists d.
Qed.

Lemma matches_describes o c t : describes o c → same_bytes c t → matches o t.
Proof. intros [H1 H2] [H3 H4]. unfold matches. split; congruence. Qed.
Lemma same_describes o c t : describes o c → matches o t → same_bytes c t.
Proof. intros [H1 H2] [H3 H4]. split; [lia|congruence]. Qed.

(** ** The store *)

Lemma running_step puts dels w x' :
  remote_step puts dels (w_remote w) x' →
  (w_fenced w ∨ ∀ r, journal w = Some (Some r) →
     ¬ dels (ob_ID (cd_Object r)) ∨ good_disk D (cd_Disk r) w ∧ cd_Phase r = "hot") →
  running w → running (set_remote x' w).
Proof.
  intros Hs Hn (Hi & Hr & Ht). split; [by eapply inv_step|]. split; [done|]. by eapply tracks_step.
Qed.

Lemma running_nothing puts w x' :
  remote_step puts nothing (w_remote w) x' → running w → running (set_remote x' w).
Proof. intros Hs. apply (running_step _ _ _ _ Hs). right. intros r _. left. intros []. Qed.

Lemma Put_post o p parent w :
  running w → wp (Put o p parent) (post running (λ _ w', ∃ x', w' = set_remote x' w ∧
    remote_step (eq (ob_ID o)) nothing (w_remote w) x' ∧ has x' o ∧ ¬ gone x' (ob_ID o))) w.
Proof.
  intros Hw. eapply wp_mono; [apply law_put, Hw|]. intros r w' (x' & -> & Hs & Ho).
  split; [by eapply running_nothing|]. intros [] Hr. exists x'. by split; [|split; [|apply Ho]].
Qed.

(** ** Adopting the local disk *)

Lemma sound_hot r w :
  w_fenced w ∨ good_disk D (cd_Disk r) w → cd_Phase r = "hot" → w_reg w = r → sound_reg w.
Proof.
  intros Hd Hp <-. split; [|by rewrite Hp]. destruct Hd; [by left|right]. by apply safe_hot.
Qed.

Definition hot w : Prop :=
  journal w = Some (Some (w_reg w)) ∧ cd_Phase (w_reg w) = "hot" ∧
  (w_fenced w ∨ good_disk D (cd_Disk (w_reg w)) w).

Lemma hot_swept w w' : hot w → swept w w' → hot w'.
Proof.
  intros (Hj & Hp & Hd) [Hv Hj' Hr]. unfold hot. rewrite Hj', Hr. split_and!; [done..|].
  destruct Hd as [Hf|Hg]; [left; by apply Hv|right; by apply (good_view cfg name iid _ w)].
Qed.
Lemma hot_independent w r : hot w → journal w = Some (Some r) → independent r.
Proof. intros (Hj & Hp & _) Hr Hp'. congruence. Qed.

Lemma cleanColdStages_post (P : World R → Prop) w :
  running w → w_fenced w ∨ (∀ r, journal w = Some (Some r) → independent r) →
  (∀ w', swept w w' → P w') →
  wp (cleanColdStages cfg name) (post running (λ _ w', P w')) w.
Proof.
  intros Hw Hi HP. eapply post_mono; [apply post_within; [apply swept_cleanColdStages|]|done|].
  - intros w' Hs. by apply (running_swept w).
  - intros a w' _ Hs. by apply HP.
Qed.

Lemma recoverLocalCold_post w :
  running w → wp (recoverLocalCold cfg name) (post running (λ _ w', hot w')) w.
Proof.
  intros Hw. unfold recoverLocalCold.
  eapply post_bind; [by apply ValidateDisk_post|]. intros id ? _ (-> & Hu & d & Hd & Hid).
  apply wp_get_reg. eapply post_bind; [by apply post_require|]. intros _ ? _ [-> _].
  apply wp_update_reg. set (r := with_phase "hot" (with_disk id (w_reg w))).
  assert (Hr : running (set_reg r w)).
  { destruct Hw as (Hi & (Hv & Hiid & _) & Ht). by apply running_reg. }
  assert (Hs : w_fenced (set_reg r w) ∨ good_disk D id (set_reg r w)).
  { destruct (local_bytes cfg name iid w d (proj1 Hw) Hd) as [?|?]; [by left|right].
    by exists d. }
  eapply post_bind; [apply writeCold_post; [done|by apply (sound_hot r)]|].
  intros _ w1 Hw1 [Hv Hc Hj Hreg].
  assert (Hh : hot w1).
  { unfold hot. rewrite Hreg, Hj. split_and!; [done..|].
    destruct Hs as [Hf|Hg]; [left; by apply Hv|right; by apply (good_view cfg name iid _ _ _ Hv)]. }
  apply cleanColdStages_post; [done| |].
  - right. intros r0. by apply hot_independent.
  - intros w' Hsw. by apply (hot_swept w1).
Qed.
End ops.
