(* ===== verification/ColdMoves.v ===== *)
(** * Offload, hydrate and purge keep the invariant

    The three transfers of a generation, composed from the steps of ColdOps.v, and
    the handler that selects one. *)
From S2P Require Import Prelude GoStrings Paths RunnerState Runtime Receipts ReceiptStop Encodings.
From S2P Require Import RunnerTrace ColdDisk ColdInv ColdOps.

#[local] Open Scope Z_scope.

Section moves.
Context {R : Type} `{!coldRemote R, !coldRemoteView R, !coldRemoteLaws R}.
Context (cfg : ServerConfig) (name iid : string) (Hlayout : layout_ok cfg name).
Implicit Types w : World R.

#[local] Abbreviation D := (disk_path cfg name).
#[local] Abbreviation C := (stage_path cfg name "candidate").
#[local] Abbreviation calm := (calm (R:=R) cfg name iid).
#[local] Abbreviation view := (view (R:=R) cfg name iid).
#[local] Abbreviation running := (running cfg name iid).
#[local] Abbreviation inv := (inv cfg name iid).
#[local] Abbreviation journal := (journal cfg name).
#[local] Abbreviation w_fenced := (w_fenced cfg name iid).
#[local] Abbreviation sound_reg := (sound_reg cfg name iid).
#[local] Abbreviation saved := (saved cfg name iid).
#[local] Abbreviation hot := (hot cfg name iid).

(** The record in memory is the journal's. *)
Definition synced w : Prop := journal w = Some (Some (w_reg w)).

Lemma running_sound w :
  running w → synced w → sound_reg w.
Proof.
  intros ([_ Hd Ht] & _) Hj. unfold synced in Hj. split.
  - destruct Hd as [Hf|Hd]; [by left|right]. rewrite Hj in Hd. apply Hd.
  - unfold journal_tracks in Ht. rewrite Hj in Ht. apply Ht.
Qed.

Lemma sound_calm w w' : calm w w' → sound_reg w → sound_reg w'.
Proof.
  intros [Hv Hc Hj Hr] [Hs Hp]. unfold ColdOps.sound_reg. rewrite Hr. split; [|done].
  destruct Hs as [Hf|Hs]; [left; by apply Hv|right]. by apply (safe_calm cfg name iid _ w).
Qed.

(** ** Upload *)

(** What the journal's safety says of a record, apart from the base it was sent
    against. *)
Definition key (r : coldDiskRecord) :=
  (cd_Version r, cd_InstanceID r, cd_Phase r, cd_Remote r, cd_Disk r, cd_Candidate r,
   ob_ID (cd_Object r), ob_SHA256 (cd_Object r), ob_Size (cd_Object r)).

(** Only the base of the record in memory changed. *)
Definition rebased w w' : Prop :=
  ∃ n id, w' = set_reg (with_base n id (w_reg w)) w.
#[export] Instance rebased_preorder : PreOrder rebased.
Proof.
  split.
  - intros w. exists (cd_BaseName (w_reg w)), (cd_Base (w_reg w)). by destruct w as [??? []].
  - intros w1 w2 w3 (n & id & ->) (n' & id' & ->). by exists n', id'.
Qed.

Lemma same_find_base p ns : within (S:=World R) eq (find_base cfg p ns).
Proof.
  induction ns as [|n ns IH]; simpl; [apply within_ret, _|].
  apply within_bind; [apply _| |].
  - apply within_try. intros w. eapply wp_mono; [apply ValidateDisk_spec|]. by intros o w' [-> _].
  - intros [id|]; [|exact IH]. destruct (negb _); [exact IH|].
    apply within_bind; [apply _|apply within_try, within_query, _|].
    intros []; [apply within_ret, _|exact IH].
Qed.
Lemma same_base_usable r : within (S:=World R) eq (base_usable cfg r).
Proof.
  unfold base_usable. apply within_bind; [apply _| |].
  - apply within_try. intros w. eapply wp_mono; [apply ValidateDisk_spec|]. by intros o w' [-> _].
  - intros []; [|apply within_ret, _]. case_bool_decide; [|apply within_ret, _].
    apply within_bind; [apply _|apply within_try, within_query, _|].
    intros ?. apply within_ret, _.
Qed.
Lemma eq_rebased {A} (m : M (World R) A) : within eq m → within rebased m.
Proof. apply within_mono. by intros w w' ->. Qed.

Lemma rebased_update n id : within rebased (update_reg (with_base n id)).
Proof. intros w fs. by exists n, id. Qed.

Lemma rebased_choose_base : within rebased (choose_base cfg).
Proof.
  unfold choose_base.
  apply within_bind; [apply _|by intros w fs; apply reflexivity|]. intros r.
  apply within_bind; [apply _| |intros _].
  { destruct (nonempty _); [|apply within_ret, _].
    apply within_bind; [apply _|apply eq_rebased, same_base_usable|].
    intros []; [apply within_ret, _|apply rebased_update]. }
  apply within_bind; [apply _|by intros w fs; apply reflexivity|]. intros r'.
  destruct (nonempty _); [apply within_ret, _|]. apply within_bind; [apply _| |].
  - apply within_try, eq_rebased. unfold findColdBase.
    apply within_bind; [apply _|apply within_query, _|]. intros ns. apply same_find_base.
  - intros [[n id]|e]; [apply rebased_update|].
    apply within_bind; [apply _|apply rebased_update|]. intros _. apply within_throw, _.
Qed.

(** While nothing of ours is at the store, what the record says of it is free. *)
Lemma running_free r w :
  running w → cd_Remote (w_reg w) = false → rec_ok iid r → running (set_reg r w).
Proof.
  intros (Hi & Hr & Ht) Hrem Hrec. apply running_reg; [done..|]. by eapply tracks_none.
Qed.

(** The base is uploaded; of the generation only its parent is known now. *)
Record based w w' : Prop := {
  bs_disks : w_disks w' = w_disks w;
  bs_truth : w_truth w' = w_truth w;
  bs_tried : w_tried w' = w_tried w;
  bs_host : w_host w' = w_host w;
  bs_key : key (w_reg w') = key (w_reg w);
}.
#[export] Instance based_preorder : PreOrder based.
Proof. split; [by intros w|]. intros w1 w2 w3 [] []. split; congruence. Qed.

Lemma put_base_post w :
  running w → cd_Remote (w_reg w) = false → wp (put_base cfg) (post running (λ _ w', based w w')) w.
Proof.
  intros Hw Hrem. unfold put_base.
  assert (Hrec : ∀ r, key r = key (w_reg w) → rec_ok iid r).
  { intros r Hk. destruct Hw as (_ & (Hv & Hi & Hu) & _). unfold key in Hk. simplify_eq.
    unfold rec_ok. split_and!; congruence. }
  eapply post_bind.
  { apply post_within; [apply rebased_choose_base|]. intros w' (n & id & ->).
    apply running_free; [done..|]. by apply Hrec. }
  intros _ w1 Hw1 (n & id & ->). apply wp_get_reg.
  assert (Hb : based w (set_reg (with_base n id (w_reg w)) w)) by done.
  destruct (negb _); [by apply post_ret|].
  eapply post_bind; [by apply coldObject_post|]. intros base ? _ (-> & _).
  eapply post_bind; [by apply (Put_post cfg name iid)|].
  intros _ ? Hw2 (x' & -> & _). apply wp_update_reg. apply post_ret; [|done].
  apply running_free; [done..|]. by apply Hrec.
Qed.

Lemma under_refl p : under p p = true.
Proof. unfold under. by rewrite String.eqb_refl. Qed.
Lemma under_ne p q : under p q = false → q ≠ p.
Proof. intros Hu ->. by rewrite under_refl in Hu. Qed.

(** Another phase, while the record names the same object. *)
Lemma running_phase p w : running w → running (set_reg (with_phase p (w_reg w)) w).
Proof. intros (Hi & (Hv & Hid & Hu) & Ht). by apply running_reg. Qed.

Lemma safe_tried r l w : safe cfg name r w → safe cfg name r (set_tried l w).
Proof.
  destruct 1; [by apply safe_hot|by apply safe_purged|by apply safe_offloading
    |by apply safe_evicting|by apply safe_cold|by apply safe_restoring|by apply safe_restored].
Qed.

Lemma tracks_tried r w :
  tracks r w → cd_Remote r = true → tracks r (set_tried (ob_ID (cd_Object r) :: w_tried w) w).
Proof. intros Ht Hr i [->|Hi]%elem_of_cons; [by right|by apply Ht]. Qed.

Lemma put_generation_post send parent w :
  running w → synced w → cd_Remote (w_reg w) = true →
  wp (put_generation send parent) (post running (λ _ w', ∃ x',
    w' = set_remote x' (set_tried (ob_ID (cd_Object (w_reg w)) :: w_tried w) w) ∧
    has x' (cd_Object (w_reg w)) ∧ ¬ gone x' (ob_ID (cd_Object (w_reg w))))) w.
Proof.
  intros Hw Hj Hr. unfold put_generation. apply wp_get_reg.
  set (w1 := set_tried (ob_ID (cd_Object (w_reg w)) :: w_tried w) w).
  assert (Hw1 : running w1).
  { pose proof Hw as ([Hok Hd Ht] & Hrec & Htr). pose proof Hj as Hj'. unfold synced in Hj'.
    split; [|by split; [|apply tracks_tried]]. split; [done| |].
    - destruct Hd as [Hf|Hd]; [by left|right]. change (journal w1) with (journal w).
      rewrite Hj' in *. by destruct Hd; split; [|apply safe_tried].
    - unfold journal_tracks in *. change (ColdInv.journal cfg name w1) with (journal w).
      rewrite Hj' in *. split; [by apply tracks_tried|apply Ht]. }
  intros fs. revert fs.
  change (wp (Put (cd_Object (w_reg w)) send parent) (post running (λ _ w', ∃ x',
    w' = set_remote x' w1 ∧ has x' (cd_Object (w_reg w)) ∧
    ¬ gone x' (ob_ID (cd_Object (w_reg w))))) w1).
  eapply post_mono; [by apply (Put_post cfg name iid)|done|].
  intros [] w' _ (x' & -> & _ & Hh & Hg). by exists x'.
Qed.

Lemma calm_send : within calm (RemoveTree (stage_path cfg name "send")).
Proof. destruct Hlayout. by apply calm_RemoveTree. Qed.

(** ** Eviction *)

Definition evictable w : Prop :=
  w_fenced w ∨ (no_candidate (w_reg w) ∧ backed (w_reg w) w ∧ good_disk D (cd_Disk (w_reg w)) w).
Definition is_cold w : Prop := synced w ∧ cd_Phase (w_reg w) = "cold".

Lemma running_deleted w :
  running w → synced w → w_fenced w ∨ (cd_Phase (w_reg w) = "evicting" ∧
    no_candidate (w_reg w) ∧ backed (w_reg w) w) →
  running (put_disks (delete D (w_disks w)) w).
Proof.
  intros ([Hok Hd Ht] & Hrec & Htr) Hj He. split; [|done]. split; [done| |done].
  destruct He as [Hf|(Hp & Hn & Hb)]; [by left|right].
  change (ColdInv.journal cfg name (put_disks (delete D (w_disks w)) w)) with (journal w).
  unfold synced in Hj. rewrite Hj. split; [done|]. apply safe_evicting; [done..|]. right.
  unfold w_disks at 1. cbn. apply lookup_delete_eq.
Qed.

Lemma evict_post w :
  running w → evictable w → wp (evict cfg name) (post running (λ _ w', is_cold w')) w.
Proof.
  intros Hw He. unfold evict. apply wp_update_reg.
  eapply post_bind; [apply writeCold_post; [by apply running_phase|]|].
  { split; [|done]. destruct He as [Hf|(Hn & Hb & Hg)]; [by left|right].
    by apply safe_evicting; [..|left]. }
  intros _ w1 Hw1 [Hv _ Hj Hr]. cbn in Hj, Hr.
  assert (He1 : w_fenced w1 ∨ (no_candidate (w_reg w1) ∧ backed (w_reg w1) w1)).
  { rewrite Hr. destruct He as [Hf|(Hn & Hb & _)]; [left; by apply Hv|right].
    split; [done|]. by apply (backed_view cfg name iid _ _ _ Hv). }
  apply wp_get_reg. eapply post_bind.
  { apply DeleteSubvolume_post; [done|]. apply running_deleted; [done| |].
    - unfold synced. by rewrite Hj, Hr.
    - destruct He1 as [?|[? ?]]; [by left|right]. split; [by rewrite Hr|done]. }
  intros _ ? Hw2 ->. set (w2 := put_disks (delete D (w_disks w1)) w1) in *.
  eapply post_bind.
  { apply post_within; [apply calm_send|]. intros w3 Hc. by apply (running_calm cfg name iid w2). }
  intros _ w3 Hw3 [Hv3 Hc3 Hj3 Hr3]. apply wp_update_reg.
  eapply post_mono; [apply writeCold_post; [by apply running_phase|]|done|].
  - split; [|done]. cbn. rewrite Hr3. destruct He1 as [Hf|[Hn Hb]]; [left; by apply Hv3|right].
    apply safe_cold; [done..| |].
    + exact (backed_view cfg name iid (w_reg w1) w2 w3 Hv3 Hb).
    + change (w_disks w3 !! D = None). rewrite (vw_disk _ _ _ _ _ Hv3). apply lookup_delete_eq.
  - intros _ w4 _ [_ _ Hj4 Hr4]. split; [unfold synced; by rewrite Hj4, Hr4|by rewrite Hr4].
Qed.

(** ** Offload *)

(** The record is about to be sent: it describes the disk as it is. *)
Definition sendable w : Prop :=
  w_fenced w ∨ (cd_Phase (w_reg w) = "offloading" ∧ no_candidate (w_reg w) ∧
    good_disk D (cd_Disk (w_reg w)) w ∧ matches (cd_Object (w_reg w)) (w_truth w)).

Lemma send_generation_post send parent w :
  running w → cd_Remote (w_reg w) = false → sendable w → cd_Phase (w_reg w) ≠ "purged" →
  wp (update_reg (with_remote true);; writeCold cfg name;; put_generation send parent;;
      evict cfg name) (post running (λ _ w', is_cold w')) w.
Proof.
  intros Hw Hr Hs Hp. apply wp_update_reg.
  eapply post_bind; [apply writeCold_post|].
  { apply running_free; [done..|]. by destruct Hw as (_ & (? & ? & ?) & _). }
  { split; [|done]. destruct Hs as [Hf|(Ho & Hn & Hg & _)]; [by left|right].
    by apply safe_offloading. }
  intros _ w1 Hw1 [Hv _ Hj Hr1]. cbn in Hj, Hr1.
  eapply post_bind; [apply put_generation_post; [done| |by rewrite Hr1]|].
  { unfold synced. by rewrite Hj, Hr1. }
  intros _ w2 Hw2 (x' & -> & Hh & Hng). apply evict_post; [done|].
  destruct Hs as [Hf|(_ & Hn & Hg & Hm)]; [left; by apply Hv|right]. cbn. rewrite Hr1 in *.
  split_and!; [done| |exact (good_view cfg name iid _ _ w1 Hv Hg)]. split_and!; [done..|].
  cbn. by rewrite (vw_truth _ _ _ _ _ Hv).
Qed.

Lemma sendable_key w w' :
  (w_fenced w → w_fenced w') → w_disks w' = w_disks w → w_truth w' = w_truth w →
  key (w_reg w') = key (w_reg w) → sendable w → sendable w'.
Proof.
  intros Hf Hd Ht Hk. unfold key in Hk. simplify_eq. unfold sendable, no_candidate, matches, good_disk.
  destruct (cd_Object (w_reg w)), (cd_Object (w_reg w')); cbn in *. intros [?|Hs]; [left; auto|right].
  rewrite Hd, Ht. naive_solver congruence.
Qed.

Lemma insert_calm p d w :
  p ≠ D → p ≠ C → calm w (put_disks (<[p := d]> (w_disks w)) w).
Proof.
  intros Hd Hc. split; [split|..]; try done; unfold w_disks at 1; cbn; by apply lookup_insert_ne.
Qed.
Lemma send_ne : stage_path cfg name "send" ≠ D ∧ stage_path cfg name "send" ≠ C.
Proof. destruct Hlayout. by split; apply not_eq_sym, under_ne. Qed.

Context (new_identity : World R → string → SubvolumeIdentity).

(** Below the snapshot of an offload. *)
Lemma send_snapshot_post send d' w :
  running w → synced w → cd_Phase (w_reg w) = "offloading" → cd_Remote (w_reg w) = false →
  w_disks w !! send = Some d' →
  (∀ id, good_disk D id w → same_bytes (dk_content d') (w_truth w)) →
  wp (o ← try (coldObject (ob_ID (cd_Object (w_reg w))) send);
      match o with
      | inr e => update_reg (with_object no_object);; throw e
      | inl o =>
          update_reg (with_object o);;
          parent ← put_base cfg;
          update_reg (with_remote true);;
          writeCold cfg name;;
          put_generation send parent;;
          evict cfg name
      end) (post running (λ _ w', is_cold w')) w.
Proof.
  intros Hw Hj Hp Hr Hd Hsame.
  assert (Hfree : ∀ o w', w' = w → running (set_reg (with_object o (w_reg w')) w')).
  { intros o ? ->. apply running_free; [done..|]. by destruct Hw as (_ & (? & ? & ?) & _). }
  eapply post_bind.
  { apply (post_try_keep _ (λ w', w' = w)); [by apply coldObject_post|by intros ? ->]. }
  intros [o|e] ? _ [-> Ho]; apply wp_update_reg; [|by apply post_throw, Hfree].
  destruct (Ho o eq_refl) as (_ & _ & d & Hd2 & Hdesc). simplify_eq.
  eapply post_bind; [by apply put_base_post; [apply Hfree|]|].
  intros parent w2 Hw2 [Hb1 Hb2 _ Hb4 Hb5].
  assert (Hk : key (w_reg w2) = key (with_object o (w_reg w))) by done.
  apply send_generation_post; [done|unfold key in Hk; simplify_eq; cbn in *; congruence|
    |unfold key in Hk; simplify_eq; cbn in *; congruence].
  apply (sendable_key (set_reg (with_object o (w_reg w)) w)); [|done..|].
  { unfold ColdInv.w_fenced. by rewrite Hb4. }
  destruct (running_sound _ Hw Hj) as [[Hf|Hs] _]; [by left|right].
  destruct Hs as [| |_ Hn Hg| | | |]; try congruence. split_and!; [done..|].
  apply (matches_describes _ (dk_content d')); [done|by apply (Hsame _ Hg)].
Qed.

Lemma offloadCold_post w :
  running w → synced w → cd_Phase (w_reg w) = "offloading" →
  wp (offloadCold cfg new_identity name) (post running (λ _ w', is_cold w')) w.
Proof.
  intros Hw Hj Hp. unfold offloadCold, destination. apply wp_get_reg.
  eapply post_bind; [by apply post_require|]. intros _ ? _ [-> _].
  eapply post_bind.
  { apply (post_try_keep _ (λ w', w' = w)); [by apply ValidateDisk_post|by intros ? ->]. }
  intros actual ? _ [-> _].
  eapply post_bind; [by apply post_require|]. intros _ ? _ [-> _].
  eapply post_bind; [by apply post_require|]. intros _ ? _ [-> Hr]. apply negb_true_iff in Hr.
  eapply post_bind.
  { apply post_within; [apply calm_send|]. intros w1 Hc. by apply (running_calm cfg name iid w). }
  intros ? w1 Hw1 Hc. cbn in Hc. destruct send_ne as [Hsd Hsc].
  eapply post_bind.
  { apply (Snapshot_post new_identity running); [done|]. intros d _ _.
    by apply (running_calm cfg name iid w1); [apply insert_calm|]. }
  intros _ w2 Hw2 (d & HD & _ & Ew2). pose proof Hc as [_ _ Hj1 Hr1].
  rewrite <- Hr1.
  assert (Hr2 : w_reg w2 = w_reg w1) by (by rewrite Ew2).
  rewrite <- Hr2.
  apply (send_snapshot_post _ (snapshot_of (new_identity w1 (stage_path cfg name "send")) true d));
    rewrite ?Hr2, ?Hr1; [done| |done..| |]; rewrite Ew2.
  - unfold synced. cbn. rewrite Hr1. by rewrite <- Hj.
  - unfold w_disks at 1. cbn. apply lookup_insert_eq.
  - intros id (d0 & HD0 & _ & Hb). unfold w_disks in HD0 at 1. cbn in HD0.
    rewrite lookup_insert_ne in HD0 by done. unfold w_disks in HD, HD0. by simplify_eq.
Qed.

(** ** Restore *)

Lemma Get_post o dest parent w :
  under dest D = false → under dest C = false → running w →
  wp (Get o dest parent) (post running (λ p w', ∃ x' dirs ds,
    w' = set_remote x' (set_dirs dirs (put_disks ds w)) ∧
    remote_step nothing nothing (w_remote w) x' ∧
    ds !! D = w_disks w !! D ∧ ds !! C = w_disks w !! C ∧
    ∃ d, ds !! p = Some d ∧ describes o (dk_content d))) w.
Proof.
  intros Hd Hc Hw. eapply wp_mono; [apply law_get, Hw|].
  intros r w' (x' & dirs & ds & -> & Hs & Hu & Ho). split.
  - apply (running_nothing cfg name iid nothing); [done|].
    apply (running_calm cfg name iid w); [|done]. split; [split|..]; try done; by apply Hu.
  - intros p Hp. exists x', dirs, ds. split_and!; [done|done|by apply Hu..|].
    destruct (Ho p Hp) as (d & Hl & H1 & H2). by exists d.
Qed.

(** The remote copy is the authoritative one, and no candidate is recorded. *)
Definition restorable w : Prop :=
  w_fenced w ∨ (no_candidate (w_reg w) ∧ backed (w_reg w) w ∧ w_disks w !! D = None).
(** A recorded candidate has the bytes. *)
Definition ready w : Prop :=
  w_fenced w ∨ (cd_Phase (w_reg w) = "restoring" ∧ ¬ no_candidate (w_reg w) ∧
    backed (w_reg w) w ∧ w_disks w !! D = None ∧ good_disk C (cd_Candidate (w_reg w)) w).

Lemma restorable_swept w w' : swept cfg name iid w w' → restorable w → restorable w'.
Proof.
  intros [Hv Hj Hr] [Hf|(Hn & Hb & Hd)]; [left; by apply Hv|right]. rewrite Hr.
  split_and!; [done|by apply (backed_view cfg name iid _ w)|by rewrite (vw_disk _ _ _ _ _ Hv)].
Qed.
Lemma restorable_independent w :
  synced w → restorable w →
  w_fenced w ∨ (∀ r, journal w = Some (Some r) → independent r).
Proof.
  intros Hj [Hf|(Hn & _)]; [by left|right]. unfold synced in Hj. rewrite Hj.
  by intros r [= <-] _.
Qed.

Lemma candidate_ne : C ≠ D.
Proof. destruct Hlayout. by apply not_eq_sym, under_ne. Qed.

Lemma insert_swept d w : swept cfg name iid w (put_disks (<[C := d]> (w_disks w)) w).
Proof.
  split; [split|..]; try done. unfold w_disks at 1. cbn. apply lookup_insert_ne, candidate_ne.
Qed.

(** The received disk becomes the recorded candidate. *)
Lemma record_candidate_post received d w :
  running w → synced w → cd_Phase (w_reg w) = "restoring" → restorable w →
  w_disks w !! received = Some d → describes (cd_Object (w_reg w)) (dk_content d) →
  wp (SnapshotSubvolume new_identity received C false;;
      id ← try (ValidateDisk C);
      match id with
      | inr e => update_reg (with_candidate no_subvolume);; throw e
      | inl id => update_reg (with_candidate id);; writeCold cfg name
      end) (post running (λ _ w', synced w' ∧ ready w')) w.
Proof.
  intros Hw Hj Hp Hres Hd Hdesc.
  eapply post_bind.
  { apply (Snapshot_post new_identity running); [done|]. intros d' _ _.
    apply (running_swept cfg name iid w); [apply insert_swept|by apply restorable_independent|done]. }
  intros _ w1 Hw1 (d' & Hd' & HC & Ew1). simplify_eq.
  set (d' := snapshot_of (new_identity w C) false d) in *.
  pose proof (insert_swept d' w) as Hsw. revert Hsw Hw1. set (w1 := put_disks _ w). intros Hsw Hw1.
  assert (Hreg : ∀ id, running (set_reg (with_candidate id (w_reg w1)) w1)).
  { intros id. destruct Hw1 as (Hi & (? & ? & ?) & Ht). by apply running_reg. }
  assert (Hl : w_disks w1 !! C = Some d') by (unfold w_disks at 1; cbn; apply lookup_insert_eq).
  eapply post_bind.
  { apply (post_try_keep _ (λ w', w' = w1)); [by apply ValidateDisk_post|by intros ? ->]. }
  intros [id|e] ? _ [-> Hid]; apply wp_update_reg; [|by apply post_throw, Hreg].
  destruct (Hid id eq_refl) as (_ & Hu & d'' & Hd'' & Hidd). simplify_eq.
  destruct (restorable_swept _ _ Hsw Hres) as [Hf|(Hn & Hb & HD)].
  - eapply post_mono; [apply writeCold_post; [apply Hreg|]|done|].
    + split; [by left|]. cbn. by rewrite Hp.
    + intros _ w2 _ [Hv2 _ Hj2 Hr2]. split; [unfold synced; by rewrite Hj2, Hr2|].
      left. by apply Hv2.
  - assert (Hg : good_disk C (dk_id d') (set_reg (with_candidate (dk_id d') (w_reg w1)) w1)).
    { exists d'. split_and!; [done..|]. destruct Hb as (_ & _ & _ & Hm).
      by apply (same_describes (cd_Object (w_reg w))); [|exact Hm]. }
    eapply post_mono; [apply writeCold_post; [apply Hreg|]|done|].
    + split; [right; apply safe_restoring; [done..|by right]|]. cbn. by rewrite Hp.
    + intros _ w2 _ [Hv2 Hc2 Hj2 Hr2]. split; [unfold synced; by rewrite Hj2, Hr2|].
      right. rewrite Hr2. split_and!; [done..| | |].
      * exact (backed_view cfg name iid _ _ w2 Hv2 Hb).
      * by rewrite (vw_disk _ _ _ _ _ Hv2).
      * destruct Hg as (d2 & Hg). exists d2. by rewrite Hc2, (vw_truth _ _ _ _ _ Hv2).
Qed.

Lemma receive_candidate_post w :
  running w → restorable w →
  wp (receive_candidate cfg new_identity name) (post running (λ _ w', synced w' ∧ ready w')) w.
Proof.
  intros Hw Hres. unfold receive_candidate, step, mkdir.
  eapply post_bind; [by apply (post_query running)|]. intros _ ? _ [-> _].
  apply wp_update_reg. eapply post_bind; [apply writeCold_post; [by apply running_phase|]|].
  { split; [|done]. destruct Hres as [Hf|(Hn & Hb & Hd)]; [by left|right].
    by apply safe_restoring; [..|left]. }
  intros _ w1 Hw1 [Hv1 _ Hj1 Hr1]. cbn in Hj1, Hr1.
  assert (Hy1 : synced w1) by (unfold synced; by rewrite Hj1, Hr1).
  assert (Hres1 : restorable w1).
  { destruct Hres as [Hf|(Hn & Hb & Hd)]; [left; by apply Hv1|right]. rewrite Hr1.
    split_and!; [done|exact (backed_view cfg name iid _ _ w1 Hv1 Hb)|].
    by rewrite (vw_disk _ _ _ _ _ Hv1). }
  eapply post_bind.
  { apply (cleanColdStages_post cfg name iid Hlayout (λ w', swept cfg name iid w1 w'));
      [done|by apply restorable_independent|done]. }
  intros ? w2 Hw2 Hsw. cbn in Hsw. pose proof (restorable_swept _ _ Hsw Hres1) as Hres2.
  pose proof Hsw as [_ Hj2 Hr2].
  eapply post_bind; [apply (post_env running); [done|]|].
  { case_bool_decide; cbn; [done|]. apply (running_calm cfg name iid w2); [|done].
    by split; [split|..]. }
  intros ? w3 Hw3 [Hok Ew3]. case_bool_decide; [done|]. cbn in Ew3.
  assert (Hsw3 : swept cfg name iid w2 w3) by (subst w3; by split; [split|..]).
  pose proof (restorable_swept _ _ Hsw3 Hres2) as Hres3. pose proof Hsw3 as [_ Hj3 Hr3].
  clear Ew3 Hsw3. apply wp_get_reg.
  eapply post_bind.
  { apply post_within with (R := eq); [|by intros ? <-].
    destruct (nonempty _); [|apply within_ret, _].
    apply within_bind; [apply _|apply same_base_usable|intros ?; apply within_ret, _]. }
  intros parent ? _ <-.
  eapply post_bind; [apply Get_post; [apply Hlayout..|done]|].
  intros received w4 Hw4 (x' & dirs & ds & Ew4 & Hst & HD & HC & d & Hd & Hdesc).
  eapply post_bind; [by apply post_require|]. intros _ ? _ [-> _].
  assert (Hr4 : w_reg w4 = w_reg w3) by (by rewrite Ew4).
  apply (record_candidate_post received d).
  - done.
  - unfold synced. rewrite Hr4, Hr3, Hr2.
    assert (Hj4 : journal w4 = journal w3) by (by rewrite Ew4). rewrite Hj4, Hj3, Hj2. exact Hy1.
  - by rewrite Hr4, Hr3, Hr2, Hr1.
  - destruct Hres3 as [Hf|(Hn & Hb & HD3)]; [left; by rewrite Ew4|right]. rewrite Hr4.
    split_and!; [done| |].
    + rewrite Ew4. exact (backed_step nothing nothing _ (set_dirs dirs (put_disks ds w3)) x' Hst (λ H, H) Hb).
    + rewrite Ew4. by rewrite <- HD3, <- HD.
  - by rewrite Ew4.
  - by rewrite Hr4.
Qed.

Lemma running_renamed d w :
  running w → synced w → ready w → w_disks w !! C = Some d → w_disks w !! D = None →
  running (put_disks (<[D := d]> (delete C (w_disks w))) w).
Proof.
  intros ([Hok Hd Ht] & Hrec & Htr) Hj Hready HC HD. split; [|done]. split; [done| |done].
  destruct Hready as [Hf|(Hp & Hn & Hb & _ & d' & Hd' & Hid & Hsame)]; [by left|right].
  set (w' := put_disks _ w). change (ColdInv.journal cfg name w') with (journal w).
  unfold synced in Hj. rewrite Hj. split; [done|]. apply safe_restored; [done..|].
  simplify_eq. exists d'. split_and!; [|done..]. unfold w_disks at 1. cbn. apply lookup_insert_eq.
Qed.

Lemma safe_absent r w :
  safe cfg name r w → w_disks w !! D = None → cd_Phase r ≠ "offloading" ∧ backed r w ∧
  (no_candidate r ∨ cd_Phase r = "restoring" ∧ good_disk C (cd_Candidate r) w).
Proof.
  intros Hs HD. destruct Hs as [_ H|_ H|_ _ H|Hp Hn Hb _|Hp Hn Hb _|Hp Hb _ [?|?]|_ _ _ H];
    try (destruct H as (d & H & _); congruence);
    split_and!; rewrite ?Hp; auto.
Qed.

Lemma hydrateCold_post w :
  running w → synced w → wp (hydrateCold cfg new_identity name) (post running (λ _ w', hot w')) w.
Proof.
  intros Hw Hj. unfold hydrateCold, disk_exists, destination, step.
  eapply post_bind; [by apply (post_query running)|]. intros present ? _ [-> Hpr].
  injection Hpr as <-. apply wp_get_reg. case_bool_decide as HD.
  { destruct (String.eqb _ _); [by apply post_throw|]. by apply recoverLocalCold_post. }
  assert (HD' : w_disks w !! D = None) by (destruct (w_disks w !! D); [by destruct HD|done]).
  eapply post_bind; [by apply post_require|]. intros _ ? _ [-> _].
  eapply post_bind; [by apply post_require|]. intros _ ? _ [-> _].
  destruct (running_sound _ Hw Hj) as [Hs _].
  eapply (post_bind _ _ _ (λ _ w', synced w' ∧ ready w')).
  { destruct (nonempty _) eqn:Hne.
    - apply nonempty_spec in Hne. eapply post_bind.
      { apply (post_try_keep _ (λ w', w' = w)); [by apply ValidateDisk_post|by intros ? ->]. }
      intros id ? _ [-> _]. eapply post_mono; [by apply (post_require running)|done|].
      intros _ ? _ [-> _]. split; [done|]. destruct Hs as [Hf|Hs]; [by left|right].
      by destruct (safe_absent _ _ Hs HD') as (_ & Hb & [?|[? ?]]).
    - apply receive_candidate_post; [done|]. destruct Hs as [Hf|Hs]; [by left|right].
      destruct (safe_absent _ _ Hs HD') as (_ & Hb & _). split_and!; [|done..].
      unfold no_candidate. destruct (sv_UUID _) eqn:E; [done|].
      by rewrite (proj2 (nonempty_spec _)) in Hne. }
  intros _ w1 Hw1 [Hj1 Hr1]. unfold rename_noreplace.
  eapply post_bind; [apply (post_env running); [done|]|].
  { destruct (w_disks w1 !! C) as [d|] eqn:EC, (w_disks w1 !! D) eqn:ED; try done.
    by apply running_renamed. }
  intros _ w2 Hw2 _. eapply post_bind; [by apply (post_query running)|]. intros _ ? _ [-> _].
  by apply recoverLocalCold_post.
Qed.

(** ** Purge *)

Lemma Delete_post w :
  running w → synced w → w_fenced w ∨ cd_Phase (w_reg w) = "hot" →
  wp (Delete (ob_ID (cd_Object (w_reg w)))) (post running (λ _ w', ∃ x',
    w' = set_remote x' w ∧ settled w' (ob_ID (cd_Object (w_reg w))))) w.
Proof.
  intros Hw Hj Hh. eapply wp_mono; [apply law_delete, Hw|]. intros r w' (x' & -> & Hs & Ho).
  split; [|intros [] Hr; exists x'; split; [done|by apply Ho]].
  apply (running_step cfg name iid _ _ _ _ Hs); [|done].
  destruct Hh as [Hf|Hp]; [by left|]. destruct (running_sound _ Hw Hj) as [[Hf|Hsafe] _]; [by left|].
  right. unfold synced in Hj. rewrite Hj. intros r0 [= <-]. right. split; [|done].
  by destruct Hsafe; try congruence.
Qed.

(** The store holds nothing of ours, and the local disk is the instance's. *)
Definition purgeable w : Prop :=
  synced w ∧ cd_Remote (w_reg w) = false ∧ (w_fenced w ∨ good_disk D (cd_Disk (w_reg w)) w).

Lemma purgeable_calm w w' : calm w w' → purgeable w → purgeable w'.
Proof.
  intros [Hv _ Hj Hr] (Hy & Hrem & Hg). unfold purgeable, synced. rewrite Hj, Hr.
  split_and!; [done..|]. destruct Hg as [Hf|Hg]; [left; by apply Hv|right].
  by apply (good_view cfg name iid _ w).
Qed.

Lemma running_removed w : running w → purgeable w → running (remove_state cfg name w).
Proof.
  intros ([Hok Hd Ht] & Hrec & Htr) (Hj & Hr & Hg). split; [|done].
  assert (Hj' : journal (remove_state cfg name w) = None).
  { unfold ColdInv.journal, remove_state. cbn. apply lookup_delete_eq. }
  split; [done| |].
  - destruct Hg as [Hf|(d & Hl & _ & Hb)]; [by left|right]. rewrite Hj'. by exists d.
  - unfold journal_tracks. rewrite Hj'. intros i Hi. destruct (Htr i Hi) as [?|[? _]]; [done|congruence].
Qed.

Lemma calm_rmdir p : within calm (rmdir p).
Proof.
  apply within_env; [apply _|]. intros w. destruct (existsb _ _); [done|]. by split; [split|..].
Qed.

Lemma finishColdPurge_post w :
  running w → purgeable w →
  wp (finishColdPurge cfg name) (post running (λ _ w', journal w' = None)) w.
Proof.
  intros Hw Hp. unfold finishColdPurge, step.
  eapply (post_bind _ _ _ (λ _ w', purgeable w')).
  { eapply post_mono; [apply (post_within running _ _ _ (calm_rmdir _))| |].
    - intros w' Hc. by apply (running_calm cfg name iid w).
    - done.
    - intros ? w' _ Hc. by apply (purgeable_calm w). }
  intros _ w1 Hw1 Hp1. eapply post_bind; [by apply (post_query running)|]. intros _ ? _ [-> _].
  assert (Hc : calm w1 (remove_marker cfg name w1)) by (by split; [split|..]).
  eapply post_bind; [apply (post_env running); [done|]|].
  { by apply (running_calm cfg name iid w1). }
  intros _ ? Hw2 [_ ->]. cbn in Hw2. cbn.
  pose proof (purgeable_calm _ _ Hc Hp1) as Hp2.
  eapply post_bind; [by apply (post_query running)|]. intros _ ? _ [-> _].
  eapply post_bind; [apply (post_env running); [done|]|]; [by apply running_removed|].
  intros _ ? Hw3 [_ ->]. eapply post_mono; [by apply (post_query running)|done|].
  intros _ ? _ [-> _]. unfold ColdInv.journal, remove_state. cbn. apply lookup_delete_eq.
Qed.

Lemma purgeCold_post w :
  running w → synced w → w_fenced w ∨ cd_Phase (w_reg w) = "hot" →
  wp (purgeCold cfg name) (post running (λ _ w', journal w' = None)) w.
Proof.
  intros Hw Hj Hh. unfold purgeCold, destination. apply wp_get_reg.
  assert (Hg : w_fenced w ∨ cd_Phase (w_reg w) = "hot" ∧ good_disk D (cd_Disk (w_reg w)) w).
  { destruct Hh as [Hf|Hp]; [by left|]. destruct (running_sound _ Hw Hj) as [[Hf|Hs] _]; [by left|].
    right. split; [done|]. by destruct Hs; try congruence. }
  eapply (post_bind _ _ _ (λ _ w', purgeable w' ∧ (w_fenced w' ∨ cd_Phase (w_reg w') = "hot"))).
  { destruct (cd_Remote (w_reg w)) eqn:Hr; [|apply post_ret; [done|]; split; [|done];
      split_and!; [done..|]; by destruct Hg as [?|[? ?]]; [left|right]].
    eapply post_bind; [by apply (post_require running)|]. intros _ ? _ [-> _].
    eapply post_bind; [by apply Delete_post|]. intros _ ? Hw1 (x' & -> & Hset).
    apply wp_update_reg. set (w2 := set_reg _ _).
    assert (Hw2 : running w2).
    { pose proof Hw1 as (Hi & (? & ? & ?) & Ht). apply running_reg; [done..|].
      intros i Hi'. left. destruct (Ht i Hi') as [?|[_ <-]]; done. }
    eapply post_mono; [apply writeCold_post; [done|]|done|].
    - split; [|done]. destruct Hg as [Hf|[Hp Hd]]; [by left|right]. by apply safe_hot.
    - intros _ w3 _ [Hv _ Hj3 Hr3]. unfold purgeable, synced. rewrite Hj3, Hr3.
      split; [split_and!; [done..|]|]; (destruct Hg as [Hf|[Hp Hd]]; [left; by apply Hv|right]).
      + exact (good_view cfg name iid _ w2 w3 Hv Hd).
      + done. }
  intros _ w1 Hw1 [(Hj1 & Hr1 & Hg1) Hh1].
  eapply post_bind.
  { apply (cleanColdStages_post cfg name iid Hlayout (λ w', swept cfg name iid w1 w')); [done| |done].
    destruct Hh1 as [Hf|Hp]; [by left|right]. unfold synced in Hj1. rewrite Hj1.
    intros r [= <-] Hp'. congruence. }
  intros ? w2 Hw2 Hsw. cbn in Hsw. pose proof Hsw as [Hv Hj2 Hr2].
  assert (Hg2 : w_fenced w2 ∨ good_disk D (cd_Disk (w_reg w2)) w2).
  { rewrite Hr2. destruct Hg1 as [Hf|Hd]; [left; by apply Hv|right].
    by apply (good_view cfg name iid _ w1). }
  apply wp_update_reg. eapply post_bind; [apply writeCold_post; [by apply running_phase|]|].
  { split; [|by cbn; rewrite Hr2]. destruct Hg2 as [Hf|Hd]; [by left|right]. by apply safe_purged. }
  intros _ w3 Hw3 [Hv3 _ Hj3 Hr3]. apply finishColdPurge_post; [done|].
  unfold purgeable, synced. rewrite Hj3, Hr3. split_and!; [done|by cbn; rewrite Hr2|].
  destruct Hg2 as [Hf|Hd]; [left; by apply Hv3|right].
  exact (good_view cfg name iid _ _ w3 Hv3 Hd).
Qed.
End moves.
