(* ===== verification/ColdHandle.v ===== *)
(** * The handler keeps the invariant

    Admission, the choice of the generation and the action on it; [handle_post] is
    the specification of one request of the runner's cold-disk endpoint. *)
From S2P Require Import Prelude GoStrings Paths RunnerState Runtime Receipts ReceiptStop Encodings.
From S2P Require Import RunnerTrace ColdDisk ColdInv ColdOps ColdMoves.

#[local] Open Scope Z_scope.

Section handle.
Context {R : Type} `{!coldRemote R, !coldRemoteView R, !coldRemoteLaws R}.
Context (cfg : ServerConfig) (q : ColdRequest) (Hlayout : layout_ok cfg (cq_Name q)).
Context (new_identity : World R → string → SubvolumeIdentity) (NewString : World R → string)
  (canonicalColdUUID : string → bool).
Implicit Types w : World R.

#[local] Abbreviation name := (cq_Name q).
#[local] Abbreviation iid := (cq_InstanceID q).
#[local] Abbreviation D := (disk_path cfg name).
#[local] Abbreviation calm := (calm (R:=R) cfg name iid).
#[local] Abbreviation running := (running cfg name iid).
#[local] Abbreviation inv := (inv cfg name iid).
#[local] Abbreviation journal := (journal cfg name).
#[local] Abbreviation w_fenced := (w_fenced cfg name iid).
#[local] Abbreviation synced := (synced cfg name).
#[local] Abbreviation hot := (hot cfg name iid).

(** ** Before the journal is touched *)

Lemma calm_query {A} (f : World R → result A) : within calm (query f).
Proof. apply within_query, _. Qed.
Lemma calm_set_dirs d w : calm w (set_dirs d w).
Proof. by split; [split|..]. Qed.

Ltac calm_call :=
  repeat first
    [ lazymatch goal with |- within _ (on_host ?m) => apply calm_on_host end
    | lazymatch goal with |- within (host_frame _ _ _) (query_machine _) => apply within_query, _ end
    | lazymatch goal with |- within _ (query _) => apply within_query, _ end
    | apply frame_fence | apply frame_storageIdle | apply frame_readRAM | apply frame_put
    | apply frame_discardRAM | within_step ].

Lemma admission_post w :
  inv w → wp (admission cfg q) (post inv (λ _ w',
    calm w w' ∧ (deleting q = true → w_fenced w'))) w.
Proof.
  intros Hw.
  assert (Hcalm : within calm (admission cfg q)) by (unfold admission, step; calm_call).
  assert (Hinv : ∀ w', calm w w' → inv w') by (intros w' Hc; by apply (inv_calm cfg name iid w)).
  destruct (deleting q) eqn:Hdel.
  2: { eapply post_mono; [apply (post_within inv _ _ _ Hcalm Hinv)|done|done]. }
  eapply wp_mono.
  { apply (wp_and _ (λ _ w', calm w w') (post (λ _, True) (λ _ w', w_fenced w'))); [apply (Hcalm w)|].
    unfold admission, step. rewrite Hdel.
    apply (post_bind (λ _, True) _ _ (λ _ _, True)); [by apply wp_ret|]. intros _ w1 _ _.
    eapply (post_bind (λ _, True) _ _ (λ _ _, True)).
    { eapply wp_mono; [apply (calm_on_host cfg name iid), frame_storageIdle|done]. }
    intros _ w2 _ _. eapply (post_bind (λ _, True) _ _ (λ _ _, True)).
    { eapply wp_mono; [apply (calm_on_host cfg name iid), frame_readRAM|done]. }
    intros st w3 _ _. eapply (post_bind (λ _, True) _ _ (λ _ _, True)).
    { by apply wp_require. }
    intros _ w4 _ _. do 2 (eapply (post_bind (λ _, True)); [by apply post_query|]; intros _ ? _ [-> _]).
    eapply (post_bind (λ _, True) _ _ (λ _ w', w_fenced w')).
    { apply wp_on_host, wp_env; [done..| |done]. split; [done|]. intros _ _.
      unfold ColdInv.w_fenced, fenced. cbn. rewrite lookup_at_path, at_path_put.
      by rewrite bool_decide_eq_true_2. }
    intros _ w5 _ Hf5. eapply (post_bind (λ _, True)); [by apply post_query|]. intros _ ? _ [-> _].
    eapply wp_mono; [apply (calm_on_host cfg name iid), frame_discardRAM|]. intros o w6 [Hv _ _ _].
    split; [done|]. intros _ _. apply (vw_fence _ _ _ _ _ Hv), Hf5. }
  intros o w' [Hc [_ Ho]]. split; [by apply Hinv|]. intros a Ha. split; [done|]. intros _.
  by apply (Ho a).
Qed.

Lemma calm_prepare_stage : within calm (prepare_stage cfg name).
Proof.
  unfold prepare_stage, step. calm_call. apply within_env; [apply _|]. intros w. apply calm_set_dirs.
Qed.
Lemma calm_ValidateDisk p : within calm (ValidateDisk p).
Proof. intros w. eapply wp_mono; [apply ValidateDisk_spec|]. by intros o w' [-> _]. Qed.
Lemma calm_expected_disk : within calm (expected_disk cfg q).
Proof.
  unfold expected_disk. apply within_bind; [apply _|apply within_try, calm_ValidateDisk|].
  intros ?. apply within_require, _.
Qed.

(** ** The generation *)

(** What [readCold] returned is what the journal says. *)
Definition loaded (r : option coldDiskRecord) w : Prop :=
  match r with
  | None => inv w ∧ journal w = None
  | Some r => running w ∧ synced w ∧ w_reg w = r
  end.
Definition fence_first w : Prop := deleting q = true → w_fenced w.

Lemma purged_purgeable w :
  running w → synced w → cd_Phase (w_reg w) = "purged" → purgeable cfg name iid w.
Proof.
  intros Hw Hj Hp. destruct (running_sound _ _ _ _ Hw Hj) as [Hs Hr].
  split_and!; [done|by apply Hr|]. destruct Hs as [Hf|Hs]; [by left|right].
  by destruct Hs; try congruence.
Qed.

Lemma settle_post r w :
  loaded r w → wp (settle cfg q r) (post inv (λ (p : bool * (SubvolumeIdentity * string)) w',
    if p.1 then w' = w ∧ is_Some r else inv w' ∧ journal w' = None)) w.
Proof.
  intros Hl. unfold settle. destruct r as [r|]; [|by apply post_ret; [apply Hl|apply Hl]].
  destruct Hl as (Hw & Hj & Hr). assert (Hi : inv w) by apply Hw.
  destruct (offloading q && _) eqn:Hhot.
  { eapply (post_bind inv _ _ (λ _ w', running w' ∧ hot w')).
    { eapply post_mono; [apply (recoverLocalCold_post cfg name iid Hlayout w Hw)|by intros ? []|done]. }
    intros _ w1 _ [Hw1 (Hj1 & Hp1 & _)]. apply wp_get_reg.
    eapply (post_bind inv _ _ (λ _ w', journal w' = None)).
    { eapply post_mono; [apply (purgeCold_post cfg name iid Hlayout w1 Hw1 Hj1)|by intros ? []|done].
      by right. }
    intros _ w2 Hw2 Hn. by apply post_ret. }
  destruct (String.eqb (cd_Phase r) "purged") eqn:Hp; [|by apply post_ret].
  apply String.eqb_eq in Hp. rewrite <- Hr in Hp.
  eapply (post_bind inv _ _ (λ _ w', w' = w)).
  { destruct (String.eqb (cq_Action q) "delete"); [by apply post_ret|]. eapply post_bind.
    { apply (post_try_keep inv (λ w', w' = w)); [by apply ValidateDisk_post|by intros ? ->]. }
    intros id ? _ [-> _]. eapply post_mono; [by apply (post_require inv)|done|].
    by intros _ ? _ [-> _]. }
  intros _ ? _ ->. eapply (post_bind inv _ _ (λ _ w', journal w' = None)).
  { eapply post_mono; [apply (finishColdPurge_post cfg name iid w Hw)|by intros ? []|done].
    by apply purged_purgeable. }
  intros _ w2 Hw2 Hn. by apply post_ret.
Qed.

Lemma new_generation_post base baseName w :
  inv w → journal w = None →
  wp (new_generation cfg NewString q base baseName) (post inv (λ _ w',
    running w' ∧ synced w' ∧ cd_Phase (w_reg w') = "offloading")) w.
Proof.
  intros Hw Hj. unfold new_generation, step.
  eapply post_bind; [by apply (post_require inv)|]. intros _ ? _ [-> _].
  pose proof (calm_set_dirs ({[coldStageDir cfg name]} ∪ w_dirs w) w) as Hc.
  eapply post_bind; [apply (post_env inv); [done|by apply (inv_calm cfg name iid w)]|].
  intros _ w1 Hw1 [_ ->]. cbn in Hw1. cbn. set (w1 := set_dirs _ w) in *.
  eapply post_bind; [by apply (ValidateDisk_post inv)|]. intros id ? _ (-> & Hu & d & Hd & Hid).
  do 2 (eapply post_bind; [by apply (post_query inv)|]; intros _ ? _ [-> _]).
  eapply (post_bind inv _ _ (λ _ w', w' = w1)).
  { intros fs. split; [done|]. by intros ? [= <-]. }
  intros u ? _ ->. apply wp_update_reg. set (r := mkCold _ _ _ _ _ _ _ _ _ _).
  assert (Hj1 : journal w1 = None) by done. pose proof Hw1 as [Hok Hdata Ht].
  unfold data_ok, journal_tracks in Hdata, Ht. rewrite Hj1 in Hdata, Ht.
  assert (Hr : running (set_reg r w1)).
  { apply running_reg; [done|by split_and!|]. intros i Hi. left. by apply Ht. }
  eapply post_mono; [apply writeCold_post; [exact Hr|]|by intros ? []|].
  - split; [|done]. destruct Hdata as [Hf|(d' & Hd' & Hb)]; [by left|right].
    apply safe_offloading; [done..|]. exists d'. split_and!; [done| |done]. cbn. simplify_eq. congruence.
  - intros _ w2 Hw2 [_ _ Hj2 Hr2]. cbn in Hj2, Hr2. split; [done|]. unfold ColdMoves.synced.
    by rewrite Hj2, Hr2.
Qed.

(** ** The action *)

(** What a successful request leaves. *)
Definition finished w : Prop :=
  if offloading q then ∃ r, journal w = Some (Some r) ∧ cd_Phase r = "cold"
  else if String.eqb (cq_Action q) "hydrate"
       then journal w = None ∨ ∃ r, journal w = Some (Some r) ∧ cd_Phase r = "hot"
       else journal w = None.

Lemma act_post w :
  running w → synced w → fence_first w → cq_Action q ≠ "fence-delete" →
  known_action (cq_Action q) = true →
  wp (act cfg new_identity q) (post inv (λ _ w', finished w')) w.
Proof.
  intros Hw Hj Hfence Hact Hknown. unfold act, finished. apply wp_get_reg.
  assert (Hi : inv w) by apply Hw. destruct (offloading q) eqn:Hoff.
  { destruct (String.eqb (cd_Phase (w_reg w)) "cold") eqn:Hcold.
    { apply post_ret; [done|]. apply String.eqb_eq in Hcold. by eexists. }
    eapply post_bind; [by apply (post_require inv)|]. intros _ ? _ [-> Hp].
    apply String.eqb_eq in Hp. eapply post_bind.
    { apply (post_try_keep inv running); [by apply offloadCold_post|by intros ? []]. }
    intros [[]|e] w1 Hi1 [Hw1 Ho].
    - destruct (Ho tt eq_refl) as [Hj1 Hp1]. apply wp_get_reg, post_ret; [done|]. by eexists.
    - eapply (post_bind inv _ _ (λ _ _, True)); [|intros _ w2 Hi2 _; by apply post_throw].
      eapply post_mono; [apply (post_try running), recoverLocalCold_post; done|by intros ? []|done]. }
  destruct (String.eqb (cq_Action q) "hydrate") eqn:Hhyd.
  { eapply (post_bind inv _ _ (λ _ w', hot w')).
    { eapply post_mono; [by apply hydrateCold_post|by intros ? []|done]. }
    intros _ w1 Hi1 (Hj1 & Hp1 & _). apply wp_get_reg, post_ret; [done|]. right. by eexists. }
  assert (Hpd : String.eqb (cq_Action q) "purge" || String.eqb (cq_Action q) "delete" = true).
  { unfold known_action in Hknown. apply bool_decide_eq_true in Hknown.
    unfold offloading in Hoff. rewrite !elem_of_cons, elem_of_nil in Hknown.
    apply String.eqb_neq in Hoff, Hhyd.
    destruct Hknown as [?|[?|[->| [->|[?|[]]]]]]; done. }
  rewrite Hpd.
  eapply (post_bind inv _ _ (λ _ w', running w' ∧ synced w' ∧
    (w_fenced w' ∨ cd_Phase (w_reg w') = "hot"))).
  { destruct (String.eqb (cq_Action q) "purge") eqn:Hpurge.
    - eapply post_bind.
      { apply (post_try_keep inv running); [by apply recoverLocalCold_post|by intros ? []]. }
      intros o w1 Hi1 [Hw1 Ho]. eapply post_mono; [by apply (post_require inv)|done|].
      intros _ ? _ [-> Hb]. destruct o as [[]|]; [|done].
      destruct (Ho tt eq_refl) as (Hj1 & Hp1 & _). auto.
    - apply post_ret; [done|]. split_and!; [done..|left]. apply Hfence. unfold deleting.
      by destruct (String.eqb (cq_Action q) "delete"). }
  intros _ w1 Hi1 (Hw1 & Hj1 & Hh1).
  eapply (post_bind inv _ _ (λ _ w', journal w' = None)).
  { eapply post_mono; [by apply purgeCold_post|by intros ? []|done]. }
  intros _ w2 Hi2 Hn. by apply post_ret.
Qed.

Lemma load_post r w :
  inv w → match r with Some r => journal w = Some (Some r) ∧ rec_ok iid r | None => journal w = None end →
  wp (match r with Some r => update_reg (λ _, r) | None => mret tt end)
    (post inv (λ _ w', loaded r w' ∧ (w_fenced w → w_fenced w'))) w.
Proof.
  intros Hw Hr. destruct r as [r|]; [|by apply post_ret].
  destruct Hr as [Hj Hrec].
  assert (Hrun : running (set_reg r w)).
  { apply running_reg; [done..|]. destruct Hw as [_ _ Ht]. unfold journal_tracks in Ht.
    rewrite Hj in Ht. apply Ht. }
  intros fs. split; [apply Hrun|]. by intros ? [= <-].
Qed.

Lemma generation_post r w :
  loaded r w → fence_first w → known_action (cq_Action q) = true →
  (cq_Action q = "fence-delete" → r = None) →
  wp ('(present, (base, baseName)) ← settle cfg q r;
      if (present : bool) then act cfg new_identity q else
      marker ← on_host (query (λ h, inl (bool_decide (is_Some (markers h !! coldMarker cfg name)))));
      require (negb (marker : bool))
        (Errorf "cold marker without authoritative runner journal; operator inspection required");;
      if negb (offloading q) then rmdir (coldStageDir cfg name);; mret hot_status else
      new_generation cfg NewString q base baseName;;
      act cfg new_identity q) (post inv (λ _ w', finished w')) w.
Proof.
  intros Hl Hf Hknown Hfd. eapply post_bind; [by apply settle_post|].
  intros [[] [base baseName]] w1 Hw1 Hp; cbn [fst] in Hp.
  { destruct Hp as [-> [r' ->]]. destruct Hl as (Hw & Hj & Hr). apply act_post; try done.
    intros Ha. by specialize (Hfd Ha). }
  destruct Hp as [_ Hj1].
  assert (Hcalm : ∀ w', calm w1 w' → inv w' ∧ journal w' = None).
  { intros w' Hc. split; [by apply (inv_calm cfg name iid w1)|]. by rewrite (cm_journal _ _ _ _ _ Hc). }
  eapply (post_bind inv _ _ (λ _ w', calm w1 w')).
  { apply post_within; [apply calm_on_host, within_query, _|]. intros w' Hc. by apply Hcalm. }
  intros marker w2 Hw2 Hc2. destruct (Hcalm w2 Hc2) as [_ Hj2].
  eapply post_bind; [by apply (post_require inv)|]. intros _ ? _ [-> _].
  destruct (offloading q) eqn:Hoff; cbn [negb].
  - eapply post_bind; [by apply new_generation_post|]. intros _ w3 Hw3 (Hr3 & Hy3 & _).
    apply act_post; [done|done| | |done].
    + unfold fence_first, deleting. apply String.eqb_eq in Hoff. by rewrite Hoff.
    + apply String.eqb_eq in Hoff. by rewrite Hoff.
  - eapply (post_bind inv _ _ (λ _ w', calm w2 w')).
    { apply post_within; [apply calm_rmdir|]. intros w' Hc. by apply (inv_calm cfg name iid w2). }
    intros _ w3 Hw3 Hc3. apply post_ret; [done|]. unfold finished. rewrite Hoff.
    assert (Hj3 : journal w3 = None) by (by rewrite (cm_journal _ _ _ _ _ Hc3)).
    by destruct (String.eqb _ _); [left|].
Qed.

Lemma coldDiskLocked_post w :
  inv w → String.eqb (cq_Action q) "status" = false →
  wp (coldDiskLocked cfg new_identity NewString q) (post inv (λ _ w', finished w')) w.
Proof.
  intros Hw Hst. unfold coldDiskLocked. rewrite Hst. unfold step at 1.
  eapply post_bind; [by apply (post_query inv)|]. intros _ ? _ [-> _].
  eapply (post_bind inv _ _ (λ r w', w' = w ∧ match r with
    | Some r => journal w = Some (Some r) ∧ rec_ok iid r | None => journal w = None end)).
  { eapply wp_mono; [apply readCold_spec|]. intros o w' [-> Ho]. split; [done|].
    intros r ->. split; [done|]. by destruct r. }
  intros r ? _ [-> Hr]. eapply post_bind; [by apply (post_require inv)|]. intros _ ? _ [-> Hknown].
  assert (Hcalm : ∀ w', calm w w' → inv w') by (intros w' Hc; by apply (inv_calm cfg name iid w)).
  eapply (post_bind inv _ _ (λ _ w', calm w w')).
  { apply post_within; [|done]. apply within_for_each; [apply _|]. intros s. apply calm_query. }
  intros _ w1 Hw1 Hc1.
  eapply post_bind; [by apply (post_require inv)|]. intros _ ? _ [-> Hfd].
  eapply post_bind; [by apply admission_post|]. intros _ w2 Hw2 [Hc2 Hf2].
  assert (Hc12 : calm w w2) by (by transitivity w1).
  eapply (post_bind inv _ _ (λ _ w', calm w2 w')).
  { apply post_within; [apply calm_prepare_stage|]. intros w' Hc. by apply (inv_calm cfg name iid w2). }
  intros _ w3 Hw3 Hc3. assert (Hc13 : calm w w3) by (by transitivity w2).
  eapply post_bind.
  { apply load_post; [done|]. by rewrite (cm_journal _ _ _ _ _ Hc13). }
  intros _ w4 Hw4 [Hl4 Hf4].
  assert (Hff : fence_first w4).
  { intros Hd. apply Hf4, (cm_view _ _ _ _ _ Hc3), Hf2, Hd. }
  assert (Hnone : cq_Action q = "fence-delete" → r = None).
  { intros Ha. rewrite Ha in Hfd. destruct r; [|done]. by rewrite bool_decide_eq_true_2 in Hfd. }
  assert (Hload : ∀ w', w' = w4 → loaded r w' ∧ fence_first w') by (by intros ? ->).
  eapply (post_bind inv _ _ (λ _ w', w' = w4)).
  { lazymatch goal with |- wp (if ?b then _ else _) _ _ => destruct b end; [|by apply post_ret].
    unfold expected_disk. eapply post_bind.
    { apply (post_try_keep inv (λ w', w' = w4)); [by apply ValidateDisk_post|by intros ? ->]. }
    intros id ? _ [-> _]. eapply post_mono; [by apply (post_require inv)|done|].
    by intros _ ? _ [-> _]. }
  intros _ ? _ ->. by apply generation_post.
Qed.

(** What one request leaves, whatever fails: the invariant; when it succeeds, the
    journal it was asked for. *)
Lemma handle_post w :
  inv w → wp (handleColdDisk cfg new_identity NewString canonicalColdUUID q) (post inv (λ st w',
    if String.eqb (cq_Action q) "status"
    then w' = w ∧ st = match journal w with Some (Some r) => status_of r | _ => hot_status end
    else finished w')) w.
Proof.
  intros Hw. unfold handleColdDisk.
  eapply post_bind; [by apply (post_require inv)|]. intros _ ? _ [-> _].
  destruct (String.eqb (cq_Action q) "status") eqn:Hst.
  - eapply (post_bind inv _ _ (λ r w', w' = w ∧ match r with
      | Some r => journal w = Some (Some r) ∧ rec_ok iid r | None => journal w = None end)).
    { eapply wp_mono; [apply readCold_spec|]. intros o w' [-> Ho]. split; [done|].
      intros r ->. split; [done|]. by destruct r. }
    intros [r|] ? _ [-> Hr]; apply post_ret; try done.
    + by destruct Hr as [-> _].
    + by rewrite Hr.
  - eapply (post_bind inv _ _ (λ _ w', calm w w')).
    { apply post_within; [apply calm_on_host, frame_lockName|].
      intros w' Hc. by apply (inv_calm cfg name iid w). }
    intros _ w1 Hw1 _. by apply coldDiskLocked_post.
Qed.
End handle.
