(* ===== verification/ColdDiskSpec.v ===== *)
(** * What the runner's cold disks promise

    One incarnation under any sequence of requests to the handler, with failures
    and crashes anywhere, of guests that write while a start is admitted, and of
    other clients of the host and the store. *)
From stdpp Require Import relations.
From S2P Require Import Prelude GoStrings Paths RunnerState Runtime Receipts ReceiptStop Encodings.
From S2P Require Import RunnerTrace RunnerOps ColdDisk ColdInv ColdOps ColdMoves ColdHandle.

#[local] Open Scope Z_scope.

Section spec.
Context {R : Type} `{!coldRemote R, !coldRemoteView R, !coldRemoteLaws R}.
Context (cfg : ServerConfig).
Context (new_identity : World R → string → SubvolumeIdentity) (NewString : World R → string)
  (canonicalColdUUID : string → bool).
Implicit Types w : World R.

(** ** History *)

(** The handler never touches what the guest wrote and never forgets an upload. *)
Definition kept w w' : Prop :=
  remote_ok (w_remote w) →
  remote_ok (w_remote w') ∧ w_truth w' = w_truth w ∧ ∃ l, w_tried w' = (l ++ w_tried w)%list.
#[export] Instance kept_preorder : PreOrder kept.
Proof.
  split; [intros w H; by split_and!; [..|exists []]|].
  intros w1 w2 w3 H1 H2 Hok. destruct (H1 Hok) as (Hok2 & E1 & l1 & F1).
  destruct (H2 Hok2) as (Hok3 & E2 & l2 & F2). split_and!; [done|congruence|].
  exists (l2 ++ l1)%list. by rewrite F2, F1, app_assoc.
Qed.

Lemma kept_same w w' :
  w_remote w' = w_remote w → w_truth w' = w_truth w → w_tried w' = w_tried w → kept w w'.
Proof. intros E1 E2 E3 H. rewrite E1, E2, E3. by split_and!; [..|exists []]. Qed.

Lemma kept_on_host {A} (m : M Host A) : within kept (on_host m).
Proof. intros w. apply wp_on_host. intros fs. by apply kept_same. Qed.
Lemma kept_query {A} (f : World R → result A) : within kept (query f).
Proof. apply within_query, _. Qed.
Lemma kept_get_reg : within (S:=World R) kept get_reg.
Proof. intros w fs. by apply kept_same. Qed.
Lemma kept_update_reg f : within kept (update_reg f).
Proof. intros w fs. by apply kept_same. Qed.
Lemma kept_remote x' puts dels w : remote_step puts dels (w_remote w) x' → kept w (set_remote x' w).
Proof. intros Hs _. split_and!; [apply Hs|done|by exists []]. Qed.
Lemma kept_Put o p parent : within kept (Put o p parent).
Proof.
  intros w fs Hok. destruct (law_put o p parent w Hok fs) as (x' & -> & Hs & _).
  by eapply kept_remote.
Qed.
Lemma kept_Get o dest parent : within kept (Get o dest parent).
Proof.
  intros w fs Hok. destruct (law_get o dest parent w Hok fs) as (x' & dirs & ds & -> & Hs & _).
  split_and!; [apply Hs|done|by exists []].
Qed.
Lemma kept_Delete id : within kept (Delete id).
Proof.
  intros w fs Hok. destruct (law_delete id w Hok fs) as (x' & -> & Hs & _). by eapply kept_remote.
Qed.
Lemma kept_put_generation send parent : within kept (put_generation send parent).
Proof.
  unfold put_generation. apply within_bind; [apply _|apply kept_get_reg|]. intros r.
  apply within_bind; [apply _| |intros _; apply kept_Put].
  intros w fs Hok. cbn. split_and!; [done..|]. by exists [ob_ID (cd_Object r)].
Qed.

Ltac kept_call :=
  repeat first
    [ within_step
    | lazymatch goal with
      | |- within _ (on_host _) => apply kept_on_host
      | |- within _ (query _) => apply kept_query
      | |- within _ get_reg => apply kept_get_reg
      | |- within _ (update_reg _) => apply kept_update_reg
      | |- within _ (Put _ _ _) => apply kept_Put
      | |- within _ (Get _ _ _) => apply kept_Get
      | |- within _ (Delete _) => apply kept_Delete
      | |- within _ (put_generation _ _) => apply kept_put_generation
      | |- within _ (env _) =>
          apply within_env; [apply _|intros ?; repeat case_match; by apply kept_same]
      end ].

Lemma kept_writeCold name : within kept (writeCold cfg name).
Proof. unfold writeCold, atomicColdJSON, step. kept_call. Qed.
Lemma kept_RemoveTree p : within kept (RemoveTree (R:=R) p).
Proof. unfold RemoveTree, step. kept_call. Qed.
Lemma kept_clean name : within kept (cleanColdStages (R:=R) cfg name).
Proof. unfold cleanColdStages, step. kept_call. apply kept_RemoveTree. Qed.
Lemma kept_Snapshot src dst ro : within kept (SnapshotSubvolume new_identity src dst ro).
Proof. unfold SnapshotSubvolume, step. kept_call. Qed.
Lemma kept_coldObject id p : within kept (coldObject (R:=R) id p).
Proof. unfold coldObject, ValidateDisk, RequireReadonly, step. kept_call. Qed.
Lemma kept_base_usable r : within kept (base_usable (R:=R) cfg r).
Proof. unfold base_usable, ValidateDisk, RequireReadonly. kept_call. Qed.
Lemma kept_find_base p ns : within kept (find_base (R:=R) cfg p ns).
Proof.
  induction ns as [|n ns IH]; simpl; [kept_call|].
  unfold ValidateDisk, RequireReadonly. kept_call; exact IH.
Qed.
Lemma kept_recover name : within kept (recoverLocalCold (R:=R) cfg name).
Proof.
  unfold recoverLocalCold, ValidateDisk. kept_call; [apply kept_writeCold|apply kept_clean].
Qed.
Lemma kept_choose_base : within kept (choose_base (R:=R) cfg).
Proof.
  unfold choose_base, findColdBase. kept_call; try apply kept_base_usable. apply kept_find_base.
Qed.
Lemma kept_offload name : within kept (offloadCold cfg new_identity name).
Proof.
  unfold offloadCold, destination, put_base, evict, ValidateDisk, DeleteSubvolume, step. kept_call;
    first [apply kept_writeCold|apply kept_RemoveTree|apply kept_Snapshot|apply kept_coldObject
      |apply kept_choose_base].
Qed.
Lemma kept_hydrate name : within kept (hydrateCold cfg new_identity name).
Proof.
  unfold hydrateCold, disk_exists, destination, receive_candidate, rename_noreplace, mkdir,
    ValidateDisk, step. kept_call;
    first [apply kept_recover|apply kept_writeCold|apply kept_clean|apply kept_base_usable
      |apply kept_Snapshot].
Qed.
Lemma kept_finish name : within kept (finishColdPurge (R:=R) cfg name).
Proof. unfold finishColdPurge, rmdir, step. kept_call. Qed.
Lemma kept_purge name : within kept (purgeCold cfg name).
Proof.
  unfold purgeCold, destination. kept_call;
    first [apply kept_writeCold|apply kept_clean|apply kept_finish].
Qed.
Lemma kept_act q : within kept (act cfg new_identity q).
Proof.
  unfold act. kept_call;
    first [apply kept_offload|apply kept_recover|apply kept_hydrate|apply kept_purge].
Qed.
Lemma kept_handle q : within kept (handleColdDisk cfg new_identity NewString canonicalColdUUID q).
Proof.
  unfold handleColdDisk, coldDiskLocked, legacy_stage, admission, prepare_stage, expected_disk,
    settle, new_generation, ValidateDisk, rmdir, step. kept_call;
    first [apply kept_recover|apply kept_purge|apply kept_finish|apply kept_act|apply kept_writeCold
      |intros w fs; by apply kept_same].
Qed.

(** ** Histories of one incarnation *)

Context (name iid : string) (Hlayout : layout_ok cfg name).

#[local] Abbreviation D := (disk_path cfg name).
#[local] Abbreviation C := (stage_path cfg name "candidate").
#[local] Abbreviation inv := (inv cfg name iid).
#[local] Abbreviation journal := (journal cfg name).
#[local] Abbreviation w_fenced := (w_fenced cfg name iid).

(** What others may do meanwhile: nothing to the journal, the disk or the candidate.
    At the store, they never delete the object a journal rests on; an upload or a
    deletion of ours that was still under way may take effect late. *)
Record foreign w w' : Prop := {
  fr_journal : journal w' = journal w;
  fr_disk : w_disks w' !! D = w_disks w !! D;
  fr_candidate : w_disks w' !! C = w_disks w !! C;
  fr_tried : w_tried w' = w_tried w;
  fr_truth : w_truth w' = w_truth w;
  fr_fence : w_fenced w → w_fenced w';
  fr_remote : ∃ puts dels, remote_step puts dels (w_remote w) (w_remote w') ∧
    ∀ r, journal w = Some (Some r) → cd_Phase r ≠ "hot" → ¬ dels (ob_ID (cd_Object r));
}.

(** A guest writes only while the disk would be admitted to a start: the runner
    takes no disk from under a live VM ([storageIdleLocked]). *)
Inductive disk_step w : World R → Prop :=
  | ds_request q fs : cq_Name q = name → cq_InstanceID q = iid →
      disk_step w (handleColdDisk cfg new_identity NewString canonicalColdUUID q fs w).1.2
  | ds_guest fs d d' : (coldStartFence cfg name iid fs (w_host w)).1.1 = Ok tt →
      w_disks w !! D = Some d → dk_id d' = dk_id d →
      disk_step w (set_truth (dk_content d') (put_disks (<[D := d']> (w_disks w)) w))
  | ds_foreign w' : foreign w w' → disk_step w w'.
Definition disk_later : relation (World R) := rtc disk_step.

(** A new instance: its disk is local and nothing of it was ever sent. *)
Definition starts w : Prop :=
  remote_ok (w_remote w) ∧ journal w = None ∧ w_tried w = [] ∧
  ∃ d, w_disks w !! D = Some d ∧ dk_content d = w_truth w.

Lemma starts_inv w : starts w → inv w.
Proof.
  intros (Hok & Hj & Ht & d & Hd & Hc). split; [done| |].
  - right. rewrite Hj. exists d. by rewrite Hc.
  - unfold journal_tracks. rewrite Hj, Ht. intros i Hi. by apply not_elem_of_nil in Hi.
Qed.

(** A start the runner admits finds the journal absent, hot or purged. *)
Lemma start_admitted fs w :
  (coldStartFence cfg name iid fs (w_host w)).1.1 = Ok tt →
  ¬ w_fenced w ∧ (journal w = None ∨
    ∃ r, journal w = Some (Some r) ∧ (cd_Phase r = "hot" ∨ cd_Phase r = "purged")).
Proof.
  intros Hok. split; [by apply (coldStartFence_spec cfg name iid (w_host w) fs)|].
  enough (Hwp : wp (coldStartFence cfg name iid) (λ o _, o = Ok tt → journal w = None ∨
    ∃ r, journal w = Some (Some r) ∧ (cd_Phase r = "hot" ∨ cd_Phase r = "purged")) (w_host w))
    by exact (Hwp fs Hok).
  clear fs Hok.
  unfold coldStartFence, coldDeletionFence, readCold, syscall.
  apply wp_bind, wp_bind, wp_try, wp_query; cbn; [by apply wp_throw|done|].
  destruct (lookup_file _ _ _ _); [by apply wp_throw|]. apply wp_ret.
  apply wp_bind, wp_bind, wp_query; [done..|]. apply wp_bind, wp_query; [done..|]. cbn.
  change (colds (w_host w) !! receiptDir cfg name) with (journal w).
  destruct (journal w) as [[r|]|]; [|by apply wp_bind, wp_lift|].
  2: { apply wp_ret, wp_ret. by left. }
  apply wp_bind, wp_lift; cbn. apply wp_bind, wp_lift.
  destruct (check_cold iid r) as [r'|] eqn:Ec; [|done]. apply wp_ret.
  apply wp_bind, wp_require; [|done]. intros Hp. apply wp_bind, wp_try.
  assert (Hrr : r' = r).
  { unfold check_cold in Ec. repeat (case_match; try done). by injection Ec. }
  subst r'. eapply (wp_mono _ (λ _ _, True)); [by intros fs'|]. intros o h' _.
  destruct o as [id|e|]; [apply wp_require..|]; try done; intros _ _; right; exists r; (split; [done|]);
    apply orb_true_iff in Hp as [?%String.eqb_eq|?%String.eqb_eq]; auto.
Qed.

Lemma inv_guest fs d d' w :
  inv w → (coldStartFence cfg name iid fs (w_host w)).1.1 = Ok tt →
  w_disks w !! D = Some d → dk_id d' = dk_id d →
  inv (set_truth (dk_content d') (put_disks (<[D := d']> (w_disks w)) w)).
Proof.
  intros [Hok Hd Ht] Hs Hl Hid. apply start_admitted in Hs as [Hf Hj].
  set (w' := set_truth _ _).
  assert (Hl' : w_disks w' !! D = Some d') by (unfold w_disks at 1; cbn; apply lookup_insert_eq).
  split; [done| |done]. right. destruct Hd as [?|Hd]; [done|].
  change (ColdInv.journal cfg name w') with (journal w).
  destruct Hj as [Hj|(r & Hj & Hp)]; rewrite Hj in *; [by exists d'|].
  destruct Hd as [Hrec Hsafe]. split; [done|].
  assert (Hg : good_disk D (cd_Disk r) w').
  { exists d'. split_and!; [done| |done].
    destruct Hsafe as [_ H|_ H| | | | |]; try (destruct Hp; congruence);
      destruct H as (d0 & ? & ? & _); congruence. }
  destruct Hp; [by apply safe_hot|by apply safe_purged].
Qed.

Lemma inv_foreign w w' : inv w → foreign w w' → inv w'.
Proof.
  intros Hw [Hj Hd Hc Ht Htr Hf (puts & dels & Hs & Hn)].
  apply (inv_view cfg name iid (set_remote (w_remote w') w)); [by split|done| |].
  - intros r _. by apply (safe_calm cfg name iid); [split|].
  - apply (inv_step cfg name iid puts dels); [done| |done].
    destruct Hw as [_ [?|Hdata] _]; [by left|right]. intros r Hr. unfold ColdInv.journal in *.
    rewrite Hr in Hdata. destruct Hdata as [_ Hsafe].
    destruct Hsafe as [Hp Hg|Hp _|Hp _ _|Hp _ _ _|Hp _ _ _|Hp _ _ _|Hp _ _ _]; [by right|..];
      left; (apply Hn; [done|congruence]).
Qed.

Lemma disk_later_inv w w' : inv w → disk_later w w' → inv w'.
Proof.
  intros Hw Hs. induction Hs as [|w w1 w2 H _ IH]; [done|]. apply IH.
  destruct H as [q fs <- <-|fs d d' Hs Hl Hid|w1 Hf].
  - by apply (handle_post cfg q Hlayout new_identity NewString canonicalColdUUID w Hw fs).
  - by eapply inv_guest.
  - by apply (inv_foreign w).
Qed.

(** ** The promises *)

Definition on_disk w : Prop :=
  ∃ d, w_disks w !! D = Some d ∧ same_bytes (dk_content d) (w_truth w).
Definition at_store w : Prop :=
  w_disks w !! D = None ∧ ∃ r, journal w = Some (Some r) ∧ backed r w.

Lemma data_somewhere w : inv w → ¬ w_fenced w → on_disk w ∨ at_store w.
Proof.
  intros [_ [?|Hd] _] Hf; [done|]. destruct (journal w) as [[r|]|] eqn:Hj; [|done|by left].
  destruct Hd as [_ Hs].
  assert (Hgood : ∀ id, good_disk D id w → on_disk w) by (intros id (d & ? & _ & ?); by exists d).
  destruct Hs as [_ H|_ H|_ _ H|_ _ Hb [H|H]|_ _ Hb H|_ Hb H _|_ _ _ H];
    solve [left; by eapply Hgood | right; split; [done|by exists r]].
Qed.

(** C2. Every byte the guest wrote survives: until the instance is fenced for
    deletion, they are on the local disk or in the published object the journal
    names, whatever requests, failures, crashes and other clients intervene. *)
Theorem disk_never_lost w0 w :
  starts w0 → disk_later w0 w → ¬ w_fenced w → on_disk w ∨ at_store w.
Proof. intros Hs Hl. by apply data_somewhere, (disk_later_inv w0); [apply starts_inv|]. Qed.

(** C24. A start the runner admits runs on the bytes the guest wrote last. *)
Theorem start_sees_last_write w0 w fs :
  starts w0 → disk_later w0 w → (coldStartFence cfg name iid fs (w_host w)).1.1 = Ok tt →
  on_disk w.
Proof.
  intros Hs Hl Hok. apply start_admitted in Hok as [Hf Hj].
  destruct (disk_later_inv w0 w (starts_inv _ Hs) Hl) as [_ [?|Hd] _]; [done|].
  destruct Hj as [Hj|(r & Hj & Hp)]; rewrite Hj in Hd; [done|]. destruct Hd as [_ Hsafe].
  destruct Hsafe as [_ H|_ H| | | | |]; try (destruct Hp; congruence);
    destruct H as (d & ? & _ & ?); by exists d.
Qed.

(** C27. No uploaded copy is forgotten: an object of the instance that the store still
    has is the one its journal names; the others are gone for ever. *)
Theorem no_copy_forgotten w0 w i :
  starts w0 → disk_later w0 w → i ∈ w_tried w →
  settled w i ∨ ∃ r, journal w = Some (Some r) ∧ cd_Remote r = true ∧ ob_ID (cd_Object r) = i.
Proof.
  intros Hs Hl Hi. destruct (disk_later_inv w0 w (starts_inv _ Hs) Hl) as [_ _ Ht].
  unfold journal_tracks in Ht. destruct (journal w) as [[r|]|]; [|by left; apply Ht..].
  destruct Ht as [Ht _]. destruct (Ht i Hi) as [?|[? ?]]; [by left|right]. by exists r.
Qed.

(** C26. A request that succeeds has done what it was asked: an offload leaves the
    only copy at the store, a hydrate leaves the bytes on the local disk, a purge or
    a deletion leaves no uploaded copy; no request changes what the guest wrote. *)
Theorem request_honoured w0 w q fs st w' :
  starts w0 → disk_later w0 w → cq_Name q = name → cq_InstanceID q = iid →
  (handleColdDisk cfg new_identity NewString canonicalColdUUID q fs w).1 = (Ok st, w') →
  w_truth w' = w_truth w ∧ (∃ l, w_tried w' = (l ++ w_tried w)%list) ∧
  (cq_Action q = "offload" → ¬ w_fenced w' → at_store w') ∧
  (cq_Action q = "hydrate" → ¬ w_fenced w' → on_disk w') ∧
  (cq_Action q ∈ ["purge"; "delete"; "fence-delete"] →
     (∀ i, i ∈ w_tried w' → settled w' i) ∧ (¬ w_fenced w' → on_disk w')).
Proof.
  intros Hs Hl. pose proof (disk_later_inv w0 w (starts_inv _ Hs) Hl) as Hw. clear Hs Hl.
  intros Hqn Hqi Hrun.
  assert (Hp := handle_post cfg q). rewrite Hqn, Hqi in Hp.
  destruct (Hp Hlayout new_identity NewString canonicalColdUUID w Hw fs) as [Hw' Hfin]. clear Hp.
  destruct (kept_handle q w fs (inv_remote _ _ _ _ Hw)) as (_ & Htr & Hta).
  rewrite Hrun in *. cbn in *. specialize (Hfin st eq_refl).
  assert (Hnone : journal w' = None →
    (∀ i, i ∈ w_tried w' → settled w' i) ∧ (¬ w_fenced w' → on_disk w')).
  { intros Hj. destruct Hw' as [_ Hd Ht]. unfold data_ok, journal_tracks in *. rewrite Hj in *.
    split; [done|]. intros Hf. by destruct Hd. }
  split_and!; [done|done|..].
  - intros Ha Hf. unfold finished, offloading in Hfin. rewrite ?Hqn in Hfin. rewrite Ha in Hfin. cbn in Hfin.
    destruct Hfin as (r & Hj & Hp). destruct Hw' as [_ [?|Hd] _]; [done|]. rewrite Hj in Hd.
    destruct Hd as [_ Hsafe]. destruct Hsafe; try congruence. split; [done|]. by exists r.
  - intros Ha Hf. unfold finished, offloading in Hfin. rewrite ?Hqn in Hfin. rewrite Ha in Hfin. cbn in Hfin.
    destruct Hfin as [Hj|(r & Hj & Hp)]; [by apply Hnone|].
    destruct Hw' as [_ [?|Hd] _]; [done|]. rewrite Hj in Hd.
    destruct Hd as [_ Hsafe].
    destruct Hsafe as [_ H| | | | | |]; try congruence. destruct H as (d & ? & _ & ?). by exists d.
  - intros Ha. apply Hnone. rewrite !elem_of_cons, elem_of_nil in Ha.
    unfold finished, offloading in Hfin. rewrite ?Hqn in Hfin. by destruct Ha as [Ha|[Ha|[Ha|[]]]]; rewrite Ha in Hfin.
Qed.
End spec.
