(* ===== verification/ColdClient.v ===== *)
(** * The client of the cold store

    Models src/internal/coldstore/client.go: the runner's side of the protocol, over
    SSH, and with it the runner and one store as one system: [ssh] runs the forced
    command [Serve] of ColdServer.v on the store's state.  The client implements the
    interface [coldRemote] of ColdDisk.v.

    A server that dies, or an answer that is lost, is an error for the client; the
    store keeps what was done. *)
From S2P Require Import Prelude GoStrings Paths RunnerState Runtime ColdProtocol ColdServer Encodings.
From S2P Require Import ColdDisk.

#[local] Open Scope Z_scope.

(** [coldstore.Config]; the timeout in nanoseconds. *)
Record Config := mkConfig {
  Host : string;
  IdentityFile : string;
  KnownHostsFile : string;
  Timeout : Z;
}.

(** [hostPattern]: [^(root@)?[a-zA-Z0-9][a-zA-Z0-9.:-]*$]. *)
Definition host_first (c : ascii) : bool :=
  let n := byte_value c in
  ((97 <=? n) && (n <=? 122)) || ((65 <=? n) && (n <=? 90)) || ((48 <=? n) && (n <=? 57)).
Definition host_rest (c : ascii) : bool :=
  host_first c || Ascii.eqb c "." || Ascii.eqb c ":" || Ascii.eqb c "-".
Definition host_name (s : string) : bool := first_char host_first s && all_chars host_rest s.
Definition hostPattern (s : string) : bool :=
  host_name s || match CutPrefix s "root@" with Some s' => host_name s' | None => false end.

(** OpenSSH expands or splits none of the characters of a file name. *)
Definition safe_char (c : ascii) : bool :=
  negb ((byte_value c <=? 32) || Ascii.eqb c "%" || (byte_value c =? 34) ||
        (byte_value c =? 39) || (byte_value c =? 92)).

Section client.
Context (uuid_Parse : string → option string) (marshal : request → string)
  (unmarshal_request : string → result request) (marshal_object : Object → string).
Context {stream : Type} (send : disk → option disk → string → stream)
  (receive : stream → string → list disk → result (list disk)).
(** The store's choice of a stage's UUID; the client's of a temporary directory's
    name; the names a stream gives its subvolumes. *)
Context (stage_uuid : Store → string) (temp_name : World Store → string)
  (subvolume_name : stream → string).
Context (c : Config).
Implicit Types w : World Store.

(** ** Configuration *)

(** The whole trust chain of a credential, by [lstat]: one call that can fail. *)
Definition validateCredential (path : string) : M (World Store) unit :=
  require (IsAbs path && String.eqb (Clean path) path)
    (Errorf "SSH credential path must be absolute and clean");;
  step.

Definition validateSSH : M (World Store) unit :=
  require (hostPattern (Host c))
    (Errorf "host must be a hostname/IP, optionally prefixed root@");;
  for_each (λ p,
    validateCredential p;;
    require (all_chars safe_char p) (Errorf "unsafe SSH filename"))
    [IdentityFile c; KnownHostsFile c].

Definition Validate : M (World Store) unit :=
  if String.eqb (Host c) "" then mret tt else
  require (0 <=? Timeout c) (Errorf "cold store timeout must be nonnegative");;
  validateSSH;;
  for_each (λ _, step) ["ssh"; "btrfs"; "zstd"]. (* LookPath *)

Definition sshArgs (r : request) : M (World Store) (list string) :=
  validateSSH;;
  command ← lift (encodeRequest uuid_Parse marshal r);
  mret ["-F"; "/dev/null"; "-T"; "-o"; "BatchMode=yes"; "-o"; "StrictHostKeyChecking=yes";
        "-o"; "IdentitiesOnly=yes"; "-o"; "IdentityAgent=none"; "-o";
        "GlobalKnownHostsFile=/dev/null"; "-o";
        ("UserKnownHostsFile=" +:+ KnownHostsFile c)%stdpp; "-o"; "ConnectTimeout=15"; "-o";
        "ConnectionAttempts=1"; "-o"; "ServerAliveInterval=15"; "-o"; "ServerAliveCountMax=2";
        "-o"; "ClearAllForwardings=yes"; "-o"; "PermitLocalCommand=no"; "-o"; "ProxyCommand=none";
        "-l"; "root"; "-i"; IdentityFile c; "--"; Host c; command].

(** ** The transport *)

Definition err_ssh : error := Errorf "ssh: exit status".

(** [run(ctx, "ssh", args, input)]: the forced command is the last argument; every
    failure of the server, its death included, is an exit status here. *)
Definition serve (command : string) (input : stream)
  : M (World Store) (reply (stream:=stream)) := λ fs w,
  let '(o, s, fs') := Serve uuid_Parse send receive unmarshal_request
                        (stage_uuid (w_remote w)) command input fs (w_remote w) in
  (match o with Ok r => Ok r | _ => Err err_ssh end, set_remote s w, fs').

Definition ssh (args : list string) (input : stream)
  : M (World Store) (reply (stream:=stream)) :=
  r ← serve (List.last args EmptyString) input;
  step;; (* the answer comes back *)
  mret r.

(** Standard input that is not used. *)
Context (no_input : stream).

(** [limitBuffer]: no more of the answer is kept than metadata may have. *)
Definition overflow (o : Object) : bool :=
  (maxMetadata <? String.length (marshal_object o) + 1)%nat.

Definition client_stat (id : string) : M (World Store) Object :=
  args ← sshArgs (mkRequest "stat" (id_only id) "" "");
  r ← ssh args no_input;
  match r with
  | R_object o =>
      require (negb (overflow o)) (Errorf "oversized stat response");;
      lift (validate_object uuid_Parse o);;
      require (String.eqb (ob_ID o) id) (Errorf "stat returned wrong object ID");;
      mret o
  | _ => throw (Errorf "invalid JSON")
  end.

(** ** Put *)

(** [verifyDiskIdentity] of a local subvolume. *)
Definition verify_local (path : string) (o : Object) : M (World Store) unit :=
  d ← query (λ w, match w_disks w !! path with Some d => inl d | None => inr ErrNotExist end);
  lift (verifyDiskIdentity d o false).

(** [btrfs send | zstd]. *)
Definition send_stream (path parent : string) : M (World Store) stream :=
  query (λ w, match w_disks w !! path with
              | Some d =>
                  if nonempty parent then
                    match w_disks w !! parent with
                    | Some p => inl (send d (Some p) "zstd")
                    | None => inr ErrNotExist
                    end
                  else inl (send d None "zstd")
              | None => inr ErrNotExist
              end).

(** The upload proper. *)
Definition upload (o : Object) (snapshotPath parentPath : string) (args : list string)
  : M (World Store) unit :=
  (if nonempty (ob_Parent o) then
     parent ← client_stat (ob_Parent o);
     verify_local parentPath parent
   else mret tt);;
  input ← send_stream snapshotPath parentPath;
  ssh args input;;
  actual ← client_stat (ob_ID o);
  require (bool_decide (actual = o)) (Errorf "uploaded object metadata mismatch").

Definition client_Put (o : Object) (snapshotPath parentPath : string) : M (World Store) unit :=
  lift (validate_object uuid_Parse o);;
  require (Bool.eqb (nonempty parentPath) (nonempty (ob_Parent o)))
    (Errorf "parent path and object parent must be supplied together");;
  verify_local snapshotPath o;;
  args ← sshArgs (mkRequest "put" o "" "zstd");
  existing ← try (client_stat (ob_ID o));
  match existing with
  | inl existing =>
      require (bool_decide (existing = o))
        (Errorf "immutable object already exists with different metadata")
  | inr _ => upload o snapshotPath parentPath args
  end.

(** ** Get *)

(** [os.MkdirTemp(destDir, ".cold-receive-")]. *)
Definition temp_path (destDir : string) w : string :=
  (dir_prefix destDir +:+ ".cold-receive-" +:+ temp_name w)%stdpp.
Definition MkdirTemp (destDir : string) : M (World Store) string :=
  env (λ w, let p := temp_path destDir w in
    if bool_decide (p ∈ w_dirs w) then (inr ErrExist, w)
    else (inl p, set_dirs ({[p]} ∪ w_dirs w) w)).

(** The subvolumes of a stream, received into [stage]: the first under its own name,
    any others beside it. *)
Fixpoint put_received (stage n : string) (ds : list disk) (m : gmap string disk)
  : gmap string disk :=
  match ds with
  | [] => m
  | d :: ds' => <[(stage +:+ "/" +:+ n)%stdpp := d]> (put_received stage (n +:+ "'")%stdpp ds' m)
  end.

Definition receive_stream (stage : string) (st : stream) : M (World Store) (list disk) :=
  env (λ w, match receive st "zstd" (map snd (map_to_list (w_disks w))) with
            | inl ds => (inl ds, put_disks (put_received stage (subvolume_name st) ds (w_disks w)) w)
            | inr e => (inr e, w)
            end).

(** The rename that publishes the received container. *)
Definition publish_received (stage dest n : string) (d : disk) : M (World Store) unit :=
  env (λ w, if bool_decide (dest ∈ w_dirs w) then (inr ErrExist, w) else
    (inl tt, set_dirs ({[dest]} ∪ (w_dirs w ∖ {[stage]}))
               (put_disks (<[JoinPath [dest; n] := d]>
                  (delete (stage +:+ "/" +:+ n)%stdpp (w_disks w))) w))).

(** Below the temporary directory. *)
Definition receive_into (o : Object) (destDir stage : string) (args : list string)
  : M (World Store) string :=
  r ← ssh args no_input;
  match r with
  | R_stream st =>
      ds ← receive_stream stage st;
      d ← lift (receivedDisk ds o);
      step;; step;; step;; (* SyncPath *)
      let dest := JoinPath [destDir; ob_ID o] in
      publish_received stage dest (subvolume_name st) d;;
      step;;
      mret (JoinPath [dest; subvolume_name st])
  | _ => throw (Errorf "btrfs receive: exit status")
  end.

Definition client_Get (o : Object) (destDir parentID : string) : M (World Store) string :=
  lift (validate_object uuid_Parse o);;
  args ← sshArgs (mkRequest "get" (id_only (ob_ID o)) parentID "zstd");
  actual ← client_stat (ob_ID o);
  require (bool_decide (actual = o)) (Errorf "remote object metadata mismatch");;
  require (IsAbs destDir && String.eqb (Clean destDir) destDir)
    (Errorf "storage path must be absolute and clean");; (* RequireBtrfs *)
  step;;
  query (λ w, if bool_decide (destDir ∈ w_dirs w) then inl tt else inr ErrNotExist);;
  stage ← MkdirTemp destDir;
  finally (receive_into o destDir stage args) (RemoveTree stage).

(** ** Delete *)

Definition client_Delete (id : string) : M (World Store) unit :=
  args ← sshArgs (mkRequest "delete" (id_only id) "" "");
  ssh args no_input;;
  mret tt.

#[export] Instance client_coldRemote : coldRemote Store := {|
  Put := client_Put; Get := client_Get; Delete := client_Delete;
|}.
End client.
