(* ===== verification/ColdLink.v ===== *)
(** * The client and the server together implement the cold store's interface

    The laws [coldRemoteLaws] that the runner's invariant rests on are proved of the
    client of ColdClient.v talking to the server of ColdServer.v: the store's
    operations, cut off at any call, refine the abstract store of ColdInv.v. *)
From S2P Require Import Prelude GoStrings Paths Encodings RunnerState Runtime ColdProtocol.
From S2P Require Import ColdServer ColdTrace ColdSpec ColdDisk ColdInv ColdOps ColdClient.

#[local] Open Scope Z_scope.

(** ** What each operation of the server touches *)

(** The stages of withdrawn objects are fenced. *)
Definition stages_fenced (s : Store) : Prop :=
  ∀ id, is_Some (delete_stages s !! id) → id ∈ deleted s.

(** Objects appear only under [puts]; only [dels] are fenced. *)
Record touches (puts dels : string → Prop) (s s' : Store) : Prop := {
  tc_mono : deleted s ⊆ deleted s';
  tc_stages : stages_fenced s → stages_fenced s';
  tc_fences : stages_fenced s → ∀ i, i ∈ deleted s' → i ∈ deleted s ∨ dels i;
  tc_objects : ∀ i, is_Some (objects s' !! i) → is_Some (objects s !! i) ∨ puts i;
}.

#[export] Instance touches_preorder puts dels : PreOrder (touches puts dels).
Proof.
  split; [by intros s; split; auto|].
  intros s1 s2 s3 [M1 S1 F1 O1] [M2 S2 F2 O2]. split; [set_solver|auto| |].
  - intros Hs i Hi. destruct (F2 (S1 Hs) i Hi) as [Hi'|?]; [by apply F1|by right].
  - intros i Hi. destruct (O2 i Hi) as [Hi'|?]; [by apply O1|by right].
Qed.

Section touches.
Context (puts dels : string → Prop).
#[local] Abbreviation T := (touches puts dels).

Lemma touches_stage s ps : T s (set_put_stages ps s).
Proof. split; auto. Qed.
Lemma touches_record s id :
  id ∈ deleted s ∨ dels id → T s (set_deleted ({[id]} ∪ deleted s) s).
Proof.
  intros Hid. split; cbn; [set_solver| |set_solver|auto].
  intros Hs i Hi. apply elem_of_union_r, Hs, Hi.
Qed.
Lemma touches_removed s id : T s (set_delete_stages (delete id (delete_stages s)) s).
Proof.
  split; cbn; [done| |auto|auto]. intros Hs i Hi. cbn in Hi. apply lookup_delete_is_Some in Hi as [_ Hi]. by apply Hs.
Qed.

Ltac touch_call :=
  repeat first
    [ within_step
    | lazymatch goal with
      | |- within _ check => apply within_query, _
      | |- within _ (query _) => apply within_query, _
      | |- within _ (env _) =>
          apply within_env; [apply _|intros ?; repeat case_match; (done || apply touches_stage)]
      end ].

Lemma touch_read_fence id : within T (deletionRecord id false).
Proof. unfold deletionRecord. touch_call. Qed.
Lemma touch_object_disk id : within T (object_disk id).
Proof. apply within_query, _. Qed.
Lemma touch_remove_put_stage u : within T (remove_put_stage u).
Proof. unfold remove_put_stage. touch_call. Qed.
Lemma touch_fence id s :
  id ∈ deleted s ∨ dels id → wp (deletionRecord id true) (λ _ s', T s s') s.
Proof.
  intros Hid. pose proof (touches_record s id Hid) as Ht. unfold deletionRecord.
  do 2 (apply wp_bind, wp_query; [done..|]; cbn).
  apply wp_bind, wp_env; cbn; [done..| |done].
  do 5 (apply wp_bind, wp_query; [done..|]; cbn). by apply wp_ret.
Qed.

Lemma touch_remove_delete_stage id s :
  id ∈ deleted s → wp (remove_delete_stage id) (λ _ s', T s s') s.
Proof.
  intros Hid. unfold remove_delete_stage. apply wp_bind.
  eapply wp_mono; [apply touch_fence; by left|]. intros [b|e|] s1 Hs1; [|done..].
  assert (Hr : T s (set_delete_stages (delete id (delete_stages s1)) s1))
    by (etransitivity; [exact Hs1|apply touches_removed]).
  by apply wp_env.
Qed.

Context (uuid_Parse : string → option string).

Lemma touch_manifest id : within T (manifest uuid_Parse id).
Proof. unfold manifest. touch_call. Qed.
Lemma touch_stat id : within T (stat uuid_Parse id).
Proof. unfold stat. touch_call; auto using touch_read_fence, touch_manifest, touch_object_disk. Qed.
Lemma touch_no_child id e : within T (no_child uuid_Parse id e).
Proof. unfold no_child. touch_call. apply touch_manifest. Qed.
Lemma touch_get {stream : Type} (send : disk → option disk → string → stream) id parent cm :
  within T (get uuid_Parse send id parent cm).
Proof. unfold get. touch_call; auto using touch_stat, touch_object_disk. Qed.

Lemma touch_recoverStages s :
  stages_fenced s → wp (recoverStages uuid_Parse) (λ _ s', T s s') s.
Proof.
  intros Hs. unfold recoverStages. apply wp_bind, wp_query; [done..|]. cbn [of_result].
  apply wp_bind, wp_require; [intros _|done].
  do 3 (apply wp_bind, wp_query; [done..|]; cbn [of_result]).
  apply wp_bind. eapply wp_mono.
  { apply (wp_for_each _ (T s)); [done|]. intros x s' Hx%elem_of_sorted_keys Hs'.
    eapply wp_mono; [apply touch_remove_delete_stage|].
    - apply (tc_mono _ _ _ _ Hs'), Hs, Hx.
    - intros o s''. by transitivity s'. }
  intros [[]|e|] s1 Hs1; [|done..].
  eapply wp_mono.
  { assert (Hrest : within T (for_each remove_put_stage (sorted_keys (put_stages s));; check)).
    { apply within_bind; [apply _| |intros _; by apply within_query, _].
      apply within_for_each; [apply _|]. intros u. apply touch_remove_put_stage. }
    apply Hrest. }
  intros o s2. by transitivity s1.
Qed.

Lemma touch_withServer {A} (m : M Store A) s :
  stages_fenced s → (∀ s', T s s' → wp m (λ _ s'', T s' s'') s') →
  wp (withServer uuid_Parse m) (λ _ s', T s s') s.
Proof.
  intros Hs Hm. unfold withServer.
  do 4 (apply wp_bind, wp_query; [done..|]; cbn [of_result]).
  apply wp_bind. eapply wp_mono; [by apply touch_recoverStages|].
  intros [[]|e|] s1 Hs1; [|done..]. eapply wp_mono; [by apply Hm|].
  intros o s2. by transitivity s1.
Qed.
End touches.

Section store_side.

Lemma touch_publish u id dels : within (touches (eq id) dels) (publish u id).
Proof.
  apply within_env; [apply _|]. intros s. repeat case_match; try done.
  all: split; cbn; auto; intros i Hi; destruct (decide (id = i)) as [->|Hne]; auto;
    left; by rewrite lookup_insert_ne in Hi.
Qed.

Lemma touch_withdraw puts dels id s :
  id ∈ deleted s → wp (withdraw id) (λ _ s', touches puts dels s s') s.
Proof.
  intros Hid. unfold withdraw.
  assert (HT : ∀ c, touches puts dels s (set_objects (delete id (objects s))
    (set_delete_stages (<[id := c]> (delete_stages s)) s))).
  { intros c. split; cbn; [done| |auto|].
    - intros Hs i Hi. cbn in *. destruct (decide (id = i)) as [<-|Hne]; [done|].
      rewrite lookup_insert_ne in Hi by done. by apply Hs.
    - intros i Hi. apply lookup_delete_is_Some in Hi as [_ Hi]. by left. }
  apply wp_env; [done..| |]; destruct (objects s !! id), (delete_stages s !! id);
    cbn [of_result fst snd]; done || apply HT.
Qed.

Context (uuid_Parse : string → option string).

Lemma touch_put {stream} (receive : stream → string → list disk → result (list disk))
    u o input cm dels :
  within (touches (eq (ob_ID o)) dels) (put uuid_Parse receive u o input cm).
Proof.
  unfold put, receive_object.
  repeat first
    [ apply touch_read_fence | apply touch_stat | apply touch_remove_put_stage | apply touch_publish
    | within_step
    | lazymatch goal with
      | |- within _ check => apply within_query, _
      | |- within _ (query _) => apply within_query, _
      | |- within _ (env _) =>
          apply within_env; [apply _|intros ?; repeat case_match; (done || apply touches_stage)]
      end ].
Qed.

Lemma touch_delete puts id s :
  stages_fenced s → wp (s_delete uuid_Parse id) (λ _ s', touches puts (eq id) s s') s.
Proof.
  intros Hs. unfold s_delete. set (T := touches puts (eq id)).
  assert (HE : ∀ A (m : M Store A) k Q s1, within T m → T s s1 →
    (∀ a s', T s s' → wp (k a) Q s') → (∀ (o : outcome unit) s', T s s' → Q o s') → wp (m ≫= k) Q s1).
  { intros A m k Q s1 Hm H1 Hk HQ. apply wp_bind. eapply wp_mono; [apply Hm|].
    intros [a|e|] s2 H2; [apply Hk|apply HQ..]; by transitivity s1. }
  apply wp_bind. eapply wp_mono; [by apply touch_recoverStages|].
  intros [[]|e|] s1 H1; [|done..].
  apply HE; [apply within_query, _|done| |done]. intros present s2 H2.
  destruct (negb present).
  { apply wp_bind. eapply wp_mono; [apply (touch_fence puts (eq id)); by right|].
    intros [b|e|] s3 H3; [apply wp_ret|..]; by transitivity s2. }
  apply HE; [apply touch_manifest|done| |done]. intros o s3 H3.
  apply HE; [apply touch_object_disk|done| |done]. intros d s4 H4.
  apply HE; [apply within_lift, _|done| |done]. intros _ s5 H5.
  apply HE; [apply within_query, _|done| |done]. intros es s6 H6.
  apply HE; [apply within_for_each; [apply _|intros ?; apply touch_no_child]|done| |done].
  intros _ s7 H7. apply HE; [apply within_query, _|done| |done]. intros _ s8 H8.
  apply wp_bind. eapply wp_mono.
  { apply wp_and; [apply (touch_fence puts (eq id)); by right|apply record_created]. }
  intros [b|e|] s9 [H9 [_ Hin]]; [|by transitivity s8..]. specialize (Hin b eq_refl).
  assert (Hs9 : T s s9) by (by transitivity s8).
  apply wp_bind. eapply wp_mono; [by apply (touch_withdraw puts (eq id))|].
  intros [[]|e|] s10 H10; [|by transitivity s9..].
  assert (Hs10 : T s s10) by (by transitivity s9).
  eapply wp_mono; [apply (touch_recoverStages puts (eq id)), (tc_stages _ _ _ _ Hs10), Hs|].
  intros ? s11 H11. by transitivity s10.
Qed.

(** ** The abstract store *)

#[export] Instance store_view : coldRemoteView Store := {|
  remote_ok := λ s, store_ok uuid_Parse s ∧ stages_fenced s;
  has := λ s o, holds o s;
  present := λ s id, is_Some (objects s !! id);
  gone := λ s id, id ∈ deleted s;
|}.

Lemma step_refl puts dels (s : Store) : remote_ok s → remote_step puts dels s s.
Proof. intros Hs. split; auto. Qed.

Lemma step_trans puts dels (s1 s2 s3 : Store) :
  remote_step puts dels s1 s2 → remote_step puts dels s2 s3 → remote_step puts dels s1 s3.
Proof.
  intros [O1 G1 F1 P1 H1] [O2 G2 F2 P2 H2]. split; [done|auto| | |].
  - intros i Hi. destruct (F2 i Hi) as [?|?]; [by apply F1|by right].
  - intros i Hi. destruct (P2 i Hi) as [?|[? Hn]]; [by apply P1|right]. split; [done|].
    intros Hg. by apply Hn, G1.
  - intros o Ho. destruct (H1 o Ho) as [?|?]; [by apply H2|right; by apply G2].
Qed.

Lemma step_weaken (puts puts' dels dels' : string → Prop) (s1 s2 : Store) :
  (∀ i, puts i → puts' i) → (∀ i, dels i → dels' i) →
  remote_step puts dels s1 s2 → remote_step puts' dels' s1 s2.
Proof.
  intros Hp Hd [O1 G1 F1 P1 H1]. split; [done|done| | |done].
  - intros i Hi. destruct (F1 i Hi); auto.
  - intros i Hi. destruct (P1 i Hi) as [?|[? ?]]; auto.
Qed.

Lemma step_of puts dels (s s' : Store) :
  stages_fenced s → store_le s s' → store_ok uuid_Parse s' → touches puts dels s s' →
  remote_step puts dels s s'.
Proof.
  intros Hs [Hf Hnew Hold] Hok [Hm Hst Hfe Ho]. split.
  - by split; [|apply Hst].
  - intros i. cbn. set_solver.
  - by apply Hfe.
  - intros i Hi. destruct (Ho i Hi) as [?|Hp]; [by left|]. cbn in Hi. destruct Hi as [ct Hc].
    destruct (Hnew i ct Hc) as [H|[_ Hg]]; [left; by exists ct|by right].
  - intros o [d Hd]. destruct (Hold (ob_ID o)) as [[ct Hc]|Hg]; [by eexists| |by right].
    left. exists d. destruct (Hnew _ _ Hc) as [H|[H _]]; congruence.
Qed.
End store_side.

(** ** A served command refines a step of the abstract store *)

Section served.
Context (uuid_Parse : string → option string) (marshal : request → string)
  (unmarshal_request : string → result request) {stream : Type}.
Context (send : disk → option disk → string → stream)
  (receive : stream → string → list disk → result (list disk)).
(** encoding/json reads back what it wrote. *)
Context (Hjson : ∀ r, unmarshal_request (marshal r) = inl r).
#[local] Existing Instance store_view.
#[local] Abbreviation view := (store_view uuid_Parse).
#[local] Abbreviation step_ puts dels := (@remote_step _ view puts dels).

Lemma fences_step puts dels s s' :
  remote_ok (coldRemoteView := view) s → fences_le s s' → touches puts dels s s' → step_ puts dels s s'.
Proof.
  intros [Hok Hs] Hf Ht. apply step_of; [done|by apply fences_store_le| |done].
  by apply (store_ok_fences uuid_Parse s).
Qed.

Lemma withServer_post {A} (m : M Store A) (P : A → Store → Prop) puts dels s :
  remote_ok (coldRemoteView := view) s →
  (∀ s1, remote_ok (coldRemoteView := view) s1 →
     wp m (post (step_ puts dels s1) P) s1) →
  wp (withServer uuid_Parse m) (post (step_ puts dels s) P) s.
Proof.
  intros Hs Hm. unfold withServer.
  do 4 (eapply post_bind; [by apply post_query, step_refl|]; intros _ ? _ [-> _]).
  eapply (post_bind _ _ _ (λ _ s1, step_ puts dels s s1)).
  { eapply wp_mono.
    { apply wp_and; [apply fence_recoverStages|apply (touch_recoverStages puts dels), Hs]. }
    intros o s1 [Hf Ht]. assert (step_ puts dels s s1) by (by apply fences_step). by split. }
  intros _ s1 H1 _. eapply post_mono; [apply Hm, H1| |done].
  intros s2 H2. by eapply step_trans.
Qed.

Lemma same_step puts dels s s' :
  remote_ok (coldRemoteView := view) s → same_store s s' → touches puts dels s s' → step_ puts dels s s'.
Proof. intros Hs Hsame. apply fences_step; [done|by apply same_fences]. Qed.

(** What [stat] reports is published. *)
Definition published (id : string) (o : Object) (s : Store) : Prop :=
  holds o s ∧ ob_ID o = id ∧ id ∉ deleted s.

Lemma stat_spec id s :
  wp (stat uuid_Parse id) (λ r s', same_store s s' ∧ ∀ o, r = Ok o → published id o s') s.
Proof.
  unfold stat. apply wp_bind. eapply wp_mono; [apply not_fenced|].
  intros [[]|e|] s1 [H1 Hn]; [by apply wp_throw| |by split..]. specialize (Hn eq_refl).
  apply wp_bind. eapply wp_mono; [apply manifest_spec|].
  intros [o|e|] s2 [H2 Ho]; [|by split; [transitivity s1|]..].
  destruct (Ho o eq_refl) as (ct & Hc & Hm & Hid & _).
  assert (H02 : same_store s s2) by (by transitivity s1).
  apply wp_bind. eapply wp_mono; [apply same_object_disk|].
  intros [d|e|] s3 H3; [|by split; [transitivity s2|]..].
  assert (H03 : same_store s s3) by (by transitivity s2).
  apply wp_bind, wp_lift. destruct (verifyDiskIdentity d o true) as [[]|]; [|done].
  apply wp_ret. split; [done|]. intros o' [= <-]. split_and!; [|done|].
  - exists (ct_disk ct). rewrite Hid. destruct H3 as [-> _], H2 as [-> _]. rewrite Hc.
    destruct ct; cbn in *. by subst.
  - destruct H03 as [_ ->]. done.
Qed.

Lemma stat_post id puts dels s :
  remote_ok (coldRemoteView := view) s →
  wp (stat uuid_Parse id) (post (step_ puts dels s) (published id)) s.
Proof.
  intros Hs. eapply wp_mono; [apply wp_and; [apply stat_spec|apply (touch_stat puts dels)]|].
  intros r s' [[Hsame Ho] Ht]. split; [by apply same_step|done].
Qed.

(** What a request may publish and fence, and what its answer says. *)
Definition putting (r : request) (i : string) : Prop :=
  rq_Operation r = "put" ∧ ob_ID (rq_Object r) = i.
Definition removing (r : request) (i : string) : Prop :=
  rq_Operation r = "delete" ∧ ob_ID (rq_Object r) = i.
Definition answered (r : request) (rep : reply (stream:=stream)) (s : Store) : Prop :=
  (rq_Operation r = "stat" → ∀ o, rep = R_object o → published (ob_ID (rq_Object r)) o s) ∧
  (rq_Operation r = "delete" →
     ob_ID (rq_Object r) ∈ deleted s ∧ objects s !! ob_ID (rq_Object r) = None).

Lemma encode_inv r command :
  encodeRequest uuid_Parse marshal r = inl command →
  command = command_of (marshal r) ∧ validate_request uuid_Parse r = inl tt.
Proof.
  unfold encodeRequest. destruct (validate_request uuid_Parse r) as [[]|] eqn:Hv; [|done].
  by intros [= <-].
Qed.

Lemma command_inj b b' : command_of b = command_of b' → b = b'.
Proof.
  unfold command_of. intros H.
  assert (He : EncodeToString b = EncodeToString b').
  { apply (f_equal (λ s, CutPrefix s (protocol +:+ String space ""))) in H.
    change (String space (EncodeToString b)) with (String space "" +:+ EncodeToString b)%stdpp in H.
    change (String space (EncodeToString b')) with (String space "" +:+ EncodeToString b')%stdpp in H.
    rewrite <- !append_assoc, !CutPrefix_append in H. by injection H. }
  apply (f_equal DecodeString) in He. rewrite !DecodeString_EncodeToString in He. by injection He.
Qed.

Lemma Serve_post u r command input s :
  encodeRequest uuid_Parse marshal r = inl command → remote_ok (coldRemoteView := view) s →
  wp (Serve uuid_Parse send receive unmarshal_request u command input)
    (post (step_ (putting r) (removing r) s) (answered r)) s.
Proof.
  intros [Hc Hv]%encode_inv Hs. unfold Serve.
  eapply (post_bind _ _ _ (λ r' s', s' = s ∧ r' = r)).
  { apply wp_lift. split; [destruct (parseRequest uuid_Parse unmarshal_request command); by apply step_refl|].
    intros r' Hr. destruct (parseRequest uuid_Parse unmarshal_request command) as [r1|] eqn:Hp; [|done].
    injection Hr as ->. apply parse_inv in Hp as (b & Hb & _ & Hu & _). split; [done|].
    rewrite Hc in Hb. apply command_inj in Hb. subst b. rewrite Hjson in Hu. by injection Hu. }
  intros ? ? _ [-> ->]. apply withServer_post; [done|]. intros s1 Hs1.
  destruct (String.eqb_spec (rq_Operation r) "stat") as [Hop|H1].
  { eapply post_bind; [by apply stat_post|]. intros o s2 H2 Ho. apply post_ret; [done|].
    split; [|by rewrite Hop]. by intros _ ? [= <-]. }
  destruct (String.eqb_spec (rq_Operation r) "put") as [Hop|H2].
  { eapply (post_bind _ _ _ (λ _ _, True)).
    { eapply wp_mono; [apply wp_and; [apply (sound_put uuid_Parse receive u (rq_Object r) input (rq_Compression r)), Hs1|]|].
      - by apply valid_put.
      - apply (touch_put uuid_Parse receive u (rq_Object r) input (rq_Compression r) (removing r)).
      - intros o s2 [(Hle & Hok & _) Ht]. split; [|done].
        apply (step_weaken _ (eq (ob_ID (rq_Object r))) _ (removing r)); [by intros i <-|done|].
        apply step_of; [apply Hs1|done..]. }
    intros _ s2 H3 _. apply post_ret; [done|]. by split; rewrite Hop. }
  destruct (String.eqb (rq_Operation r) "get") eqn:Hget.
  { apply String.eqb_eq in Hget. eapply (post_bind _ _ _ (λ _ _, True)).
    { eapply wp_mono; [apply wp_and; [apply same_get|apply (touch_get (putting r) (removing r) uuid_Parse send)]|].
      intros o s2 [Hsame Ht]. split; [by apply same_step|done]. }
    intros st s2 H3 _. apply post_ret; [done|]. by split; rewrite Hget. }
  destruct (String.eqb_spec (rq_Operation r) "delete") as [Hop|H3].
  { eapply (post_bind _ _ _ (λ _ s2, ob_ID (rq_Object r) ∈ deleted s2 ∧
      objects s2 !! ob_ID (rq_Object r) = None)).
    { eapply wp_mono; [apply wp_and; [apply (sound_delete uuid_Parse), Hs1|]|].
      - apply (touch_delete uuid_Parse (putting r)), Hs1.
      - intros o s2 [(Hle & Hok & Hg) Ht]. split; [|by intros [] ->; apply Hg].
        apply (step_weaken _ (putting r) _ (eq (ob_ID (rq_Object r)))); [done|by intros i <-|].
        apply step_of; [apply Hs1|done..]. }
    intros _ s2 H4 Hd. apply post_ret; [done|]. by split; [rewrite Hop|]. }
  apply post_throw. by apply step_refl.
Qed.
End served.
