(* ===== verification/ColdRefine.v ===== *)
(** * The client implements the cold store's interface

    Every operation of the client of ColdClient.v, served by the server of
    ColdServer.v over a connection that can fail at any call, keeps the laws
    [coldRemoteLaws] the runner relies on. *)
From S2P Require Import Prelude GoStrings Paths Encodings RunnerState Runtime ColdProtocol.
From S2P Require Import ColdServer ColdTrace ColdSpec ColdDisk ColdInv ColdOps ColdClient ColdLink.

#[local] Open Scope Z_scope.

(** ** Paths below a directory *)

Lemma dir_prefix_ext d : ∃ t, dir_prefix d = (d +:+ t)%stdpp.
Proof.
  unfold dir_prefix. case_match; [|by eexists]. exists "". by rewrite append_nil_r.
Qed.

Lemma under_inv d p : under d p = true → ∃ t, p = (d +:+ t)%stdpp.
Proof.
  unfold under. intros [->%String.eqb_eq|H]%orb_true_iff.
  - exists "". by rewrite append_nil_r.
  - unfold HasPrefix in H. destruct (CutPrefix p (dir_prefix d)) as [t|] eqn:E; [|done].
    apply CutPrefix_Some in E. destruct (dir_prefix_ext d) as [u Hu]. exists (u +:+ t)%stdpp.
    by rewrite E, Hu, append_assoc.
Qed.

Lemma under_below d t : under d (dir_prefix d +:+ t)%stdpp = true.
Proof. unfold under, HasPrefix. rewrite CutPrefix_append. apply orb_true_r. Qed.

Lemma child_below d e : ∃ t, child d e = (dir_prefix d +:+ t +:+ e)%stdpp ∧ (t = "" ∨ t = "/").
Proof.
  unfold child, dir_prefix. destruct (String.eqb_spec d "/") as [->|Hne]; [by exists ""; auto|].
  case_match; [by exists "/"; auto|]. exists "". split; [|by left]. by rewrite append_assoc.
Qed.
Lemma child_ext d e : ∃ t, child d e = (d +:+ t)%stdpp.
Proof. unfold child. case_match eqn:E; [|by eexists]. apply String.eqb_eq in E as ->. by exists e. Qed.

(** A UUID in its canonical form. *)
Definition canonical (u : string) : bool :=
  (String.length u =? 36)%nat && all_chars (λ c, is_hex c || Ascii.eqb c "-") u.

Lemma all_chars_no_byte p c u :
  all_chars p u = true → p c = false → ContainsByte u c = false ∧ first_char (λ x, Ascii.eqb x c) u = false.
Proof.
  induction u as [|x u IH]; [done|]. cbn. intros [Hx Hu]%andb_prop Hc. destruct (IH Hu Hc) as [IHu _].
  assert (Hn : x ≠ c) by congruence. split; [apply orb_false_iff; split; [|exact IHu]|].
  - rewrite ?Ascii.eqb_neq. done || (apply Ascii.eqb_neq; congruence).
  - by apply Ascii.eqb_neq.
Qed.

Lemma canonical_segment u :
  canonical u = true → segment u = true ∧ first_char (λ c, Ascii.eqb c ".") u = false.
Proof.
  unfold canonical. intros [Hl%Nat.eqb_eq Hc]%andb_prop.
  destruct (all_chars_no_byte _ "/" u Hc eq_refl) as [Hs _].
  destruct (all_chars_no_byte _ "." u Hc eq_refl) as [_ Hd]. split; [|done].
  unfold segment. rewrite Hs. destruct u as [|a [|b [|c u]]]; try done.
  by rewrite !(proj2 (String.eqb_neq _ _)) by congruence.
Qed.

(** ** The client *)

Section client.
Context (uuid_Parse : string → option string) (marshal : request → string)
  (unmarshal_request : string → result request) (marshal_object : Object → string).
Context {stream : Type} (send : disk → option disk → string → stream)
  (receive : stream → string → list disk → result (list disk)).
Context (stage_uuid : Store → string) (temp_name : World Store → string)
  (subvolume_name : stream → string) (c : Config) (no_input : stream).
(** encoding/json reads back what it wrote; a UUID is read into its canonical form; a
    subvolume's name is one element of a path. *)
Context (Hjson : ∀ r, unmarshal_request (marshal r) = inl r)
  (Huuid : ∀ s u, uuid_Parse s = Some u → canonical u = true)
  (Hname : ∀ st, segment (subvolume_name st) = true).
Implicit Types w : World Store.
#[local] Existing Instance store_view.
#[local] Abbreviation view := (store_view uuid_Parse).
#[local] Abbreviation step_ puts dels := (@remote_step _ view puts dels).
#[local] Abbreviation ok w := (remote_ok (coldRemoteView := view) (w_remote w)).
#[local] Abbreviation ssh := (ssh uuid_Parse unmarshal_request send receive stage_uuid).
#[local] Abbreviation client_stat :=
  (client_stat uuid_Parse marshal unmarshal_request marshal_object send receive stage_uuid c no_input).

(** Only the store changes. *)
Definition remotely (puts dels : string → Prop) w w' : Prop :=
  ∃ x', w' = set_remote x' w ∧ step_ puts dels (w_remote w) x'.

Lemma remotely_ok puts dels w w' : remotely puts dels w w' → ok w'.
Proof. intros (x' & -> & Hs). apply Hs. Qed.
Lemma remotely_refl puts dels w : ok w → remotely puts dels w w.
Proof. intros Hok. exists (w_remote w). split; [by destruct w|by apply step_refl]. Qed.
Lemma remotely_trans puts dels w1 w2 w3 :
  remotely puts dels w1 w2 → remotely puts dels w2 w3 → remotely puts dels w1 w3.
Proof.
  intros (x & -> & H1) (x' & -> & H2). exists x'. split; [done|]. by eapply step_trans.
Qed.
Lemma remotely_weaken (puts puts' dels dels' : string → Prop) w w' :
  (∀ i, puts i → puts' i) → (∀ i, dels i → dels' i) →
  remotely puts dels w w' → remotely puts' dels' w w'.
Proof. intros Hp Hd (x & -> & H). exists x. split; [done|]. by eapply step_weaken. Qed.

Lemma post_local {A} (m : M (World Store) A) puts dels w :
  ok w → within eq m → wp m (post (remotely puts dels w) (λ _ w', w' = w)) w.
Proof.
  intros Hok Hm. eapply wp_mono; [apply Hm|]. intros o w' <-. split; [by apply remotely_refl|done].
Qed.

Lemma same_validateSSH : within eq (validateSSH c).
Proof. unfold validateSSH, validateCredential, step. repeat within_step. Qed.

Lemma sshArgs_post r puts dels w :
  ok w → wp (sshArgs uuid_Parse marshal c r) (post (remotely puts dels w)
    (λ args w', w' = w ∧ encodeRequest uuid_Parse marshal r = inl (List.last args EmptyString))) w.
Proof.
  intros Hok. unfold sshArgs.
  eapply post_bind; [apply post_local, same_validateSSH; done|]. intros _ w1 _ ->.
  eapply post_bind; [by apply post_lift, remotely_refl|]. intros command w2 _ [-> He].
  apply post_ret; [by apply remotely_refl|]. by split.
Qed.

Lemma ssh_post r args input w :
  ok w → encodeRequest uuid_Parse marshal r = inl (List.last args EmptyString) →
  wp (ssh args input) (post (remotely (putting r) (removing r) w)
    (λ rep w', answered r rep (w_remote w'))) w.
Proof.
  intros Hok He. unfold ColdClient.ssh.
  eapply (post_bind _ _ _ (λ rep w', answered r rep (w_remote w'))).
  { intros fs. unfold serve.
    pose proof (Serve_post uuid_Parse marshal unmarshal_request send receive Hjson
      (stage_uuid (w_remote w)) r _ input _ He Hok fs) as [Hs Ha].
    destruct (Serve _ _ _ _ _ _ _ fs (w_remote w)) as [[o s] fs']. cbn in *. split; [by exists s|].
    intros rep. destruct o; [intros [= <-]; by apply Ha|done..]. }
  intros rep w1 H1 Ha. eapply post_bind; [by apply post_query|]. intros _ w2 _ [-> _].
  by apply post_ret.
Qed.

(** A request that neither publishes nor deletes. *)
Lemma ssh_read_post r args input puts dels w :
  rq_Operation r = "stat" ∨ rq_Operation r = "get" →
  ok w → encodeRequest uuid_Parse marshal r = inl (List.last args EmptyString) →
  wp (ssh args input) (post (remotely puts dels w) (λ rep w', answered r rep (w_remote w'))) w.
Proof.
  intros Hop Hok He. eapply post_mono; [by apply ssh_post| |done]. intros w'.
  apply remotely_weaken; unfold putting, removing; intros i; destruct Hop as [->| ->]; by intros [? _].
Qed.

Lemma client_stat_post id puts dels w :
  ok w → wp (client_stat id) (post (remotely puts dels w)
    (λ o w', published id o (w_remote w'))) w.
Proof.
  intros Hok. unfold ColdClient.client_stat.
  eapply post_bind; [by apply sshArgs_post|]. intros args w1 _ [-> He].
  eapply post_bind; [by eapply ssh_read_post; [left| |exact He]|].
  intros rep w2 H2 [Ha _]. specialize (Ha eq_refl). destruct rep as [o| |]; [|by apply post_throw..].
  eapply post_bind; [by apply post_require|]. intros _ w3 _ [-> _].
  eapply post_bind; [by apply post_lift|]. intros _ w3 _ [-> _].
  eapply post_bind; [by apply post_require|]. intros _ w3 _ [-> _].
  apply post_ret; [done|]. by apply Ha.
Qed.

Lemma client_Delete_post id w :
  ok w → wp (client_Delete uuid_Parse marshal unmarshal_request send receive stage_uuid c no_input id)
    (post (remotely nothing (eq id) w)
      (λ _ w', id ∈ deleted (w_remote w') ∧ objects (w_remote w') !! id = None)) w.
Proof.
  intros Hok. unfold client_Delete.
  eapply post_bind; [by apply sshArgs_post|]. intros args w1 _ [-> He].
  eapply (post_bind _ _ _ (λ _ w', id ∈ deleted (w_remote w') ∧ objects (w_remote w') !! id = None)).
  { eapply post_mono; [apply ssh_post; [done|exact He]| |].
    - intros w'. apply remotely_weaken; unfold putting, removing; cbn; intros i; [by intros [? _]|by intros [_ ?]].
    - intros rep w' _ [_ Hd]. by apply Hd. }
  intros _ w2 H2 Hd. by apply post_ret.
Qed.

(** ** Put *)

Lemma local_verify path o : within eq (verify_local path o).
Proof. unfold verify_local. repeat within_step. Qed.
Lemma local_send path parent : within eq (send_stream send path parent).
Proof. unfold send_stream. repeat within_step. Qed.

Lemma upload_post o snapshotPath parentPath args w :
  ok w → encodeRequest uuid_Parse marshal (mkRequest "put" o "" "zstd") =
    inl (List.last args EmptyString) →
  wp (upload uuid_Parse marshal unmarshal_request marshal_object send receive stage_uuid c no_input
        o snapshotPath parentPath args)
    (post (remotely (eq (ob_ID o)) nothing w) (λ _ w', published (ob_ID o) o (w_remote w'))) w.
Proof.
  intros Hok He. unfold upload. set (I := remotely _ _ w). fold client_stat.
  assert (H0 : I w) by by apply remotely_refl.
  assert (Hlocal : ∀ A (m : M (World Store) A) w1, I w1 → within eq m →
    wp m (post I (λ _ w', w' = w1)) w1).
  { intros A m w1 H1 Hm. eapply wp_mono; [apply Hm|]. by intros r w' <-. }
  assert (Hstat : ∀ id w1, I w1 →
    wp (client_stat id) (post I (λ o w', published id o (w_remote w'))) w1).
  { intros id w1 H1. eapply post_mono; [apply client_stat_post; by eapply remotely_ok| |done].
    intros w'. by apply remotely_trans. }
  eapply (post_bind _ _ _ (λ _ _, True)).
  { case_match; [|by apply post_ret]. eapply post_bind; [by apply Hstat|].
    intros parent w1 H1 _. eapply post_mono; [apply Hlocal, local_verify; done|done|done]. }
  intros _ w1 H1 _. eapply post_bind; [apply Hlocal, local_send; done|]. intros input w2 _ ->.
  eapply (post_bind _ _ _ (λ _ _, True)).
  { eapply post_mono; [apply ssh_post; [by eapply remotely_ok|exact He]| |done].
    intros w' Hs. eapply remotely_trans; [done|]. revert Hs.
    apply remotely_weaken; unfold putting, removing; cbn; intros i; [by intros [_ ?]|by intros [? _]]. }
  intros _ w3 H3 _. eapply post_bind; [by apply Hstat|]. intros actual w4 H4 Hp.
  eapply (post_mono _ I); [by apply post_require|done|].
  intros _ w5 _ [-> Heq%bool_decide_eq_true]. by rewrite Heq in Hp.
Qed.

Lemma client_Put_post o snapshotPath parentPath w :
  ok w →
  wp (client_Put uuid_Parse marshal unmarshal_request marshal_object send receive stage_uuid c no_input
        o snapshotPath parentPath)
    (post (remotely (eq (ob_ID o)) nothing w) (λ _ w', published (ob_ID o) o (w_remote w'))) w.
Proof.
  intros Hok. unfold client_Put.
  assert (H0 : remotely (eq (ob_ID o)) nothing w w) by by apply remotely_refl.
  eapply post_bind; [by apply post_lift|]. intros _ w1 _ [-> _].
  eapply post_bind; [by apply post_require|]. intros _ w1 _ [-> _].
  eapply post_bind; [apply post_local, local_verify; done|]. intros _ w1 _ ->.
  eapply post_bind; [by apply sshArgs_post|]. intros args w1 _ [-> He].
  eapply post_bind; [by apply post_try, client_stat_post|]. intros existing w1 H1 Hp.
  destruct existing as [existing|e].
  - specialize (Hp existing eq_refl). eapply (post_mono _ (remotely (eq (ob_ID o)) nothing w)); [by apply post_require|done|].
    intros _ w' _ [-> Heq%bool_decide_eq_true]. by rewrite Heq in Hp.
  - eapply post_mono; [apply upload_post; [by eapply remotely_ok|done]| |done].
    intros w'. by apply remotely_trans.
Qed.

(** ** Get *)

(** The store, and the disks and directories below [dest]. *)
Definition received (dest : string) w w' : Prop :=
  ∃ x' dirs ds, w' = set_remote x' (set_dirs dirs (put_disks ds w)) ∧
    step_ nothing nothing (w_remote w) x' ∧
    ∀ p, under dest p = false → ds !! p = w_disks w !! p.

Lemma same_world w : set_remote (w_remote w) (set_dirs (w_dirs w) (put_disks (w_disks w) w)) = w.
Proof. by destruct w as [[? ? ? [] ?]]. Qed.

Lemma received_ok dest w w' : received dest w w' → ok w'.
Proof. intros (x' & dirs & ds & -> & Hs & _). apply Hs. Qed.
Lemma received_refl dest w : ok w → received dest w w.
Proof.
  intros Hok. exists (w_remote w), (w_dirs w), (w_disks w).
  split; [by rewrite same_world|]. split; [by apply step_refl|done].
Qed.
Lemma received_trans dest w1 w2 w3 :
  received dest w1 w2 → received dest w2 w3 → received dest w1 w3.
Proof.
  intros (x & dirs & ds & -> & H1 & Hd1) (x' & dirs' & ds' & -> & H2 & Hd2).
  exists x', dirs', ds'. split; [done|]. split; [by eapply step_trans|].
  intros p Hp. rewrite Hd2 by done. by apply Hd1.
Qed.
Lemma remotely_received dest w w' : remotely nothing nothing w w' → received dest w w'.
Proof.
  intros (x' & -> & Hs). exists x', (w_dirs w), (w_disks w).
  split; [|by split]. by rewrite <- (same_world w) at 1.
Qed.
(** A change of the disks and directories below [dest]. *)
Lemma received_local dest dirs ds w :
  ok w → (∀ p, under dest p = false → ds !! p = w_disks w !! p) →
  received dest w (set_dirs dirs (put_disks ds w)).
Proof.
  intros Hok Hds. exists (w_remote w), dirs, ds. split; [by destruct w|]. split; [by apply step_refl|done].
Qed.

(** The temporary directory and the published one, both below [dest]. *)
Lemma under_temp dest w p : under (temp_path temp_name dest w) p = true → under dest p = true.
Proof.
  intros [t ->]%under_inv. unfold temp_path. rewrite append_assoc. apply under_below.
Qed.

Lemma published_path dest o w st :
  validate_object uuid_Parse o = inl tt → IsAbs dest = true → Clean dest = dest →
  ∃ t, JoinPath [JoinPath [dest; ob_ID o]; subvolume_name st] = (dir_prefix dest +:+ t)%stdpp ∧
    under (temp_path temp_name dest w)
      (JoinPath [JoinPath [dest; ob_ID o]; subvolume_name st]) = false.
Proof.
  intros Hv Ha Hc.
  assert (Hid : canonical (ob_ID o) = true).
  { unfold validate_object, validID in Hv. destruct (uuid_Parse (ob_ID o)) as [u|] eqn:Hu; [|done].
    apply Huuid in Hu. destruct (String.eqb_spec u (ob_ID o)) as [<-|Hne]; [done|].
    by rewrite andb_false_r in Hv. }
  apply canonical_segment in Hid as [Hseg Hdot].
  rewrite (JoinPath_child dest) by done.
  rewrite JoinPath_child by (auto using child_abs, child_clean).
  destruct (child_below dest (ob_ID o)) as (t & Ht & Hslash).
  destruct (child_ext (child dest (ob_ID o)) (subvolume_name st)) as [u Hu].
  exists (t +:+ ob_ID o +:+ u)%stdpp. rewrite Hu, Ht, !append_assoc. split; [done|].
  apply not_true_iff_false. intros [v Hv']%under_inv. unfold temp_path in Hv'.
  rewrite !append_assoc in Hv'. apply append_inj in Hv'.
  apply (f_equal (first_char (λ c, Ascii.eqb c "."))) in Hv'.
  destruct Hslash as [->| ->]; [|done]. destruct (ob_ID o) as [|a i]; [done|].
  change (Ascii.eqb a "." = false) in Hdot. change (Ascii.eqb a "." = true) in Hv'. congruence.
Qed.

Lemma put_received_frame dest n ds m w p :
  under dest p = false → put_received (temp_path temp_name dest w) n ds m !! p = m !! p.
Proof.
  intros Hp. revert n. induction ds as [|d ds IH]; intros n; [done|]. cbn [put_received].
  rewrite lookup_insert_ne; [apply IH|]. intros Heq. unfold temp_path in Heq.
  by rewrite <- Heq, append_assoc, under_below in Hp.
Qed.

Lemma receivedDisk_inv ds o d :
  receivedDisk ds o = inl d →
  ob_Size o = Z.of_nat (String.length (dk_content d)) ∧ ob_SHA256 o = sha256_hex (dk_content d).
Proof.
  unfold receivedDisk, verifyDisk, disk_size. destruct ds as [|d' [|]]; [done| |done].
  destruct (verifyDiskIdentity d' o true) as [[]|]; [|done]. cbn.
  destruct (Z.eqb_spec (Z.of_nat (String.length (dk_content d'))) (ob_Size o)) as [Hs|]; [|done].
  destruct (String.eqb_spec (sha256_hex (dk_content d')) (ob_SHA256 o)) as [Hh|]; [|done].
  by intros [= <-].
Qed.

(** What [Get] returns names a disk with the object's bytes. *)
Definition delivered (o : Object) (p : string) w : Prop :=
  ∃ d, w_disks w !! p = Some d ∧ ob_Size o = Z.of_nat (String.length (dk_content d)) ∧
    ob_SHA256 o = sha256_hex (dk_content d).

Lemma receive_into_post o dest parentID args w0 w :
  validate_object uuid_Parse o = inl tt → IsAbs dest = true → Clean dest = dest → ok w →
  encodeRequest uuid_Parse marshal (mkRequest "get" (id_only (ob_ID o)) parentID "zstd") =
    inl (List.last args EmptyString) →
  wp (receive_into uuid_Parse unmarshal_request send receive stage_uuid subvolume_name no_input
        o dest (temp_path temp_name dest w0) args)
    (post (received dest w) (λ p w', delivered o p w' ∧ under (temp_path temp_name dest w0) p = false)) w.
Proof.
  intros Hv Ha Hc Hok He. unfold receive_into. set (stage := temp_path temp_name dest w0).
  set (I := received dest w).
  eapply (post_bind I _ _ (λ _ _, True)).
  { eapply (post_mono _ (remotely nothing nothing w)); [|apply remotely_received|done].
    by eapply ssh_read_post; [right| |exact He]. }
  intros rep w1 H1 _. destruct rep as [|  |st]; [by apply post_throw..|].
  eapply (post_bind I _ _ (λ _ _, True)).
  { eapply post_mono; [apply (post_env I)|done|done]; [done|]. case_match; cbn; [|done].
    eapply received_trans; [exact H1|]. apply (received_local dest (w_dirs w1)).
    - by eapply received_ok.
    - intros p. apply put_received_frame. }
  intros ds w2 H2 _. eapply (post_bind I); [by apply post_lift|]. intros d w3 _ [-> Hd].
  apply receivedDisk_inv in Hd.
  do 3 (eapply (post_bind I); [by apply post_query|]; intros _ ? _ [-> _]).
  destruct (published_path dest o w0 st Hv Ha Hc) as (t & Ht & Hout). fold stage in Hout.
  set (path := JoinPath [JoinPath [dest; ob_ID o]; subvolume_name st]) in *.
  eapply (post_bind I _ _ (λ _, delivered o path)).
  { unfold publish_received. fold path. eapply post_mono; [apply (post_env I)|done|]; [done| |].
    - case_bool_decide; cbn; [done|]. eapply received_trans; [exact H2|]. apply received_local.
      + by eapply received_ok.
      + intros p Hp. rewrite lookup_insert_ne, lookup_delete_ne; [done|..].
        * intros <-. unfold stage, temp_path in Hp. by rewrite append_assoc, under_below in Hp.
        * intros <-. by rewrite Ht, under_below in Hp.
    - intros a s' _ [Hr ->]. case_bool_decide; [done|]. cbn in *.
      exists d. split; [apply lookup_insert_eq|done]. }
  intros _ w3 H3 Hdel. eapply (post_bind I); [by apply post_query|]. intros _ ? _ [-> _].
  by apply post_ret.
Qed.

Lemma RemoveTree_keeps (Q : World Store → Prop) stage w :
  Q w → (∀ w', Q w' → Q (without stage w')) → wp (RemoveTree stage) (λ _ w', Q w') w.
Proof.
  intros Hw Hwo. unfold RemoveTree, step.
  apply wp_bind, wp_query; [done..|]. cbn.
  apply wp_bind, wp_env; cbn; auto. apply wp_query; cbn; auto.
Qed.

Lemma client_Get_post o dest parentID w :
  ok w →
  wp (client_Get uuid_Parse marshal unmarshal_request marshal_object send receive stage_uuid
        temp_name subvolume_name c no_input o dest parentID)
    (post (received dest w) (delivered o)) w.
Proof.
  intros Hok. unfold client_Get. set (I := received dest w).
  assert (H0 : I w) by by apply received_refl.
  assert (Hremote : ∀ A (m : M (World Store) A) P, wp m (post (remotely nothing nothing w) P) w →
    wp m (post I P) w).
  { intros A m P Hm. eapply post_mono; [exact Hm|apply remotely_received|done]. }
  eapply post_bind; [by apply post_lift|]. intros [] w1 _ [-> Hv].
  eapply post_bind; [by apply Hremote, sshArgs_post|]. intros args w1 _ [-> He].
  eapply post_bind; [by apply Hremote, client_stat_post|]. intros actual w1 H1 _.
  eapply (post_bind I); [by apply post_require|]. intros _ ? _ [-> _].
  eapply (post_bind I); [by apply post_require|]. intros _ ? _ [-> [Ha Hc%String.eqb_eq]%andb_prop].
  do 2 (eapply (post_bind I); [by apply post_query|]; intros _ ? _ [-> _]).
  eapply (post_bind I _ _ (λ stage _, stage = temp_path temp_name dest w1)).
  { unfold MkdirTemp. eapply post_mono; [apply (post_env I)|done|]; [done| |].
    - case_bool_decide; cbn; [done|]. eapply received_trans; [exact H1|].
      destruct w1 as [h x ds r l t]. cbn.
      exists x, ({[temp_path temp_name dest (mkWorld h x ds r l t)]} ∪ ds), (w_disks (mkWorld h x ds r l t)).
      split; [|split; [apply step_refl; by eapply received_ok in H1|done]].
      by destruct h as [? ? ? [] ?].
    - intros a s' _ [Hr _]. case_bool_decide; [done|]. by injection Hr. }
  intros stage w2 H2 ->. assert (Hok2 : ok w2) by by eapply received_ok.
  set (stage := temp_path temp_name dest w1) in *.
  eapply (post_mono I I _ (λ p w', delivered o p w' ∧ under stage p = false));
    [|done|by intros p w' _ [? _]].
  assert (Hfilter : ∀ w' p, under stage p = false → w_disks (without stage w') !! p = w_disks w' !! p).
  { intros w' p Hp. unfold without. change (filter (λ '(q, _), under stage q = false) (w_disks w') !! p = w_disks w' !! p).
    apply option_eq. intros d. rewrite map_lookup_filter_Some. naive_solver. }
  apply (post_finally I).
  - eapply post_mono; [by apply (receive_into_post o dest parentID)| |done].
    intros w'. by apply received_trans.
  - intros w' Hw'. apply RemoveTree_keeps; [done|]. clear w' Hw'. intros w' Hw'.
    eapply received_trans; [exact Hw'|]. unfold without.
    apply (received_local dest _ (filter (λ '(q, _), under stage q = false) (w_disks w')) w'); [by eapply received_ok in Hw'|].
    intros p Hp. apply Hfilter. apply not_true_iff_false. intros Hu%under_temp. congruence.
  - intros p w' _ Hp. apply RemoveTree_keeps; [done|]. clear w' Hp. intros w' [(d & Hd & Hm) Hout].
    split; [|done]. exists d. by rewrite Hfilter.
Qed.

(** ** The laws *)

#[local] Abbreviation Put_ :=
  (client_Put uuid_Parse marshal unmarshal_request marshal_object send receive stage_uuid c no_input).
#[local] Abbreviation Get_ :=
  (client_Get uuid_Parse marshal unmarshal_request marshal_object send receive stage_uuid temp_name
     subvolume_name c no_input).
#[local] Abbreviation Delete_ :=
  (client_Delete uuid_Parse marshal unmarshal_request send receive stage_uuid c no_input).

Lemma remotely_law {A} (P : A → World Store → Prop) puts dels w o w' :
  post (remotely puts dels w) P o w' →
  ∃ x', w' = set_remote x' w ∧ step_ puts dels (w_remote w) x' ∧ ∀ a, o = Ok a → P a w'.
Proof. intros [(x' & -> & Hs) HP]. by exists x'. Qed.

Lemma Put_law o path parent w : ok w →
  wp (Put_ o path parent) (λ r w', ∃ x', w' = set_remote x' w ∧
    step_ (eq (ob_ID o)) nothing (w_remote w) x' ∧
    (r = Ok tt → has (coldRemoteView := view) x' o ∧ ¬ gone (coldRemoteView := view) x' (ob_ID o))) w.
Proof.
  intros Hok. eapply wp_mono; [by apply client_Put_post|]. intros r w'.
  intros (x' & -> & Hs & HP)%remotely_law. exists x'. split_and!; [done|done|].
  intros Hr. by destruct (HP tt Hr) as (? & _ & ?).
Qed.
Lemma Get_law o dest parent w : ok w →
  wp (Get_ o dest parent) (λ r w', ∃ x' dirs ds,
    w' = set_remote x' (set_dirs dirs (put_disks ds w)) ∧
    step_ nothing nothing (w_remote w) x' ∧
    (∀ p, under dest p = false → ds !! p = w_disks w !! p) ∧
    (∀ p, r = Ok p → ∃ d, ds !! p = Some d ∧
       ob_Size o = Z.of_nat (String.length (dk_content d)) ∧
       ob_SHA256 o = sha256_hex (dk_content d))) w.
Proof.
  intros Hok. eapply wp_mono; [by apply client_Get_post|]. intros r w'.
  intros [(x' & dirs & ds & -> & Hs & Hf) HP]. exists x', dirs, ds. by split_and!.
Qed.
Lemma Delete_law id w : ok w →
  wp (Delete_ id) (λ r w', ∃ x', w' = set_remote x' w ∧
    step_ nothing (eq id) (w_remote w) x' ∧
    (r = Ok tt → gone (coldRemoteView := view) x' id ∧ ¬ present (coldRemoteView := view) x' id)) w.
Proof.
  intros Hok. eapply wp_mono; [by apply client_Delete_post|]. intros r w'.
  intros (x' & -> & Hs & HP)%remotely_law. exists x'. split_and!; [done|done|].
  intros Hr. destruct (HP tt Hr) as [Hd Ho]. split; [done|]. cbn. unfold set_remote in Ho. cbn in Ho.
  by rewrite Ho; intros [? ?].
Qed.

#[export] Instance client_laws :
  @coldRemoteLaws Store (client_coldRemote uuid_Parse marshal unmarshal_request marshal_object send
    receive stage_uuid temp_name subvolume_name c no_input) view.
Proof using Hjson Huuid Hname.
  split; [exact Put_law|exact Get_law|exact Delete_law].
Qed.

(** C28. The client and the server refine the abstract store: whatever call fails and
    wherever the server or the connection dies, an upload publishes nothing but the
    object it sends, a deletion fences nothing but the ID it names, a download changes
    nothing but the disks below its directory, and nothing published disappears
    unfenced; an answer of success means the object is published exactly as sent,
    delivered with its bytes, or gone for good. *)
Theorem client_refines_store w :
  store_ok uuid_Parse (w_remote w) → stages_fenced (w_remote w) →
  (∀ o path parent, wp (Put_ o path parent)
     (post (remotely (eq (ob_ID o)) nothing w) (λ _ w', published (ob_ID o) o (w_remote w'))) w) ∧
  (∀ o dest parent, wp (Get_ o dest parent) (post (received dest w) (delivered o)) w) ∧
  (∀ id, wp (Delete_ id) (post (remotely nothing (eq id) w)
     (λ _ w', id ∈ deleted (w_remote w') ∧ objects (w_remote w') !! id = None)) w).
Proof.
  intros Hs Hf. assert (Hok : ok w) by done. split_and!; intros.
  - by apply client_Put_post.
  - by apply client_Get_post.
  - by apply client_Delete_post.
Qed.
End client.
