(* ===== verification/ColdDemo.v ===== *)
(** * A runner and a cold store, put together

    Concrete parameters for the client, the server and the handler; one disk is
    offloaded, restored and purged.  The runs show that the hypotheses of the
    theorems about the cold disks can hold together. *)
From stdpp Require Import relations.
From S2P Require Import Prelude GoStrings Paths Encodings RunnerState Runtime Receipts ReceiptStop.
From S2P Require Import RunnerTrace RunnerOps ColdProtocol ColdServer ColdTrace RunnerSpec.
From S2P Require Import ColdSpec ColdDisk ColdInv ColdOps ColdMoves ColdHandle ColdDiskSpec.
From S2P Require Import ColdClient ColdLink ColdRefine.

#[local] Open Scope Z_scope.

(** ** A wire format *)

(** The bits of a positive number, and back. *)
Fixpoint bits (p : positive) : string :=
  match p with
  | xH => EmptyString
  | xO q => String "0" (bits q)
  | xI q => String "1" (bits q)
  end.
Fixpoint of_bits (s : string) : positive :=
  match s with
  | EmptyString => xH
  | String c s' => if Ascii.eqb c "0" then xO (of_bits s') else xI (of_bits s')
  end.
Lemma of_bits_bits p : of_bits (bits p) = p.
Proof. induction p as [p IH|p IH|]; cbn; by rewrite ?IH. Qed.

Definition size_bits (z : Z) : string :=
  match z with Z0 => "z" | Zpos p => String "+" (bits p) | Zneg p => String "-" (bits p) end.
Definition of_size_bits (s : string) : Z :=
  match s with
  | String "+" s' => Zpos (of_bits s')
  | String "-" s' => Zneg (of_bits s')
  | _ => 0
  end.
Lemma of_size_bits_bits z : of_size_bits (size_bits z) = z.
Proof. destruct z as [|p|p]; [done|cbn; by rewrite of_bits_bits..]. Qed.

(** Fields in base 64, separated by spaces. *)
Definition field (s : string) : string := EncodeToString s.
Definition fields (r : request) : list string :=
  let o := rq_Object r in
  [rq_Operation r; ob_ID o; ob_UUID o; ob_SHA256 o; size_bits (ob_Size o); ob_Parent o;
   rq_Parent r; rq_Compression r].
Fixpoint join_fields (l : list string) : string :=
  match l with
  | [] => EmptyString
  | [s] => field s
  | s :: l' => (field s +:+ String space (join_fields l'))%stdpp
  end.
Definition marshal_d (r : request) : string := join_fields (fields r).

Fixpoint decode_all (l : list string) : result (list string) :=
  match l with
  | [] => inl []
  | s :: l' => b ← DecodeString s; bs ← decode_all l'; mret (b :: bs)
  end.
Definition unmarshal_d (b : string) : result request :=
  l ← decode_all (Split b space);
  match l with
  | [op; id; u; sha; n; p; parent; comp] =>
      inl (mkRequest op (mkObject id u sha (of_size_bits n) p) parent comp)
  | _ => inr (Errorf "invalid JSON")
  end.

Lemma decode_joined l : l ≠ [] → decode_all (Split (join_fields l) space) = inl l.
Proof.
  induction l as [|s l IH]; [done|]. intros _. destruct l as [|s' l].
  - cbn [join_fields]. unfold field. rewrite Split_none by apply plain_no_space, plain_encode.
    cbn [decode_all]. by rewrite DecodeString_EncodeToString.
  - change (join_fields (s :: s' :: l)) with
      (field s +:+ String space (join_fields (s' :: l)))%stdpp.
    unfold field at 1. rewrite Split_two by apply plain_no_space, plain_encode.
    cbn [decode_all]. rewrite DecodeString_EncodeToString. cbn [mbind result_bind].
    by rewrite IH.
Qed.

Lemma json_d r : unmarshal_d (marshal_d r) = inl r.
Proof.
  unfold unmarshal_d, marshal_d. rewrite decode_joined by done. cbn -[of_size_bits size_bits].
  rewrite of_size_bits_bits. by destruct r as [? []].
Qed.

(** ** The other parameters *)

Definition uuid_d (s : string) : option string := if canonical s then Some s else None.
Lemma uuid_d_canonical s u : uuid_d s = Some u → canonical u = true.
Proof. unfold uuid_d. destruct (canonical s) eqn:E; [|done]. by intros [= <-]. Qed.

(** A stream carries the disk under the UUID the first sender knew it by. *)
Definition received_id (d : disk) : SubvolumeIdentity :=
  let id := dk_id d in
  let u := if nonempty (sv_ReceivedUUID id) then sv_ReceivedUUID id else sv_UUID id in
  mkSubvolumeIdentity "rrrr" "900" "" u.
Definition send_d (d : disk) (_ : option disk) (_ : string) : list disk :=
  [mkDisk (received_id d) true (dk_stamp d) (dk_content d)].
Definition receive_d (st : list disk) (_ : string) (_ : list disk) : result (list disk) := inl st.

Definition stage_d (_ : Store) : string := "00000000-0000-4000-8000-000000000001".
Definition generation_d : string := "00000000-0000-4000-8000-000000000002".
Definition send_uuid_d : string := "00000000-0000-4000-8000-000000000003".
Definition temp_d (_ : World Store) : string := "1234".
Definition name_d (_ : list disk) : string := "send".
Definition client_cfg : Config :=
  mkConfig "root@cold.example" "/etc/srv/cold/id" "/etc/srv/cold/known_hosts" 0.

Definition new_identity_d (_ : World Store) (dest : string) : SubvolumeIdentity :=
  mkSubvolumeIdentity send_uuid_d dest "" "".
Definition NewString_d (_ : World Store) : string := generation_d.
Definition canonical_d (_ : string) : bool := true.

#[export] Instance remote_d : coldRemote Store :=
  client_coldRemote uuid_d marshal_d unmarshal_d (λ o, ob_ID o) send_d receive_d stage_d temp_d
    name_d client_cfg [].
#[export] Instance view_d : coldRemoteView Store := store_view uuid_d.
#[export] Instance laws_d : coldRemoteLaws Store.
Proof.
  apply client_laws; [exact json_d|exact uuid_d_canonical|done].
Defined.

(** ** One instance *)

Definition disk_d : disk :=
  mkDisk (mkSubvolumeIdentity "00000000-0000-4000-8000-000000000009" "257" "" "") false
    (mkStamp 257 11 0) "hello world".
Definition world_d : World Store :=
  mkWorld (set_machine (set_disks {[disk_path cfg0 "demo" := disk_d]} machine0) host0) empty_Store ∅
    (mkCold 0 "" "" false "" no_subvolume no_subvolume no_object no_subvolume "") [] "hello world".

Definition request_d (action : string) : ColdRequest := mkColdRequest "demo" "id-1" action (dk_id disk_d).
Definition call_d (action : string) : M (World Store) ColdStatus :=
  handleColdDisk cfg0 new_identity_d NewString_d canonical_d (request_d action).

Example offload_d :
  (call_d "offload" [] world_d).1.1 = Ok (mkColdStatus "cold" true true).
Proof. vm_compute. reflexivity. Qed.

Definition offloaded : World Store := (call_d "offload" [] world_d).1.2.
Definition hydrated : World Store := (call_d "hydrate" [] offloaded).1.2.
Lemma layout_d : layout_ok cfg0 "demo".
Proof. by split; vm_compute. Qed.

#[local] Abbreviation later_d := (disk_later cfg0 new_identity_d NewString_d canonical_d "demo" "id-1").

Lemma starts_d : starts cfg0 "demo" world_d.
Proof.
  split; [split; [apply store_ok_empty|intros id [? [=]]]|]. split_and!; [done|done|].
  exists disk_d. by split; vm_compute.
Qed.
Lemma request_later action w : later_d w (call_d action [] w).1.2.
Proof. apply rtc_once. by apply ds_request. Qed.
Lemma offloaded_later : later_d world_d offloaded.
Proof. exact (request_later "offload" world_d). Qed.
Lemma hydrated_later : later_d world_d hydrated.
Proof. transitivity offloaded; [exact offloaded_later|exact (request_later "hydrate" offloaded)]. Qed.
Lemma not_fenced_d : ¬ w_fenced cfg0 "demo" "id-1" offloaded.
Proof. intros H. vm_compute in H. by destruct H. Qed.

Lemma pair_fst {A B} (p : A * B) a : p.1 = a → p = (a, p.2).
Proof. by destruct p; intros <-. Qed.

(** ** The theorems at these runs *)

Lemma disk_never_lost_witness :
  on_disk cfg0 "demo" offloaded ∨ at_store cfg0 "demo" offloaded.
Proof.
  apply (disk_never_lost cfg0 new_identity_d NewString_d canonical_d "demo" "id-1" layout_d world_d).
  - exact starts_d.
  - exact offloaded_later.
  - exact not_fenced_d.
Defined.

Lemma start_sees_last_write_witness : on_disk cfg0 "demo" hydrated.
Proof.
  apply (start_sees_last_write cfg0 new_identity_d NewString_d canonical_d "demo" "id-1" layout_d
           world_d hydrated []).
  - exact starts_d.
  - exact hydrated_later.
  - vm_compute. reflexivity.
Defined.

Lemma no_copy_forgotten_witness :
  settled offloaded generation_d ∨
  ∃ r, ColdInv.journal cfg0 "demo" offloaded = Some (Some r) ∧ cd_Remote r = true ∧
    ob_ID (cd_Object r) = generation_d.
Proof.
  apply (no_copy_forgotten cfg0 new_identity_d NewString_d canonical_d "demo" "id-1" layout_d world_d).
  - exact starts_d.
  - exact offloaded_later.
  - vm_compute. left.
Defined.

Lemma request_honoured_witness : at_store cfg0 "demo" offloaded.
Proof.
  destruct (request_honoured cfg0 new_identity_d NewString_d canonical_d "demo" "id-1" layout_d world_d
    world_d (request_d "offload") [] (mkColdStatus "cold" true true) offloaded) as (_ & _ & H & _).
  - exact starts_d.
  - apply rtc_refl.
  - reflexivity.
  - reflexivity.
  - exact (pair_fst (call_d "offload" [] world_d).1 _ offload_d).
  - apply H; [reflexivity|exact not_fenced_d].
Defined.

Lemma client_refines_store_witness :
  wp (Put (mkObject generation_d send_uuid_d (sha256_hex "hello world") 11 "") "/tmp/send" "")
    (λ r w', r = Ok tt → published generation_d
       (mkObject generation_d send_uuid_d (sha256_hex "hello world") 11 "") (w_remote w')) world_d.
Proof.
  destruct (client_refines_store uuid_d marshal_d unmarshal_d (λ o, ob_ID o) send_d receive_d stage_d
    temp_d name_d client_cfg [] json_d uuid_d_canonical (λ _, eq_refl) world_d) as (H & _ & _).
  - apply store_ok_empty.
  - intros id [? [=]].
  - eapply wp_mono; [apply H|]. intros r w' [_ Hp] Hr. by apply (Hp tt).
Defined.
