(* ===== verification/PoolHost.v ===== *)
(** * The memory pools of the runner

    Models src/internal/vmrunner/pools.go and the pool half of the cgroup code of
    src/internal/vmrunner/vmrunner.go: the cgroup of each pool, below the delegated
    root, and the receipts of resize requests, which outlive the pools.  All calls
    hold [poolMu]: they run one at a time. *)
From S2P Require Import Prelude GoStrings Paths RunnerState.

#[local] Open Scope Z_scope.

(** ** State *)

(** A pool's cgroup: [memory.max] ([None] is the text "max"), [memory.current], and
    the cgroups of the VMs below it. *)
Record pool_cgroup := mkPoolCgroup {
  pc_max : option Z;
  pc_current : Z;
  pc_vms : list string;
}.

Record ResizeMemoryPoolRequest := mkResizeRequest {
  pr_RequestID : string;
  pr_Name : string;
  pr_SizeBytes : Z;
  pr_Running : bool;
}.
#[export] Instance ResizeMemoryPoolRequest_eq_dec : EqDecision ResizeMemoryPoolRequest.
Proof. solve_decision. Defined.

Record memoryPoolResizeResult := mkResizeResult {
  rs_Request : ResizeMemoryPoolRequest;
  rs_Done : bool;
  rs_Error : string;
}.

Record PoolHost := mkPoolHost {
  pools : gmap string pool_cgroup;                          (* by name *)
  resize_receipts : gmap string (json memoryPoolResizeResult);   (* .pool-resizes/<id>.json *)
}.
Definition set_pools v h := mkPoolHost v (resize_receipts h).
Definition set_resize_receipts v h := mkPoolHost (pools h) v.

(** A system call with no effect the model tracks. *)
Definition pool_call : M PoolHost unit := query (λ _, inl tt).

Section pool_host.
Context (uuid_Parse : string → option string).

(** ** Requests *)

Definition validate_pool_name (name : string) : result unit :=
  if validName (TrimSpace name) then mret tt else inr (Errorf "invalid memory pool name").

Definition validate_resize (r : ResizeMemoryPoolRequest) : result unit :=
  match uuid_Parse (pr_RequestID r) with
  | None => inr (Errorf "valid pool resize request ID required")
  | Some _ =>
      _ ← validate_pool_name (pr_Name r);
      if pr_SizeBytes r <=? 0 then inr (Errorf "memory pool size must be positive") else mret tt
  end.

(** ** Cgroups *)

Definition miBBytes : Z := 1024 * 1024.

(** [directChildPath] below the root of the pools: the name of the child. *)
Definition directChild (name : string) : result string :=
  let name := TrimSpace name in
  if negb (nonempty name) then inr (Errorf "name is empty")
  else if String.eqb name "." || String.eqb name ".." || negb (String.eqb (Base name) name)
  then inr (Errorf "name must be a single path segment") else mret name.

(** [writeCgroupValue(poolPath, "memory.max", ...)]. *)
Definition write_max (name : string) (size : Z) : M PoolHost unit :=
  env (λ h, match pools h !! name with
            | Some g => (inl tt, set_pools (<[name := mkPoolCgroup (Some size) (pc_current g) (pc_vms g)]>
                                              (pools h)) h)
            | None => (inr ErrNotExist, h)
            end).

(** [readInt64File]: "max" is 0. *)
Definition read_max (name : string) : M PoolHost Z :=
  query (λ h, match pools h !! name with
              | Some g => inl (default 0 (pc_max g))
              | None => inr ErrNotExist
              end).
Definition read_current (name : string) : M PoolHost Z :=
  query (λ h, match pools h !! name with
              | Some g => inl (pc_current g)
              | None => inr ErrNotExist
              end).

Definition headroom (size : Z) : Z := Z.max (256 * miBBytes) (size / 10).

Definition resizeMemoryPoolCgroup (req : ResizeMemoryPoolRequest) : M PoolHost unit :=
  pool_call;; (* delegatedCgroupRoot *)
  name ← lift (directChild (pr_Name req));
  present ← query (λ h, inl (bool_decide (is_Some (pools h !! name))));
  if negb (present : bool) then require (negb (pr_Running req)) ErrNotExist else
  limit ← read_max name;
  if limit =? pr_SizeBytes req then mret tt else
  (if (limit =? 0) || (pr_SizeBytes req <? limit) then
     current ← read_current name;
     require (0 <=? current) (Errorf "invalid pool memory usage");;
     require (negb ((0 <? current) && (pr_SizeBytes req - headroom (pr_SizeBytes req) <? current)))
       (Errorf "memory pool is too busy to shrink")
   else mret tt);;
  write_max name (pr_SizeBytes req).

(** [atomicColdJSON]: a temporary file, renamed into place and synced. *)
Definition write_receipt (r : memoryPoolResizeResult) : M PoolHost unit :=
  pool_call;; pool_call;; (* CreateTemp; Write, Chmod, Sync, Close *)
  env (λ h, (inl tt, set_resize_receipts
    (<[pr_RequestID (rs_Request r) := Some r]> (resize_receipts h)) h));;
  pool_call.

Definition resizeMemoryPool (req : ResizeMemoryPoolRequest) : M PoolHost memoryPoolResizeResult :=
  pool_call;; pool_call;; (* MkdirAll, SyncPath *)
  found ← query (λ h, inl (resize_receipts h !! pr_RequestID req));
  result ← (match found with
            | Some f =>
                result ← lift (unmarshal f);
                require (bool_decide (rs_Request result = req))
                  (Errorf "pool resize request ID reused with different arguments");;
                mret result
            | None => mret (mkResizeResult req false "")
            end);
  write_receipt result;;
  if rs_Done result then mret result else
  o ← try (resizeMemoryPoolCgroup req);
  let result := mkResizeResult req true
    (match o with inl _ => rs_Error result | inr e => error_text e end) in
  write_receipt result;;
  mret result.

Definition handleResizeMemoryPool (req : ResizeMemoryPoolRequest)
  : M PoolHost memoryPoolResizeResult :=
  lift (validate_resize req);;
  resizeMemoryPool req.

(** [os.Remove] of the pool's cgroup; a missing one is no error. *)
Definition deleteMemoryPoolCgroup (name : string) : M PoolHost unit :=
  pool_call;;
  name ← lift (directChild name);
  env (λ h, match pools h !! name with
            | Some g => if bool_decide (pc_vms g = []) then (inl tt, set_pools (delete name (pools h)) h)
                        else (inr (Errorf "device or resource busy"), h)
            | None => (inl tt, h)
            end).

Definition handleDeleteMemoryPool (name : string) : M PoolHost unit :=
  lift (validate_pool_name name);;
  deleteMemoryPoolCgroup name.

(** [prepareFirecrackerCgroupRoots]: nothing of a pool. *)
Definition prepare_roots : M PoolHost unit := pool_call;; pool_call;; pool_call;; pool_call;; pool_call.

(** A start in a pool first sets the pool up; the new cgroup is unlimited until the
    limit is written. *)
Definition prepareMemoryPoolCgroupParent (name : string) (size : Z) : M PoolHost unit :=
  require (validName (TrimSpace name)) (Errorf "invalid memory pool name");;
  require (1 <=? size) (Errorf "memory pool size bytes is invalid");;
  prepare_roots;;
  name ← lift (directChild name);
  env (λ h, (inl tt, match pools h !! name with
                     | Some _ => h
                     | None => set_pools (<[name := mkPoolCgroup None 0 []]> (pools h)) h
                     end));;
  pool_call;; (* enableCgroupControllers *)
  write_max name size;;
  pool_call. (* memory.swap.max *)
End pool_host.
