(* ===== verification/PoolRunner.v ===== *)
(** * What a resize request does to the runner's pools

    One request touches one pool and one receipt; a finished request touches nothing
    ever again. *)
From S2P Require Import Prelude GoStrings Paths RunnerState PoolHost.

#[local] Open Scope Z_scope.

(** ** Names of pools *)

Lemma cut_any_none ps s :
  Forall (λ p, CutPrefix s p = None) ps → cut_any ps s = None.
Proof.
  intros Hf. unfold cut_any. destruct (list_find _ ps) as [[i p]|] eqn:E; [|done].
  apply list_find_Some in E as (Hp & Hs & _). rewrite Forall_forall in Hf.
  apply list_elem_of_lookup_2 in Hp. rewrite (Hf p Hp) in Hs. by destruct Hs.
Qed.

Lemma trim_none fuel ps s : cut_any ps s = None → trim_any fuel ps s = s.
Proof. intros H. destruct fuel; cbn; [done|]. by rewrite H. Qed.

(** A text of name characters starts with no encoding of a space, read either way. *)
Definition starts_plain (p : string) : bool :=
  match p with String c _ => negb (is_alnum c) | EmptyString => false end.

Lemma plain_cut s ps :
  first_char is_alnum s = true → forallb starts_plain ps = true → cut_any ps s = None.
Proof.
  intros Hs Hps. apply cut_any_none, Forall_forall. intros p Hp.
  rewrite forallb_forall in Hps. apply list_elem_of_In in Hp. specialize (Hps p Hp).
  destruct p as [|c p]; [done|]. destruct s as [|c' s]; [done|]. cbn in *.
  destruct (Ascii.eqb_spec c c') as [<-|]; [|by destruct (Ascii.eqb_spec c' c); congruence].
  by rewrite Hs in Hps.
Qed.

Lemma rev_append s t : rev_string (s +:+ t)%stdpp = (rev_string t +:+ rev_string s)%stdpp.
Proof.
  induction s as [|c s IH]; [by rewrite append_nil_r|]. rewrite append_cons.
  unfold rev_string in *. cbn [rev_acc]. rewrite (rev_onto (s +:+ t)%stdpp), (rev_onto s).
  unfold rev_string. by rewrite IH, append_assoc.
Qed.
Lemma rev_rev s : rev_string (rev_string s) = s.
Proof.
  induction s as [|c s IH]; [done|]. unfold rev_string at 2. cbn [rev_acc].
  by rewrite rev_onto, rev_append, IH.
Qed.

Lemma TrimSpace_name n : validName n = true → TrimSpace n = n.
Proof.
  intros [[[_ Hf]%andb_prop Hl]%andb_prop _]%andb_prop. unfold TrimSpace, TrimLeftSpace.
  rewrite (trim_none _ space_encodings n) by (apply plain_cut; [done|by vm_compute]).
  rewrite trim_none by (apply plain_cut; [done|by vm_compute]). apply rev_rev.
Qed.

Lemma name_no_slash n :
  all_chars (λ c, is_alnum c || Ascii.eqb c "-") n = true → ContainsByte n "/" = false.
Proof.
  induction n as [|c n IH]; [done|]. intros [Hc Hn]%andb_prop.
  change (Ascii.eqb "/" c || ContainsByte n "/" = false). rewrite (IH Hn).
  destruct (Ascii.eqb_spec "/" c) as [<-|]; [by vm_compute in Hc|done].
Qed.

Lemma after_last_none c s : ContainsByte s c = false → after_last c s = None.
Proof.
  induction s as [|c' s IH]; [done|]. cbn. intros [Hc Hs]%orb_false_iff. rewrite (IH Hs).
  by rewrite ?(Ascii.eqb_sym c' c), ?Hc.
Qed.

Lemma Base_name n : validName n = true → Base n = n.
Proof.
  intros [[[Ha Hf]%andb_prop Hl]%andb_prop _]%andb_prop. unfold Base, trim_slashes.
  assert (Hd : drop_slashes (rev_string n) = rev_string n).
  { destruct (rev_string n) as [|c s]; [done|]. cbn in *.
    destruct (Ascii.eqb_spec c "/") as [->|]; [by vm_compute in Hl|done]. }
  rewrite Hd, rev_rev, after_last_none by by apply name_no_slash. by destruct n.
Qed.

Lemma directChild_name n : validName n = true → directChild n = inl n.
Proof.
  intros Hn. unfold directChild, nonempty.
  rewrite (TrimSpace_name n Hn), (Base_name n Hn), String.eqb_refl.
  destruct (String.eqb_spec n "") as [->|]; [by vm_compute in Hn|].
  destruct (String.eqb_spec n ".") as [->|]; [by vm_compute in Hn|].
  by destruct (String.eqb_spec n "..") as [->|]; [vm_compute in Hn|].
Qed.

(** ** One request *)

Definition receipt_of (q : ResizeMemoryPoolRequest) (h : PoolHost) : option (json memoryPoolResizeResult) :=
  resize_receipts h !! pr_RequestID q.

(** A request whose outcome is on disk. *)
Definition finished (q : ResizeMemoryPoolRequest) (h : PoolHost) : Prop :=
  ∃ e, receipt_of q h = Some (Some (mkResizeResult q true e)).

(** The limit of the request's pool, if it has one, is no more than the request's. *)
Definition limited (q : ResizeMemoryPoolRequest) (h : PoolHost) : Prop :=
  ∀ g L, pools h !! pr_Name q = Some g → pc_max g = Some L → L <= pr_SizeBytes q.

(** The request's receipt is its own, and speaks the truth. *)
Definition truthful_receipt (q : ResizeMemoryPoolRequest) (h : PoolHost) : Prop :=
  ∀ f, receipt_of q h = Some f → ∃ r, f = Some r ∧ rs_Request r = q ∧
    (rs_Done r = true → rs_Error r = "" → limited q h).

(** [h'] after any part of the handling of [q] in [h]. *)
Record resizing (q : ResizeMemoryPoolRequest) (h h' : PoolHost) : Prop := {
  rz_pools : ∀ n, n ≠ pr_Name q → pools h' !! n = pools h !! n;
  rz_pool : ∀ g', pools h' !! pr_Name q = Some g' → ∃ g, pools h !! pr_Name q = Some g ∧
    (pc_max g' = pc_max g ∨ pc_max g' = Some (pr_SizeBytes q));
  rz_receipts : ∀ i, i ≠ pr_RequestID q → resize_receipts h' !! i = resize_receipts h !! i;
  rz_receipt : truthful_receipt q h';
  rz_finished : finished q h → pools h' = pools h ∧ receipt_of q h' = receipt_of q h;
  rz_written : is_Some (receipt_of q h) → is_Some (receipt_of q h');
}.

Lemma resizing_refl q h : truthful_receipt q h → resizing q h h.
Proof. split; auto. intros g Hg. exists g. auto. Qed.

Lemma resizing_trans q h1 h2 h3 : resizing q h1 h2 → resizing q h2 h3 → resizing q h1 h3.
Proof.
  intros [P1 N1 R1 _ F1 W1] [P2 N2 R2 T2 F2 W2]. split; auto.
  - intros n Hn. rewrite P2 by done. by apply P1.
  - intros g3 H3. destruct (N2 g3 H3) as (g2 & H2 & [E2|E2]); destruct (N1 g2 H2) as (g1 & H1 & E1);
      exists g1; split; auto. rewrite E2. exact E1.
  - intros i Hi. rewrite R2 by done. by apply R1.
  - intros Hf. destruct (F1 Hf) as [EP ER]. destruct F2 as [EP2 ER2]; [|by rewrite EP2, ER2].
    destruct Hf as [e He]. exists e. by rewrite ER.
Qed.

Ltac call := eapply post_bind; [by apply post_query|]; intros _ ? _ [-> _].

(** The write of a receipt that is true of the pools. *)
Lemma write_receipt_post q r h :
  truthful_receipt q h → ¬ finished q h → rs_Request r = q →
  (rs_Done r = true → rs_Error r = "" → limited q h) →
  wp (write_receipt r) (post (resizing q h) (λ _ h',
    pools h' = pools h ∧ receipt_of q h' = Some (Some r) ∧ resizing q h h')) h.
Proof.
  intros Ht Hn Hr Hl. unfold write_receipt. rewrite Hr.
  assert (Hrefl : resizing q h h) by by apply resizing_refl.
  set (h1 := set_resize_receipts (<[pr_RequestID q := Some r]> (resize_receipts h)) h).
  assert (He : receipt_of q h1 = Some (Some r)) by (unfold receipt_of; cbn; apply lookup_insert_eq).
  assert (H1 : resizing q h h1).
  { split; auto.
    - intros g Hg. exists g. auto.
    - intros i Hi. cbn. by rewrite lookup_insert_ne.
    - intros f Hf. rewrite He in Hf. injection Hf as <-. exists r. auto.
    - intros Hf. by destruct (Hn Hf). }
  do 2 call. eapply (post_bind _ _ _ (λ _ h', h' = h1)).
  { eapply post_mono; [by apply post_env|done|]. by intros _ h' _ [_ ->]. }
  intros _ h2 _ ->. eapply post_mono; [by apply post_query|done|]. intros _ h' _ [-> _]. auto.
Qed.

(** Writing a receipt that is already there changes nothing. *)
Lemma write_receipt_same r h :
  resize_receipts h !! pr_RequestID (rs_Request r) = Some (Some r) →
  wp (write_receipt r) (λ _ h', h' = h) h.
Proof.
  intros Hr. assert (Heq : set_resize_receipts (<[pr_RequestID (rs_Request r) := Some r]>
    (resize_receipts h)) h = h) by (rewrite insert_id by done; by destruct h).
  unfold write_receipt. do 2 (apply wp_bind, wp_query; [done..|]; cbn [of_result]).
  apply wp_bind, wp_env; cbn [fst snd of_result]; [done..| |done]. by apply wp_query.
Qed.

(** The cgroup's half of a request. *)
Definition cgroup_step (q : ResizeMemoryPoolRequest) (h h' : PoolHost) : Prop :=
  resize_receipts h' = resize_receipts h ∧
  (∀ n, n ≠ pr_Name q → pools h' !! n = pools h !! n) ∧
  (∀ g', pools h' !! pr_Name q = Some g' → ∃ g, pools h !! pr_Name q = Some g ∧
    (pc_max g' = pc_max g ∨ pc_max g' = Some (pr_SizeBytes q))).

Lemma cgroup_step_refl q h : cgroup_step q h h.
Proof. split_and!; auto. intros g Hg. exists g. auto. Qed.

(** On success the limit is in force; on failure the reason is said. *)
Definition cgroup_answer (q : ResizeMemoryPoolRequest) (h : PoolHost) (o : outcome unit) (h' : PoolHost) : Prop :=
  cgroup_step q h h' ∧ (o = Ok tt → limited q h') ∧ (∀ e, o = Err e → error_text e ≠ "").

Lemma resizeMemoryPoolCgroup_wp q h :
  validName (pr_Name q) = true → 0 < pr_SizeBytes q →
  wp (resizeMemoryPoolCgroup q) (cgroup_answer q h) h.
Proof.
  intros Hname Hsize.
  assert (Herr : ∀ e, error_text e ≠ "" → cgroup_answer q h (Err e) h).
  { intros e He. split; [apply cgroup_step_refl|]. by split; [|intros ? [= <-]]. }
  assert (Hcrash : cgroup_answer q h Crashed h) by (split; [apply cgroup_step_refl|done]).
  assert (Hio : cgroup_answer q h (Err ErrIO) h) by by apply Herr.
  unfold resizeMemoryPoolCgroup. rewrite (directChild_name _ Hname).
  apply wp_bind, wp_query; [done..|]. apply wp_bind, wp_lift. cbn.
  apply wp_bind, wp_query; [done..|]. cbn. destruct (pools h !! pr_Name q) as [g|] eqn:Hg.
  2: { apply wp_require; [|by intros _; apply Herr]. intros _. split; [apply cgroup_step_refl|].
       split; [|done]. intros _ g L Hg'. congruence. }
  rewrite bool_decide_eq_true_2 by (by eexists). cbn. unfold read_max.
  apply wp_bind, wp_query; rewrite ?Hg; [done..|]. cbn.
  destruct (Z.eqb_spec (default 0 (pc_max g)) (pr_SizeBytes q)) as [Heq|Hne].
  { apply wp_ret. split; [apply cgroup_step_refl|]. split; [|done]. intros _ g' L Hg' HL.
    rewrite Hg in Hg'. injection Hg' as <-. rewrite HL in Heq. cbn in Heq. lia. }
  assert (Hw : wp (write_max (pr_Name q) (pr_SizeBytes q)) (cgroup_answer q h) h).
  { set (h' := set_pools (<[pr_Name q := mkPoolCgroup (Some (pr_SizeBytes q)) (pc_current g) (pc_vms g)]>
      (pools h)) h).
    assert (Hstep : cgroup_step q h h').
    { split_and!; [done| |].
      - intros n Hn. cbn. by rewrite lookup_insert_ne.
      - intros g' Hg'. cbn in Hg'. rewrite lookup_insert_eq in Hg'. injection Hg' as <-. exists g. auto. }
    apply wp_env; rewrite ?Hg; [done..| |]; cbn; (split; [exact Hstep|]); (split; [|done]); [|done].
    intros _ g' L Hg' HL. cbn in Hg'. rewrite lookup_insert_eq in Hg'. injection Hg' as <-.
    cbn in HL. injection HL as <-. lia. }
  apply wp_bind. case_match; [|by apply wp_ret]. unfold read_current.
  apply wp_bind, wp_query; rewrite ?Hg; [done..|]. cbn.
  apply wp_bind, wp_require; [intros _|by intros _; apply Herr].
  apply wp_require; [done|by intros _; apply Herr].
Qed.

Lemma limited_pools q h h' : pools h' = pools h → limited q h → limited q h'.
Proof. unfold limited. by intros ->. Qed.

Lemma handleResize_post uuid_Parse q h :
  truthful_receipt q h → validName (pr_Name q) = true →
  wp (handleResizeMemoryPool uuid_Parse q) (post (resizing q h) (λ r h',
    rs_Request r = q ∧ rs_Done r = true ∧ receipt_of q h' = Some (Some r))) h.
Proof.
  intros Ht Hname. assert (Hrefl : resizing q h h) by by apply resizing_refl.
  unfold handleResizeMemoryPool. eapply post_bind; [by apply post_lift|]. intros [] ? _ [-> Hv].
  assert (Hsize : 0 < pr_SizeBytes q).
  { unfold validate_resize in Hv. destruct (uuid_Parse (pr_RequestID q)); [|done].
    destruct (validate_pool_name (pr_Name q)); [|done]. cbn in Hv.
    destruct (Z.leb_spec (pr_SizeBytes q) 0); [done|lia]. }
  unfold resizeMemoryPool. do 2 call.
  eapply post_bind; [by apply post_query|]. intros found ? _ [-> [= <-]].
  eapply (post_bind _ _ _ (λ r h', h' = h ∧ rs_Request r = q ∧
    match receipt_of q h with Some f => f = Some r | None => rs_Done r = false end)).
  { unfold receipt_of. destruct (resize_receipts h !! pr_RequestID q) as [f|] eqn:Hf; [|by apply post_ret].
    eapply post_bind; [by apply post_lift|]. intros r ? _ [-> Hr].
    eapply post_bind; [by apply post_require|]. intros _ ? _ [-> Hq%bool_decide_eq_true].
    apply post_ret; [done|]. destruct f as [r'|]; [|done]. injection Hr as ->. done. }
  intros r ? _ (-> & Hq & Hr). destruct (rs_Done r) eqn:Hdone.
  - (* the outcome is on disk *)
    destruct (receipt_of q h) as [f|] eqn:Hf; [|congruence]. subst f.
    eapply (post_bind _ _ _ (λ _ h', h' = h)).
    { eapply wp_mono; [apply write_receipt_same; by rewrite Hq|]. intros o ? ->. by split. }
    intros _ ? _ ->. apply post_ret; [done|]. done.
  - assert (Hnf : ¬ finished q h).
    { intros [e He]. rewrite He in Hr. injection Hr as <-. done. }
    eapply post_bind; [by apply write_receipt_post; try congruence|].
    intros _ h1 _ (Hp1 & Hr1 & H1).
    assert (Hnf1 : ¬ finished q h1).
    { intros [e He]. rewrite Hr1 in He. injection He as ->. done. }
    eapply (post_bind _ _ _ (λ o h2, resizing q h h2 ∧ receipt_of q h2 = Some (Some r) ∧
      (∀ u, o = inl u → limited q h2) ∧ (∀ e, o = inr e → error_text e ≠ ""))).
    { apply wp_try. eapply wp_mono; [by apply resizeMemoryPoolCgroup_wp|].
      intros o h2 ((E & P & N) & Hok & Herr).
      assert (Hr2 : receipt_of q h2 = Some (Some r)) by (unfold receipt_of; rewrite E; exact Hr1).
      assert (H2 : resizing q h h2).
      { eapply resizing_trans; [exact H1|]. split; auto.
        - intros i _. by rewrite E.
        - intros f Hf. rewrite Hr2 in Hf. injection Hf as <-. exists r. by rewrite Hdone.
        - intros Hf. by destruct (Hnf1 Hf). }
      destruct o as [[]|e|]; (split; [done|]); intros ? [= <-]; split_and!; try done;
        intros ? [= <-]; auto. }
    intros o h2 _ (H2 & Hr2 & Hok & Herr).
    set (r' := mkResizeResult q true _).
    eapply (post_bind _ _ _ (λ _ h3, receipt_of q h3 = Some (Some r'))).
    { eapply post_mono; [apply (write_receipt_post q)| |].
      - apply H2.
      - intros [e He]. rewrite Hr2 in He. injection He as ->. done.
      - done.
      - intros _ He. destruct o as [u|e]; [by apply (Hok u)|]. by destruct (Herr e eq_refl).
      - intros h3. by apply resizing_trans.
      - by intros _ h3 _ (_ & ? & _). }
    intros _ h3 H3 Hr3. by apply post_ret.
Qed.

(** A finished request changes nothing, and is answered as it was. *)
Lemma handleResize_finished uuid_Parse q h :
  finished q h →
  wp (handleResizeMemoryPool uuid_Parse q) (λ o h', h' = h ∧ ∀ r, o = Ok r →
    receipt_of q h = Some (Some r) ∧ rs_Request r = q ∧ rs_Done r = true) h.
Proof.
  intros [e He]. set (R := mkResizeResult q true e) in *.
  enough (Hp : wp (handleResizeMemoryPool uuid_Parse q) (post (eq h) (λ r _,
    receipt_of q h = Some (Some r) ∧ rs_Request r = q ∧ rs_Done r = true)) h).
  { eapply wp_mono; [exact Hp|]. intros o h' [<- Ha]. split; [done|]. exact Ha. }
  unfold handleResizeMemoryPool. eapply post_bind; [by apply post_lift|]. intros [] ? _ [-> _].
  unfold resizeMemoryPool. do 2 call.
  eapply post_bind; [by apply post_query|]. intros found ? _ [-> [= <-]].
  unfold receipt_of in He. rewrite He.
  eapply (post_bind _ _ _ (λ r h', h' = h ∧ r = R)).
  { eapply post_bind; [by apply post_lift|]. intros r ? _ [-> Hr]. injection Hr as <-.
    eapply post_bind; [by apply post_require|]. intros _ ? _ [-> _]. by apply post_ret. }
  intros ? ? _ [-> ->].
  eapply (post_bind _ _ _ (λ _ h', h' = h)).
  { eapply wp_mono; [by apply write_receipt_same|]. intros o ? ->. by split. }
  intros _ ? _ ->. by apply post_ret.
Qed.
