(* ===== verification/Provision.v ===== *)
(** * Memory pools and host capacity

    Models the memory-pool commands, the admission of a pooled start and the capacity
    checks of src/internal/provision/provision.go, over the store's database and the
    runner's pools: the two are reached by calls that can fail, and a call of the
    runner can lose its answer after it took effect.  The admission lock is held
    throughout: commands run one at a time. *)
From S2P Require Import Prelude GoStrings Timestamps Paths Model Sql StoreDB StoreRequests.
From S2P Require Import StoreInstances StoreCleanup StoreMigration StorePools PoolHost RunnerState Network.

#[local] Open Scope Z_scope.

(** ** State *)

(** A pooled start between its admission and its outcome: the incarnation, and the
    pool as its request names it. *)
Record pooled_start := mkPooledStart { ps_ID : string; ps_Pool : MemoryPool }.

(** What can happen to the runner between two of a command's calls: a request of an
    earlier command arrives late or again, and the machine changes. *)
Inductive runner_event :=
  | ev_start (req : StartRequest) (fs : list fault)
  | ev_resolve (q : StartResultRequest) (fs : list fault)
  | ev_stop (req : StopRequest) (fs : list fault)
  | ev_machine (m : Machine).

(** The runner is the pools of its host, and the host of its start receipts.
    [pv_sent] and [pv_attempts] are history variables: the resize requests and the
    starts sent to it.  [pv_starts] are the pooled starts in flight; [pv_events] is the
    schedule of what will happen before each coming call. *)
Record Control := mkControl {
  pv_db : DB;
  pv_runner : PoolHost;
  pv_host : Host;
  pv_memory : Z;                 (* MemTotal, in bytes *)
  pv_sent : list ResizeMemoryPoolRequest;
  pv_starts : list pooled_start;
  pv_attempts : list StartRequest;
  pv_events : list (list runner_event);
}.
Definition set_db v w := mkControl v (pv_runner w) (pv_host w) (pv_memory w) (pv_sent w) (pv_starts w) (pv_attempts w) (pv_events w).
Definition set_runner v w := mkControl (pv_db w) v (pv_host w) (pv_memory w) (pv_sent w) (pv_starts w) (pv_attempts w) (pv_events w).
Definition set_host v w := mkControl (pv_db w) (pv_runner w) v (pv_memory w) (pv_sent w) (pv_starts w) (pv_attempts w) (pv_events w).
Definition set_sent v w := mkControl (pv_db w) (pv_runner w) (pv_host w) (pv_memory w) v (pv_starts w) (pv_attempts w) (pv_events w).
Definition set_starts v w := mkControl (pv_db w) (pv_runner w) (pv_host w) (pv_memory w) (pv_sent w) v (pv_attempts w) (pv_events w).
Definition set_attempts v w := mkControl (pv_db w) (pv_runner w) (pv_host w) (pv_memory w) (pv_sent w) (pv_starts w) v (pv_events w).
Definition set_events v w := mkControl (pv_db w) (pv_runner w) (pv_host w) (pv_memory w) (pv_sent w) (pv_starts w) (pv_attempts w) v.

Definition on_db {A} (m : M DB A) : M Control A := λ fs w,
  let '(o, d, fs') := m fs (pv_db w) in (o, set_db d w, fs').

(** A call of the runner: its failures and its death are errors here. *)
Definition on_runner {A} (m : M PoolHost A) : M Control A := λ fs w,
  let '(o, h, fs') := m fs (pv_runner w) in
  (match o with Crashed => Err ErrIO | _ => o end, set_runner h w, fs').

(** A request leaves for the runner (recorded in the history variables). *)
Definition resize_sent (req : ResizeMemoryPoolRequest) : M Control unit := λ fs w,
  (Ok tt, set_sent (req :: pv_sent w) w, fs).
Definition start_sent (s : pooled_start) : M Control unit := λ fs w,
  (Ok tt, set_starts (s :: pv_starts w) w, fs).

(** The answer of the runner comes back. *)
Definition answer : M Control unit := query (λ _, inl tt).

(** ** The runner's client *)

(** A typed rejection is an outcome; any other error leaves the outcome unknown. *)
Inductive resize_outcome := Resized | Rejected (reason : string).

Section provision.
Context (uuid_Parse : string → option string).
(** The configured memory of an instance without its own. *)
Context (cfg_MemoryMiB : Z).
(** Whether the control plane has a tailnet client. *)
Context (has_tsClient : bool).

Definition client_ResizeMemoryPool (req : ResizeMemoryPoolRequest) : M Control resize_outcome :=
  lift (validate_resize uuid_Parse req);;
  resize_sent req;;
  result ← on_runner (handleResizeMemoryPool uuid_Parse req);
  answer;;
  require (rs_Done result && bool_decide (rs_Request result = req))
    (Errorf "pool resize outcome unknown");;
  mret (if nonempty (rs_Error result) then Rejected (rs_Error result) else Resized).

Definition client_DeleteMemoryPool (name : string) : M Control unit :=
  lift (validate_pool_name name);;
  on_runner (handleDeleteMemoryPool name);;
  answer.

(** ** Capacity *)

Definition hostMemoryReserveMiB : Z := 512.
Definition MiB : Z := 1024 * 1024.

Definition effectiveMemoryMiB (inst : Instance) : Z :=
  if 0 <? MemoryMiB inst then MemoryMiB inst else cfg_MemoryMiB.

(** [vmrunner.FixedMemoryLimitBytes]. *)
Definition FixedMemoryLimitBytes (memoryMiB : Z) : Z :=
  if memoryMiB <=? 0 then 0 else
  let overheadMiB := memoryMiB / 16 in
  let overheadMiB := if overheadMiB <? 256 then 256 else overheadMiB in
  int64 (int64 (memoryMiB + overheadMiB) * miBBytes).

(** [kill -0]. *)
Definition processExists (pid : Z) (w : Control) : bool :=
  (0 <? pid) && bool_decide (is_Some (procs (machine (pv_host w)) !! pid)).

Definition instanceHasActiveRuntime (w : Control) (inst : Instance) : bool :=
  if 0 <? FirecrackerPID inst then processExists (FirecrackerPID inst) w
  else String.eqb (State inst) StateProvisioning.

Definition instanceReservesFixedHostMemory (w : Control) (inst : Instance) : bool :=
  if negb (String.eqb (NormalizedMemoryMode inst) MemoryModeFixed) then false
  else if String.eqb (State inst) StateStopping || String.eqb (State inst) StateDeleting then true
  else if nonempty (StartRequestID inst) &&
          bool_decide (State inst ∈ [StateProvisioning; StateAwaitingTailnet; StateAwaitingGuest;
                                     StateReady])
  then true else instanceHasActiveRuntime w inst.

Definition fixed_reservation (w : Control) (inst : Instance) : Z :=
  if instanceReservesFixedHostMemory w inst
  then FixedMemoryLimitBytes (effectiveMemoryMiB inst) else 0.

(** The processes are looked at while the list is summed up. *)
Definition totalReservedHostMemoryBytes (excludeName : string) : M Control Z :=
  instances ← on_db (ListInstances false);
  fixed ← query (λ w, inl (sum_int64 (fixed_reservation w)
             (filter (λ i, EqualFold (Name i) excludeName = false) instances)));
  pools ← on_db ListMemoryPools;
  mret (int64 (fixed + sum_int64 mp_ReservedBytes pools)).

Definition ensureHostMemoryReservationCapacity (excludeName : string) (requestedBytes : Z)
  : M Control unit :=
  totalBytes ← query (λ w, inl (pv_memory w));
  reservedBytes ← totalReservedHostMemoryBytes excludeName;
  let budgetBytes := Z.max (totalBytes - hostMemoryReserveMiB * MiB) 0 in
  require (negb (budgetBytes <? int64 (reservedBytes + requestedBytes)))
    (Errorf "insufficient host memory reservation budget").

Definition ensureHostMemoryCapacity (excludeName : string) (requestedMemoryMiB : Z)
  : M Control unit :=
  ensureHostMemoryReservationCapacity excludeName (FixedMemoryLimitBytes requestedMemoryMiB).

Definition ensureMemoryPoolSupportsGuestMemory (pool : MemoryPool) (guestMemoryMiB : Z) : result unit :=
  if mp_ReservedBytes pool <? int64 (guestMemoryMiB * MiB)
  then inr (Errorf "guest-visible memory exceeds memory pool reservation") else mret tt.

(** ** Commands *)

Definition with_reserved (v : Z) (p : MemoryPool) : MemoryPool :=
  mkMemoryPool (mp_ID p) (mp_Name p) v (mp_CreatedAt p) (mp_UpdatedAt p) (mp_CreatedByUser p)
    (mp_CreatedByNode p).
Definition with_updated (t : time) (p : MemoryPool) : MemoryPool :=
  mkMemoryPool (mp_ID p) (mp_Name p) (mp_ReservedBytes p) (mp_CreatedAt p) t (mp_CreatedByUser p)
    (mp_CreatedByNode p).

(** [now] is the clock, [u] the result of [uuid.NewString]. *)
Definition provision_CreateMemoryPool (now : time) (u name : string) (actor : Actor) (sizeBytes : Z)
  : M Control MemoryPool :=
  require (validName name) (Errorf "invalid memory pool name");;
  require (0 <? sizeBytes) (Errorf "memory pool size must be positive");;
  ensureHostMemoryReservationCapacity "" sizeBytes;;
  let pool := mkMemoryPool u name sizeBytes now now (UserLogin actor) (NodeName actor) in
  on_db (CreateMemoryPool now pool);;
  mret pool.

(** [migrationFence]: no unfinished upgrade, clean-up, import or migration. *)
Definition migrationFence (name : string) : M Control unit :=
  query (λ _, inl tt);; (* upgradeFence *)
  inst ← on_db (GetInstance name);
  on_db (CheckCleanupFence (ID inst));;
  r ← try (on_db (GetImportReceipt (ID inst)));
  match r with
  | inl r => require (String.eqb (ir_Phase r) "imported") (Errorf "instance is fenced by incomplete import")
  | inr ErrNoRows => mret tt
  | inr e => throw e
  end;;
  m ← try (inst ← on_db (GetInstance name); on_db (GetMigration (ID inst)));
  match m with
  | inl m => require (String.eqb (mg_Phase m) "aborted") (Errorf "instance is fenced by migration")
  | inr ErrNoRows => mret tt
  | inr e => throw e
  end.

Definition settled_member (inst : Instance) : bool :=
  String.eqb (State inst) StateReady ||
  (String.eqb (State inst) StateStopped && (FirecrackerPID inst =? 0)).

(** The members of the pool are settled and fit; the result says whether one runs. *)
Fixpoint check_members (pool : MemoryPool) (instances : list Instance) : M Control bool :=
  match instances with
  | [] => mret false
  | inst :: rest =>
      if negb (String.eqb (MemoryPoolID inst) (mp_ID pool)) then check_members pool rest else
      require (settled_member inst) (Errorf "memory pool member must be ready or stopped before resizing");;
      migrationFence (Name inst);;
      lift (ensureMemoryPoolSupportsGuestMemory pool (effectiveMemoryMiB inst));;
      running ← check_members pool rest;
      mret (String.eqb (State inst) StateReady || running)
  end.

(** The pool, and the rejection if the runner rejected. *)
Definition finishMemoryPoolResize (now : time) (pool : MemoryPool) (op : MemoryPoolResize)
  : M Control (MemoryPool * resize_outcome) :=
  outcome ← client_ResizeMemoryPool
              (mkResizeRequest (RequestID op) (mp_Name pool) (SizeBytes op) (Running op));
  let pool := match outcome with
              | Resized => if mp_ReservedBytes pool =? SizeBytes op then pool
                           else with_updated now (with_reserved (SizeBytes op) pool)
              | Rejected _ => pool
              end in
  on_db (FinishMemoryPoolResize now pool (RequestID op));;
  mret (pool, outcome).

Definition provision_ResizeMemoryPool (now : time) (u name : string) (sizeBytes : Z)
  : M Control (MemoryPool * resize_outcome) :=
  require (0 <? sizeBytes) (Errorf "memory pool size must be positive");;
  pool ← on_db (GetMemoryPoolByName name);
  op ← on_db (PendingMemoryPoolResize (mp_ID pool));
  if nonempty (RequestID op) then
    require (SizeBytes op =? sizeBytes) (Errorf "memory pool resize pending; retry pool resize with --size");;
    finishMemoryPoolResize now pool op
  else
    let previousSize := mp_ReservedBytes pool in
    instances ← on_db (ListInstances false);
    running ← check_members (with_reserved sizeBytes pool) instances;
    (if previousSize <? sizeBytes
     then ensureHostMemoryReservationCapacity "" (int64 (sizeBytes - previousSize)) else mret tt);;
    let pool := with_reserved (Z.max previousSize sizeBytes) pool in
    let pool := if previousSize <? sizeBytes then with_updated now pool else pool in
    let op := mkMemoryPoolResize u sizeBytes running in
    on_db (BeginMemoryPoolResize now pool op);;
    finishMemoryPoolResize now pool op.

Definition provision_DeleteMemoryPool (name : string) : M Control MemoryPool :=
  current ← on_db (FindMemoryPoolByName name);
  match current with
  | None => throw (Errorf "memory pool does not exist")
  | Some current =>
      on_db (CheckMemoryPoolResize (mp_ID current));;
      members ← on_db (CountMemoryPoolMembers (mp_ID current));
      require (members <=? 0) (Errorf "memory pool still has member VMs");;
      client_DeleteMemoryPool (mp_Name current);;
      on_db (DeleteMemoryPool (mp_ID current));;
      mret current
  end.

(** ** Admission of a pooled start *)

Definition memoryPoolForInstance (inst : Instance) : M Control (option MemoryPool) :=
  if negb (UsesMemoryPool inst) then mret None else
  pool ← on_db (GetMemoryPoolByID (MemoryPoolID inst));
  mret (Some pool).

Definition requireMemoryPoolForInstance (inst : Instance) : M Control MemoryPool :=
  pool ← memoryPoolForInstance inst;
  match pool with
  | None => throw (Errorf "instance does not use a memory pool")
  | Some pool => on_db (CheckMemoryPoolResize (mp_ID pool));; mret pool
  end.

Definition applyConfiguredBootArtifacts (i : Instance) : Instance :=
  mkInstance (ID i) (Name i) (Kind i) (Image i) (State i) (CreatedAt i)
    (CreatedByUser i) (CreatedByNode i) (VCPUCount i) (MemoryMiB i) (MemoryMode i)
    (MemoryPoolID i) (RootFSSizeBytes i) (RootFSPath i) (TrimSpace (KernelPath i))
    (TrimSpace (InitrdPath i)) (SocketPath i) (LogPath i) (SerialLogPath i) (TapDevice i)
    (GuestMAC i) (NetworkCIDR i) (HostAddr i) (GuestAddr i) (GatewayAddr i)
    (FirecrackerPID i) (StartRequestID i) (StartBootID i) (TailnetNodeID i)
    (TailscaleName i) (TailscaleIP i) (LastError i) (DeletedAt i) (UpdatedAt i).

(** A look at the host: a file, a tool, free space. *)
Definition host_check : M Control unit := query (λ _, inl tt).

Definition ensureStartPrereqs (inst : Instance) : M Control unit :=
  host_check;; (* upgradeFence *)
  require (negb (String.eqb (State inst) StateStopping)) (Errorf "instance has an incomplete stop");;
  require (negb (String.eqb (State inst) StateDeleted)) (Errorf "instance is deleted");;
  require (negb (String.eqb (State inst) StateDeleting)) (Errorf "instance is being deleted");;
  require (String.eqb (KindName inst) KindOrb || has_tsClient) (Errorf "start requires a tailnet client");;
  for_each (λ path, require (nonempty path) (Errorf "missing required runtime paths");; host_check)
    [KernelPath inst; RootFSPath inst];;
  if nonempty (InitrdPath inst) then host_check else mret tt.

(** An error before anything is sent to the runner: the start is rejected. *)
Definition rejecting {A} (m : M Control A) : M Control A :=
  r ← try m;
  match r with inl a => mret a | inr e => throw (ErrStartRejected e) end.

(** [StartWithOptions] under the lock, up to the reconciliation of the runtime ... *)
Definition start_fence (name : string) : M Control Instance :=
  migrationFence name;;
  on_db (GetInstance name).

(** ... and from there to the admission: the pool is not being resized and fits the
    guest, or the host has the memory, and the instance becomes "provisioning".  The
    disk's layout is only checked: the migration of an old layout is not modelled. *)
Definition admit_start (now : time) (name : string) : M Control (Instance * option MemoryPool) :=
  current ← on_db (GetInstance name);
  let current := applyConfiguredBootArtifacts current in
  require (negb (String.eqb (State current) StateProvisioning)) (Errorf "instance is already starting");;
  rejecting host_check;; (* ensureHostDiskCapacity *)
  host_check;; (* ensureDiskLayout *)
  rejecting (ensureStartPrereqs current);;
  running ← query (λ w, inl ((0 <? FirecrackerPID current) && processExists (FirecrackerPID current) w));
  require (negb (running : bool)) (Errorf "instance is already running");;
  pool ← (if UsesMemoryPool current then
            pool ← rejecting (requireMemoryPoolForInstance current);
            rejecting (lift (ensureMemoryPoolSupportsGuestMemory pool (effectiveMemoryMiB current)));;
            mret (Some pool)
          else
            rejecting (ensureHostMemoryCapacity (Name current) (effectiveMemoryMiB current));;
            mret None);
  let current := set_UpdatedAt now (set_LastError "" (set_FirecrackerPID 0
                   (set_State StateProvisioning current))) in
  on_db (UpdateInstance now current);;
  match pool with
  | Some pool => start_sent (mkPooledStart (ID current) pool)
  | None => mret tt
  end;;
  mret (current, pool).

(** ** Admission of a creation *)

Definition requireMemoryPoolByName (name : string) : M Control MemoryPool :=
  pool ← on_db (FindMemoryPoolByName name);
  match pool with
  | None => throw (Errorf "memory pool does not exist")
  | Some pool => on_db (CheckMemoryPoolResize (mp_ID pool));; mret pool
  end.

(** An error before anything is allocated. *)
Definition rejecting_create {A} (m : M Control A) : M Control A :=
  r ← try m;
  match r with inl a => mret a | inr e => throw (ErrCreateRejected e) end.

(** [Create] under the lock, up to its directory ... *)
Definition create_capacity (poolName : string) (memoryMiB : Z) : M Control (option MemoryPool) :=
  pool ← (if nonempty poolName then
            pool ← rejecting_create (requireMemoryPoolByName poolName);
            rejecting_create (lift (ensureMemoryPoolSupportsGuestMemory pool memoryMiB));;
            mret (Some pool)
          else
            rejecting_create (ensureHostMemoryCapacity "" memoryMiB);;
            mret None);
  rejecting_create host_check;; (* ensureHostDiskCapacity *)
  mret pool.

Definition with_pool (pool : option MemoryPool) (inst : Instance) : Instance :=
  match pool with
  | Some p => if nonempty (mp_ID p) then set_MemoryPoolID (mp_ID p) (set_MemoryMode MemoryModePool inst) else inst
  | None => inst
  end.

(** ... and from there: the instance gets a network and its record, which is
    "provisioning" in its pool, or its directory is removed again. *)
Definition create_record (cidr : string) (now : time) (pool : option MemoryPool) (inst : Instance) : M Control Instance :=
  r ← try (on_db (create_with_network cidr now (with_pool pool inst)));
  match r with
  | inr e => _ ← try host_check; throw e (* removePathAll *)
  | inl inst =>
      match pool with
      | Some p => if nonempty (mp_ID p) then start_sent (mkPooledStart (ID inst) p) else mret tt
      | None => mret tt
      end;;
      mret inst
  end.

(** The runner executes a start in flight: its pool is set up before the launch. *)
Definition runner_start (s : pooled_start) : M Control unit :=
  on_runner (prepareMemoryPoolCgroupParent (mp_Name (ps_Pool s)) (mp_ReservedBytes (ps_Pool s))).
End provision.
