(* ===== verification/PoolStore.v ===== *)
(** * What the pool commands rely on in the store and the runner

    The store's pool operations as changes of single rows, under every fault, and the
    names of the pools' cgroups. *)
From S2P Require Import Prelude GoStrings Timestamps Paths Model Sql StoreDB StoreRequests.
From S2P Require Import StoreInstances StoreCleanup StoreMigration StorePools StoreTrace InstanceSpec.
From S2P Require Import PoolHost Provision.

#[local] Open Scope Z_scope.

(** ** Calls of the two sides *)

Lemma wp_on_db {A} (m : M DB A) Q w :
  wp m (λ o d, Q o (set_db d w)) (pv_db w) → wp (on_db m) Q w.
Proof. intros H fs. specialize (H fs). unfold on_db. by destruct (m fs (pv_db w)) as [[? ?] ?]. Qed.

(** The runner's death is an error here. *)
Definition survived {A} (o : outcome A) : outcome A :=
  match o with Crashed => Err ErrIO | _ => o end.

Lemma wp_on_runner {A} (m : M PoolHost A) Q w :
  wp m (λ o h, Q (survived o) (set_runner h w)) (pv_runner w) → wp (on_runner m) Q w.
Proof.
  intros H fs. specialize (H fs). unfold on_runner, survived in *.
  by destruct (m fs (pv_runner w)) as [[[] ?] ?].
Qed.

(** A program that only reads: its result, if any, satisfies [P]. *)
Definition reads {S A} (m : M S A) (P : A → Prop) (s : S) : Prop :=
  wp m (λ o s', s' = s ∧ ∀ a, o = Ok a → P a) s.

Lemma reads_bind {S A B} (m : M S A) (k : A → M S B) (P : A → Prop) (P' : B → Prop) s :
  reads m P s → (∀ a, P a → reads (k a) P' s) → reads (m ≫= k) P' s.
Proof.
  intros Hm Hk. apply wp_bind. eapply wp_mono; [exact Hm|].
  intros [a|e|] s' [-> HP]; [|by split..]. by apply Hk, HP.
Qed.
Lemma reads_query {S A} (f : S → result A) s : reads (query f) (λ a, f s = inl a) s.
Proof. apply wp_query; [by split..|]. split; [done|]. intros a. by destruct (f s); intros [= <-]. Qed.
Lemma reads_lift {S A} (r : result A) (s : S) : reads (lift r) (λ a, r = inl a) s.
Proof. apply wp_lift. split; [done|]. intros a. by destruct r; intros [= <-]. Qed.
Lemma reads_ret {S A} (a : A) (P : A → Prop) (s : S) : P a → reads (mret a) P s.
Proof. intros HP. apply wp_ret. split; [done|]. by intros ? [= <-]. Qed.
Lemma reads_throw {S A} e (P : A → Prop) (s : S) : reads (throw e) P s.
Proof. by apply wp_throw. Qed.
Lemma reads_require {S} b e (s : S) : reads (require b e) (λ _, b = true) s.
Proof. apply wp_require; intros ->; split; done || (intros ? [= ]). Qed.
Lemma reads_try {S A} (m : M S A) (P : A → Prop) s :
  reads m P s → reads (try m) (λ r, ∀ a, r = inl a → P a) s.
Proof.
  intros Hm. apply wp_try. eapply wp_mono; [exact Hm|].
  intros [a|e|] s' [-> HP]; (split; [done|]); [|intros ? [= <-]; done..].
  intros ? [= <-] ? [= <-]. by apply HP.
Qed.
Lemma reads_rejecting {A} (m : M Control A) P w : reads m P w → reads (rejecting m) P w.
Proof.
  intros Hm. unfold rejecting. eapply reads_bind; [by apply reads_try|].
  intros [a|e] HP; [by apply reads_ret, HP|apply reads_throw].
Qed.
Lemma reads_mono {S A} (m : M S A) (P P' : A → Prop) s :
  reads m P s → (∀ a, P a → P' a) → reads m P' s.
Proof. intros Hm HP. eapply wp_mono; [exact Hm|]. intros o s' [-> H]. split; [done|]. auto. Qed.
Lemma reads_any {S A} (m : M S A) s : within eq m → reads m (λ _, True) s.
Proof. intros Hm. eapply wp_mono; [apply Hm|]. by intros o s' <-. Qed.
Lemma reads_and {S A} (m : M S A) (P P' : A → Prop) s :
  reads m P s → reads m P' s → reads m (λ a, P a ∧ P' a) s.
Proof.
  intros H H'. eapply wp_mono; [apply (wp_and _ _ _ _ H H')|]. intros o s' [[-> HP] [_ HP']]. auto.
Qed.
Lemma reads_on_db {A} (m : M DB A) P w : reads m P (pv_db w) → reads (on_db m) P w.
Proof.
  intros Hm. apply wp_on_db. eapply wp_mono; [exact Hm|]. intros o d [-> HP]. split; [by destruct w|done].
Qed.
Lemma reads_post {S A} (I : S → Prop) (m : M S A) (P : A → Prop) s :
  reads m P s → I s → wp m (post I (λ a s', s' = s ∧ P a)) s.
Proof. intros Hm HI. eapply wp_mono; [exact Hm|]. intros o s' [-> HP]. split; auto. Qed.

(** ** Pool rows *)

(** [p] is what the row of its ID says, as far as reservations depend on it. *)
Definition pool_row (d : DB) (p : MemoryPool) : Prop :=
  ∃ row, memory_pools d !! mp_ID p = Some row ∧ mp_Name row = mp_Name p ∧
    mp_ReservedBytes row = mp_ReservedBytes p.

Lemma scan_pool row p :
  scanMemoryPool row = inl p →
  mp_ID p = mp_ID row ∧ mp_Name p = mp_Name row ∧ mp_ReservedBytes p = mp_ReservedBytes row.
Proof.
  unfold scanMemoryPool. destruct (parseTime (mp_CreatedAt row)); [|done].
  destruct (parseTime (mp_UpdatedAt row)); [|done]. by intros [= <-].
Qed.

Lemma scanned_pool_row d k row p :
  wf d → memory_pools d !! k = Some row → scanMemoryPool row = inl p → pool_row d p.
Proof.
  intros Hwf Hk (Hid & Hn & Hr)%scan_pool. exists row.
  pose proof (wf_pools d Hwf k row Hk) as Hkey. cbn in Hkey. by rewrite Hid, Hkey, Hn, Hr.
Qed.

Lemma pool_row_unique d p q : wf d → pool_row d p → pool_row d q → mp_Name p = mp_Name q → mp_ID p = mp_ID q.
Proof.
  intros Hwf (r & Hr & Hn & _) (r' & Hr' & Hn' & _) Heq.
  apply (wf_pools_unique d Hwf _ _ r r' Hr Hr'). apply String.eqb_eq. congruence.
Qed.

Lemma GetMemoryPoolByName_reads name d :
  wf d → reads (GetMemoryPoolByName name) (λ p, pool_row d p ∧ mp_Name p = name) d.
Proof.
  intros Hwf. unfold GetMemoryPoolByName. eapply reads_bind; [apply reads_query|].
  intros row (k & Hk & Hn%String.eqb_eq)%select_row_Some.
  eapply reads_mono; [apply reads_lift|]. intros p Hp. split; [by eapply scanned_pool_row|].
  apply scan_pool in Hp as (_ & -> & _). done.
Qed.

Lemma FindMemoryPoolByName_reads name d :
  wf d → reads (FindMemoryPoolByName name)
    (λ r, ∀ p, r = Some p → pool_row d p ∧ mp_Name p = name) d.
Proof.
  intros Hwf. unfold FindMemoryPoolByName.
  eapply reads_bind; [by apply reads_try, GetMemoryPoolByName_reads|].
  intros [p|e] Hp; [apply reads_ret; intros ? [= <-]; by apply Hp|].
  destruct e; by apply reads_throw || by apply reads_ret.
Qed.

Lemma GetMemoryPoolByID_reads id d :
  wf d → reads (GetMemoryPoolByID id) (λ p, pool_row d p ∧ mp_ID p = id) d.
Proof.
  intros Hwf. unfold GetMemoryPoolByID. eapply reads_bind; [apply reads_query|].
  intros row (k & Hk & Hn%String.eqb_eq)%select_row_Some.
  eapply reads_mono; [apply reads_lift|]. intros p Hp. split; [by eapply scanned_pool_row|].
  apply scan_pool in Hp as (-> & _). done.
Qed.

Lemma Pending_reads id d :
  wf d → reads (PendingMemoryPoolResize id) (λ op,
    (memory_pool_resizes d !! id = None ∧ RequestID op = "") ∨
    memory_pool_resizes d !! id = Some (mkResizeRow id (RequestID op) (SizeBytes op) (Running op))) d.
Proof.
  intros Hwf. unfold PendingMemoryPoolResize. apply wp_bind, wp_try.
  assert (Hpt : points_at MemoryPoolResizes (λ r, String.eqb (rz_pool_id r) id) id).
  { intros r Hr. by apply String.eqb_eq. }
  apply (wp_SELECT_point MemoryPoolResizes _ id);
    [done|apply Hwf|by apply wp_throw|done| |].
  - intros r Hr Hid%String.eqb_eq. apply wp_ret. split; [done|]. intros ? [= <-]. right.
    destruct r as [i ? ? ?]. cbn in *. by subst.
  - intros Hn. apply wp_ret. split; [done|]. intros ? [= <-]. left. split; [|done].
    destruct (memory_pool_resizes d !! id) as [r|] eqn:Hr; [|done].
    pose proof (wf_resizes d Hwf id r Hr) as Hk. cbn in Hk. specialize (Hn r Hr).
    by rewrite Hk, String.eqb_refl in Hn.
Qed.

Lemma Check_reads id d :
  wf d → reads (CheckMemoryPoolResize id) (λ _, ∀ r, memory_pool_resizes d !! id = Some r →
    rz_request_id r = "") d.
Proof.
  intros Hwf. unfold CheckMemoryPoolResize. eapply reads_bind; [by apply Pending_reads|].
  intros op Hop. eapply reads_mono; [apply reads_require|]. intros [] Hne r Hr. cbn in Hne.
  destruct Hop as [[Hop _]|Hop]; [congruence|]. rewrite Hop in Hr. injection Hr as <-. cbn.
  apply negb_true_iff in Hne. unfold nonempty in Hne. by apply negb_false_iff, String.eqb_eq in Hne.
Qed.

(** Every live row is listed as it reads back. *)
Lemma ListInstances_reads d :
  reads (ListInstances false) (λ l, ∀ k r, instances d !! k = Some r →
    row_State r ≠ StateDeleted → ∃ i, i ∈ l ∧ scanInstance (in_cols r) = inl i) d.
Proof.
  unfold ListInstances. eapply reads_bind; [apply reads_query|]. intros rows [= <-].
  eapply reads_mono; [apply reads_lift|]. intros l Hl%scan_all_spec k r Hk Hd.
  set (rows := map snd _) in Hl.
  assert (Hin : r ∈ merge_sort (created_le row_created) rows).
  { rewrite merge_sort_Permutation. apply list_elem_of_fmap. exists (k, r). split; [done|].
    apply elem_of_map_to_list, lookup_rows_where. split; [done|]. cbn.
    by apply negb_true_iff, String.eqb_neq. }
  apply list_elem_of_lookup in Hin as (n & Hn).
  destruct (Forall2_lookup_l _ _ _ _ _ Hl Hn) as (i & Hi & Hri). exists i.
  split; [by eapply list_elem_of_lookup_2|done].
Qed.

(** A positive count, or no member. *)
Lemma Count_reads id d :
  reads (CountMemoryPoolMembers id) (λ n, n <= 0 → ∀ k r, instances d !! k = Some r →
    row_State r ≠ StateDeleted → MemoryPoolID (in_cols r) ≠ id) d.
Proof.
  unfold CountMemoryPoolMembers. eapply reads_mono; [apply reads_query|]. intros n [= <-] Hn k r Hk Hd Hid.
  set (p := λ r : instance_row, _) in Hn.
  assert (He : exists_where p (instances d) = true).
  { apply exists_where_spec. exists k, r. split; [done|]. unfold p. apply andb_true_iff. split.
    - by apply String.eqb_eq.
    - by apply negb_true_iff, String.eqb_neq. }
  unfold exists_where in He. apply negb_true_iff, Z.eqb_neq in He.
  unfold affected in *. cbn [tget Instances] in Hn. lia.
Qed.

(** ** Changes of single rows *)

Lemma CreateMemoryPool_wp now p d :
  wp (CreateMemoryPool now p) (λ o d', (d' = d ∧ o ≠ Ok tt) ∨
    (memory_pools d !! mp_ID p = None ∧
     (∀ k r, memory_pools d !! k = Some r → mp_Name r ≠ mp_Name p) ∧
     d' = set_memory_pools (<[mp_ID p := pool_columns now p]> (memory_pools d)) d)) d.
Proof.
  apply wp_INSERT_fresh; [by left..|]. intros Hn Hv. enough (Hc : ∀ k r,
    memory_pools d !! k = Some r → mp_Name r ≠ mp_Name p) by (split; right; done).
  intros k r Hk Heq. apply violates_clash in Hv. apply not_true_iff_false in Hv. apply Hv.
  apply exists_where_spec. exists k, r. split; [done|]. cbn. rewrite Heq. apply String.eqb_refl.
Qed.

Definition resize_row_of (p : MemoryPool) (op : MemoryPoolResize) : resize_row :=
  mkResizeRow (mp_ID p) (RequestID op) (SizeBytes op) (Running op).

Lemma reserve_wp now p row (Q : outcome Z → DB → Prop) d :
  wf d → memory_pools d !! mp_ID p = Some row → Q (Err ErrIO) d → Q Crashed d →
  (let d' := set_memory_pools (<[mp_ID p := reserve now p row]> (memory_pools d)) d in
   Q (Ok 1) d' ∧ Q Crashed d') →
  wp (UPDATE MemoryPools (λ q, String.eqb (mp_ID q) (mp_ID p)) (reserve now p)) Q d.
Proof.
  intros Hwf Hrow HQ1 HQ2 HQ3.
  assert (Hpt : points_at MemoryPools (λ q, String.eqb (mp_ID q) (mp_ID p)) (mp_ID p)).
  { intros r Hr. by apply String.eqb_eq. }
  assert (Hex : exists_where (λ r, String.eqb (mp_ID r) (mp_ID p) && negb (tcheck MemoryPools (reserve now p r)))
    (memory_pools d) = false).
  { apply not_true_iff_false. intros (k & r & _ & Hr)%exists_where_spec. by rewrite andb_false_r in Hr. }
  pose proof (keyed_point MemoryPools _ _ d Hpt (wf_pools d Hwf)) as Hpoint. cbn [tget MemoryPools] in Hpoint.
  pose proof (wf_pools d Hwf _ _ Hrow) as Hkey. cbn in Hkey.
  assert (Hu : update_where (λ q, String.eqb (mp_ID q) (mp_ID p)) (reserve now p) (memory_pools d) =
    <[mp_ID p := reserve now p row]> (memory_pools d) ∧
    affected (λ q, String.eqb (mp_ID q) (mp_ID p)) (memory_pools d) = 1).
  { rewrite (update_where_point _ _ _ _ Hpoint), (affected_point _ _ _ Hpoint), Hrow.
    by rewrite Hkey, String.eqb_refl. }
  destruct Hu as [Hu Ha], HQ3. apply wp_env; [done..| |]; cbn [tget tset MemoryPools] in *;
    by rewrite Hex, ?Ha, Hu.
Qed.

Lemma BeginMemoryPoolResize_wp now p op row d :
  wf d → memory_pools d !! mp_ID p = Some row →
  wp (BeginMemoryPoolResize now p op) (λ o d', (d' = d ∧ o ≠ Ok tt) ∨
    (memory_pool_resizes d !! mp_ID p = None ∧
     (∀ k r, memory_pool_resizes d !! k = Some r → rz_request_id r ≠ RequestID op) ∧
     d' = set_memory_pools (<[mp_ID p := reserve now p row]> (memory_pools d))
            (set_memory_pool_resizes (<[mp_ID p := resize_row_of p op]> (memory_pool_resizes d)) d))) d.
Proof.
  intros Hwf Hrow. unfold BeginMemoryPoolResize. apply wp_tx; [by left..|].
  apply wp_bind, wp_INSERT_fresh; [by left|done|by left|]. intros Hn Hv. split; [|done].
  assert (Hwf1 : wf (insert_row MemoryPoolResizes (resize_row_of p op) d)).
  { enough (Hw : within wf_le (INSERT MemoryPoolResizes (resize_row_of p op))).
    { specialize (Hw d [] Hwf). unfold INSERT, env in Hw. unfold resize_row_of in Hw.
      rewrite Hv in Hw. cbn [tget MemoryPoolResizes] in *. rewrite Hn in Hw. exact Hw. }
    apply within_INSERT; [apply _|]. intros d0 Hv0 Hn0. solve_wf. }
  apply wp_bind, (reserve_wp _ _ row); [exact Hwf1|exact Hrow|by left|done|].
  split; [|done]. apply wp_ret.
  assert (Hc : ∀ k r, memory_pool_resizes d !! k = Some r → rz_request_id r ≠ RequestID op).
  { intros k r Hk Heq. apply violates_clash in Hv. apply not_true_iff_false in Hv. apply Hv.
    apply exists_where_spec. exists k, r. split; [done|]. cbn. rewrite Heq. apply String.eqb_refl. }
  split; right; done.
Qed.

Lemma FinishMemoryPoolResize_wp now p op row d :
  wf d → memory_pools d !! mp_ID p = Some row →
  memory_pool_resizes d !! mp_ID p = Some (resize_row_of p op) →
  wp (FinishMemoryPoolResize now p (RequestID op)) (λ o d', (d' = d ∧ o ≠ Ok tt) ∨
     d' = set_memory_pools (<[mp_ID p := reserve now p row]> (memory_pools d))
            (set_memory_pool_resizes (delete (mp_ID p) (memory_pool_resizes d)) d)) d.
Proof.
  intros Hwf Hrow Hop. unfold FinishMemoryPoolResize. apply wp_tx; [by left..|].
  set (P := λ r, String.eqb (rz_pool_id r) (mp_ID p) && String.eqb (rz_request_id r) (RequestID op)).
  assert (Hpt : points_at MemoryPoolResizes P (mp_ID p)).
  { intros r [Hr _]%andb_prop. by apply String.eqb_eq. }
  assert (Hd : delete_where P (memory_pool_resizes d) = delete (mp_ID p) (memory_pool_resizes d)).
  { destruct (point_delete MemoryPoolResizes P _ d Hpt (wf_resizes d Hwf)) as [(_ & r & _ & _ & H)|[Ha _]];
      [exact H|]. exfalso.
    rewrite (affected_point _ _ _ (keyed_point MemoryPoolResizes _ _ d Hpt (wf_resizes d Hwf))) in Ha.
    cbn [tget MemoryPoolResizes] in Ha. rewrite Hop in Ha. unfold P, resize_row_of in Ha. cbn in Ha. by rewrite !String.eqb_refl in Ha. }
  apply wp_bind, wp_env; [by left|done| |done]. cbn [tget tset MemoryPoolResizes fst snd of_result].
  rewrite Hd. set (d1 := set_memory_pool_resizes _ d).
  assert (Hwf1 : wf d1).
  { enough (Hw : within wf_le (DELETE MemoryPoolResizes P)).
    { specialize (Hw d [] Hwf). cbn in Hw. rewrite Hd in Hw. exact Hw. }
    apply within_DELETE; [apply _|]. intros d0. solve_wf. }
  apply wp_bind, (reserve_wp _ _ row); [exact Hwf1|exact Hrow|by left|done|].
  split; [|done]. apply wp_ret. split; by right.
Qed.

Lemma DeleteMemoryPool_wp id d :
  wf d → wp (DeleteMemoryPool id) (λ o d', (d' = d ∧ o ≠ Ok tt) ∨
    d' = set_memory_pools (delete id (memory_pools d)) d) d.
Proof.
  intros Hwf. unfold DeleteMemoryPool.
  assert (Hd : delete_where (λ p, String.eqb (mp_ID p) id) (memory_pools d) = delete id (memory_pools d)).
  { apply map_eq. intros k. apply option_eq. intros r. rewrite lookup_delete_where, lookup_delete_Some. split.
    - intros [Hk Hn%String.eqb_neq]. pose proof (wf_pools d Hwf k r Hk) as Hkey. cbn in Hkey. split; [congruence|done].
    - intros [Hne Hk]. pose proof (wf_pools d Hwf k r Hk) as Hkey. cbn in Hkey. split; [done|].
      apply String.eqb_neq. congruence. }
  apply wp_bind, wp_env; cbn [tget tset MemoryPools fst snd of_result]; rewrite ?Hd; [by left|by left| |by right].
  apply wp_ret. by right.
Qed.

(** ** Instances *)

Lemma GetInstance_reads name d :
  reads (GetInstance name) (λ i, ∃ k r, instances d !! k = Some r ∧ row_Name r = name ∧
    scanInstance (in_cols r) = inl i) d.
Proof.
  unfold GetInstance. eapply reads_bind; [apply reads_query|].
  intros r (k & Hk & Hn%String.eqb_eq)%select_row_Some.
  eapply reads_mono; [apply reads_lift|]. intros i Hi. by exists k, r.
Qed.

Lemma UpdateInstance_wp now inst k r d :
  wf d → instances d !! k = Some r → row_Name r = Name inst →
  wp (UpdateInstance now inst) (λ o d', (d' = d ∧ o ≠ Ok tt) ∨
    (d' = set_instances (<[k := updated_row now inst r]> (instances d)) d ∧ ∀ e, o ≠ Err e)) d.
Proof.
  intros Hwf Hk Hn. destruct (normalize_fields inst) as (_ & HName & _).
  pose proof (named_point d k r Hwf Hk) as Hpoint. rewrite Hn in Hpoint.
  unfold UpdateInstance, UPDATE_instances. rewrite HName.
  apply wp_bind, wp_env; [by left|by left|..]; cbn [tget tset Instances];
    destruct (exists_where _ (instances d)); cbn [fst snd of_result]; try by left.
  all: rewrite (update_where_point _ _ _ k Hpoint), Hk; unfold named; rewrite Hn, String.eqb_refl.
  - apply wp_ret. by right.
  - by right.
Qed.
