(* ===== verification/HostCapacity.v ===== *)
(** * The host's memory budget

    What the capacity checks read, and what they compute of it: the reservation of the
    fixed machines that are active and of every pool. *)
From S2P Require Import Prelude GoStrings Timestamps Paths Model Sql StoreDB StoreRequests.
From S2P Require Import StoreInstances StoreCleanup StoreMigration StorePools StoreTrace InstanceSpec.
From S2P Require Import PoolHost Provision PoolStore.

#[local] Open Scope Z_scope.

(** ** Calls that only read *)

Lemma within_on_db {A} (m : M DB A) : within eq m → within eq (on_db m).
Proof.
  intros Hm w. apply wp_on_db. eapply wp_mono; [apply Hm|]. intros o d <-. by destruct w.
Qed.

Ltac solve_reads := repeat first [within_step | apply within_on_db | within_sql | case_match].

Lemma within_GetInstance name : within eq (GetInstance name).
Proof. unfold GetInstance. solve_reads. Qed.

Lemma migrationFence_within name : within eq (migrationFence name).
Proof.
  unfold migrationFence, CheckCleanupFence, GetImportReceipt, GetMigration.
  pose proof within_GetInstance. solve_reads; auto.
Qed.

Lemma reads_within {S A} (R : relation S) `{!PreOrder R} (m : M S A) (P : A → Prop) s :
  reads m P s → wp m (λ _ s', R s s') s.
Proof. intros Hm. eapply wp_mono; [exact Hm|]. by intros o s' [-> _]. Qed.

(** ** The budget *)

(** Pools that exist, and fixed machines whose memory is in use or promised. *)
Definition pools_total (d : DB) : Z :=
  total (λ kp, mp_ReservedBytes kp.2) (map_to_list (memory_pools d)).

Section capacity.
Context (cfg_MemoryMiB : Z).

Definition live_rows (d : DB) : gmap string instance_row :=
  rows_where (λ r, negb (String.eqb (row_State r) StateDeleted)) (instances d).

Definition row_reservation (w : Control) (excludeName : string) (r : instance_row) : Z :=
  match scanInstance (in_cols r) with
  | inl i => if EqualFold (Name i) excludeName then 0 else fixed_reservation cfg_MemoryMiB w i
  | inr _ => 0
  end.

Definition fixed_total (w : Control) (excludeName : string) : Z :=
  total (λ kr, row_reservation w excludeName kr.2) (map_to_list (live_rows (pv_db w))).

(** What the host has promised. *)
Definition committed (w : Control) (excludeName : string) : Z :=
  fixed_total w excludeName + pools_total (pv_db w).

Definition budget (w : Control) : Z := Z.max (pv_memory w - hostMemoryReserveMiB * MiB) 0.

Lemma total_scanned {A B} (scan : A → result B) (f : B → Z) l bs :
  scan_all scan l = inl bs →
  total f bs = total (λ a, match scan a with inl b => f b | inr _ => 0 end) l.
Proof.
  intros H%scan_all_spec. induction H as [|a b l bs Hab _ IH]; [done|].
  by rewrite !total_cons, Hab, IH.
Qed.

Lemma total_filter {A} (p : A → bool) (f : A → Z) l :
  total f (filter (λ a, p a = false) l) = total (λ a, if p a then 0 else f a) l.
Proof.
  induction l as [|a l IH]; [done|]. rewrite filter_cons, total_cons, <- IH.
  destruct (p a); [by rewrite decide_False|]. by rewrite decide_True, total_cons.
Qed.

Lemma ListInstances_total d :
  reads (ListInstances false) (λ l, ∀ w excludeName, pv_db w = d →
    total (λ i, if EqualFold (Name i) excludeName then 0 else fixed_reservation cfg_MemoryMiB w i) l =
    fixed_total w excludeName) d.
Proof.
  unfold ListInstances. eapply reads_bind; [apply reads_query|]. intros rows [= <-].
  eapply reads_mono; [apply reads_lift|]. intros l Hl w ex <-.
  rewrite (total_scanned _ _ _ _ Hl). etransitivity; [apply total_perm, merge_sort_Permutation|].
  rewrite total_map. done.
Qed.

Lemma ListMemoryPools_total d :
  reads ListMemoryPools (λ l, total mp_ReservedBytes l = pools_total d) d.
Proof.
  unfold ListMemoryPools. eapply reads_bind; [apply reads_query|]. intros rows [= <-].
  eapply reads_mono; [apply reads_lift|]. intros l Hl.
  assert (Hs : Forall2 (λ r p, mp_ReservedBytes p = mp_ReservedBytes r)
    (merge_sort (created_le mp_CreatedAt) (map snd (map_to_list (rows_where (λ _, true) (memory_pools d))))) l).
  { eapply Forall2_impl; [exact (scan_all_spec _ _ _ Hl)|]. intros r p (_ & _ & E)%scan_pool. exact E. }
  assert (Ht : total mp_ReservedBytes l = total mp_ReservedBytes
    (merge_sort (created_le mp_CreatedAt) (map snd (map_to_list (rows_where (λ _, true) (memory_pools d)))))).
  { clear Hl. induction Hs as [|? ? ? ? E _ IH]; [done|].
    by rewrite !total_cons, E, IH. }
  rewrite Ht. etransitivity; [apply total_perm, merge_sort_Permutation|]. rewrite total_map.
  unfold rows_where, pools_total. rewrite map_filter_id; done.
Qed.

(** The sum the check computes is the sum, modulo 2^64. *)
Lemma totalReserved_reads excludeName w :
  reads (totalReservedHostMemoryBytes cfg_MemoryMiB excludeName)
    (λ n, n = int64 (committed w excludeName)) w.
Proof.
  unfold totalReservedHostMemoryBytes.
  eapply reads_bind; [apply reads_on_db, ListInstances_total|]. intros l Hl.
  eapply reads_bind; [apply reads_query|]. intros fixed [= <-].
  eapply reads_bind; [apply reads_on_db, ListMemoryPools_total|]. intros ps Hps.
  apply reads_ret. rewrite !sum_int64_total, int64_add_l, int64_add_r, total_filter, Hl by done.
  by rewrite Hps.
Qed.

Lemma ensureReservation_reads excludeName n w :
  reads (ensureHostMemoryReservationCapacity cfg_MemoryMiB excludeName n)
    (λ _, int64 (committed w excludeName + n) <= budget w) w.
Proof.
  unfold ensureHostMemoryReservationCapacity.
  eapply reads_bind; [apply reads_query|]. intros total [= <-].
  eapply reads_bind; [apply totalReserved_reads|]. intros r ->.
  eapply reads_mono; [apply reads_require|]. intros _ H%negb_true_iff%Z.ltb_ge.
  rewrite int64_add_l in H. exact H.
Qed.

(** ** Members *)

Lemma check_members_reads pool l w :
  reads (check_members cfg_MemoryMiB pool l) (λ _, ∀ i, i ∈ l → MemoryPoolID i = mp_ID pool →
    settled_member i = true ∧
    int64 (effectiveMemoryMiB cfg_MemoryMiB i * MiB) <= mp_ReservedBytes pool) w.
Proof.
  induction l as [|i l IH]; cbn [check_members].
  { apply reads_ret. by intros i ?%not_elem_of_nil. }
  destruct (String.eqb_spec (MemoryPoolID i) (mp_ID pool)) as [He|Hne]; cbn [negb].
  2: { eapply reads_mono; [exact IH|]. intros ? H j [Hj|Hj]%elem_of_cons Hp; [congruence|by apply H]. }
  eapply reads_bind; [apply reads_require|]. intros ? Hs.
  eapply reads_bind; [by apply reads_any, migrationFence_within|]. intros ? _.
  eapply reads_bind; [apply reads_lift|]. intros [] Hfit.
  eapply reads_bind; [exact IH|]. intros b H. apply reads_ret.
  intros j [Hj|Hj]%elem_of_cons Hp; [subst j|by apply H]. split; [done|].
  unfold ensureMemoryPoolSupportsGuestMemory in Hfit.
  destruct (Z.ltb_spec (mp_ReservedBytes pool) (int64 (effectiveMemoryMiB cfg_MemoryMiB i * MiB))); [done|lia].
Qed.
End capacity.
