(* ===== verification/PoolInv.v ===== *)
(** * The invariant of the memory pools

    The reservation the store records for a pool covers the limit the runner enforces,
    at every moment: growth is reserved before the runner is asked, a shrink is
    released after the runner answered. *)
From S2P Require Import Prelude GoStrings Paths Timestamps Model Sql StoreDB StoreRequests StoreInstances.
From S2P Require Import StoreCleanup StoreMigration StorePools StoreTrace InstanceSpec PoolHost.
From S2P Require Import PoolRunner Provision PoolStore.

#[local] Open Scope Z_scope.

(** ** The invariant *)

Definition the_pools (w : Control) : gmap string (MemoryPoolOf string) := memory_pools (pv_db w).
Definition the_resizes (w : Control) : gmap string resize_row := memory_pool_resizes (pv_db w).

(** The request of a pending resize. *)
Definition request_of (r : resize_row) (p : MemoryPoolOf string) : ResizeMemoryPoolRequest :=
  mkResizeRequest (rz_request_id r) (mp_Name p) (rz_size_bytes r) (rz_running r).

Definition expected (q : ResizeMemoryPoolRequest) (w : Control) : Prop :=
  ∃ id p r, the_pools w !! id = Some p ∧ the_resizes w !! id = Some r ∧ q = request_of r p.

(** An incarnation whose start is in flight holds its pool. *)
Definition holds_pool (s : pooled_start) (d : DB) : Prop :=
  ∃ r, instances d !! ps_ID s = Some r ∧ row_State r ≠ StateDeleted ∧
    NormalizedMemoryMode (in_cols r) = MemoryModePool ∧
    MemoryPoolID (in_cols r) = mp_ID (ps_Pool s) ∧
    row_State r ≠ StateReady ∧ (row_State r = StateStopped → FirecrackerPID (in_cols r) ≠ 0).

Record pending_ok (w : Control) (id : string) (r : resize_row) (p : MemoryPoolOf string) : Prop := {
  pk_id : nonempty (rz_request_id r) = true;
  pk_positive : 0 < rz_size_bytes r;
  pk_size : rz_size_bytes r <= mp_ReservedBytes p;
  pk_starts : ∀ s, s ∈ pv_starts w → mp_ID (ps_Pool s) ≠ id;
  pk_receipt : truthful_receipt (request_of r p) (pv_runner w);
}.

Record pool_inv (w : Control) : Prop := {
  pi_wf : wf (pv_db w);
  pi_names : ∀ id p, the_pools w !! id = Some p → validName (mp_Name p) = true;
  pi_limit : ∀ n g L, pools (pv_runner w) !! n = Some g → pc_max g = Some L →
    ∃ id p, the_pools w !! id = Some p ∧ mp_Name p = n ∧ L <= mp_ReservedBytes p;
  pi_pending : ∀ id r, the_resizes w !! id = Some r →
    ∃ p, the_pools w !! id = Some p ∧ pending_ok w id r p;
  pi_sent : ∀ q, q ∈ pv_sent w → finished q (pv_runner w) ∨ expected q w;
  pi_receipts : ∀ i f, resize_receipts (pv_runner w) !! i = Some f →
    ∃ r, f = Some r ∧ rs_Request r ∈ pv_sent w ∧ pr_RequestID (rs_Request r) = i;
  pi_unique : ∀ q q', q ∈ pv_sent w → q' ∈ pv_sent w → pr_RequestID q = pr_RequestID q' → q = q';
  pi_starts : ∀ s, s ∈ pv_starts w → holds_pool s (pv_db w) ∧ pool_row (pv_db w) (ps_Pool s);
}.

(** *** Uniqueness *)

Lemma pool_key w id p : wf (pv_db w) → the_pools w !! id = Some p → mp_ID p = id.
Proof. intros Hwf Hp. exact (wf_pools _ Hwf id p Hp). Qed.

Lemma pool_names_unique w id id' p p' :
  wf (pv_db w) → the_pools w !! id = Some p → the_pools w !! id' = Some p' →
  mp_Name p = mp_Name p' → id = id'.
Proof.
  intros Hwf Hp Hp' Hn. apply (wf_pools_unique _ Hwf id id' p p' Hp Hp'). by apply String.eqb_eq.
Qed.

Lemma request_ids_unique w id id' r r' :
  wf (pv_db w) → the_resizes w !! id = Some r → the_resizes w !! id' = Some r' →
  rz_request_id r = rz_request_id r' → id = id'.
Proof.
  intros Hwf Hr Hr' Hn. apply (wf_resizes_unique _ Hwf id id' r r' Hr Hr'). by apply String.eqb_eq.
Qed.

(** ** What the runner does to it *)

(** Only the runner changed, as some of its calls may. *)
Lemma inv_runner w h' :
  pool_inv w →
  (∀ n g' L, pools h' !! n = Some g' → pc_max g' = Some L →
     (∃ id p, the_pools w !! id = Some p ∧ mp_Name p = n ∧ L <= mp_ReservedBytes p)) →
  (∀ q, q ∈ pv_sent w → finished q (pv_runner w) → finished q h') →
  (∀ i f, resize_receipts h' !! i = Some f →
     ∃ r, f = Some r ∧ rs_Request r ∈ pv_sent w ∧ pr_RequestID (rs_Request r) = i) →
  (∀ id r p, the_resizes w !! id = Some r → the_pools w !! id = Some p →
     truthful_receipt (request_of r p) h') →
  pool_inv (set_runner h' w).
Proof.
  intros [Hwf Hn Hl Hp Hs Hrc Hu Hst] Hl' Hf' Hrc' Ht'. split; auto.
  - intros id r Hr. destruct (Hp id r Hr) as (p & Hpool & [K1 Kp K2 K3 _]). exists p. split; [done|].
    split; auto. by apply (Ht' id).
  - intros q Hq. destruct (Hs q Hq) as [Hf|He]; [left|right; exact He]. by apply Hf'.
Qed.

Lemma inv_resizing w q h' :
  pool_inv w → q ∈ pv_sent w → truthful_receipt q (pv_runner w) →
  resizing q (pv_runner w) h' → pool_inv (set_runner h' w).
Proof.
  intros Hw Hq Ht Hz. pose proof Hw as [Hwf Hn Hl Hp Hs Hrc Hu Hst].
  assert (Hfin : ∀ q', q' ∈ pv_sent w → finished q' (pv_runner w) → finished q' h').
  { intros q' Hq' Hf. destruct (decide (pr_RequestID q' = pr_RequestID q)) as [He|He].
    - assert (q' = q) as -> by by apply Hu. destruct (rz_finished _ _ _ Hz Hf) as [_ E].
      destruct Hf as [e Hf]. exists e. by rewrite E.
    - destruct Hf as [e Hf]. exists e. unfold receipt_of in *. by rewrite (rz_receipts _ _ _ Hz) by done. }
  apply inv_runner; [done| |done| |].
  - intros n g' L Hg' HL. destruct (decide (n = pr_Name q)) as [->|Hne].
    2: { rewrite (rz_pools _ _ _ Hz) in Hg' by done. by apply (Hl n g'). }
    destruct (rz_pool _ _ _ Hz g' Hg') as (g & Hg & [E|E]); [apply (Hl _ g); congruence|].
    rewrite HL in E. injection E as ->. destruct (Hs q Hq) as [Hf|(id & p & r & Hpool & Hr & Heq)].
    + destruct (rz_finished _ _ _ Hz Hf) as [EP _]. apply (Hl _ g'); [|done]. by rewrite <- EP.
    + destruct (Hp id r Hr) as (p' & Hp' & [_ _ Hsize _ _]). exists id, p. rewrite Heq. cbn.
      split_and!; [done|done|]. congruence.
  - intros i f Hf. destruct (decide (i = pr_RequestID q)) as [->|Hne].
    + destruct (rz_receipt _ _ _ Hz f Hf) as (r & -> & Hr & _). exists r. by rewrite Hr.
    + rewrite (rz_receipts _ _ _ Hz) in Hf by done. by apply Hrc.
  - intros id r p Hr Hpool. destruct (decide (request_of r p = q)) as [->|Hne]; [apply Hz|].
    destruct (Hp id r Hr) as (p' & Hp' & K). assert (p' = p) as -> by congruence.
    assert (Hid : rz_request_id r ≠ pr_RequestID q).
    { intros Heq. destruct (Hs q Hq) as [[e Hf]|(id2 & p2 & r2 & Hp2 & Hr2 & ->)].
      - apply Hne. destruct K as [_ _ _ _ Kt]. unfold truthful_receipt, receipt_of in Kt. cbn in Kt.
        rewrite Heq in Kt. destruct (Kt _ Hf) as (r' & [= <-] & Hr' & _). by rewrite <- Hr'.
      - apply Hne. cbn in Heq. assert (id = id2) as <- by by eapply request_ids_unique. congruence. }
    intros f Hf. unfold receipt_of in Hf. cbn in Hf. rewrite (rz_receipts _ _ _ Hz) in Hf by done.
    destruct K as [_ _ _ _ Kt]. destruct (Kt f Hf) as (r' & -> & Hr' & Hlim). exists r'. split_and!; [done..|].
    intros Hd He. specialize (Hlim Hd He). intros g L Hg HL. cbn in Hg.
    destruct (decide (mp_Name p = pr_Name q)) as [Hn'|Hn'].
    2: { rewrite (rz_pools _ _ _ Hz) in Hg by done. by apply (Hlim g). }
    destruct (Hs q Hq) as [Hfq|(id2 & p2 & r2 & Hp2 & Hr2 & ->)].
    + destruct (rz_finished _ _ _ Hz Hfq) as [EP _]. rewrite EP in Hg. by apply (Hlim g).
    + cbn in Hn'. assert (id = id2) as <- by by eapply pool_names_unique. congruence.
Qed.

(** A request that was sent is delivered, for the first time or again. *)
Lemma deliver_post uuid_Parse q w :
  pool_inv w → q ∈ pv_sent w →
  wp (on_runner (handleResizeMemoryPool uuid_Parse q)) (post (λ w', pool_inv w' ∧
      pv_db w' = pv_db w ∧ pv_sent w' = pv_sent w ∧ pv_starts w' = pv_starts w)
    (λ r w', finished q (pv_runner w') ∧ rs_Request r = q ∧ rs_Done r = true ∧
      (expected q w → rs_Error r = "" → limited q (pv_runner w')))) w.
Proof.
  intros Hw Hq. apply wp_on_runner.
  destruct (pi_sent _ Hw q Hq) as [Hf|(id & p & r & Hp & Hr & ->)].
  - eapply wp_mono; [by apply handleResize_finished|]. intros o h' [-> Ho].
    assert (Heq : set_runner (pv_runner w) w = w) by by destruct w. rewrite Heq.
    split; [done|]. intros r Hr. destruct o as [r'|e|]; [|done..]. injection Hr as ->.
    destruct (Ho r eq_refl) as (Hrc & Hrq & Hd). split_and!; [done|done|done|].
    intros (id & p & r' & Hp & Hr' & ->) He. destruct (pi_pending _ Hw id r' Hr') as (p' & Hp' & [_ _ _ _ Kt]).
    assert (p' = p) as -> by congruence. destruct (Kt _ Hrc) as (r2 & [= <-] & _ & Hlim). by apply Hlim.
  - destruct (pi_pending _ Hw id r Hr) as (p' & Hp' & [_ _ _ _ Kt]).
    assert (p' = p) as -> by congruence.
    eapply wp_mono; [apply handleResize_post; [exact Kt|by eapply pi_names]|].
    intros o h' [Hz Ho]. split; [split_and!; [by eapply inv_resizing|done..]|].
    intros res Hres. destruct o as [r'|e|]; [|done..]. injection Hres as ->.
    destruct (Ho res eq_refl) as (Hrq & Hd & Hrc). split_and!; [|done|done|].
    + exists (rs_Error res). etransitivity; [exact Hrc|]. destruct res as [? ? ?]. cbn in *. by subst.
    + intros _ He. destruct (rz_receipt _ _ _ Hz _ Hrc) as (r2 & [= <-] & _ & Hlim). by apply Hlim.
Qed.

(** ** Every pool command keeps the invariant

    Under every failure, every crash of the control plane and of the runner, and with
    every answer lost. *)

(** ** Changes of the database *)

Lemma inv_create w p now :
  pool_inv w → wf (set_memory_pools (<[mp_ID p := pool_columns now p]> (the_pools w)) (pv_db w)) →
  validName (mp_Name p) = true → the_pools w !! mp_ID p = None →
  pool_inv (set_db (set_memory_pools (<[mp_ID p := pool_columns now p]> (the_pools w)) (pv_db w)) w).
Proof.
  intros [Hwf Hn Hl Hp Hs Hrc Hu Hst] Hwf' Hname Hnew. set (d' := set_memory_pools _ _).
  assert (Hkeep : ∀ id q, the_pools w !! id = Some q → the_pools (set_db d' w) !! id = Some q).
  { intros id q Hq. unfold the_pools. cbn. rewrite lookup_insert_ne; [done|]. intros <-. congruence. }
  split; try done.
  - intros id q Hq. unfold the_pools in Hq. cbn in Hq. destruct (decide (mp_ID p = id)) as [<-|Hne].
    + rewrite lookup_insert_eq in Hq. by injection Hq as <-.
    + rewrite lookup_insert_ne in Hq by done. by eapply Hn.
  - intros n g L Hg HL. destruct (Hl n g L Hg HL) as (id & q & Hq & ? & ?). exists id, q. auto.
  - intros id r Hr. destruct (Hp id r Hr) as (q & Hq & [? ? ? ? ?]). exists q. split; [by apply Hkeep|done].
  - intros q Hq. destruct (Hs q Hq) as [?|(id & q' & r & Hq' & Hr & ->)]; [by left|right].
    exists id, q', r. auto.
  - intros s Hs'. destruct (Hst s Hs') as [Hh (row & Hrow & ?)]. split; [exact Hh|]. exists row.
    split; [by apply Hkeep|done].
Qed.

(** The row of one pool is rewritten to the reservation of [p], and its pending
    resize to [op]. *)
Definition rewritten now p row (rs : gmap string resize_row) (d : DB) : DB :=
  set_memory_pools (<[mp_ID p := reserve now p row]> (memory_pools d)) (set_memory_pool_resizes rs d).

Lemma lookup_reserved now p row (m : gmap string (MemoryPoolOf string)) id q :
  <[mp_ID p := reserve now p row]> m !! id = Some q →
  (id = mp_ID p ∧ q = reserve now p row) ∨ (id ≠ mp_ID p ∧ m !! id = Some q).
Proof.
  destruct (decide (id = mp_ID p)) as [->|Hne]; [rewrite lookup_insert_eq|rewrite lookup_insert_ne by done];
    intros Hq; [left|right; done]. by injection Hq.
Qed.

Lemma inv_begin w p row op now :
  pool_inv w → wf (rewritten now p row (<[mp_ID p := resize_row_of p op]> (the_resizes w)) (pv_db w)) →
  the_pools w !! mp_ID p = Some row → mp_Name row = mp_Name p →
  mp_ReservedBytes row <= mp_ReservedBytes p → SizeBytes op <= mp_ReservedBytes p →
  0 < SizeBytes op → the_resizes w !! mp_ID p = None → nonempty (RequestID op) = true →
  (∀ q, q ∈ pv_sent w → pr_RequestID q ≠ RequestID op) →
  (∀ s, s ∈ pv_starts w → mp_ID (ps_Pool s) ≠ mp_ID p) →
  pool_inv (set_db (rewritten now p row (<[mp_ID p := resize_row_of p op]> (the_resizes w)) (pv_db w)) w).
Proof.
  intros [Hwf Hn Hl Hp Hs Hrc Hu Hst] Hwf' Hrow Hname Hgrow Hsize Hpos Hnone Hne Hfresh Hnostart.
  set (d' := rewritten _ _ _ _ _). set (w' := set_db d' w).
  assert (Hkeep : ∀ id q, id ≠ mp_ID p → the_pools w !! id = Some q → the_pools w' !! id = Some q).
  { intros id q Hid Hq. unfold the_pools, w'. cbn. by rewrite lookup_insert_ne. }
  assert (Hself : the_pools w' !! mp_ID p = Some (reserve now p row)).
  { unfold the_pools, w'. cbn. apply lookup_insert_eq. }
  split; try done.
  - intros id q [[-> ->]|[_ Hq]]%lookup_reserved; [|by eapply Hn]. by eapply (Hn (mp_ID p) row).
  - intros n g L Hg HL. destruct (Hl n g L Hg HL) as (id & q & Hq & Hqn & HqL).
    destruct (decide (id = mp_ID p)) as [->|Hid]; [|exists id, q; auto].
    assert (q = row) as -> by congruence. exists (mp_ID p), (reserve now p row).
    split_and!; [done|done|]. cbn. lia.
  - intros id r Hr. unfold the_resizes, w' in Hr. cbn in Hr.
    destruct (decide (mp_ID p = id)) as [<-|Hid].
    + rewrite lookup_insert_eq in Hr. injection Hr as <-. exists (reserve now p row). split; [done|].
      split; [done|done|done|done|]. intros f Hf. exfalso. unfold receipt_of in Hf. cbn in Hf.
      destruct (Hrc _ f Hf) as (r & _ & Hr & Hid). by apply (Hfresh _ Hr).
    + rewrite lookup_insert_ne in Hr by done. destruct (Hp id r Hr) as (q & Hq & [? ? ? ?]).
      exists q. split; [by apply Hkeep|done].
  - intros q Hq. destruct (Hs q Hq) as [?|(id & q' & r & Hq' & Hr & ->)]; [by left|right].
    assert (Hid : id ≠ mp_ID p) by (intros ->; congruence). exists id, q', r. split_and!; [by apply Hkeep| |done].
    unfold the_resizes, w'. cbn. by rewrite lookup_insert_ne.
  - intros s Hs'. destruct (Hst s Hs') as [Hh (row' & Hrow' & ?)]. split; [exact Hh|].
    exists row'. split; [apply Hkeep; [by apply Hnostart|done]|done].
Qed.

Lemma inv_finish w p row op now :
  pool_inv w → wf (rewritten now p row (delete (mp_ID p) (the_resizes w)) (pv_db w)) →
  the_pools w !! mp_ID p = Some row → mp_Name row = mp_Name p →
  the_resizes w !! mp_ID p = Some (resize_row_of p op) →
  finished (request_of (resize_row_of p op) row) (pv_runner w) →
  mp_ReservedBytes row <= mp_ReservedBytes p ∨
    (SizeBytes op <= mp_ReservedBytes p ∧ limited (request_of (resize_row_of p op) row) (pv_runner w)) →
  pool_inv (set_db (rewritten now p row (delete (mp_ID p) (the_resizes w)) (pv_db w)) w).
Proof.
  intros [Hwf Hn Hl Hp Hs Hrc Hu Hst] Hwf' Hrow Hname Hop Hfin Hsize.
  set (d' := rewritten _ _ _ _ _). set (w' := set_db d' w).
  assert (Hkeep : ∀ id q, id ≠ mp_ID p → the_pools w !! id = Some q → the_pools w' !! id = Some q).
  { intros id q Hid Hq. unfold the_pools, w'. cbn. by rewrite lookup_insert_ne. }
  assert (Hself : the_pools w' !! mp_ID p = Some (reserve now p row)).
  { unfold the_pools, w'. cbn. apply lookup_insert_eq. }
  split; try done.
  - intros id q [[-> ->]|[_ Hq]]%lookup_reserved; [|by eapply Hn]. by eapply (Hn (mp_ID p) row).
  - intros n g L Hg HL. destruct (Hl n g L Hg HL) as (id & q & Hq & Hqn & HqL).
    destruct (decide (id = mp_ID p)) as [->|Hid]; [|exists id, q; auto].
    assert (q = row) as -> by congruence. exists (mp_ID p), (reserve now p row).
    split_and!; [done|done|]. cbn. destruct Hsize as [?|[Hs' Hlim]]; [lia|].
    unfold limited in Hlim. cbn in Hlim. specialize (Hlim g L). rewrite Hqn in Hlim. specialize (Hlim Hg HL). lia.
  - intros id r Hr. unfold the_resizes, w' in Hr. cbn in Hr. apply lookup_delete_Some in Hr as [Hid Hr].
    destruct (Hp id r Hr) as (q & Hq & [? ? ? ? ?]). exists q. split; [by apply Hkeep|done].
  - intros q Hq. destruct (Hs q Hq) as [?|(id & q' & r & Hq' & Hr & ->)]; [by left|].
    destruct (decide (id = mp_ID p)) as [->|Hid].
    + left. assert (q' = row) as -> by congruence. assert (r = resize_row_of p op) as -> by congruence. done.
    + right. exists id, q', r. split_and!; [by apply Hkeep| |done].
      unfold the_resizes, w'. cbn. by rewrite lookup_delete_ne.
  - intros s Hs'. destruct (Hst s Hs') as [Hh (row' & Hrow' & Hrow'')]. split; [exact Hh|].
    assert (Hid : mp_ID (ps_Pool s) ≠ mp_ID p).
    { destruct (Hp _ _ Hop) as (q & _ & [_ _ _ K _]). by apply K. }
    exists row'. split; [by apply Hkeep|done].
Qed.

Lemma inv_delete w id p :
  pool_inv w → wf (set_memory_pools (delete id (the_pools w)) (pv_db w)) →
  the_pools w !! id = Some p → the_resizes w !! id = None →
  (∀ s, s ∈ pv_starts w → mp_ID (ps_Pool s) ≠ id) → pools (pv_runner w) !! mp_Name p = None →
  pool_inv (set_db (set_memory_pools (delete id (the_pools w)) (pv_db w)) w).
Proof.
  intros [Hwf Hn Hl Hp Hs Hrc Hu Hst] Hwf' Hpool Hnone Hnostart Hgone.
  set (w' := set_db _ w).
  assert (Hkeep : ∀ i q, i ≠ id → the_pools w !! i = Some q → the_pools w' !! i = Some q).
  { intros i q Hi Hq. unfold the_pools, w'. cbn. by rewrite lookup_delete_ne. }
  split; try done.
  - intros i q Hq. unfold the_pools, w' in Hq. cbn in Hq. apply lookup_delete_Some in Hq as [_ Hq].
    by eapply Hn.
  - intros n g L Hg HL. destruct (Hl n g L Hg HL) as (i & q & Hq & Hqn & HqL).
    change (pools (pv_runner w) !! n = Some g) in Hg.
    assert (Hi : i ≠ id) by (intros ->; assert (q = p) by congruence; congruence). exists i, q. auto.
  - intros i r Hr. change (the_resizes w !! i = Some r) in Hr. destruct (Hp i r Hr) as (q & Hq & [? ? ? ?]).
    assert (Hi : i ≠ id) by (intros ->; rewrite Hnone in Hr; done).
    exists q. split; [by apply Hkeep|done].
  - intros q Hq. destruct (Hs q Hq) as [?|(i & q' & r & Hq' & Hr & ->)]; [by left|right].
    assert (Hi : i ≠ id) by (intros ->; congruence). exists i, q', r. auto.
  - intros s Hs'. destruct (Hst s Hs') as [Hh (row & Hrow & ?)]. split; [exact Hh|].
    exists row. split; [apply Hkeep; [by apply Hnostart|done]|done].
Qed.

(** ** The client *)

Section ops.
Context (uuid_Parse : string → option string) (cfg_MemoryMiB : Z).

(** What a call of the runner leaves alone. *)
Definition runner_only (w w' : Control) : Prop :=
  pool_inv w' ∧ pv_db w' = pv_db w ∧ pv_starts w' = pv_starts w.

Lemma inv_sent w q : pool_inv w → expected q w → pool_inv (set_sent (q :: pv_sent w) w).
Proof.
  intros Hw He. pose proof Hw as [Hwf Hn Hl Hp Hs Hrc Hu Hst].
  assert (Hsame : ∀ q', q' ∈ pv_sent w → pr_RequestID q' = pr_RequestID q → q' = q).
  { intros q' Hq' Hid. destruct He as (id & p & r & Hpool & Hr & ->).
    destruct (Hs q' Hq') as [[e Hf]|(id2 & p2 & r2 & Hp2 & Hr2 & ->)].
    - destruct (Hp id r Hr) as (p' & Hp' & [_ _ _ _ Kt]). assert (p' = p) as -> by congruence.
      unfold truthful_receipt, receipt_of in *. rewrite <- Hid in Kt.
      by destruct (Kt _ Hf) as (r' & [= <-] & Hr' & _).
    - cbn in Hid. assert (id = id2) as <- by by eapply request_ids_unique. congruence. }
  split; try done.
  - intros id r Hr. destruct (Hp id r Hr) as (p & Hpool & [? ? ? ? ?]). exists p. split; [done|]. by split.
  - intros q' [->|Hq']%elem_of_cons; [by right|]. by destruct (Hs q' Hq') as [?|?]; [left|right].
  - intros i f Hf. destruct (Hrc i f Hf) as (r & -> & Hr & ?). exists r. split_and!; [done|by right|done].
  - intros q1 q2 [->|H1]%elem_of_cons [->|H2]%elem_of_cons Hid; auto. symmetry. by apply Hsame.
Qed.

Lemma client_Resize_post q w :
  pool_inv w → expected q w →
  wp (client_ResizeMemoryPool uuid_Parse q) (post (runner_only w) (λ o w',
    finished q (pv_runner w') ∧ (o = Resized → limited q (pv_runner w')))) w.
Proof.
  intros Hw He. unfold client_ResizeMemoryPool.
  assert (H0 : runner_only w w) by done.
  eapply post_bind; [by apply post_lift|]. intros _ ? _ [-> _].
  set (w1 := set_sent (q :: pv_sent w) w).
  assert (Hw1 : pool_inv w1) by by apply inv_sent.
  assert (He1 : expected q w1) by exact He.
  eapply (post_bind _ _ _ (λ _ w', w' = w1)).
  { intros fs. cbn. split; [by split|done]. }
  intros _ ? _ ->. assert (H1 : runner_only w w1) by done.
  eapply (post_bind _ _ _ (λ r w', finished q (pv_runner w') ∧
    (rs_Error r = "" → limited q (pv_runner w')))).
  { eapply post_mono; [apply deliver_post; [done|left]| |].
    - by intros w' (Hi & Hd & _ & Hs).
    - intros r w' _ (Hf & _ & _ & Hlim). auto. }
  intros r w2 H2 [Hf Hlim].
  eapply post_bind; [by apply post_query|]. intros _ ? _ [-> _].
  eapply post_bind; [by apply post_require|]. intros _ ? _ [-> _].
  apply post_ret; [done|]. split; [done|]. unfold nonempty.
  destruct (String.eqb_spec (rs_Error r) "") as [E|]; cbn; [|done]. auto.
Qed.

Lemma inv_deleted w n :
  pool_inv w → pool_inv (set_runner (set_pools (delete n (pools (pv_runner w))) (pv_runner w)) w).
Proof.
  intros Hw. pose proof Hw as [Hwf Hn Hl Hp Hs Hrc Hu Hst]. apply inv_runner; try done.
  - intros n' g L Hg HL. cbn in Hg. apply lookup_delete_Some in Hg as [_ Hg]. by apply (Hl n' g).
  - intros id r p Hr Hpool f Hf. destruct (Hp id r Hr) as (p' & Hp' & [_ _ _ _ Kt]).
    assert (p' = p) as -> by congruence. destruct (Kt f Hf) as (res & -> & ? & Hlim). exists res.
    split_and!; [done|done|]. intros Hd He g L Hg HL.
    cbn in Hg. apply lookup_delete_Some in Hg as [_ Hg]. by apply (Hlim Hd He g).
Qed.

(** A deletion delivered at any time. *)
Lemma deliver_delete n w :
  pool_inv w → validName n = true →
  wp (on_runner (handleDeleteMemoryPool n)) (post (runner_only w)
    (λ _ w', pools (pv_runner w') !! n = None)) w.
Proof.
  intros Hw Hname. apply wp_on_runner.
  assert (Hsame : set_runner (pv_runner w) w = w) by by destruct w.
  enough (Hp : wp (handleDeleteMemoryPool n) (post (λ h', runner_only w (set_runner h' w))
    (λ _ h', pools h' !! n = None)) (pv_runner w)).
  { eapply wp_mono; [exact Hp|]. intros o h' [HI HP]. split; [done|]. intros a Ha.
    destruct o; try done. by apply (HP a0). }
  unfold handleDeleteMemoryPool, deleteMemoryPoolCgroup. rewrite (directChild_name _ Hname).
  assert (H0 : runner_only w (set_runner (pv_runner w) w)) by by rewrite Hsame.
  eapply post_bind; [by apply post_lift|]. intros _ ? _ [-> _].
  eapply post_bind; [by apply post_query|]. intros _ ? _ [-> _].
  eapply post_bind; [by apply post_lift|]. intros ? ? _ [-> [= <-]].
  eapply (post_mono _ (λ h', runner_only w (set_runner h' w))); [apply post_env; [done|]|done|].
  - destruct (pools (pv_runner w) !! n) as [g|]; [case_bool_decide|]; [|exact H0..].
    split; [by apply inv_deleted|done].
  - intros [] h' _. destruct (pools (pv_runner w) !! n) as [g|] eqn:Hg; [case_bool_decide|];
      cbn; intros [Ho ->]; [apply lookup_delete_eq|done|done].
Qed.

(** ** The runner executes a start *)

Definition prepared (n : string) (size : Z) (h h' : PoolHost) : Prop :=
  resize_receipts h' = resize_receipts h ∧ (∀ m, m ≠ n → pools h' !! m = pools h !! m) ∧
  (∀ g' L, pools h' !! n = Some g' → pc_max g' = Some L →
     L = size ∨ ∃ g, pools h !! n = Some g ∧ pc_max g = Some L).

Lemma prepare_wp n size h :
  validName n = true →
  wp (prepareMemoryPoolCgroupParent n size) (λ _ h', prepared n size h h') h.
Proof.
  intros Hname. unfold prepareMemoryPoolCgroupParent, prepare_roots. rewrite (directChild_name _ Hname).
  assert (H0 : prepared n size h h) by (split_and!; eauto).
  apply wp_bind, wp_require; intros _; [|done]. apply wp_bind, wp_require; intros _; [|done].
  apply wp_bind. do 4 (apply wp_bind, wp_query; [done..|]; cbn [of_result]). apply wp_query; [done..|].
  cbn [of_result]. apply wp_bind, wp_lift. cbn [of_result].
  set (h1 := match pools h !! n with
             | Some _ => h
             | None => set_pools (<[n := mkPoolCgroup None 0 []]> (pools h)) h
             end).
  assert (H1 : prepared n size h h1).
  { unfold h1. destruct (pools h !! n) as [g|] eqn:Hg; [done|]. split_and!; [done| |].
    - intros m Hm. cbn. by rewrite lookup_insert_ne.
    - intros g' L Hg' HL. cbn in Hg'. rewrite lookup_insert_eq in Hg'. injection Hg' as <-. done. }
  apply wp_bind, wp_env; [done|done| |exact H1]. cbn [of_result fst snd].
  apply wp_bind, wp_query; [done..|]. cbn [of_result].
  apply wp_bind.
  assert (H2 : ∀ g, pools h1 !! n = Some g → prepared n size h
    (set_pools (<[n := mkPoolCgroup (Some size) (pc_current g) (pc_vms g)]> (pools h1)) h1)).
  { intros g Hg. destruct H1 as (E & O & _). split_and!; [done| |].
    - intros m Hm. cbn. rewrite lookup_insert_ne by done. by apply O.
    - intros g' L Hg' HL. cbn in Hg'. rewrite lookup_insert_eq in Hg'. injection Hg' as <-. left.
      cbn in HL. congruence. }
  assert (Hm : wp (write_max n size) (λ _ h', prepared n size h h') h1).
  { unfold write_max. apply wp_env; [done..| |]; (destruct (pools h1 !! n) as [g|] eqn:Hg; [|exact H1]);
      exact (H2 g eq_refl). }
  eapply wp_mono; [exact Hm|]. intros o h2 H3. destruct o; [by apply wp_query|exact H3..].
Qed.

Lemma runner_start_post s w :
  pool_inv w → s ∈ pv_starts w → wp (runner_start s) (λ _ w', pool_inv w') w.
Proof.
  intros Hw Hs. pose proof Hw as [Hwf Hn Hl Hp Hsent Hrc Hu Hst].
  destruct (Hst s Hs) as [_ (row & Hrow & Hname & Hres)]. unfold runner_start.
  apply wp_on_runner. eapply wp_mono.
  { apply prepare_wp. rewrite <- Hname. by eapply (Hn (mp_ID (ps_Pool s))). }
  intros _ h' (E & O & N). apply inv_runner; [done|..].
  - intros n g' L Hg' HL. destruct (decide (n = mp_Name (ps_Pool s))) as [->|Hne].
    + destruct (N g' L Hg' HL) as [->|(g & Hg & HL')]; [|by apply (Hl _ g)].
      exists (mp_ID (ps_Pool s)), row. split_and!; [done|done|lia].
    + rewrite O in Hg' by done. by apply (Hl n g').
  - intros q Hq [e Hf]. exists e. unfold receipt_of in *. by rewrite E.
  - intros i f Hf. rewrite E in Hf. by apply Hrc.
  - intros id r p Hr Hpool f Hf. destruct (Hp id r Hr) as (p' & Hp' & [_ _ _ K3 Kt]).
    assert (p' = p) as -> by congruence. unfold receipt_of in Hf. rewrite E in Hf.
    destruct (Kt f Hf) as (res & -> & ? & Hlim). exists res. split_and!; [done|done|].
    intros Hd He g L Hg HL. cbn in Hg. rewrite O in Hg; [by apply (Hlim Hd He g)|].
    intros Heq. apply (K3 s Hs). symmetry. eapply (pool_names_unique w); [done|exact Hpool|exact Hrow|congruence].
Qed.

(** ** The commands *)

Lemma post_on_db {A} (m : M DB A) (Q : outcome A → DB → Prop) (P : A → Control → Prop) w :
  store_op A m → pool_inv w → wp m Q (pv_db w) →
  (∀ o d', Q o d' → wf d' → pool_inv (set_db d' w) ∧ ∀ a, o = Ok a → P a (set_db d' w)) →
  wp (on_db m) (post pool_inv P) w.
Proof.
  intros Hop Hw Hm Hk. apply wp_on_db. eapply wp_mono.
  { apply wp_and; [exact Hm|apply (op_wf _ _ Hop)]. }
  intros o d' [HQ Hwf]. apply Hk; [done|]. apply Hwf, Hw.
Qed.

Lemma set_db_same w : set_db (pv_db w) w = w.
Proof. by destruct w. Qed.

(** What a resize that returned has left: nothing pending; the new size and a limit
    within it, or, after a rejection, the reservation as it was. *)
Definition resized (pool : MemoryPool) (size : Z) (pr : MemoryPool * resize_outcome) (w' : Control) : Prop :=
  mp_ID pr.1 = mp_ID pool ∧ the_resizes w' !! mp_ID pool = None ∧
  ∃ row, the_pools w' !! mp_ID pool = Some row ∧ mp_Name row = mp_Name pool ∧
    match pr.2 with
    | Resized => mp_ReservedBytes row = size ∧ ∀ g L, pools (pv_runner w') !! mp_Name pool = Some g →
        pc_max g = Some L → L <= size
    | Rejected _ => mp_ReservedBytes row = mp_ReservedBytes pool
    end.

Lemma finish_post now pool op w :
  pool_inv w → pool_row (pv_db w) pool → the_resizes w !! mp_ID pool = Some (resize_row_of pool op) →
  wp (finishMemoryPoolResize uuid_Parse now pool op)
    (post pool_inv (resized pool (SizeBytes op))) w.
Proof.
  intros Hw (row & Hrow & Hname & Hres) Hop. unfold finishMemoryPoolResize.
  set (q := mkResizeRequest _ _ _ _).
  assert (Hq : q = request_of (resize_row_of pool op) row) by (unfold q, request_of; by rewrite Hname).
  assert (He : expected q w) by (by exists (mp_ID pool), row, (resize_row_of pool op)).
  eapply (post_bind _ _ _ (λ o w', runner_only w w' ∧ finished q (pv_runner w') ∧
    (o = Resized → limited q (pv_runner w')))).
  { eapply wp_mono; [by apply client_Resize_post|]. intros o w' [H1 H2]. split; [apply H1|].
    intros a Ha. split; [done|]. by apply H2. }
  intros outcome w1 _ ([Hw1 [Hdb Hstarts]] & Hfin & Hlim).
  set (pool' := match outcome with Resized => _ | Rejected _ => pool end).
  assert (Hpool' : mp_ID pool' = mp_ID pool ∧ mp_Name pool' = mp_Name pool).
  { unfold pool'. destruct outcome; [|done]. by case_match. }
  destruct Hpool' as [Hid' Hname'].
  assert (Hrow1 : the_pools w1 !! mp_ID pool' = Some row) by (unfold the_pools; by rewrite Hdb, Hid').
  assert (Hop1 : the_resizes w1 !! mp_ID pool' = Some (resize_row_of pool' op)).
  { unfold the_resizes, resize_row_of. by rewrite Hdb, Hid'. }
  assert (Hr' : resize_row_of pool' op = resize_row_of pool op) by (unfold resize_row_of; congruence).
  set (w2 := set_db (rewritten now pool' row (delete (mp_ID pool') (the_resizes w1)) (pv_db w1)) w1).
  eapply (post_bind _ _ _ (λ _ w', w' = w2)).
  { eapply post_on_db; [apply op_FinishMemoryPoolResize|done| |].
    - apply (FinishMemoryPoolResize_wp now pool' op row); [apply Hw1|done..].
    - intros o d' [[-> Hno]| ->] Hwf'; [rewrite set_db_same; split; [done|]; by intros [] ->|].
      split; [|done]. apply (inv_finish w1 pool' row op now Hw1 Hwf' Hrow1); [congruence|exact Hop1|..];
        rewrite Hr', <- Hq; [done|].
      unfold pool'. destruct outcome; [|left; lia].
      destruct (Z.eqb_spec (mp_ReservedBytes pool) (SizeBytes op)); [left; lia|right].
      split; [cbn; lia|]. by apply Hlim. }
  intros _ ? H2 ->. apply post_ret; [done|]. split; [exact Hid'|]. split.
  { unfold the_resizes, w2. cbn. rewrite Hid'. apply lookup_delete_eq. }
  exists (reserve now pool' row). split_and!; [unfold the_pools, w2; cbn; rewrite Hid'; apply lookup_insert_eq|done|].
  cbn [snd]. unfold pool'. destruct outcome; [|done]. split; [|exact (Hlim eq_refl)].
  destruct (Z.eqb_spec (mp_ReservedBytes pool) (SizeBytes op)); done.
Qed.
End ops.
