(* ===== verification/PoolCmds.v ===== *)
(** * The pool commands keep the invariant

    Creating, resizing and deleting a pool, and admitting a pooled start: whatever
    fails, dies or loses its answer on the way. *)
From S2P Require Import Prelude GoStrings Paths Timestamps Model Sql StoreDB StoreRequests StoreInstances.
From S2P Require Import StoreCleanup StoreMigration StorePools StoreTrace InstanceSpec PoolHost PoolRunner.
From S2P Require Import Network Provision PoolStore HostCapacity PoolInv.

#[local] Open Scope Z_scope.

(** ** Instances, as they read back *)

Lemma scan_fields c (i : Instance) :
  scanInstance c = inl i →
  ID i = ID c ∧ Name i = Name c ∧ State i = State c ∧ FirecrackerPID i = FirecrackerPID c ∧
  NormalizedMemoryMode i = NormalizedMemoryMode c ∧
  (NormalizedMemoryMode c = MemoryModePool → MemoryPoolID i = MemoryPoolID c).
Proof.
  unfold scanInstance. destruct (parseTime (CreatedAt c)); [|done].
  destruct (parseTime (UpdatedAt c)); [|done]. cbn [mbind result_bind].
  destruct (match DeletedAt c with Some _ => _ | None => _ end); [|done]. cbn [mbind result_bind].
  intros [= <-]. unfold normalizeInstanceMemory, NormalizedMemoryMode. cbn [MemoryMode].
  destruct (NormalizeMemoryMode_cases (MemoryMode c)) as [-> | ->]; cbn; by split_and!.
Qed.

(** An update of an instance in its pool leaves it there. *)
Lemma updated_in_pool now (i : Instance) r :
  NormalizedMemoryMode i = MemoryModePool →
  NormalizedMemoryMode (in_cols (updated_row now i r)) = MemoryModePool ∧
  MemoryPoolID (in_cols (updated_row now i r)) = MemoryPoolID i.
Proof.
  unfold NormalizedMemoryMode. intros Hm. unfold updated_row, normalizeInstanceMemory. rewrite Hm. by destruct i.
Qed.

Section commands.
Context (uuid_Parse : string → option string) (cfg_MemoryMiB : Z) (has_tsClient : bool).

(** A step that leaves [w] as it is. *)
Ltac reading H := eapply post_bind; [eapply (reads_post pool_inv); [|done]; H|].

(** ** Creation *)

(** The pool is there and within the budget, or nothing happened. *)
Lemma create_wp now u name actor size w :
  pool_inv w →
  wp (provision_CreateMemoryPool cfg_MemoryMiB now u name actor size) (λ o w',
    pool_inv w' ∧ ((w' = w ∧ ∀ p, o ≠ Ok p) ∨
      (the_pools w !! u = None ∧ 0 < size ∧ int64 (committed cfg_MemoryMiB w "" + size) <= budget w ∧
       w' = set_db (set_memory_pools (<[u := pool_columns now
              (mkMemoryPool u name size now now (UserLogin actor) (NodeName actor))]> (the_pools w))
              (pv_db w)) w))) w.
Proof.
  intros Hw. assert (H0 : ∀ o : outcome MemoryPool, (∀ p, o ≠ Ok p) → pool_inv w ∧ ((w = w ∧ ∀ p, o ≠ Ok p) ∨
    (the_pools w !! u = None ∧ 0 < size ∧ int64 (committed cfg_MemoryMiB w "" + size) <= budget w ∧
       w = set_db (set_memory_pools (<[u := pool_columns now
              (mkMemoryPool u name size now now (UserLogin actor) (NodeName actor))]> (the_pools w))
              (pv_db w)) w))) by auto.
  unfold provision_CreateMemoryPool.
  apply wp_bind, wp_require; intros Hname; [|by apply H0].
  apply wp_bind, wp_require; intros Hsize; [|by apply H0]. apply Z.ltb_lt in Hsize.
  apply wp_bind. eapply wp_mono; [apply ensureReservation_reads|].
  intros o w1 [-> Hcap]. destruct o as [[]|e|]; [|by apply H0..]. specialize (Hcap tt eq_refl).
  set (p := mkMemoryPool u name size now now _ _).
  apply wp_bind, wp_on_db. eapply wp_mono.
  { apply wp_and; [apply CreateMemoryPool_wp|apply (op_wf _ _ (op_CreateMemoryPool now p))]. }
  intros o d' [[[-> Hno]|(Hnew & Hnames & ->)] Hwf'].
  - rewrite set_db_same. destruct o as [[]|e|]; [done|by apply H0..].
  - assert (Hw' : pool_inv (set_db (set_memory_pools (<[mp_ID p := pool_columns now p]> (the_pools w))
      (pv_db w)) w)) by (apply inv_create; [done|by apply Hwf', Hw|done..]).
    destruct o as [[]|e|]; [apply wp_ret|..]; (split; [exact Hw'|]); by right.
Qed.

(** ** Resize *)

(** [uuid.NewString] gives an ID no earlier request has. *)
Definition fresh (u : string) (w : Control) : Prop :=
  nonempty u = true ∧ ∀ q, q ∈ pv_sent w → pr_RequestID q ≠ u.

(** When the members are settled no start of the pool is in flight. *)
Lemma no_starts w (l : list Instance) (id : string) :
  pool_inv w →
  (∀ k r, instances (pv_db w) !! k = Some r → row_State r ≠ StateDeleted →
     ∃ i, i ∈ l ∧ scanInstance (in_cols r) = inl i) →
  (∀ i, i ∈ l → MemoryPoolID i = id → settled_member i = true) →
  ∀ s, s ∈ pv_starts w → mp_ID (ps_Pool s) ≠ id.
Proof.
  intros Hw Hl Hset s Hs Hid. destruct (pi_starts _ Hw s Hs) as [(r & Hr & Hd & Hm & Hp & Hready & Hstop) _].
  destruct (Hl _ r Hr Hd) as (i & Hi & Hscan).
  apply scan_fields in Hscan as (_ & _ & Hst & Hpid & _ & Hpool).
  specialize (Hset i Hi). rewrite Hpool, Hp in Hset by done. specialize (Hset Hid).
  unfold settled_member in Hset. rewrite Hst, Hpid in Hset.
  change (State (in_cols r)) with (row_State r) in Hset.
  apply orb_prop in Hset as [Hset%String.eqb_eq|[Hset%String.eqb_eq Hz%Z.eqb_eq]%andb_prop]; [done|].
  by apply Hstop.
Qed.

(** The pool of the command's name, if it exists. *)
Definition resized_name (name : string) (size : Z) (pr : MemoryPool * resize_outcome) (w' : Control) : Prop :=
  the_resizes w' !! mp_ID pr.1 = None ∧
  ∃ row, the_pools w' !! mp_ID pr.1 = Some row ∧ mp_Name row = name ∧
    (pr.2 = Resized → mp_ReservedBytes row = size ∧
       ∀ g L, pools (pv_runner w') !! name = Some g → pc_max g = Some L → L <= size).

Lemma resize_post now u name size w :
  pool_inv w → fresh u w →
  wp (provision_ResizeMemoryPool uuid_Parse cfg_MemoryMiB now u name size)
    (post pool_inv (resized_name name size)) w.
Proof.
  intros Hw [Hne Hfresh]. unfold provision_ResizeMemoryPool.
  eapply post_bind; [by apply post_require|]. intros _ ? _ [-> Hpos%Z.ltb_lt].
  reading ltac:(apply reads_on_db, GetMemoryPoolByName_reads, Hw). intros pool ? _ [-> [Hrow Hname]].
  reading ltac:(apply reads_on_db, Pending_reads, Hw). intros op ? _ [-> Hop].
  assert (Hfinish : ∀ w' p o, pool_inv w' → pool_row (pv_db w') p → mp_Name p = name → SizeBytes o = size →
    the_resizes w' !! mp_ID p = Some (resize_row_of p o) →
    wp (finishMemoryPoolResize uuid_Parse now p o) (post pool_inv (resized_name name size)) w').
  { intros w' p o Hw' Hp <- <- Ho. eapply post_mono; [by apply finish_post|done|].
    intros [p' oc] w'' _ (E1 & E2 & row & E3 & E4 & E5). cbn in *. rewrite <- E1 in E2, E3.
    split; [done|]. exists row. split_and!; [done..|]. cbn. intros ->. exact E5. }
  destruct (nonempty (RequestID op)) eqn:Hpend.
  { eapply post_bind; [by apply post_require|]. intros _ ? _ [-> Hsz%Z.eqb_eq]. apply Hfinish; [done..|].
    destruct Hop as [[_ He]|Hop]; [by rewrite He in Hpend|exact Hop]. }
  assert (Hnone : the_resizes w !! mp_ID pool = None).
  { destruct Hop as [[Hn _]|Hop]; [exact Hn|]. exfalso.
    destruct (pi_pending _ Hw _ _ Hop) as (p & _ & [K _ _ _ _]). cbn in K. congruence. }
  reading ltac:(apply reads_on_db, ListInstances_reads). intros l ? _ [-> Hl].
  reading ltac:(apply check_members_reads). intros running ? _ [-> Hmem].
  set (prev := mp_ReservedBytes pool).
  eapply (post_bind _ _ _ (λ _ w', w' = w)).
  { destruct (prev <? size); [|by apply post_ret].
    eapply wp_mono; [apply ensureReservation_reads|]. intros o w' [-> _]. by split. }
  intros _ ? _ ->. set (pool' := with_reserved _ pool).
  set (pool'' := if prev <? size then with_updated now pool' else pool').
  assert (Hp'' : mp_ID pool'' = mp_ID pool ∧ mp_Name pool'' = mp_Name pool ∧
    mp_ReservedBytes pool'' = Z.max prev size) by (unfold pool''; by case_match).
  destruct Hp'' as (Hid & Hnm & Hres). destruct Hrow as (row & Hrow & Hrn & Hrr).
  set (op' := mkMemoryPoolResize u size running).
  assert (Hrow'' : the_pools w !! mp_ID pool'' = Some row) by by rewrite Hid.
  set (w1 := set_db (rewritten now pool'' row (<[mp_ID pool'' := resize_row_of pool'' op']> (the_resizes w)) (pv_db w)) w).
  eapply (post_bind _ _ _ (λ _ w', w' = w1)).
  { eapply post_on_db; [apply op_BeginMemoryPoolResize|done| |].
    - apply (BeginMemoryPoolResize_wp now pool'' op' row); [apply Hw|exact Hrow''].
    - intros o d' [[-> Hno]|(Hn & Hu & ->)] Hwf'.
      + rewrite set_db_same. split; [done|]. by intros [] ->.
      + split; [|done]. apply (inv_begin w pool'' row op' now Hw Hwf' Hrow''); rewrite ?Hid; cbn; try done.
        * congruence.
        * rewrite Hres, Hrr. unfold prev. lia.
        * rewrite Hres. lia.
        * eapply no_starts; [done|exact Hl|]. intros i Hi Hp. by apply Hmem. }
  intros _ w2 Hw2 ->. apply Hfinish; [done| |congruence|done|].
  - exists (reserve now pool'' row). split_and!; [cbn; apply lookup_insert_eq|cbn; congruence|done].
  - unfold the_resizes, w1. cbn. apply lookup_insert_eq.
Qed.

(** ** Deletion *)

Lemma delete_post name w :
  pool_inv w → wp (provision_DeleteMemoryPool name) (λ _ w', pool_inv w') w.
Proof.
  intros Hw. enough (Hp : wp (provision_DeleteMemoryPool name) (post pool_inv (λ _ _, True)) w).
  { eapply wp_mono; [exact Hp|]. by intros o w' [H _]. }
  unfold provision_DeleteMemoryPool.
  reading ltac:(apply reads_on_db, FindMemoryPoolByName_reads, Hw). intros [p|] ? _ [-> Hrow].
  2: by apply post_throw.
  destruct (Hrow p eq_refl) as [(row & Hr & Hrn & _) _].
  reading ltac:(apply reads_on_db, Check_reads, Hw). intros _ ? _ [-> Hchk].
  reading ltac:(apply reads_on_db, Count_reads). intros n ? _ [-> Hcount].
  eapply post_bind; [by apply post_require|]. intros _ ? _ [-> Hn%Z.leb_le].
  specialize (Hcount Hn).
  assert (Hname : validName (mp_Name p) = true) by (rewrite <- Hrn; by eapply (pi_names _ Hw)).
  eapply (post_bind _ _ _ (λ _ w', runner_only w w' ∧ pools (pv_runner w') !! mp_Name p = None)).
  { unfold client_DeleteMemoryPool. eapply post_bind; [by apply post_lift|]. intros _ ? _ [-> _].
    eapply (post_bind _ _ _ (λ _ w', runner_only w w' ∧ pools (pv_runner w') !! mp_Name p = None)).
    { eapply wp_mono; [by apply deliver_delete|]. intros o w' [Hro Hgone].
      split; [apply Hro|]. intros a Ha. split; [done|]. by apply (Hgone a). }
    intros _ w' Hw' Hk. eapply post_mono; [by apply post_query|done|]. intros _ ? _ [-> _]. exact Hk. }
  intros _ w1 Hw1 [[_ [Hdb Hst]] Hgone].
  assert (Hnone : the_resizes w !! mp_ID p = None).
  { destruct (the_resizes w !! mp_ID p) as [r|] eqn:Hres; [|done]. exfalso.
    destruct (pi_pending _ Hw _ _ Hres) as (q & _ & [K _ _ _ _]). rewrite (Hchk r Hres) in K. done. }
  eapply (post_bind _ _ _ (λ _ _, True)); [|by intros; apply post_ret].
  eapply post_on_db; [apply op_DeleteMemoryPool|done|apply DeleteMemoryPool_wp, Hw1|].
  intros o d' [[-> _]| ->] Hwf'; [rewrite set_db_same; by split|]. split; [|done].
  apply (inv_delete w1 (mp_ID p) row); [done|exact Hwf'|unfold the_pools; by rewrite Hdb|
    unfold the_resizes; by rewrite Hdb| |congruence].
  rewrite Hst. intros s Hs Hid. destruct (pi_starts _ Hw s Hs) as [(r & Hr' & Hd & _ & Hp & _) _].
  apply (Hcount _ r Hr' Hd). congruence.
Qed.

(** ** Admission *)

(** An update to "provisioning" that keeps the mode of an instance and its pool keeps
    every start in flight in its pool. *)
Lemma inv_update w now (i : Instance) k r :
  let d' := set_instances (<[k := updated_row now i r]> (instances (pv_db w))) (pv_db w) in
  pool_inv w → wf d' → instances (pv_db w) !! k = Some r → State i = StateProvisioning →
  NormalizedMemoryMode i = NormalizedMemoryMode (in_cols r) →
  (NormalizedMemoryMode (in_cols r) = MemoryModePool → MemoryPoolID i = MemoryPoolID (in_cols r)) →
  pool_inv (set_db d' w) ∧
  ∀ s, ps_ID s = k → mp_ID (ps_Pool s) = MemoryPoolID i → NormalizedMemoryMode i = MemoryModePool →
    holds_pool s d'.
Proof.
  intros d' Hw Hwf' Hk Hst Hm Hp. pose proof Hw as [Hwf Hn Hl Hpd Hs Hrc Hu Hstarts].
  destruct (updated_row_fields now i r) as (_ & E2 & _).
  assert (Hh : ∀ s, ps_ID s = k → mp_ID (ps_Pool s) = MemoryPoolID i →
    NormalizedMemoryMode i = MemoryModePool → holds_pool s d').
  { intros s Hid Hpool Hmode. destruct (updated_in_pool now i r Hmode) as [E3 E4].
    exists (updated_row now i r). rewrite E2, E3, E4, Hst, Hid, Hpool.
    split_and!; try done. apply lookup_insert_eq. }
  split; [|done]. split; try done.
  - intros id q Hq. destruct (Hpd id q Hq) as (p & Hpool & [? ? ? ? ?]). by exists p.
  - intros s Hs'. destruct (Hstarts s Hs') as [(r' & Hr' & Hrest) Hrow]. split; [|exact Hrow].
    destruct (decide (ps_ID s = k)) as [Hid|Hid].
    + destruct Hrest as (_ & Hm' & Hp' & _). assert (r' = r) as -> by congruence.
      apply Hh; [done| |congruence]. rewrite Hp by done. congruence.
    + exists r'. split; [|exact Hrest]. unfold d'. cbn. by rewrite lookup_insert_ne.
Qed.

Lemma inv_start w s :
  pool_inv w → holds_pool s (pv_db w) → pool_row (pv_db w) (ps_Pool s) →
  the_resizes w !! mp_ID (ps_Pool s) = None → pool_inv (set_starts (s :: pv_starts w) w).
Proof.
  intros [Hwf Hn Hl Hp Hs Hrc Hu Hst] Hh Hrow Hnone. split; try done.
  - intros id r Hr. destruct (Hp id r Hr) as (p & Hpool & [? ? ? K ?]). exists p. split; [done|].
    split; try done. intros s' [->|Hs']%elem_of_cons; [|by apply K]. intros He.
    change (the_resizes w !! id = Some r) in Hr. congruence.
  - intros s' [->|Hs']%elem_of_cons; [done|by apply Hst].
Qed.

Lemma start_fence_within name : within eq (start_fence name).
Proof.
  unfold start_fence. pose proof migrationFence_within. pose proof within_GetInstance. solve_reads; auto.
Qed.

Lemma prereqs_within i : within eq (ensureStartPrereqs has_tsClient i).
Proof. unfold ensureStartPrereqs, host_check. solve_reads. Qed.

(** The pool of an instance that starts is not being resized. *)
Lemma pool_for_start (cur : Instance) w :
  pool_inv w → reads (requireMemoryPoolForInstance cur) (λ p, pool_row (pv_db w) p ∧
    mp_ID p = MemoryPoolID cur ∧ the_resizes w !! mp_ID p = None) w.
Proof.
  intros Hw. unfold requireMemoryPoolForInstance, memoryPoolForInstance.
  eapply (reads_bind _ _ (λ r, ∀ p, r = Some p → pool_row (pv_db w) p ∧ mp_ID p = MemoryPoolID cur)).
  { destruct (UsesMemoryPool cur); cbn [negb]; [|by apply reads_ret].
    eapply reads_bind; [apply reads_on_db, GetMemoryPoolByID_reads, Hw|]. intros p Hp.
    apply reads_ret. by intros ? [= <-]. }
  intros [p|] Hp; [|by apply reads_throw]. destruct (Hp p eq_refl) as [Hrow Hid].
  eapply reads_bind; [apply reads_on_db, Check_reads, Hw|]. intros ? Hchk. apply reads_ret.
  split_and!; [done..|]. destruct (the_resizes w !! mp_ID p) as [q|] eqn:Hq; [|done]. exfalso.
  destruct (pi_pending _ Hw _ _ Hq) as (? & _ & [K _ _ _ _]). by rewrite (Hchk q Hq) in K.
Qed.

Lemma admit_start_post now name w :
  pool_inv w → wp (admit_start cfg_MemoryMiB has_tsClient now name) (λ _ w', pool_inv w') w.
Proof.
  intros Hw. enough (Hp : wp (admit_start cfg_MemoryMiB has_tsClient now name) (post pool_inv (λ _ _, True)) w).
  { eapply wp_mono; [exact Hp|]. by intros o w' [H _]. }
  unfold admit_start, host_check.
  reading ltac:(apply reads_on_db, GetInstance_reads). intros got ? _ [-> (k & r & Hk & Hrn & Hscan)].
  apply scan_fields in Hscan as (HID & HName & HState & _ & Hmode & Hpool).
  set (cur := applyConfiguredBootArtifacts got).
  eapply post_bind; [by apply post_require|]. intros _ ? _ [-> _].
  reading ltac:(apply reads_rejecting, reads_query). intros _ ? _ [-> _].
  eapply post_bind; [by apply post_query|]. intros _ ? _ [-> _].
  reading ltac:(apply reads_rejecting, reads_any, prereqs_within). intros _ ? _ [-> _].
  eapply post_bind; [by apply post_query|]. intros running ? _ [-> _].
  eapply post_bind; [by apply post_require|]. intros _ ? _ [-> _].
  eapply (post_bind _ _ _ (λ p w', w' = w ∧ ∀ q, p = Some q → NormalizedMemoryMode cur = MemoryModePool ∧
    pool_row (pv_db w) q ∧ mp_ID q = MemoryPoolID cur ∧ the_resizes w !! mp_ID q = None)).
  { destruct (UsesMemoryPool cur) eqn:Huse.
    - reading ltac:(by apply reads_rejecting, pool_for_start). intros p ? _ [-> Hp].
      reading ltac:(apply reads_rejecting, reads_lift). intros _ ? _ [-> _]. apply post_ret; [done|].
      split; [done|]. intros ? [= <-]. unfold UsesMemoryPool in Huse.
      apply andb_prop in Huse as [Hm%String.eqb_eq _]. by split.
    - reading ltac:(apply reads_rejecting, ensureReservation_reads). intros ? ? _ [-> _]. by apply post_ret. }
  intros pool ? _ [-> Hq]. set (cur' := set_UpdatedAt _ _).
  assert (Hcur : Name cur' = Name got ∧ ID cur' = ID got ∧ State cur' = StateProvisioning ∧
    NormalizedMemoryMode cur' = NormalizedMemoryMode got ∧ MemoryPoolID cur' = MemoryPoolID got)
    by by destruct got.
  destruct Hcur as (C1 & C2 & C3 & C4 & C5).
  set (d1 := set_instances (<[k := updated_row now cur' r]> (instances (pv_db w))) (pv_db w)).
  assert (HkID : ID cur' = k).
  { rewrite C2, HID. exact (wf_instances _ (pi_wf _ Hw) k r Hk). }
  eapply (post_bind _ _ _ (λ _ w', w' = set_db d1 w ∧ ∀ s, ps_ID s = k →
    mp_ID (ps_Pool s) = MemoryPoolID cur' → NormalizedMemoryMode cur' = MemoryModePool → holds_pool s d1)).
  { eapply post_on_db; [apply op_UpdateInstance|done| |].
    - apply (UpdateInstance_wp now cur' k r); [apply Hw|done|rewrite C1; exact (eq_sym HName)].
    - intros o d' [[-> Hno]|[-> _]] Hwf'; [rewrite set_db_same; split; [done|]; by intros [] ->|].
      destruct (inv_update w now cur' k r) as [H1 H2]; [done..|by rewrite C4|rewrite C5; exact Hpool|by split]. }
  intros _ w1 Hw1 [-> Hh].
  eapply (post_bind _ _ _ (λ _ _, True)); [|by intros; apply post_ret].
  destruct pool as [p|]; [|by apply post_ret].
  destruct (Hq p eq_refl) as (Hm & Hrow & Hid & Hnone). intros fs. split; [|done].
  apply inv_start; [exact Hw1| |exact Hrow|exact Hnone]. apply Hh; [exact HkID|by rewrite C5|by rewrite C4].
Qed.
(** *** A creation *)

Lemma reads_rejecting_create {A} (m : M Control A) P w : reads m P w → reads (rejecting_create m) P w.
Proof.
  intros Hm. unfold rejecting_create. eapply reads_bind; [apply reads_try, Hm|].
  intros [a|e] HP; [by apply reads_ret, HP|apply reads_throw].
Qed.

(** The pool exists and is not being resized. *)
Lemma create_capacity_reads poolName memoryMiB w :
  pool_inv w → reads (create_capacity cfg_MemoryMiB poolName memoryMiB) (λ p, ∀ q, p = Some q →
    pool_row (pv_db w) q ∧ the_resizes w !! mp_ID q = None) w.
Proof.
  intros Hw. unfold create_capacity.
  eapply (reads_bind _ _ (λ p, ∀ q, p = Some q → pool_row (pv_db w) q ∧ the_resizes w !! mp_ID q = None)).
  - destruct (nonempty poolName).
    + eapply (reads_bind _ _ (λ p, pool_row (pv_db w) p ∧ the_resizes w !! mp_ID p = None)).
      * apply reads_rejecting_create. unfold requireMemoryPoolByName.
        eapply reads_bind; [apply reads_on_db, FindMemoryPoolByName_reads, Hw|].
        intros [p|] Hp; [|by apply reads_throw].
        eapply reads_bind; [apply reads_on_db, Check_reads, Hw|]. intros ? Hchk. apply reads_ret.
        split; [by apply Hp|]. destruct (the_resizes w !! mp_ID p) as [q|] eqn:Hq; [|done]. exfalso.
        destruct (pi_pending _ Hw _ _ Hq) as (? & _ & [K _ _ _ _]). by rewrite (Hchk q Hq) in K.
      * intros p Hp. eapply reads_bind; [apply reads_rejecting_create, reads_lift|]. intros _ _.
        apply reads_ret. by intros ? [= <-].
    + eapply reads_bind; [apply reads_rejecting_create, ensureReservation_reads|]. intros _ _. by apply reads_ret.
  - intros p Hp. eapply reads_bind; [apply reads_rejecting_create, reads_query|]. intros _ _. by apply reads_ret.
Qed.

(** A new record. *)
Lemma inv_created w now inst d' :
  pool_inv w → wf d' → memory_pools d' = the_pools w → memory_pool_resizes d' = the_resizes w →
  instances (pv_db w) !! ID inst = None → instances d' = <[ID inst := created_row now inst]> (instances (pv_db w)) →
  pool_inv (set_db d' w).
Proof.
  intros [Hwf Hn Hl Hp Hs Hrc Hu Hst] Hwf' Epools Eres Hnew Hins.
  assert (Ep : the_pools (set_db d' w) = the_pools w) by exact Epools.
  assert (Er : the_resizes (set_db d' w) = the_resizes w) by exact Eres.
  split; rewrite ?Ep, ?Er; try done.
  - intros id r Hr. destruct (Hp id r Hr) as (p & Hpool & [? ? ? ? ?]). by exists p.
  - intros q Hq. destruct (Hs q Hq) as [Hf|(id & p & r & H1 & H2 & H3)]; [by left|right].
    exists id, p, r. by rewrite Ep, Er.
  - intros s Hs'. destruct (Hst s Hs') as [(r & Hr & Hx) (row & Hrow & Hy)]. split.
    + exists r. split; [|done]. cbn. rewrite Hins, lookup_insert_ne; [done|]. intros E. by rewrite E, Hr in Hnew.
    + exists row. split; [|done]. cbn. by rewrite Epools.
Qed.

Lemma allocate_within cidr : within eq (allocateNetwork cidr).
Proof. unfold allocateNetwork, ListInstances, SELECT_ALL. repeat within_step. all: try (apply within_query; apply _). Qed.

Lemma create_record_post cidr now pool inst w :
  pool_inv w → State inst = StateProvisioning →
  (∀ q, pool = Some q → pool_row (pv_db w) q ∧ the_resizes w !! mp_ID q = None) →
  wp (create_record cidr now pool inst) (λ _ w', pool_inv w') w.
Proof.
  intros Hw HS Hq. unfold create_record. set (i := with_pool pool inst).
  assert (Hgive_up : ∀ e w', pool_inv w' → wp (_ ← try host_check; throw e) (λ (_ : outcome Instance) w'', pool_inv w'') w').
  { intros e w' Hw'. apply wp_bind. eapply wp_mono; [apply (within_try eq), within_query, _|].
    intros o ? <-. destruct o; [by apply wp_throw|done..]. }
  apply wp_bind, wp_try. apply wp_on_db. unfold create_with_network. apply wp_bind.
  eapply wp_mono; [apply allocate_within|]. intros o ? <-.
  assert (H0 : pool_inv (set_db (pv_db w) w)) by by rewrite set_db_same.
  destruct o as [net|e|]; [| |by rewrite set_db_same].
  2: { rewrite set_db_same. by apply Hgive_up. }
  apply wp_bind. set (i' := with_network i net).
  eapply wp_mono; [apply wp_and; [apply (CreateInstance_wp now i')|apply (op_wf _ _ (op_CreateInstance now i'))]|].
  intros o d' [[[Ep Er] Hcase] Hwf']. specialize (Hwf' (pi_wf _ Hw)).
  assert (Hd : pool_inv (set_db d' w)).
  { destruct Hcase as [[Hsame _]|[Hnew Hins]]; [|by eapply inv_created].
    pose proof Hw as [Hwf Hn Hl Hp Hs Hrc Hu Hst]. split; try done.
    - intros id p. unfold the_pools. cbn. rewrite Ep. apply Hn.
    - intros n g L Hg HL. destruct (Hl n g L Hg HL) as (id & p & Hp' & Hx). exists id, p. split; [|done].
      unfold the_pools. cbn. by rewrite Ep.
    - intros id r. unfold the_resizes. cbn. rewrite Er. intros Hr. destruct (Hp id r Hr) as (p & Hpool & [? ? ? ? ?]).
      exists p. split; [unfold the_pools; cbn; by rewrite Ep|done].
    - intros q Hq'. destruct (Hs q Hq') as [Hf|(id & p & r & H1 & H2 & H3)]; [by left|right].
      exists id, p, r. unfold the_pools, the_resizes. cbn. by rewrite Ep, Er.
    - intros s Hs'. destruct (Hst s Hs') as [(r & Hr & Hx) (row & Hrow & Hy)]. split.
      + exists r. cbn. by rewrite Hsame.
      + exists row. cbn. by rewrite Ep. }
  destruct o as [[]|e|]; [|by apply Hgive_up|exact Hd].
  destruct Hcase as [[_ Hno]|[Hnew Hins]]; [by destruct Hno|].
  apply wp_ret. apply wp_bind.
  destruct pool as [p|]; [|by apply wp_ret, wp_ret].
  destruct (nonempty (mp_ID p)) eqn:Hne; [|by apply wp_ret, wp_ret].
  destruct (Hq p eq_refl) as [(row & Hrow & Hx) Hnone].
  assert (Hi' : i' = with_network (set_MemoryPoolID (mp_ID p) (set_MemoryMode MemoryModePool inst)) net)
    by (unfold i', i; cbn; by rewrite Hne).
  assert (Hf : row_State (created_row now i') = StateProvisioning ∧
    NormalizedMemoryMode (in_cols (created_row now i')) = MemoryModePool ∧ MemoryPoolID (in_cols (created_row now i')) = mp_ID p).
  { rewrite Hi'. destruct net as [[[? ?] ?] ?], inst. cbn in HS. subst. done. }
  destruct Hf as (F1 & F2 & F3).
  intros fs. cbn. apply wp_ret. apply (inv_start (set_db d' w) (mkPooledStart (ID i') p)); [exact Hd| | |].
  - exists (created_row now i'). split; [cbn; by rewrite Hins, lookup_insert_eq|]. rewrite F1, F2, F3. by split_and!.
  - exists row. split; [|done]. cbn. by rewrite Ep.
  - unfold the_resizes. cbn. by rewrite Er.
Qed.
End commands.

(** ** A pending resize can always be finished

    Without failures, the command that retries it returns. *)

Lemma ends_on_db {A} (m : M DB A) (Q : A → Control → Prop) w :
  ends m (λ a d, Q a (set_db d w)) (pv_db w) → ends (on_db m) Q w.
Proof.
  intros (a & d & Hm & HQ). exists a, (set_db d w). split; [|done]. unfold on_db. by rewrite Hm.
Qed.
Lemma ends_on_runner {A} (m : M PoolHost A) (Q : A → Control → Prop) w :
  ends m (λ a h, Q a (set_runner h w)) (pv_runner w) → ends (on_runner m) Q w.
Proof.
  intros (a & h & Hm & HQ). exists a, (set_runner h w). split; [|done]. unfold on_runner. by rewrite Hm.
Qed.

(** A program that reads, and finds what it looks for. *)
Lemma ends_reads {S A} (m : M S A) (P : A → Prop) (Q : A → S → Prop) s :
  reads m P s → ends m (λ _ _, True) s → (∀ a, P a → Q a s) → ends m Q s.
Proof.
  intros Hr Hm HQ. eapply ends_mono; [apply (ends_post (λ _, True) m (λ a s', s' = s ∧ P a))|].
  - eapply reads_post; [exact Hr|done].
  - exact Hm.
  - intros a s' (_ & [-> HP] & _). by apply HQ.
Qed.

Lemma select_row_exists {K R} `{Countable K} (p : R → bool) (t : gmap K R) k r :
  t !! k = Some r → p r = true → ∃ r', select_row p t = inl r'.
Proof.
  intros Hk Hp. destruct (select_row p t) as [r'|e] eqn:Hs; [by exists r'|].
  rewrite (select_row_none p t e Hs k r Hk) in Hp. done.
Qed.

(** ** The runner *)

Lemma steady_resizeCgroup q : steady (resizeMemoryPoolCgroup q).
Proof. unfold resizeMemoryPoolCgroup, pool_call, read_max, read_current, write_max. solve_steady. Qed.

Lemma ends_write_receipt r (Q : unit → PoolHost → Prop) h :
  (∀ h', Q tt h') → ends (write_receipt r) Q h.
Proof.
  intros HQ. unfold write_receipt, pool_call.
  do 2 (apply ends_bind; eapply ends_query; [done|]).
  apply ends_bind. eapply ends_env; [done|]. eapply ends_query; [done|]. apply HQ.
Qed.

Section retry.
Context (uuid_Parse : string → option string) (cfg_MemoryMiB : Z).

Lemma handleResize_ends q h :
  validate_resize uuid_Parse q = inl tt → truthful_receipt q h →
  ends (handleResizeMemoryPool uuid_Parse q) (λ _ _, True) h.
Proof.
  intros Hv Ht. unfold handleResizeMemoryPool, resizeMemoryPool, pool_call.
  apply ends_bind. eapply ends_lift; [exact Hv|].
  do 2 (apply ends_bind; eapply ends_query; [done|]).
  apply ends_bind. eapply ends_query; [done|]. apply ends_bind.
  assert (Hrest : ∀ r, ends (write_receipt r;;
     if rs_Done r then mret r else
     o ← try (resizeMemoryPoolCgroup q);
     write_receipt (mkResizeResult q true (match o with inl _ => rs_Error r | inr e => error_text e end));;
     mret (mkResizeResult q true (match o with inl _ => rs_Error r | inr e => error_text e end))) (λ _ _, True) h).
  { intros r. apply ends_bind, ends_write_receipt. intros h'. destruct (rs_Done r); [by apply ends_ret|].
    apply ends_bind, ends_try; [apply steady_resizeCgroup|]. intros o h2.
    apply ends_bind, ends_write_receipt. intros h3. by apply ends_ret. }
  unfold truthful_receipt, receipt_of in Ht. destruct (resize_receipts h !! pr_RequestID q) as [f|].
  - destruct (Ht f eq_refl) as (r & -> & Hr & _). apply ends_bind. eapply ends_lift; [done|].
    apply ends_bind, ends_require; [by apply bool_decide_eq_true|]. apply ends_ret, Hrest.
  - apply ends_ret, Hrest.
Qed.

Lemma client_Resize_ends q w :
  pool_inv w → expected q w → validate_resize uuid_Parse q = inl tt →
  ends (client_ResizeMemoryPool uuid_Parse q) (λ _ _, True) w.
Proof.
  intros Hw He Hv. unfold client_ResizeMemoryPool. apply ends_bind. eapply ends_lift; [exact Hv|].
  apply ends_bind. set (w1 := set_sent (q :: pv_sent w) w). exists tt, w1. split; [done|].
  assert (Hw1 : pool_inv w1) by by apply inv_sent.
  assert (Hq : q ∈ pv_sent w1) by left.
  apply ends_bind. eapply ends_mono.
  { eapply (ends_post _ _ _ (λ _ _, True)); [by apply (deliver_post uuid_Parse q w1)|]. apply ends_on_runner.
    eapply ends_mono; [apply handleResize_ends; [exact Hv|]|done].
    destruct He as (id & p & r & Hp & Hr & ->). destruct (pi_pending _ Hw1 id r Hr) as (p' & Hp' & K).
    assert (p' = p) as -> by (unfold the_pools in *; cbn in *; congruence). apply K. }
  intros res w2 (_ & (_ & Hreq & Hdone & _) & _). apply ends_bind. unfold answer.
  eapply ends_query; [done|]. apply ends_bind, ends_require; [|by apply ends_ret].
  rewrite Hdone. by apply bool_decide_eq_true.
Qed.

(** ** The store *)

Lemma GetPool_ends (p : MemoryPoolOf string) p' w :
  pool_inv w → the_pools w !! mp_ID p = Some p → scanMemoryPool p = inl p' →
  ends (on_db (GetMemoryPoolByName (mp_Name p)))
    (λ pool w', w' = w ∧ pool_row (pv_db w) pool ∧ mp_Name pool = mp_Name p ∧ mp_ID pool = mp_ID p) w.
Proof.
  intros Hw Hp Hscan. eapply ends_reads; [apply reads_on_db, GetMemoryPoolByName_reads, Hw|..].
  - apply ends_on_db. unfold GetMemoryPoolByName.
    destruct (select_row_exists (λ q : MemoryPoolOf string, String.eqb (mp_Name q) (mp_Name p)) (the_pools w) (mp_ID p) p)
      as (row & Hrow); [done|apply String.eqb_refl|].
    apply ends_bind. eapply ends_query; [exact Hrow|]. eapply ends_lift; [|done].
    apply select_row_Some in Hrow as (k & Hk & Hn%String.eqb_eq).
    assert (k = mp_ID p) as -> by (eapply (pool_names_unique w); [apply Hw|exact Hk|exact Hp|done]).
    assert (row = p) as -> by congruence. exact Hscan.
  - intros pool [Hrow Hn]. split_and!; [done..|]. destruct Hrow as (row & Hr & Hrn & _).
    eapply (pool_names_unique w); [apply Hw|exact Hr|exact Hp|congruence].
Qed.

Lemma Pending_ends r id w :
  pool_inv w → the_resizes w !! id = Some r →
  ends (on_db (PendingMemoryPoolResize id)) (λ op w', w' = w ∧
    r = mkResizeRow id (RequestID op) (SizeBytes op) (Running op)) w.
Proof.
  intros Hw Hr. eapply ends_reads; [apply reads_on_db, Pending_reads, Hw|..].
  - apply ends_on_db. unfold PendingMemoryPoolResize.
    destruct (select_row_exists (λ r, String.eqb (rz_pool_id r) id) (the_resizes w) id r) as (r' & Hr').
    + done.
    + apply String.eqb_eq. exact (wf_resizes _ (pi_wf _ Hw) id r Hr).
    + apply ends_bind. exists (inl r'), (pv_db w). split; [|by apply ends_ret].
      unfold try, SELECT, query, env. cbn [tget MemoryPoolResizes]. change (memory_pool_resizes (pv_db w)) with (the_resizes w).
      by rewrite Hr'.
  - intros op [[Hn _]|Hop]; [unfold the_resizes in Hr; congruence|]. split; [done|].
    unfold the_resizes in Hr. congruence.
Qed.

Lemma Finish_ends now p id d :
  ends (FinishMemoryPoolResize now p id) (λ _ _, True) d.
Proof.
  unfold FinishMemoryPoolResize. apply ends_tx, ends_bind. eapply ends_env; [done|].
  apply ends_bind. eapply ends_env; [|by apply ends_ret].
  assert (Hex : ∀ t : gmap string (MemoryPoolOf string), exists_where (λ r, String.eqb (mp_ID r) (mp_ID p) &&
    negb (tcheck MemoryPools (reserve now p r))) t = false).
  { intros t. apply not_true_iff_false. intros (k & r & _ & Hr)%exists_where_spec. by rewrite andb_false_r in Hr. }
  cbv zeta. by rewrite Hex.
Qed.

(** ** The command *)

Lemma finish_ends now pool op w :
  pool_inv w → pool_row (pv_db w) pool → the_resizes w !! mp_ID pool = Some (resize_row_of pool op) →
  is_Some (uuid_Parse (RequestID op)) →
  ends (finishMemoryPoolResize uuid_Parse now pool op) (λ _ _, True) w.
Proof.
  intros Hw (row & Hrow & Hname & _) Hop [c Hc]. unfold finishMemoryPoolResize.
  set (q := mkResizeRequest _ _ _ _).
  assert (He : expected q w).
  { exists (mp_ID pool), row, (resize_row_of pool op). split_and!; [done..|]. unfold request_of. by rewrite Hname. }
  destruct (pi_pending _ Hw _ _ Hop) as (p' & Hp' & [_ Hpos _ _ _]).
  assert (Hv : validate_resize uuid_Parse q = inl tt).
  { unfold q, validate_resize, validate_pool_name. cbn [pr_RequestID pr_Name pr_SizeBytes].
    rewrite Hc, <- Hname.
    pose proof (pi_names _ Hw _ _ Hrow) as Hvn. rewrite (TrimSpace_name _ Hvn), Hvn. cbn.
    cbn in Hpos. by destruct (Z.leb_spec (SizeBytes op) 0); [lia|]. }
  apply ends_bind. eapply ends_mono; [by apply client_Resize_ends|]. intros oc w1 _.
  apply ends_bind, ends_on_db. eapply ends_mono; [apply Finish_ends|]. intros _ d _. by apply ends_ret.
Qed.

Lemma retry_ends now u p p' r w :
  pool_inv w → fresh u w → the_pools w !! mp_ID p = Some p → scanMemoryPool p = inl p' →
  the_resizes w !! mp_ID p = Some r → is_Some (uuid_Parse (rz_request_id r)) →
  ends (provision_ResizeMemoryPool uuid_Parse cfg_MemoryMiB now u (mp_Name p) (rz_size_bytes r))
    (λ pr w', pool_inv w' ∧ resized_name (mp_Name p) (rz_size_bytes r) pr w') w.
Proof.
  intros Hw Hu Hp Hscan Hr Hid.
  assert (He : ends (provision_ResizeMemoryPool uuid_Parse cfg_MemoryMiB now u (mp_Name p) (rz_size_bytes r))
    (λ _ _, True) w).
  { destruct (pi_pending _ Hw _ _ Hr) as (? & _ & [K Hpos _ _ _]). unfold provision_ResizeMemoryPool.
    apply ends_bind, ends_require; [by apply Z.ltb_lt|].
    apply ends_bind. eapply ends_mono; [by eapply GetPool_ends|]. intros pool ? (-> & Hrow & Hn & Hpid).
    apply ends_bind. eapply ends_mono; [apply (Pending_ends r); [done|by rewrite Hpid]|].
    intros op ? [-> ->]. cbn in K, Hid |- *. rewrite K.
    apply ends_bind, ends_require; [apply Z.eqb_refl|].
    apply finish_ends; [done..| |done]. by rewrite Hpid, Hr. }
  eapply ends_mono; [eapply ends_post; [by apply resize_post|exact He]|]. intros pr w' (H1 & H2 & _). auto.
Qed.
End retry.
