(* ===== verification/PoolSpec.v ===== *)
(** * What the memory pools promise

    The control plane and the runner as a step relation: commands one at a time, starts
    and delayed requests between them, everything else of the system as an environment. *)
From S2P Require Import Prelude GoStrings Paths Timestamps Model Sql StoreDB StoreRequests StoreInstances.
From S2P Require Import StoreCleanup StoreMigration StorePools StoreDemo StoreTrace InstanceSpec RunnerState.
From S2P Require Import RunnerSpec PoolHost PoolRunner Provision PoolStore HostCapacity PoolInv PoolCmds.

#[local] Open Scope Z_scope.

(** What the rest of the system may do between two commands: change instances and
    processes, run machines in the cgroups, end starts, reboot the host.  It sets no limit
    and sends no pooled start: of the code, only a resize and the set-up of a pool for a
    start write the limit of a cgroup, and only starting and creating an instance send
    starts; all of these are steps of their own below.  A start still in flight keeps its
    instance out of the settled states. *)
Record other (w w' : Control) : Prop := {
  ot_wf : wf (pv_db w) → wf (pv_db w');
  ot_pools : the_pools w' = the_pools w;
  ot_resizes : the_resizes w' = the_resizes w;
  ot_receipts : resize_receipts (pv_runner w') = resize_receipts (pv_runner w);
  ot_cgroups : ∀ n g', pools (pv_runner w') !! n = Some g' →
    ∃ g, pools (pv_runner w) !! n = Some g ∧ pc_max g = pc_max g';
  ot_sent : pv_sent w' = pv_sent w;
  ot_starts : ∀ s, s ∈ pv_starts w' → s ∈ pv_starts w ∧ holds_pool s (pv_db w');
}.

(** Nothing happens, and no start is in flight. *)
Lemma other_refl w : pv_starts w = [] → other w w.
Proof.
  intros Hs. split; try done; [by intros n g Hg; exists g|]. rewrite Hs. by intros s ?%not_elem_of_nil.
Qed.

Section spec.
Context (uuid_Parse : string → option string) (cfg_MemoryMiB : Z) (has_tsClient : bool).

Inductive pool_step : Control → Control → Prop :=
  | ps_create now u name actor size fs w :
      pool_step w (provision_CreateMemoryPool cfg_MemoryMiB now u name actor size fs w).1.2
  | ps_resize now u name size fs w :
      fresh u w → pool_step w (provision_ResizeMemoryPool uuid_Parse cfg_MemoryMiB now u name size fs w).1.2
  | ps_delete name fs w : pool_step w (provision_DeleteMemoryPool name fs w).1.2
  (* between its fence and its admission a start reconciles the instance *)
  | ps_admission now name fs fs' w w1 inst :
      (start_fence name fs w).1.1 = Ok inst → other w w1 →
      pool_step w (admit_start cfg_MemoryMiB has_tsClient now name fs' w1).1.2
  (* between its check of the capacity and its record a creation prepares the directory *)
  | ps_creation cidr now poolName memoryMiB pool inst fs fs' w w1 :
      (create_capacity cfg_MemoryMiB poolName memoryMiB fs w).1.1 = Ok pool → other w w1 →
      State inst = StateProvisioning → pool_step w (create_record cidr now pool inst fs' w1).1.2
  | ps_start s fs w : s ∈ pv_starts w → pool_step w (runner_start s fs w).1.2
  (* a request that was sent arrives late, or again *)
  | ps_late q fs w : q ∈ pv_sent w →
      pool_step w (on_runner (handleResizeMemoryPool uuid_Parse q) fs w).1.2
  | ps_late_delete name fs w : validName name = true →
      pool_step w (on_runner (handleDeleteMemoryPool name) fs w).1.2
  | ps_other w w' : other w w' → pool_step w w'.

Definition initial (w : Control) : Prop :=
  pv_db w = empty_DB ∧ pools (pv_runner w) = ∅ ∧ resize_receipts (pv_runner w) = ∅ ∧
  pv_sent w = [] ∧ pv_starts w = [].

Definition reachable (w : Control) : Prop := ∃ w0, initial w0 ∧ rtc pool_step w0 w.

Lemma initial_inv w : initial w → pool_inv w.
Proof.
  intros (Hd & Hp & Hr & Hs & Hst). destruct w as [d [p r] h mem sent starts at' ev]. cbn in *. subst.
  split; cbn; [apply wf_empty|intros ? ?; rewrite lookup_empty; done..| | | |].
  - by intros ? ?%not_elem_of_nil.
  - intros ? ?. by rewrite lookup_empty.
  - by intros ? ? ?%not_elem_of_nil.
  - by intros ? ?%not_elem_of_nil.
Qed.

Lemma other_inv w w' : other w w' → pool_inv w → pool_inv w'.
Proof.
  intros [Owf Op Or Orc Oc Os Ost] [Hwf Hn Hl Hp Hs Hrc Hu Hst].
  split; rewrite ?Op, ?Or, ?Orc, ?Os; auto.
  - intros n g' L Hg' HL. destruct (Oc n g' Hg') as (g & Hg & Hm).
    apply (Hl n g); [done|by rewrite Hm].
  - intros id r Hr. destruct (Hp id r Hr) as (p & Hpool & [K1 K2 K3 K4 Kt]). exists p.
    split; [done|]. split; auto.
    + intros s Hs'. apply K4. by apply Ost.
    + intros f Hf. unfold receipt_of in Hf. rewrite Orc in Hf. destruct (Kt f Hf) as (res & -> & Hq & Hlim).
      exists res. split_and!; [done..|]. intros Hd He g' L Hg' HL.
      destruct (Oc _ g' Hg') as (g & Hg & Hm). apply (Hlim Hd He g); [done|by rewrite Hm].
  - intros q Hq. destruct (Hs q Hq) as [[e Hf]|(id & p & r & H1 & H2 & H3)]; [left|right].
    + exists e. unfold receipt_of in *. by rewrite Orc.
    + exists id, p, r. by rewrite Op, Or.
  - intros s Hs'. destruct (Ost s Hs') as [Hin Hh]. split; [done|].
    destruct (Hst s Hin) as [_ (row & Hr & Hrest)]. exists row. split; [|done].
    change (the_pools w' !! mp_ID (ps_Pool s) = Some row). by rewrite Op.
Qed.

Lemma step_inv w w' : pool_step w w' → pool_inv w → pool_inv w'.
Proof.
  destruct 1 as [now u name actor size fs w|now u name size fs w Hu|name fs w|now name fs fs' w w1 i _ Ho|
    cidr now poolName memoryMiB pool inst fs fs' w w1 Hcap Ho HS|s fs w Hs|q fs w Hq|name fs w Hn|w w' Ho]; intros Hw.
  - by apply (create_wp cfg_MemoryMiB now u name actor size w Hw fs).
  - by apply (resize_post uuid_Parse cfg_MemoryMiB now u name size w Hw Hu fs).
  - by apply (delete_post name w Hw fs).
  - apply (admit_start_post cfg_MemoryMiB has_tsClient now name w1 (other_inv w w1 Ho Hw) fs').
  - apply (create_record_post cidr now pool inst w1); [by eapply other_inv|done|]. intros q ->.
    pose proof (create_capacity_reads cfg_MemoryMiB poolName memoryMiB w Hw fs) as [_ Hq].
    destruct (Hq _ Hcap q eq_refl) as [Hrow Hnone]. unfold pool_row.
    change (memory_pools (pv_db w1)) with (the_pools w1). by rewrite (ot_pools _ _ Ho), (ot_resizes _ _ Ho).
  - by apply (runner_start_post s w Hw Hs fs).
  - by apply (deliver_post uuid_Parse q w Hw Hq fs).
  - by apply (deliver_delete name w Hw Hn fs).
  - by eapply other_inv.
Qed.

Lemma reachable_inv w : reachable w → pool_inv w.
Proof.
  intros (w0 & H0%initial_inv & Hs). induction Hs as [|w1 w2 w3 H12 _ IH]; [done|].
  apply IH. by eapply step_inv.
Qed.

(** ** Properties *)

(** C29. Host memory is never promised twice: over any pool commands, admissions of starts
    and of creations, starts that run, requests that arrive late, and anything the rest of
    the system does meanwhile (as [other] says), whatever fails or dies: a limit that is in
    force on the cgroup of a pool is covered by the reservation the store holds for the
    pool of that name; so the sum the capacity checks compute bounds the sum of the limits. *)
Theorem pool_limits_covered w n g L :
  reachable w → pools (pv_runner w) !! n = Some g → pc_max g = Some L →
  ∃ id p, memory_pools (pv_db w) !! id = Some p ∧ mp_Name p = n ∧ L <= mp_ReservedBytes p.
Proof. intros Hw%reachable_inv. apply (pi_limit w Hw). Qed.

(** Resizes and starts exclude each other: while a resize of a pool is pending no
    pooled start of it is in flight, and its runner-side receipt, if any, is its own. *)
Theorem resize_excludes_starts w id r :
  reachable w → memory_pool_resizes (pv_db w) !! id = Some r →
  (∀ s, s ∈ pv_starts w → mp_ID (ps_Pool s) ≠ id) ∧
  ∃ p, memory_pools (pv_db w) !! id = Some p ∧ rz_size_bytes r <= mp_ReservedBytes p ∧
    ∀ f, resize_receipts (pv_runner w) !! rz_request_id r = Some f →
      ∃ res, f = Some res ∧ rs_Request res = request_of r p.
Proof.
  intros Hw%reachable_inv Hr. destruct (pi_pending w Hw id r Hr) as (p & Hp & [_ _ K2 K3 Kt]).
  split; [done|]. exists p. split_and!; [done..|]. intros f Hf. destruct (Kt f Hf) as (res & -> & Hq & _).
  by exists res.
Qed.

(** C30. A resize that answers tells the truth: after "resized" the store holds exactly
    the new size and no larger limit is in force; after a rejection nothing is pending
    either. *)
Theorem resize_answers_truthfully now u name size w fs :
  reachable w → fresh u w →
  let '(o, w', _) := provision_ResizeMemoryPool uuid_Parse cfg_MemoryMiB now u name size fs w in
  ∀ pool outcome, o = Ok (pool, outcome) →
    memory_pool_resizes (pv_db w') !! mp_ID pool = None ∧
    ∃ row, memory_pools (pv_db w') !! mp_ID pool = Some row ∧ mp_Name row = name ∧
      (outcome = Resized → mp_ReservedBytes row = size ∧
         ∀ g L, pools (pv_runner w') !! name = Some g → pc_max g = Some L → L <= size).
Proof.
  intros Hw%reachable_inv Hu. pose proof (resize_post uuid_Parse cfg_MemoryMiB now u name size w Hw Hu fs) as [_ Hp].
  destruct (provision_ResizeMemoryPool _ _ _ _ _ _ fs w) as [[o w'] fs'].
  intros pool outcome ->. exact (Hp _ eq_refl).
Qed.

(** C31. A pending resize never gets stuck: whatever was lost on the way to it, retrying
    the command with the pending size returns when no call fails, and leaves nothing
    pending. *)
Theorem pending_resize_completes now u w id p p' r :
  reachable w → fresh u w → memory_pools (pv_db w) !! id = Some p → scanMemoryPool p = inl p' →
  memory_pool_resizes (pv_db w) !! id = Some r → is_Some (uuid_Parse (rz_request_id r)) →
  ∃ pool outcome w',
    run (provision_ResizeMemoryPool uuid_Parse cfg_MemoryMiB now u (mp_Name p) (rz_size_bytes r)) w =
      (Ok (pool, outcome), w') ∧
    memory_pool_resizes (pv_db w') !! mp_ID pool = None ∧
    ∃ row, memory_pools (pv_db w') !! mp_ID pool = Some row ∧ mp_Name row = mp_Name p.
Proof.
  intros Hw%reachable_inv Hu Hp Hscan Hr Hid.
  assert (id = mp_ID p) as -> by (symmetry; exact (wf_pools _ (pi_wf _ Hw) id p Hp)).
  destruct (ends_run _ _ _ (retry_ends uuid_Parse cfg_MemoryMiB now u p p' r w Hw Hu Hp Hscan Hr Hid))
    as ([pool oc] & w' & Hrun & _ & Hnone & row & Hrow & Hn & _).
  exists pool, oc, w'. split_and!; [done..|]. by exists row.
Qed.

Lemma pools_total_insert d id p :
  memory_pools d !! id = None →
  pools_total (set_memory_pools (<[id := p]> (memory_pools d)) d) = mp_ReservedBytes p + pools_total d.
Proof.
  intros Hn. unfold pools_total. cbn.
  rewrite (total_perm _ _ _ (map_to_list_insert (memory_pools d) id p Hn)). by rewrite total_cons.
Qed.

(** A pool is only created within the host's budget: unless the sums leave 64 bits,
    what is committed after the creation is what was committed before and the pool, and
    no more than the memory of the host less its reserve. *)
Theorem create_within_budget now u name actor size w fs :
  reachable w → 0 <= committed cfg_MemoryMiB w "" →
  committed cfg_MemoryMiB w "" + size <= max_int64 →
  let '(o, w', _) := provision_CreateMemoryPool cfg_MemoryMiB now u name actor size fs w in
  ∀ pool, o = Ok pool →
    committed cfg_MemoryMiB w' "" = committed cfg_MemoryMiB w "" + size ∧ 0 < size ∧
    committed cfg_MemoryMiB w' "" <= Z.max (pv_memory w - 512 * 1024 * 1024) 0.
Proof.
  intros Hw%reachable_inv Hc Hmax.
  pose proof (create_wp cfg_MemoryMiB now u name actor size w Hw fs) as [_ H].
  destruct (provision_CreateMemoryPool _ _ _ _ _ _ fs w) as [[o w'] fs']. intros pool ->. cbn in H.
  destruct H as [[_ H]|(Hn & Hsize & Hcap & ->)]; [by destruct (H pool)|].
  rewrite int64_id in Hcap by (unfold fits, max_int64 in *; lia).
  set (row := pool_columns _ _).
  assert (Heq : committed cfg_MemoryMiB (set_db (set_memory_pools (<[u := row]> (the_pools w)) (pv_db w)) w) "" =
    committed cfg_MemoryMiB w "" + size).
  { unfold committed at 1. cbn [pv_db set_db]. unfold the_pools. rewrite pools_total_insert by done.
    change (mp_ReservedBytes row) with size. unfold committed.
    change (fixed_total cfg_MemoryMiB (set_db _ w) "") with (fixed_total cfg_MemoryMiB w ""). lia. }
  rewrite Heq. split_and!; [done..|]. exact Hcap.
Qed.
End spec.

(** ** A host with one pool

    A host of 8 GiB with one pool and one member: the pool is created, a start is
    admitted and runs, and a resize loses its answer.  The runs witness the theorems of
    PoolSpec.v. *)

Definition any_uuid (s : string) : option string := Some s.
Definition GiB : Z := 1024 * MiB.
Definition alice : Actor := mkActor "alice" "Alice" "laptop" "100.64.0.1" "".

Definition pw0 : Control := mkControl empty_DB (mkPoolHost ∅ ∅) host0 (8 * GiB) [] [] [] [].
Definition pw1 : Control :=
  (provision_CreateMemoryPool 1024 t0 "pool-1" "web" alice (2 * GiB) [] pw0).1.2.

(** A stopped member joins. *)
Definition member : Instance :=
  set_State StateStopped (set_FirecrackerPID 0 (set_MemoryPoolID "pool-1"
    (set_MemoryMode MemoryModePool demo_instance))).
Definition pw2 : Control := set_db (run (CreateInstance t0 member) (pv_db pw1)).2 pw1.

(** Its start is admitted, and runs. *)
Definition pw3 : Control := (admit_start 1024 true t0 "demo" [] pw2).1.2.
Definition demo_start : pooled_start :=
  mkPooledStart "id-1" (mkMemoryPool "pool-1" "web" (2 * GiB) t0 t0 "alice" "laptop").
Definition pw4 : Control := (runner_start demo_start [] pw3).1.2.

(** It is ready. *)
Definition pw5 : Control :=
  set_starts [] (set_db (run (UpdateInstance t0 (set_State StateReady (set_FirecrackerPID 7 member)))
    (pv_db pw4)).2 pw4).

(** The pool shrinks, but the runner's answer is lost. *)
Definition lost_answer : list fault := replicate 28 Pass ++ [Fail].
Definition pw6 : Control :=
  (provision_ResizeMemoryPool any_uuid 1024 t0 "req-1" "web" GiB lost_answer pw5).1.2.

#[local] Abbreviation step := (pool_step any_uuid 1024 true).
#[local] Abbreviation pool_reachable := (reachable any_uuid 1024 true).

Lemma pw0_reachable : pool_reachable pw0.
Proof. exists pw0. split; [by split_and!|reflexivity]. Qed.

Lemma reach w w' : pool_reachable w → step w w' → pool_reachable w'.
Proof. intros (w0 & H0 & Hr) Hs. exists w0. split; [done|]. eapply rtc_r; [exact Hr|exact Hs]. Qed.

Lemma pw1_reachable : pool_reachable pw1.
Proof. eapply reach; [apply pw0_reachable|]. apply ps_create. Qed.

(** An operation on an instance is the environment's. *)
Lemma other_instance (m : M DB unit) w :
  store_op _ m → memory_pools (run m (pv_db w)).2 = memory_pools (pv_db w) →
  memory_pool_resizes (run m (pv_db w)).2 = memory_pool_resizes (pv_db w) →
  other w (set_starts [] (set_db (run m (pv_db w)).2 w)).
Proof.
  intros Hm Hp Hr. split; try done.
  - by apply run_wf.
  - intros n g Hg. by exists g.
  - by intros s ?%not_elem_of_nil.
Qed.

Lemma pw2_reachable : pool_reachable pw2.
Proof.
  eapply reach; [apply pw1_reachable|]. apply ps_other.
  apply (other_instance (CreateInstance t0 member) pw1); [apply op_CreateInstance|vm_compute; reflexivity..].
Qed.
Lemma pw3_reachable : pool_reachable pw3.
Proof.
  eapply reach; [apply pw2_reachable|]. unfold pw3.
  apply (ps_admission _ _ _ t0 "demo" [] [] pw2 pw2 (stored t0 member)); [vm_compute; reflexivity|].
  by apply other_refl.
Qed.
Lemma pw4_reachable : pool_reachable pw4.
Proof.
  eapply reach; [apply pw3_reachable|]. apply ps_start.
  replace (pv_starts pw3) with [demo_start] by (vm_compute; reflexivity). left.
Qed.
Lemma pw5_reachable : pool_reachable pw5.
Proof.
  eapply reach; [apply pw4_reachable|]. apply ps_other.
  apply (other_instance (UpdateInstance t0 (set_State StateReady (set_FirecrackerPID 7 member))) pw4);
    [apply op_UpdateInstance|vm_compute; reflexivity..].
Qed.

Lemma fresh_request w u : nonempty u = true → pv_sent w = [] → fresh u w.
Proof. intros Hu Hs. split; [done|]. rewrite Hs. by intros q ?%not_elem_of_nil. Qed.
Lemma pw5_fresh : fresh "req-1" pw5.
Proof. apply fresh_request; vm_compute; reflexivity. Qed.

Lemma pw6_reachable : pool_reachable pw6.
Proof. eapply reach; [apply pw5_reachable|]. apply ps_resize, pw5_fresh. Qed.

Lemma pw6_fresh : fresh "req-2" pw6.
Proof.
  split; [done|]. replace (pv_sent pw6) with [mkResizeRequest "req-1" "web" GiB true] by (vm_compute; reflexivity).
  by intros q ->%list_elem_of_singleton.
Qed.

Definition pool_row_1 : MemoryPoolOf string := pool_columns t0 (ps_Pool demo_start).

Lemma pw6_pool : memory_pools (pv_db pw6) !! "pool-1" = Some pool_row_1.
Proof. vm_compute. reflexivity. Qed.
Lemma pw6_pending : memory_pool_resizes (pv_db pw6) !! "pool-1" = Some (mkResizeRow "pool-1" "req-1" GiB true).
Proof. vm_compute. reflexivity. Qed.

(** ** Witnesses *)

Lemma pool_limits_covered_witness :
  ∃ id p, memory_pools (pv_db pw6) !! id = Some p ∧ mp_Name p = "web" ∧ GiB <= mp_ReservedBytes p.
Proof.
  apply (pool_limits_covered any_uuid 1024 true pw6 "web" (mkPoolCgroup (Some GiB) 0 []) GiB).
  - apply pw6_reachable.
  - vm_compute. reflexivity.
  - reflexivity.
Defined.

Lemma resize_excludes_starts_witness :
  (∀ s, s ∈ pv_starts pw6 → mp_ID (ps_Pool s) ≠ "pool-1") ∧
  ∃ p, memory_pools (pv_db pw6) !! "pool-1" = Some p ∧ GiB <= mp_ReservedBytes p ∧
    ∀ f, resize_receipts (pv_runner pw6) !! "req-1" = Some f →
      ∃ res, f = Some res ∧ rs_Request res = mkResizeRequest "req-1" (mp_Name p) GiB true.
Proof.
  apply (resize_excludes_starts any_uuid 1024 true pw6 "pool-1" (mkResizeRow "pool-1" "req-1" GiB true)).
  - apply pw6_reachable.
  - apply pw6_pending.
Defined.

(** The retry finds the receipt, and is answered. *)
Lemma resize_answers_truthfully_witness :
  let '(o, w', _) := provision_ResizeMemoryPool any_uuid 1024 t0 "req-2" "web" GiB [] pw6 in
  ∃ pool, o = Ok (pool, Resized) ∧ mp_ReservedBytes pool = GiB ∧
    ∃ row, memory_pools (pv_db w') !! mp_ID pool = Some row ∧ mp_ReservedBytes row = GiB.
Proof.
  pose proof (resize_answers_truthfully any_uuid 1024 true t0 "req-2" "web" GiB pw6 [] pw6_reachable pw6_fresh) as H.
  set (p := mkMemoryPool "pool-1" "web" GiB t0 t0 "alice" "laptop").
  assert (Hok : (provision_ResizeMemoryPool any_uuid 1024 t0 "req-2" "web" GiB [] pw6).1.1 = Ok (p, Resized))
    by (vm_compute; reflexivity).
  destruct (provision_ResizeMemoryPool _ _ _ _ _ _ _ _) as [[o w'] fs]. cbn in Hok. subst o.
  destruct (H p Resized eq_refl) as (_ & row & Hrow & _ & Hr). exists p. split_and!; [done..|].
  exists row. split; [done|]. by apply Hr.
Defined.

Lemma pending_resize_completes_witness :
  ∃ pool outcome w',
    run (provision_ResizeMemoryPool any_uuid 1024 t0 "req-2" "web" GiB) pw6 = (Ok (pool, outcome), w') ∧
    memory_pool_resizes (pv_db w') !! mp_ID pool = None ∧
    ∃ row, memory_pools (pv_db w') !! mp_ID pool = Some row ∧ mp_Name row = "web".
Proof.
  apply (pending_resize_completes any_uuid 1024 true t0 "req-2" pw6 "pool-1" pool_row_1 (ps_Pool demo_start)
    (mkResizeRow "pool-1" "req-1" GiB true)).
  - apply pw6_reachable.
  - apply pw6_fresh.
  - apply pw6_pool.
  - vm_compute. reflexivity.
  - apply pw6_pending.
  - by exists "req-1".
Defined.

Lemma create_within_budget_witness :
  match provision_CreateMemoryPool 1024 t0 "pool-1" "web" alice (2 * GiB) [] pw0 with
  | (Ok _, w', _) => committed 1024 w' "" = 2 * GiB ∧ committed 1024 w' "" <= 8 * GiB - 512 * MiB
  | _ => False
  end.
Proof.
  pose proof (create_within_budget any_uuid 1024 true t0 "pool-1" "web" alice (2 * GiB) pw0 [] pw0_reachable) as H.
  assert (Hc : committed 1024 pw0 "" = 0) by (vm_compute; reflexivity).
  assert (Hok : (provision_CreateMemoryPool 1024 t0 "pool-1" "web" alice (2 * GiB) [] pw0).1.1 =
    Ok (mkMemoryPool "pool-1" "web" (2 * GiB) t0 t0 "alice" "laptop")) by (vm_compute; reflexivity).
  rewrite Hc in H. destruct (provision_CreateMemoryPool _ _ _ _ _ _ _ _) as [[o w'] fs]. cbn in Hok. subst o.
  destruct (H ltac:(done) ltac:(vm_compute; discriminate) _ eq_refl) as (E & _ & B).
  split; [exact E|]. exact B.
Defined.

(** ** Beyond 64 bits *)

(** The sum of the check leaves 64 bits: on a host of 8 GiB with a pool of 2 GiB, a
    pool of 2^63 - 1 bytes is created. *)
Theorem huge_pool_admitted :
  (provision_CreateMemoryPool 1024 t0 "pool-2" "huge" alice max_int64 [] pw1).1.1 =
    Ok (mkMemoryPool "pool-2" "huge" max_int64 t0 t0 "alice" "laptop").
Proof. vm_compute. reflexivity. Qed.
