(* ===== verification/Identity.v ===== *)
(** * Who is calling

    Models src/internal/identity/provider.go: the actor a tailnet peer resolves to,
    and the explicitly configured service owners. *)
From S2P Require Import Prelude GoStrings Model.

#[local] Open Scope Z_scope.

(** Stable node IDs to service names. *)
Definition Providers : Type := gmap string string.

(** [^[a-z0-9][a-z0-9_-]{0,63}$] *)
Definition is_lower_alnum (c : ascii) : bool :=
  let n := byte_value c in ((97 <=? n) && (n <=? 122)) || ((48 <=? n) && (n <=? 57)).

Definition serviceName (s : string) : bool :=
  match s with
  | String c rest =>
      is_lower_alnum c &&
      all_chars (λ c, is_lower_alnum c || Ascii.eqb c "_" || Ascii.eqb c "-") rest &&
      (String.length rest <=? 63)%nat
  | EmptyString => false
  end.

(** What the source reads of [apitype.WhoIsResponse]. *)
Record Node := mkNode {
  nd_Name : string;
  nd_ComputedName : string;
  nd_StableID : string;
  nd_Tags : list string;
}.
Record UserProfile := mkUserProfile { up_LoginName : string; up_DisplayName : string }.
Record WhoIsResponse := mkWhoIs { wi_Node : option Node; wi_UserProfile : option UserProfile }.

Definition TrimSuffix (s p : string) : string :=
  match CutPrefix (rev_string s) (rev_string p) with Some t => rev_string t | None => s end.

Definition whitespace_and_separators : string := of_bytes [32; 9; 13; 10; 44; 61].

Section identity.
(** [strings.ToLower], rune by rune through the Unicode tables. *)
Context (ToLower : string → string).

Definition IsService (login : string) : bool := HasPrefix (ToLower login) "service:".

Definition valid_provider (node name : string) : bool :=
  negb (String.eqb node "" || String.eqb node "*" || ContainsAny node whitespace_and_separators ||
        negb (serviceName name)).

(** [Providers.Validate]: maps are visited in any order, with the same error. *)
Definition ValidateProviders (p : Providers) (admins : list string) : result unit :=
  if negb (forallb (λ '(node, name), valid_provider node name) (map_to_list p))
  then inr (Errorf "provider_nodes requires explicit stable node IDs mapped to lowercase service names (not user logins)")
  else if existsb (λ admin, IsService (TrimSpace admin)) admins
  then inr (Errorf "service owners cannot be admin users")
  else inl tt.

Definition AllowsForwarded (p : Providers) (login : string) : bool :=
  existsb (λ '(_, name), String.eqb login ("service:" +:+ name)%stdpp) (map_to_list p).

Definition err_whois : error := Errorf "tailscale whois response was incomplete".
Definition err_identity : error :=
  Errorf "command requires a Tailscale user identity or explicitly configured provider node".

(** [Providers.Resolve]. *)
Definition Resolve (p : Providers) (who : option WhoIsResponse) (remote sshUser : string)
  : result Actor :=
  match who with
  | Some (mkWhoIs (Some node) profile) =>
      let nodeName :=
        if nonempty (nd_ComputedName node) then TrimSuffix (nd_ComputedName node) "."
        else TrimSuffix (nd_Name node) "." in
      match p !! nd_StableID node, nonempty (nd_StableID node) with
      | Some name, true =>
          if negb (serviceName name) then inr (Errorf "invalid provider service name")
          else inl (mkActor ("service:" +:+ name)%stdpp ("Service " +:+ name)%stdpp nodeName remote
                      sshUser)
      | _, _ =>
          match profile with
          | Some u =>
              if String.eqb (up_LoginName u) "" || negb (bool_decide (nd_Tags node = [])) ||
                 IsService (up_LoginName u)
              then inr err_identity
              else inl (mkActor (up_LoginName u) (up_DisplayName u) nodeName remote sshUser)
          | None => inr err_identity
          end
      end
  | _ => inr err_whois
  end.
End identity.
