(* ===== verification/Config.v ===== *)
(** * The configuration of the control plane

    Models src/internal/config/config.go: how the environment and the command line
    become a [Config], what a valid one is, and the images and directories it
    names. *)
From S2P Require Import Prelude GoStrings Paths Model Identity.

#[local] Open Scope Z_scope.

Definition defaultDataDir : string := "/var/lib/srv".
Definition defaultHostname : string := "srv".
Definition defaultListenAddr : string := ":22".
Definition defaultNetHelperSocket : string := "/run/srv/net-helper.sock".
Definition defaultVMRunnerSocket : string := "/run/srv-vm-runner/vm-runner.sock".
Definition defaultFirecrackerBin : string := "/usr/bin/firecracker".
Definition defaultVMNetworkCIDR : string := "172.28.0.0/16".
Definition defaultZenBaseURL : string := "https://opencode.ai/zen".
Definition defaultZenGatewayPort : Z := 11434.
Definition defaultDeepSeekBaseURL : string := "https://api.deepseek.com".
Definition defaultDeepSeekGatewayPort : Z := 11436.
Definition defaultIntegrationPort : Z := 11435.
Definition defaultAmpConnectPort : Z := 3128.
Definition MaxVCPUCount : Z := 32.
Definition MinMemoryMiB : Z := 128.

Record ImageFiles := mkImageFiles { im_Kernel : string; im_Initrd : string; im_RootFS : string }.

Record Config := mkConfig {
  DataDir : string;
  Hostname : string;
  ListenAddr : string;
  TailscalePort : Z;
  TailscaleAuthKey : string;
  TailscaleClientID : string;
  TailscaleClientSecret : string;
  TailscaleControlURL : string;
  TailscaleAPIBaseURL : string;
  TailscaleAdvertiseTags : list string;
  Tailnet : string;
  AllowedUsers : list string;
  AdminUsers : list string;
  TrustedFrontends : list string;
  ProviderNodes : Providers;
  BaseKernelPath : string;
  BaseInitrdPath : string;
  BaseRootFSPath : string;
  Images : gmap string ImageFiles;
  NetHelperSocketPath : string;
  VMRunnerSocketPath : string;
  cf_FirecrackerBinary : string;
  OutboundInterface : string;
  VMNetworkCIDR : string;
  VMDNSServers : list string;
  cf_VCPUCount : Z;
  cf_MemoryMiB : Z;
  GuestAuthExpiry : Z;
  GuestReadyTimeout : Z;
  GuestAuthTags : list string;
  GuestUserAuthTags : gmap string string;
  GuestTailscaleControlURL : string;
  GuestTailscaleAuthOnce : bool;
  ExtraKernelArgs : string;
  ZenAPIKey : string;
  ZenBaseURL : string;
  ZenGatewayPort : Z;
  DeepSeekAPIKey : string;
  DeepSeekBaseURL : string;
  DeepSeekGatewayPort : Z;
  IntegrationGatewayPort : Z;
  AmpConnectGatewayPort : Z;
  ColdStorageHost : string;
  ColdStorageAfterStop : bool;
  ColdStorageRetention : Z;
  LogLevel : string;
  dataDirAbs : string;
}.

(** ** Images *)

Definition ResolveImage (c : Config) (name : string) : result ImageFiles :=
  let name := if String.eqb name "" then "arch" else name in
  match Images c !! name with
  | Some image => inl image
  | None =>
      if String.eqb name "arch"
      then inl (mkImageFiles (BaseKernelPath c) (BaseInitrdPath c) (BaseRootFSPath c))
      else inr (Errorf "unknown image; configure it in SRV_IMAGES_FILE")
  end.

(** [^[a-z0-9][a-z0-9._-]*$] *)
Definition imageName (s : string) : bool :=
  match s with
  | String c rest =>
      is_lower_alnum c &&
      all_chars (λ c, is_lower_alnum c || Ascii.eqb c "." || Ascii.eqb c "_" || Ascii.eqb c "-") rest
  | EmptyString => false
  end.

Definition absolute_image (im : ImageFiles) : bool :=
  IsAbs (im_Kernel im) && IsAbs (im_RootFS im) &&
  (String.eqb (im_Initrd im) "" || IsAbs (im_Initrd im)).

(** ** Lists of values *)

Definition splitCSV (v : string) : list string :=
  if String.eqb v "" then [] else filter (λ p, p ≠ "") (map TrimSpace (Split v ",")).

(** ** Validation *)

Definition ValidateMachineShape (vcpus memoryMiB : Z) : result unit :=
  if vcpus <? 1 then inr (Errorf "vm vcpu count must be >= 1") else
  if MaxVCPUCount <? vcpus then inr (Errorf "vm vcpu count is too large") else
  if negb (vcpus =? 1) && negb (Z.rem vcpus 2 =? 0)
  then inr (Errorf "vm vcpu count must be 1 or an even number") else
  if memoryMiB <? MinMemoryMiB then inr (Errorf "vm memory is too small") else inl tt.

Definition check (b : bool) (msg : string) : result unit := if b then inl tt else inr (Errorf msg).

Definition valid_port (p : Z) : bool := (1 <=? p) && (p <=? 65535).

Section config.
(** Package strings' Unicode tables; [url.Parse], of which the source uses the
    scheme, the host and the rendering of the cleaned URL; [time.ParseDuration],
    [json.Unmarshal], [filepath.Abs] and the file system. *)
Context (ToLower : string → string).
Context (url_Parse : string → result (string * string)).

(** [parseProviderBaseURL], whose callers in this package only use the error. *)
Definition parseProviderBaseURL (raw : string) : result unit :=
  let raw := TrimSpace raw in
  _ ← check (nonempty raw) "base url is required";
  '(scheme, host) ← url_Parse raw;
  _ ← check (String.eqb scheme "http" || String.eqb scheme "https")
        "base url must use http or https";
  check (nonempty host) "base url must include a host".

Definition Validate (c : Config) : result unit :=
  _ ← check ((0 <=? TailscalePort c) && (TailscalePort c <=? 65535))
        "tailscale port must be between 0 and 65535";
  _ ← check (negb (ColdStorageAfterStop c && String.eqb (ColdStorageHost c) ""))
        "cold-storage-after-stop requires cold-storage-host";
  _ ← check (0 <=? ColdStorageRetention c) "cold-storage-retention must not be negative";
  _ ← check (negb ((0 <? ColdStorageRetention c) && String.eqb (ColdStorageHost c) ""))
        "cold-storage-retention requires cold-storage-host";
  _ ← ValidateProviders ToLower (ProviderNodes c) (AdminUsers c);
  _ ← check (forallb (λ node, bool_decide (ProviderNodes c !! node = None)) (TrustedFrontends c))
        "provider nodes cannot also be trusted frontends";
  _ ← check (forallb (λ '(name, _), imageName name) (map_to_list (Images c)))
        "invalid image name";
  _ ← check (forallb (λ '(_, image), absolute_image image) (map_to_list (Images c)))
        "image requires absolute kernel and rootfs paths and an optional absolute initrd path";
  _ ← check (nonempty (Hostname c)) "hostname is required";
  _ ← check (nonempty (ListenAddr c)) "listen address is required";
  _ ← check (nonempty (DataDir c)) "data dir is required";
  _ ← check (nonempty (NetHelperSocketPath c)) "network helper socket path is required";
  _ ← check (nonempty (VMRunnerSocketPath c)) "vm runner socket path is required";
  _ ← ValidateMachineShape (cf_VCPUCount c) (cf_MemoryMiB c);
  _ ← check (0 <? GuestAuthExpiry c) "guest auth expiry must be positive";
  _ ← check (0 <? GuestReadyTimeout c) "guest ready timeout must be positive";
  _ ← check (valid_port (ZenGatewayPort c)) "zen gateway port must be between 1 and 65535";
  _ ← check (valid_port (DeepSeekGatewayPort c))
        "deepseek gateway port must be between 1 and 65535";
  _ ← check (valid_port (IntegrationGatewayPort c))
        "integration gateway port must be between 1 and 65535";
  _ ← check (valid_port (AmpConnectGatewayPort c))
        "amp connect gateway port must be between 1 and 65535";
  _ ← check (nonempty (TrimSpace (ZenBaseURL c))) "zen base url is required";
  _ ← parseProviderBaseURL (ZenBaseURL c);
  _ ← check (nonempty (TrimSpace (DeepSeekBaseURL c))) "deepseek base url is required";
  parseProviderBaseURL (DeepSeekBaseURL c).

(** *** Guest tags *)

Definition err_entry : error := Errorf "invalid SRV_GUEST_USER_AUTH_TAGS entry".
Definition err_duplicate : error := Errorf "duplicate SRV_GUEST_USER_AUTH_TAGS login".

Definition add_mapping (mappings : gmap string string) (entry : string)
  : result (gmap string string) :=
  let '(login, tag, found) := Cut entry "=" in
  let login := ToLower (TrimSpace login) in
  let tag := ToLower (TrimSpace tag) in
  if negb found || String.eqb login "" || ContainsByte tag "=" || negb (HasPrefix tag "tag:") ||
     (String.length tag =? String.length "tag:")%nat
  then inr err_entry
  else match mappings !! login with
       | Some _ => inr err_duplicate
       | None => inl (<[login := tag]> mappings)
       end.

Fixpoint add_mappings (mappings : gmap string string) (entries : list string)
  : result (gmap string string) :=
  match entries with
  | [] => inl mappings
  | entry :: entries' => m ← add_mapping mappings entry; add_mappings m entries'
  end.

Definition parseGuestUserAuthTags (value : string) : result (gmap string string) :=
  add_mappings ∅ (splitCSV value).

(** ** Loading *)

Context (ParseDuration : string → result Z).
Context (unmarshal_providers : string → result Providers).
Context (unmarshal_images : string → result (gmap string ImageFiles)).
Context (ReadFile : string → result string).
Context (Abs : string → result string).

(** The environment, and the flags given on the command line. *)
Record Environment := mkEnvironment {
  Getenv : string → string;
  flag_string : string → option string;
  flag_int : string → option Z;
  flag_bool : string → option bool;
}.

Definition getenv (e : Environment) (key fallback : string) : string :=
  if nonempty (Getenv e key) then Getenv e key else fallback.

(** [strconv.ParseInt(v, 10, 64)] and [strconv.Atoi]: an optional sign, digits. *)
Definition ParseInt (v : string) : result Z :=
  let '(neg, digits) :=
    match v with
    | String "-" rest => (true, rest)
    | String "+" rest => (false, rest)
    | _ => (false, v)
    end in
  match digits, decimal 0 digits with
  | String _ _, Some n =>
      let n := if (neg : bool) then - n else n in
      if (- 2 ^ 63 <=? n) && (n <? 2 ^ 63) then inl n else inr (Errorf "value out of range")
  | _, _ => inr (Errorf "invalid syntax")
  end.

Definition getenvInt (e : Environment) (key : string) (fallback : Z) : Z :=
  if String.eqb (Getenv e key) "" then fallback
  else match ParseInt (Getenv e key) with inl n => n | inr _ => fallback end.

Definition str (e : Environment) (name value : string) : string :=
  default value (flag_string e name).
Definition int (e : Environment) (name : string) (value : Z) : Z :=
  default value (flag_int e name).

(** [Load], with durations as their texts where the source parses them. *)
Definition Load (e : Environment) : result Config :=
  retention ← ParseDuration (str e "cold-storage-retention" (getenv e "SRV_COLD_STORAGE_RETENTION" "0"));
  let providerNodes := str e "provider-nodes" (Getenv e "SRV_PROVIDER_NODES") in
  providers ← (if nonempty providerNodes then unmarshal_providers providerNodes else mret ∅);
  let imagesFile := str e "images-file" (Getenv e "SRV_IMAGES_FILE") in
  images ← (if nonempty imagesFile then data ← ReadFile imagesFile; unmarshal_images data
            else mret ∅);
  userTags ← parseGuestUserAuthTags
               (str e "guest-user-auth-tags" (getenv e "SRV_GUEST_USER_AUTH_TAGS" ""));
  expiry ← ParseDuration (str e "guest-auth-expiry" (getenv e "SRV_GUEST_AUTH_EXPIRY" "15m0s"));
  ready ← ParseDuration (str e "guest-ready-timeout" (getenv e "SRV_GUEST_READY_TIMEOUT" "2m0s"));
  let dataDir := str e "data-dir" (getenv e "SRV_DATA_DIR" defaultDataDir) in
  abs ← Abs dataDir;
  let cfg := mkConfig
    dataDir
    (str e "hostname" (getenv e "SRV_HOSTNAME" defaultHostname))
    (str e "listen-addr" (getenv e "SRV_LISTEN_ADDR" defaultListenAddr))
    (int e "tailscale-port" (getenvInt e "SRV_TAILSCALE_PORT" 0))
    (str e "tailscale-auth-key" (Getenv e "TS_AUTHKEY"))
    (str e "tailscale-client-id" (getenv e "TS_CLIENT_ID" (Getenv e "TS_API_CLIENT_ID")))
    (str e "tailscale-client-secret"
       (getenv e "TS_CLIENT_SECRET" (Getenv e "TS_API_CLIENT_SECRET")))
    (str e "tailscale-control-url" (Getenv e "TS_CONTROL_URL"))
    (str e "tailscale-api-base-url"
       (getenv e "TS_API_BASE_URL" (getenv e "TS_BASE_URL" "https://api.tailscale.com")))
    (splitCSV (str e "advertise-tags" (getenv e "SRV_ADVERTISE_TAGS" "")))
    (str e "tailnet" (Getenv e "TS_TAILNET"))
    (splitCSV (str e "allowed-users" (getenv e "SRV_ALLOWED_USERS" "")))
    (splitCSV (str e "admin-users" (getenv e "SRV_ADMIN_USERS" "")))
    (splitCSV (str e "trusted-frontends" (getenv e "SRV_TRUSTED_FRONTENDS" "")))
    providers
    (str e "base-kernel" (getenv e "SRV_BASE_KERNEL" ""))
    (str e "base-initrd" (getenv e "SRV_BASE_INITRD" ""))
    (str e "base-rootfs" (getenv e "SRV_BASE_ROOTFS" ""))
    images
    (str e "net-helper-socket" (getenv e "SRV_NET_HELPER_SOCKET" defaultNetHelperSocket))
    (str e "vm-runner-socket" (getenv e "SRV_VM_RUNNER_SOCKET" defaultVMRunnerSocket))
    (str e "firecracker-bin" (getenv e "SRV_FIRECRACKER_BIN" defaultFirecrackerBin))
    (str e "outbound-interface" (getenv e "SRV_OUTBOUND_IFACE" ""))
    (str e "vm-network-cidr" (getenv e "SRV_VM_NETWORK_CIDR" defaultVMNetworkCIDR))
    (splitCSV (str e "vm-dns" (getenv e "SRV_VM_DNS" "1.1.1.1,1.0.0.1")))
    (int e "vm-vcpus" (getenvInt e "SRV_VM_VCPUS" 1))
    (int e "vm-memory-mib" (getenvInt e "SRV_VM_MEMORY_MIB" 1024))
    expiry ready
    (splitCSV (str e "guest-auth-tags" (getenv e "SRV_GUEST_AUTH_TAGS" "")))
    userTags
    (str e "guest-tailscale-control-url"
       (getenv e "SRV_GUEST_TAILSCALE_CONTROL_URL" (Getenv e "TS_CONTROL_URL")))
    true
    (str e "extra-kernel-args" (getenv e "SRV_EXTRA_KERNEL_ARGS" ""))
    (str e "zen-api-key" (getenv e "SRV_ZEN_API_KEY" ""))
    (str e "zen-base-url" (getenv e "SRV_ZEN_BASE_URL" defaultZenBaseURL))
    (int e "zen-gateway-port" (getenvInt e "SRV_ZEN_GATEWAY_PORT" defaultZenGatewayPort))
    (str e "deepseek-api-key" (getenv e "SRV_DEEPSEEK_API_KEY" ""))
    (str e "deepseek-base-url" (getenv e "SRV_DEEPSEEK_BASE_URL" defaultDeepSeekBaseURL))
    (int e "deepseek-gateway-port"
       (getenvInt e "SRV_DEEPSEEK_GATEWAY_PORT" defaultDeepSeekGatewayPort))
    (int e "integration-gateway-port"
       (getenvInt e "SRV_INTEGRATION_GATEWAY_PORT" defaultIntegrationPort))
    (int e "amp-connect-gateway-port"
       (getenvInt e "SRV_AMP_CONNECT_GATEWAY_PORT" defaultAmpConnectPort))
    (str e "cold-storage-host" (Getenv e "SRV_COLD_STORAGE_HOST"))
    (default (String.eqb (Getenv e "SRV_COLD_STORAGE_AFTER_STOP") "true")
       (flag_bool e "cold-storage-after-stop"))
    retention
    (str e "log-level" (getenv e "SRV_LOG_LEVEL" "info"))
    abs in
  _ ← Validate cfg;
  mret cfg.
End config.

(** ** Directories *)

Definition StateDir (c : Config) : string := JoinPath [dataDirAbs c; "state"].
Definition DatabasePath (c : Config) : string := JoinPath [StateDir c; "app.db"].
Definition TSNetDir (c : Config) : string := JoinPath [StateDir c; "tsnet"].
Definition HostKeyPath (c : Config) : string := JoinPath [StateDir c; "host_key"].
Definition ImagesDir (c : Config) : string := JoinPath [dataDirAbs c; "images"].
Definition cf_InstancesDir (c : Config) : string := JoinPath [dataDirAbs c; "instances"].
Definition BackupsDir (c : Config) : string := JoinPath [dataDirAbs c; "backups"].
Definition SnapshotsDir (c : Config) : string := JoinPath [dataDirAbs c; ".snapshots"].
