(* ===== verification/CommandLine.v ===== *)
(** * The command line of the control plane

    Models how src/internal/service turns the words of an SSH command into requests:
    service.go ([parseCommandRequest], [parseSize], [parseSizedInstanceArgs] and the
    parsers of the other commands), integrations.go ([parseNewArgs]), pools.go
    ([parsePoolSizeArgs]) and import_options.go.  An error keeps the constant parts of
    its message. *)
From S2P Require Import Prelude GoStrings Paths Config.

#[local] Open Scope Z_scope.

(** ** The format of the answer *)

Inductive outputFormat := outputFormatText | outputFormatJSON.

#[export] Instance outputFormat_eq_dec : EqDecision outputFormat.
Proof. solve_decision. Defined.

Record commandRequest := mkCommandRequest { cr_args : list string; cr_format : outputFormat }.

Definition parseCommandRequest (args : list string) : result commandRequest :=
  match args with
  | first :: rest =>
      if String.eqb first "--json" then
        match rest with
        | [] => inr (Errorf "usage: ssh srv [--json] <command>")
        | _ => inl (mkCommandRequest rest outputFormatJSON)
        end
      else inl (mkCommandRequest args outputFormatText)
  | [] => inl (mkCommandRequest args outputFormatText)
  end.

(** The error of a command that has no JSON form. *)
Definition maybeUnsupportedJSONCommand (command : string) (format : outputFormat) : option error :=
  if bool_decide (format = outputFormatJSON) &&
     bool_decide (command ∈ ["logs"; "export"; "import"; "snapshot"; "help"; "top"])
  then Some (Errorf (command +:+ " does not support --json")%stdpp) else None.

(** ** Sizes *)

Definition mib : Z := 1024 * 1024.

(** [strings.ToLower], as far as the result is ASCII: of the other characters only
    U+212A (the Kelvin sign) and U+0130 (a capital i with a dot) become ASCII. *)
Fixpoint ToLower (s : string) : string :=
  match s with
  | EmptyString => EmptyString
  | String c s' =>
      match s' with
      | EmptyString => String (lower c) (ToLower s')
      | String c1 t =>
          if (byte_value c =? 196) && (byte_value c1 =? 176) then String "i" (ToLower t) else
          match t with
          | EmptyString => String (lower c) (ToLower s')
          | String c2 t' =>
              if (byte_value c =? 226) && (byte_value c1 =? 132) && (byte_value c2 =? 170)
              then String "k" (ToLower t') else String (lower c) (ToLower s')
          end
      end
  end.

Definition is_digit (c : ascii) : bool := (48 <=? byte_value c) && (byte_value c <=? 57).

(** [value[:idx]] and [value[idx:]] for the digits that [value] begins with. *)
Fixpoint leading_digits (s : string) : string * string :=
  match s with
  | EmptyString => (EmptyString, EmptyString)
  | String c s' =>
      if is_digit c then let '(d, rest) := leading_digits s' in (String c d, rest)
      else (EmptyString, s)
  end.

Definition size_units (defaultUnit : Z) : list (string * Z) :=
  [("", defaultUnit); ("b", 1);
   ("k", 2 ^ 10); ("kb", 2 ^ 10); ("kib", 2 ^ 10);
   ("m", 2 ^ 20); ("mb", 2 ^ 20); ("mib", 2 ^ 20);
   ("g", 2 ^ 30); ("gb", 2 ^ 30); ("gib", 2 ^ 30);
   ("t", 2 ^ 40); ("tb", 2 ^ 40); ("tib", 2 ^ 40)].

Definition unit_multiplier (defaultUnit : Z) (unit_name : string) : option Z :=
  snd ∘ snd <$> list_find (λ u, fst u = unit_name) (size_units defaultUnit).

Definition parseSize (value : string) (defaultUnit : Z) : result Z :=
  let value := TrimSpace value in
  if String.eqb value "" then inr (Errorf "size cannot be empty") else
  let '(digits, rest) := leading_digits value in
  if String.eqb digits "" then inr (Errorf "invalid size") else
  number ← ParseInt digits;
  if number <=? 0 then inr (Errorf "size must be positive") else
  match unit_multiplier defaultUnit (ToLower (TrimSpace rest)) with
  | None => inr (Errorf "unknown size unit")
  | Some multiplier =>
      if max_int64 `quot` multiplier <? number then inr (Errorf "size is too large")
      else inl (int64 (number * multiplier))
  end.

Definition bytesToMiBCeil (sizeBytes : Z) : Z := int64 (int64 (sizeBytes + mib) - 1) `quot` mib.

(** ** Options *)

Record CreateOptions := mkCreateOptions {
  co_Image : string;
  co_Template : string;
  co_Kind : string;
  co_VCPUCount : Z;
  co_MemoryMiB : Z;
  co_MemoryPoolName : string;
  co_FixedMemory : bool;
  co_RootFSSizeBytes : Z;
}.

#[export] Instance CreateOptions_eq_dec : EqDecision CreateOptions.
Proof. solve_decision. Defined.

Definition no_options : CreateOptions := mkCreateOptions "" "" "" 0 0 "" false 0.

Definition set_Image v o := mkCreateOptions v (co_Template o) (co_Kind o) (co_VCPUCount o) (co_MemoryMiB o) (co_MemoryPoolName o) (co_FixedMemory o) (co_RootFSSizeBytes o).
Definition set_Template v o := mkCreateOptions (co_Image o) v (co_Kind o) (co_VCPUCount o) (co_MemoryMiB o) (co_MemoryPoolName o) (co_FixedMemory o) (co_RootFSSizeBytes o).
Definition set_VCPUCount v o := mkCreateOptions (co_Image o) (co_Template o) (co_Kind o) v (co_MemoryMiB o) (co_MemoryPoolName o) (co_FixedMemory o) (co_RootFSSizeBytes o).
Definition set_MemoryMiB v o := mkCreateOptions (co_Image o) (co_Template o) (co_Kind o) (co_VCPUCount o) v (co_MemoryPoolName o) (co_FixedMemory o) (co_RootFSSizeBytes o).
Definition set_MemoryPoolName v o := mkCreateOptions (co_Image o) (co_Template o) (co_Kind o) (co_VCPUCount o) (co_MemoryMiB o) v (co_FixedMemory o) (co_RootFSSizeBytes o).
Definition set_FixedMemory v o := mkCreateOptions (co_Image o) (co_Template o) (co_Kind o) (co_VCPUCount o) (co_MemoryMiB o) (co_MemoryPoolName o) v (co_RootFSSizeBytes o).
Definition set_RootFSSizeBytes v o := mkCreateOptions (co_Image o) (co_Template o) (co_Kind o) (co_VCPUCount o) (co_MemoryMiB o) (co_MemoryPoolName o) (co_FixedMemory o) v.

(** The message of a usage error ends with the usage. *)
Definition usage_error (msg usage : string) : error := Errorf (Join [msg; usage] (String (byte 10) "")).

(** The loop the option parsers share: the words up to the end, the name, and options
    [--key=value] or [--key value].  [flag] are the options without a value. *)
Section options.
Context {O : Type} (usage : string).
Context (flag : string → bool → O → option (result O)).
Context (option_value : string → string → O → result O).

Fixpoint parse_args (args : list string) (name : string) (o : O) : result (string * O) :=
  match args with
  | [] => inl (name, o)
  | arg :: rest =>
      if negb (HasPrefix arg "--") then
        if nonempty name then inr (usage_error "unexpected argument" usage)
        else parse_args rest arg o
      else
        let '(key, value, hasValue) := Cut arg "=" in
        match flag key hasValue o with
        | Some r => o ← r; parse_args rest name o
        | None =>
            if (hasValue : bool) then o ← option_value key value o; parse_args rest name o
            else match rest with
                 | [] => inr (usage_error ("missing value for " +:+ key)%stdpp usage)
                 | value :: rest' => o ← option_value key value o; parse_args rest' name o
                 end
        end
  end.
End options.

(** *** Machine options *)

(** The options read so far; [integrations] and [seenImage] are those of [new]. *)
Record parsed_options := mkParsed {
  opts : CreateOptions;
  integrations : list string;
  seenCPUs : bool;
  seenRAM : bool;
  seenPool : bool;
  seenRootFSSize : bool;
  seenImage : bool;
}.

Definition nothing_parsed : parsed_options := mkParsed no_options [] false false false false false.

Definition with_opts (f : CreateOptions → CreateOptions) (p : parsed_options) : parsed_options :=
  mkParsed (f (opts p)) (integrations p) (seenCPUs p) (seenRAM p) (seenPool p) (seenRootFSSize p) (seenImage p).
Definition add_integration (name : string) (p : parsed_options) : parsed_options :=
  mkParsed (opts p) (integrations p ++ [name]) (seenCPUs p) (seenRAM p) (seenPool p) (seenRootFSSize p) (seenImage p).
Definition see_CPUs p := mkParsed (opts p) (integrations p) true (seenRAM p) (seenPool p) (seenRootFSSize p) (seenImage p).
Definition see_RAM p := mkParsed (opts p) (integrations p) (seenCPUs p) true (seenPool p) (seenRootFSSize p) (seenImage p).
Definition see_Pool p := mkParsed (opts p) (integrations p) (seenCPUs p) (seenRAM p) true (seenRootFSSize p) (seenImage p).
Definition see_RootFSSize p := mkParsed (opts p) (integrations p) (seenCPUs p) (seenRAM p) (seenPool p) true (seenImage p).
Definition see_Image p := mkParsed (opts p) (integrations p) (seenCPUs p) (seenRAM p) (seenPool p) (seenRootFSSize p) true.

Definition once (seen : bool) (key usage : string) : result unit :=
  if seen then inr (usage_error (key +:+ " specified more than once")%stdpp usage) else inl tt.

(** An error while a value is read. *)
Definition parse_value {A} (key usage : string) (r : result A) : result A :=
  match r with
  | inl a => inl a
  | inr e => inr (usage_error (Join ["parse "; key; ": "; error_text e] "") usage)
  end.

Definition cpus_option (usage key value : string) (p : parsed_options) : result parsed_options :=
  _ ← once (seenCPUs p) key usage;
  n ← parse_value key usage (ParseInt value);
  inl (with_opts (set_VCPUCount n) (see_CPUs p)).

Definition ram_option (usage key value : string) (p : parsed_options) : result parsed_options :=
  _ ← once (seenRAM p) key usage;
  n ← parse_value key usage (parseSize value mib);
  inl (with_opts (set_MemoryMiB (bytesToMiBCeil n)) (see_RAM p)).

Definition rootfs_option (usage key value : string) (p : parsed_options) : result parsed_options :=
  _ ← once (seenRootFSSize p) key usage;
  n ← parse_value key usage (parseSize value mib);
  inl (with_opts (set_RootFSSizeBytes n) (see_RootFSSize p)).

(** *** [resize] *)

Definition resizeUsage : string :=
  "usage: resize <name> [--cpus N] [--ram SIZE] [--pool NAME | --fixed-memory] [--rootfs-size SIZE]".

Definition fixed_memory_flag (usage key : string) (hasValue : bool) (p : parsed_options)
  : option (result parsed_options) :=
  if negb (String.eqb key "--fixed-memory") then None else Some
    (if hasValue then inr (usage_error (key +:+ " does not take a value")%stdpp usage)
     else if co_FixedMemory (opts p)
          then inr (usage_error (key +:+ " specified more than once")%stdpp usage)
          else inl (with_opts (set_FixedMemory true) p)).

Definition sized_option (usage key value : string) (p : parsed_options) : result parsed_options :=
  if String.eqb key "--cpus" then cpus_option usage key value p
  else if String.eqb key "--ram" then ram_option usage key value p
  else if String.eqb key "--pool" then
    _ ← once (seenPool p) key usage;
    let pool := TrimSpace value in
    if String.eqb pool "" then inr (usage_error (key +:+ " cannot be empty")%stdpp usage)
    else inl (with_opts (set_MemoryPoolName pool) (see_Pool p))
  else if String.eqb key "--rootfs-size" then rootfs_option usage key value p
  else inr (usage_error "unknown option" usage).

Definition parseSizedInstanceArgs (args : list string) (usage : string) : result (string * CreateOptions) :=
  match args with
  | _ :: arg :: words =>
      '(name, p) ← parse_args usage (fixed_memory_flag usage) (sized_option usage) (arg :: words) "" nothing_parsed;
      if negb (nonempty name) then inr (Errorf usage) else inl (name, opts p)
  | _ => inr (Errorf usage)
  end.

Definition parseResizeArgs (args : list string) : result (string * CreateOptions) :=
  '(name, o) ← parseSizedInstanceArgs args resizeUsage;
  if bool_decide (o = no_options) then
    inr (usage_error "resize requires at least one of --cpus, --ram, --pool, --fixed-memory, or --rootfs-size"
           resizeUsage)
  else if co_FixedMemory o && nonempty (co_MemoryPoolName o)
  then inr (Errorf "--pool and --fixed-memory are mutually exclusive")
  else inl (name, o).

(** *** [new] *)

Definition newUsage : string :=
  "usage: new <name> [--image NAME] [--template ID] [--cpus N] [--ram SIZE] [--pool NAME] [--rootfs-size SIZE] [--integration NAME]".

Definition new_option (key value : string) (p : parsed_options) : result parsed_options :=
  if String.eqb key "--image" then
    if seenImage p || String.eqb (TrimSpace value) ""
    then inr (usage_error "--image requires one non-empty image name" newUsage)
    else inl (with_opts (set_Image value) (see_Image p))
  else if String.eqb key "--template" then
    if nonempty (co_Template (opts p)) || negb (validName value)
    then inr (Errorf "--template requires one valid project template ID")
    else inl (with_opts (set_Template value) p)
  else if String.eqb key "--cpus" then cpus_option newUsage key value p
  else if String.eqb key "--ram" then ram_option newUsage key value p
  else if String.eqb key "--pool" then
    _ ← once (seenPool p) key newUsage;
    let poolName := TrimSpace value in
    if negb (validName poolName) then inr (usage_error "invalid memory pool name" newUsage)
    else inl (with_opts (set_MemoryPoolName poolName) (see_Pool p))
  else if String.eqb key "--rootfs-size" then rootfs_option newUsage key value p
  else if String.eqb key "--integration" then
    let integrationName := TrimSpace value in
    if negb (validName integrationName) then inr (usage_error "invalid integration name" newUsage)
    else inl (add_integration integrationName p)
  else inr (usage_error "unknown option" newUsage).

Definition no_flag {O} (_ : string) (_ : bool) (_ : O) : option (result O) := None.

Definition parseNewArgs (args : list string) : result (string * CreateOptions * list string) :=
  match args with
  | _ :: arg :: words =>
      '(name, p) ← parse_args newUsage no_flag new_option (arg :: words) "" nothing_parsed;
      if negb (nonempty name) then inr (Errorf newUsage)
      else if nonempty (co_MemoryPoolName (opts p)) && negb (seenRAM p)
      then inr (usage_error "new --pool requires --ram" newUsage)
      else inl (name, opts p, integrations p)
  | _ => inr (Errorf newUsage)
  end.

(** *** [pool create], [pool resize] *)

Record pool_size := mkPoolSize { ps_size : Z; ps_seen : bool }.

Definition pool_size_option (usage key value : string) (p : pool_size) : result pool_size :=
  if String.eqb key "--size" then
    _ ← once (ps_seen p) key usage;
    n ← parse_value key usage (parseSize value mib);
    inl (mkPoolSize n true)
  else inr (usage_error "unknown option" usage).

Definition parsePoolSizeArgs (args : list string) (usage : string) : result (string * Z) :=
  if (length args <? 4)%nat then inr (Errorf usage) else
  '(name, p) ← parse_args usage no_flag (pool_size_option usage) (drop 2 args) "" (mkPoolSize 0 false);
  if negb (nonempty name) || negb (ps_seen p) then inr (Errorf usage) else inl (name, ps_size p).

(** ** The other commands *)

Definition backupUsage : string := "usage: backup <create|list> <name> | backup delete <name> <backup-id>".
Definition restoreUsage : string := "usage: restore <name> <backup-id>".
Definition exportUsage : string := "usage: export <name>".
Definition importUsage : string := "usage: import [--pool TARGET_POOL | --fixed-memory]".
Definition logsUsage : string := "usage: logs [-f|--follow] <name> [serial|firecracker]".
Definition topUsage : string := "usage: top [--interval DURATION]".

(** The action, the instance and the backup. *)
Definition parseBackupArgs (args : list string) : result (string * string * string) :=
  match args with
  | _ :: action :: rest =>
      if String.eqb action "create" || String.eqb action "list" then
        match rest with [name] => inl (action, name, "") | _ => inr (Errorf backupUsage) end
      else if String.eqb action "delete" then
        match rest with [name; backup] => inl (action, name, backup) | _ => inr (Errorf backupUsage) end
      else inr (usage_error "unknown backup action" backupUsage)
  | _ => inr (Errorf backupUsage)
  end.

Definition parseRestoreArgs (args : list string) : result (string * string) :=
  match args with
  | [_; name; backup] =>
      if String.eqb (TrimSpace backup) "" then inr (Errorf restoreUsage) else inl (name, backup)
  | _ => inr (Errorf restoreUsage)
  end.

Definition parseExportArgs (args : list string) : result string :=
  match args with
  | [_; name] => if String.eqb (TrimSpace name) "" then inr (Errorf exportUsage) else inl name
  | _ => inr (Errorf exportUsage)
  end.

(** [provision.ImportOptions], as the command line can give them. *)
Record ImportOptions := mkImportOptions { io_MemoryPoolName : string; io_FixedMemory : bool }.

Definition validate_import (o : ImportOptions) (pooledSource : bool) : result unit :=
  if nonempty (io_MemoryPoolName o) && io_FixedMemory o
  then inr (Errorf "--pool and --fixed-memory are mutually exclusive")
  else if pooledSource && String.eqb (io_MemoryPoolName o) "" && negb (io_FixedMemory o)
  then inr (Errorf "pooled source requires --pool TARGET_POOL or --fixed-memory")
  else inl tt.

Fixpoint import_options (args : list string) (seen : bool) (o : ImportOptions) : result ImportOptions :=
  match args with
  | [] => _ ← validate_import o false; inl o
  | arg :: rest =>
      if seen then inr (Errorf "memory policy may only be specified once")
      else if String.eqb arg "--fixed-memory"
      then import_options rest true (mkImportOptions (io_MemoryPoolName o) true)
      else if String.eqb arg "--pool" then
        match rest with
        | pool :: rest' =>
            if String.eqb (TrimSpace pool) "" || HasPrefix pool "--"
            then inr (Errorf "--pool requires a target pool name")
            else import_options rest' true (mkImportOptions pool (io_FixedMemory o))
        | [] => inr (Errorf "--pool requires a target pool name")
        end
      else inr (Errorf (importUsage +:+ ": unknown option")%stdpp)
  end.

Definition parseImportOptions (args : list string) : result ImportOptions :=
  match args with
  | cmd :: rest =>
      if String.eqb cmd "import" then import_options rest false (mkImportOptions "" false)
      else inr (Errorf importUsage)
  | [] => inr (Errorf importUsage)
  end.

Inductive logTarget := logTargetAll | logTargetSerial | logTargetFirecracker.

#[export] Instance logTarget_eq_dec : EqDecision logTarget.
Proof. solve_decision. Defined.

Record logsRequest := mkLogsRequest { lg_name : string; lg_target : logTarget; lg_follow : bool }.

Definition set_target (t : logTarget) (req : logsRequest) : result logsRequest :=
  if bool_decide (lg_target req = logTargetAll)
  then inl (mkLogsRequest (lg_name req) t (lg_follow req))
  else inr (usage_error "unexpected argument" logsUsage).

Definition logs_arg (req : logsRequest) (arg : string) : result logsRequest :=
  if String.eqb arg "-f" || String.eqb arg "--follow" then
    if lg_follow req then inr (usage_error (arg +:+ " specified more than once")%stdpp logsUsage)
    else inl (mkLogsRequest (lg_name req) (lg_target req) true)
  else if String.eqb arg "serial" then set_target logTargetSerial req
  else if String.eqb arg "firecracker" then set_target logTargetFirecracker req
  else if HasPrefix arg "-" then inr (usage_error "unknown option" logsUsage)
  else if nonempty (lg_name req) then inr (usage_error "unexpected argument" logsUsage)
  else inl (mkLogsRequest arg (lg_target req) (lg_follow req)).

Definition parseLogsArgs (args : list string) : result logsRequest :=
  match args with
  | _ :: arg :: rest =>
      req ← foldl (λ r arg, req ← r; logs_arg req arg) (inl (mkLogsRequest "" logTargetAll false)) (arg :: rest);
      if String.eqb (lg_name req) "" then inr (Errorf logsUsage)
      else if lg_follow req && bool_decide (lg_target req = logTargetAll)
      then inr (usage_error "follow requires an explicit log target" logsUsage)
      else inl req
  | _ => inr (Errorf logsUsage)
  end.

(** *** [top]: durations are nanoseconds in 64 bits *)

Section top.
Context (ParseDuration : string → result Z).

Definition second : Z := 10 ^ 9.
Definition millisecond : Z := 10 ^ 6.
Definition defaultTopInterval : Z := second.

Definition parseTopInterval (raw : string) : result Z :=
  if all_chars is_digit raw then seconds ← ParseInt raw; inl (int64 (seconds * second))
  else ParseDuration raw.

Fixpoint top_args (args : list string) (interval : Z) : result Z :=
  match args with
  | [] =>
      if interval <? 200 * millisecond then inr (usage_error "interval must be at least 200ms" topUsage)
      else inl interval
  | arg :: rest =>
      if String.eqb arg "--interval" then
        match rest with
        | [] => inr (Errorf topUsage)
        | raw :: rest' =>
            match parseTopInterval raw with
            | inl interval => top_args rest' interval
            | inr _ => inr (usage_error "invalid interval" topUsage)
            end
        end
      else inr (usage_error "unexpected argument" topUsage)
  end.

Definition parseTopArgs (args : list string) : result Z := top_args (drop 1 args) defaultTopInterval.
End top.
