(* ===== verification/ConfigSpec.v ===== *)
(** * Valid configurations and identities *)
From S2P Require Import Prelude GoStrings Paths Model Identity Config.

#[local] Open Scope Z_scope.

(** ** Configurations *)

Definition machine_shape (vcpus memoryMiB : Z) : Prop :=
  (vcpus = 1 ∨ (2 <= vcpus <= 32 ∧ Z.Even vcpus)) ∧ 128 <= memoryMiB.

Lemma rem_even n : 0 <= n → Z.rem n 2 = 0 ↔ Z.Even n.
Proof.
  intros Hn. rewrite Z.rem_mod_nonneg by lia. split.
  - intros H. exists (n / 2). dlia.
  - intros [k ->]. rewrite Z.mul_comm. apply Z_mod_mult.
Qed.

Lemma ValidateMachineShape_spec vcpus memoryMiB :
  ValidateMachineShape vcpus memoryMiB = inl tt ↔ machine_shape vcpus memoryMiB.
Proof.
  unfold ValidateMachineShape, machine_shape, MaxVCPUCount, MinMemoryMiB.
  destruct (vcpus <? 1) eqn:H1; [apply Z.ltb_lt in H1; split; [done|intros [? _]; lia]|apply Z.ltb_ge in H1].
  destruct (32 <? vcpus) eqn:H2; [apply Z.ltb_lt in H2; split; [done|intros [? _]; lia]|apply Z.ltb_ge in H2].
  destruct (Z.eqb_spec vcpus 1) as [->|Hne]; simpl.
  - destruct (memoryMiB <? 128) eqn:H3; [apply Z.ltb_lt in H3|apply Z.ltb_ge in H3].
    + split; [done|intros [_ ?]; lia].
    + split; [intros _; split; [by left|done]|done].
  - pose proof (rem_even vcpus ltac:(lia)) as Hev. destruct (Z.eqb_spec (Z.rem vcpus 2) 0) as [H|H]; simpl.
    + apply Hev in H. destruct (memoryMiB <? 128) eqn:H3; [apply Z.ltb_lt in H3|apply Z.ltb_ge in H3].
      * split; [done|intros [_ ?]; lia].
      * split; [|done]. intros _. split; [right; split; [lia|done]|done].
    + split; [done|]. intros [[?|[_ He]] _]; [lia|]. by apply Hev in He.
Qed.

Section valid.
Context (ToLower : string → string) (url_Parse : string → result (string * string)).

(** An http or https URL with a host. *)
Definition base_url (raw : string) : Prop :=
  TrimSpace raw ≠ "" ∧
  ∃ scheme host, url_Parse (TrimSpace raw) = inl (scheme, host) ∧
    (scheme = "http" ∨ scheme = "https") ∧ host ≠ "".

Definition port (p : Z) : Prop := 1 <= p <= 65535.

(** What the source means by a valid configuration. *)
Record valid_config (c : Config) : Prop := {
  vc_tailscale_port : 0 <= TailscalePort c <= 65535;
  vc_cold_after_stop : ColdStorageAfterStop c = true → ColdStorageHost c ≠ "";
  vc_retention : 0 <= ColdStorageRetention c;
  vc_retention_host : 0 < ColdStorageRetention c → ColdStorageHost c ≠ "";
  vc_providers : ∀ node name, ProviderNodes c !! node = Some name → valid_provider node name = true;
  vc_admins : ∀ admin, admin ∈ AdminUsers c → IsService ToLower (TrimSpace admin) = false;
  vc_frontends : ∀ node, node ∈ TrustedFrontends c → ProviderNodes c !! node = None;
  vc_images : ∀ name image, Images c !! name = Some image →
    imageName name = true ∧ absolute_image image = true;
  vc_names : Hostname c ≠ "" ∧ ListenAddr c ≠ "" ∧ DataDir c ≠ "" ∧
    NetHelperSocketPath c ≠ "" ∧ VMRunnerSocketPath c ≠ "";
  vc_shape : machine_shape (cf_VCPUCount c) (cf_MemoryMiB c);
  vc_timeouts : 0 < GuestAuthExpiry c ∧ 0 < GuestReadyTimeout c;
  vc_ports : port (ZenGatewayPort c) ∧ port (DeepSeekGatewayPort c) ∧
    port (IntegrationGatewayPort c) ∧ port (AmpConnectGatewayPort c);
  vc_urls : base_url (ZenBaseURL c) ∧ base_url (DeepSeekBaseURL c);
}.

Lemma check_bind {A} b msg (k : unit → result A) v :
  (check b msg ≫= k) = inl v ↔ b = true ∧ k tt = inl v.
Proof. destruct b; cbn; [tauto|]. split; [done|by intros []]. Qed.

Lemma check_inl b msg : check b msg = inl tt ↔ b = true.
Proof. by destruct b. Qed.

Lemma unit_bind {A} (r : result unit) (k : unit → result A) v :
  (r ≫= k) = inl v ↔ r = inl tt ∧ k tt = inl v.
Proof. destruct r as [[]|e]; cbn; [tauto|]. split; [done|by intros []]. Qed.

Lemma forallb_map {V} (f : string → V → bool) (m : gmap string V) :
  forallb (λ '(k, v), f k v) (map_to_list m) = true ↔ ∀ k v, m !! k = Some v → f k v = true.
Proof.
  rewrite forallb_forall. split.
  - intros H k v Hk. apply (H (k, v)), list_elem_of_In. by apply elem_of_map_to_list.
  - intros H [k v] Hin. apply H, elem_of_map_to_list. by apply list_elem_of_In.
Qed.

Lemma ValidateProviders_spec p admins :
  ValidateProviders ToLower p admins = inl tt ↔
  (∀ node name, p !! node = Some name → valid_provider node name = true) ∧
  (∀ admin, admin ∈ admins → IsService ToLower (TrimSpace admin) = false).
Proof.
  unfold ValidateProviders. rewrite <- (forallb_map valid_provider).
  destruct (forallb _ _); simpl; [|by split; [|intros []]].
  destruct (existsb _ _) eqn:He.
  - apply existsb_exists in He as (a & Hin & Ha). split; [done|]. intros [_ H].
    apply list_elem_of_In in Hin. rewrite H in Ha; done.
  - split; [|done]. intros _. split; [done|]. intros a Hin.
    destruct (IsService _ _) eqn:Ha; [|done].
    assert (existsb (λ admin, IsService ToLower (TrimSpace admin)) admins = true) as Hc; [|congruence].
    apply existsb_exists. exists a. split; [by apply list_elem_of_In|done].
Qed.

Lemma base_url_spec raw :
  nonempty (TrimSpace raw) = true ∧ parseProviderBaseURL url_Parse raw = inl tt ↔ base_url raw.
Proof.
  unfold parseProviderBaseURL, base_url. rewrite nonempty_spec. split.
  - intros [Hne H]. split; [done|]. apply check_bind in H as [_ H].
    destruct (url_Parse (TrimSpace raw)) as [[scheme host]|e]; cbn in H; [|done].
    apply check_bind in H as [Hs Hh]. apply check_inl, nonempty_spec in Hh.
    exists scheme, host. split; [done|]. split; [|done].
    apply orb_true_iff in Hs as [Hs%String.eqb_eq|Hs%String.eqb_eq]; [by left|by right].
  - intros (Hne & scheme & host & Hp & Hs & Hh). split; [done|].
    apply check_bind. split; [by apply nonempty_spec|]. rewrite Hp. cbn.
    apply check_bind. split; [by destruct Hs as [-> | ->]|]. by apply check_inl, nonempty_spec.
Qed.

Lemma valid_port_spec p : valid_port p = true ↔ port p.
Proof. unfold valid_port, port. rewrite andb_true_iff, !Z.leb_le. done. Qed.

Lemma Validate_spec c : Validate ToLower url_Parse c = inl tt ↔ valid_config c.
Proof.
  unfold Validate. repeat first [rewrite check_bind | rewrite unit_bind].
  rewrite ValidateProviders_spec, ValidateMachineShape_spec.
  rewrite (forallb_map (λ name (_ : ImageFiles), imageName name)),
    (forallb_map (λ (_ : string) image, absolute_image image)).
  rewrite !andb_true_iff, !Z.leb_le, !Z.ltb_lt, !negb_true_iff, !andb_false_iff, !nonempty_spec,
    !valid_port_spec, forallb_forall, !Z.ltb_ge, !String.eqb_neq.
  pose proof (base_url_spec (ZenBaseURL c)) as Hz.
  pose proof (base_url_spec (DeepSeekBaseURL c)) as Hd. rewrite nonempty_spec in Hz, Hd.
  split.
  - intros (H1 & H2 & H3 & H4 & [H5 H5'] & H6 & H7 & H8 & H9 & H10 & H11 & H12 & H13 & H14 & H15 &
            H16 & H17 & H18 & H19 & H20 & H21 & H22 & H23 & H24).
    split; try done; try tauto.
    + intros Ha. destruct H2 as [H2|H2]; congruence.
    + intros Hr. destruct H4 as [H4|H4]; [lia|done].
    + intros node Hin. specialize (H6 node). apply bool_decide_eq_true in H6; [done|].
      by apply list_elem_of_In.
    + intros name image Hi. split; [by eapply H7|by eapply H8].
  - intros []. repeat split; unfold machine_shape, port in *; try tauto; try lia.
    + destruct (ColdStorageAfterStop c); [right; auto|by left].
    + destruct (Z.le_gt_cases (ColdStorageRetention c) 0); [by left|right; apply vc_retention_host0; lia].
    + intros node Hin. apply bool_decide_eq_true, vc_frontends0. by apply list_elem_of_In.
    + intros name image Hi. by destruct (vc_images0 name image Hi).
    + intros name image Hi. by destruct (vc_images0 name image Hi).
Qed.

(** [Config.Validate] accepts exactly the valid configurations: one CPU or an even
    number up to 32, ports in range, provider nodes disjoint from trusted
    frontends, no service among the administrators, images with absolute paths,
    provider URLs with a host. *)
Theorem validate_accepts_exactly c : Validate ToLower url_Parse c = inl tt ↔ valid_config c.
Proof. apply Validate_spec. Qed.

(** Whatever the environment and the command line say, [Load] returns only valid
    configurations. *)
Theorem load_returns_valid ParseDuration providers images ReadFile Abs e c :
  Load ToLower url_Parse ParseDuration providers images ReadFile Abs e = inl c → valid_config c.
Proof.
  unfold Load. intros H. apply Validate_spec. revert H. cbv zeta.
  repeat match goal with
  | |- (?r ≫= _) = inl _ → _ => destruct r eqn:?; cbn [mbind result_bind]; [|done]
  end.
  intros H. injection H as <-. by destruct u.
Qed.
End valid.

(** *** A concrete environment *)

Definition empty_environment : Environment :=
  mkEnvironment (λ _, "") (λ _, None) (λ _, None) (λ _, None).

(** Stand-ins for the parsers of the standard library, exact on the defaults. *)
Definition demo_url (s : string) : result (string * string) :=
  match CutPrefix s "https://" with
  | Some host => inl ("https", host)
  | None => inr (Errorf "unsupported URL")
  end.
Definition demo_duration (s : string) : result Z :=
  if String.eqb s "15m0s" then inl 900000000000 else
  if String.eqb s "2m0s" then inl 120000000000 else inl 0.

Definition demo_load : result Config :=
  Load (map_string lower) demo_url demo_duration (λ _, inr ErrIO) (λ _, inr ErrIO) (λ _, inr ErrIO)
    (λ s, inl s) empty_environment.

Lemma load_returns_valid_witness :
  match demo_load with
  | inl c => valid_config (map_string lower) demo_url c ∧ DataDir c = "/var/lib/srv"
  | inr _ => False
  end.
Proof.
  destruct demo_load as [c|e] eqn:Hl; [|by vm_compute in Hl]. split.
  - exact (load_returns_valid (map_string lower) demo_url demo_duration (λ _, inr ErrIO)
             (λ _, inr ErrIO) (λ _, inr ErrIO) (λ s, inl s) empty_environment c Hl).
  - vm_compute in Hl. by injection Hl as <-.
Defined.

(** ** Guest tags *)

Section tags.
Context (ToLower : string → string).

Definition guest_tag (tag : string) : Prop :=
  HasPrefix tag "tag:" = true ∧ (4 < String.length tag)%nat ∧ ContainsByte tag "=" = false.

(** The login and tag an entry maps. *)
Definition entry_mapping (entry : string) : string * string :=
  let '(login, tag, _) := Cut entry "=" in (ToLower (TrimSpace login), ToLower (TrimSpace tag)).

Lemma HasPrefix_length s p : HasPrefix s p = true → (String.length p <= String.length s)%nat.
Proof.
  unfold HasPrefix. revert s. induction p as [|c p IH]; intros s; simpl; [lia|].
  destruct s as [|c' s]; simpl; [done|]. destruct (Ascii.eqb c c'); [|done].
  intros H. apply IH in H. lia.
Qed.

Lemma add_mapping_spec m entry m' :
  add_mapping ToLower m entry = inl m' →
  let '(login, tag) := entry_mapping entry in
  login ≠ "" ∧ guest_tag tag ∧ m !! login = None ∧ m' = <[login := tag]> m.
Proof.
  unfold add_mapping, entry_mapping. destruct (Cut entry "=") as [[login tag] found].
  set (l := ToLower (TrimSpace login)). set (t := ToLower (TrimSpace tag)).
  destruct (negb found || _ || _ || _ || _) eqn:Hbad; [done|].
  apply orb_false_iff in Hbad as [[[[_ Hl]%orb_false_iff Ht]%orb_false_iff Hp]%orb_false_iff Hlen].
  destruct (m !! l) eqn:Hm; [done|]. intros [= <-].
  split; [by apply String.eqb_neq|]. split; [|done].
  apply negb_false_iff in Hp. pose proof (HasPrefix_length t "tag:" Hp) as Hle. simpl in Hle.
  apply Nat.eqb_neq in Hlen. simpl in Hlen. unfold guest_tag. repeat split; [done|lia|done].
Qed.

Lemma add_mappings_spec entries : ∀ m m',
  add_mappings ToLower m entries = inl m' →
  Forall (λ e, (entry_mapping e).1 ≠ "" ∧ guest_tag (entry_mapping e).2 ∧
               m' !! (entry_mapping e).1 = Some (entry_mapping e).2) entries ∧
  m ⊆ m' ∧ size m' = (size m + length entries)%nat ∧
  (∀ login tag, m' !! login = Some tag → m !! login = Some tag ∨
     ∃ e, e ∈ entries ∧ entry_mapping e = (login, tag)).
Proof.
  induction entries as [|e entries IH]; intros m m'; simpl.
  - intros [= <-]. split; [done|]. split; [done|]. split; [lia|]. by left.
  - destruct (add_mapping ToLower m e) as [m1|] eqn:H1; cbn [mbind result_bind]; [|done].
    intros H. apply add_mapping_spec in H1. destruct (entry_mapping e) as [l t] eqn:He.
    destruct H1 as (Hl & Ht & Hnone & ->). apply IH in H as (Hall & Hsub & Hsize & Hfrom).
    split; [|split; [|split]].
    + constructor; [|done]. rewrite He. split; [done|]. split; [done|].
      eapply lookup_weaken; [|done]. apply lookup_insert_eq.
    + etransitivity; [|done]. by apply insert_subseteq.
    + rewrite Hsize, map_size_insert_None by done. lia.
    + intros l' t' Hlt. destruct (Hfrom l' t' Hlt) as [Hin|(e' & He' & Hm)].
      * apply lookup_insert_Some in Hin as [[<- <-]|[_ Hin]]; [right|by left].
        exists e. split; [left|done].
      * right. exists e'. split; [by right|done].
Qed.

(** The per-user guest tags: every entry is well formed, maps its login to its
    tag, none overrides another, and nothing else is mapped. *)
Theorem guest_tags_exact value m :
  parseGuestUserAuthTags ToLower value = inl m →
  size m = length (splitCSV value) ∧
  (∀ login tag, m !! login = Some tag ↔
     ∃ e, e ∈ splitCSV value ∧ entry_mapping e = (login, tag)) ∧
  (∀ login tag, m !! login = Some tag → login ≠ "" ∧ guest_tag tag).
Proof.
  intros H. apply add_mappings_spec in H as (Hall & _ & Hsize & Hfrom).
  rewrite list.Forall_forall in Hall. rewrite map_size_empty in Hsize.
  assert (Hiff : ∀ login tag, m !! login = Some tag ↔
     ∃ e, e ∈ splitCSV value ∧ entry_mapping e = (login, tag)).
  { intros login tag. split.
    - intros Hm. destruct (Hfrom login tag Hm) as [Hn|He]; [by rewrite lookup_empty in Hn|done].
    - intros (e & Hin & He). destruct (Hall e Hin) as (_ & _ & Hm). by rewrite He in Hm. }
  split; [done|]. split; [done|]. intros login tag Hm. apply Hiff in Hm as (e & Hin & He).
  destruct (Hall e Hin) as (Hl & Ht & _). rewrite He in *. by split.
Qed.
End tags.

Lemma guest_tags_exact_witness :
  ∃ m, parseGuestUserAuthTags (map_string lower) "Ann@example.com = tag:Dev,bob@example.com=tag:ops"
         = inl m ∧ size m = 2%nat ∧ m !! "ann@example.com" = Some "tag:dev".
Proof.
  destruct (parseGuestUserAuthTags (map_string lower)
              "Ann@example.com = tag:Dev,bob@example.com=tag:ops") as [m|] eqn:Hm;
    [|by vm_compute in Hm].
  exists m. split; [done|]. destruct (guest_tags_exact (map_string lower) _ m Hm) as (Hs & Hin & _).
  split; [rewrite Hs; vm_compute; reflexivity|]. apply Hin.
  exists "Ann@example.com = tag:Dev". split; [|vm_compute; reflexivity].
  apply list_elem_of_In. left. vm_compute. reflexivity.
Defined.

(** ** Identities *)

Section identity.
Context (ToLower : string → string).

(** An actor is a service only through a configured provider node, and every
    backend that configured the node accepts the forwarded name; any other actor
    is the untagged human owner of the peer. No login name a user can choose is
    taken for a service, given that [ToLower] keeps a lower-case prefix. *)
Theorem service_identity_unforgeable p node profile remote sshUser a :
  (∀ s, HasPrefix s "service:" = true → HasPrefix (ToLower s) "service:" = true) →
  Resolve ToLower p (Some (mkWhoIs (Some node) profile)) remote sshUser = inl a →
  if HasPrefix (UserLogin a) "service:" then
    nd_StableID node ≠ "" ∧
    (∃ name, p !! nd_StableID node = Some name ∧ serviceName name = true ∧
             UserLogin a = ("service:" +:+ name)%stdpp) ∧
    AllowsForwarded p (UserLogin a) = true
  else
    ∃ u, profile = Some u ∧ UserLogin a = up_LoginName u ∧ up_LoginName u ≠ "" ∧
         nd_Tags node = [] ∧ (p !! nd_StableID node = None ∨ nd_StableID node = "").
Proof.
  intros Hlow. unfold Resolve.
  assert (Hhuman : match profile with
    | Some u => if String.eqb (up_LoginName u) "" || negb (bool_decide (nd_Tags node = [])) ||
                   IsService ToLower (up_LoginName u)
                then inr err_identity
                else inl (mkActor (up_LoginName u) (up_DisplayName u)
                  (if nonempty (nd_ComputedName node) then TrimSuffix (nd_ComputedName node) "."
                   else TrimSuffix (nd_Name node) ".") remote sshUser)
    | None => inr err_identity
    end = inl a →
    (p !! nd_StableID node = None ∨ nd_StableID node = "") →
    HasPrefix (UserLogin a) "service:" = false ∧
    ∃ u, profile = Some u ∧ UserLogin a = up_LoginName u ∧ up_LoginName u ≠ "" ∧
         nd_Tags node = [] ∧ (p !! nd_StableID node = None ∨ nd_StableID node = "")).
  { destruct profile as [u|]; [|done]. destruct (_ || _ || _) eqn:Hb; [done|].
    apply orb_false_iff in Hb as [[Hl%String.eqb_neq Ht]%orb_false_iff Hs].
    apply negb_false_iff, bool_decide_eq_true in Ht. intros [= <-] Hp. simpl.
    split; [|by exists u]. unfold IsService in Hs.
    destruct (HasPrefix (up_LoginName u) "service:") eqn:Hpre; [|done].
    apply Hlow in Hpre. congruence. }
  destruct (p !! nd_StableID node) as [name|] eqn:Hp.
  - destruct (nonempty (nd_StableID node)) eqn:Hne.
    + destruct (serviceName name) eqn:Hname; simpl; [|done]. intros [= <-]. simpl.
      unfold HasPrefix. rewrite CutPrefix_append. split; [by apply nonempty_spec|].
      split; [by exists name|]. unfold AllowsForwarded. apply existsb_exists.
      exists (nd_StableID node, name). split; [|apply String.eqb_refl].
      by apply list_elem_of_In, elem_of_map_to_list.
    + intros H. assert (Hid : nd_StableID node = "").
      { destruct (nd_StableID node); [done|]. by rewrite (proj2 (nonempty_spec _)) in Hne. }
      destruct (Hhuman H) as [-> Hu]; [by right|done].
  - intros H. destruct (Hhuman H) as [-> Hu]; [by left|done].
Qed.
End identity.

Lemma service_identity_unforgeable_witness :
  let p : Providers := {["n1" := "ci"]} in
  ∃ a, Resolve (map_string lower) p (Some (mkWhoIs (Some (mkNode "builder." "" "n1" ["tag:ci"])) None))
         "100.64.0.9" "root" = inl a ∧ AllowsForwarded p (UserLogin a) = true.
Proof.
  intros p. eexists. split; [vm_compute; reflexivity|].
  refine (proj2 (proj2 (service_identity_unforgeable (map_string lower) p
            (mkNode "builder." "" "n1" ["tag:ci"]) None "100.64.0.9" "root"
            (mkActor "service:ci" "Service ci" "builder" "100.64.0.9" "root") _ _))).
  - intros s Hs. unfold HasPrefix in *.
    destruct (CutPrefix s "service:") as [rest|] eqn:Hc; [|done].
    apply CutPrefix_Some in Hc as ->. rewrite !append_cons. cbn.
    by destruct rest.
  - vm_compute. reflexivity.
Defined.
