(* ===== verification/StoreSpec.v ===== *)
(** * What the store promises

    The properties of the store's operations: the request state machine and
    at-most-once admission over every history, the transactions of cleanup,
    import and pool resizing, the round trip of instance records, the retention
    clock and the compare-and-set of runtime fields. *)
From S2P Require Import Prelude GoStrings Timestamps Model Sql StoreDB StoreRequests StoreInstances.
From S2P Require Import StoreCleanup StoreMigration StorePools StoreTrace StoreDemo.
From stdpp Require Import relations.

#[local] Open Scope Z_scope.

(** One call is a history. *)
Lemma later_call {A} (m : M DB A) fs d : store_op A m → later d (m fs d).1.2.
Proof. intros H. apply rtc_once. by exists A, m, fs. Qed.

(** ** Histories *)

(** Every database reachable from a well-formed one is well-formed: keys match
    rows, UNIQUE and CHECK constraints hold, and the triggers keep
    [stopped_since] set exactly on the stopped rows. *)
Theorem store_wf_invariant d d' : wf d → later d d' → wf d'.
Proof. apply later_wf. Qed.

Lemma store_wf_invariant_witness :
  wf (CreateInstance t0 demo_instance [Pass; CrashAfter] empty_DB).1.2.
Proof.
  apply (store_wf_invariant empty_DB); [apply wf_empty|].
  apply rtc_once. eexists _, _, _. split; [apply op_CreateInstance|reflexivity].
Defined.

(** Request IDs are retained for ever and are never rebound to another actor,
    command, name or argument list; phases move only along [phase_step]. *)
Theorem request_retained d d' id r :
  later d d' → lifecycle_requests d !! id = Some r →
  ∃ r', lifecycle_requests d' !! id = Some r' ∧ request_later r r'.
Proof. intros Hl. by apply later_history. Qed.

Lemma request_retained_witness :
  ∃ r', lifecycle_requests (run InterruptLifecycleRequests
          (run (AdmitLifecycleRequest t0 (demo_request "start")) empty_DB).2).2 !! "req-1"
        = Some r' ∧ request_later (new_request (demo_request "start") "admitted" t0) r'.
Proof.
  eapply (request_retained
            (run (AdmitLifecycleRequest t0 (demo_request "start")) empty_DB).2);
    [|reflexivity].
  apply rtc_once. eexists _, _, []. split; [apply op_InterruptLifecycleRequests|reflexivity].
Defined.

(** The phases a request of a non-deleting command never leaves. *)
Definition terminal (phase : string) : bool :=
  str_in phase ["done"; "failed"; "rejected"; "cancelled"; "interrupted"].

Lemma terminal_stuck cmd ph ph' :
  ¬ is_delete cmd → terminal ph = true → rtc (phase_step cmd) ph ph' → ph' = ph.
Proof.
  intros Hcmd Hterm Hrtc. destruct Hrtc as [|ph ph1 ph2 Hstep _]; [done|].
  exfalso. by destruct Hstep.
Qed.

(** Outcomes are final: once a request that is not a deletion has been finished,
    rejected, cancelled or interrupted, no later call moves it again. *)
Theorem terminal_phase_final d d' id r r' :
  later d d' → lifecycle_requests d !! id = Some r → lifecycle_requests d' !! id = Some r' →
  ¬ is_delete (lr_Command (rq r)) → terminal (lr_Phase (rq r)) = true →
  lr_Phase (rq r') = lr_Phase (rq r).
Proof.
  intros Hl Hr Hr' Hcmd Hterm. destruct (later_history d d' Hl id r Hr) as (r2 & Hr2 & Hle).
  simplify_eq. destruct Hle as (_ & _ & _ & _ & _ & _ & Hrtc). by eapply terminal_stuck.
Qed.

Lemma terminal_phase_final_witness :
  let d := (run (CancelLifecycleRequest t0 (demo_request "start")) empty_DB).2 in
  let d' := (run (BeginLifecycleRequest "req-1" "alice@example.com") d).2 in
  (λ r, lr_Phase (rq r)) <$> lifecycle_requests d' !! "req-1" = Some "cancelled".
Proof.
  intros d d'.
  destruct (lifecycle_requests d' !! "req-1") as [r'|] eqn:Hr'; [|by vm_compute in Hr'].
  simpl. f_equal.
  refine (terminal_phase_final d d' "req-1"
            (new_request (demo_request "start") "cancelled" t0) r' _ eq_refl Hr' _ _).
  - apply rtc_once. eexists _, _, []. split; [apply op_BeginLifecycleRequest|reflexivity].
  - intros [H|H]; discriminate H.
  - reflexivity.
Defined.

(** What an admission that reported success left behind. *)
Lemma Admit_true now r fs d :
  (AdmitLifecycleRequest now r fs d).1.1 = Ok true →
  is_Some (lifecycle_requests (AdmitLifecycleRequest now r fs d).1.2 !! lr_ID r).
Proof.
  assert (H : wp (AdmitLifecycleRequest now r)
    (λ o d', o = Ok true → is_Some (lifecycle_requests d' !! lr_ID r)) d); [|apply H].
  unfold AdmitLifecycleRequest. do 2 sql_step; [done..| |]; cbn beta;
    rewrite violates_free by done; simpl.
  - destruct (_ !! lr_ID r) eqn:Hid; simpl.
    + apply wp_bind. eapply wp_mono.
      { apply (GetLifecycleRequest_within eq). }
      intros [q|e|] d' _; [|done|done].
      destruct (negb _); [by apply wp_throw|by apply wp_ret].
    + apply wp_ret. intros _. unfold insert_row. simpl. rewrite lookup_insert_eq. eauto.
  - done.
Qed.

Lemma Admit_again now r fs d :
  is_Some (lifecycle_requests d !! lr_ID r) → (AdmitLifecycleRequest now r fs d).1.1 ≠ Ok true.
Proof.
  intros [r0 Hr0].
  assert (H : wp (AdmitLifecycleRequest now r) (λ o d', o ≠ Ok true) d); [|apply H].
  unfold AdmitLifecycleRequest. do 2 sql_step; [done..| |done]. cbn beta.
  rewrite violates_free by done. simpl. rewrite Hr0. simpl. apply wp_bind. eapply wp_mono.
  { apply (GetLifecycleRequest_within eq). }
  intros [q|e|] d' _; [|done|done].
  destruct (negb _); [by apply wp_throw|by apply wp_ret].
Qed.

(** At-most-once admission: after one admission of a request ID has succeeded, no
    later admission of that ID, by any actor and after any calls and failures in
    between, is told to execute it. *)
Theorem admit_at_most_once now r fs d d' now' r' fs' :
  (AdmitLifecycleRequest now r fs d).1.1 = Ok true →
  later (AdmitLifecycleRequest now r fs d).1.2 d' → lr_ID r' = lr_ID r →
  (AdmitLifecycleRequest now' r' fs' d').1.1 ≠ Ok true.
Proof.
  intros Hok Hl Hid. apply Admit_again. destruct (Admit_true _ _ _ _ Hok) as [r0 Hr0].
  destruct (later_history _ _ Hl _ _ Hr0) as (r1 & Hr1 & _). rewrite Hid. eauto.
Qed.

Lemma admit_at_most_once_witness :
  run (AdmitLifecycleRequest t0 (demo_request "start")) empty_DB ≠ (Ok false, empty_DB) ∧
  (AdmitLifecycleRequest t0 (demo_request "start") []
     (run (AdmitLifecycleRequest t0 (demo_request "start")) empty_DB).2).1.1 ≠ Ok true.
Proof.
  split; [by vm_compute|].
  apply (admit_at_most_once t0 (demo_request "start") [] empty_DB); [reflexivity| |reflexivity].
  apply rtc_refl.
Defined.
