(* ===== verification/Lifecycle.v ===== *)
(** * The lifecycle of an instance

    Models creation, start and stop of src/internal/provision/provision.go, start_outcome.go,
    the reading of a template (template.go) and the runtime checks of orb.go and readiness.go: the control plane's side of a
    start attempt, over the store's database and the runner's receipts.  A command holds
    the lock of its instance, so commands of one instance run one after the other; the
    runner lives on between any two of a command's calls. *)
From S2P Require Import Prelude CommandLine GoStrings Encodings Timestamps Paths Model Sql StoreDB StoreRequests.
From S2P Require Import StoreInstances StoreCleanup StoreMigration StorePools Identity Config.
From S2P Require Import PoolHost RunnerState Runtime Receipts ReceiptStop Provision.

#[local] Open Scope Z_scope.

#[export] Instance Bootstrap_eq_dec : EqDecision Bootstrap.
Proof. solve_decision. Defined.
#[export] Instance StartRequest_eq_dec : EqDecision StartRequest.
Proof. solve_decision. Defined.

(** ** Text *)

(** The text after the last occurrence of a marker. *)
Fixpoint after_last_marker (marker s : string) : option string :=
  match s with
  | EmptyString => None
  | String _ s' =>
      match after_last_marker marker s' with
      | Some t => Some t
      | None => CutPrefix s marker
      end
  end.

(** The cutset of [strings.TrimRight]. *)
Definition trailing (c : ascii) : bool :=
  let n := byte_value c in (n =? 0) || (n =? 32) || ((9 <=? n) && (n <=? 13)).

Definition serialLogEndsWith (text marker : string) : bool :=
  match after_last_marker marker text with
  | Some after => all_chars trailing after
  | None => false
  end.

Definition guestHaltTailBytes : Z := 65536.

(** The last bytes of a file. *)
Definition tail_bytes (s : string) : string :=
  let n := Z.of_nat (String.length s) in
  if n <=? guestHaltTailBytes then s
  else String.substring (Z.to_nat (n - guestHaltTailBytes)) (String.length s) s.

Definition log_halted (text : string) : bool :=
  serialLogEndsWith (tail_bytes text) "reboot: Power off not available: System halted instead" ||
  serialLogEndsWith (tail_bytes text) "reboot: System halted".

Definition kernelArgs (extra : string) : string :=
  Join (["console=ttyS0"; "reboot=k"; "panic=1"; "root=/dev/vda"; "rw"; "TERM=dumb"; "i8042.dumbkbd"] ++
        (if nonempty extra then Fields extra else []))%list " ".

(** [firstNonEmpty]: the first value that is not blank. *)
Fixpoint firstNonEmpty (values : list string) : string :=
  match values with
  | [] => ""
  | v :: values' => if nonempty (TrimSpace v) then v else firstNonEmpty values'
  end.

(** ** The names of a new instance's devices *)

(** [fnv.New64a], [fnv.New32a]. *)
Definition fnv1a (offset prime width : Z) (s : string) : Z :=
  foldl (λ h c, (Z.lxor h (byte_value c) * prime) mod 2 ^ width) offset (list_ascii_of_string s).
Definition Sum64a : string → Z := fnv1a 14695981039346656037 1099511628211 64.
Definition Sum32a : string → Z := fnv1a 2166136261 16777619 32.

(** [%010x], cut to ten digits. *)
Definition tapName (name : string) : string :=
  let h := Sum64a name in
  String.substring 0 14 ("tap-" +:+ hex_word (Z.to_nat (Z.max 10 (Z.log2 h / 4 + 1))) h)%stdpp.

(** The last two bytes are random. *)
Definition guestMAC (name : string) (b0 b1 : Z) : string :=
  let sum := Sum32a name in
  ("02:fc:" +:+ hex_word 2 (Z.shiftr sum 24) +:+ ":" +:+ hex_word 2 (Z.shiftr sum 16) +:+ ":" +:+
   hex_word 2 b0 +:+ ":" +:+ hex_word 2 b1)%stdpp.

Example Sum_a : Sum64a "a" = 12638187200555641996 ∧ Sum32a "a" = 3826002220.
Proof. by split. Qed.
Example tapName_a : tapName "a" = "tap-af63dc4c86" ∧ guestMAC "a" 1 255 = "02:fc:e4:0c:01:ff".
Proof. by split. Qed.

(** ** Instances *)

Definition awaitingState (inst : Instance) : string :=
  if String.eqb (KindName inst) KindOrb then StateAwaitingGuest else StateAwaitingTailnet.

Definition hasTailnetIdentity (inst : Instance) : bool :=
  nonempty (TrimSpace (TailnetNodeID inst)) || nonempty (TrimSpace (TailscaleName inst)) ||
  nonempty (TrimSpace (TailscaleIP inst)).

Definition shouldAutoStartAfterStartup (inst : Instance) : bool :=
  negb (bool_decide (State inst ∈ [StateDeleted; StateDeleting; StateFailed; StateStopped; StateStopping])).

(** The start attempt an instance records. *)
Definition attempt_of (inst : Instance) : StartResultRequest :=
  mkStartResultRequest (Name inst) (ID inst) (StartRequestID inst) (StartBootID inst).

Definition with_attempt (request boot : string) (i : Instance) : Instance :=
  mkInstance (ID i) (Name i) (Kind i) (Image i) (State i) (CreatedAt i)
    (CreatedByUser i) (CreatedByNode i) (VCPUCount i) (MemoryMiB i) (MemoryMode i)
    (MemoryPoolID i) (RootFSSizeBytes i) (RootFSPath i) (KernelPath i)
    (InitrdPath i) (SocketPath i) (LogPath i) (SerialLogPath i) (TapDevice i)
    (GuestMAC i) (NetworkCIDR i) (HostAddr i) (GuestAddr i) (GatewayAddr i)
    (FirecrackerPID i) request boot (TailnetNodeID i)
    (TailscaleName i) (TailscaleIP i) (LastError i) (DeletedAt i) (UpdatedAt i).

Definition errStartUncertain : error := Errorf "start outcome is uncertain".

(** The identity of the new attempt is recorded before the request leaves: whatever
    happens to it, the record says what to ask the runner about. *)
Inductive boot_outcome := Booted (pid : Z) | NotBooted (e : error) | BootUncertain.

(** What the world outside answers to one command: the clock, a new UUID, the tailnet
    device of the name, and what the waits for the guest end with (its name, node and
    address in the tailnet; an orb's first ping). *)
Record inputs := mkInputs {
  si_now : nat → time;
  si_request : string;
  si_device : result (option string);
  si_join : result (string * string * string);
  si_ping : result unit;
}.

(** A template's manifest. *)
Record templateManifest := mkTemplateManifest {
  tm_Version : Z; tm_ID : string; tm_Owner : string; tm_SourceID : string; tm_Image : string; tm_Kind : string;
  tm_KernelDigest : string; tm_InitrdDigest : string;
}.

(** ... and to a creation: also the new instance's UUID, the manifest of the template as
    it is read, the name [os.MkdirTemp] finds, the size of the root file system, the two
    random bytes of its address, and the minted key (secret and identity). *)
Record create_inputs := mkCreateInputs {
  ci_start : inputs;
  ci_id : string;
  ci_manifest : result templateManifest;
  ci_temp : string;
  ci_size : result Z;
  ci_mac : Z * Z;
  ci_key : result (string * string);
}.

Section lifecycle.
(** The configuration; whether there is a tailnet client. *)
Context (cfg : Config) (has_tsClient : bool).
(** The runner, as in Receipts.v and ReceiptStop.v. *)
Context (rcfg : ServerConfig) (marshal : StartRequest → string)
  (start : StartRequest → M Host StartResponse) (guest_shutdown : string → Machine → Machine).
(** [net.ParseMAC], [net.ParseCIDR], [net.ParseIP]: whether the text parses. *)
Context (ParseMAC ParseCIDR ParseIP : string → bool).
(** What a serial log holds; [json.Marshal] of an event's payload. *)
Context (serial_log : Machine → string → option string).
Context (pid_payload : Z → string) (error_payload : string → string)
  (net_payload tailnet_payload : string → string → string).
(** [strings.EqualFold], [strings.ToLower]. *)
Context (EqualFold : string → string → bool) (LowerCase : string → string).

(** ** The runner between two calls *)

Definition deliver (w : Control) (e : runner_event) : Control :=
  match e with
  | ev_start req fs =>
      if bool_decide (req ∈ pv_attempts w)
      then set_host (receiptStart marshal start rcfg req fs (pv_host w)).1.2 w else w
  | ev_resolve q fs => set_host (resolveStart rcfg q fs (pv_host w)).1.2 w
  | ev_stop req fs => set_host (receiptStop guest_shutdown rcfg req fs (pv_host w)).1.2 w
  | ev_machine m => set_host (set_machine m (pv_host w)) w
  end.

Definition happen (w : Control) : Control :=
  match pv_events w with
  | [] => w
  | now :: later => foldl deliver (set_events later w) now
  end.

(** A call of the runner; its death is an error here. *)
Definition on_host {A} (m : M Host A) : M Control A := λ fs w,
  let w := happen w in
  let '(o, h, fs') := m fs (pv_host w) in
  (match o with Crashed => Err ErrIO | _ => o end, set_host h w, fs').

Definition attempt_sent (req : StartRequest) : M Control unit := λ fs w,
  (Ok tt, set_attempts (req :: pv_attempts w) w, fs).

(** ** The runner's client *)

Definition validateAbsolutePath (path : string) : bool :=
  let path := TrimSpace path in negb (nonempty path) || IsAbs path.

Definition iface_char (c : ascii) : bool :=
  is_alnum c || Ascii.eqb c "_" || Ascii.eqb c "." || Ascii.eqb c ":" || Ascii.eqb c "-".
(** [^[a-zA-Z0-9_.:-]{1,15}$] *)
Definition ifaceName (s : string) : bool :=
  all_chars iface_char s && nonempty s && (String.length s <=? 15)%nat.

(** [StartRequest.Validate]. *)
Definition validate_start (r : StartRequest) : result unit :=
  let fail (b : bool) (e : string) := if b then inr (Errorf e) else inl tt in
  _ ← fail (negb (bool_decide (sq_Kind r ∈ [""; KindVM; KindOrb]))) "invalid instance kind";
  _ ← fail (negb (validateAbsolutePath (sq_KernelPath r))) "kernel path must be absolute";
  _ ← fail (negb (validateAbsolutePath (sq_InitrdPath r))) "initrd path must be absolute";
  _ ← (if nonempty (sq_RequestID r) then Validate (attempt r) else inl tt);
  _ ← fail (negb (validName (TrimSpace (sq_Name r)))) "invalid instance name";
  _ ← fail (negb (ifaceName (TrimSpace (sq_TapDevice r)))) "tap device is invalid";
  _ ← fail (negb (ParseMAC (TrimSpace (sq_GuestMAC r)))) "guest mac is invalid";
  _ ← fail (negb (ParseCIDR (TrimSpace (sq_GuestAddr r)))) "guest addr is invalid";
  _ ← fail (negb (ParseIP (TrimSpace (sq_GatewayAddr r)))) "gateway addr is invalid";
  _ ← fail (negb (forallb (λ ns, ParseIP (TrimSpace ns)) (sq_Nameservers r))) "nameserver is invalid";
  _ ← fail (sq_VCPUCount r <? 1) "vcpu count must be >= 1";
  _ ← fail (sq_MemoryMiB r <? 1) "memory MiB must be >= 1";
  _ ← (if String.eqb (NormalizeMemoryMode (sq_MemoryMode r)) MemoryModePool then
         _ ← fail (negb (validName (TrimSpace (sq_MemoryPoolName r)))) "memory pool name is invalid";
         fail (sq_MemoryPoolSizeBytes r <? 1) "memory pool size bytes must be >= 1"
       else inl tt);
  fail (negb (String.eqb (sq_Kind r) KindOrb) && negb (nonempty (TrimSpace (bs_Hostname (sq_Bootstrap r)))))
    "bootstrap hostname is required".

(** [StopRequest.Validate]. *)
Definition validate_stop (r : StopRequest) : result unit :=
  _ ← (if nonempty (tq_RequestID r) then Validate (stop_attempt r) else inl tt);
  if negb (validName (TrimSpace (tq_Name r))) then inr (Errorf "invalid instance name")
  else if tq_PID r <? 0 then inr (Errorf "pid is invalid") else inl tt.

(** The runner may be draining. *)
Definition client_StartInstanceVM (req : StartRequest) : M Control StartResponse :=
  lift (validate_start req);;
  attempt_sent req;;
  host_check;;
  resp ← on_host (receiptStart marshal start rcfg req);
  answer;;
  (if nonempty (sq_RequestID req) then lift (validateStartResponse resp) else mret tt);;
  mret resp.

Definition client_ResolveInstanceStart (q : StartResultRequest) : M Control StartResponse :=
  lift (Validate q);;
  resp ← on_host (resolveStart rcfg q);
  answer;;
  lift (validateStartResponse resp);;
  mret resp.

Definition client_StopInstanceVM (req : StopRequest) : M Control unit :=
  lift (validate_stop req);;
  on_host (receiptStop guest_shutdown rcfg req);;
  answer.

Definition startResult (inst : Instance) : M Control StartResponse :=
  client_ResolveInstanceStart (attempt_of inst).

(** ** Looking at the runtime *)

(** [processExists]: anything but a process that is there, or may not be signalled, is
    no process. *)
Definition alive (pid : Z) : M Control bool :=
  r ← try (on_host (query_machine (λ m, inl (process_exists m pid))));
  mret (match r with inl b => b | inr _ => false end).

Definition serialLogShowsGuestHalted (path : string) : M Control bool :=
  if negb (nonempty path) then mret false else
  r ← try (on_host (query_machine (λ m, inl (serial_log m path))));
  mret (match r with inl (Some text) => log_halted text | _ => false end).

(** The start time of the process that owns the guest's API socket. *)
Definition socket_identity (path : string) (pid : Z) (m : Machine) : result string :=
  match dial path m with
  | inr e => inr e
  | inl peer =>
      if negb (peer =? pid) then inr (Errorf "guest API socket does not belong to recorded runtime") else
      match procs m !! pid with
      | None => inr ErrNotExist
      | Some stat =>
          match after_last ")" stat with
          | None => inr (Errorf "invalid guest process stat")
          | Some rest =>
              let f := Fields rest in
              if (length f <=? 19)%nat || String.eqb (nth 0 f "") "Z" || String.eqb (nth 0 f "") "X"
              then inr (Errorf "guest process is no longer running") else inl (nth 19 f "")
          end
      end
  end.

Definition instanceRuntimeIdentity (inst : Instance) : M Control string :=
  require (0 <? FirecrackerPID inst) (Errorf "guest runtime is not running");;
  halted ← serialLogShowsGuestHalted (SerialLogPath inst);
  require (negb (halted : bool)) (Errorf "guest runtime is not running");;
  if nonempty (StartRequestID inst) then
    resp ← startResult inst;
    require (String.eqb (Outcome resp) StartRunning && (rs_PID resp =? FirecrackerPID inst))
      (Errorf "runner cannot attest the recorded runtime");;
    mret (StartRequestID inst)
  else on_host (query_machine (socket_identity (SocketPath inst) (FirecrackerPID inst))).

(** ** Recording *)

(** [now n]: the clock at its [n]-th reading of a command. *)
Definition later (k : nat) (now : nat → time) : nat → time := λ n, now (k + n)%nat.

Definition recordEvent (now : nat → time) (instanceID typ message payload : string) : M Control unit :=
  _ ← try (on_db (RecordEvent (now 0%nat) (mkInstanceEvent 0 instanceID (now 0%nat) typ message payload)));
  mret tt.

(** ** What became of a start *)

Definition runtime_state (inst : Instance) : bool :=
  bool_decide (State inst ∈ [StateProvisioning; StateAwaitingTailnet; StateAwaitingGuest; StateReady]).

(** What "running" and "absent" make of the record. *)
Definition found_running (pid : Z) (inst : Instance) : Instance :=
  let inst' := set_FirecrackerPID pid inst in
  if String.eqb (State inst) StateProvisioning then set_State (awaitingState inst') inst' else inst'.

Definition found_absent (inst : Instance) : Instance :=
  let inst' := set_FirecrackerPID 0 inst in
  if String.eqb (State inst) StateStopping || String.eqb (State inst) StateDeleting then inst'
  else if negb (String.eqb (KindName inst) KindOrb) && negb (hasTailnetIdentity inst)
  then set_State StateFailed inst' else set_State StateStopped inst'.

(** The record is written when it changed, unless another writer was faster. *)
Definition persist_outcome (now : nat → time) (observed inst : Instance) : M Control Instance :=
  if String.eqb (State observed) (State inst) && (FirecrackerPID observed =? FirecrackerPID inst)
  then mret inst else
  let inst := set_UpdatedAt (now 0%nat) inst in
  on_db (UpdateInstanceRuntime (now 0%nat) observed inst);;
  mret inst.

Definition resolveRuntime (now : nat → time) (inst : Instance) : M Control Instance :=
  if negb (nonempty (StartRequestID inst)) || String.eqb (State inst) StateDeleted then mret inst else
  r ← try (startResult inst);
  match r with
  | inr _ => throw errStartUncertain
  | inl resp =>
      if String.eqb (Outcome resp) StartRunning then
        require (0 <? rs_PID resp) errStartUncertain;;
        require (negb (String.eqb (State inst) StateStopped || String.eqb (State inst) StateFailed))
          errStartUncertain;;
        persist_outcome now inst (found_running (rs_PID resp) inst)
      else if String.eqb (Outcome resp) StartAbsent then
        if negb (FirecrackerPID inst =? 0) || runtime_state inst then
          host_check;; (* cleanupNetworking *)
          persist_outcome now inst (found_absent inst)
        else mret inst
      else throw errStartUncertain
  end.

(** ** Stop *)

Definition stopFirecrackerWithState (inst : Instance) (saveState : bool) : M Control unit :=
  client_StopInstanceVM (mkStopRequest saveState (ID inst) (StartRequestID inst) (StartBootID inst)
    (Name inst) (FirecrackerPID inst)).

Definition stopping (t : time) (inst : Instance) : Instance :=
  set_UpdatedAt t (set_LastError "stop has not completed; retry stop if interrupted"
    (set_State StateStopping inst)).
Definition stopped (t : time) (inst : Instance) : Instance :=
  set_UpdatedAt t (set_LastError "" (set_FirecrackerPID 0 (set_State StateStopped inst))).

Definition stop_instance (now : nat → time) (saveState : bool) (inst : Instance) : M Control Instance :=
  require (negb (String.eqb (State inst) StateDeleting)) (Errorf "instance is being deleted");;
  require (negb (String.eqb (State inst) StateDeleted)) (Errorf "instance is already deleted");;
  require (negb (String.eqb (State inst) StateStopped && (FirecrackerPID inst =? 0)))
    (Errorf "instance is already stopped");;
  let inst := stopping (now 0%nat) inst in
  on_db (UpdateInstance (now 0%nat) inst);;
  recordEvent (later 1 now) (ID inst) "stop" "stop requested" "";;
  inst ← resolveRuntime (later 2 now) inst;
  stopFirecrackerWithState inst saveState;;
  host_check;; (* cleanupNetworking *)
  let inst := stopped (now 3%nat) inst in
  on_db (UpdateInstance (now 3%nat) inst);;
  recordEvent (later 4 now) (ID inst) "stop" "instance stopped" "";;
  mret inst.

Definition StopWithOptions (now : nat → time) (saveState : bool) (name : string) : M Control Instance :=
  inst ← on_db (GetInstance name);
  stop_instance now saveState inst.

(** ** Reconciliation *)

Definition reconcileRuntime (now : nat → time) (inst : Instance) : M Control bool :=
  on_db (CheckCleanupFence (ID inst));;
  inst ← (if nonempty (StartRequestID inst) then resolveRuntime now inst else mret inst);
  if bool_decide (State inst ∈ [StateStopping; StateStopped; StateDeleted; StateDeleting; StateFailed])
  then mret false else
  if FirecrackerPID inst <=? 0 then mret false else
  running ← alive (FirecrackerPID inst);
  halted ← (if (running : bool) then serialLogShowsGuestHalted (SerialLogPath inst) else mret false);
  if (running : bool) && negb (halted : bool) then mret false else
  if nonempty (StartRequestID inst) && negb (running : bool) then
    inst ← resolveRuntime (later 1 now) inst;
    mret (FirecrackerPID inst =? 0)
  else
    recordEvent (later 2 now) (ID inst) "runtime"
      (if (running : bool) then "guest halted; stopping firecracker runtime"
       else "firecracker process exited outside srv stop") (pid_payload (FirecrackerPID inst));;
    _ ← StopWithOptions (later 3 now) false (Name inst);
    mret true.

Definition ReconcileInstanceRuntime (now : nat → time) (name : string) : M Control Instance :=
  inst ← on_db (GetInstance name);
  _ ← reconcileRuntime now inst;
  on_db (GetInstance name).

(** ** Start *)

Definition effectiveVCPUCount (inst : Instance) : Z :=
  if 0 <? VCPUCount inst then VCPUCount inst else cf_VCPUCount cfg.

Definition start_request (inst : Instance) (pool : option MemoryPool) (bootstrap : Bootstrap)
    (discardState : bool) : StartRequest :=
  mkStartRequest discardState (KindName inst) (KernelPath inst) (InitrdPath inst) (ID inst)
    (StartRequestID inst) (StartBootID inst) (Name inst) (TapDevice inst) (GuestMAC inst)
    (GuestAddr inst) (GatewayAddr inst) (VMDNSServers cfg) (effectiveVCPUCount inst)
    (effectiveMemoryMiB (cf_MemoryMiB cfg) inst) (NormalizedMemoryMode inst)
    (match pool with Some p => mp_Name p | None => "" end)
    (match pool with Some p => mp_ReservedBytes p | None => 0 end)
    (kernelArgs (ExtraKernelArgs cfg)) bootstrap.

Definition with_nonce (nonce : string) (b : Bootstrap) : Bootstrap :=
  if nonempty (bs_TailscaleAuthKey b) then
    mkBootstrap (bs_Version b) (bs_Hostname b) nonce (bs_TailscaleAuthKey b) (bs_TailscaleControlURL b)
      (bs_TailscaleTags b) (bs_ZenGatewayPort b) (bs_DeepSeekGatewayPort b)
  else b.

Definition uncertain (now : nat → time) (inst : Instance) : M Control (Instance * boot_outcome) :=
  let inst := set_LastError (error_text errStartUncertain) inst in
  _ ← try (on_db (UpdateInstance (now 1%nat) inst));
  mret (inst, BootUncertain).

(** [request] is the result of [uuid.NewString]. *)
Definition startFirecracker (now : nat → time) (request : string) (inst : Instance)
    (pool : option MemoryPool) (bootstrap : Bootstrap) (discardState : bool)
  : M Control (Instance * boot_outcome) :=
  boot ← try (on_host (query_machine (λ m, inl (boot_file m))));
  match boot with
  | inr e => mret (inst, NotBooted e)
  | inl boot =>
      let inst := set_UpdatedAt (now 0%nat) (with_attempt request (TrimSpace boot) inst) in
      u ← try (on_db (UpdateInstance (now 0%nat) inst));
      match u with
      | inr e => mret (inst, NotBooted e)
      | inl _ =>
          let req := start_request inst pool (with_nonce request bootstrap) discardState in
          resp ← try (client_StartInstanceVM req);
          resp ← (match resp with
                  | inl resp => mret (inl resp)
                  | inr _ => try (startResult inst)
                  end);
          match resp with
          | inl resp =>
              if String.eqb (Outcome resp) StartRunning && (0 <? rs_PID resp)
              then mret (inst, Booted (rs_PID resp))
              else if String.eqb (Outcome resp) StartAbsent
              then mret (inst, NotBooted (Errorf "start was fenced without a runtime"))
              else uncertain now inst
          | inr _ => uncertain now inst
          end
      end
  end.

Implicit Types i : inputs.

Definition waitForOrb (now : nat → time) i (inst : Instance) : M Control Instance :=
  runtime ← instanceRuntimeIdentity inst;
  lift (si_ping i);;
  current ← instanceRuntimeIdentity inst;
  require (String.eqb current runtime) (Errorf "orb runtime changed during readiness check");;
  let updated := set_UpdatedAt (now 0%nat) (set_LastError "" (set_State StateReady inst)) in
  on_db (UpdateInstanceRuntime (now 0%nat) inst updated);;
  recordEvent (later 1 now) (ID inst) "orb" "orb bootstrap channel ready" "";;
  mret updated.

Definition joined (t : time) (name node ip : string) (inst : Instance) : Instance :=
  set_UpdatedAt t (set_LastError "" (set_TailscaleIP ip (set_TailscaleName name
    (set_TailnetNodeID node (set_State StateReady inst))))).

(** The late join of a guest whose start has timed out before. *)
Definition reconcileLateTailnetJoin (now : nat → time) i (inst : Instance) : M Control Instance :=
  runtime ← instanceRuntimeIdentity inst;
  r ← lift (si_join i);
  let '(name, node, ip) := (r : string * string * string) in
  require (negb (nonempty (TailnetNodeID inst)) || negb (hasTailnetIdentity inst) ||
           String.eqb (TailnetNodeID inst) node) (Errorf "stored tailnet node identity changed");;
  current ← instanceRuntimeIdentity inst;
  require (String.eqb current runtime) (Errorf "guest runtime changed during readiness check");;
  let updated := joined (now 0%nat) (firstNonEmpty [name; Name inst]) node ip inst in
  on_db (UpdateInstanceRuntime (now 0%nat) inst updated);;
  inst ← on_db (GetInstance (Name inst));
  recordEvent (later 1 now) (ID inst) "tailnet" "guest joined the tailnet after readiness timeout"
    (tailnet_payload (TailscaleName inst) (TailscaleIP inst));;
  mret inst.

(** The guest rejoins the tailnet while the runner attests one runtime throughout. *)
Definition wait_join i (inst : Instance) : M Control (string * string) :=
  runtime ← instanceRuntimeIdentity inst;
  r ← lift (si_join i);
  let '(name, _, ip) := (r : string * string * string) in
  current ← instanceRuntimeIdentity inst;
  require (String.eqb current runtime) (Errorf "guest runtime changed during readiness check");;
  mret (name, ip).

Definition await_tailnet (now : nat → time) i (inst : Instance) : M Control Instance :=
  r ← try (wait_join i inst);
  match r with
  | inr e =>
      let failed := set_UpdatedAt (now 0%nat) (set_LastError (error_text e) inst) in
      on_db (UpdateInstanceRuntime (now 0%nat) inst failed);;
      recordEvent (later 1 now) (ID inst) "tailnet" "guest readiness incomplete after start"
        (error_payload (error_text e));;
      throw e
  | inl (name, ip) =>
      let ready := joined (now 0%nat) name (TailnetNodeID inst) ip inst in
      on_db (UpdateInstanceRuntime (now 0%nat) inst ready);;
      recordEvent (later 1 now) (ID inst) "tailnet" "guest rejoined the tailnet" (tailnet_payload name ip);;
      mret ready
  end.

(** The guest has booted: nothing tears it down any more. *)
Definition booted (now : nat → time) i (pid : Z) (inst : Instance) : M Control Instance :=
  let inst := set_UpdatedAt (now 0%nat) (set_LastError "" (set_FirecrackerPID pid
                (set_State (awaitingState inst) inst))) in
  on_db (UpdateInstance (now 0%nat) inst);;
  recordEvent (later 1 now) (ID inst) "firecracker" "microVM started" (pid_payload pid);;
  if String.eqb (KindName inst) KindOrb then waitForOrb (later 2 now) i inst
  else await_tailnet (later 2 now) i inst.

(** The deferred clean-up of a start that failed for certain. *)
Definition abandon_start (now : nat → time) (e : error) (inst : Instance) : M Control Instance :=
  _ ← try host_check; (* cleanupNetworking *)
  let inst := set_UpdatedAt (now 0%nat) (set_LastError (firstNonEmpty [LastError inst; "start failed"])
                (set_FirecrackerPID 0 (set_State StateStopped inst))) in
  _ ← try (on_db (UpdateInstance (now 0%nat) inst));
  throw e.

(** The tailnet identity a warm start goes on with. *)
Definition tailnet_device (device : result (option string)) (inst : Instance) : result Instance :=
  if String.eqb (KindName inst) KindOrb then inl inst else
  d ← device;
  if nonempty (TailnetNodeID inst) then
    match d with
    | Some id => if String.eqb id (TailnetNodeID inst) then inl inst
                 else inr (Errorf "stored tailnet node identity changed")
    | None => inl inst
    end
  else match d with
       | Some id => inl (set_TailnetNodeID id inst)
       | None => inr (Errorf "warm start requires an existing tailnet device identity")
       end.

Definition gateway_port (key : string) (port : Z) : Z := if nonempty (TrimSpace key) then port else 0.

Definition bootstrap_of (hostname authKey : string) (tags : list string) : Bootstrap :=
  mkBootstrap 1 hostname "" authKey (GuestTailscaleControlURL cfg) tags
    (gateway_port (ZenAPIKey cfg) (ZenGatewayPort cfg))
    (gateway_port (DeepSeekAPIKey cfg) (DeepSeekGatewayPort cfg)).

(** An admitted start. *)
Definition launch_admitted (now : nat → time) i (discardState : bool) (pool : option MemoryPool)
    (inst : Instance) : M Control Instance :=
  match tailnet_device (si_device i) inst with
  | inr e => abandon_start now e inst
  | inl inst =>
      r ← try (host_check;; host_check);  (* cleanupNetworking, ensureInstanceRuntimePermissions *)
      match r with
      | inr e => abandon_start now e inst
      | inl _ =>
          recordEvent now (ID inst) "start" "start requested" "";;
          r ← try host_check; (* setupNetworking *)
          match r with
          | inr e => abandon_start (later 1 now) e (set_LastError (error_text e) inst)
          | inl _ =>
              recordEvent (later 1 now) (ID inst) "network" "tap device and NAT configured"
                (net_payload (TapDevice inst) (NetworkCIDR inst));;
              r ← startFirecracker (later 2 now) (si_request i) inst pool
                    (bootstrap_of (Name inst) "" (GuestAuthTags cfg)) discardState;
              match r with
              | (inst, Booted pid) => booted (later 4 now) i pid inst
              | (inst, NotBooted e) => abandon_start (later 4 now) e (set_LastError (error_text e) inst)
              | (_, BootUncertain) => throw errStartUncertain
              end
          end
      end
  end.

Definition StartWithOptions i (discardState : bool) (name : string) : M Control Instance :=
  let now := si_now i in
  migrationFence name;;
  inst ← ReconcileInstanceRuntime now name;
  let inst := applyConfiguredBootArtifacts inst in
  orb_up ← (if String.eqb (KindName inst) KindOrb && String.eqb (State inst) StateAwaitingGuest
            then alive (FirecrackerPID inst) else mret false);
  if (orb_up : bool) then waitForOrb (later 9 now) i inst else
  vm_up ← (if String.eqb (State inst) StateAwaitingTailnet then alive (FirecrackerPID inst) else mret false);
  if (vm_up : bool) then reconcileLateTailnetJoin (later 9 now) i inst else
  up ← alive (FirecrackerPID inst);
  require (negb (up : bool)) (Errorf "instance is already running");;
  host_check;; (* hydrateColdDisk *)
  current ← start_fence name;
  _ ← reconcileRuntime (later 9 now) current;
  admitted ← admit_start (cf_MemoryMiB cfg) has_tsClient (now 18%nat) name;
  let '(inst, pool) := (admitted : Instance * option MemoryPool) in
  launch_admitted (later 19 now) i discardState pool inst.

(** After the start of the control plane: an instance that was up is brought back. *)
Definition restoreInstance i (inst : Instance) : M Control unit :=
  let now := si_now i in
  migrationFence (Name inst);;
  let autostart := shouldAutoStartAfterStartup inst in
  inst ← resolveRuntime now inst;
  if String.eqb (State inst) StateStopping || String.eqb (State inst) StateDeleting then mret tt else
  up ← alive (FirecrackerPID inst);
  halted ← (if (up : bool) then serialLogShowsGuestHalted (SerialLogPath inst) else mret false);
  if (up : bool) && negb (halted : bool) then mret tt else
  inst ← (if negb (FirecrackerPID inst =? 0)
          then StopWithOptions (later 1 now) false (Name inst) else mret inst);
  if negb autostart then mret tt else
  if negb (String.eqb (KindName inst) KindOrb) && negb (hasTailnetIdentity inst) then
    recordEvent (later 6 now) (ID inst) "startup" "instance was left offline after control-plane startup" ""
  else
    recordEvent (later 6 now) (ID inst) "startup" "restarting instance automatically after control-plane startup" "";;
    r ← try (StartWithOptions (mkInputs (later 7 now) (si_request i) (si_device i) (si_join i) (si_ping i))
               false (Name inst));
    match r with
    | inl _ => mret tt
    | inr e =>
        recordEvent (later 50 now) (ID inst) "startup" "automatic restart after control-plane startup failed"
          (error_payload (error_text e));;
        throw e
    end.

Definition RestoreInstance i (name : string) : M Control unit :=
  inst ← on_db (GetInstance name);
  restoreInstance i inst.

(** ** Templates *)

Definition templatePath (id : string) (actor : Actor) : result string :=
  if negb (validName id) || negb (nonempty (TrimSpace (UserLogin actor)))
  then inr (Errorf "template requires a valid srv name and authenticated owner")
  else inl (JoinPath [dataDirAbs cfg; "templates"; sha256_hex (LowerCase (UserLogin actor)); id]).

Definition readTemplate (manifest : result templateManifest) (id : string) (actor : Actor)
  : result (string * templateManifest) :=
  dir ← templatePath id actor;
  m ← manifest;
  if negb (bool_decide (tm_Version m ∈ [1; 2; 3])) || negb (String.eqb (tm_ID m) id) ||
     negb (EqualFold (tm_Owner m) (UserLogin actor)) || negb (nonempty (tm_SourceID m)) ||
     negb (nonempty (tm_Image m))
  then inr (Errorf "invalid template manifest or owner") else inl (dir, m).

Definition templateDiskPath (dir : string) (m : templateManifest) : string :=
  if 2 <=? tm_Version m then JoinPath [dir; "disk"; "rootfs.img"] else JoinPath [dir; "rootfs.img"].

(** The digests are compared with the files. *)
Definition templateBootFiles (dir : string) (m : templateManifest) (image : ImageFiles) : M Control ImageFiles :=
  require (nonempty (tm_KernelDigest m)) (Errorf "template has no kernel binding");;
  host_check;;
  (if nonempty (tm_InitrdDigest m) then host_check else mret tt);;
  mret (mkImageFiles (JoinPath [dir; "vmlinux"])
    (if nonempty (tm_InitrdDigest m) then JoinPath [dir; "old-initrd"] else "") (im_RootFS image)).

Definition kind_name (kind : string) : string := if String.eqb kind "" then KindVM else kind.

(** The image's files, and the template they come from. *)
Definition create_image (ci : create_inputs) (actor : Actor) (kind imageName template : string)
  : M Control (ImageFiles * option templateManifest) :=
  image ← lift (ResolveImage cfg imageName);
  if negb (nonempty template) then mret (image, None) else
  found ← lift (readTemplate (ci_manifest ci) template actor);
  let '(dir, m) := (found : string * templateManifest) in
  require (String.eqb (kind_name (tm_Kind m)) kind)
    (Errorf "template workload kind does not match requested instance");;
  require (String.eqb (tm_Image m) imageName) (Errorf "template image does not match requested image");;
  image ← (if tm_Version m =? 3 then templateBootFiles dir m image else mret image);
  mret (mkImageFiles (im_Kernel image) (im_Initrd image) (templateDiskPath dir m), Some m).

(** ** Creation *)

Definition resolveCreateOptions (opts : CreateOptions) (baseRootFSSize : Z) : result (CreateOptions * bool) :=
  if nonempty (TrimSpace (co_MemoryPoolName opts)) && (co_MemoryMiB opts <=? 0)
  then inr (Errorf "pooled instances require an explicit guest-visible --ram") else
  let vcpus := if 0 <? co_VCPUCount opts then co_VCPUCount opts else cf_VCPUCount cfg in
  let memory := if 0 <? co_MemoryMiB opts then co_MemoryMiB opts else cf_MemoryMiB cfg in
  let size := if co_RootFSSizeBytes opts =? 0 then baseRootFSSize else co_RootFSSizeBytes opts in
  _ ← ValidateMachineShape vcpus memory;
  if size <? baseRootFSSize then inr (Errorf "rootfs size is smaller than the base image size") else
  inl (mkCreateOptions "" "" "" vcpus memory (TrimSpace (co_MemoryPoolName opts)) false size, baseRootFSSize <? size).

Definition ensureCreatePrereqs (needsResize : bool) (image : ImageFiles) (kind : string) : M Control unit :=
  for_each (λ path, require (nonempty path) (Errorf "create requires kernel and rootfs paths");; host_check)
    [im_Kernel image; im_RootFS image];;
  (if nonempty (im_Initrd image) then host_check else mret tt);;
  host_check;; (* baseRootFSInUse *)
  (if needsResize then host_check else mret tt);; (* ensureRootFSResizeTools *)
  require (String.eqb kind KindOrb || has_tsClient) (Errorf "create requires a tailnet client");;
  require (String.eqb kind KindOrb || negb (bool_decide (GuestAuthTags cfg = [])))
    (Errorf "create requires SRV_GUEST_AUTH_TAGS");;
  host_check. (* ensureRootFSReflinkSupport *)

Definition instanceDir (name : string) : result string := directChildPath (cf_InstancesDir cfg) name.

(** The incarnation that the new one may replace. *)
Definition checkInstanceDirReusable (now : nat → time) (name : string) : M Control (string * option Instance) :=
  dir ← lift (instanceDir name);
  host_check;; (* RequireBtrfs *)
  found ← on_db (FindInstance name);
  match found with
  | None => host_check;; mret (dir, None) (* nothing on disk *)
  | Some existing =>
      m ← try (on_db (GetMigration (ID existing)));
      match m with
      | inl m => require (String.eqb (mg_Phase m) "aborted" ||
                          (String.eqb (State existing) StateDeleted && String.eqb (mg_Phase m) "completed"))
                   (Errorf "instance is fenced by migration")
      | inr ErrNoRows => mret tt
      | inr e => throw e
      end;;
      if String.eqb (State existing) StateFailed || String.eqb (State existing) StateDeleted then
        (if String.eqb (State existing) StateDeleted then mret tt else migrationFence name);;
        existing ← resolveRuntime now existing;
        require (FirecrackerPID existing =? 0) (Errorf "existing runtime must be stopped before reuse");;
        host_check;; (* coldDiskFence *)
        mret (dir, Some existing)
      else throw (Errorf "instance already exists")
  end.

(** The runner's deletion of the old incarnation's cold state: what it does to the host
    of the receipts (the copies and disks are modelled in ColdDisk.v). *)
Definition cold_delete (name id : string) : M Host unit :=
  storageIdleLocked rcfg name;;
  st ← readRAMState rcfg name;
  require (match st with Some st => String.eqb (q_InstanceID (Attempt st)) id | None => true end)
    (Errorf "saved RAM belongs to another incarnation");;
  env (λ h, (inl tt, put_file rcfg name (fence_file id) (F_fence id) h));;
  discardRAMState rcfg name.

Definition cleanupColdForRemoval (inst : Instance) : M Control unit :=
  host_check;; (* coldMarker *)
  on_host (cold_delete (Name inst) (ID inst));;
  answer;;
  host_check. (* the status, and no marker is left *)

Definition prepareInstanceDir (now : nat → time) (name : string) : M Control string :=
  found ← checkInstanceDirReusable now name;
  let '(dir, existing) := (found : string * option Instance) in
  match existing with
  | Some existing =>
      cleanupColdForRemoval existing;;
      host_check;; (* cleanupInstanceTree *)
      on_db (DeleteInstance name)
  | None => mret tt
  end;;
  host_check;; host_check;; (* Mkdir, Chmod *)
  mret dir.

(** The boot files of a template are copied next to the new disk. *)
Definition copy_boot_files (ci : create_inputs) (dir : string) (template : option templateManifest) (image : ImageFiles)
  : M Control ImageFiles :=
  match template with
  | None => mret image
  | Some m =>
      if negb (tm_Version m =? 3) then mret image else
      r ← try (host_check;; (* MkdirTemp *)
               host_check;; (* cloneUpgradeFile, for each *)
               image ← templateBootFiles (JoinPath [dir; ci_temp ci]) m image;
               host_check;; (* SyncPath, twice *)
               mret image);
      match r with
      | inl image => mret image
      | inr e => _ ← try host_check; throw e (* removePathAll *)
      end
  end.

Definition new_instance (ci : create_inputs) (t : time) (name kind imageName dir : string) (actor : Actor)
    (o : CreateOptions) (image : ImageFiles) : Instance :=
  mkInstance (ci_id ci) name kind imageName StateProvisioning t (UserLogin actor) (NodeName actor)
    (co_VCPUCount o) (co_MemoryMiB o) MemoryModeFixed "" (co_RootFSSizeBytes o)
    (JoinPath [dir; "disk"; "rootfs.img"]) (im_Kernel image) (im_Initrd image) (JoinPath [dir; "firecracker.sock"])
    (JoinPath [dir; "firecracker.log"]) (JoinPath [dir; "serial.log"]) (tapName name)
    (guestMAC name (ci_mac ci).1 (ci_mac ci).2) "" "" "" "" 0 "" "" "" "" "" "" None t.

Definition guestAuthTagsForUser (userLogin : string) : list string :=
  match GuestUserAuthTags cfg !! LowerCase (TrimSpace userLogin) with
  | Some tag => if nonempty tag then [tag] else GuestAuthTags cfg
  | None => GuestAuthTags cfg
  end.

(** The deferred clean-up of a creation that failed for certain: [keyID] is the key that
    was minted for it. *)
Definition abandon_create (now : nat → time) (e : error) (keyID : string) (inst : Instance) : M Control Instance :=
  _ ← try host_check; (* cleanupNetworking *)
  _ ← try host_check; (* removeInstanceDir *)
  _ ← (if nonempty keyID && has_tsClient then try host_check else mret (inl tt)); (* deleteAuthKey *)
  let inst := set_UpdatedAt (now 0%nat) (set_LastError (firstNonEmpty [LastError inst; "provisioning failed"])
                (set_State StateFailed inst)) in
  _ ← try (on_db (UpdateInstance (now 0%nat) inst));
  throw e.

(** A step of the creation; its failure is recorded. *)
Definition or_abandon {A} (now : nat → time) (keyID : string) (inst : Instance) (m : M Control A)
    (k : A → M Control Instance) : M Control Instance :=
  r ← try m;
  match r with
  | inl a => k a
  | inr e => abandon_create now e keyID (set_LastError (error_text e) inst)
  end.

(** The guest of a creation reports its own identity, while the runner attests one
    runtime throughout. *)
Definition waitForEnrollment i (inst : Instance) : M Control (string * string * string) :=
  runtime ← instanceRuntimeIdentity inst;
  require (nonempty (StartRequestID inst)) (Errorf "cold enrollment has no attempt nonce");;
  r ← lift (si_join i);
  current ← instanceRuntimeIdentity inst;
  require (String.eqb current runtime) (Errorf "guest runtime changed during readiness check");;
  mret r.

(** The guest of a creation has booted: nothing tears it down any more. *)
Definition created (now : nat → time) i (pid : Z) (keyID : string) (inst : Instance) : M Control Instance :=
  let inst := set_UpdatedAt (now 0%nat) (set_State (awaitingState inst) (set_FirecrackerPID pid inst)) in
  on_db (UpdateInstance (now 0%nat) inst);;
  recordEvent (later 1 now) (ID inst) "firecracker" "microVM started" (pid_payload pid);;
  if String.eqb (KindName inst) KindOrb then waitForOrb (later 2 now) i inst else
  r ← try (waitForEnrollment i inst);
  match r with
  | inr e =>
      _ ← try (on_db (UpdateInstance (now 2%nat) (set_UpdatedAt (now 2%nat) (set_LastError (error_text e) inst))));
      throw e
  | inl (name, node, ip) =>
      let ready := joined (now 2%nat) (firstNonEmpty [name; Name inst]) node ip inst in
      on_db (UpdateInstanceRuntime (now 2%nat) inst ready);;
      recordEvent (later 3 now) (ID inst) "tailnet" "guest joined the tailnet"
        (tailnet_payload (TailscaleName ready) ip);;
      _ ← (if nonempty keyID && has_tsClient then try host_check else mret (inl tt)); (* deleteAuthKey *)
      mret ready
  end.

(** From the guest's identity to the runner: [keyID] is the minted key. *)
Definition create_launch (now : nat → time) i (authKey keyID : string) (tags : list string)
    (pool : option MemoryPool) (inst : Instance) : M Control Instance :=
  let bootstrap := bootstrap_of (Name inst) authKey tags in
  or_abandon now keyID inst host_check (λ _, (* writeMetadataFile *)
  recordEvent now (ID inst) "bootstrap" "guest bootstrap metadata written" "";;
  r ← startFirecracker (later 1 now) (si_request i) inst pool bootstrap false;
  match r with
  | (inst, Booted pid) => created (later 3 now) i pid keyID inst
  | (inst, NotBooted e) => abandon_create (later 3 now) e keyID (set_LastError (error_text e) inst)
  | (_, BootUncertain) => throw errStartUncertain
  end).

(** A virtual machine enrolls with a key of its own; an orb has none. *)
Definition create_enrol (now : nat → time) (ci : create_inputs) (actor : Actor) (pool : option MemoryPool)
    (inst : Instance) : M Control Instance :=
  if String.eqb (KindName inst) KindOrb then create_launch now (ci_start ci) "" "" [] pool inst else
  or_abandon now "" inst (lift (ci_key ci)) (λ key,
  let '(authKey, keyID) := (key : string * string) in
  r ← try (on_db (RecordEnrollmentKey (ID inst) keyID));
  match r with
  | inr e => abandon_create now e keyID inst
  | inl _ => create_launch now (ci_start ci) authKey keyID (guestAuthTagsForUser (UserLogin actor)) pool inst
  end).

(** The new instance's disk and network. *)
Definition create_steps (now : nat → time) (ci : create_inputs) (actor : Actor) (needsResize : bool)
    (pool : option MemoryPool) (inst : Instance) : M Control Instance :=
  or_abandon now "" inst host_check (λ _, (* cloneInstanceDisk *)
  recordEvent now (ID inst) "storage" "rootfs cloned from base image" "";;
  or_abandon (later 1 now) "" inst
    (if needsResize then
       host_check;; (* growRootFS *)
       recordEvent (later 1 now) (ID inst) "storage" "rootfs expanded for instance" ""
     else mret tt) (λ _,
  or_abandon (later 2 now) "" inst host_check (λ _, (* ensureInstanceRuntimePermissions *)
  or_abandon (later 2 now) "" inst host_check (λ _, (* setupNetworking *)
  recordEvent (later 2 now) (ID inst) "network" "tap device and NAT configured"
    (net_payload (TapDevice inst) (NetworkCIDR inst));;
  create_enrol (later 3 now) ci actor pool inst)))).

Definition Create (ci : create_inputs) (name : string) (actor : Actor) (opts : CreateOptions) : M Control Instance :=
  let now := si_now (ci_start ci) in
  require (validName name) (Errorf "invalid instance name");;
  let kind := kind_name (co_Kind opts) in
  require (String.eqb kind KindVM || String.eqb kind KindOrb) (Errorf "invalid instance kind");;
  let imageName := if nonempty (co_Image opts) then co_Image opts else "arch" in
  found ← create_image ci actor kind imageName (co_Template opts);
  let '(image, template) := (found : ImageFiles * option templateManifest) in
  host_check;; (* rootFSSize *)
  size ← lift (ci_size ci);
  resolved ← lift (resolveCreateOptions opts size);
  let '(o, needsResize) := (resolved : CreateOptions * bool) in
  ensureCreatePrereqs needsResize image kind;;
  pool ← create_capacity (cf_MemoryMiB cfg) (co_MemoryPoolName o) (co_MemoryMiB o);
  dir ← prepareInstanceDir now name;
  image ← copy_boot_files ci dir template image;
  inst ← create_record (VMNetworkCIDR cfg) (now 2%nat) pool
           (new_instance ci (now 2%nat) name kind imageName dir actor o image);
  recordEvent (later 3 now) (ID inst) "create" "instance record created" "";;
  create_steps (later 4 now) ci actor needsResize pool inst.
End lifecycle.
