(* ===== verification/LifecycleInv.v ===== *)
(** * The invariant of start attempts, across the store and the runner

    Every start the control plane ever sent is over, or it is the one its instance
    records and the record is not at rest: so an instance at rest has no start that
    could still be launched. *)
From S2P Require Import Prelude GoStrings Paths Timestamps Model Sql StoreDB StoreRequests StoreInstances.
From S2P Require Import StoreCleanup StoreMigration StorePools StoreTrace InstanceSpec RunnerState Runtime.
From S2P Require Import Receipts ReceiptStop RunnerTrace RunnerOps RunnerSpec PoolHost Provision.
From S2P Require Import PoolStore HostCapacity PoolCmds Identity Config Lifecycle.
From stdpp Require Import relations.

#[local] Open Scope Z_scope.

(** ** Attempts that are over *)

Section over.
Context (rcfg : ServerConfig).

(** The receipt has left the state from which it is launched. *)
Definition settled (q : StartResultRequest) (h : Host) : Prop :=
  ∃ r, file_of rcfg q h = Some (F_receipt r) ∧ RState r ≠ "accepted".

Definition over (q : StartResultRequest) (h : Host) : Prop := q_RequestID q = "" ∨ settled q h.

(** The runner has closed the attempt, if it has one. *)
Definition closed_or_legacy (q : StartResultRequest) (h : Host) : Prop := managed q → closed_at rcfg q h.

Lemma closed_settled q h : closed_at rcfg q h → settled q h.
Proof. intros (r & Hr & Hc). exists r. split; [done|]. by rewrite Hc. Qed.

Lemma jstep_settled q h h' :
  settled q h → jstep rcfg h h' →
  settled q h' ∧ (managed q → q ∈ launches h' → q ∈ launches h).
Proof.
  intros (rc & Hrc & Hc) Hs.
  assert (Hat : at_path (receiptDir rcfg (q_Name q)) (receipt_file (q_RequestID q)) h =
                Some (F_receipt rc)) by exact Hrc.
  unfold settled, file_of.
  destruct Hs as [h h' Hr Hl|name h|name h|name id h|r h Hnone Hst|r0 r h Hr0 Hst
                 |r h Hm Hr Ha Hf Hq|q' h Hq' _]; simpl; rewrite ?lookup_at_path.
  - split; [|by rewrite Hl]. exists rc. unfold at_path in *. by rewrite Hr.
  - split; [|by unfold mkdir_receipts; case_match]. exists rc. by rewrite at_path_mkdir.
  - split; [|by unfold touch_lock; case_match]. exists rc. by rewrite at_path_lock by apply receipt_lock_ne.
  - split; [|done]. exists rc. rewrite at_path_put, bool_decide_eq_false_2; [done|].
    intros [_ He]. by apply receipt_fence_ne in He.
  - split; [|done]. exists rc. rewrite at_path_put_receipt, bool_decide_eq_false_2; [done|].
    intros [HD He]. unfold file_of in Hnone. rewrite lookup_at_path in Hnone. congruence.
  - split; [|done]. rewrite at_path_put_receipt. case_bool_decide as Hd; [|by exists rc].
    destruct Hd as [HD He]. unfold file_of in Hr0. rewrite lookup_at_path, <- HD, <- He, Hat in Hr0.
    injection Hr0 as ->. exists r. split; [done|]. by destruct Hst; cbn; congruence.
  - split; [by exists rc|]. intros Hman [->|Hin]%elem_of_cons; [|done].
    unfold file_of in Hr. rewrite lookup_at_path in Hr. congruence.
  - split; [by exists rc|]. by intros Hman [->|Hin]%elem_of_cons.
Qed.

Lemma jsteps_settled q h h' :
  settled q h → jsteps rcfg h h' →
  settled q h' ∧ (managed q → q ∈ launches h' → q ∈ launches h).
Proof.
  intros Hc Hj. revert Hc. induction Hj as [h|h h1 h2 Hs _ IH]; intros Hc; [done|].
  destruct (jstep_settled q _ _ Hc Hs) as [Hc1 Hl1]. destruct (IH Hc1) as [Hc2 Hl2]. auto.
Qed.

Lemma jsteps_over q h h' : over q h → jsteps rcfg h h' → over q h'.
Proof. intros [?|Hs] Hj; [by left|right]. by apply (jsteps_settled q h h'). Qed.

Lemma closed_over q h : closed_or_legacy q h → over q h.
Proof.
  intros Hc. destruct (decide (managed q)) as [Hm|Hm]; [right; by apply closed_settled, Hc|left].
  by apply dec_stable.
Qed.

(** ** The invariant *)

Definition row_attempt (r : instance_row) : StartResultRequest :=
  mkStartResultRequest (row_Name r) (row_ID r) (StartRequestID (in_cols r)) (StartBootID (in_cols r)).

Definition resting (state : string) : Prop := state ∈ [StateStopped; StateFailed; StateDeleted].
#[export] Instance resting_dec state : Decision (resting state).
Proof. unfold resting. apply _. Defined.

Lemma awake_dec state : bool_decide (resting state) = false → ¬ resting state.
Proof. apply bool_decide_eq_false. Qed.

Definition attached (req : StartRequest) (d : DB) : Prop :=
  ∃ r, instances d !! sq_InstanceID req = Some r ∧ attempt req = row_attempt r ∧ ¬ resting (row_State r).

Record lc_inv (w : Control) : Prop := {
  li_wf : wf (pv_db w);
  li_journal : journal_ok rcfg (pv_host w);
  li_attempts : ∀ req, req ∈ pv_attempts w →
    over (attempt req) (pv_host w) ∨ attached req (pv_db w);
}.

(** The row of an instance records the attempt of [inst]. *)
Definition holds (inst : Instance) (w : Control) : Prop :=
  ∃ r, instances (pv_db w) !! ID inst = Some r ∧ row_attempt r = attempt_of inst.

(** *** Calls that leave the instances alone *)

Record calm (w w' : Control) : Prop := {
  cm_instances : instances (pv_db w') = instances (pv_db w);
  cm_wf : wf (pv_db w) → wf (pv_db w');
  cm_attempts : pv_attempts w' = pv_attempts w;
  cm_host : journal_ok rcfg (pv_host w) → jsteps rcfg (pv_host w) (pv_host w');
}.
#[export] Instance calm_preorder : PreOrder calm.
Proof.
  split; [by intros w; split|]. intros w1 w2 w3 [I1 W1 A1 H1] [I2 W2 A2 H2].
  split; [congruence|auto|congruence|]. intros Hok. etransitivity; [by apply H1|].
  apply H2. eapply jsteps_ok; [by apply H1|done].
Qed.

Lemma calm_same w w' : w = w' → calm w w'.
Proof. by intros <-. Qed.

Lemma calm_over q w w' : lc_inv w → calm w w' → over q (pv_host w) → over q (pv_host w').
Proof. intros Hw Hc Ho. eapply jsteps_over; [exact Ho|]. apply Hc, Hw. Qed.
Lemma calm_closed q w w' :
  lc_inv w → calm w w' → closed_or_legacy q (pv_host w) → closed_or_legacy q (pv_host w').
Proof.
  intros Hw Hc Hcl Hm. eapply jsteps_closed; [by apply Hcl|apply Hw|apply Hc, Hw].
Qed.
Lemma calm_holds inst w w' : calm w w' → holds inst w → holds inst w'.
Proof. intros Hc (r & Hr & Ha). exists r. by rewrite (cm_instances _ _ Hc). Qed.
Lemma calm_inv w w' : lc_inv w → calm w w' → lc_inv w'.
Proof.
  intros Hw Hc. pose proof Hw as [Hwf Hok Hatt]. split.
  - by apply Hc.
  - eapply jsteps_ok; [by apply Hc|done].
  - intros req Hreq. rewrite (cm_attempts _ _ Hc) in Hreq. destruct (Hatt req Hreq) as [Ho|(r & Hr & Ha)].
    + left. by apply (calm_over _ w w').
    + right. exists r. by rewrite (cm_instances _ _ Hc).
Qed.

Lemma post_calm {A} (m : M Control A) w :
  within calm m → lc_inv w → wp m (post lc_inv (λ _ w', calm w w')) w.
Proof. intros Hm Hw. eapply wp_mono; [apply Hm|]. intros o w' Hc. split; [by eapply calm_inv|done]. Qed.

(** *** Writes of the record *)

Lemma updated_row_attempt now (i : Instance) r :
  row_ID r = ID i → row_Name r = Name i → row_attempt (updated_row now i r) = attempt_of i.
Proof.
  unfold row_attempt, updated_row, stopped_update, attempt_of, row_Name, row_ID. cbn. intros HID HName.
  destruct (normalize_cases i) as [-> | ->]; destruct i; cbn in *; by rewrite HID, HName.
Qed.

Lemma holds_fields inst w : holds inst w → ∃ r, instances (pv_db w) !! ID inst = Some r ∧
  row_ID r = ID inst ∧ row_Name r = Name inst ∧ row_attempt r = attempt_of inst.
Proof. intros (r & Hr & Ha). exists r. pose proof Ha as Ha'. by injection Ha' as ? ? _ _. Qed.

(** The row of [k] becomes [r']: fine if the old attempt is over, or if it is the new
    one and [r'] is not at rest. *)
Lemma inv_row w k r r' :
  lc_inv w → instances (pv_db w) !! k = Some r →
  wf (set_instances (<[k := r']> (instances (pv_db w))) (pv_db w)) →
  over (row_attempt r) (pv_host w) ∨ (row_attempt r' = row_attempt r ∧ ¬ resting (row_State r')) →
  lc_inv (set_db (set_instances (<[k := r']> (instances (pv_db w))) (pv_db w)) w).
Proof.
  intros [Hwf Hok Hatt] Hk Hwf' Hcond. split; [done..|].
  intros req Hreq. destruct (Hatt req Hreq) as [Ho|(r0 & Hr0 & Ha & Hrest)]; [by left|].
  destruct (decide (k = sq_InstanceID req)) as [->|Hne].
  - assert (r0 = r) as -> by congruence. destruct Hcond as [Ho|[He Hn]]; [left; by rewrite Ha|right].
    exists r'. split; [cbn; apply lookup_insert_eq|]. by rewrite He.
  - right. exists r0. split; [|done]. cbn. by rewrite lookup_insert_ne.
Qed.

(** New rows, and rows taken away of which no attempt is open. *)
Lemma inv_db w d :
  lc_inv w → wf d →
  (∀ k r, instances (pv_db w) !! k = Some r →
     over (row_attempt r) (pv_host w) ∨ resting (row_State r) ∨ instances d !! k = Some r) →
  lc_inv (set_db d w).
Proof.
  intros [Hwf Hok Hatt] Hwf' Hd. split; [done..|].
  intros req Hreq. destruct (Hatt req Hreq) as [Ho|(r & Hr & Ha & Hrest)]; [by left|].
  destruct (Hd _ r Hr) as [Ho|[?|Hr']]; [left; by rewrite Ha|done|right; by exists r].
Qed.

(** The row is what a write of [inst] leaves. *)
Definition row_is (inst : Instance) (w : Control) : Prop :=
  ∃ r, instances (pv_db w) !! ID inst = Some r ∧ row_attempt r = attempt_of inst ∧
    row_State r = State inst ∧ FirecrackerPID (in_cols r) = FirecrackerPID inst.

(** The outcome of a write: done, refused without effect, or cut off on either side. *)
Definition written {A} (inst : Instance) (w : Control) (o : outcome A) (w' : Control) : Prop :=
  lc_inv w' ∧ pv_host w' = pv_host w ∧ pv_attempts w' = pv_attempts w ∧
  ((w' = w ∧ ∀ a, o ≠ Ok a) ∨ (row_is inst w' ∧ ∀ e, o ≠ Err e)).

Lemma set_db_id w : set_db (pv_db w) w = w.
Proof. by destruct w. Qed.

Lemma update_wp now inst0 inst w :
  lc_inv w → holds inst0 w → ID inst = ID inst0 → Name inst = Name inst0 →
  over (attempt_of inst0) (pv_host w) ∨ (attempt_of inst = attempt_of inst0 ∧ ¬ resting (State inst)) →
  wp (on_db (UpdateInstance now inst)) (written inst w) w.
Proof.
  intros Hw (r & Hr & HID & HName & Ha)%holds_fields EID EName Hcond.
  apply wp_on_db. eapply wp_mono.
  { apply wp_and; [|apply (op_wf _ _ (op_UpdateInstance now inst))].
    apply (UpdateInstance_wp now inst (ID inst0) r); [apply Hw|exact Hr|congruence]. }
  intros o d' [[[-> Hno]|[-> Hno]] Hwf'].
  - rewrite set_db_id. split_and!; [done..|]. left. split; [done|]. by intros [] ->.
  - assert (Hrow : row_attempt (updated_row now inst r) = attempt_of inst)
      by (apply updated_row_attempt; congruence).
    destruct (updated_row_fields now inst r) as (_ & Est & Epid & _).
    split_and!; [|done..|right; split; [|done]].
    + apply (inv_row w (ID inst0) r); [done|done|by apply Hwf', Hw|]. by rewrite Hrow, Est, Ha.
    + exists (updated_row now inst r). split_and!; [|done..]. cbn. rewrite EID. apply lookup_insert_eq.
Qed.

(** Only the row that was observed is written, and its attempt stays. *)
Lemma cas_wp now o u inst w :
  lc_inv w → holds inst w → ID o = ID inst →
  over (attempt_of inst) (pv_host w) ∨ ¬ resting (State u) →
  wp (on_db (UpdateInstanceRuntime now o u)) (λ out w',
    lc_inv w' ∧ pv_host w' = pv_host w ∧ pv_attempts w' = pv_attempts w ∧ holds inst w' ∧
    (out = Ok tt → ∃ r, instances (pv_db w') !! ID inst = Some r ∧ row_attempt r = attempt_of inst ∧
       row_State r = State u ∧ FirecrackerPID (in_cols r) = FirecrackerPID u)) w.
Proof.
  intros Hw (r & Hr & Ha) EID Hcond. apply wp_on_db. eapply wp_mono.
  { apply wp_and; [apply UpdateInstanceRuntime_spec, Hw|apply (op_wf _ _ (op_UpdateInstanceRuntime now o u))]. }
  intros out d' [Hspec Hwf'].
  assert (Hsame : d' = pv_db w → lc_inv (set_db d' w) ∧ holds inst (set_db d' w)).
  { intros ->. rewrite set_db_id. split; [done|by exists r]. }
  assert (Hwr : runtime_written now o u (pv_db w) d' → lc_inv (set_db d' w) ∧ holds inst (set_db d' w) ∧
    ∃ r, instances d' !! ID inst = Some r ∧ row_attempt r = attempt_of inst ∧
       row_State r = State u ∧ FirecrackerPID (in_cols r) = FirecrackerPID u).
  { intros (r0 & Hr0 & _ & ->). rewrite EID in Hr0. assert (r0 = r) as -> by congruence. rewrite EID.
    set (r' := stopped_update _ _). assert (Ha' : row_attempt r' = row_attempt r) by by destruct r as [[] ?].
    assert (Est : row_State r' = State u) by by destruct r as [[] ?].
    assert (Epid : FirecrackerPID (in_cols r') = FirecrackerPID u) by by destruct r as [[] ?].
    assert (Hl : instances (set_instances (<[ID inst := r']> (instances (pv_db w))) (pv_db w)) !! ID inst =
      Some r') by (cbn; apply lookup_insert_eq). rewrite EID in Hwf'.
    split_and!; [|exists r'; split; [exact Hl|congruence]|exists r'; split_and!; [exact Hl|congruence|done..]].
    apply (inv_row w (ID inst) r); [done|done|by apply Hwf', Hw|]. rewrite Ha, Ha', Est.
    destruct Hcond; [by left|by right]. }
  destruct out as [[]|e|].
  - destruct (Hwr Hspec) as (H1 & H2 & H3). by split_and!.
  - destruct (Hsame Hspec) as [H1 H2]. by split_and!.
  - destruct Hspec as [Hs|Hs]; [destruct (Hsame Hs) as [H1 H2]|destruct (Hwr Hs) as (H1 & H2 & _)]; by split_and!.
Qed.
End over.

(** ** What the calls of a command do to the invariant

    Looking at the runtime and recording an event leave every record alone; resolving
    and stopping leave its attempt alone and end it; a start replaces it only when it is
    over. *)

Section ops.
Context (rcfg : ServerConfig) (marshal : StartRequest → string)
  (start : StartRequest → M Host StartResponse) (guest_shutdown : string → Machine → Machine).
Context (start_quiet : ∀ req, quiet (start req)).

#[local] Abbreviation lc_inv := (lc_inv rcfg).
#[local] Abbreviation calm := (calm rcfg).
#[local] Abbreviation over := (over rcfg).
#[local] Abbreviation deliver := (deliver rcfg marshal start guest_shutdown).
#[local] Abbreviation happen := (happen rcfg marshal start guest_shutdown).
#[local] Abbreviation on_host := (on_host rcfg marshal start guest_shutdown).

(** ** Between two calls *)

Lemma calm_set_host w h : (journal_ok rcfg (pv_host w) → jsteps rcfg (pv_host w) h) → calm w (set_host h w).
Proof. by intros Hj; split. Qed.

Lemma calm_deliver w e : calm w (deliver w e).
Proof.
  destruct e as [req fs|q fs|req fs|m]; cbn [Lifecycle.deliver]; [case_bool_decide; [|done]|..];
    apply calm_set_host; intros Hok; [apply (runner_step_jsteps rcfg marshal start guest_shutdown start_quiet); [done|]..|].
  - apply step_call, ro_start.
  - apply step_call, ro_resolve.
  - apply step_call, ro_stop.
  - by apply rtc_once, js_frame.
Qed.

Lemma calm_happen w : calm w (happen w).
Proof.
  unfold Lifecycle.happen. destruct (pv_events w) as [|now later]; [done|].
  transitivity (set_events later w); [by split|]. generalize (set_events later w).
  induction now as [|e es IH]; intros w'; cbn; [done|]. transitivity (deliver w' e); [apply calm_deliver|apply IH].
Qed.

(** The call runs on the host as it is when the request arrives. *)
Lemma wp_runner_call {A} (m : M Host A) (Q : Host → A → Host → Prop) w :
  (∀ h, journal_ok rcfg h → wp m (λ o h', jsteps rcfg h h' ∧ ∀ a, o = Ok a → Q h a h') h) →
  wp (on_host m) (λ o w', calm w w' ∧ (journal_ok rcfg (pv_host w) →
    ∀ a, o = Ok a → ∃ h, jsteps rcfg (pv_host w) h ∧ Q h a (pv_host w'))) w.
Proof.
  intros Hm fs. unfold Lifecycle.on_host. pose proof (calm_happen w) as Hc. set (w1 := happen w) in *.
  destruct (m fs (pv_host w1)) as [[o h] fs'] eqn:Hrun. cbn.
  assert (Hh : journal_ok rcfg (pv_host w1) → jsteps rcfg (pv_host w1) h ∧ ∀ a, o = Ok a → Q (pv_host w1) a h).
  { intros Hok. specialize (Hm _ Hok fs). rewrite Hrun in Hm. exact Hm. }
  split; [etransitivity; [exact Hc|by apply calm_set_host; intros Hok; apply Hh]|].
  intros Hok a Ho. pose proof (cm_host _ _ _ Hc Hok) as Hj.
  destruct (Hh (jsteps_ok _ _ _ Hj Hok)) as [_ HQ]. exists (pv_host w1). split; [exact Hj|].
  apply HQ. by destruct o.
Qed.

(** Under the invariant. *)
Lemma post_on_host {A} (m : M Host A) (Q : Host → A → Host → Prop) w :
  lc_inv w →
  (∀ h, journal_ok rcfg h → wp m (λ o h', jsteps rcfg h h' ∧ ∀ a, o = Ok a → Q h a h') h) →
  wp (on_host m) (post (λ w', lc_inv w' ∧ calm w w')
    (λ a w', ∃ h, jsteps rcfg (pv_host w) h ∧ Q h a (pv_host w'))) w.
Proof.
  intros Hw Hm. eapply wp_mono; [apply (wp_runner_call m Q w Hm)|]. intros o w' [Hc HQ].
  split; [split; [by eapply calm_inv|done]|]. intros a Ha. apply HQ; [apply Hw|done].
Qed.

Lemma within_on_host {A} (m : M Host A) :
  (∀ h, journal_ok rcfg h → wp m (λ _ h', jsteps rcfg h h') h) → within calm (on_host m).
Proof.
  intros Hm w. eapply wp_mono; [apply (wp_runner_call m (λ _ _ _, True) w)|by intros o w' [Hc _]].
  intros h Hok. eapply wp_mono; [by apply Hm|]. by intros o h' Hj.
Qed.

Lemma within_on_machine {A} (f : Machine → result A) : within calm (on_host (query_machine f)).
Proof. apply within_on_host. intros h _. unfold query_machine. by apply wp_query. Qed.

Lemma within_calm_eq {A} (m : M Control A) : within eq m → within calm m.
Proof. apply within_mono. intros w w'. apply calm_same. Qed.

Lemma within_answer : within calm answer.
Proof. apply within_query. apply _. Qed.
Lemma within_host_check : within calm host_check.
Proof. apply within_query. apply _. Qed.

Lemma within_alive pid : within calm (alive rcfg marshal start guest_shutdown pid).
Proof. unfold alive. within_step; [apply within_try, within_on_machine|within_step]. Qed.

Lemma within_serialLog serial_log path :
  within calm (serialLogShowsGuestHalted rcfg marshal start guest_shutdown serial_log path).
Proof.
  unfold serialLogShowsGuestHalted. within_step; [within_step|].
  within_step; [apply within_try, within_on_machine|within_step].
Qed.

Lemma within_recordEvent now id typ message payload : within calm (recordEvent now id typ message payload).
Proof.
  unfold recordEvent. within_step; [apply within_try|within_step]. intros w. apply wp_on_db.
  eapply wp_mono; [apply wp_and; [|apply (op_wf _ _ (op_RecordEvent (now 0%nat) _))]|].
  - apply (within_wp (λ d d', instances d' = instances d) _ (λ d', instances d' = instances (pv_db w))); [|done].
    intros d. by apply wp_env.
  - intros o d' [Hi Hwf]. by split.
Qed.

(** ** Asking about a start *)

(** What the answer says of the attempt [q]. *)
Definition told (q : StartResultRequest) (resp : StartResponse) (h : Host) : Prop :=
  (Outcome resp = StartRunning → ∃ r, file_of rcfg q h = Some (F_receipt r) ∧ RState r = "started" ∧
     rs_PID resp = PID r ∧ read_ticks (procs (machine h) !! PID r) = inl (Ticks r)) ∧
  (Outcome resp = StartAbsent → closed_at rcfg q h).

Lemma told_over q resp h :
  told q resp h → Outcome resp = StartRunning ∨ Outcome resp = StartAbsent → over q h.
Proof.
  intros [Hr Ha] [H|H]; right.
  - destruct (Hr H) as (r & Hf & Hst & _). exists r. by rewrite Hst.
  - by apply closed_settled, Ha.
Qed.

#[local] Abbreviation resolve := (client_ResolveInstanceStart rcfg marshal start guest_shutdown).

(** The instances of [w0] are untouched in [w]. *)
Definition moved (w0 w : Control) : Prop := lc_inv w ∧ calm w0 w.

Lemma moved_refl w : lc_inv w → moved w w.
Proof. by split. Qed.
Lemma moved_trans w0 w1 w2 : moved w0 w1 → calm w1 w2 → moved w0 w2.
Proof. intros [Hi Hc] Hc2. split; [by eapply calm_inv|by etransitivity]. Qed.

Lemma moved_calm {A} (m : M Control A) w0 w :
  within calm m → moved w0 w → wp m (post (moved w0) (λ _ w', calm w w')) w.
Proof. intros Hm Hw. apply post_within; [exact Hm|]. intros w'. by apply moved_trans. Qed.

Lemma moved_on_host {A} (m : M Host A) (Q : Host → A → Host → Prop) w0 w :
  moved w0 w →
  (∀ h, journal_ok rcfg h → wp m (λ o h', jsteps rcfg h h' ∧ ∀ a, o = Ok a → Q h a h') h) →
  wp (on_host m) (post (moved w0) (λ a w', ∃ h, jsteps rcfg (pv_host w) h ∧ Q h a (pv_host w'))) w.
Proof.
  intros Hw Hm. eapply wp_mono; [apply (wp_runner_call m Q w Hm)|]. intros o w' [Hc HQ].
  split; [by eapply moved_trans|]. intros a Ha. apply HQ; [apply Hw|done].
Qed.

Lemma resolve_post q w0 w :
  moved w0 w → wp (resolve q) (post (moved w0) (λ resp w', told q resp (pv_host w'))) w.
Proof.
  intros Hw. unfold client_ResolveInstanceStart.
  eapply post_bind; [by apply post_lift|]. intros _ ? _ [-> _].
  eapply post_bind; [apply (moved_on_host _ (λ _ resp h', told q resp h') _ _ Hw)|].
  { intros h _. eapply wp_mono; [apply resolveStart_spec|]. intros o h' [Hj Ht]. split; [done|].
    by intros a ->. }
  intros resp w1 Hw1 (h & _ & Ht).
  eapply post_bind; [by apply post_query|]. intros _ ? _ [-> _].
  eapply post_bind; [by apply post_lift|]. intros _ ? _ [-> _]. by apply post_ret.
Qed.

#[local] Abbreviation startResult := (startResult rcfg marshal start guest_shutdown).

Lemma startResult_post inst w0 w :
  moved w0 w →
  wp (startResult inst) (post (moved w0) (λ resp w', told (attempt_of inst) resp (pv_host w'))) w.
Proof. apply resolve_post. Qed.

Lemma within_startResult inst : within calm (startResult inst).
Proof.
  unfold Lifecycle.startResult, client_ResolveInstanceStart, answer. repeat within_step. apply within_on_host.
  intros h _. eapply wp_mono; [apply resolveStart_spec|]. by intros o h' [Hj _].
Qed.

Lemma within_identity serial_log inst :
  within calm (instanceRuntimeIdentity rcfg marshal start guest_shutdown serial_log inst).
Proof.
  pose proof within_serialLog. pose proof within_startResult.
  unfold instanceRuntimeIdentity. repeat within_step; auto using within_on_machine.
Qed.

(** A stop that returns has closed the attempt. *)
Lemma stop_post req w0 w :
  moved w0 w →
  wp (client_StopInstanceVM rcfg marshal start guest_shutdown req)
    (post (moved w0) (λ _ w', closed_or_legacy rcfg (stop_attempt req) (pv_host w'))) w.
Proof.
  intros Hw. unfold client_StopInstanceVM.
  eapply post_bind; [by apply post_lift|]. intros _ ? _ [-> _].
  eapply post_bind; [apply (moved_on_host _ (λ _ _ h', closed_or_legacy rcfg (stop_attempt req) h') _ _ Hw)|].
  { intros h _. eapply wp_mono; [apply receiptStop_spec|]. intros o h' [Hj Hs]. split; [done|].
    intros [] Ho He. by destruct (Hs He Ho) as (h0 & _ & r & _ & Hcl & _). }
  intros [] w1 Hw1 (h & _ & Ht). eapply post_mono; [by apply post_query|done|]. by intros ? ? _ [-> _].
Qed.
End ops.
