(* ===== verification/LifecycleCmds.v ===== *)
(** * Stopping and reconciling an instance

    Both ask the runner what became of the recorded start, and bring it to rest; the
    record keeps its attempt, and is at rest only once the attempt is over. *)
From S2P Require Import Prelude GoStrings Timestamps Paths Model Sql StoreDB StoreRequests.
From S2P Require Import StoreInstances StoreCleanup StoreMigration StorePools StoreTrace InstanceSpec Identity Config.
From S2P Require Import PoolHost RunnerState Runtime Receipts ReceiptStop RunnerTrace RunnerOps RunnerSpec.
From S2P Require Import Provision PoolStore HostCapacity PoolCmds Lifecycle LifecycleInv.
From stdpp Require Import relations.

#[local] Open Scope Z_scope.

Section cmds.
Context (rcfg : ServerConfig) (marshal : StartRequest → string)
  (start : StartRequest → M Host StartResponse) (guest_shutdown : string → Machine → Machine).
Context (start_quiet : ∀ req, quiet (start req)).
Context (serial_log : Machine → string → option string) (pid_payload : Z → string).

#[local] Abbreviation lc_inv := (lc_inv rcfg).
#[local] Abbreviation calm := (calm rcfg).
#[local] Abbreviation over := (over rcfg).
#[local] Abbreviation moved := (moved rcfg).
#[local] Abbreviation resolveRuntime := (resolveRuntime rcfg marshal start guest_shutdown).
#[local] Abbreviation StopWithOptions := (StopWithOptions rcfg marshal start guest_shutdown).
#[local] Abbreviation reconcileRuntime := (reconcileRuntime rcfg marshal start guest_shutdown serial_log pid_payload).

(** ** A command that keeps the attempt of its instance *)

(** Since [w0] the runner has moved on, and the record still names the attempt of [inst]. *)
Definition kept (inst : Instance) (w0 w : Control) : Prop :=
  lc_inv w ∧ holds inst w ∧ jsteps rcfg (pv_host w0) (pv_host w) ∧ pv_attempts w = pv_attempts w0.

Lemma kept_refl inst w : lc_inv w → holds inst w → kept inst w w.
Proof. intros; unfold kept; by split_and!. Qed.
Lemma kept_moved inst w0 w w' : kept inst w0 w → moved w w' → kept inst w0 w'.
Proof.
  intros (Hi & Hh & Hj & Ha) [Hi' Hc]. unfold kept. split_and!; [done|by eapply calm_holds| |].
  - etransitivity; [exact Hj|]. apply Hc, Hi.
  - by rewrite (cm_attempts _ _ _ Hc).
Qed.
Lemma kept_calm inst w0 w w' : kept inst w0 w → calm w w' → kept inst w0 w'.
Proof. intros Hk Hc. apply (kept_moved _ _ w); [done|]. split; [eapply calm_inv; [apply Hk|done]|done]. Qed.
Lemma kept_attempt i inst w0 w : attempt_of i = attempt_of inst → kept inst w0 w → kept i w0 w.
Proof.
  intros Ha (Hi & (r & Hr & Hra) & Hj & Hat). unfold kept. split_and!; [done| |done..]. exists r.
  injection Ha as ? HID ? ?. split; [by rewrite HID|]. rewrite Hra. unfold attempt_of. congruence.
Qed.

Lemma post_moved {A} (m : M Control A) inst w0 w (P : A → Control → Prop) :
  wp m (post (moved w) P) w → kept inst w0 w → wp m (post (kept inst w0) P) w.
Proof. intros Hm Hk. eapply post_mono; [exact Hm| |done]. intros w'. by apply kept_moved. Qed.

Lemma post_still {A} (m : M Control A) inst w0 w :
  within calm m → kept inst w0 w → wp m (post (kept inst w0) (λ _ w', calm w w')) w.
Proof. intros Hm Hk. apply post_within; [exact Hm|]. intros w'. by apply kept_calm. Qed.

Lemma over_later q w0 w : over q (pv_host w0) → jsteps rcfg (pv_host w0) (pv_host w) → over q (pv_host w).
Proof. apply jsteps_over. Qed.

Lemma over_calm q inst w0 w w' : kept inst w0 w → calm w w' → over q (pv_host w) → over q (pv_host w').
Proof. intros (Hi & _) Hc Ho. by apply (calm_over _ q w w'). Qed.

Lemma row_is_calm i w w' : calm w w' → row_is i w → row_is i w'.
Proof. intros Hc (r & Hr & Hx). exists r. by rewrite (cm_instances _ _ _ Hc). Qed.

(** A write that keeps the attempt: at rest only when it is over. *)
Lemma kept_update now i inst w0 w :
  kept inst w0 w → attempt_of i = attempt_of inst →
  over (attempt_of inst) (pv_host w) ∨ ¬ resting (State i) →
  wp (on_db (UpdateInstance now i)) (post (kept inst w0) (λ _ w', pv_host w' = pv_host w ∧ row_is i w')) w.
Proof.
  intros Hk Ha Hcond. pose proof Hk as (Hi & Hh & Hj & Hat). pose proof Ha as Ha'. injection Ha' as EName EID _ _.
  eapply wp_mono.
  { apply (update_wp rcfg now inst i); [done..|]. destruct Hcond; [by left|by right]. }
  intros o w' (Hi' & Eh & Eat & [[-> Hno]|[(r & Hr & Hra & Hx) _]]).
  - split; [done|]. intros a ->. by destruct (Hno a).
  - split; [|intros _ _; split; [done|by exists r]]. unfold kept. split_and!; [done| |by rewrite Eh|congruence].
    exists r. rewrite EID in Hr. split; [done|congruence].
Qed.

Lemma kept_cas now o u inst w0 w :
  kept inst w0 w → ID o = ID inst → over (attempt_of inst) (pv_host w) ∨ ¬ resting (State u) →
  wp (on_db (UpdateInstanceRuntime now o u)) (post (kept inst w0) (λ _ w', pv_host w' = pv_host w ∧
    ∃ r, instances (pv_db w') !! ID inst = Some r ∧ row_attempt r = attempt_of inst ∧
      row_State r = State u ∧ FirecrackerPID (in_cols r) = FirecrackerPID u)) w.
Proof.
  intros (Hi & Hh & Hj & Hat) HID Hcond. eapply wp_mono; [by apply (cas_wp rcfg now o u inst)|].
  intros out w' (Hi' & Eh & Eat & Hh' & Hr). split; [unfold kept; split_and!; [done..|by rewrite Eh|congruence]|].
  intros [] Ho. split; [done|by apply Hr].
Qed.

(** ** Reading the record *)

Lemma nonempty_false s : nonempty s = false → s = "".
Proof. by destruct s. Qed.

Lemma scan_attempt c (i : Instance) :
  scanInstance c = inl i → StartRequestID i = StartRequestID c ∧ StartBootID i = StartBootID c.
Proof.
  unfold scanInstance. destruct (parseTime (CreatedAt c)); [|done].
  destruct (parseTime (UpdatedAt c)); [|done]. cbn [mbind result_bind].
  destruct (match DeletedAt c with Some _ => _ | None => _ end); [|done]. cbn [mbind result_bind].
  intros [= <-]. unfold normalizeInstanceMemory. by case_match.
Qed.

(** What is read is the row of the name. *)
Definition read_of (name : string) (i : Instance) (w : Control) : Prop :=
  holds i w ∧ Name i = name ∧ row_is i w.

Lemma GetInstance_holds name w :
  lc_inv w → reads (on_db (GetInstance name)) (λ i, read_of name i w) w.
Proof.
  intros Hw. eapply reads_mono; [apply reads_on_db, GetInstance_reads|].
  intros i (k & r & Hk & Hn & Hs). pose proof (scan_attempt _ _ Hs) as [E1 E2].
  apply scan_fields in Hs as (EID & EN & ES & EP & _).
  assert (Hkey : ID i = k) by (rewrite EID; exact (wf_instances _ (li_wf _ _ Hw) k r Hk)).
  assert (Ha : row_attempt r = attempt_of i).
  { unfold row_attempt, attempt_of. by rewrite EN, EID, E1, E2. }
  unfold read_of. split_and!; [by exists r; rewrite Hkey|by rewrite EN|]. exists r. by rewrite Hkey.
Qed.

(** Two records of one name are one record. *)
Lemma holds_unique i j w : lc_inv w → holds i w → holds j w → Name i = Name j → attempt_of i = attempt_of j.
Proof.
  intros Hw (r & Hr & HID & HN & Ha)%holds_fields (r' & Hr' & HID' & HN' & Ha')%holds_fields HName.
  assert (ID i = ID j) as E.
  { eapply (named_point (pv_db w) (ID j) r'); [apply Hw|exact Hr'|exact Hr|]. apply String.eqb_eq. congruence. }
  rewrite E in Hr. assert (r = r') as -> by congruence. congruence.
Qed.

Lemma post_GetInstance name inst w0 w :
  kept inst w0 w →
  wp (on_db (GetInstance name)) (post (kept inst w0) (λ i w', w' = w ∧ read_of name i w)) w.
Proof. intros Hk. apply reads_post; [|done]. apply GetInstance_holds, Hk. Qed.

(** ** What became of the start *)

Lemma found_attempt pid i : attempt_of (found_running pid i) = attempt_of i ∧ attempt_of (found_absent i) = attempt_of i.
Proof. unfold found_running, found_absent. repeat case_match; by destruct i. Qed.

Lemma found_running_awake pid i : ¬ resting (State i) → ¬ resting (State (found_running pid i)).
Proof.
  unfold found_running, awaitingState. intros Hn. destruct (String.eqb (State i) _); [|by destruct i].
  destruct (String.eqb (KindName _) _); destruct i; by apply awake_dec.
Qed.

Lemma persist_post now o u inst w0 w :
  kept inst w0 w → ID o = ID inst → attempt_of u = attempt_of inst →
  over (attempt_of inst) (pv_host w) ∨ ¬ resting (State u) →
  wp (persist_outcome now o u) (post (kept inst w0) (λ i w', attempt_of i = attempt_of inst ∧
    pv_host w' = pv_host w)) w.
Proof.
  intros Hk HID Ha Hcond. unfold persist_outcome. case_match; [by apply post_ret|].
  eapply post_bind; [apply (kept_cas _ _ _ inst); [done|done|]|].
  - destruct Hcond; [by left|right]. by destruct u.
  - intros _ w' Hk' [Eh _]. apply post_ret; [done|]. split; [|done]. rewrite <- Ha. by destruct u.
Qed.

Lemma resolveRuntime_post now inst w0 w :
  kept inst w0 w →
  wp (resolveRuntime now inst) (post (kept inst w0) (λ i w', attempt_of i = attempt_of inst ∧
    (over (attempt_of inst) (pv_host w') ∨ (i = inst ∧ State inst = StateDeleted ∧ w' = w)))) w.
Proof.
  intros Hk. unfold Lifecycle.resolveRuntime.
  destruct (nonempty (StartRequestID inst)) eqn:Hne; cbn [negb orb];
    [|apply post_ret; [done|]; split; [done|]; left; left; by apply nonempty_false].
  destruct (String.eqb_spec (State inst) StateDeleted) as [Hd|Hd]; [apply post_ret; [done|]; auto|].
  eapply post_bind; [apply post_try; eapply post_moved; [by apply startResult_post, moved_refl, Hk|done]|].
  intros [resp|e] w1 Hk1 Htold; [|by apply post_throw]. specialize (Htold resp eq_refl).
  destruct (String.eqb_spec (Outcome resp) StartRunning) as [Hrun|_].
  - pose proof (told_over _ _ _ _ Htold (or_introl Hrun)) as Ho.
    do 2 (eapply post_bind; [by apply post_require|]; intros _ ? _ [-> ?]).
    eapply post_mono; [apply (persist_post _ _ _ inst); [done..|apply found_attempt|by left]|done|].
    intros i w' _ [Ha Eh]. split; [done|left]. by rewrite Eh.
  - destruct (String.eqb_spec (Outcome resp) StartAbsent) as [Habs|_]; [|by apply post_throw].
    pose proof (told_over _ _ _ _ Htold (or_intror Habs)) as Ho.
    case_match; [|by apply post_ret; auto].
    eapply post_bind; [by apply post_query|]. intros _ ? _ [-> _].
    eapply post_mono; [apply (persist_post _ _ _ inst); [done..|apply (found_attempt 0)|by left]|done|].
    intros i w' _ [Ha Eh]. split; [done|left]. by rewrite Eh.
Qed.

Lemma resolve_kept now i inst w0 w :
  kept inst w0 w → attempt_of i = attempt_of inst →
  wp (resolveRuntime now i) (post (kept inst w0) (λ i' w', attempt_of i' = attempt_of inst ∧
    (over (attempt_of inst) (pv_host w') ∨ (i' = i ∧ State i = StateDeleted ∧ w' = w)))) w.
Proof.
  intros Hk Ha. rewrite <- Ha. eapply post_mono.
  - apply resolveRuntime_post. by apply (kept_attempt _ inst).
  - intros w'. by apply kept_attempt.
  - done.
Qed.

(** The same, as the reader of the record knows its state. *)
Definition settled_or_deleted (inst : Instance) (w : Control) : Prop :=
  over (attempt_of inst) (pv_host w) ∨
  ∃ r, instances (pv_db w) !! ID inst = Some r ∧ row_State r = StateDeleted.

Lemma settled_or_deleted_calm inst w0 w w' :
  kept inst w0 w → calm w w' → settled_or_deleted inst w → settled_or_deleted inst w'.
Proof.
  intros Hk Hc [Ho|(r & Hr & Hd)]; [left; by eapply over_calm|right].
  exists r. by rewrite (cm_instances _ _ _ Hc).
Qed.

(** ** Stop *)

(** The record is at rest, without a process, and no start of it can come any more. *)
Definition at_rest (i : Instance) (w : Control) : Prop :=
  State i = StateStopped ∧ FirecrackerPID i = 0 ∧ row_is i w ∧ closed_or_legacy rcfg (attempt_of i) (pv_host w).

Lemma stop_attempt_of inst save :
  stop_attempt (mkStopRequest save (ID inst) (StartRequestID inst) (StartBootID inst) (Name inst)
    (FirecrackerPID inst)) = attempt_of inst.
Proof. done. Qed.

Lemma stopped_fields t i :
  attempt_of (stopped t i) = attempt_of i ∧ State (stopped t i) = StateStopped ∧ FirecrackerPID (stopped t i) = 0.
Proof. by destruct i. Qed.
Lemma stopping_fields t i :
  attempt_of (stopping t i) = attempt_of i ∧ State (stopping t i) = StateStopping.
Proof. by destruct i. Qed.

Ltac still H := eapply post_bind; [eapply post_still; [H|done]|].

Lemma stop_instance_post now save i inst w0 w :
  kept inst w0 w → attempt_of i = attempt_of inst →
  wp (stop_instance rcfg marshal start guest_shutdown now save i)
    (post (kept inst w0) (λ i' w', attempt_of i' = attempt_of inst ∧ at_rest i' w')) w.
Proof.
  intros Hk Ha. unfold stop_instance.
  do 3 (eapply post_bind; [by apply post_require|]; intros _ ? _ [-> _]).
  set (i1 := stopping _ i). destruct (stopping_fields (now 0%nat) i) as [E1 S1]. fold i1 in E1, S1.
  assert (HS1 : ¬ resting (State i1)) by (rewrite S1; by apply awake_dec).
  eapply post_bind; [apply (kept_update _ i1 inst); [done|congruence|by right]|]. intros _ w1 Hk1 _.
  still ltac:(apply within_recordEvent). intros ? w2 Hk2 _.
  eapply post_bind; [apply (resolve_kept _ i1 inst); [done|congruence]|]. intros i2 w3 Hk3 [E2 _].
  eapply post_bind; [eapply post_moved; [by apply stop_post, moved_refl, Hk3|done]|].
  rewrite stop_attempt_of, E2. intros _ w4 Hk4 Ho4.
  eapply post_bind; [by apply post_query|]. intros _ ? _ [-> _].
  destruct (stopped_fields (now 3%nat) i2) as (E3 & S3 & P3). set (i3 := stopped _ i2) in *.
  eapply post_bind; [apply (kept_update _ i3 inst); [done|congruence|by left; apply closed_over]|]. intros _ w5 Hk5 [Eh Hrow].
  still ltac:(apply within_recordEvent). intros ? w6 Hk6 Hc6. apply post_ret; [done|].
  split; [congruence|]. split_and!; [done..|eapply row_is_calm; [exact Hc6|exact Hrow]|].
  rewrite E3, E2. eapply calm_closed; [apply Hk5|exact Hc6|]. by rewrite Eh.
Qed.

(** Whatever the name, no attempt is lost. *)
Definition tame (name : string) (w0 w : Control) : Prop :=
  lc_inv w ∧ ∀ i, holds i w0 → Name i = name → kept i w0 w.

Lemma tame_refl name w : lc_inv w → tame name w w.
Proof. intros Hw. split; [done|]. intros i Hi _. by apply kept_refl. Qed.

Lemma tame_kept i name w0 w : lc_inv w0 → read_of name i w0 → kept i w0 w → tame name w0 w.
Proof.
  intros Hw0 (Hh & Hn & _) Hk. split; [apply Hk|]. intros j Hj HN.
  apply (kept_attempt _ i); [|done]. eapply holds_unique; [exact Hw0|done..|congruence].
Qed.

(** A command on the record of a name. *)
Lemma post_named {A} name (k : Instance → M Control A) (P : A → Control → Prop) w :
  lc_inv w → (∀ i, read_of name i w → wp (k i) (post (kept i w) P) w) →
  wp (on_db (GetInstance name) ≫= k) (post (tame name w) P) w.
Proof.
  intros Hw Hk. eapply post_bind; [apply reads_post; [by apply GetInstance_holds|by apply tame_refl]|].
  intros i ? _ [-> Hi]. eapply post_mono; [by apply Hk| |done]. intros w'. by eapply tame_kept.
Qed.

Lemma Stop_post now save name w :
  lc_inv w → wp (StopWithOptions now save name) (post (tame name w) (λ i w', Name i = name ∧ at_rest i w')) w.
Proof.
  intros Hw. apply post_named; [done|]. intros i (Hh & Hn & _).
  eapply post_mono; [by apply stop_instance_post; [apply kept_refl|]|done|].
  intros i' w' _ [Ha Hr]. injection Ha as EN _ _ _. split; [congruence|done].
Qed.

Lemma Stop_kept now save name inst w0 w :
  kept inst w0 w → Name inst = name →
  wp (StopWithOptions now save name) (post (kept inst w0) (λ i w', attempt_of i = attempt_of inst ∧
    at_rest i w')) w.
Proof.
  intros Hk HName. eapply post_bind; [by apply post_GetInstance|]. intros i ? _ [-> (Hh & Hn & _)].
  apply stop_instance_post; [done|]. eapply holds_unique; [apply Hk|done|apply Hk|congruence].
Qed.

(** ** Reconciliation *)

Lemma within_fence id : within eq (CheckCleanupFence id).
Proof. unfold CheckCleanupFence. solve_reads. Qed.

Lemma reconcile_kept now inst i w0 w :
  kept inst w0 w → attempt_of i = attempt_of inst →
  row_is i w → wp (reconcileRuntime now i) (post (kept inst w0) (λ _ w', settled_or_deleted inst w')) w.
Proof.
  intros Hk Ha Hst. unfold Lifecycle.reconcileRuntime.
  eapply post_bind; [eapply post_still; [apply within_calm_eq, within_on_db, within_fence|done]|].
  intros ? w1 Hk1 Hc1.
  eapply (post_bind _ _ _ (λ i' w', attempt_of i' = attempt_of inst ∧ settled_or_deleted inst w')).
  { destruct (nonempty (StartRequestID i)) eqn:Hne.
    - eapply post_mono; [by apply (resolve_kept _ i inst)|done|].
      intros i' w' _ [Ha' [Ho|(-> & Hd & ->)]]; (split; [done|]); [by left|right].
      destruct (row_is_calm _ _ _ Hc1 Hst) as (r & Hr & _ & HS & _). injection Ha as _ <- _ _.
      exists r. split; [done|congruence].
    - apply post_ret; [done|]. split; [done|]. left. left. rewrite <- Ha. cbn. by apply nonempty_false. }
  intros i2 w2 Hk2 [Ha2 Hs2].
  destruct (bool_decide _) eqn:Hrest; [by apply post_ret|]. destruct (_ <=? 0); [by apply post_ret|].
  still ltac:(by apply within_alive). intros running w3 Hk3 Hc3.
  eapply post_bind; [eapply post_still; [|exact Hk3]|].
  { destruct running; [by apply within_serialLog|apply within_ret, _]. }
  intros halted w4 Hk4 Hc4.
  assert (Hs4 : settled_or_deleted inst w4).
  { eapply settled_or_deleted_calm, settled_or_deleted_calm; [exact Hk3|exact Hc4|exact Hk2|done..]. }
  destruct (_ && _); [by apply post_ret|]. destruct (_ && _).
  - eapply post_bind; [by apply (resolve_kept _ i2 inst)|]. intros i5 w5 Hk5 [_ Hs5]. apply post_ret; [done|].
    destruct Hs5 as [Ho|(-> & Hd & ->)]; [by left|done].
  - still ltac:(apply within_recordEvent). intros ? w5 Hk5 _.
    eapply post_bind; [apply (Stop_kept _ _ _ inst); [done|by injection Ha2]|].
    intros i6 w6 Hk6 [Ha6 (_ & _ & _ & Ho)]. apply post_ret; [done|]. left. rewrite <- Ha6. by apply closed_over.
Qed.

Lemma Reconcile_post now name w :
  lc_inv w →
  wp (ReconcileInstanceRuntime rcfg marshal start guest_shutdown serial_log pid_payload now name)
    (post (tame name w) (λ i w', read_of name i w')) w.
Proof.
  intros Hw. apply post_named; [done|]. intros i (Hh & Hn & Hst).
  eapply post_bind; [by apply (reconcile_kept _ i i); [apply kept_refl| |]|]. intros _ w' Hk' _.
  eapply post_mono; [by apply post_GetInstance|done|]. by intros j ? _ [-> Hj].
Qed.
End cmds.
