(* ===== verification/LifecycleStart.v ===== *)
(** * Starting an instance

    An instance is admitted only when its last attempt is over; the new attempt is
    recorded before it is sent, and the record comes to rest again only when the runner
    says that the attempt has no runtime. *)
From S2P Require Import Prelude GoStrings Timestamps Paths Model Sql StoreDB StoreRequests.
From S2P Require Import StoreInstances Network StoreCleanup StoreMigration StorePools StoreTrace InstanceSpec Identity Config.
From S2P Require Import PoolHost RunnerState Runtime Receipts ReceiptStop RunnerTrace RunnerOps RunnerSpec.
From S2P Require Import Provision PoolStore HostCapacity PoolCmds Lifecycle LifecycleInv LifecycleCmds.
From stdpp Require Import relations.

#[local] Open Scope Z_scope.

Section starting.
Context (rcfg : ServerConfig) (marshal : StartRequest → string)
  (start : StartRequest → M Host StartResponse) (guest_shutdown : string → Machine → Machine).
Context (start_quiet : ∀ req, quiet (start req)).
Context (cfg : Config) (has_tsClient : bool) (ParseMAC ParseCIDR ParseIP : string → bool).
Context (serial_log : Machine → string → option string) (pid_payload : Z → string)
  (error_payload : string → string) (net_payload tailnet_payload : string → string → string).

#[local] Abbreviation lc_inv := (lc_inv rcfg).
#[local] Abbreviation calm := (calm rcfg).
#[local] Abbreviation over := (over rcfg).
#[local] Abbreviation moved := (moved rcfg).
#[local] Abbreviation kept := (kept rcfg).
#[local] Abbreviation identity := (instanceRuntimeIdentity rcfg marshal start guest_shutdown serial_log).
#[local] Abbreviation client_Start :=
  (client_StartInstanceVM rcfg marshal start guest_shutdown ParseMAC ParseCIDR ParseIP).

(** The runner has launched the recorded attempt, and its process is the recorded one. *)
Definition attested (i : Instance) (w : Control) : Prop :=
  managed (attempt_of i) → ∃ r, file_of rcfg (attempt_of i) (pv_host w) = Some (F_receipt r) ∧
    RState r = "started" ∧ PID r = FirecrackerPID i ∧
    read_ticks (procs (machine (pv_host w)) !! PID r) = inl (Ticks r).

(** The instance is up: as recorded, and as the runner attests. *)
Definition up (i : Instance) (w : Control) : Prop := State i = StateReady ∧ row_is i w ∧ attested i w.

(** ** Admission *)

Lemma prereqs_state i w :
  reads (ensureStartPrereqs has_tsClient i) (λ _, State i ≠ StateDeleted) w.
Proof.
  unfold ensureStartPrereqs. eapply reads_bind; [apply reads_query|]. intros _ _.
  eapply reads_bind; [apply reads_require|]. intros _ _.
  eapply reads_bind; [apply reads_require|]. intros _ Hd%negb_true_iff%String.eqb_neq.
  eapply reads_mono; [apply reads_any|by intros]. unfold host_check. solve_reads.
Qed.

Lemma applyConfigured_fields i :
  attempt_of (applyConfiguredBootArtifacts i) = attempt_of i ∧
  State (applyConfiguredBootArtifacts i) = State i ∧
  FirecrackerPID (applyConfiguredBootArtifacts i) = FirecrackerPID i.
Proof. by destruct i. Qed.

Lemma within_start_sent s : within calm (start_sent s).
Proof. intros w fs. by split. Qed.

Lemma within_pool_for inst : within eq (requireMemoryPoolForInstance inst).
Proof.
  unfold requireMemoryPoolForInstance, memoryPoolForInstance, GetMemoryPoolByID, CheckMemoryPoolResize,
    PendingMemoryPoolResize. solve_reads.
Qed.

Lemma admit_kept now name inst w0 w :
  kept inst w0 w → Name inst = name → settled_or_deleted rcfg inst w →
  wp (admit_start (cf_MemoryMiB cfg) has_tsClient now name) (post (kept inst w0) (λ p w',
    attempt_of p.1 = attempt_of inst ∧ State p.1 = StateProvisioning ∧ over (attempt_of inst) (pv_host w'))) w.
Proof.
  intros Hk HName Hs. unfold admit_start.
  eapply post_bind; [by apply (post_GetInstance rcfg)|]. intros got ? _ [-> (Hh & Hn & Hrow)].
  destruct (applyConfigured_fields got) as (Ha & HS & _). set (cur := applyConfiguredBootArtifacts got) in *.
  assert (Hgot : attempt_of got = attempt_of inst)
    by (eapply (holds_unique rcfg); [apply Hk|done|apply Hk|congruence]).
  eapply post_bind; [by apply post_require|]. intros _ ? _ [-> _].
  eapply post_bind; [eapply (reads_post (kept inst w0)); [apply reads_rejecting, reads_query|done]|]. intros _ ? _ [-> _].
  eapply post_bind; [by apply post_query|]. intros _ ? _ [-> _].
  eapply post_bind; [eapply reads_post; [apply reads_rejecting, prereqs_state|done]|]. intros _ ? _ [-> Hd].
  assert (Ho : over (attempt_of inst) (pv_host w)).
  { destruct Hs as [Ho|(r & Hr & Hdel)]; [done|]. destruct Hd. rewrite HS.
    destruct Hrow as (r' & Hr' & _ & HS' & _). injection Hgot as _ E _ _. rewrite E in Hr'. congruence. }
  eapply post_bind; [by apply post_query|]. intros running ? _ [-> _].
  eapply post_bind; [by apply post_require|]. intros _ ? _ [-> _].
  eapply (post_bind _ _ _ (λ _ w', w' = w)).
  { destruct (UsesMemoryPool cur).
    - eapply post_bind; [eapply (reads_post (kept inst w0)); [apply reads_rejecting, reads_any, within_pool_for|done]|].
      intros p ? _ [-> _]. eapply post_bind; [eapply (reads_post (kept inst w0)); [apply reads_rejecting, reads_lift|done]|].
      intros _ ? _ [-> _]. by apply post_ret.
    - eapply (post_bind _ _ _ (λ _ w', w' = w)); [|intros ? ? ? ->; by apply post_ret].
      eapply wp_mono; [apply reads_rejecting, ensureReservation_reads|]. by intros o ? [-> _]. }
  intros pool ? _ ->. set (cur' := set_UpdatedAt _ _).
  assert (Hcur : attempt_of cur' = attempt_of inst ∧ State cur' = StateProvisioning)
    by (split; [rewrite <- Hgot, <- Ha|]; by destruct cur).
  destruct Hcur as [Ha' HS'].
  eapply post_bind; [by apply (kept_update rcfg _ cur' inst); [| |left]|]. intros _ w1 Hk1 [Eh _].
  eapply (post_bind _ _ _ (λ _ w', calm w1 w')).
  - destruct pool; [eapply (post_still rcfg); [apply within_start_sent|done]|by apply post_ret].
  - intros _ w2 Hk2 Hc. apply post_ret; [done|]. split_and!; [done..|].
    eapply over_calm; [exact Hk1|exact Hc|]. by rewrite Eh.
Qed.

(** ** The guest's readiness *)

Lemma identity_post inst w0 w :
  moved w0 w → wp (identity inst) (post (moved w0) (λ _ w', attested inst w')) w.
Proof.
  intros Hw. unfold instanceRuntimeIdentity.
  eapply post_bind; [by apply post_require|]. intros _ ? _ [-> _].
  eapply post_bind; [by apply (moved_calm rcfg); [apply within_serialLog|]|]. intros halted w1 Hw1 _.
  eapply post_bind; [by apply post_require|]. intros _ ? _ [-> _].
  destruct (nonempty (StartRequestID inst)) eqn:Hne.
  - eapply post_bind; [by apply startResult_post|]. intros resp w2 Hw2 [Hrun _].
    eapply post_bind; [by apply post_require|]. intros _ ? _ [-> [Ho%String.eqb_eq Hp%Z.eqb_eq]%andb_prop].
    apply post_ret; [done|]. intros _. destruct (Hrun Ho) as (r & Hr & Hst & Hpid & Ht).
    exists r. split_and!; [done..|congruence|done].
  - eapply post_mono; [by apply (moved_calm rcfg); [apply within_on_machine|]|done|].
    intros _ w2 _ _ Hm. destruct Hm. by apply nonempty_false.
Qed.

Lemma attested_host i i' w w' :
  attempt_of i' = attempt_of i → FirecrackerPID i' = FirecrackerPID i → pv_host w' = pv_host w →
  attested i w → attested i' w'.
Proof. unfold attested. by intros -> -> ->. Qed.

(** What a record that goes on to "ready" keeps. *)
Lemma joined_fields t name node ip i :
  let j := joined t name node ip i in
  attempt_of j = attempt_of i ∧ State j = StateReady ∧ FirecrackerPID j = FirecrackerPID i.
Proof. by destruct i. Qed.

Lemma ready_awake : ¬ resting StateReady.
Proof. by apply awake_dec. Qed.

Lemma same_host_event now id typ message payload w :
  wp (recordEvent now id typ message payload) (λ _ w', pv_host w' = pv_host w) w.
Proof.
  unfold recordEvent. apply wp_bind, wp_try, wp_on_db. by apply wp_env.
Qed.

(** An event after the last look at the runner. *)
Lemma post_event now id typ message payload inst w0 w :
  kept inst w0 w →
  wp (recordEvent now id typ message payload)
    (post (kept inst w0) (λ _ w', calm w w' ∧ pv_host w' = pv_host w)) w.
Proof.
  intros Hk. eapply wp_mono.
  { apply wp_and; [apply same_host_event|eapply (post_still rcfg); [apply within_recordEvent|exact Hk]]. }
  intros o w' [Hh [Hk' Hc]]. split; [done|]. intros a Ha. split; [by apply (Hc a)|done].
Qed.

(** The record becomes "ready" on an attested runtime. *)
Lemma ready_post now t o u typ message payload inst w0 w :
  kept inst w0 w → ID o = ID inst → attempt_of u = attempt_of inst → State u = StateReady →
  FirecrackerPID u = FirecrackerPID inst → attested inst w →
  wp (on_db (UpdateInstanceRuntime t o u);; recordEvent now (ID inst) typ message payload;; mret u)
    (post (kept inst w0) (λ i w', attempt_of i = attempt_of inst ∧ up i w')) w.
Proof.
  intros Hk HID Ha HS HP Hat. eapply post_bind; [apply (kept_cas rcfg _ _ _ inst); [done|done|]|].
  { right. rewrite HS. apply ready_awake. }
  intros _ w1 Hk1 [Eh (r & Hr & Hra & HrS & HrP)].
  eapply post_bind; [by apply post_event|]. intros ? w2 Hk2 [Hc Eh2]. apply post_ret; [done|].
  split; [done|]. pose proof Ha as Ha'. injection Ha' as _ EID _ _. split_and!; [done| |].
  - eapply row_is_calm; [exact Hc|]. exists r. rewrite EID, Ha. by split_and!.
  - eapply (attested_host inst); [done|done| |exact Hat]. congruence.
Qed.

Lemma waitForOrb_post now i inst w0 w :
  kept inst w0 w →
  wp (waitForOrb rcfg marshal start guest_shutdown serial_log now i inst)
    (post (kept inst w0) (λ i w', attempt_of i = attempt_of inst ∧ up i w')) w.
Proof.
  intros Hk. unfold waitForOrb.
  eapply post_bind; [eapply (post_still rcfg); [by apply within_identity|done]|]. intros runtime w1 Hk1 _.
  eapply post_bind; [by apply post_lift|]. intros _ ? _ [-> _].
  eapply post_bind; [eapply (post_moved rcfg); [by apply identity_post, moved_refl, Hk1|done]|].
  intros current w2 Hk2 Hat. eapply post_bind; [by apply post_require|]. intros _ ? _ [-> _].
  apply ready_post; try done; by destruct inst.
Qed.

Lemma wait_join_post i inst w0 w :
  kept inst w0 w →
  wp (wait_join rcfg marshal start guest_shutdown serial_log i inst)
    (post (kept inst w0) (λ _ w', attested inst w')) w.
Proof.
  intros Hk. unfold wait_join.
  eapply post_bind; [eapply (post_still rcfg); [by apply within_identity|done]|]. intros runtime w1 Hk1 _.
  eapply post_bind; [by apply post_lift|]. intros [[name node] ip] ? _ [-> _].
  eapply post_bind; [eapply (post_moved rcfg); [by apply identity_post, moved_refl, Hk1|done]|].
  intros current w2 Hk2 Hat. eapply post_bind; [by apply post_require|]. intros _ ? _ [-> _]. by apply post_ret.
Qed.

Lemma await_tailnet_post now i inst w0 w :
  kept inst w0 w → ¬ resting (State inst) →
  wp (await_tailnet rcfg marshal start guest_shutdown serial_log error_payload tailnet_payload now i inst)
    (post (kept inst w0) (λ i w', attempt_of i = attempt_of inst ∧ up i w')) w.
Proof.
  intros Hk HS. unfold await_tailnet.
  eapply post_bind; [by apply post_try, wait_join_post|]. intros [[name ip]|e] w1 Hk1 Hat.
  - specialize (Hat _ eq_refl).
    apply ready_post; try done; apply (joined_fields (now 0%nat) name (TailnetNodeID inst) ip inst).
  - eapply (post_bind _ _ _ (λ _ _, True)).
    { eapply post_mono; [apply (kept_cas rcfg _ _ _ inst); [done|done|right; by destruct inst]|done|done]. }
    intros _ w2 Hk2 _. eapply (post_bind _ _ _ (λ _ _, True)).
    { eapply post_mono; [by eapply (post_still rcfg); [apply within_recordEvent|]|done|done]. }
    intros _ w3 Hk3 _. by apply post_throw.
Qed.

Lemma late_join_post now i inst w0 w :
  kept inst w0 w →
  wp (reconcileLateTailnetJoin rcfg marshal start guest_shutdown serial_log tailnet_payload now i inst)
    (post (kept inst w0) (λ i w', attempt_of i = attempt_of inst ∧ up i w')) w.
Proof.
  intros Hk. unfold reconcileLateTailnetJoin.
  eapply post_bind; [eapply (post_still rcfg); [by apply within_identity|done]|]. intros runtime w1 Hk1 _.
  eapply post_bind; [by apply post_lift|]. intros [[name node] ip] ? _ [-> _].
  eapply post_bind; [by apply post_require|]. intros _ ? _ [-> _].
  eapply post_bind; [eapply (post_moved rcfg); [by apply identity_post, moved_refl, Hk1|done]|].
  intros current w2 Hk2 Hat. eapply post_bind; [by apply post_require|]. intros _ ? _ [-> _].
  set (u := joined _ _ _ _ inst). destruct (joined_fields (now 0%nat) (firstNonEmpty [name; Name inst]) node ip inst)
    as (_ & HS & HP). fold u in HS, HP.
  eapply post_bind; [apply (kept_cas rcfg _ _ _ inst); [done|done|right; rewrite HS; apply ready_awake]|].
  intros _ w3 Hk3 [Eh (r & Hr & Hra & HrS & HrP)].
  eapply post_bind; [by apply (post_GetInstance rcfg)|]. intros j ? _ [-> (Hh & Hn & r' & Hr' & Hra' & HS' & HP')].
  assert (Ha : attempt_of j = attempt_of inst)
    by (eapply (holds_unique rcfg); [apply Hk3|done|apply Hk3|congruence]).
  eapply post_bind; [by apply post_event|]. intros ? w4 Hk4 [Hc Eh4]. apply post_ret; [done|].
  assert (r' = r) as -> by (injection Ha as _ E _ _; congruence).
  split; [done|]. split_and!; [congruence| |].
  - eapply row_is_calm; [exact Hc|]. by exists r.
  - eapply (attested_host inst); [done|congruence| |exact Hat]. congruence.
Qed.

(** ** The new attempt *)

(** The record says the new attempt, and it is not at rest. *)
Definition recorded (i : Instance) (w : Control) : Prop := lc_inv w ∧ row_is i w ∧ ¬ resting (State i).

Lemma recorded_kept i w : recorded i w → kept i w w.
Proof. intros (Hi & (r & Hr & Ha & _) & _). apply kept_refl; [done|]. by exists r. Qed.
Lemma recorded_moved i w w' : recorded i w → moved w w' → recorded i w'.
Proof. intros (Hi & Hr & Hn) [Hi' Hc]. split_and!; [done| |done]. by eapply row_is_calm. Qed.
Lemma post_recorded {A} (m : M Control A) i w (P : A → Control → Prop) :
  wp m (post (moved w) P) w → recorded i w → wp m (post (recorded i) P) w.
Proof. intros Hm Hr. eapply post_mono; [exact Hm| |done]. intros w'. by apply recorded_moved. Qed.
Lemma recorded_still {A} (m : M Control A) i w :
  within calm m → recorded i w → wp m (post (recorded i) (λ _ w', calm w w')) w.
Proof.
  intros Hm Hr. apply post_within; [exact Hm|]. intros w' Hc. eapply recorded_moved; [done|].
  split; [eapply calm_inv; [apply Hr|done]|done].
Qed.

(** Replacing an attempt that is over. *)
Lemma record_attempt now i inst w :
  lc_inv w → holds inst w → ID i = ID inst → Name i = Name inst → over (attempt_of inst) (pv_host w) →
  ¬ resting (State i) →
  wp (try (on_db (UpdateInstance now i))) (post lc_inv (λ u w',
    match u with inl _ => recorded i w' | inr _ => w' = w end)) w.
Proof.
  intros Hw Hh HID HN Ho Hn. apply wp_try. eapply wp_mono; [by apply (update_wp rcfg now inst i); [..|left]|].
  intros o w' (Hi' & _ & _ & Hcase). destruct o as [[]|e|]; split; try done; intros ? [= <-].
  - destruct Hcase as [[_ Hno]|[Hr _]]; [by destruct (Hno tt)|]. by split_and!.
  - destruct Hcase as [[-> _]|[_ Hno]]; [done|]. by destruct (Hno e).
Qed.

(** A recorded attempt leaves. *)
Lemma sent_inv req i w :
  recorded i w → attempt req = attempt_of i → recorded i (set_attempts (req :: pv_attempts w) w).
Proof.
  intros (Hi & (r & Hr & Ha & HS & HP) & Hn) Hreq. destruct Hi as [Hwf Hok Hatt].
  split_and!; [split; [done..|]|by exists r|done]. intros q [->|Hq]%elem_of_cons; [right|by apply Hatt].
  exists r. pose proof Hreq as E. injection E as _ E _ _. cbn. rewrite E.
  split_and!; [done|congruence|by rewrite HS].
Qed.

Lemma client_start_post req i w :
  recorded i w → attempt req = attempt_of i →
  wp (client_Start req) (post (recorded i) (λ resp w',
    managed (attempt_of i) → told rcfg (attempt_of i) resp (pv_host w'))) w.
Proof.
  intros Hr Hreq. unfold client_StartInstanceVM.
  eapply post_bind; [by apply post_lift|]. intros _ ? _ [-> _].
  eapply (post_bind _ _ _ (λ _ _, True)).
  { intros fs. split; [by apply sent_inv|done]. }
  intros _ w1 Hr1 _. eapply post_bind; [by apply post_query|]. intros _ ? _ [-> _].
  eapply post_bind.
  { eapply post_recorded; [|done].
    apply (moved_on_host rcfg marshal start guest_shutdown start_quiet _
      (λ _ resp h', sq_RequestID req ≠ "" → told rcfg (attempt req) resp h') _ _ (moved_refl _ _ (proj1 Hr1))).
    intros h Hok. eapply wp_mono; [by apply receiptStart_spec|]. intros o h' [Hj Ht]. split; [done|].
    intros a ->. exact Ht. }
  intros resp w2 Hr2 (h & _ & Ht).
  eapply post_bind; [by apply post_query|]. intros _ ? _ [-> _].
  eapply (post_bind _ _ _ (λ _ w', w' = w2)).
  { destruct (nonempty _); [|by apply post_ret]. eapply post_mono; [by apply post_lift|done|]. by intros ? ? _ [-> _]. }
  intros ? ? _ ->. apply post_ret; [done|]. rewrite <- Hreq. exact Ht.
Qed.

(** The record of [i] may come to rest: the attempt it names is over. *)
Definition can_rest (i : Instance) (w : Control) : Prop :=
  ∃ inst, holds inst w ∧ ID i = ID inst ∧ Name i = Name inst ∧ over (attempt_of inst) (pv_host w).

Lemma can_rest_calm i w w' : lc_inv w → calm w w' → can_rest i w → can_rest i w'.
Proof.
  intros Hw Hc (inst & Hh & HID & HN & Ho). exists inst. split_and!; [by eapply calm_holds|done..|].
  by apply (calm_over _ _ w).
Qed.

Lemma with_attempt_fields t request boot i :
  let j := set_UpdatedAt t (with_attempt request boot i) in
  ID j = ID i ∧ Name j = Name i ∧ State j = State i ∧ StartRequestID j = request.
Proof. by destruct i. Qed.

Lemma provisioning_awake (i : Instance) : State i = StateProvisioning → ¬ resting (State i).
Proof. intros ->. by apply awake_dec. Qed.

Lemma uncertain_post now i w :
  recorded i w → wp (uncertain now i) (post lc_inv (λ p _, p.2 = BootUncertain)) w.
Proof.
  intros Hr. unfold uncertain. set (i' := set_LastError _ i).
  eapply (post_bind _ _ _ (λ _ _, True)).
  { eapply post_mono; [apply post_try, (kept_update rcfg _ i' i); [by apply recorded_kept|by destruct i|]|
      by intros ? []|done].
    right. unfold i'. destruct i; apply Hr. }
  intros _ w' Hw' _. by apply post_ret.
Qed.

(** How a launch ends. *)
Definition launched (i : Instance) (p : Instance * boot_outcome) (w : Control) : Prop :=
  ID p.1 = ID i ∧ Name p.1 = Name i ∧
  match p.2 with
  | Booted _ => recorded p.1 w
  | NotBooted _ => can_rest p.1 w
  | BootUncertain => True
  end.

Lemma startFirecracker_post now request i inst pool bootstrap discard w :
  lc_inv w → holds inst w → attempt_of i = attempt_of inst → State i = StateProvisioning →
  over (attempt_of inst) (pv_host w) →
  wp (startFirecracker cfg rcfg marshal start guest_shutdown ParseMAC ParseCIDR ParseIP now request i pool
    bootstrap discard) (post lc_inv (λ p w', p.2 = BootUncertain ∨ launched i p w')) w.
Proof.
  intros Hw Hh Ha HS Ho. pose proof Ha as Ha'. injection Ha' as HN HID _ _. unfold startFirecracker.
  eapply post_bind; [apply (post_within _ calm); [by apply within_try, within_on_machine|]|].
  { intros w' Hc. by eapply calm_inv. }
  intros boot w1 Hw1 Hc. pose proof (calm_holds _ _ _ _ Hc Hh) as Hh1.
  pose proof (calm_over _ _ _ _ Hw Hc Ho) as Ho1.
  destruct boot as [boot|e]; [|apply post_ret; [done|]; right; split_and!; try done; by exists inst].
  destruct (with_attempt_fields (now 0%nat) request (TrimSpace boot) i) as (E1 & E2 & E3 & E4).
  set (j := set_UpdatedAt _ _) in *.
  eapply post_bind; [apply (record_attempt _ j inst); [done|done|congruence|congruence|done|]|].
  { apply provisioning_awake. congruence. }
  intros [[]|e] w2 Hw2 Hr2.
  2: { subst w2. apply post_ret; [done|]. right. split_and!; [done..|]. exists inst. cbn [fst].
       split_and!; [done|congruence|congruence|done]. }
  set (req := start_request _ _ _ _ _).
  assert (Hresp : ∀ resp w', recorded j w' →
    (managed (attempt_of j) → told rcfg (attempt_of j) resp (pv_host w')) →
    wp (if String.eqb (Outcome resp) StartRunning && (0 <? rs_PID resp) then mret (j, Booted (rs_PID resp))
        else if String.eqb (Outcome resp) StartAbsent
        then mret (j, NotBooted (Errorf "start was fenced without a runtime")) else uncertain now j)
      (post lc_inv (λ p w'', p.2 = BootUncertain ∨ launched i p w'')) w').
  { intros resp w' Hr' Htold. pose proof Hr' as [Hw' _]. destruct (_ && _).
    - apply post_ret; [done|]. right. by split_and!.
    - destruct (String.eqb_spec (Outcome resp) StartAbsent) as [Habs|_].
      + apply post_ret; [done|]. right. split_and!; [done..|]. exists j.
        split_and!; [by apply (recorded_kept j)|done..|].
        destruct (decide (managed (attempt_of j))) as [Hm|Hm].
        * eapply told_over; [by apply Htold|by right].
        * left. by apply dec_stable.
      + eapply post_mono; [by apply uncertain_post|done|]. auto. }
  assert (Hreq : attempt req = attempt_of j) by done.
  eapply (post_bind _ _ _ (λ r w', recorded j w' ∧ ∀ resp, r = inl resp →
    managed (attempt_of j) → told rcfg (attempt_of j) resp (pv_host w'))).
  { eapply post_mono; [eapply (post_try_keep (recorded j) (recorded j)); [by apply client_start_post|done]|
      by intros ? []|]. intros r w' _ [H1 H2]. by split. }
  intros r w3 _ [Hr3 Ht3].
  eapply (post_bind _ _ _ (λ r w', recorded j w' ∧ ∀ resp, r = inl resp →
    managed (attempt_of j) → told rcfg (attempt_of j) resp (pv_host w'))).
  { destruct r as [resp|e]; [apply post_ret; [apply Hr3|]; by split|].
    eapply post_mono; [eapply (post_try_keep (recorded j) (recorded j)); [|done]|by intros ? []|].
    - eapply post_recorded; [by apply startResult_post, moved_refl, Hr3|done].
    - intros r' w' _ [H1 H2]. split; [done|]. intros resp Hresp' _. by apply H2. }
  intros r' w4 _ [Hr4 Ht4]. destruct r' as [resp|e']; [by apply Hresp; [|apply Ht4]|].
  eapply post_mono; [by apply uncertain_post|done|]. auto.
Qed.

(** ** The rest of a start *)

Lemma abandon_post now e i w (P : Instance → Control → Prop) :
  lc_inv w → can_rest i w → wp (abandon_start now e i) (post lc_inv P) w.
Proof.
  intros Hw (inst & Hh & HID & HN & Ho). unfold abandon_start.
  eapply (post_bind _ _ _ (λ _ w', w' = w)).
  { assert (Hq : within eq (try host_check)) by (unfold host_check; solve_reads).
    eapply wp_mono; [apply Hq|]. by intros o ? <-. }
  intros _ ? _ ->. eapply (post_bind _ _ _ (λ _ _, True)); [|by intros; apply post_throw].
  eapply post_mono; [apply (post_try _ _ (λ _ _, True))|done|done]. eapply wp_mono.
  { apply (update_wp rcfg (now 0%nat) inst); [done|done|by destruct i|by destruct i|by left]. }
  intros o w' (Hi' & _). split; [done|]. by intros.
Qed.

Lemma abandon_fields e (i : Instance) :
  ID (set_LastError e i) = ID i ∧ Name (set_LastError e i) = Name i.
Proof. by destruct i. Qed.

Lemma can_rest_error e i w : can_rest i w → can_rest (set_LastError e i) w.
Proof.
  intros (inst & H1 & H2 & H3 & H4). exists inst. destruct (abandon_fields e i). split_and!; congruence || done.
Qed.

Lemma awaiting_awake (i : Instance) : ¬ resting (awaitingState i).
Proof. unfold awaitingState. case_match; by apply awake_dec. Qed.

Lemma booted_post now i pid inst w :
  recorded inst w →
  wp (booted rcfg marshal start guest_shutdown serial_log pid_payload error_payload tailnet_payload now i pid inst)
    (post lc_inv (λ j w', Name j = Name inst ∧ up j w')) w.
Proof.
  intros Hr. unfold booted. set (inst' := set_UpdatedAt _ _).
  assert (Ha : attempt_of inst' = attempt_of inst ∧ State inst' = awaitingState inst) by by destruct inst.
  destruct Ha as [Ha HS]. pose proof (awaiting_awake inst) as Hn. rewrite <- HS in Hn.
  eapply (post_mono _ (kept inst w)); [|by intros ? []|by intros ?? _ H; exact H].
  eapply post_bind; [by apply (kept_update rcfg _ inst' inst); [apply recorded_kept| |right]|].
  intros _ w1 Hk1 _.
  eapply post_bind; [eapply (post_still rcfg); [apply within_recordEvent|exact Hk1]|]. intros ? w2 Hk2 _.
  assert (HN : ∀ j, attempt_of j = attempt_of inst' → Name j = Name inst)
    by (intros j Hj; rewrite Ha in Hj; by injection Hj).
  pose proof (kept_attempt rcfg inst' inst _ _ Ha Hk2) as Hk2'.
  destruct (String.eqb (KindName inst') KindOrb); (eapply post_mono;
    [by first [apply waitForOrb_post|apply await_tailnet_post]
    |intros w'; by apply kept_attempt|intros j w' _ [Hj Hup]; auto]).
Qed.

(** A start whose new attempt is not recorded yet. *)
Definition admitted_start (i : Instance) (w : Control) : Prop :=
  lc_inv w ∧ holds i w ∧ over (attempt_of i) (pv_host w).

Lemma admitted_calm i w w' : admitted_start i w → calm w w' → admitted_start i w'.
Proof.
  intros (Hw & Hh & Ho) Hc. split_and!; [by eapply calm_inv|by eapply calm_holds|].
  by apply (calm_over _ _ w).
Qed.
Lemma admitted_still {A} (m : M Control A) i w :
  within calm m → admitted_start i w → wp m (post lc_inv (λ _ w', admitted_start i w')) w.
Proof.
  intros Hm Ha. eapply wp_mono; [apply Hm|]. intros o w' Hc. pose proof (admitted_calm _ _ _ Ha Hc) as Ha'.
  split; [apply Ha'|done].
Qed.
Lemma admitted_can_rest e i w : admitted_start i w → can_rest (set_LastError e i) w.
Proof. intros (_ & Hh & Ho). apply can_rest_error. by exists i. Qed.

Lemma tailnet_device_fields d i j :
  tailnet_device d i = inl j → attempt_of j = attempt_of i ∧ State j = State i.
Proof.
  unfold tailnet_device. case_match; [by intros [= <-]|]. destruct d as [d|e]; [|done].
  cbn. repeat case_match; intros [= <-]; try done; by destruct i.
Qed.

Lemma launch_post now i discard pool inst w :
  admitted_start inst w → State inst = StateProvisioning →
  wp (launch_admitted cfg rcfg marshal start guest_shutdown ParseMAC ParseCIDR ParseIP serial_log pid_payload
        error_payload net_payload tailnet_payload now i discard pool inst)
    (post lc_inv (λ j w', Name j = Name inst ∧ up j w')) w.
Proof.
  intros Ha0 HS0. unfold launch_admitted. pose proof Ha0 as (Hw & Hh0 & Ho0).
  destruct (tailnet_device (si_device i) inst) as [j|e] eqn:Hdev.
  2: { apply abandon_post; [done|]. by exists inst. }
  apply tailnet_device_fields in Hdev as [Hj HSj]. rewrite HS0 in HSj.
  pose proof Hj as Hj'. injection Hj' as HN HID _ _. rewrite <- HN.
  assert (Ha : admitted_start j w).
  { split_and!; [done| |by rewrite Hj]. destruct Hh0 as (r & Hr & Hra). exists r. rewrite HID, Hj. by split. }
  clear Ha0 Hh0 Ho0 Hw. pose proof within_host_check as Hhc.
  eapply post_bind; [apply (admitted_still _ j); [|done]|].
  { apply within_try, within_bind; [apply _|..]; [apply Hhc|intros _; apply Hhc]. }
  intros r1 w1 Hw1 Ha1. destruct r1 as [[]|e]; [|apply abandon_post; [done|]].
  2: { by destruct Ha1 as (_ & ? & ?); exists j. }
  eapply post_bind; [apply (admitted_still _ j); [apply within_recordEvent|done]|]. intros ? w2 Hw2 Ha2.
  eapply post_bind; [apply (admitted_still _ j); [apply within_try, Hhc|done]|].
  intros r3 w3 Hw3 Ha3. destruct r3 as [[]|e]; [|by apply abandon_post; [|apply admitted_can_rest]].
  eapply post_bind; [apply (admitted_still _ j); [apply within_recordEvent|done]|].
  intros ? w4 Hw4 (_ & Hh4 & Ho4).
  eapply post_bind; [by apply (startFirecracker_post _ _ j j)|].
  intros [k o] w5 Hw5 Hl. destruct Hl as [Hl|(HIDk & HNk & Hl)].
  - cbn in Hl. subst o. by apply post_throw.
  - cbn in HIDk, HNk, Hl. rewrite <- HNk. destruct o as [pid|e|].
    + by apply booted_post.
    + by apply abandon_post; [|apply can_rest_error].
    + by apply post_throw.
Qed.

(** ** Start *)

Lemma start_fence_reads name w :
  lc_inv w → reads (start_fence name) (λ i, read_of name i w) w.
Proof.
  intros Hw. unfold start_fence. eapply reads_bind; [apply reads_any, migrationFence_within|].
  intros _ _. by apply (GetInstance_holds rcfg).
Qed.

(** What holds of every outcome may be used after success. *)
Lemma post_keep {A} (I : Control → Prop) (m : M Control A) (P : A → Control → Prop) w :
  wp m (post I P) w → wp m (post I (λ a w', I w' ∧ P a w')) w.
Proof. intros Hm. eapply wp_mono; [exact Hm|]. intros o w' [HI HP]. split; auto. Qed.

#[local] Abbreviation Start := (StartWithOptions cfg has_tsClient rcfg marshal start guest_shutdown ParseMAC
  ParseCIDR ParseIP serial_log pid_payload error_payload net_payload tailnet_payload).

Lemma tame_inv name w w' : tame rcfg name w w' → lc_inv w'.
Proof. by intros []. Qed.

Lemma post_ready (m : M Control Instance) (i : Instance) name w :
  Name i = name → wp m (post (kept i w) (λ j w', attempt_of j = attempt_of i ∧ up j w')) w →
  wp m (post lc_inv (λ j w', Name j = name ∧ up j w')) w.
Proof.
  intros HN Hm. eapply post_mono; [exact Hm|by intros ? []|]. intros j w' _ [Ha Hup].
  injection Ha as E _ _ _. split; [congruence|done].
Qed.

Lemma Start_post i discard name w :
  lc_inv w → wp (Start i discard name) (post lc_inv (λ j w', Name j = name ∧ up j w')) w.
Proof.
  intros Hw. unfold StartWithOptions.
  eapply post_bind; [apply reads_post; [apply reads_any, migrationFence_within|done]|]. intros _ ? _ [-> _].
  eapply post_bind; [eapply post_mono; [by apply (Reconcile_post rcfg)|apply tame_inv|by intros ?? _ H; exact H]|].
  intros got w1 Hw1 (Hh1 & Hn1 & _). destruct (applyConfigured_fields got) as (Ea & _ & _).
  set (inst := applyConfiguredBootArtifacts got) in *.
  assert (Hinst : Name inst = name) by exact Hn1.
  assert (Hk : ∀ w', lc_inv w' → holds got w' → kept inst w' w').
  { intros w' Hi Hh. apply (kept_attempt rcfg _ got); [done|by apply kept_refl]. }
  assert (Halive : ∀ b : bool, ∀ w', lc_inv w' → holds got w' →
    wp (if b then alive rcfg marshal start guest_shutdown (FirecrackerPID inst) else mret false)
      (post lc_inv (λ _ w'', holds got w'')) w').
  { intros b w' Hi Hh. eapply post_mono; [eapply (post_still rcfg _ got w' w'); [|by apply kept_refl]|
      by intros ? []|by intros ? ? (_ & Hh' & _) _]. destruct b; [by apply within_alive|apply within_ret, _]. }
  eapply post_bind; [by apply Halive|]. intros orb_up w2 Hw2 Hh2.
  destruct orb_up; [apply (post_ready _ inst); [done|by apply waitForOrb_post, Hk]|].
  eapply post_bind; [by apply Halive|]. intros vm_up w3 Hw3 Hh3.
  destruct vm_up; [apply (post_ready _ inst); [done|by apply late_join_post, Hk]|].
  eapply post_bind; [by apply (Halive true)|]. intros run w4 Hw4 Hh4.
  eapply post_bind; [by apply post_require|]. intros _ ? _ [-> _].
  eapply post_bind; [by apply post_query|]. intros _ ? _ [-> _].
  eapply post_bind; [apply reads_post; [by apply start_fence_reads|done]|].
  intros cur ? _ [-> (Hhc & Hnc & Hrow)].
  eapply (post_bind _ _ _ (λ _ w', kept cur w4 w' ∧ settled_or_deleted rcfg cur w')).
  { eapply post_mono; [apply (post_keep (kept cur w4)), reconcile_kept|by intros ? []|done]; done. }
  intros _ w5 Hw5 [Hk5 Hs5].
  eapply (post_bind _ _ _ (λ p w', (kept cur w4 w' ∧ attempt_of p.1 = attempt_of cur ∧
    State p.1 = StateProvisioning ∧ over (attempt_of cur) (pv_host w')))).
  { eapply post_mono; [by apply (post_keep (kept cur w4)), admit_kept|by intros ? []|done]. }
  intros [j pool] w6 Hw6 (Hk6 & Ha6 & HS6 & Ho6). cbn [fst] in *.
  assert (Hj : admitted_start j w6).
  { split_and!; [done|by apply (kept_attempt rcfg j) in Hk6 as (_ & ? & _)|by rewrite Ha6]. }
  eapply post_mono; [by apply launch_post|done|]. intros k w7 _ [HN Hup].
  injection Ha6 as E _ _ _. split; [congruence|done].
Qed.

Lemma keep_inv {A} (m : M Control A) (P : A → Control → Prop) inst w0 w :
  wp m (post (kept inst w0) P) w → wp m (post lc_inv (λ a w', kept inst w0 w' ∧ P a w')) w.
Proof. intros Hm. eapply post_mono; [by apply post_keep|by intros ? []|done]. Qed.

Lemma restore_post i inst w :
  lc_inv w → holds inst w →
  wp (restoreInstance cfg has_tsClient rcfg marshal start guest_shutdown ParseMAC ParseCIDR ParseIP serial_log
        pid_payload error_payload net_payload tailnet_payload i inst) (post lc_inv (λ _ _, True)) w.
Proof.
  intros Hw Hh. unfold restoreInstance.
  eapply post_bind; [apply reads_post; [apply reads_any, migrationFence_within|done]|]. intros _ ? _ [-> _].
  assert (Hk : kept inst w w) by by apply kept_refl.
  eapply post_bind; [by eapply (keep_inv _ _ inst w), resolve_kept|]. intros j w1 _ (Hk1 & Ha & _).
  destruct (_ || _); [apply post_ret; [apply Hk1|done]|].
  eapply post_bind; [eapply (keep_inv _ _ inst w), (post_still rcfg); [by apply within_alive|done]|].
  intros up w2 _ [Hk2 _].
  eapply post_bind; [eapply (keep_inv _ _ inst w), (post_still rcfg); [|done]|].
  { destruct up; [by apply within_serialLog|apply within_ret, _]. }
  intros halted w3 _ [Hk3 _]. destruct (_ && _); [apply post_ret; [apply Hk3|done]|].
  eapply (post_bind _ _ _ (λ _ w', kept inst w w')).
  { destruct (negb _); [|apply post_ret; [apply Hk3|done]].
    eapply post_mono; [eapply (keep_inv _ _ inst w), Stop_kept; [done|done|by injection Ha]|done|].
    by intros ? ? _ []. }
  intros k w4 Hw4 Hk4. destruct (negb _); [by apply post_ret|].
  assert (Hev : ∀ now id typ message payload w', lc_inv w' →
    wp (recordEvent now id typ message payload) (post lc_inv (λ _ _, True)) w').
  { intros now id typ message payload w' Hw'. eapply post_mono.
    - apply (moved_calm rcfg _ w' w'); [apply within_recordEvent|by apply moved_refl].
    - by intros ? [].
    - done. }
  destruct (_ && _); [by apply Hev|].
  eapply post_bind; [by apply Hev|]. intros ? w5 Hw5 _.
  eapply post_bind; [by apply post_try, Start_post|]. intros r w6 Hw6 _.
  destruct r as [?|e]; [by apply post_ret|].
  eapply post_bind; [by apply Hev|]. intros ? w7 Hw7 _. by apply post_throw.
Qed.

Lemma Restore_post i name w :
  lc_inv w →
  wp (RestoreInstance cfg has_tsClient rcfg marshal start guest_shutdown ParseMAC ParseCIDR ParseIP serial_log
        pid_payload error_payload net_payload tailnet_payload i name) (post lc_inv (λ _ _, True)) w.
Proof.
  intros Hw. eapply post_bind; [apply reads_post; [by apply (GetInstance_holds rcfg)|done]|].
  intros inst ? _ [-> (Hh & _)]. by apply restore_post.
Qed.

(** ** Creating an instance

    The incarnation that a creation replaces is at rest: its record is deleted only once
    its last start is over. *)

Context (EqualFold : string → string → bool) (LowerCase : string → string).

Lemma within_env_jsteps (f : Host → result unit * Host) :
  (∀ h, jsteps rcfg h (f h).2) → within (jsteps rcfg) (env f).
Proof. intros Hf. apply within_env; [apply _|exact Hf]. Qed.

Lemma quiet_within_jsteps {A} (m : M Host A) : quiet m → within (jsteps rcfg) m.
Proof. apply within_mono. intros h h'. apply same_jsteps. Qed.

Lemma within_cold_delete name id : within calm (on_host rcfg marshal start guest_shutdown (cold_delete rcfg name id)).
Proof.
  apply within_on_host; [done|]. intros h _.
  assert (H : within (jsteps rcfg) (cold_delete rcfg name id)).
  { unfold cold_delete.
    apply within_bind; [apply _|apply quiet_within_jsteps; auto with quiet|intros _].
    apply within_bind; [apply _|apply quiet_within_jsteps; auto with quiet|intros st].
    apply within_bind; [apply _|apply within_require, _|intros _].
    apply within_bind; [apply _|apply within_env_jsteps; intros h'; apply rtc_once, js_fence|intros _].
    apply quiet_within_jsteps; auto with quiet. }
  apply (within_wp (jsteps rcfg)); [exact H|done].
Qed.

Lemma FindInstance_holds name w :
  lc_inv w → reads (on_db (FindInstance name)) (λ o, ∀ i, o = Some i → read_of name i w) w.
Proof.
  intros Hw. assert (H : reads (FindInstance name) (λ o, ∀ i, o = Some i → read_of name i w) (pv_db w)).
  { unfold FindInstance. eapply reads_bind.
    - apply reads_try. intros fs. pose proof (GetInstance_holds rcfg name w Hw fs) as H.
      unfold on_db in H. destruct (GetInstance name fs (pv_db w)) as [[o d'] fs'].
      destruct H as [E HP]. split; [by rewrite <- (f_equal pv_db E)|exact HP].
    - intros r Hr. destruct r as [i|e]; [apply reads_ret; intros ? [= <-]; by apply Hr|].
      destruct e; try apply reads_throw. by apply reads_ret. }
  by apply reads_on_db.
Qed.

Lemma same_post {A} (m : M Control A) w : within eq m → lc_inv w → wp m (post lc_inv (λ _ w', w' = w)) w.
Proof. intros Hm Hw. eapply wp_mono; [apply Hm|]. by intros o ? <-. Qed.

(** The incarnation to be replaced: its last start is over, or its record is "deleted". *)
Definition replaceable (name : string) (o : option Instance) (w : Control) : Prop :=
  ∀ i, o = Some i → Name i = name ∧ holds i w ∧ settled_or_deleted rcfg i w.

Lemma replaceable_calm name o w w' : lc_inv w → calm w w' → replaceable name o w → replaceable name o w'.
Proof.
  intros Hw Hc Ho i Hi. destruct (Ho i Hi) as (H1 & H2 & H3). split_and!; [done|by eapply calm_holds|].
  eapply settled_or_deleted_calm; [by apply kept_refl|exact Hc|exact H3].
Qed.

Lemma reusable_post now name w :
  lc_inv w →
  wp (checkInstanceDirReusable cfg rcfg marshal start guest_shutdown now name)
    (post lc_inv (λ p w', replaceable name p.2 w')) w.
Proof.
  intros Hw. unfold checkInstanceDirReusable.
  eapply post_bind; [by apply post_lift|]. intros dir ? _ [-> _].
  eapply post_bind; [by apply post_query|]. intros _ ? _ [-> _].
  eapply post_bind; [apply reads_post; [by apply FindInstance_holds|done]|]. intros found ? _ [-> Hfound].
  destruct found as [i|].
  2: { eapply post_bind; [by apply post_query|]. intros _ ? _ [-> _]. by apply post_ret. }
  destruct (Hfound i eq_refl) as (Hh & Hn & Hrow).
  eapply post_bind; [apply reads_post; [apply reads_try, reads_any|done]|].
  { unfold GetMigration. solve_reads. }
  intros m ? _ [-> _].
  eapply post_bind; [apply same_post; [by repeat first [within_step|case_match]|done]|].
  intros _ ? _ ->. destruct (_ || _); [|by apply post_throw].
  eapply post_bind.
  { apply same_post; [|done]. case_match; [within_step|apply migrationFence_within]. }
  intros _ ? _ ->.
  assert (Hk : kept i w w) by by apply kept_refl.
  eapply post_bind; [by eapply (keep_inv _ _ i w), resolve_kept|]. intros j w1 _ (Hk1 & Ha & Hs).
  eapply post_bind; [apply post_require, Hk1|]. intros _ ? _ [-> _].
  eapply post_bind; [apply post_query, Hk1|]. intros _ ? _ [-> _].
  apply post_ret; [apply Hk1|]. cbn [snd]. intros ? [= <-]. pose proof Ha as E. injection E as EN EID _ _.
  split_and!; [congruence|by apply (kept_attempt rcfg j) in Hk1 as (_ & ? & _)|].
  destruct Hs as [Ho|(-> & Hd & ->)]; [left; by rewrite Ha|right].
  destruct Hrow as (r & Hr & _ & HS & _). exists r. split; [done|congruence].
Qed.

(** Its record goes. *)
Lemma delete_row_post name i w :
  lc_inv w → replaceable name (Some i) w → wp (on_db (DeleteInstance name)) (post lc_inv (λ _ _, True)) w.
Proof.
  intros Hw Hi. destruct (Hi i eq_refl) as (HN & (r & Hr & Ha) & Hs).
  apply wp_on_db. eapply wp_mono.
  { apply wp_and; [apply DeleteInstance_spec, Hw|apply (op_wf _ _ (op_DeleteInstance name))]. }
  intros o d' [Hspec Hwf]. specialize (Hwf (li_wf _ _ Hw)). split; [|done].
  assert (Hsame : d' = pv_db w → lc_inv (set_db d' w)) by (intros ->; by rewrite set_db_id).
  assert (Hgone : (∃ id r, instances (pv_db w) !! id = Some r ∧ row_Name r = name ∧ purged id (pv_db w) d') →
    lc_inv (set_db d' w)).
  { intros (id & r' & Hr' & Hn' & _ & Hothers & _). apply inv_db; [done..|]. intros k rk Hk.
    destruct (decide (k = id)) as [->|Hne]; [|right; right; by rewrite (proj1 (Hothers k Hne))].
    assert (id = ID i) as ->.
    { eapply (named_point (pv_db w) (ID i) r); [apply Hw|done|exact Hk|]. apply String.eqb_eq.
      injection Ha as E _ _ _. congruence. }
    assert (rk = r) as -> by congruence. destruct Hs as [Ho|(r2 & Hr2 & Hd)]; [left; by rewrite Ha|right; left].
    assert (r2 = r) as -> by congruence. rewrite Hd. by apply (bool_decide_unpack (resting StateDeleted)). }
  destruct o as [[]|e|]; [destruct Hspec as [[? _]|?]|destruct Hspec|destruct Hspec as [?|?]]; auto.
Qed.

Lemma still_inv {A} (m : M Control A) w : within calm m → lc_inv w → wp m (post lc_inv (λ _ w', calm w w')) w.
Proof. intros Hm Hw. apply post_within; [exact Hm|]. intros w'. by apply calm_inv. Qed.

Lemma prepare_post now name w :
  lc_inv w →
  wp (prepareInstanceDir cfg rcfg marshal start guest_shutdown now name) (post lc_inv (λ _ _, True)) w.
Proof.
  intros Hw. unfold prepareInstanceDir. eapply post_bind; [by apply reusable_post|].
  intros [dir existing] w1 Hw1 Hex. cbn [snd] in Hex.
  eapply (post_bind _ _ _ (λ _ _, True)).
  - destruct existing as [i|]; [|by apply post_ret]. pose proof within_host_check as Hhc.
    eapply post_bind; [apply still_inv; [|done]|].
    { unfold cleanupColdForRemoval. repeat (apply within_bind; [apply _| |intros ?]);
        auto using within_cold_delete, within_answer. }
    intros ? w2 Hw2 Hc2. eapply post_bind; [by apply post_query|]. intros _ ? _ [-> _].
    apply (delete_row_post name i); [done|]. exact (replaceable_calm _ _ _ _ Hw1 Hc2 Hex).
  - intros _ w2 Hw2 _. do 2 (eapply post_bind; [by apply post_query|]; intros _ ? _ [-> _]). by apply post_ret.
Qed.

(** *** The new record *)

Lemma created_row_is now (i : Instance) :
  row_attempt (created_row now i) = attempt_of i ∧ row_State (created_row now i) = State i ∧
  FirecrackerPID (in_cols (created_row now i)) = FirecrackerPID i.
Proof.
  unfold created_row, row_attempt, attempt_of, stopped_insert, row_Name, row_ID, row_State. cbn.
  destruct (normalize_cases i) as [-> | ->]; by destruct i.
Qed.

Lemma new_fields net pool (i : Instance) :
  let j := with_network (with_pool pool i) net in
  attempt_of j = attempt_of i ∧ State j = State i.
Proof.
  destruct net as [[[? ?] ?] ?]. destruct pool as [p|]; cbn; [|by destruct i].
  destruct (nonempty (mp_ID p)); by destruct i.
Qed.

Lemma record_post cidr now pool inst w :
  lc_inv w → StartRequestID inst = "" → State inst = StateProvisioning →
  wp (create_record cidr now pool inst) (post lc_inv (λ j w',
    admitted_start j w' ∧ Name j = Name inst ∧ State j = StateProvisioning)) w.
Proof.
  intros Hw Hreq HS. unfold create_record.
  assert (Hgive_up : ∀ e w', lc_inv w' → wp (_ ← try host_check; throw e) (post lc_inv (λ j w'',
    admitted_start j w'' ∧ Name j = Name inst ∧ State j = StateProvisioning)) w').
  { intros e w' Hw'. eapply post_bind; [apply same_post; [apply within_try, within_query, _|done]|].
    intros _ ? _ ->. by apply post_throw. }
  eapply (post_bind _ _ _ (λ r w', ∀ j, r = inl j →
    admitted_start j w' ∧ Name j = Name inst ∧ State j = StateProvisioning)).
  - apply post_try, wp_on_db. unfold create_with_network. apply wp_bind.
    eapply wp_mono; [apply allocate_within|]. intros o ? <-.
    destruct o as [net|e|]; [|by rewrite set_db_id; split..].
    apply wp_bind. destruct (new_fields net pool inst) as [Ea ES]. set (j := with_network _ net) in *.
    eapply wp_mono; [apply wp_and; [apply (CreateInstance_wp now j)|apply (op_wf _ _ (op_CreateInstance now j))]|].
    intros o d' [[_ Hcase] Hwf]. specialize (Hwf (li_wf _ _ Hw)).
    assert (Hi : lc_inv (set_db d' w)).
    { apply inv_db; [done..|]. intros k r Hr. right. right. destruct Hcase as [[-> _]|[Hnew ->]]; [done|].
      rewrite lookup_insert_ne; [done|]. intros <-. congruence. }
    destruct o as [[]|e|]; [apply wp_ret|by split..]. split; [done|]. intros ? [= <-].
    destruct Hcase as [[_ Hno]|[Hnew Hins]]; [by destruct Hno|].
    pose proof Ea as E. injection E as EN _ Er _. split_and!; [|done|congruence]. split_and!; [done| |].
    + exists (created_row now j). split; [cbn; by rewrite Hins, lookup_insert_eq|apply created_row_is].
    + left. cbn. by rewrite Er.
  - intros [j|e] w1 Hw1 Hj; [|by apply Hgive_up]. destruct (Hj j eq_refl) as (Ha & HN & HS').
    eapply (post_bind _ _ _ (λ _ w', admitted_start j w')); [|intros _ w2 Hw2 Ha2; by apply post_ret].
    destruct pool as [p|]; [|by apply post_ret]. destruct (nonempty _); [|by apply post_ret].
    eapply admitted_still; [apply within_start_sent|done].
Qed.

(** *** The steps of a creation *)

Lemma abandon_create_post now e keyID i w (P : Instance → Control → Prop) :
  lc_inv w → can_rest i w → wp (abandon_create has_tsClient now e keyID i) (post lc_inv P) w.
Proof.
  intros Hw (inst & Hh & HID & HN & Ho). unfold abandon_create.
  assert (Hq : ∀ b : bool, within eq (if b then try host_check else mret (inl tt)))
    by (intros []; unfold host_check; solve_reads).
  do 2 (eapply post_bind; [by apply same_post; [apply (Hq true)|]|]; intros _ ? _ ->).
  eapply post_bind; [by apply same_post; [apply Hq|]|]. intros _ ? _ ->.
  eapply (post_bind _ _ _ (λ _ _, True)); [|by intros; apply post_throw].
  eapply post_mono; [apply (post_try _ _ (λ _ _, True))|done|done]. eapply wp_mono.
  { apply (update_wp rcfg (now 0%nat) inst); [done|done|by destruct i|by destruct i|by left]. }
  intros o w' (Hi' & _). split; [done|]. by intros.
Qed.

Lemma or_abandon_post {A} now keyID inst (m : M Control A) k (P : Instance → Control → Prop) w :
  within calm m → admitted_start inst w →
  (∀ a w', admitted_start inst w' → wp (k a) (post lc_inv P) w') →
  wp (or_abandon has_tsClient now keyID inst m k) (post lc_inv P) w.
Proof.
  intros Hm Ha Hk. unfold or_abandon.
  eapply post_bind; [apply (admitted_still _ inst); [by apply within_try|done]|].
  intros [a|e] w1 Hw1 Ha1; [by apply Hk|]. apply abandon_create_post; [done|]. by apply admitted_can_rest.
Qed.

Lemma waitForEnrollment_post i inst w0 w :
  kept inst w0 w →
  wp (waitForEnrollment rcfg marshal start guest_shutdown serial_log i inst)
    (post (kept inst w0) (λ _ w', attested inst w')) w.
Proof.
  intros Hk. unfold waitForEnrollment.
  eapply post_bind; [eapply (post_still rcfg); [by apply within_identity|done]|]. intros runtime w1 Hk1 _.
  eapply post_bind; [by apply post_require|]. intros _ ? _ [-> _].
  eapply post_bind; [by apply post_lift|]. intros r ? _ [-> _].
  eapply post_bind; [eapply (post_moved rcfg); [by apply identity_post, moved_refl, Hk1|done]|].
  intros current w2 Hk2 Hat. eapply post_bind; [by apply post_require|]. intros _ ? _ [-> _]. by apply post_ret.
Qed.

Lemma created_post now i pid keyID inst w :
  recorded inst w →
  wp (created has_tsClient rcfg marshal start guest_shutdown serial_log pid_payload tailnet_payload now i pid
        keyID inst) (post lc_inv (λ j w', Name j = Name inst ∧ up j w')) w.
Proof.
  intros Hr. unfold created. set (inst' := set_UpdatedAt _ _).
  assert (Ha : attempt_of inst' = attempt_of inst ∧ State inst' = awaitingState inst) by by destruct inst.
  destruct Ha as [Ha HS]. pose proof (awaiting_awake inst) as Hn. rewrite <- HS in Hn.
  eapply (post_mono _ (kept inst' w)); [|by intros ? []|by intros ?? _ H; exact H].
  assert (HN : ∀ j, attempt_of j = attempt_of inst' → Name j = Name inst)
    by (intros j Hj; rewrite Ha in Hj; by injection Hj).
  assert (Hk : kept inst' w w) by (apply (kept_attempt rcfg _ inst); [done|by apply recorded_kept]).
  eapply post_bind; [by apply (kept_update rcfg _ inst' inst'); [| |right]|]. intros _ w1 Hk1 _.
  eapply post_bind; [eapply (post_still rcfg); [apply within_recordEvent|exact Hk1]|]. intros ? w2 Hk2 _.
  destruct (String.eqb (KindName inst') KindOrb).
  { eapply post_mono; [by apply waitForOrb_post|done|]. intros j w' _ [Hj Hup]. auto. }
  eapply post_bind; [by apply post_try, waitForEnrollment_post|]. intros [[[name node] ip]|e] w3 Hk3 Hat.
  - specialize (Hat _ eq_refl). set (j := joined _ _ _ _ inst').
    destruct (joined_fields (now 2%nat) (firstNonEmpty [name; Name inst']) node ip inst') as (Ej & HSj & HPj).
    fold j in Ej, HSj, HPj.
    eapply post_bind; [apply (kept_cas rcfg _ _ _ inst'); [done|done|right; rewrite HSj; apply ready_awake]|].
    intros _ w4 Hk4 [Eh (r & Hrow & Hra & HrS & HrP)].
    eapply post_bind; [by apply post_event|]. intros ? w5 Hk5 [Hc Eh5].
    eapply (post_bind _ _ _ (λ _ w', w' = w5)).
    { eapply wp_mono; [apply (within_wp eq _ (λ w', w' = w5)); [|by intros ? <-]|by intros ? ? ->].
      case_match; unfold host_check; solve_reads. }
    intros _ ? _ ->. apply post_ret; [done|]. split; [by apply HN|]. split_and!; [done| |].
    + eapply row_is_calm; [exact Hc|]. pose proof Ej as E. injection E as _ EID _ _. exists r. rewrite EID, Ej. by split_and!.
    + eapply (attested_host inst'); [done|done| |exact Hat]. congruence.
  - eapply (post_bind _ _ _ (λ _ _, True)); [|by intros; apply post_throw].
    eapply post_mono; [apply post_try, (kept_update rcfg _ _ inst'); [done|by destruct inst'|right; by destruct inst']
      |done|done].
Qed.

Lemma create_launch_post now i authKey keyID tags pool inst w :
  admitted_start inst w → State inst = StateProvisioning →
  wp (create_launch cfg has_tsClient rcfg marshal start guest_shutdown ParseMAC ParseCIDR ParseIP serial_log pid_payload
        tailnet_payload now i authKey keyID tags pool inst)
    (post lc_inv (λ j w', Name j = Name inst ∧ up j w')) w.
Proof.
  intros Ha HS. unfold create_launch. apply or_abandon_post; [apply within_host_check|done|]. intros _ w1 Ha1.
  eapply post_bind; [apply (admitted_still _ inst); [apply within_recordEvent|done]|]. intros ? w2 Hw2 (_ & Hh2 & Ho2).
  eapply post_bind; [by apply (startFirecracker_post _ _ inst inst)|].
  intros [k o] w3 Hw3 Hl. destruct Hl as [Hl|(HIDk & HNk & Hl)]; [cbn in Hl; subst o; by apply post_throw|].
  cbn in HIDk, HNk, Hl. rewrite <- HNk. destruct o as [pid|e|].
  - by apply created_post.
  - by apply abandon_create_post; [|apply can_rest_error].
  - by apply post_throw.
Qed.

Lemma within_RecordEnrollmentKey id key : within calm (on_db (RecordEnrollmentKey id key)).
Proof.
  intros w. apply wp_on_db. eapply wp_mono; [apply wp_and; [|apply (op_wf _ _ (op_RecordEnrollmentKey id key))]|].
  - apply (within_wp (λ d d', instances d' = instances d) _ (λ d', instances d' = instances (pv_db w))); [|done].
    intros d. unfold RecordEnrollmentKey. case_match; [by apply wp_throw|]. by apply wp_env; cbn; repeat case_match.
  - intros o d' [Hi Hwf]. by split.
Qed.

Lemma create_enrol_post now ci actor pool inst w :
  admitted_start inst w → State inst = StateProvisioning →
  wp (create_enrol cfg has_tsClient rcfg marshal start guest_shutdown ParseMAC ParseCIDR ParseIP serial_log pid_payload
        tailnet_payload LowerCase now ci actor pool inst)
    (post lc_inv (λ j w', Name j = Name inst ∧ up j w')) w.
Proof.
  intros Ha HS. unfold create_enrol. destruct (String.eqb _ _); [by apply create_launch_post|].
  apply or_abandon_post; [apply within_lift, _|done|]. intros [authKey keyID] w1 Ha1.
  eapply post_bind; [apply (admitted_still _ inst); [apply within_try, within_RecordEnrollmentKey|done]|].
  intros [u|e] w2 Hw2 Ha2; [by apply create_launch_post|]. apply abandon_create_post; [done|].
  destruct Ha2 as (_ & ? & ?). by exists inst.
Qed.

Lemma create_steps_post now ci actor needsResize pool inst w :
  admitted_start inst w → State inst = StateProvisioning →
  wp (create_steps cfg has_tsClient rcfg marshal start guest_shutdown ParseMAC ParseCIDR ParseIP serial_log pid_payload
        net_payload tailnet_payload LowerCase now ci actor needsResize pool inst)
    (post lc_inv (λ j w', Name j = Name inst ∧ up j w')) w.
Proof.
  intros Ha HS. unfold create_steps. pose proof within_host_check as Hhc.
  pose proof (fun now id typ m p => within_recordEvent rcfg now id typ m p) as Hev.
  apply or_abandon_post; [done..|]. intros _ w1 Ha1.
  eapply post_bind; [by apply (admitted_still _ inst)|]. intros ? w2 Hw2 Ha2.
  apply or_abandon_post; [|done|].
  { destruct needsResize; [|apply within_ret, _]. apply within_bind; [apply _|done|auto]. }
  intros _ w3 Ha3. do 2 (apply or_abandon_post; [done..|]; intros _ ? ?).
  eapply post_bind; [by apply (admitted_still _ inst)|]. intros ? w6 Hw6 Ha6. by apply create_enrol_post.
Qed.

(** *** The whole creation *)

Lemma within_templateBootFiles dir m image : within eq (templateBootFiles dir m image).
Proof. unfold templateBootFiles, host_check. solve_reads. Qed.

Lemma within_create_image ci actor kind imageName template :
  within eq (create_image cfg EqualFold LowerCase ci actor kind imageName template).
Proof. unfold create_image. pose proof within_templateBootFiles. repeat first [within_step|case_match|solve [auto]]. Qed.

Lemma within_create_prereqs needsResize image kind :
  within eq (ensureCreatePrereqs cfg has_tsClient needsResize image kind).
Proof. unfold ensureCreatePrereqs, host_check. solve_reads. Qed.

Lemma within_copy_boot_files ci dir template image : within eq (copy_boot_files ci dir template image).
Proof.
  unfold copy_boot_files, host_check. pose proof within_templateBootFiles.
  repeat first [within_step|case_match|solve [auto]].
Qed.

Lemma within_create_capacity cfg_MemoryMiB pool memory : within eq (create_capacity cfg_MemoryMiB pool memory).
Proof.
  unfold create_capacity, rejecting_create, requireMemoryPoolByName, ensureHostMemoryCapacity,
    ensureHostMemoryReservationCapacity, totalReservedHostMemoryBytes, host_check, FindMemoryPoolByName,
    CheckMemoryPoolResize, PendingMemoryPoolResize, ListInstances, ListMemoryPools, GetMemoryPoolByName.
  solve_reads.
Qed.

#[local] Abbreviation Create := (Create cfg has_tsClient rcfg marshal start guest_shutdown ParseMAC
  ParseCIDR ParseIP serial_log pid_payload net_payload tailnet_payload EqualFold LowerCase).

Lemma Create_post ci name actor opts w :
  lc_inv w → wp (Create ci name actor opts) (post lc_inv (λ j w', Name j = name ∧ up j w')) w.
Proof.
  intros Hw. unfold Lifecycle.Create.
  do 2 (eapply post_bind; [by apply post_require|]; intros _ ? _ [-> _]).
  eapply post_bind; [by apply same_post; [apply within_create_image|]|]. intros [image template] ? _ ->.
  eapply post_bind; [by apply post_query|]. intros _ ? _ [-> _].
  eapply post_bind; [by apply post_lift|]. intros size ? _ [-> _].
  eapply post_bind; [by apply post_lift|]. intros [o needsResize] ? _ [-> _].
  eapply post_bind; [by apply same_post; [apply within_create_prereqs|]|]. intros _ ? _ ->.
  eapply post_bind; [by apply same_post; [apply within_create_capacity|]|]. intros pool ? _ ->.
  eapply post_bind; [by apply prepare_post|]. intros dir w1 Hw1 _.
  eapply post_bind; [by apply same_post; [apply within_copy_boot_files|]|]. intros image' ? _ ->.
  eapply post_bind; [by apply record_post|]. intros j w2 Hw2 (Ha & HN & HS). cbn [Name new_instance] in HN.
  eapply post_bind; [apply (admitted_still _ j); [apply within_recordEvent|done]|]. intros ? w3 Hw3 Ha3.
  eapply post_mono; [by apply create_steps_post|done|]. intros k w4 _ [-> Hup]. by rewrite HN.
Qed.
End starting.
