(* ===== verification/LifecycleFrame.v ===== *)
(** * What a lifecycle command leaves alone

    Whatever fails, starting, stopping or reconciling an instance changes no record but
    its own, and no request of anybody: the promise the commands of users build on. *)
From S2P Require Import Prelude GoStrings Timestamps Paths Model Sql StoreDB StoreRequests.
From S2P Require Import StoreInstances StoreCleanup StoreMigration StorePools StoreTrace InstanceSpec Identity Config.
From S2P Require Import PoolHost RunnerState Runtime Receipts ReceiptStop.
From S2P Require Import Provision PoolStore HostCapacity PoolCmds Lifecycle LifecycleInv LifecycleStart PoolInv.

#[local] Open Scope Z_scope.

(** Calls that do not reach the database. *)
Definition db_same (w w' : Control) : Prop := pv_db w' = pv_db w.
#[export] Instance db_same_preorder : PreOrder db_same.
Proof. unfold db_same. split; [done|]. intros ???. congruence. Qed.

Section frame.
Context (rcfg : ServerConfig) (marshal : StartRequest → string)
  (start : StartRequest → M Host StartResponse) (guest_shutdown : string → Machine → Machine).

#[local] Abbreviation deliver := (deliver rcfg marshal start guest_shutdown).
#[local] Abbreviation happen := (happen rcfg marshal start guest_shutdown).
#[local] Abbreviation on_host := (on_host rcfg marshal start guest_shutdown).

Lemma deliver_db w e : pv_db (deliver w e) = pv_db w.
Proof. destruct e; cbn [Lifecycle.deliver]; [case_bool_decide|..]; done. Qed.

Lemma happen_db w : pv_db (happen w) = pv_db w.
Proof.
  unfold Lifecycle.happen. destruct (pv_events w) as [|now later]; [done|].
  transitivity (pv_db (set_events later w)); [|done]. generalize (set_events later w).
  induction now as [|e es IH]; intros w'; cbn; [done|]. by rewrite IH, deliver_db.
Qed.

Lemma on_host_db {A} (m : M Host A) : within db_same (on_host m).
Proof.
  intros w fs. unfold Lifecycle.on_host, db_same. destruct (m fs _) as [[o h] fs'] eqn:E. cbn. apply happen_db.
Qed.

Lemma attempt_sent_db req : within db_same (attempt_sent req).
Proof. by intros w fs. Qed.

Ltac host_calls := repeat first
  [ apply on_host_db | apply attempt_sent_db | within_step ].

Context (ParseMAC ParseCIDR ParseIP : string → bool).

Lemma client_Start_db req :
  within db_same (client_StartInstanceVM rcfg marshal start guest_shutdown ParseMAC ParseCIDR ParseIP req).
Proof. unfold client_StartInstanceVM, host_check, answer. host_calls. Qed.
Lemma client_Resolve_db q : within db_same (client_ResolveInstanceStart rcfg marshal start guest_shutdown q).
Proof. unfold client_ResolveInstanceStart, answer. host_calls. Qed.
Lemma client_Stop_db req : within db_same (client_StopInstanceVM rcfg marshal start guest_shutdown req).
Proof. unfold client_StopInstanceVM, answer. host_calls. Qed.
Lemma alive_db pid : within db_same (alive rcfg marshal start guest_shutdown pid).
Proof. unfold alive. host_calls. Qed.

Context (serial_log : Machine → string → option string) (pid_payload : Z → string)
  (error_payload : string → string) (net_payload tailnet_payload : string → string → string).

Lemma serialLog_db path :
  within db_same (serialLogShowsGuestHalted rcfg marshal start guest_shutdown serial_log path).
Proof. unfold serialLogShowsGuestHalted. host_calls. Qed.

Lemma identity_db inst :
  within db_same (instanceRuntimeIdentity rcfg marshal start guest_shutdown serial_log inst).
Proof.
  unfold instanceRuntimeIdentity, startResult. pose proof serialLog_db. pose proof client_Resolve_db.
  repeat first [apply on_host_db | within_step | solve [eauto]].
Qed.

(** ** The frame of the instance [n], whose row has the key [k] *)

Context (n k : string) (d0 : DB).

Record framed (w : Control) : Prop := {
  fr_wf : wf (pv_db w);
  fr_row : ∃ r, instances (pv_db w) !! k = Some r ∧ row_Name r = n;
  fr_others : ∀ k', k' ≠ k → instances (pv_db w) !! k' = instances d0 !! k';
  fr_requests : lifecycle_requests (pv_db w) = lifecycle_requests d0;
}.

Definition mine (i : Instance) : Prop := Name i = n ∧ ID i = k.

#[local] Abbreviation keeps m P := (∀ w, framed w → wp m (post framed P) w).

Lemma framed_db d w w' : framed w → wf d → instances d = instances (pv_db w) →
  lifecycle_requests d = lifecycle_requests (pv_db w) → framed (set_db d w').
Proof. intros [] Hwf Hi Hr. split; cbn; [done|by rewrite Hi|by rewrite Hi|congruence]. Qed.

Lemma keeps_same {A} (m : M Control A) : within db_same m → keeps m (λ _ _, True).
Proof.
  intros Hm w Hw. eapply wp_mono; [apply Hm|]. intros o w' Hs. split; [|done]. unfold db_same in Hs.
  destruct Hw. split; by rewrite Hs.
Qed.

Lemma keeps_read {A} (m : M Control A) : within eq m → keeps m (λ _ _, True).
Proof. intros Hm. apply keeps_same. eapply within_mono; [|exact Hm]. by intros w w' <-. Qed.

Lemma keeps_get : keeps (on_db (GetInstance n)) (λ i _, mine i).
Proof.
  intros w Hw. eapply wp_mono; [apply reads_on_db, GetInstance_reads|]. intros o w' [-> Hi].
  split; [done|]. intros i Ho. destruct (Hi i Ho) as (k' & r & Hk & Hn & Hscan).
  apply scan_fields in Hscan as (HID & HName & _). split; [by rewrite HName|].
  destruct (fr_row _ Hw) as (r0 & Hr0 & Hn0). rewrite HID.
  transitivity k'; [exact (wf_instances _ (fr_wf _ Hw) k' r Hk)|].
  apply (named_point (pv_db w) k r0 (fr_wf _ Hw) Hr0 k' r Hk). unfold named. rewrite Hn, Hn0. apply String.eqb_refl.
Qed.

Lemma framed_row r' w :
  framed w → wf (set_instances (<[k := r']> (instances (pv_db w))) (pv_db w)) → row_Name r' = n →
  framed (set_db (set_instances (<[k := r']> (instances (pv_db w))) (pv_db w)) w).
Proof.
  intros [] Hwf Hn. split; cbn; [done|exists r'; by rewrite lookup_insert_eq| |done].
  intros k' Hk'. rewrite lookup_insert_ne by done. auto.
Qed.

Lemma keeps_update now i : mine i → keeps (on_db (UpdateInstance now i)) (λ _ _, True).
Proof.
  intros [HName HID] w Hw. destruct (fr_row _ Hw) as (r & Hr & Hn). apply wp_on_db. eapply wp_mono.
  { apply wp_and; [|apply (op_wf _ _ (op_UpdateInstance now i))].
    apply (UpdateInstance_wp now i k r); [apply Hw|done|congruence]. }
  intros o d' [[[-> _]|[-> _]] Hwf']; split; try done; [by rewrite set_db_same|].
  apply framed_row; [done|by apply Hwf', Hw|]. destruct (updated_row_fields now i r) as (E & _). congruence.
Qed.

Lemma keeps_cas now o u : ID o = k → keeps (on_db (UpdateInstanceRuntime now o u)) (λ _ _, True).
Proof.
  intros HID w Hw. destruct (fr_row _ Hw) as (r & Hr & Hn). apply wp_on_db. eapply wp_mono.
  { apply wp_and; [apply UpdateInstanceRuntime_spec, Hw|apply (op_wf _ _ (op_UpdateInstanceRuntime now o u))]. }
  intros out d' [Hspec Hwf']. split; [|done].
  assert (Hsame : d' = pv_db w → framed (set_db d' w)) by (intros ->; by rewrite set_db_same).
  assert (Hwr : runtime_written now o u (pv_db w) d' → framed (set_db d' w)).
  { intros (r0 & Hr0 & _ & ->). rewrite HID in *. assert (r0 = r) as -> by congruence.
    apply framed_row; [done|by apply Hwf', Hw|]. by destruct r as [[] ?]. }
  destruct out as [[]|e|]; [by apply Hwr|by apply Hsame|destruct Hspec; auto].
Qed.

Lemma keeps_event now id typ message payload : keeps (recordEvent now id typ message payload) (λ _ _, True).
Proof.
  intros w Hw. unfold recordEvent. eapply post_bind; [|by intros ? ? ? _; apply post_ret].
  apply (post_try framed _ (λ _ _, True)). apply wp_on_db. eapply wp_mono.
  { apply wp_and; [|apply (op_wf _ _ (op_RecordEvent (now 0%nat) _))].
    apply (within_wp (λ d d', instances d' = instances d ∧ lifecycle_requests d' = lifecycle_requests d) _
      (λ d', instances d' = instances (pv_db w) ∧ lifecycle_requests d' = lifecycle_requests (pv_db w))); [|done].
    intros d. by apply wp_env. }
  intros o d' [[Hi Hl] Hwf]. split; [|done]. by apply (framed_db _ w); [|apply Hwf, Hw| |].
Qed.

(** ** The commands, call by call *)

Lemma keeps_try {A} (m : M Control A) (P : A → Prop) :
  keeps m (λ a _, P a) → keeps (try m) (λ r _, ∀ a, r = inl a → P a).
Proof. intros Hm w Hw. by apply (post_try framed _ (λ a _, P a)), Hm. Qed.

(** A call of which only the frame matters. *)
Ltac call H := eapply post_bind; [apply H; eassumption|intros ? ? ? _].
Ltac check_ := eapply post_bind; [apply keeps_read; [repeat within_step|eassumption]|intros ? ? ? _].
Ltac event := eapply post_bind; [apply keeps_event; eassumption|intros ? ? ? _].

(** The setters of a record keep its name and key. *)
Ltac mine_ := match goal with H : mine ?i |- mine _ => clear -H; destruct i; exact H end.

#[local] Abbreviation resolve := (resolveRuntime rcfg marshal start guest_shutdown).

Lemma keeps_persist now o i : mine o → mine i → keeps (persist_outcome now o i) (λ i _, mine i).
Proof.
  intros Ho Hi w Hw. unfold persist_outcome. case_match; [by apply post_ret|].
  eapply post_bind; [apply keeps_cas; [apply Ho|done]|]. intros _ w' Hw' _. apply post_ret; [done|mine_].
Qed.

Lemma keeps_resolve now i : mine i → keeps (resolve now i) (λ i _, mine i).
Proof.
  intros Hi w Hw. unfold resolveRuntime. case_match; [by apply post_ret|].
  eapply post_bind; [apply keeps_same; [apply within_try, client_Resolve_db|done]|]. intros r w1 Hw1 _.
  destruct r as [resp|e]; [|by apply post_throw]. case_match.
  - check_. check_. apply keeps_persist; [done| |done]. unfold found_running. case_match; mine_.
  - case_match; [|by apply post_throw]. case_match; [|by apply post_ret].
    unfold host_check. check_. apply keeps_persist; [done| |done]. unfold found_absent. repeat case_match; mine_.
Qed.

Lemma keeps_stop_instance now save i :
  mine i → keeps (stop_instance rcfg marshal start guest_shutdown now save i) (λ i _, mine i).
Proof.
  intros Hi w Hw. unfold stop_instance. check_. check_. check_.
  assert (Hm1 : mine (stopping (now 0%nat) i)) by (clear -Hi; by destruct i).
  eapply post_bind; [by apply keeps_update|]. intros _ ? ? _. event.
  eapply post_bind; [by apply keeps_resolve|]. intros i2 ? ? Hm2.
  eapply post_bind; [apply keeps_same; [apply client_Stop_db|eassumption]|]. intros _ ? ? _.
  unfold host_check. check_. assert (Hm3 : mine (stopped (now 3%nat) i2)) by (clear -Hm2; by destruct i2).
  eapply post_bind; [by apply keeps_update|]. intros _ ? ? _. event. by apply post_ret.
Qed.

Lemma keeps_stop now save :
  keeps (StopWithOptions rcfg marshal start guest_shutdown now save n) (λ i _, mine i).
Proof.
  intros w Hw. unfold StopWithOptions. eapply post_bind; [by apply keeps_get|]. intros i ? ? Hi.
  by apply keeps_stop_instance.
Qed.

Lemma keeps_reconcileRuntime now i :
  mine i → keeps (reconcileRuntime rcfg marshal start guest_shutdown serial_log pid_payload now i) (λ _ _, True).
Proof.
  intros Hi w Hw. unfold reconcileRuntime.
  eapply post_bind; [apply keeps_read; [apply within_on_db; unfold CheckCleanupFence; solve_reads|done]|].
  intros _ w1 Hw1 _. eapply (post_bind _ _ _ (λ i _, mine i)).
  { case_match; [by apply keeps_resolve|by apply post_ret]. }
  intros i2 w2 Hw2 Hi2. case_match; [by apply post_ret|]. case_match; [by apply post_ret|].
  eapply post_bind; [apply keeps_same; [apply alive_db|done]|]. intros running w3 Hw3 _.
  eapply (post_bind _ _ _ (λ _ _, True)).
  { destruct running; [apply keeps_same; [apply serialLog_db|done]|by apply post_ret]. }
  intros halted w4 Hw4 _. case_match; [by apply post_ret|]. case_match.
  - eapply post_bind; [by apply keeps_resolve|]. intros ? ? ? _. by apply post_ret.
  - event. destruct Hi2 as [-> _]. eapply post_bind; [by apply keeps_stop|]. intros ? ? ? _. by apply post_ret.
Qed.

Lemma keeps_reconcile now :
  keeps (ReconcileInstanceRuntime rcfg marshal start guest_shutdown serial_log pid_payload now n) (λ i _, mine i).
Proof.
  intros w Hw. unfold ReconcileInstanceRuntime. eapply post_bind; [by apply keeps_get|]. intros i ? ? Hi.
  eapply post_bind; [by apply keeps_reconcileRuntime|]. intros ? ? ? _. by apply keeps_get.
Qed.

(** *** A start *)

Context (cfg : Config) (has_tsClient : bool).
Implicit Types i : inputs.

Lemma keeps_uncertain now inst : mine inst → keeps (uncertain now inst) (λ p _, mine p.1).
Proof.
  intros Hi w Hw. unfold uncertain. eapply post_bind.
  { apply (post_try framed _ (λ _ _, True)), keeps_update; [mine_|done]. }
  intros ? w1 Hw1 _. apply post_ret; [done|]. cbn [fst]. mine_.
Qed.

Lemma keeps_startFirecracker now request inst pool b discard :
  mine inst → keeps (startFirecracker cfg rcfg marshal start guest_shutdown ParseMAC ParseCIDR ParseIP
    now request inst pool b discard) (λ p _, mine p.1).
Proof.
  intros Hi w Hw. unfold startFirecracker.
  eapply post_bind; [apply keeps_same; [apply within_try, on_host_db|done]|]. intros boot w1 Hw1 _.
  destruct boot as [boot|e]; [|by apply post_ret]. cbv zeta. set (inst' := set_UpdatedAt _ _).
  assert (Hi' : mine inst') by (unfold inst'; mine_). clearbody inst'.
  eapply post_bind; [by apply (post_try framed _ (λ _ _, True)), keeps_update|]. intros u w2 Hw2 _.
  destruct u as [u|e]; [|by apply post_ret].
  eapply post_bind; [apply keeps_same; [apply within_try, client_Start_db|done]|]. intros resp w3 Hw3 _.
  eapply (post_bind _ _ _ (λ _ _, True)).
  { destruct resp; [by apply post_ret|]. apply keeps_same; [apply within_try, client_Resolve_db|done]. }
  intros resp' w4 Hw4 _. destruct resp' as [resp'|]; [|by apply keeps_uncertain].
  repeat case_match; first [by apply post_ret|by apply keeps_uncertain].
Qed.

#[local] Abbreviation identity := (instanceRuntimeIdentity rcfg marshal start guest_shutdown serial_log).

Ltac attest := eapply post_bind; [apply keeps_same; [apply identity_db|eassumption]|intros ? ? ? _].

Lemma keeps_waitForOrb now i inst :
  mine inst → keeps (waitForOrb rcfg marshal start guest_shutdown serial_log now i inst) (λ a _, mine a).
Proof.
  intros Hi w Hw. unfold waitForOrb. attest. check_. attest. check_.
  eapply post_bind; [apply keeps_cas; [apply Hi|eassumption]|]. intros _ ? ? _. event. apply post_ret; [done|mine_].
Qed.

Lemma keeps_late_join now i inst :
  mine inst → keeps (reconcileLateTailnetJoin rcfg marshal start guest_shutdown serial_log tailnet_payload
    now i inst) (λ a _, mine a).
Proof.
  intros Hi w Hw. unfold reconcileLateTailnetJoin. attest. check_.
  match goal with r : _ * _ * _ |- _ => destruct r as [[name node] ip] end. check_. attest. check_.
  eapply post_bind; [apply keeps_cas; [apply Hi|eassumption]|]. intros _ ? ? _. destruct Hi as [-> _].
  eapply post_bind; [by apply keeps_get|]. intros inst' ? ? Hi'. event. by apply post_ret.
Qed.

Lemma wait_join_db i inst : within db_same (wait_join rcfg marshal start guest_shutdown serial_log i inst).
Proof. unfold wait_join. pose proof identity_db. repeat first [within_step | solve [auto]]. Qed.

Lemma keeps_await now i inst :
  mine inst → keeps (await_tailnet rcfg marshal start guest_shutdown serial_log error_payload tailnet_payload
    now i inst) (λ a _, mine a).
Proof.
  intros Hi w Hw. unfold await_tailnet.
  eapply post_bind; [apply keeps_same; [apply within_try, wait_join_db|done]|]. intros r w1 Hw1 _.
  destruct r as [[name ip]|e].
  - eapply post_bind; [apply keeps_cas; [apply Hi|eassumption]|]. intros _ ? ? _. event. apply post_ret; [done|mine_].
  - eapply post_bind; [apply keeps_cas; [apply Hi|eassumption]|]. intros _ ? ? _. event. by apply post_throw.
Qed.

Lemma keeps_booted now i pid inst :
  mine inst → keeps (booted rcfg marshal start guest_shutdown serial_log pid_payload error_payload tailnet_payload
    now i pid inst) (λ a _, mine a).
Proof.
  intros Hi w Hw. unfold booted. set (inst' := set_UpdatedAt _ _).
  assert (Hi' : mine inst') by (unfold inst'; mine_). clearbody inst'.
  eapply post_bind; [by apply keeps_update|]. intros _ ? ? _. event.
  case_match; [by apply keeps_waitForOrb|by apply keeps_await].
Qed.

Lemma keeps_abandon now e inst : mine inst → keeps (abandon_start now e inst) (λ a _, mine a).
Proof.
  intros Hi w Hw. unfold abandon_start, host_check. check_.
  eapply post_bind.
  { apply (post_try framed _ (λ _ _, True)), keeps_update; [mine_|eassumption]. }
  intros ? ? ? _. by apply post_throw.
Qed.

Lemma keeps_reads {A} (m : M Control A) P : (∀ w, reads m P w) → keeps m (λ a _, P a).
Proof. intros Hm w Hw. eapply wp_mono; [apply Hm|]. intros o ? [-> HP]. by split. Qed.

Lemma keeps_admit now :
  keeps (admit_start (cf_MemoryMiB cfg) has_tsClient now n) (λ p _, mine p.1).
Proof.
  intros w Hw. unfold admit_start. eapply post_bind; [by apply keeps_get|]. intros got w1 Hw1 Hgot.
  cbv zeta. set (cur := applyConfiguredBootArtifacts got).
  assert (Hcur : mine cur) by (clear -Hgot; by destruct got). clearbody cur.
  unfold host_check. check_. eapply post_bind; [apply keeps_reads; [intros; apply reads_rejecting, reads_query|done]|].
  intros _ w2 Hw2 _. check_.
  eapply post_bind; [apply keeps_reads; [intros; apply reads_rejecting, reads_any, prereqs_within|eassumption]|].
  intros _ w3 Hw3 _. check_. check_.
  eapply (post_bind _ _ _ (λ _ _, True)).
  { case_match.
    - eapply post_bind; [apply keeps_reads; [intros; apply reads_rejecting, reads_any, within_pool_for|eassumption]|].
      intros pool w4 Hw4 _.
      eapply post_bind; [apply keeps_reads; [intros; apply reads_rejecting, reads_lift|eassumption]|].
      intros _ ? ? _. by apply post_ret.
    - eapply post_bind; [apply (keeps_reads _ (λ _, True)); [|eassumption]|].
      { intros w'. apply reads_rejecting. eapply reads_mono; [apply ensureReservation_reads|done]. }
      intros _ ? ? _. by apply post_ret. }
  intros pool w4 Hw4 _. set (cur' := set_UpdatedAt _ _).
  assert (Hcur' : mine cur') by (unfold cur'; clear -Hcur; by destruct cur). clearbody cur'.
  eapply post_bind; [by apply keeps_update|]. intros _ w5 Hw5 _.
  eapply (post_bind _ _ _ (λ _ _, True)).
  { destruct pool; [|by apply post_ret]. apply keeps_same; [|done]. by intros ? ?. }
  intros _ w6 Hw6 _. by apply post_ret.
Qed.

Lemma keeps_launch now i discard pool inst :
  mine inst → keeps (launch_admitted cfg rcfg marshal start guest_shutdown ParseMAC ParseCIDR ParseIP serial_log
    pid_payload error_payload net_payload tailnet_payload now i discard pool inst) (λ a _, mine a).
Proof.
  intros Hi w Hw. unfold launch_admitted. destruct (tailnet_device _ _) as [inst'|e] eqn:Hdev; [|by apply keeps_abandon].
  assert (Hi' : mine inst').
  { unfold tailnet_device in Hdev. revert Hdev. destruct (String.eqb _ _); [by intros [= <-]|].
    destruct (si_device i) as [[id|]|]; cbn; [|case_match; [by intros [= <-]|done]|done].
    case_match; [case_match; [by intros [= <-]|done]|]. intros [= <-]. mine_. }
  eapply post_bind; [apply keeps_read; [unfold host_check; repeat within_step|done]|]. intros r w1 Hw1 _.
  destruct r as [[]|e]; [|by apply keeps_abandon]. event.
  eapply post_bind; [apply keeps_read; [unfold host_check; repeat within_step|eassumption]|]. intros r w2 Hw2 _.
  destruct r as [[]|e]; [|apply keeps_abandon; [clear -Hi'; by destruct inst'|done]]. event.
  eapply post_bind; [by apply keeps_startFirecracker|]. intros [inst2 b] w3 Hw3 Hi2. cbn [fst] in Hi2.
  destruct b as [pid|e|]; [by apply keeps_booted| |by apply post_throw].
  apply keeps_abandon; [clear -Hi2; by destruct inst2|done].
Qed.

Lemma keeps_start i discard :
  keeps (StartWithOptions cfg has_tsClient rcfg marshal start guest_shutdown ParseMAC ParseCIDR ParseIP serial_log
    pid_payload error_payload net_payload tailnet_payload i discard n) (λ a _, mine a).
Proof.
  intros w Hw. unfold StartWithOptions.
  eapply post_bind; [apply keeps_read; [apply migrationFence_within|done]|]. intros _ w1 Hw1 _.
  eapply post_bind; [by apply keeps_reconcile|]. intros inst w2 Hw2 Hi. cbv zeta.
  set (cur := applyConfiguredBootArtifacts inst).
  assert (Hcur : mine cur) by (unfold cur; clear -Hi; by destruct inst). clearbody cur.
  eapply (post_bind _ _ _ (λ _ _, True)).
  { case_match; [apply keeps_same; [apply alive_db|done]|by apply post_ret]. }
  intros orb_up w3 Hw3 _. destruct orb_up; [by apply keeps_waitForOrb|].
  eapply (post_bind _ _ _ (λ _ _, True)).
  { case_match; [apply keeps_same; [apply alive_db|done]|by apply post_ret]. }
  intros vm_up w4 Hw4 _. destruct vm_up; [by apply keeps_late_join|].
  eapply post_bind; [apply keeps_same; [apply alive_db|done]|]. intros up w5 Hw5 _. check_.
  unfold host_check at 1. check_. unfold start_fence.
  eapply (post_bind _ _ _ (λ a _, mine a)).
  { eapply post_bind; [apply keeps_read; [apply migrationFence_within|eassumption]|]. intros _ ? ? _. by apply keeps_get. }
  intros current w6 Hw6 Hc. eapply post_bind; [by apply keeps_reconcileRuntime|]. intros _ w7 Hw7 _.
  eapply post_bind; [by apply keeps_admit|]. intros [inst' pool] w8 Hw8 Hi'. by apply keeps_launch.
Qed.
End frame.
