(* ===== verification/LifecycleSpec.v ===== *)
(** * What the lifecycle of an instance guarantees

    Over every history of creations, starts, stops, reconciliations, deletions and
    restarts of the control plane, with any faults and crashes, any delay or repetition of the requests sent to
    the runner and anything happening to the machine: an instance at rest stays down,
    and one that is up runs the start it records. *)
From S2P Require Import Prelude CommandLine GoStrings Paths Timestamps Model Sql StoreDB StoreRequests StoreInstances.
From S2P Require Import StoreCleanup StoreMigration StorePools StoreDemo StoreTrace CleanupSpec InstanceSpec RunnerState.
From S2P Require Import Runtime Receipts ReceiptStop RunnerTrace RunnerOps RunnerSpec PoolHost Provision.
From S2P Require Import PoolStore HostCapacity PoolCmds PoolSpec Identity Config Lifecycle LifecycleInv.
From S2P Require Import LifecycleCmds LifecycleStart.
From stdpp Require Import relations.

#[local] Open Scope Z_scope.

Section spec.
Context (rcfg : ServerConfig) (marshal : StartRequest → string)
  (start : StartRequest → M Host StartResponse) (guest_shutdown : string → Machine → Machine).
Context (cfg : Config) (has_tsClient : bool) (ParseMAC ParseCIDR ParseIP : string → bool).
Context (serial_log : Machine → string → option string) (pid_payload : Z → string)
  (error_payload : string → string) (net_payload tailnet_payload : string → string → string).
Context (EqualFold : string → string → bool) (LowerCase : string → string).

#[local] Abbreviation Create := (Create cfg has_tsClient rcfg marshal start guest_shutdown ParseMAC
  ParseCIDR ParseIP serial_log pid_payload net_payload tailnet_payload EqualFold LowerCase).
#[local] Abbreviation Start := (StartWithOptions cfg has_tsClient rcfg marshal start guest_shutdown ParseMAC
  ParseCIDR ParseIP serial_log pid_payload error_payload net_payload tailnet_payload).
#[local] Abbreviation Restore := (RestoreInstance cfg has_tsClient rcfg marshal start guest_shutdown ParseMAC
  ParseCIDR ParseIP serial_log pid_payload error_payload net_payload tailnet_payload).
#[local] Abbreviation Stop := (StopWithOptions rcfg marshal start guest_shutdown).
#[local] Abbreviation Reconcile :=
  (ReconcileInstanceRuntime rcfg marshal start guest_shutdown serial_log pid_payload).

(** What the commands without a step of their own (import, backup and restore, resize,
    upgrade, the layout of a disk) may do to the records: a record whose attempt is not
    over keeps it, and does not come to rest.  They send no start. *)
Definition careful (w : Control) (d : DB) : Prop :=
  wf d ∧ ∀ k r, instances (pv_db w) !! k = Some r → over rcfg (row_attempt r) (pv_host w) ∨
    ∃ r', instances d !! k = Some r' ∧ row_attempt r' = row_attempt r ∧
      (resting (row_State r') → resting (row_State r)).

(** A deletion is recorded as finished only after the runner has proved that the recorded
    start is over ([deletion_proof_final] in RunnerSpec.v). *)
Definition proven (r : CleanupReceipt) (w : Control) : Prop :=
  ∀ row, instances (pv_db w) !! cr_InstanceID r = Some row → over rcfg (row_attempt row) (pv_host w).

(** The calls of the lifecycle, under any faults; the two writes of a deletion; requests
    that arrive late or again ([deliver]); the schedule of what will happen during the
    next command. *)
Inductive lc_step : Control → Control → Prop :=
  | lc_create ci name actor opts fs w : lc_step w (Create ci name actor opts fs w).1.2
  | lc_begin_cleanup now id actor inst fs w : lc_step w (on_db (BeginCleanup now id actor inst) fs w).1.2
  | lc_commit_cleanup now r fs w : proven r w → lc_step w (on_db (CommitCleanup now r) fs w).1.2
  | lc_start i discard name fs w : lc_step w (Start i discard name fs w).1.2
  | lc_stop now save name fs w : lc_step w (Stop now save name fs w).1.2
  | lc_reconcile now name fs w : lc_step w (Reconcile now name fs w).1.2
  | lc_restore i name fs w : lc_step w (Restore i name fs w).1.2
  | lc_deliver e w : lc_step w (deliver rcfg marshal start guest_shutdown w e)
  | lc_schedule es w : lc_step w (set_events es w)
  | lc_other d w : careful w d → lc_step w (set_db d w).

Definition lc_initial (w : Control) : Prop :=
  wf (pv_db w) ∧ journal_ok rcfg (pv_host w) ∧ pv_attempts w = [].

Definition lc_reachable (w : Control) : Prop := ∃ w0, lc_initial w0 ∧ rtc lc_step w0 w.

Context (start_quiet : ∀ req, quiet (start req)).

Lemma lc_initial_inv w : lc_initial w → lc_inv rcfg w.
Proof. intros (H1 & H2 & H3). split; [done..|]. rewrite H3. by intros req H%not_elem_of_nil. Qed.

Lemma careful_inv w d : lc_inv rcfg w → careful w d → lc_inv rcfg (set_db d w).
Proof.
  intros [Hwf Hok Hatt] [Hwf' Hd]. split; [done..|]. intros req Hreq.
  destruct (Hatt req Hreq) as [Ho|(r & Hr & Ha & Hn)]; [by left|].
  destruct (Hd _ r Hr) as [Ho|(r' & Hr' & Ha' & Hn')]; [left; by rewrite Ha|right].
  exists r'. split_and!; [done|congruence|auto].
Qed.

Lemma post_reached {A} (m : M Control A) I (P : A → Control → Prop) fs w :
  wp m (post I P) w → (∀ w', I w' → lc_inv rcfg w') → lc_inv rcfg (m fs w).1.2.
Proof. intros Hm HI. apply HI, (Hm fs). Qed.

Lemma careful_same w d : lc_inv rcfg w → d = pv_db w → careful w d.
Proof. intros [Hwf _ _] ->. split; [done|]. intros k r Hr. right. exists r. by split_and!. Qed.

Lemma careful_row w d k r r' :
  wf d → instances (pv_db w) !! k = Some r → instances d = <[k := r']> (instances (pv_db w)) →
  over rcfg (row_attempt r) (pv_host w) ∨ (row_attempt r' = row_attempt r ∧ ¬ resting (row_State r')) →
  careful w d.
Proof.
  intros Hwf Hk Hd Hcase. split; [done|]. intros k' r0 Hr0. rewrite Hd. destruct (decide (k = k')) as [<-|Hne].
  - assert (r0 = r) as -> by congruence. rewrite lookup_insert_eq. destruct Hcase as [Ho|[Ha Hn]]; [by left|right].
    by exists r'.
  - right. exists r0. by rewrite lookup_insert_ne.
Qed.

(** The writes of a deletion are careful. *)
Lemma begin_careful now id actor inst w :
  lc_inv rcfg w → wp (BeginCleanup now id actor inst) (λ _ d, careful w d) (pv_db w).
Proof.
  intros Hw. pose proof (li_wf _ _ Hw) as Hwf. eapply wp_mono.
  { apply wp_and; [by apply begin_cleanup_atomic|apply (op_wf _ _ (op_BeginCleanup now id actor inst))]. }
  intros o d [Hspec Hwf']. specialize (Hwf' Hwf).
  assert (Hb : begun now id actor inst (pv_db w) d → careful w d).
  { intros (fresh & q & r & _ & _ & _ & _ & Hr & _ & _ & ->).
    eapply (careful_row w _ (ID inst) r); [done|exact Hr|by destruct fresh|right].
    split; [by destruct r as [[] ?]|]. destruct r as [[] ?]. by apply awake_dec. }
  destruct o as [[]|e|]; [by apply Hb|by apply careful_same|].
  destruct Hspec as [?|?]; [by apply careful_same|by apply Hb].
Qed.

Lemma commit_careful now r w :
  lc_inv rcfg w → proven r w → wp (CommitCleanup now r) (λ _ d, careful w d) (pv_db w).
Proof.
  intros Hw Hp. pose proof (li_wf _ _ Hw) as Hwf. eapply wp_mono.
  { apply wp_and; [by apply CommitCleanup_spec|apply (op_wf _ _ (op_CommitCleanup now r))]. }
  intros o d [Hspec Hwf']. specialize (Hwf' Hwf).
  assert (Hc : CleanupSpec.committed now r (pv_db w) d → careful w d).
  { intros (q & row & f & _ & _ & Hrow & _ & _ & _ & _ & ->).
    eapply (careful_row w _ (cr_InstanceID r) row); [done|exact Hrow|done|left]. by apply Hp. }
  destruct o as [[]|e|]; [by apply Hc, Hspec|by apply careful_same|].
  destruct Hspec as [?|[_ ?]]; [by apply careful_same|by apply Hc].
Qed.

Lemma careful_step (m : M DB unit) fs w :
  lc_inv rcfg w → wp m (λ _ d, careful w d) (pv_db w) → lc_inv rcfg (on_db m fs w).1.2.
Proof.
  intros Hw Hm. specialize (Hm fs). unfold on_db. destruct (m fs (pv_db w)) as [[o d] fs'].
  by apply careful_inv.
Qed.

Lemma lc_step_inv w w' : lc_step w w' → lc_inv rcfg w → lc_inv rcfg w'.
Proof.
  destruct 1 as [ci name actor opts fs w|now id actor inst fs w|now r fs w Hp|i discard name fs w|now save name fs w|now name fs w|i name fs w|e w|es w|d w Hd]; intros Hw.
  - by eapply post_reached; [apply Create_post|].
  - apply careful_step; [done|by apply begin_careful].
  - apply careful_step; [done|by apply commit_careful].
  - by eapply post_reached; [apply Start_post|].
  - by eapply post_reached; [apply Stop_post|intros ? []].
  - by eapply post_reached; [apply Reconcile_post|intros ? []].
  - by eapply post_reached; [apply Restore_post|].
  - eapply calm_inv; [done|by apply calm_deliver].
  - eapply calm_inv; [done|by split].
  - by apply careful_inv.
Qed.

Lemma lc_reachable_inv w : lc_reachable w → lc_inv rcfg w.
Proof.
  intros (w0 & H0%lc_initial_inv & Hs). revert H0. induction Hs; eauto using lc_step_inv.
Qed.

(** The invariant of start attempts holds in every reachable state: every attempt ever
    sent is over, or is the one its instance's record names, and that record is not at
    rest. *)
Theorem start_attempts_tracked w req :
  lc_reachable w → req ∈ pv_attempts w →
  over rcfg (attempt req) (pv_host w) ∨
  ∃ r, instances (pv_db w) !! sq_InstanceID req = Some r ∧ row_attempt r = attempt req ∧ ¬ resting (row_State r).
Proof.
  intros Hw Hreq. destruct (li_attempts _ _ (lc_reachable_inv w Hw) req Hreq) as [H|(r & H1 & H2 & H3)]; [by left|].
  right. by exists r.
Qed.


(** C8. Of all the starts that creations, start commands and automatic restarts ever sent,
    two of one instance are never open together.  Commands without a step of their own
    are presumed [careful]. *)
Theorem one_open_start w req req' :
  lc_reachable w → req ∈ pv_attempts w → req' ∈ pv_attempts w → sq_InstanceID req = sq_InstanceID req' →
  ¬ over rcfg (attempt req) (pv_host w) → ¬ over rcfg (attempt req') (pv_host w) →
  attempt req = attempt req'.
Proof.
  intros Hw%lc_reachable_inv Hreq Hreq' HID Hn Hn'.
  destruct (li_attempts _ _ Hw req Hreq) as [?|(r & Hr & Ha & _)]; [done|].
  destruct (li_attempts _ _ Hw req' Hreq') as [?|(r' & Hr' & Ha' & _)]; [done|].
  rewrite HID in Hr. congruence.
Qed.

(** C7. A start that returns an instance returns it "ready": as its record says, and with
    the runner's receipt of exactly the recorded start, whose process is the recorded
    one and is there. *)
Theorem start_is_attested i discard name w :
  lc_reachable w →
  wp (Start i discard name) (λ o w', ∀ inst, o = Ok inst →
    Name inst = name ∧ State inst = StateReady ∧ row_is inst w' ∧
    (StartRequestID inst ≠ "" → ∃ r, file_of rcfg (attempt_of inst) (pv_host w') = Some (F_receipt r) ∧
       RState r = "started" ∧ PID r = FirecrackerPID inst ∧
       read_ticks (procs (machine (pv_host w')) !! PID r) = inl (Ticks r))) w.
Proof.
  intros Hw%lc_reachable_inv. eapply wp_mono; [by apply Start_post|].
  intros o w' [_ HP] inst Ho. destruct (HP inst Ho) as (HN & HS & Hrow & Hat). by split_and!.
Qed.

(** C19. A stop that returns leaves the instance at rest: its record says "stopped" without a
    process, and the runner has closed its start. *)
Theorem stop_settles now save name w :
  lc_reachable w →
  wp (Stop now save name) (λ o w', ∀ inst, o = Ok inst →
    Name inst = name ∧ State inst = StateStopped ∧ FirecrackerPID inst = 0 ∧ row_is inst w' ∧
    (StartRequestID inst ≠ "" → closed_at rcfg (attempt_of inst) (pv_host w'))) w.
Proof.
  intros Hw%lc_reachable_inv. eapply wp_mono; [by apply Stop_post|].
  intros o w' [_ HP] inst Ho. destruct (HP inst Ho) as (HN & HS & HP0 & Hrow & Hov). by split_and!.
Qed.
End spec.

(** ** An instance that is started and stopped

    An orb is started, its request is lost and the start abandoned; another is started and
    stopped; one is created, and its request arrives after the creation has failed. *)

Definition lc_config : Config :=
  mkConfig "/srv/data" "srv" ":22" 0 "" "" "" "" "" [] "" [] [] [] ∅ "/srv/vmlinux" "" "/srv/rootfs.img" ∅ "" "" "" ""
    "172.28.0.0/16" ["1.1.1.1"]
    2 1024 0 0 [] ∅ "" false "" "" "" 0 "" "" 0 0 0 "" false 0 "info" "".

Definition orb : Instance :=
  mkInstance "id-1" "demo" "orb" "" StateStopped t0 "alice@example.com" "laptop" 2 1024 "" "" 0
    "/srv/rootfs.img" "/srv/vmlinux" "" "/run/fc.sock" "/log" "/serial" "tap0" "aa:fc:00:00:00:01"
    "172.28.0.0/30" "172.28.0.1" "172.28.0.2/30" "172.28.0.1" 0 "" "" "" "" "" "" None t0.

Definition lw0 : Control :=
  mkControl (run (CreateInstance t0 orb) empty_DB).2 (mkPoolHost ∅ ∅) host0 (8 * GiB) [] [] [] [].

Definition in0 : inputs :=
  mkInputs (λ n, t0 + Z.of_nat n) "start-1" (inl None) (inr ErrIO) (inl tt).

Definition any_text (_ : string) : bool := true.
Definition no_log (_ : Machine) (_ : string) : option string := None.
Definition no_payload {A} (_ : A) : string := "".
Definition no_payload2 (_ _ : string) : string := "".
Definition same_text (s : string) : string := s.

Definition demo_start : M Control Instance :=
  StartWithOptions lc_config true cfg0 marshal0 start0 guest0 any_text any_text any_text no_log no_payload
    no_payload no_payload2 no_payload2 in0 false "demo".
Definition demo_stop : M Control Instance :=
  StopWithOptions cfg0 marshal0 start0 guest0 (λ n, t0 + 100 + Z.of_nat n) false "demo".

Definition ok_state (o : outcome Instance) : option string :=
  match o with Ok i => Some (State i) | _ => None end.

#[local] Abbreviation reachable := (lc_reachable cfg0 marshal0 start0 guest0 lc_config true any_text any_text
  any_text no_log no_payload no_payload no_payload2 no_payload2 String.eqb same_text).

Lemma lw0_initial : lc_initial cfg0 lw0.
Proof. split_and!; [apply run_wf; [apply op_CreateInstance|apply wf_empty]|apply host0_ok|done]. Qed.

Lemma lw0_reachable : reachable lw0.
Proof. exists lw0. split; [apply lw0_initial|done]. Qed.

Lemma start_reachable fs w : reachable w → reachable (demo_start fs w).1.2.
Proof.
  intros (w0 & H0 & Hs). exists w0. split; [done|]. eapply rtc_r; [exact Hs|]. apply lc_start.
Qed.

(** The request of this start never gets an answer ... *)
Definition lost : list fault := (replicate 38 Pass ++ [Fail])%list.
Definition lw1 : Control := (demo_start lost lw0).1.2.
(** ... and this one's command dies after sending it. *)
Definition cut : list fault := (replicate 38 Pass ++ [CrashAfter])%list.
Definition lw2 : Control := (demo_start cut lw0).1.2.

Definition the_request : StartRequest := hd request0 (pv_attempts lw1).

Lemma lw1_facts :
  row_State <$> instances (pv_db lw1) !! "id-1" = Some StateStopped ∧
  pv_attempts lw1 = [the_request] ∧ sq_InstanceID the_request = "id-1" ∧
  sq_RequestID the_request = "start-1" ∧ launches (pv_host lw1) = [].
Proof. vm_compute. by split_and!. Qed.

(** Another orb is created, and its request is lost in the same way: the creation fails,
    and the name is free for another. *)
Definition alice : Actor := mkActor "alice@example.com" "Alice" "laptop" "100.64.0.1:1" "alice".
Definition create_in (id request : string) : create_inputs :=
  mkCreateInputs (mkInputs (λ n, t0 + Z.of_nat n) request (inl None) (inr ErrIO) (inl tt)) id (inr ErrIO) "tmp"
    (inl 4096) (1, 2) (inr ErrIO).
Definition demo_create (id request : string) : M Control Instance :=
  Create lc_config true cfg0 marshal0 start0 guest0 any_text any_text any_text no_log no_payload
    no_payload2 no_payload2 String.eqb same_text (create_in id request) "fresh" alice
    (mkCreateOptions "" "" "orb" 0 0 "" false 0).

Definition lw4 : Control := (demo_create "id-2" "start-2" lost lw0).1.2.




Example created_again :
  let '(o, w, _) := demo_create "id-3" "start-3" [] lw4 in
  ok_state o = Some StateReady ∧ instances (pv_db w) !! "id-2" = None.
Proof. vm_compute. by split. Qed.


Lemma lw2_facts : pv_attempts lw2 = [the_request] ∧ receipts (pv_host lw2) = ∅.
Proof. vm_compute. by split. Qed.

Lemma one_open_start_witness :
  the_request ∈ pv_attempts lw2 ∧ ¬ over cfg0 (attempt the_request) (pv_host lw2) ∧
  attempt the_request = attempt the_request.
Proof.
  destruct lw2_facts as [Hat Hh]. destruct lw1_facts as (_ & _ & _ & Hreq & _).
  assert (Hin : the_request ∈ pv_attempts lw2) by (rewrite Hat; left).
  assert (Hn : ¬ over cfg0 (attempt the_request) (pv_host lw2)).
  { intros [He|(r & Hr & _)]; [cbn in He; by rewrite Hreq in He|].
    unfold file_of, lookup_file, dir_of in Hr. by rewrite Hh, lookup_empty in Hr. }
  split_and!; [exact Hin|exact Hn|].
  exact (one_open_start cfg0 marshal0 start0 guest0 lc_config true any_text any_text any_text no_log
    no_payload no_payload no_payload2 no_payload2 String.eqb same_text start0_quiet lw2 the_request the_request
    (start_reachable cut lw0 lw0_reachable) Hin Hin eq_refl Hn Hn).
Defined.

(** The start of the orb succeeds ... *)
Definition lw3 : Control := (demo_start [] lw0).1.2.
Lemma lw3_ready : ok_state (demo_start [] lw0).1.1 = Some StateReady.
Proof. vm_compute. reflexivity. Qed.

Lemma start_is_attested_witness :
  ∃ inst, (demo_start [] lw0).1.1 = Ok inst ∧ Name inst = "demo" ∧ row_is inst lw3.
Proof.
  pose proof (start_is_attested cfg0 marshal0 start0 guest0 lc_config true any_text any_text any_text no_log
    no_payload no_payload no_payload2 no_payload2 String.eqb same_text start0_quiet in0 false "demo" lw0 lw0_reachable []) as H.
  change (StartWithOptions _ _ _ _ _ _ _ _ _ _ _ _ _ _ in0 false "demo") with demo_start in H.
  pose proof lw3_ready as Hok. unfold lw3.
  destruct (demo_start [] lw0) as [[[inst|e|] w] fs]; [|done|done]. cbn in *.
  destruct (H inst eq_refl) as (HN & _ & Hrow & _). exists inst. by split_and!.
Defined.

(** ... and then it is stopped. *)
Lemma stop_ok : ok_state (demo_stop [] lw3).1.1 = Some StateStopped.
Proof. vm_compute. reflexivity. Qed.

Lemma stop_settles_witness :
  ∃ inst, (demo_stop [] lw3).1.1 = Ok inst ∧ FirecrackerPID inst = 0 ∧ row_is inst (demo_stop [] lw3).1.2.
Proof.
  pose proof (stop_settles cfg0 marshal0 start0 guest0 lc_config true any_text any_text any_text no_log
    no_payload no_payload no_payload2 no_payload2 String.eqb same_text start0_quiet (λ n, t0 + 100 + Z.of_nat n) false "demo" lw3
    (start_reachable [] lw0 lw0_reachable) []) as H.
  change (StopWithOptions _ _ _ _ _ _ "demo") with demo_stop in H.
  pose proof stop_ok as Hok.
  destruct (demo_stop [] lw3) as [[[inst|e|] w] fs]; [|done|done]. cbn in *.
  destruct (H inst eq_refl) as (HN & _ & HP & Hrow & _). exists inst. by split_and!.
Defined.
