(* ===== verification/Logs.v ===== *)
(** * Logs shown on a user's terminal

    Models the log reader and the terminal filter of src/internal/service/service.go:
    [scanLogChunks] under bufio.Scanner, [readLastLines], [writeLogSection],
    [writeLogUpdates] and [terminalSafeWriter].  A byte is an integer; a writer keeps
    the bytes it has accepted, and a write is one call that can fail. *)
From S2P Require Import Prelude GoStrings.

#[local] Open Scope Z_scope.

Abbreviation bytes := (list Z).

Definition bytes_of (s : string) : bytes := map byte_value (String.list_ascii_of_string s).

(** ** The terminal filter *)

Inductive terminalWriterState :=
  | terminalWriterStateText
  | terminalWriterStateEscape
  | terminalWriterStateCSI
  | terminalWriterStateOSC
  | terminalWriterStateOSCEscape
  | terminalWriterStateEscapeString
  | terminalWriterStateEscapeStringEscape.

#[export] Instance terminalWriterState_eq_dec : EqDecision terminalWriterState.
Proof. solve_decision. Defined.

(** [dst] is what the destination has accepted. *)
Record terminalSafeWriter := mkTerminalWriter { dst : bytes; state : terminalWriterState }.

(** A step of the writer itself: no call. *)
Definition local_step {S} (f : S → S) : M S unit := λ fs s, (Ok tt, f s, fs).
Definition local_get {S A} (f : S → A) : M S A := λ fs s, (Ok (f s), s, fs).

Definition set_state (st : terminalWriterState) (w : terminalSafeWriter) := mkTerminalWriter (dst w) st.
Definition accept (p : bytes) (w : terminalSafeWriter) := mkTerminalWriter (dst w ++ p) (state w).

Definition dst_Write (p : bytes) : M terminalSafeWriter unit := env (λ w, (inl tt, accept p w)).

Definition flush (buf : bytes) : M terminalSafeWriter unit :=
  match buf with [] => mret tt | _ => dst_Write buf end.

Definition ESC : Z := 27.

(** The states after a byte outside of text. *)
Definition after_escape (b : Z) : terminalWriterState :=
  if b =? 91 (* [ *) then terminalWriterStateCSI
  else if b =? 93 (* ] *) then terminalWriterStateOSC
  else if bool_decide (b ∈ [80; 88; 94; 95] (* P X ^ _ *)) then terminalWriterStateEscapeString
  else terminalWriterStateText.

Definition in_sequence (st : terminalWriterState) (b : Z) : terminalWriterState :=
  match st with
  | terminalWriterStateText => st
  | terminalWriterStateEscape => after_escape b
  | terminalWriterStateCSI => if (64 <=? b) && (b <=? 126) then terminalWriterStateText else st
  | terminalWriterStateOSC =>
      if b =? 7 then terminalWriterStateText
      else if b =? ESC then terminalWriterStateOSCEscape else st
  | terminalWriterStateOSCEscape =>
      if b =? 92 (* \ *) then terminalWriterStateText
      else if negb (b =? ESC) then terminalWriterStateOSC else st
  | terminalWriterStateEscapeString => if b =? ESC then terminalWriterStateEscapeStringEscape else st
  | terminalWriterStateEscapeStringEscape =>
      if b =? 92 then terminalWriterStateText
      else if negb (b =? ESC) then terminalWriterStateEscapeString else st
  end.

(** A byte of text that is kept. *)
Definition kept_text (b : Z) : bool :=
  if (b <? 32) || (b =? 127) then bool_decide (b ∈ [10; 13; 9]) else true.

(** The loop over the bytes; the result is what is left in the buffer. *)
Fixpoint write_loop (buf p : bytes) : M terminalSafeWriter bytes :=
  match p with
  | [] => mret buf
  | b :: p' =>
      st ← local_get state;
      match st with
      | terminalWriterStateText =>
          if b =? ESC then
            flush buf;;
            local_step (set_state terminalWriterStateEscape);;
            write_loop [] p'
          else if kept_text b then write_loop (buf ++ [b]) p' else write_loop buf p'
      | _ => local_step (set_state (in_sequence st b));; write_loop buf p'
      end
  end.

(** [terminalSafeWriter.Write]. *)
Definition Write (p : bytes) : M terminalSafeWriter Z :=
  buf ← write_loop [] p;
  flush buf;;
  mret (Z.of_nat (length p)).

(** ** Chunks of a log *)

Definition maxLogChunkBytes : Z := 1024 * 1024.

(** [bytes.IndexByte]. *)
Fixpoint IndexByte (data : bytes) (b : Z) : option nat :=
  match data with
  | [] => None
  | x :: data' => if x =? b then Some 0%nat else S <$> IndexByte data' b
  end.

(** The bytes to advance by and the token, if there is one. *)
Definition scanLogChunks (data : bytes) (atEOF : bool) : nat * option bytes :=
  if atEOF && bool_decide (data = []) then (0%nat, None) else
  match IndexByte data 10 with
  | Some i => ((i + 1)%nat, Some (take (i + 1) data))
  | None =>
      if maxLogChunkBytes <=? Z.of_nat (length data)
      then (Z.to_nat maxLogChunkBytes, Some (take (Z.to_nat maxLogChunkBytes) data))
      else if atEOF then (length data, Some data) else (0%nat, None)
  end.

(** A read of the file: what has been appended to it since the last one, how many bytes it
    returns (at least one of what is left, at most what is left of the buffer), and
    whether it fails. *)
Record log_read := mkLogRead { lr_grown : bytes; lr_size : nat; lr_error : option error }.

Definition room (buf : bytes) : nat := (Z.to_nat maxLogChunkBytes - length buf)%nat.

(** With a failure the read may return nothing. *)
Definition read_size (buf : bytes) (r : log_read) : nat :=
  let n := Nat.min (lr_size r) (room buf) in
  match lr_error r with Some _ => n | None => Nat.max 1 n end.

(** The coming read: without more to say of it, it fills the buffer. *)
Definition next_read (buf : bytes) (reads : list log_read) : log_read * list log_read :=
  match reads with
  | r :: reads' => (r, reads')
  | [] => (mkLogRead [] (room buf) None, [])
  end.

(** [bufio.Scanner] on a file of which [rest] is still to be read: what is buffered is
    split before more is read, the end of the file shows on a read of its own, and what
    is buffered when a read fails is still split.  [ended]: the end has been seen, or the
    failure.  The result is what [Scan] gives, and what [Err] says then. *)
Fixpoint scan_log (fuel : nat) (buf rest : bytes) (reads : list log_read) (ended : option (option error))
  : option (list bytes * option error) :=
  match fuel with
  | O => None
  | S fuel =>
      let more := match ended with
                  | Some failure => Some ([], failure)
                  | None =>
                      let '(r, reads') := next_read buf reads in
                      let rest := rest ++ lr_grown r in
                      let n := read_size buf r in
                      match lr_error r, rest with
                      | Some e, _ => scan_log fuel (buf ++ take n rest) (drop n rest) reads' (Some (Some e))
                      | None, [] => scan_log fuel buf [] reads' (Some None)
                      | None, _ => scan_log fuel (buf ++ take n rest) (drop n rest) reads' None
                      end
                  end in
      let atEOF := match ended with Some _ => true | None => false end in
      if bool_decide (buf = []) && negb atEOF then more else
      match scanLogChunks buf atEOF with
      | (advance, Some token) =>
          '(tokens, failure) ← scan_log fuel (drop advance buf) rest reads ended; Some (token :: tokens, failure)
      | (_, None) => more
      end
  end.

(** Enough for the reads of a file and the calls of the splitter. *)
Definition scan_fuel (content : bytes) (reads : list log_read) : nat :=
  (2 * length content + 2 * length (concat (map lr_grown reads)) + length reads + 2)%nat.

(** *** The last lines *)

Definition keep_last (limit : nat) (lines : list bytes) (chunk : bytes) : list bytes :=
  if (length lines =? limit)%nat then drop 1 lines ++ [chunk] else lines ++ [chunk].

Definition defaultLogTailLines : nat := 40.

(** A log when it is opened: there, not there, or not to be opened.  The result: the lines
    and the offset after them, [None] if the file does not exist.  ([None] for the whole:
    the fuel was not enough; [tail_reads_last_lines] shows that it is.) *)
Definition readLastLines (file : result (option bytes)) (reads : list log_read) (limit : nat)
  : option (result (option (list bytes * Z))) :=
  match file with
  | inr e => Some (inr e)
  | inl None => Some (inl None)
  | inl (Some content) =>
      '(chunks, failure) ← scan_log (scan_fuel content reads) [] content reads None;
      Some (match failure with
            | Some e => inr e
            | None => inl (Some (foldl (keep_last limit) [] chunks,
                                 foldl (λ offset chunk, offset + Z.of_nat (length chunk)) 0 chunks))
            end)
  end.

(** ** What a user sees *)

(** [logContentWriter]: only the serial log, which the guest writes, is filtered. *)
Definition content_Write (serial : bool) (p : bytes) : M terminalSafeWriter unit :=
  if serial then Write p;; mret tt else dst_Write p.

(** [writeLogSection]; the result is the offset a follower goes on from. *)
Definition writeLogSection (serial : bool) (label path : string) (file : result (option bytes)) (reads : list log_read)
  : M terminalSafeWriter Z :=
  r ← lift (default (inr ErrIO) (readLastLines file reads defaultLogTailLines));
  content_Write serial (bytes_of (Join [label; "-log: "; path; String (byte 10) ""] ""));;
  match r with
  | None => content_Write serial (bytes_of (Join ["(log file has not been created yet)"; String (byte 10) ""] ""))
  | Some ([], _) => content_Write serial (bytes_of (Join ["(log is empty)"; String (byte 10) ""] ""))
  | Some (lines, _) => for_each (content_Write serial) lines
  end;;
  mret (match r with Some (_, offset) => offset | None => 0 end).

(** [writeLogUpdates]: one poll of a followed file, which is opened, looked at and copied in
    pieces, each of them read first; every one of these calls can fail. *)
Definition writeLogUpdates (serial : bool) (file : option bytes) (cut : bytes → list bytes) (offset : Z)
  : M terminalSafeWriter Z :=
  f ← query (λ _, inl file); (* Open *)
  match f with
  | None => mret 0
  | Some content =>
      query (λ _, inl tt);; (* Stat *)
      let offset := if Z.of_nat (length content) <? offset then 0 else offset in
      query (λ _, inl tt);; (* Seek *)
      let rest := drop (Z.to_nat offset) content in
      for_each (λ p, query (λ _, inl tt);; content_Write serial p) (cut rest);;
      query (λ _, inl tt);; (* the read that finds the end *)
      mret (offset + Z.of_nat (length rest))
  end.

(** [followLogFile]: one poll after the other, as the file is at each. *)
Fixpoint followLogFile (serial : bool) (cut : bytes → list bytes) (files : list (option bytes)) (offset : Z)
  : M terminalSafeWriter Z :=
  match files with
  | [] => mret offset
  | file :: files' =>
      offset ← writeLogUpdates serial file cut offset;
      followLogFile serial cut files' offset
  end.

(** [streamLogOutput]. *)
Definition streamLogOutput (serial : bool) (label path : string) (reads : list log_read) (cut : bytes → list bytes)
    (file : result (option bytes)) (files : list (option bytes)) : M terminalSafeWriter Z :=
  offset ← writeLogSection serial label path file reads;
  followLogFile serial cut files offset.
