(* ===== verification/LogsSpec.v ===== *)
(** * What the log commands show

    The terminal filter removes exactly the escape sequences and the control characters
    other than line breaks and tabs, however its input is cut into writes; the tail of a
    log is its last lines, byte for byte, and following it misses nothing. *)
From S2P Require Import Prelude GoStrings Logs.

#[local] Open Scope Z_scope.

(** ** The filter as a function *)

Definition next (st : terminalWriterState) (b : Z) : terminalWriterState :=
  match st with
  | terminalWriterStateText => if b =? ESC then terminalWriterStateEscape else st
  | _ => in_sequence st b
  end.

Definition shown_byte (st : terminalWriterState) (b : Z) : bytes :=
  match st with
  | terminalWriterStateText => if b =? ESC then [] else if kept_text b then [b] else []
  | _ => []
  end.

Definition state_after (st : terminalWriterState) (p : bytes) : terminalWriterState := foldl next st p.

Fixpoint shown (st : terminalWriterState) (p : bytes) : bytes :=
  match p with
  | [] => []
  | b :: p' => shown_byte st b ++ shown (next st b) p'
  end.

Lemma shown_app st p q : shown st (p ++ q) = shown st p ++ shown (state_after st p) q.
Proof. revert st. induction p as [|b p IH]; intros st; cbn; [done|]. by rewrite IH, app_assoc. Qed.

Lemma state_after_app st p q : state_after st (p ++ q) = state_after (state_after st p) q.
Proof. apply foldl_app. Qed.

(** *** The writer computes it *)

Lemma flush_wp buf w :
  wp (flush buf) (λ o w', (dst w' = dst w ++ buf ∨ (dst w' = dst w ∧ ∀ a, o ≠ Ok a)) ∧ state w' = state w) w.
Proof.
  destruct buf; cbn [flush]; [apply wp_ret; split; [left; by rewrite app_nil_r|done]|].
  apply wp_env; cbn; auto.
Qed.

Lemma wp_local_step {S} (f : S → S) (Q : outcome unit → S → Prop) s : Q (Ok tt) (f s) → wp (local_step f) Q s.
Proof. by intros H fs. Qed.
Lemma wp_local_get {S A} (f : S → A) (Q : outcome A → S → Prop) s : Q (Ok (f s)) s → wp (local_get f) Q s.
Proof. by intros H fs. Qed.

(** What has been sent is a part of what should be; on success the rest is buffered. *)
Definition sent_upto (all : bytes) (w : terminalSafeWriter) (done : bytes → Prop) (w' : terminalSafeWriter) : Prop :=
  ∃ sent rest, all = sent ++ rest ∧ dst w' = dst w ++ sent ∧ done rest.

Lemma write_loop_wp buf p w :
  wp (write_loop buf p) (λ o w', sent_upto (buf ++ shown (state w) p) w (λ rest,
    ∀ b, o = Ok b → b = rest ∧ state w' = state_after (state w) p) w') w.
Proof.
  revert buf w. induction p as [|b p IH]; intros buf w; cbn [write_loop].
  - apply wp_ret. exists [], buf. cbn. rewrite !app_nil_r. split_and!; [done..|]. by intros ? [= <-].
  - apply wp_bind, wp_local_get. destruct (state w) eqn:Hst;
      try (apply wp_bind, wp_local_step; eapply wp_mono; [apply IH|]; exact (λ o w' H, H)).
    cbn [shown shown_byte next state_after foldl]. destruct (b =? ESC).
    + apply wp_bind. eapply wp_mono; [apply flush_wp|]. intros o w1 [Hd _].
      assert (Hfail : ∀ o' : outcome bytes, (∀ a, o' ≠ Ok a) → (dst w1 = dst w ∨ dst w1 = dst w ++ buf) →
        sent_upto (buf ++ [] ++ shown terminalWriterStateEscape p) w (λ rest, ∀ b0, o' = Ok b0 →
          b0 = rest ∧ state w1 = foldl next terminalWriterStateEscape p) w1).
      { intros o' Hno [He|He]; [eexists [], _|eexists buf, _]; (split_and!; [done|by rewrite He, ?app_nil_r|
          by intros ? ->; destruct (Hno _ eq_refl)]). }
      destruct o as [[]|e|]; [|apply Hfail; naive_solver..].
      destruct Hd as [Hd|[_ Hno]]; [|by destruct (Hno tt)].
      apply wp_bind, wp_local_step. eapply wp_mono; [apply IH|]. intros o w2 (sent & rest & H1 & H2 & H3).
      exists (buf ++ sent), rest. cbn in *. rewrite H1, H2, Hd, !app_assoc. by split_and!.
    + destruct (kept_text b); (eapply wp_mono; [apply IH|]); intros o w' (sent & rest & H1 & H2 & H3); rewrite Hst in *;
        exists sent, rest; cbn in *; rewrite <- H1, <- ?app_assoc; by split_and!.
Qed.

Lemma Write_wp p w :
  wp (Write p) (λ o w', sent_upto (shown (state w) p) w (λ rest,
    ∀ n, o = Ok n → n = Z.of_nat (length p) ∧ rest = [] ∧ state w' = state_after (state w) p) w') w.
Proof.
  unfold Write. apply wp_bind. eapply wp_mono; [apply write_loop_wp|].
  intros o w1 (sent & rest & H1 & H2 & H3). destruct o as [buf|e|]; [|by exists sent, rest..].
  destruct (H3 buf eq_refl) as [-> Hst]. apply wp_bind. eapply wp_mono; [apply flush_wp|].
  intros o w2 [Hd Hst2]. cbn in H1.
  assert (Hfail : ∀ o' : outcome Z, (∀ a, o' ≠ Ok a) → sent_upto (shown (state w) p) w (λ rest,
    ∀ n, o' = Ok n → n = Z.of_nat (length p) ∧ rest = [] ∧ state w2 = state_after (state w) p) w2).
  { intros o' Hno. destruct Hd as [Hd|[Hd _]]; [exists (sent ++ rest), []|exists sent, rest];
      (split_and!; [by rewrite ?app_nil_r|by rewrite Hd, H2, ?app_assoc|by intros ? ->; destruct (Hno _ eq_refl)]). }
  destruct o as [[]|e|]; [|by apply Hfail..]. destruct Hd as [Hd|[_ Hno]]; [|by destruct (Hno tt)].
  apply wp_ret. exists (sent ++ rest), []. split_and!; [by rewrite app_nil_r|by rewrite Hd, H2, app_assoc|].
  intros ? [= <-]. split_and!; [done..|congruence].
Qed.

(** Any sequence of writes. *)
Lemma writes_wp chunks w :
  wp (for_each (content_Write true) chunks) (λ o w', sent_upto (shown (state w) (concat chunks)) w (λ rest,
    o = Ok tt → rest = [] ∧ state w' = state_after (state w) (concat chunks)) w') w.
Proof.
  revert w. induction chunks as [|p chunks IH]; intros w; cbn [for_each concat].
  - apply wp_ret. exists [], []. cbn. rewrite app_nil_r. by split_and!.
  - rewrite shown_app. apply wp_bind. unfold content_Write at 1. apply wp_bind.
    eapply wp_mono; [apply Write_wp|]. intros o w1 (sent & rest & H1 & H2 & H3).
    destruct o as [n|e|].
    + destruct (H3 n eq_refl) as (-> & -> & Hst). rewrite app_nil_r in H1. apply wp_ret. cbn beta iota.
      eapply wp_mono; [apply IH|]. intros o w2 (sent2 & rest2 & E1 & E2 & E3).
      exists (sent ++ sent2), rest2. rewrite Hst in *. rewrite H1, E1, E2, H2, !app_assoc.
      split_and!; [done..|]. intros Ho. rewrite state_after_app. by apply E3.
    + exists sent, (rest ++ shown (state_after (state w) p) (concat chunks)). rewrite H1, <- app_assoc. by split_and!.
    + exists sent, (rest ++ shown (state_after (state w) p) (concat chunks)). rewrite H1, <- app_assoc. by split_and!.
Qed.

(** ** Escape sequences *)

(** The pieces of a byte stream, as terminals read it: text, a two-byte escape, a
    control sequence with its final byte, an operating system command ended by BEL or
    ST, and a string (DCS, SOS, PM, APC) ended by ST. *)
Inductive piece :=
  | text (p : bytes)
  | short (b : Z)
  | csi (parameters : bytes) (final : Z)
  | osc (body : bytes) (bel : bool)
  | control_string (intro : Z) (body : bytes).

Definition ST : bytes := [ESC; 92].

Definition render (s : piece) : bytes :=
  match s with
  | text p => p
  | short b => [ESC; b]
  | csi parameters final => ESC :: 91 :: parameters ++ [final]
  | osc body bel => ESC :: 93 :: body ++ (if bel then [7] else ST)
  | control_string intro body => ESC :: intro :: body ++ ST
  end.

Definition no_byte (bs : bytes) (p : bytes) : Prop := Forall (λ b, b ∉ bs) p.

Definition well_formed (s : piece) : Prop :=
  match s with
  | text p => no_byte [ESC] p
  | short b => b ∉ [91; 93; 80; 88; 94; 95]
  | csi parameters final => Forall (λ b, b < 64 ∨ 126 < b) parameters ∧ 64 <= final <= 126
  | osc body _ => no_byte [ESC; 7] body
  | control_string intro body => intro ∈ [80; 88; 94; 95] ∧ no_byte [ESC] body
  end.

(** What a terminal shows of a text, line breaks and tabs included. *)
Definition printable (b : Z) : Prop := b = 9 ∨ b = 10 ∨ b = 13 ∨ (32 <= b ∧ b ≠ 127).
#[export] Instance printable_dec b : Decision (printable b).
Proof. unfold printable. apply _. Defined.

Definition visible (s : piece) : bytes := match s with text p => filter printable p | _ => [] end.

Lemma kept_printable b : kept_text b = true ↔ printable b.
Proof.
  unfold kept_text, printable. destruct (Z.ltb_spec b 32) as [H|H]; cbn [orb].
  - rewrite bool_decide_eq_true, !elem_of_cons, elem_of_nil. lia.
  - destruct (Z.eqb_spec b 127) as [->|Hb].
    + rewrite bool_decide_eq_true, !elem_of_cons, elem_of_nil. lia.
    + split; [lia|done].
Qed.

Lemma shown_printable st p : Forall printable (shown st p).
Proof.
  revert st. induction p as [|b p IH]; intros st; cbn; [constructor|]. apply Forall_app. split; [|apply IH].
  destruct st; cbn; try constructor. destruct (b =? ESC); [constructor|].
  destruct (kept_text b) eqn:Hk; [|constructor]. constructor; [by apply kept_printable|constructor].
Qed.

(** A run of bytes that keeps a state. *)
Lemma stay st (ok : Z → Prop) p :
  st ≠ terminalWriterStateText → (∀ b, ok b → in_sequence st b = st) → Forall ok p →
  shown st p = [] ∧ state_after st p = st.
Proof.
  intros Hst Hok. unfold state_after. induction 1 as [|b p Hb _ [IH1 IH2]]; [done|]. cbn.
  assert (Hn : next st b = st) by (rewrite <- (Hok b Hb) at 2; by destruct st).
  rewrite Hn. split; [|done]. by destruct st.
Qed.

Lemma piece_shown s :
  well_formed s → shown terminalWriterStateText (render s) = visible s ∧
    state_after terminalWriterStateText (render s) = terminalWriterStateText.
Proof.
  destruct s as [p|b|ps f|body bel|intro body]; cbn [well_formed render visible].
  - unfold state_after. induction 1 as [|b p Hb _ [IH1 IH2]]; [done|]. cbn [shown shown_byte next foldl].
    assert (He : (b =? ESC) = false) by (apply Z.eqb_neq; set_solver). rewrite He. split; [|done].
    rewrite IH1. destruct (kept_text b) eqn:Hk.
    + by rewrite filter_cons_True by by apply kept_printable.
    + rewrite filter_cons_False; [done|]. by rewrite <- kept_printable, Hk.
  - intros Hb. cbn. unfold after_escape. rewrite (proj2 (Z.eqb_neq b 91)), (proj2 (Z.eqb_neq b 93)) by set_solver.
    rewrite bool_decide_eq_false_2 by set_solver. done.
  - intros [Hps Hf]. cbn. rewrite shown_app. unfold state_after. rewrite foldl_app.
    destruct (stay terminalWriterStateCSI (λ b, b < 64 ∨ 126 < b) ps) as [E1 E2]; [done| |done|].
    { intros b Hb. cbn. assert (E : (64 <=? b) && (b <=? 126) = false) by lia. by rewrite E. }
    unfold state_after in E2. rewrite E1, E2. cbn. assert (E : (64 <=? f) && (f <=? 126) = true) by lia. by rewrite E.
  - intros Hb. cbn. rewrite shown_app. unfold state_after. rewrite foldl_app.
    destruct (stay terminalWriterStateOSC (λ b, b ∉ [ESC; 7]) body) as [E1 E2]; [done| |done|].
    { intros b Hn. cbn. by rewrite (proj2 (Z.eqb_neq b 7)), (proj2 (Z.eqb_neq b ESC)) by set_solver. }
    unfold state_after in E2. rewrite E1, E2. by destruct bel.
  - intros [Hi Hb]. cbn.
    assert (Ha : after_escape intro = terminalWriterStateEscapeString).
    { rewrite !elem_of_cons in Hi. by destruct Hi as [->|[->|[->|[->|Hi%elem_of_nil]]]]. }
    rewrite Ha, shown_app. unfold state_after. rewrite foldl_app.
    destruct (stay terminalWriterStateEscapeString (λ b, b ∉ [ESC]) body) as [E1 E2]; [done| |done|].
    { intros b Hn. cbn. by rewrite (proj2 (Z.eqb_neq b ESC)) by set_solver. }
    unfold state_after in E2. rewrite E1, E2. done.
Qed.

Lemma pieces_shown l :
  Forall well_formed l →
  shown terminalWriterStateText (concat (map render l)) = concat (map visible l) ∧
  state_after terminalWriterStateText (concat (map render l)) = terminalWriterStateText.
Proof.
  induction 1 as [|s l Hs _ [IH1 IH2]]; [done|]. destruct (piece_shown s Hs) as [E1 E2].
  cbn [map concat]. rewrite shown_app, state_after_app, E1, E2, IH1, IH2. done.
Qed.

(** C39. Whatever the guest writes, however it is cut into writes and whatever fails, only
    printable bytes, line breaks and tabs are passed on.  A stream of well-formed pieces
    comes out as the printable bytes of its text: the sequences of the kinds above are
    removed whole, and nothing else of the text. *)
Theorem filter_removes_sequences chunks w :
  wp (for_each (content_Write true) chunks) (λ o w',
    (∃ sent, dst w' = dst w ++ sent ∧ Forall printable sent) ∧
    ∀ l, Forall well_formed l → concat chunks = concat (map render l) → state w = terminalWriterStateText → o = Ok tt →
      dst w' = dst w ++ concat (map visible l) ∧ state w' = terminalWriterStateText) w.
Proof.
  eapply wp_mono; [apply writes_wp|]. intros o w' (sent & rest & H1 & H2 & H3). split.
  - exists sent. split; [done|]. pose proof (shown_printable (state w) (concat chunks)) as H.
    rewrite H1 in H. by apply Forall_app in H as [H _].
  - intros l Hl Hc Hst Ho. destruct (H3 Ho) as [-> Hs]. destruct (pieces_shown l Hl) as [E1 E2].
    rewrite Hc, Hst in *. rewrite app_nil_r in H1. by rewrite H2, <- H1, E1, Hs, E2.
Qed.

(** ** Chunks *)

(** The length of the first chunk of a log: its first line, at most a mebibyte. *)
Definition first_length (data : bytes) : nat :=
  let window := take (Z.to_nat maxLogChunkBytes) data in
  match IndexByte window 10 with Some i => (i + 1)%nat | None => length window end.

Fixpoint chunks_of (fuel : nat) (data : bytes) : list bytes :=
  match fuel, data with
  | O, _ | _, [] => []
  | S fuel, _ => take (first_length data) data :: chunks_of fuel (drop (first_length data) data)
  end.

(** The chunks of a log, by position alone. *)
Definition log_chunks (data : bytes) : list bytes := chunks_of (length data) data.

Lemma IndexByte_app p q b i : IndexByte p b = Some i → IndexByte (p ++ q) b = Some i.
Proof.
  revert i. induction p as [|x p IH]; intros i; cbn; [done|]. destruct (x =? b); [done|].
  intros (j & Hj & ->)%fmap_Some. by rewrite (IH j Hj).
Qed.
Lemma IndexByte_lt p b i : IndexByte p b = Some i → (i < length p)%nat.
Proof.
  revert i. induction p as [|x p IH]; intros i; cbn; [done|]. destruct (x =? b); [intros [= <-]; lia|].
  intros (j & Hj & ->)%fmap_Some. specialize (IH j Hj). lia.
Qed.

#[local] Abbreviation limit := (Z.to_nat maxLogChunkBytes).
Lemma limit_pos : (0 < limit)%nat.
Proof. unfold maxLogChunkBytes. lia. Qed.
#[local] Opaque maxLogChunkBytes.

Lemma first_length_bounds data : data ≠ [] → (0 < first_length data <= Nat.min limit (length data))%nat.
Proof.
  intros Hne. unfold first_length. pose proof limit_pos. pose proof (length_take data limit) as Hl.
  destruct (IndexByte _ 10) as [i|] eqn:Hi; [apply IndexByte_lt in Hi; lia|].
  rewrite Hl. destruct data; [done|]. cbn. lia.
Qed.

Lemma chunks_of_fuel f g data : (length data <= f)%nat → (length data <= g)%nat → chunks_of f data = chunks_of g data.
Proof.
  revert g data. induction f as [|f IH]; intros g [|b data] Hf Hg; [by destruct g|cbn in Hf; lia|by destruct g|].
  destruct g as [|g]; [cbn in Hg; lia|]. cbn [chunks_of].
  pose proof (first_length_bounds (b :: data) ltac:(done)) as [Hp _].
  f_equal. apply IH; rewrite length_drop; cbn [length] in *; lia.
Qed.

Lemma log_chunks_unfold data :
  data ≠ [] →
  log_chunks data = take (first_length data) data :: log_chunks (drop (first_length data) data).
Proof.
  intros Hne. unfold log_chunks. destruct data as [|b data]; [done|]. cbn [length chunks_of]. f_equal.
  apply chunks_of_fuel; [|lia]. pose proof (first_length_bounds (b :: data) Hne) as [Hp _].
  rewrite length_drop. cbn [length]. lia.
Qed.

(** One call of the splitter on what is buffered. *)
Lemma split_cases buf rest eof :
  buf ≠ [] → (length buf <= limit)%nat → (eof = true → rest = []) →
  scanLogChunks buf eof = (first_length (buf ++ rest), Some (take (first_length (buf ++ rest)) (buf ++ rest))) ∧
    (first_length (buf ++ rest) <= length buf)%nat ∨
  scanLogChunks buf eof = (0%nat, None) ∧ eof = false ∧ (length buf < limit)%nat.
Proof.
  intros Hne Hlen Heof. unfold scanLogChunks. rewrite (bool_decide_eq_false_2 (buf = [])), andb_false_r by done.
  assert (Hw : take limit (buf ++ rest) = buf ++ take (limit - length buf) rest) by (by rewrite take_app, (take_ge buf) by done).
  destruct (IndexByte buf 10) as [i|] eqn:Hi.
  - left. pose proof (IndexByte_lt _ _ _ Hi). unfold first_length. rewrite Hw, (IndexByte_app _ _ _ _ Hi).
    rewrite take_app_le by lia. split; [done|lia].
  - destruct (maxLogChunkBytes <=? Z.of_nat (length buf)) eqn:Hm.
    + left. assert (Hl : length buf = limit) by lia. rewrite <- Hl, Nat.sub_diag, take_0, app_nil_r in Hw.
      unfold first_length. rewrite <- Hl, Hw, Hi. rewrite take_app_length, take_ge by lia. split; [done|lia].
    + destruct eof; [|right; split_and!; [done..|lia]]. left. rewrite (Heof eq_refl), app_nil_r.
      unfold first_length. rewrite (take_ge buf limit) by lia. rewrite Hi, (take_ge buf) by lia. done.
Qed.

(** After the end, or a failure, what is buffered is split. *)
Lemma scan_ended fuel buf rest reads failure :
  (length buf <= limit)%nat → (length buf + 1 <= fuel)%nat →
  scan_log fuel buf rest reads (Some failure) = Some (log_chunks buf, failure).
Proof.
  revert buf. induction fuel as [|fuel IH]; intros buf Hlen Hf; [lia|]. cbn [scan_log]. rewrite andb_false_r.
  destruct (decide (buf = [])) as [->|Hne]; [reflexivity|].
  destruct (split_cases buf [] true Hne Hlen (λ _, eq_refl)) as [[-> Hle]|(_ & [=] & _)]. rewrite app_nil_r in *.
  pose proof (first_length_bounds buf Hne) as [Hp _].
  rewrite IH by (rewrite length_drop; lia). by rewrite (log_chunks_unfold buf) by done.
Qed.

Definition unfailing (r : log_read) : Prop := lr_error r = None.

(** What the file has grown by in [n] reads. *)
Definition grown (reads : list log_read) (n : nat) : bytes := concat (map lr_grown (take n reads)).

Definition scan_measure (buf rest : bytes) (reads : list log_read) : nat :=
  (2 * length rest + 2 * length (concat (map lr_grown reads)) + length buf + length reads + 2)%nat.

Lemma scan_reading fuel buf rest reads :
  (length buf <= limit)%nat → (scan_measure buf rest reads <= fuel)%nat →
  ∃ n, (Forall unfailing (take n reads) ∧
        scan_log fuel buf rest reads None = Some (log_chunks (buf ++ rest ++ grown reads n), None)) ∨
       (∃ earlier r e chunks, take n reads = earlier ++ [r] ∧ Forall unfailing earlier ∧ lr_error r = Some e ∧
          scan_log fuel buf rest reads None = Some (chunks, Some e)).
Proof.
  revert buf rest reads. unfold scan_measure.
  induction fuel as [|fuel IH]; intros buf rest reads Hlen Hf; [lia|].
  cbn [scan_log]. set (more := let '(_, _) := next_read buf reads in _).
  assert (Hmore : (length buf < limit)%nat → ∃ n, (Forall unfailing (take n reads) ∧
        more = Some (log_chunks (buf ++ rest ++ grown reads n), None)) ∨
       (∃ earlier r e chunks, take n reads = earlier ++ [r] ∧ Forall unfailing earlier ∧ lr_error r = Some e ∧
          more = Some (chunks, Some e))).
  { intros Hbuf. unfold more. clear more.
    destruct (next_read buf reads) as [r reads'] eqn:Hnext. set (rest' := rest ++ lr_grown r). cbv zeta.
    assert (Hroom : (length (take (read_size buf r) rest') <= limit - length buf)%nat ∧
      (lr_error r = None → rest' ≠ [] → (1 <= length (take (read_size buf r) rest'))%nat)).
    { rewrite length_take. unfold read_size, room. split; [case_match; lia|]. intros -> Hne. destruct rest'; [done|]. cbn. lia. }
    destruct Hroom as [Hroom Hpos].
    assert (Hm : (2 * length rest' + 2 * length (concat (map lr_grown reads')) + length reads' <=
      2 * length rest + 2 * length (concat (map lr_grown reads)) + length reads)%nat ∧
      ∀ n, ∃ k, grown reads k = lr_grown r ++ grown reads' n ∧
        (Forall unfailing (take n reads') → unfailing r → Forall unfailing (take k reads)) ∧
        (∀ earlier x, take n reads' = earlier ++ [x] → unfailing r → Forall unfailing earlier →
           ∃ earlier', take k reads = earlier' ++ [x] ∧ Forall unfailing earlier')).
    { unfold rest', next_read, grown in *. destruct reads as [|r0 reads0]; injection Hnext as <- <-; cbn [lr_grown].
      - split; [rewrite app_nil_r; cbn; lia|]. intros n. exists 0%nat. rewrite !take_nil. cbn. split_and!; [done|intros; constructor|].
        intros earlier x He. by destruct earlier.
      - split; [rewrite length_app; cbn; rewrite length_app; lia|]. intros n. exists (S n). cbn. split_and!; [done| |].
        + intros. by constructor.
        + intros earlier x He Hr Hes. exists (r0 :: earlier). split; [by rewrite He|by constructor]. }
    destruct Hm as [Hm Hgrow]. pose proof (length_take rest' (read_size buf r)) as Htk.
    pose proof (length_drop rest' (read_size buf r)) as Hdr.
    destruct (lr_error r) as [e|] eqn:He.
    - destruct reads as [|r0 reads0]; cbn in Hnext; injection Hnext as <- <-; [done|].
      exists 1%nat. right. exists [], r0, e. eexists. cbn. split_and!; [by destruct reads0|constructor|done|].
      apply scan_ended; rewrite length_app; [lia|]. subst rest'. cbn in Hf. rewrite !length_app in *. lia.
    - destruct (decide (rest' = [])) as [Hnil|Hne].
      + destruct (Hgrow 0%nat) as (k & Hk & Hu & _). exists k. left. split; [apply Hu; [constructor|done]|].
        assert (Hrest : rest = [] ∧ lr_grown r = []) by by apply app_nil in Hnil.
        destruct Hrest as [-> Hg]. rewrite Hnil, Hk, Hg. cbn [app grown]. unfold grown. cbn. rewrite app_nil_r.
        apply scan_ended; lia.
      + destruct (IH (buf ++ take (read_size buf r) rest') (drop (read_size buf r) rest') reads') as (n & H).
        { rewrite length_app. lia. }
        { rewrite length_app, length_drop. specialize (Hpos eq_refl Hne). lia. }
        destruct (Hgrow n) as (k & Hk & Hu & Hearly). exists k.
        replace (match rest' with [] => _ | _ => _ end) with
          (scan_log fuel (buf ++ take (read_size buf r) rest') (drop (read_size buf r) rest') reads' None)
          by by destruct rest'.
        destruct H as [[H1 H2]|(earlier & x & e & chunks & H1 & H2 & H3 & H4)]; [left|right].
        * split; [by apply Hu|]. rewrite H2. do 3 f_equal. rewrite <- app_assoc, (app_assoc (take _ _)), take_drop.
          unfold rest'. by rewrite Hk, <- app_assoc.
        * destruct (Hearly _ _ H1 He H2) as (earlier' & H5 & H6). by exists earlier', x, e, chunks. }
  rewrite andb_true_r. destruct (decide (buf = [])) as [->|Hne].
  { apply Hmore. apply limit_pos. }
  rewrite bool_decide_eq_false_2 by done.
  destruct (scanLogChunks buf false) as [advance token] eqn:Hscan.
  assert (Htok : ∀ total, (advance, token) = (first_length (buf ++ total), Some (take (first_length (buf ++ total)) (buf ++ total))) ∧
    (first_length (buf ++ total) <= length buf)%nat ∨ (token = None ∧ (length buf < limit)%nat)).
  { intros total. destruct (split_cases buf total false Hne Hlen) as [[H Hle]|(H & _ & Hlt)]; [done| |].
    - left. split; [congruence|done].
    - right. split; [congruence|done]. }
  destruct token as [token|].
  2: { destruct (Htok []) as [[[=] _]|[_ Hlt]]. by apply Hmore. }
  assert (Hfirst : ∀ total, advance = first_length (buf ++ total) ∧ token = take advance (buf ++ total) ∧
    (advance <= length buf)%nat ∧ (0 < advance)%nat).
  { intros total. destruct (Htok total) as [[[= Ea Et] Hle]|[[=] _]]. subst advance. split_and!; [done|done|lia|].
    apply first_length_bounds. by destruct buf. }
  destruct (Hfirst []) as (_ & _ & Hle & Hp).
  destruct (IH (drop advance buf) rest reads) as (n & H); [rewrite length_drop; lia|rewrite length_drop; lia|].
  exists n. destruct H as [[H1 H2]|(earlier & x & e & chunks & H1 & H2 & H3 & H4)]; [left|right].
  - split; [done|]. rewrite H2. cbn. destruct (Hfirst (rest ++ grown reads n)) as (Ea & Et & _).
    rewrite (log_chunks_unfold (buf ++ rest ++ grown reads n)) by by destruct buf. rewrite <- Ea, <- Et. do 3 f_equal.
    by rewrite drop_app_le by lia.
  - exists earlier, x, e, (token :: chunks). split_and!; [done..|]. by rewrite H4.
Qed.

Lemma log_chunks_concat data : concat (log_chunks data) = data.
Proof.
  remember (length data) as n eqn:Hn. revert data Hn. induction n as [n IH] using lt_wf_ind. intros data ->.
  destruct (decide (data = [])) as [->|Hne]; [done|]. rewrite log_chunks_unfold by done. cbn [concat].
  pose proof (first_length_bounds data Hne). rewrite (IH (length (drop (first_length data) data))); [|rewrite length_drop; lia|done].
  apply take_drop.
Qed.

(** ** The last lines *)

Lemma keep_last_fold n chunks acc :
  (0 < n)%nat → (length acc <= n)%nat →
  foldl (keep_last n) acc chunks = drop (length (acc ++ chunks) - n) (acc ++ chunks).
Proof.
  intros Hn. revert acc. induction chunks as [|c chunks IH]; intros acc Hacc; cbn [foldl].
  - rewrite app_nil_r. assert (length acc - n = 0)%nat as -> by lia. done.
  - unfold keep_last at 2. destruct (Nat.eqb_spec (length acc) n) as [He|He].
    + rewrite IH; [|rewrite length_app, length_drop; cbn; lia].
      destruct acc as [|a acc]; [cbn in He; lia|]. cbn [drop]. rewrite drop_0, <- app_assoc. cbn [app].
      replace (length (acc ++ c :: chunks) - n)%nat with (length chunks)
        by (rewrite length_app; cbn in *; lia).
      replace (length (a :: acc ++ c :: chunks) - n)%nat with (S (length chunks)); [done|].
      cbn [length] in *. rewrite length_app. cbn. lia.
    + rewrite IH; [|rewrite length_app; cbn; lia]. by rewrite <- app_assoc.
Qed.

Lemma offset_fold chunks k :
  foldl (λ offset (chunk : bytes), offset + Z.of_nat (length chunk)) k chunks = k + Z.of_nat (length (concat chunks)).
Proof.
  revert k. induction chunks as [|c chunks IH]; intros k; cbn; [lia|]. rewrite IH, length_app. lia.
Qed.

Definition last_chunks (content : bytes) : list bytes :=
  let chunks := log_chunks content in drop (length chunks - defaultLogTailLines) chunks.

Lemma readLastLines_spec content reads :
  ∃ n, let whole := content ++ grown reads n in
    (Forall unfailing (take n reads) ∧
     readLastLines (inl (Some content)) reads defaultLogTailLines =
       Some (inl (Some (last_chunks whole, Z.of_nat (length whole))))) ∨
    (∃ earlier r e, take n reads = earlier ++ [r] ∧ Forall unfailing earlier ∧ lr_error r = Some e ∧
     readLastLines (inl (Some content)) reads defaultLogTailLines = Some (inr e)).
Proof.
  destruct (scan_reading (scan_fuel content reads) [] content reads) as (n & H);
    [cbn; lia|unfold scan_measure, scan_fuel; cbn; lia|].
  exists n. unfold readLastLines. destruct H as [[H1 ->]|(earlier & r & e & chunks & H1 & H2 & H3 & ->)]; [left|right].
  - split; [done|]. cbn [app mbind option_bind].
    rewrite offset_fold, log_chunks_concat, keep_last_fold; [done|unfold defaultLogTailLines; lia|cbn; lia].
  - by exists earlier, r, e.
Qed.

(** C40. Reading the last lines of a log ends, whatever sizes its reads return, whatever is
    appended meanwhile and whichever of them fails.  Until a read fails it gives the last
    forty chunks, by position, of all that the log held when its end was seen, with the
    offset after them; they are its end byte for byte.  The first failing read is the
    answer, as is a failure to open; a missing file is no failure. *)
Theorem tail_reads_last_lines content reads :
  (∃ n, let whole := content ++ grown reads n in
    (Forall unfailing (take n reads) ∧
     readLastLines (inl (Some content)) reads defaultLogTailLines =
       Some (inl (Some (last_chunks whole, Z.of_nat (length whole)))) ∧
     ∃ earlier, whole = earlier ++ concat (last_chunks whole)) ∨
    (∃ earlier r e, take n reads = earlier ++ [r] ∧ Forall unfailing earlier ∧ lr_error r = Some e ∧
     readLastLines (inl (Some content)) reads defaultLogTailLines = Some (inr e))) ∧
  readLastLines (inl None) reads defaultLogTailLines = Some (inl None) ∧
  ∀ e, readLastLines (inr e) reads defaultLogTailLines = Some (inr e).
Proof.
  split; [|done]. destruct (readLastLines_spec content reads) as (n & H). exists n. cbv zeta in *.
  destruct H as [[H1 H2]|H]; [left; split_and!; [done..|]|by right].
  unfold last_chunks. set (whole := content ++ _). set (k := (length _ - _)%nat).
  exists (concat (take k (log_chunks whole))). rewrite <- concat_app, take_drop. by rewrite log_chunks_concat.
Qed.

(** ** Following a log *)

Section follow.
Context (serial : bool).

(** What reaches the destination of some bytes of the log. *)
Definition through (st : terminalWriterState) (p : bytes) : bytes := if serial then shown st p else p.
Definition through_state (st : terminalWriterState) (p : bytes) : terminalWriterState :=
  if serial then state_after st p else st.

Lemma through_app st p q : through st (p ++ q) = through st p ++ through (through_state st p) q.
Proof. unfold through, through_state. destruct serial; [apply shown_app|done]. Qed.
Lemma through_state_app st p q : through_state st (p ++ q) = through_state (through_state st p) q.
Proof. unfold through_state. destruct serial; [apply state_after_app|done]. Qed.

(** [p] has gone through. *)
Definition passed (p : bytes) (w w' : terminalSafeWriter) : Prop :=
  dst w' = dst w ++ through (state w) p ∧ state w' = through_state (state w) p.

Lemma passed_nil w : passed [] w w.
Proof. unfold passed, through, through_state. destruct serial; cbn; by rewrite app_nil_r. Qed.
Lemma passed_app p q w w1 w2 : passed p w w1 → passed q w1 w2 → passed (p ++ q) w w2.
Proof.
  intros [H1 H2] [H3 H4]. unfold passed. rewrite through_app, through_state_app. rewrite H2 in *.
  by rewrite H3, H1, app_assoc.
Qed.

Lemma content_writes_passed chunks w :
  wp (for_each (content_Write serial) chunks) (λ o w', o = Ok tt → passed (concat chunks) w w') w.
Proof.
  unfold passed, through, through_state. destruct serial.
  - eapply wp_mono; [apply writes_wp|]. intros o w' (sent & rest & H1 & H2 & H3) Ho.
    destruct (H3 Ho) as [-> ->]. rewrite app_nil_r in H1. by rewrite H1, H2.
  - revert w. induction chunks as [|p chunks IH]; intros w; cbn [for_each concat].
    + apply wp_ret. by rewrite app_nil_r.
    + apply wp_bind, wp_env; cbn; try done. eapply wp_mono; [apply IH|]. intros o w' H Ho.
      destruct (H Ho) as [-> ->]. cbn. by rewrite app_assoc.
Qed.

Lemma content_Write_passed p w : wp (content_Write serial p) (λ o w', o = Ok tt → passed p w w') w.
Proof.
  pose proof (content_writes_passed [p] w) as H. cbn in H. rewrite app_nil_r in H. intros fs. specialize (H fs).
  unfold mbind, M_bind in H. destruct (content_Write serial p fs w) as [[[[]|e|] w'] fs']; cbn in *; auto.
Qed.

Context (cut : bytes → list bytes) (cut_concat : ∀ p, concat (cut p) = p).

Lemma copy_passed chunks w :
  wp (for_each (λ p, query (λ _, inl tt);; content_Write serial p) chunks)
    (λ o w', o = Ok tt → passed (concat chunks) w w') w.
Proof.
  revert w. induction chunks as [|p chunks IH]; intros w; cbn [for_each concat].
  - apply wp_ret. intros _. apply passed_nil.
  - apply wp_bind, wp_bind, wp_query; [done..|]. cbn [of_result]. eapply wp_mono; [apply content_Write_passed|].
    intros [[]|e|] w1 H1; try done. eapply wp_mono; [apply IH|]. intros o w2 H2 Ho.
    eapply passed_app; [by apply H1|by apply H2].
Qed.

Lemma poll_passed content more w :
  wp (writeLogUpdates serial (Some (content ++ more)) cut (Z.of_nat (length content)))
    (λ o w', ∀ offset, o = Ok offset → offset = Z.of_nat (length (content ++ more)) ∧ passed more w w') w.
Proof.
  unfold writeLogUpdates. apply wp_bind, wp_query; [done..|]. cbn.
  assert (E : Z.of_nat (length (content ++ more)) <? Z.of_nat (length content) = false)
    by (apply Z.ltb_ge; rewrite length_app; lia).
  apply wp_bind, wp_query; [done..|]. cbn. apply wp_bind, wp_query; [done..|]. cbn.
  rewrite E, Nat2Z.id, drop_app_length.
  apply wp_bind. eapply wp_mono; [apply copy_passed|]. rewrite cut_concat.
  intros [[]|e|] w' Hp; try done. apply wp_bind, wp_query; [done..|]. cbn.
  apply wp_ret. intros ? [= <-]. split; [rewrite length_app; lia|by apply Hp].
Qed.

(** The file as it grows. *)
Fixpoint growing (content : bytes) (more : list bytes) : list (option bytes) :=
  match more with
  | [] => []
  | p :: more' => Some (content ++ p) :: growing (content ++ p) more'
  end.

Lemma follow_passed content more w :
  wp (followLogFile serial cut (growing content more) (Z.of_nat (length content)))
    (λ o w', ∀ offset, o = Ok offset → passed (concat more) w w') w.
Proof.
  revert content w. induction more as [|p more IH]; intros content w; cbn [growing followLogFile concat].
  - apply wp_ret. intros _ _. apply passed_nil.
  - apply wp_bind. eapply wp_mono; [apply poll_passed|]. intros [offset|e|] w1 H; try done.
    destruct (H offset eq_refl) as [-> Hp]. eapply wp_mono; [apply IH|]. intros o w2 Ho offset Hok.
    eapply passed_app; [exact Hp|by eapply Ho].
Qed.

Definition section_header (label path : string) : bytes :=
  bytes_of (Join [label; "-log: "; path; String (byte 10) ""] "").

(** The body of a section: the last lines, or the remark that there are none. *)
Definition section_body (content : bytes) : bytes :=
  match last_chunks content with
  | [] => bytes_of (Join ["(log is empty)"; String (byte 10) ""] "")
  | lines => concat lines
  end.

Lemma section_passed label path content reads w :
  wp (writeLogSection serial label path (inl (Some content)) reads) (λ o w', ∀ offset, o = Ok offset → ∃ n,
    let whole := content ++ grown reads n in
    offset = Z.of_nat (length whole) ∧ passed (section_header label path ++ section_body whole) w w') w.
Proof.
  unfold writeLogSection. apply wp_bind, wp_lift.
  destruct (readLastLines_spec content reads) as (n & [[_ ->]|(earlier & r & e & _ & _ & _ & ->)]); cbn [default of_result];
    [|done]. set (whole := content ++ grown reads n).
  apply wp_bind. eapply wp_mono; [apply content_Write_passed|]. intros [[]|e|] w1 H1; try done.
  specialize (H1 eq_refl). apply wp_bind.
  eapply (wp_mono _ (λ o w', o = Ok tt → passed (section_body whole) w1 w')).
  { unfold section_body. destruct (last_chunks whole) as [|l ls];
      [apply content_Write_passed|apply content_writes_passed]. }
  intros [[]|e|] w2 H2; try done. apply wp_ret. intros ? [= <-]. exists n. split; [done|].
  eapply passed_app; [exact H1|by apply H2].
Qed.
End follow.

(** Following a growing log misses nothing and repeats nothing: the header, the last
    lines of what the log held when its end was seen, then every byte that is appended,
    through the filter if the log is the guest's. *)
Theorem follow_misses_nothing serial label path reads cut content more w :
  (∀ p, concat (cut p) = p) → (∀ r, r ∈ reads → lr_grown r = []) →
  wp (streamLogOutput serial label path reads cut (inl (Some content)) (growing content more))
    (λ o w', ∀ offset, o = Ok offset →
      dst w' = dst w ++ through serial (state w)
        (section_header label path ++ section_body content ++ concat more)) w.
Proof.
  intros Hcut Hreads. unfold streamLogOutput. apply wp_bind. eapply wp_mono; [apply section_passed|].
  intros [offset|e|] w1 H1; try done. destruct (H1 offset eq_refl) as (n & -> & Hp).
  assert (Hg : grown reads n = []).
  { unfold grown. apply concat_nil_Forall, Forall_fmap, Forall_forall. intros r Hr. apply Hreads.
    rewrite <- (take_drop n reads). apply elem_of_app. by left. }
  rewrite Hg, app_nil_r in *.
  eapply wp_mono; [by apply follow_passed|]. intros o w2 H2 offset Ho. rewrite app_assoc.
  apply (passed_app serial _ _ w w1 w2); [exact Hp|by eapply H2].
Qed.

(** ** Samples *)

Definition terminal0 : terminalSafeWriter := mkTerminalWriter [] terminalWriterStateText.

Definition sample : list piece :=
  [text (bytes_of "prefix"); csi (bytes_of "43;1") 82; text (bytes_of "suffix" ++ [10; 1; 7]);
   osc (bytes_of "0;title") true; control_string 80 (bytes_of "x"); text (bytes_of "name")].

Lemma filter_removes_sample :
  Forall well_formed sample ∧
  (for_each (content_Write true) [concat (map render sample)] [] terminal0).1 =
    (Ok tt, mkTerminalWriter (bytes_of "prefixsuffix" ++ [10] ++ bytes_of "name") terminalWriterStateText).
Proof.
  split; [|vm_compute; reflexivity].
  unfold sample. repeat (apply Forall_cons; split); try apply Forall_nil_2;
    cbn [well_formed]; unfold no_byte; apply (bool_decide_unpack _); vm_compute; exact I.
Qed.

(** A file that grows while it is read, and a read that fails. *)
Example tail_of_growing_log :
  readLastLines (inl (Some (bytes_of "one"))) [mkLogRead [] 2 None; mkLogRead (bytes_of "!") 9 None] 1 =
    Some (inl (Some ([bytes_of "one!"], 4))) ∧
  readLastLines (inl (Some (bytes_of "one"))) [mkLogRead [] 2 None; mkLogRead [] 1 (Some ErrIO)] 1 = Some (inr ErrIO).
Proof. by split. Qed.

Definition pieces (p : bytes) : list bytes := [p].
Definition reads0 : list log_read := [mkLogRead [] 3 None].
Lemma reads0_still r : r ∈ reads0 → lr_grown r = [].
Proof. by intros ->%list_elem_of_singleton. Qed.

Lemma follow_misses_nothing_witness :
  ∃ w, (streamLogOutput true "serial" "/serial" reads0 pieces (inl (Some (bytes_of "login: ")))
          (growing (bytes_of "login: ") [bytes_of "ro"; bytes_of "ot"]) [] terminal0).1 = (Ok 11, w) ∧
  dst w = bytes_of "serial-log: /serial" ++ [10] ++ bytes_of "login: root".
Proof.
  pose proof (follow_misses_nothing true "serial" "/serial" reads0 pieces (bytes_of "login: ")
    [bytes_of "ro"; bytes_of "ot"] terminal0 (λ p, app_nil_r p) reads0_still []) as H.
  assert (Hok : (streamLogOutput true "serial" "/serial" reads0 pieces (inl (Some (bytes_of "login: ")))
          (growing (bytes_of "login: ") [bytes_of "ro"; bytes_of "ot"]) [] terminal0).1.1 = Ok 11)
    by (vm_compute; reflexivity).
  destruct (streamLogOutput _ _ _ _ _ _ _ _ _) as [[o w] fs]. cbn [fst snd] in *. subst o.
  exists w. split; [done|]. rewrite (H 11 eq_refl). vm_compute. reflexivity.
Defined.

(** The filter knows the seven-bit forms of control sequences only: U+009B, which a
    terminal in UTF-8 mode takes for a control sequence introducer, passes with the
    parameters that follow. *)
Lemma c1_introducer_passes :
  shown terminalWriterStateText [194; 155; 50; 74] = [194; 155; 50; 74].
Proof. reflexivity. Qed.
