(* ===== verification/CommandLineSpec.v ===== *)
(** * What the command line accepts

    A size is read exactly, or refused: no size in 64 bits is read as another.  The
    options of a machine are accepted exactly when each is given at most once with a
    valid value, in any order and in either form, around one name. *)
From S2P Require Import Prelude GoStrings Paths Config Provision CommandLine.

#[local] Open Scope Z_scope.

(** ** Sizes *)

(** A unit: none, bytes, or a power of 1024, in any case. *)
Definition letters : list (string * Z) := [("k", 1); ("m", 2); ("g", 3); ("t", 4)].
Definition suffixes : list string := [""; "b"; "ib"].

Definition unit_size (defaultUnit : Z) (t : string) (m : Z) : Prop :=
  (t = "" ∧ m = defaultUnit) ∨ (t = "b" ∧ m = 1) ∨
  ∃ letter i suffix, (letter, i) ∈ letters ∧ suffix ∈ suffixes ∧
    t = (letter +:+ suffix)%stdpp ∧ m = 1024 ^ i.

(** [s] is a number with a unit, and says [n] bytes. *)
Definition size_text (defaultUnit : Z) (s : string) (n : Z) : Prop :=
  ∃ digits rest number m, s = (digits +:+ rest)%stdpp ∧
    digits ≠ "" ∧ all_chars is_digit digits = true ∧ first_char is_digit rest = false ∧
    decimal 0 digits = Some number ∧ unit_size defaultUnit (ToLower (TrimSpace rest)) m ∧
    0 < number ∧ n = number * m ∧ n <= max_int64.

Lemma size_units_letters u :
  size_units u = [("", u); ("b", 1)] ++
    ('(letter, i) ← letters; suffix ← suffixes; [((letter +:+ suffix)%stdpp, 1024 ^ i)]).
Proof. reflexivity. Qed.

Lemma unit_multiplier_spec u t m : unit_multiplier u t = Some m ↔ unit_size u t m.
Proof.
  unfold unit_size, unit_multiplier. split.
  - intros H. apply fmap_Some in H as ([i [t' m']] & H & ->). cbn.
    apply list_find_Some in H as (Hi & Ht & _). cbn in Ht. subst t'.
    apply list_elem_of_lookup_2 in Hi. rewrite size_units_letters in Hi. apply elem_of_app in Hi as [Hi|Hi].
    + rewrite !elem_of_cons in Hi. destruct Hi as [[= -> ->]|[[= -> ->]|Hi%elem_of_nil]]; tauto.
    + right; right. apply list_elem_of_bind in Hi as ([l k] & Hi & Hl).
      apply list_elem_of_bind in Hi as (s & Hi%list_elem_of_singleton & Hs). injection Hi as -> ->.
      by exists l, k, s.
  - intros [[-> ->]|[[-> ->]|(l & i & s & Hl & Hs & -> & ->)]]; [done..|].
    unfold letters in Hl. unfold suffixes in Hs. rewrite !elem_of_cons in Hl. rewrite !elem_of_cons in Hs.
    repeat (destruct Hl as [Hl|Hl]; [injection Hl as -> ->;
      repeat (destruct Hs as [->|Hs]; [reflexivity|]); by apply elem_of_nil in Hs|]).
    by apply elem_of_nil in Hl.
Qed.

Lemma leading_digits_spec s d rest :
  leading_digits s = (d, rest) ↔
  s = (d +:+ rest)%stdpp ∧ all_chars is_digit d = true ∧ first_char is_digit rest = false.
Proof.
  revert d rest. induction s as [|c s IH]; intros d rest; cbn [leading_digits].
  - split; [intros [= <- <-]; done|]. intros (H & _ & _). by destruct d, rest.
  - destruct (is_digit c) eqn:Hc.
    + destruct (leading_digits s) as [d' rest'] eqn:E. destruct (proj1 (IH d' rest') eq_refl) as (-> & H1 & H2).
      split.
      * intros [= <- <-]. rewrite append_cons. split_and!; [done| |done]. cbn. by rewrite Hc.
      * intros (H & H3 & H4). destruct d as [|c' d]; cbn in *.
        -- destruct rest; [done|]. injection H as -> _. cbn in H4. congruence.
        -- injection H as -> H. apply andb_true_iff in H3 as [_ H3].
           assert (HI : (d', rest') = (d, rest)) by (apply IH; split_and!; done). by injection HI as -> ->.
    + split; [intros [= <- <-]; split_and!; [done..|exact Hc]|].
      intros (H & H3 & _). destruct d as [|c' d]; cbn in *; [by rewrite H|].
      injection H as -> _. by rewrite Hc in H3.
Qed.

Lemma decimal_digits d acc : all_chars is_digit d = true → 0 <= acc → ∃ n, decimal acc d = Some n ∧ acc <= n.
Proof.
  revert acc. induction d as [|c d IH]; intros acc Hd Hacc; [by exists acc|]. cbn in *.
  apply andb_true_iff in Hd as [Hc Hd]. unfold is_digit in Hc. rewrite Hc.
  apply andb_true_iff in Hc as [H1%Z.leb_le H2%Z.leb_le].
  destruct (IH (acc * 10 + (byte_value c - 48)) Hd) as (n & -> & Hn); [lia|]. exists n. split; [done|lia].
Qed.

Lemma ParseInt_digits d n :
  d ≠ "" → all_chars is_digit d = true → decimal 0 d = Some n →
  ParseInt d = if n <? 2 ^ 63 then inl n else inr (Errorf "value out of range").
Proof.
  intros Hne Hd Hn. destruct (decimal_digits d 0 Hd) as (n' & Hn' & Hpos); [lia|].
  assert (n' = n) as -> by congruence. destruct d as [|c d]; [done|].
  unfold ParseInt. apply andb_true_iff in Hd as [Hc _].
  assert (Hsign : ∀ c', byte_value c' < 48 → c ≠ c').
  { intros c' Hlt ->. unfold is_digit in Hc. apply andb_true_iff in Hc as [H%Z.leb_le _]. lia. }
  destruct c as [[] [] [] [] [] [] [] []]; try (exfalso; by apply (Hsign "-"%char));
    try (exfalso; by apply (Hsign "+"%char)); cbv beta iota zeta; rewrite Hn;
    (replace (- 2 ^ 63 <=? n) with true by (symmetry; apply Z.leb_le; lia)); done.
Qed.

Lemma unit_size_pos u t m : 0 < u → unit_size u t m → 0 < m.
Proof.
  intros Hu [[_ ->]|[[_ ->]|(l & i & s & Hl & _ & _ & ->)]]; [done..|].
  unfold letters in Hl. rewrite !elem_of_cons in Hl. destruct Hl as [[= _ ->]|[[= _ ->]|[[= _ ->]|[[= _ ->]|Hl]]]]; try done.
  by apply elem_of_nil in Hl.
Qed.

(** A size is read exactly when it is a positive number with a known unit whose product
    fits in 64 bits, and is then that product; anything else is an error.  Nothing wraps
    around. *)
Theorem parse_size_exact value u n :
  0 < u → parseSize value u = inl n ↔ size_text u (TrimSpace value) n.
Proof.
  intros Hu. unfold parseSize. generalize (TrimSpace value). clear value. intros s.
  destruct (String.eqb_spec s "") as [->|Hs].
  { split; [done|]. intros (d & r & k & m & H & Hd & _). by destruct d. }
  destruct (leading_digits s) as [d rest] eqn:E. apply leading_digits_spec in E as (-> & Hd & Hr).
  assert (Hsame : ∀ d' r', (d +:+ rest)%stdpp = (d' +:+ r')%stdpp → all_chars is_digit d' = true →
    first_char is_digit r' = false → d' = d ∧ r' = rest).
  { intros d' r' H H1 H2. assert (H3 : leading_digits (d +:+ rest)%stdpp = (d', r')) by by apply leading_digits_spec.
    rewrite (proj2 (leading_digits_spec _ d rest)) in H3 by done. by injection H3 as -> ->. }
  destruct (String.eqb_spec d "") as [->|Hne].
  { split; [done|]. intros (d' & r' & k & m & H & Hd' & H1 & H2 & _). by destruct (Hsame _ _ H H1 H2). }
  destruct (decimal_digits d 0 Hd) as (k & Hk & Hk0); [lia|].
  rewrite (ParseInt_digits d k Hne Hd Hk).
  split.
  - destruct (Z.ltb_spec k (2 ^ 63)); [|done]. cbn -[Z.mul Z.quot unit_multiplier ToLower TrimSpace max_int64 int64].
    destruct (Z.leb_spec k 0); [done|]. destruct (unit_multiplier u (ToLower (TrimSpace rest))) as [m|] eqn:Hm; [|done].
    apply unit_multiplier_spec in Hm. pose proof (unit_size_pos u _ m Hu Hm).
    destruct (Z.ltb_spec (max_int64 `quot` m) k) as [|Hle]; [done|]. intros [= <-].
    assert (k * m <= max_int64).
    { pose proof (Z.mul_quot_le max_int64 m). unfold max_int64 in *. nia. }
    rewrite int64_id by (unfold fits, max_int64 in *; nia).
    exists d, rest, k, m. by split_and!.
  - intros (d' & r' & k' & m & H & Hd' & H1 & H2 & H3 & Hm & Hpos & -> & Hmax).
    destruct (Hsame _ _ H H1 H2) as [-> ->]. assert (k' = k) as -> by congruence.
    pose proof (unit_size_pos u _ m Hu Hm) as Hm0. apply unit_multiplier_spec in Hm.
    rewrite (proj2 (Z.ltb_lt k (2 ^ 63))) by (unfold max_int64 in *; nia). cbn -[Z.mul Z.quot unit_multiplier ToLower TrimSpace max_int64 int64].
    rewrite (proj2 (Z.leb_gt k 0)) by lia. rewrite Hm.
    rewrite (proj2 (Z.ltb_ge (max_int64 `quot` m) k)).
    + f_equal. apply int64_id. unfold fits, max_int64 in *. nia.
    + apply Z.quot_le_lower_bound; lia.
Qed.

(** ** The words of a machine's options *)

Inductive word :=
  | Positional (s : string)
  | FixedMemory
  | Option (joined : bool) (key value : string).

Definition render (w : word) : list string :=
  match w with
  | Positional s => [s]
  | FixedMemory => ["--fixed-memory"]
  | Option true key value => [(key +:+ "=" +:+ value)%stdpp]
  | Option false key value => [key; value]
  end.

Definition sized_keys : list string := ["--cpus"; "--ram"; "--pool"; "--rootfs-size"].

Definition well_formed (w : word) : Prop :=
  match w with
  | Positional s => HasPrefix s "--" = false
  | FixedMemory => True
  | Option _ key _ => key ∈ sized_keys
  end.

(** The values given to a key. *)
Definition values (key : string) (ws : list word) : list string :=
  omap (λ w, match w with Option _ k v => if String.eqb k key then Some v else None | _ => None end) ws.
Definition positionals (ws : list word) : list string :=
  omap (λ w, match w with Positional s => Some s | _ => None end) ws.
Definition fixed_flags (ws : list word) : list word :=
  omap (λ w, match w with FixedMemory => Some w | _ => None end) ws.

(** A field: the default when its key is not given, the value of the only one else. *)
Definition reads {A} (key : string) (dflt : A) (means : string → A → Prop) (ws : list word) (a : A) : Prop :=
  match values key ws with
  | [] => a = dflt
  | [v] => means v a
  | _ => False
  end.

Definition means_int (v : string) (n : Z) : Prop := ParseInt v = inl n.
Definition means_size (v : string) (n : Z) : Prop := size_text mib (TrimSpace v) n.
Definition means_mib (v : string) (n : Z) : Prop := ∃ b, means_size v b ∧ n = bytesToMiBCeil b.
Definition means_pool (v : string) (p : string) : Prop := p = TrimSpace v ∧ p ≠ "".
Definition means_fixed (ws : list word) (b : bool) : Prop :=
  match fixed_flags ws with [] => b = false | [_] => b = true | _ => False end.

Definition denotes (ws : list word) (o : CreateOptions) : Prop :=
  reads "--cpus" 0 means_int ws (co_VCPUCount o) ∧ reads "--ram" 0 means_mib ws (co_MemoryMiB o) ∧
  reads "--pool" "" means_pool ws (co_MemoryPoolName o) ∧
  reads "--rootfs-size" 0 means_size ws (co_RootFSSizeBytes o) ∧
  means_fixed ws (co_FixedMemory o) ∧ co_Image o = "" ∧ co_Template o = "" ∧ co_Kind o = "".

(** One name; empty words before it count for nothing. *)
Definition names (ws : list word) (name : string) : Prop :=
  if String.eqb name "" then Forall (λ s, s = "") (positionals ws)
  else ∃ k, positionals ws = replicate k "" ++ [name].

(** *** The parser, a word at a time *)

Section words.
Context (usage : string).

#[local] Abbreviation parser := (parse_args usage (fixed_memory_flag usage) (sized_option usage)).
#[local] Abbreviation st := (string * parsed_options)%type.

Definition apply_word (w : word) (s : st) : result st :=
  match w with
  | Positional arg => if nonempty s.1 then inr (usage_error "unexpected argument" usage) else inl (arg, s.2)
  | FixedMemory =>
      if co_FixedMemory (opts s.2) then inr (usage_error "--fixed-memory specified more than once" usage)
      else inl (s.1, with_opts (set_FixedMemory true) s.2)
  | Option _ key value => p ← sized_option usage key value s.2; inl (s.1, p)
  end.

Fixpoint apply_words (ws : list word) (s : st) : result st :=
  match ws with
  | [] => inl s
  | w :: ws => s ← apply_word w s; apply_words ws s
  end.

Lemma apply_words_snoc ws w s : apply_words (ws ++ [w]) s = (s ← apply_words ws s; apply_word w s).
Proof.
  revert s. induction ws as [|w' ws IH]; intros s; cbn.
  - by destruct (apply_word w s).
  - destruct (apply_word w' s) as [s'|e]; [apply IH|done].
Qed.

Lemma Cut_joined a v : ContainsByte a "=" = false → Cut (a +:+ "=" +:+ v)%stdpp "=" = (a, v, true).
Proof.
  induction a as [|c a IH]; [done|]. cbn [ContainsByte]. intros [H1 H2]%orb_false_iff.
  rewrite append_cons. cbn [Cut]. rewrite H1. by rewrite IH.
Qed.
Lemma Cut_plain a : ContainsByte a "=" = false → Cut a "=" = (a, "", false).
Proof.
  induction a as [|c a IH]; [done|]. cbn [ContainsByte]. intros [H1 H2]%orb_false_iff.
  cbn [Cut]. rewrite H1. by rewrite IH.
Qed.
Lemma Cut_Some s k v : Cut s "=" = (k, v, true) → s = (k +:+ "=" +:+ v)%stdpp.
Proof.
  revert k. induction s as [|c s IH]; intros k; [done|]. cbn [Cut].
  destruct (Ascii.eqb_spec "="%char c) as [<-|]; [by intros [= <- <-]|].
  destruct (Cut s "=") as [[k' v'] f]. intros [= <- <- ->]. rewrite append_cons. f_equal. by apply IH.
Qed.
Lemma Cut_None s k v : Cut s "=" = (k, v, false) → s = k.
Proof.
  revert k. induction s as [|c s IH]; intros k; [by intros [= <- _]|]. cbn [Cut].
  destruct (Ascii.eqb "=" c); [done|].
  destruct (Cut s "=") as [[k' v'] f]. intros [= <- <- ->]. f_equal. by apply IH.
Qed.

Lemma parse_word w rest s :
  well_formed w → parser (render w ++ rest) s.1 s.2 = (s ← apply_word w s; parser rest s.1 s.2).
Proof.
  destruct s as [name p]. destruct w as [arg| |joined key value]; cbn [well_formed render apply_word fst snd].
  - intros H. cbn [parse_args app]. rewrite H. cbn. by destruct (nonempty name).
  - intros _. cbn. by destruct (co_FixedMemory (opts p)).
  - intros Hk. assert (Hc : ContainsByte key "=" = false ∧ HasPrefix key "--" = true ∧
      HasPrefix (key +:+ "=" +:+ value)%stdpp "--" = true ∧ String.eqb key "--fixed-memory" = false).
    { unfold sized_keys in Hk. rewrite !elem_of_cons in Hk.
      destruct Hk as [->|[->|[->|[->|Hk%elem_of_nil]]]]; done. }
    destruct Hc as (Hc & Hp & Hp' & Hf). destruct joined; cbn [parse_args render app].
    + rewrite Hp'. cbn [negb]. rewrite Cut_joined by done. unfold fixed_memory_flag. rewrite Hf. cbn [negb].
      by destruct (sized_option usage key value p).
    + rewrite Hp. cbn [negb]. rewrite Cut_plain by done.
      unfold fixed_memory_flag. rewrite Hf. cbn [negb]. by destruct (sized_option usage key value p).
Qed.

Lemma sized_option_key key value p q : sized_option usage key value p = inl q → key ∈ sized_keys.
Proof.
  unfold sized_option, sized_keys.
  destruct (String.eqb_spec key "--cpus") as [->|]; [set_solver|].
  destruct (String.eqb_spec key "--ram") as [->|]; [set_solver|].
  destruct (String.eqb_spec key "--pool") as [->|]; [set_solver|].
  destruct (String.eqb_spec key "--rootfs-size") as [->|]; [set_solver|]. done.
Qed.

(** What is parsed is a sequence of words. *)
Lemma parse_words args s r :
  parser args s.1 s.2 = inl r ↔
  ∃ ws, args = concat (map render ws) ∧ Forall well_formed ws ∧ apply_words ws s = inl r.
Proof.
  split.
  - remember (length args) as n eqn:Hn. revert args s Hn.
    induction (lt_wf n) as [n _ IH]. intros args [name p] -> H.
    assert (Hnext : args = [] ∨ ∃ w rest, args = render w ++ rest ∧ well_formed w ∧ (length rest < length args)%nat).
    { destruct args as [|arg rest]; [by left|right]. cbn [parse_args fst snd] in H.
      destruct (HasPrefix arg "--") eqn:Hpre; cbn [negb] in H.
      - destruct (Cut arg "=") as [[key value] joined] eqn:E. unfold fixed_memory_flag in H.
        destruct (String.eqb_spec key "--fixed-memory") as [->|]; cbn [negb] in H.
        + destruct joined; [done|]. exists FixedMemory, rest. apply Cut_None in E as ->.
          split_and!; [done..|cbn; lia].
        + destruct joined.
          * destruct (sized_option usage key value p) as [q|] eqn:Eo; [|done].
            exists (Option true key value), rest. apply Cut_Some in E as ->.
            split_and!; [done|by eapply sized_option_key|cbn; lia].
          * destruct rest as [|v rest]; [done|]. destruct (sized_option usage key v p) as [q|] eqn:Eo; [|done].
            exists (Option false key v), rest. apply Cut_None in E as ->.
            split_and!; [done|by eapply sized_option_key|cbn; lia].
      - exists (Positional arg), rest. split_and!; [done..|cbn; lia]. }
    destruct Hnext as [->|(w & rest & -> & Hw & Hlen)].
    { exists []. by split_and!; [|constructor|]. }
    rewrite (parse_word w rest (name, p) Hw) in H. destruct (apply_word w (name, p)) as [s'|] eqn:Ew; [|done].
    destruct (IH _ Hlen rest s' eq_refl H) as (ws & -> & Hws & Hr). exists (w :: ws).
    split_and!; [done|by constructor|]. cbn. by rewrite Ew.
  - intros (ws & -> & Hws & H). revert s H. induction Hws as [|w ws Hw _ IH]; intros s H; [by destruct s; cbn in *|].
    cbn [map concat]. rewrite parse_word by done. cbn in H.
    destruct (apply_word w s) as [s'|] eqn:Ew; [|done]. by apply IH.
Qed.
End words.

(** *** What has been read *)

Definition given (key : string) (ws : list word) : bool := bool_decide (values key ws ≠ []).

Record read_so_far (ws : list word) (s : string * parsed_options) : Prop := {
  rs_names : names ws s.1;
  rs_denotes : denotes ws (opts s.2);
  rs_cpus : seenCPUs s.2 = given "--cpus" ws;
  rs_ram : seenRAM s.2 = given "--ram" ws;
  rs_pool : seenPool s.2 = given "--pool" ws;
  rs_rootfs : seenRootFSSize s.2 = given "--rootfs-size" ws;
  rs_new : integrations s.2 = [] ∧ seenImage s.2 = false;
}.

Lemma values_snoc key ws w : values key (ws ++ [w]) = values key ws ++ values key [w].
Proof. apply omap_app. Qed.

Lemma reads_same {A} key dflt (means : string → A → Prop) ws w a :
  values key [w] = [] → reads key dflt means (ws ++ [w]) a ↔ reads key dflt means ws a.
Proof. intros H. unfold reads. by rewrite values_snoc, H, app_nil_r. Qed.

Lemma reads_new {A} key dflt (means : string → A → Prop) ws w v a :
  values key [w] = [v] → reads key dflt means (ws ++ [w]) a ↔ values key ws = [] ∧ means v a.
Proof.
  intros H. unfold reads. rewrite values_snoc, H. destruct (values key ws) as [|v' [|]]; cbn; (split; [by auto|by intros [??]]).
Qed.

Lemma given_same key ws w : values key [w] = [] → given key (ws ++ [w]) = given key ws.
Proof. intros H. unfold given. by rewrite values_snoc, H, app_nil_r. Qed.
Lemma given_new key ws w v : values key [w] = [v] → given key (ws ++ [w]) = true.
Proof. intros H. apply bool_decide_eq_true. rewrite values_snoc, H. by destruct (values key ws). Qed.
Lemma given_false key ws : given key ws = false ↔ values key ws = [].
Proof. unfold given. rewrite bool_decide_eq_false. destruct (values key ws); (split; intros H; [|congruence]); [done|by destruct H]. Qed.

Lemma names_other ws w name : positionals [w] = [] → names (ws ++ [w]) name ↔ names ws name.
Proof. intros H. unfold names, positionals in *. by rewrite omap_app, H, app_nil_r. Qed.
Lemma names_positional ws arg name :
  names (ws ++ [Positional arg]) name ↔ name = arg ∧ names ws "".
Proof.
  unfold names, positionals. rewrite omap_app. cbn [omap list_omap app String.eqb].
  set (l := omap _ ws). assert (Hrep : Forall (λ s, s = "") l ↔ ∃ k, l = replicate k "").
  { split; [intros H; exists (length l); symmetry; apply replicate_as_Forall_2; [done|]; by eapply Forall_impl|].
    intros [k ->]. by apply Forall_replicate. }
  destruct (String.eqb_spec name "") as [->|Hne].
  - rewrite Forall_app, Forall_singleton. naive_solver.
  - rewrite Hrep. split.
    + intros [k H]. apply app_inj_2 in H as [H1 [= ->]]; [|done]. eauto.
    + intros [-> [k ->]]. by exists k.
Qed.

Lemma fixed_other ws w b : fixed_flags [w] = [] → means_fixed (ws ++ [w]) b ↔ means_fixed ws b.
Proof. intros H. unfold means_fixed, fixed_flags in *. by rewrite omap_app, H, app_nil_r. Qed.
Lemma fixed_flag ws b : means_fixed (ws ++ [FixedMemory]) b ↔ means_fixed ws false ∧ b = true.
Proof.
  unfold means_fixed, fixed_flags. rewrite omap_app. cbn [omap list_omap].
  destruct (omap _ ws) as [|w [|]]; cbn; (split; [by auto|by intros [??]]).
Qed.

Section parsing.
Context (usage : string).

Lemma parse_value_ok {A} key (r : result A) a : parse_value key usage r = inl a ↔ r = inl a.
Proof. by destruct r. Qed.

Lemma parseSize_means v n : parseSize v mib = inl n ↔ means_size v n.
Proof. by apply parse_size_exact. Qed.

(** Each option on its own. *)
Lemma cpus_step v p q :
  sized_option usage "--cpus" v p = inl q ↔
  seenCPUs p = false ∧ ∃ n, means_int v n ∧ q = with_opts (set_VCPUCount n) (see_CPUs p).
Proof.
  change (sized_option usage "--cpus" v p) with (cpus_option usage "--cpus" v p).
  unfold cpus_option, once, means_int. destruct (seenCPUs p); cbn; [naive_solver|].
  destruct (ParseInt v); cbn; naive_solver.
Qed.
Lemma ram_step v p q :
  sized_option usage "--ram" v p = inl q ↔
  seenRAM p = false ∧ ∃ n, means_mib v n ∧ q = with_opts (set_MemoryMiB n) (see_RAM p).
Proof.
  change (sized_option usage "--ram" v p) with (ram_option usage "--ram" v p).
  unfold ram_option, once, means_mib. destruct (seenRAM p); cbn; [naive_solver|].
  setoid_rewrite <- parseSize_means. destruct (parseSize v mib); cbn; naive_solver.
Qed.
Lemma rootfs_step v p q :
  sized_option usage "--rootfs-size" v p = inl q ↔
  seenRootFSSize p = false ∧ ∃ n, means_size v n ∧ q = with_opts (set_RootFSSizeBytes n) (see_RootFSSize p).
Proof.
  change (sized_option usage "--rootfs-size" v p) with (rootfs_option usage "--rootfs-size" v p).
  unfold rootfs_option, once. destruct (seenRootFSSize p); cbn; [naive_solver|].
  setoid_rewrite <- parseSize_means. destruct (parseSize v mib); cbn; naive_solver.
Qed.
Lemma pool_step v p q :
  sized_option usage "--pool" v p = inl q ↔
  seenPool p = false ∧ ∃ n, means_pool v n ∧ q = with_opts (set_MemoryPoolName n) (see_Pool p).
Proof.
  unfold sized_option, once, means_pool. cbn -[TrimSpace]. destruct (seenPool p); cbn -[TrimSpace]; [naive_solver|].
  destruct (String.eqb_spec (TrimSpace v) ""); naive_solver.
Qed.

(** The state before an option: the option is not given, its field has the default. *)
Definition unread (key : string) (p : parsed_options) : parsed_options :=
  if String.eqb key "--cpus"
  then mkParsed (set_VCPUCount 0 (opts p)) (integrations p) false (seenRAM p) (seenPool p) (seenRootFSSize p) (seenImage p)
  else if String.eqb key "--ram"
  then mkParsed (set_MemoryMiB 0 (opts p)) (integrations p) (seenCPUs p) false (seenPool p) (seenRootFSSize p) (seenImage p)
  else if String.eqb key "--pool"
  then mkParsed (set_MemoryPoolName "" (opts p)) (integrations p) (seenCPUs p) (seenRAM p) false (seenRootFSSize p) (seenImage p)
  else mkParsed (set_RootFSSizeBytes 0 (opts p)) (integrations p) (seenCPUs p) (seenRAM p) (seenPool p) false (seenImage p).

(** Reads the parts of a state after one more word [w]; [v] is the value it gives. *)
Ltac snoc v :=
  unfold denotes in *; cbn [fst snd] in *;
  repeat first
    [ rewrite (reads_new _ _ _ _ _ v) by reflexivity | rewrite (given_new _ _ _ v) by reflexivity
    | rewrite reads_same by reflexivity | rewrite given_same by reflexivity
    | rewrite fixed_other by reflexivity | rewrite names_other by reflexivity ].

Lemma read_so_far_iff ws n p :
  read_so_far ws (n, p) ↔
  names ws n ∧ denotes ws (opts p) ∧ (seenCPUs p = given "--cpus" ws ∧ seenRAM p = given "--ram" ws) ∧
  (seenPool p = given "--pool" ws ∧ seenRootFSSize p = given "--rootfs-size" ws) ∧
  (integrations p = [] ∧ seenImage p = false).
Proof. split; [intros []|intros (?&?&[]&[]&?); split]; by auto. Qed.

Lemma reads_default {A} key (dflt : A) means ws : values key ws = [] → reads key dflt means ws dflt.
Proof. unfold reads. by intros ->. Qed.

Lemma option_step ws joined key v n q :
  key ∈ sized_keys →
  read_so_far (ws ++ [Option joined key v]) (n, q) ↔
  ∃ p, read_so_far ws (n, p) ∧ sized_option usage key v p = inl q.
Proof.
  unfold sized_keys. rewrite !elem_of_cons. setoid_rewrite read_so_far_iff.
  intros [->|[->|[->|[->|Hk%elem_of_nil]]]]; [| | | |done];
    first [setoid_rewrite cpus_step|setoid_rewrite ram_step|setoid_rewrite pool_step|setoid_rewrite rootfs_step].
  all: split;
    [ match goal with |- context [Option _ ?key _] => intros H; exists (unread key q); revert H end;
      destruct q as [[] ? ? ? ? ? ?]; snoc v;
      cbn -[names reads means_fixed given TrimSpace]; intros H; decompose [and] H; clear H; subst;
      split_and!; eauto using reads_default; symmetry; by apply given_false
    | intros (p & (H1 & H2 & H3) & H4 & k & H5 & ->); destruct p as [[] ? ? ? ? ? ?];
      snoc v; cbn -[names reads means_fixed given TrimSpace] in *; rewrite <- ?given_false;
      decompose [and] H2; decompose [and] H3; split_and!; congruence || auto ].
Qed.

Lemma positional_step ws arg n q :
  read_so_far (ws ++ [Positional arg]) (n, q) ↔ n = arg ∧ read_so_far ws ("", q).
Proof. rewrite !read_so_far_iff. snoc "". rewrite names_positional. tauto. Qed.

Lemma fixed_step ws n q :
  read_so_far (ws ++ [FixedMemory]) (n, q) ↔
  ∃ p, read_so_far ws (n, p) ∧ co_FixedMemory (opts p) = false ∧ q = with_opts (set_FixedMemory true) p.
Proof.
  setoid_rewrite read_so_far_iff. split.
  - intros H. exists (with_opts (set_FixedMemory false) q). revert H. destruct q as [[] ? ? ? ? ? ?]. snoc "".
    rewrite fixed_flag. cbn -[names reads means_fixed given]. intros H. decompose [and] H. subst. by split_and!.
  - intros (p & H & Hf & ->). destruct p as [[] ? ? ? ? ? ?]. cbn in Hf. subst. snoc "". rewrite fixed_flag.
    cbn -[names reads means_fixed given] in *. tauto.
Qed.

Lemma read_step ws w s' :
  well_formed w → read_so_far (ws ++ [w]) s' ↔ ∃ s, read_so_far ws s ∧ apply_word usage w s = inl s'.
Proof.
  destruct s' as [n q]. destruct w as [arg| |joined key v]; cbn [well_formed apply_word]; intros Hw.
  - rewrite positional_step. split.
    + intros [-> H]. by exists ("", q).
    + intros ([n' p] & H & Hs). cbn in Hs. destruct n' as [|c n']; [|done]. by injection Hs as -> ->.
  - rewrite fixed_step. split.
    + intros (p & H & Hf & ->). exists (n, p). split; [done|]. cbn [snd fst]. by rewrite Hf.
    + intros ([n' p] & H & Hs). cbn [snd fst] in Hs. destruct (co_FixedMemory (opts p)) eqn:Hf; [done|].
      injection Hs as -> <-. eauto.
  - rewrite option_step by done. split.
    + intros (p & H & Hs). exists (n, p). split; [done|]. cbn [snd fst]. by rewrite Hs.
    + intros ([n' p] & H & Hs). cbn [snd fst] in Hs. destruct (sized_option usage key v p) as [p'|] eqn:E; [|done].
      injection Hs as -> ->. eauto.
Qed.

Lemma read_words ws s :
  Forall well_formed ws → apply_words usage ws ("", nothing_parsed) = inl s ↔ read_so_far ws s.
Proof.
  revert s. induction ws as [|w ws IH] using rev_ind; intros s; [intros _|].
  - destruct s as [n p]. cbn [apply_words]. rewrite read_so_far_iff. split.
    + intros [= <- <-]. repeat split; constructor.
    + unfold denotes, reads, means_fixed, names, given. cbn. destruct (String.eqb_spec n "") as [->|Hn].
      * intros H. decompose [and] H. destruct p as [[] ? ? ? ? ? ?]. cbn in *. by subst.
      * intros [[k Hk] _]. by destruct k.
  - rewrite Forall_app, Forall_singleton. intros [Hws Hw].
    rewrite apply_words_snoc, read_step by done. setoid_rewrite <- IH; [|done].
    destruct (apply_words usage ws ("", nothing_parsed)) as [s0|e]; cbn; naive_solver.
Qed.

(** The parser accepts exactly the command lines in which every option of a machine is
    given at most once with a valid value, as [--key value] or [--key=value], in any
    order before and after the one name; the request says what the options say, with the
    default for each that is not given.  Anything else is an error. *)
Theorem sized_arguments_exact cmd args name o :
  parseSizedInstanceArgs (cmd :: args) usage = inl (name, o) ↔
  ∃ ws, args = concat (map render ws) ∧ Forall well_formed ws ∧ name ≠ "" ∧ names ws name ∧ denotes ws o.
Proof.
  transitivity (∃ p, parse_args usage (fixed_memory_flag usage) (sized_option usage) args "" nothing_parsed
    = inl (name, p) ∧ name ≠ "" ∧ o = opts p).
  { destruct args as [|arg args]; cbn [parseSizedInstanceArgs].
    - split; [done|]. by intros (p & [= <- <-] & Hn & _).
    - destruct (parse_args _ _ _ _ _ _) as [[n p]|e]; cbn [mbind result_bind]; [|naive_solver].
      cbn. unfold nonempty. destruct (String.eqb_spec n ""); cbn; naive_solver. }
  setoid_rewrite (parse_words usage args ("", nothing_parsed)). split.
  - intros (p & (ws & -> & Hws & H) & Hn & ->). exists ws. apply read_words in H as []; done.
  - intros (ws & -> & Hws & Hn & Hnames & Hd).
    exists (mkParsed o [] (given "--cpus" ws) (given "--ram" ws) (given "--pool" ws) (given "--rootfs-size" ws) false).
    split_and!; [|done..]. exists ws. split_and!; [done..|]. by apply read_words; [|split].
Qed.
End parsing.

Definition demo_command : list string :=
  ["resize"; "--ram=8G"; "demo"; "--cpus"; "4"; "--rootfs-size"; "20 gib"].

Example demo_resize :
  parseResizeArgs demo_command =
  inl ("demo", mkCreateOptions "" "" "" 4 8192 "" false (20 * 2 ^ 30)).
Proof. reflexivity. Qed.

Lemma parse_size_exact_witness :
  0 < mib ∧ parseSize "20GiB" mib = inl (20 * 2 ^ 30) ∧ size_text mib (TrimSpace "20GiB") (20 * 2 ^ 30).
Proof. split_and!; [done|reflexivity|]. apply parse_size_exact; [done|]. reflexivity. Defined.

(** *** Where a size is lost after it was read *)

(** Rounding up to mebibytes wraps around for the sizes next to the largest: such a
    [--ram] becomes negative, which the rest of the program takes for "not given". *)
Lemma ram_rounded_to_negative :
  parseResizeArgs ["resize"; "demo"; "--cpus"; "2"; "--ram"; "9223372036854775807B"] =
  inl ("demo", mkCreateOptions "" "" "" 2 (1 - 2 ^ 43) "" false 0).
Proof. reflexivity. Qed.

(** A memory far beyond that of any host is read, has a valid shape, and would be
    limited and accounted with a negative number of bytes. *)
Lemma fixed_memory_wraps :
  parseNewArgs ["new"; "demo"; "--ram"; "8388607T"] =
    inl ("demo", mkCreateOptions "" "" "" 0 (8388607 * 2 ^ 20) "" false 0, []) ∧
  ValidateMachineShape 1 (8388607 * 2 ^ 20) = inl tt ∧
  FixedMemoryLimitBytes (8388607 * 2 ^ 20) < 0.
Proof. by split_and!. Qed.

(** An interval of many seconds wraps around to one of a fraction of a second. *)
Lemma interval_wraps ParseDuration :
  parseTopArgs ParseDuration ["top"; "--interval"; "18446744074"] = inl 290448384.
Proof. reflexivity. Qed.
