(* ===== verification/Locks.v ===== *)
(** * The locks of the instances

    Models [acquireInstance] and [lockInstance] of src/internal/service/service.go: a map
    from instance names to reference-counted mutexes, which sessions enter and leave
    concurrently.  What happens under [lockMu] is one step; waiting for the mutex of an
    entry and releasing it are steps of their own, so other sessions interleave there. *)
From S2P Require Import Prelude.
From stdpp Require Import relations.

(** ** The map *)

(** [instanceLockEntry]: the references, and the session that has the mutex. *)
Record instanceLockEntry := mkEntry { refs : nat; mu : option nat }.

(** Where a session is in [acquireInstance] and the function it returns. *)
Inductive position := Waiting | Holding | Unlocked.

#[export] Instance position_eq_dec : EqDecision position.
Proof. solve_decision. Defined.

Record session := mkSession { ss_entry : nat; ss_name : string; ss_at : position }.

(** [heap]: the entries ever made, by address; [sessions]: those inside of a lock. *)
Record App := mkApp {
  locks : gmap string nat;
  heap : gmap nat instanceLockEntry;
  sessions : gmap nat session;
}.

Definition set_refs (n : nat) (en : instanceLockEntry) := mkEntry n (mu en).
Definition set_mu (h : option nat) (en : instanceLockEntry) := mkEntry (refs en) h.

(** An address that is not in use. *)
Definition new_address (a : App) : nat := fresh (dom (heap a) : gset nat).

(** The part of [acquireInstance] under [lockMu]; [false]: the lock is refused. *)
Definition enter (t : nat) (name : string) (wait : bool) (a : App) : App * bool :=
  match locks a !! name with
  | Some e =>
      if wait then
        (mkApp (locks a) (alter (λ en, set_refs (refs en + 1) en) e (heap a))
           (<[t := mkSession e name Waiting]> (sessions a)), true)
      else (a, false)
  | None =>
      let e := new_address a in
      (mkApp (<[name := e]> (locks a)) (<[e := mkEntry 1 None]> (heap a))
         (<[t := mkSession e name Waiting]> (sessions a)), true)
  end.

Definition at_position (p : position) (t : nat) (a : App) : option session :=
  match sessions a !! t with
  | Some s => if bool_decide (ss_at s = p) then Some s else None
  | None => None
  end.

Definition move (p : position) (s : session) : session := mkSession (ss_entry s) (ss_name s) p.

(** [entry.mu.Lock()]: possible when no session has the mutex. *)
Definition lock (t : nat) (a : App) : option App :=
  s ← at_position Waiting t a;
  en ← heap a !! ss_entry s;
  match mu en with
  | Some _ => None
  | None => Some (mkApp (locks a) (<[ss_entry s := set_mu (Some t) en]> (heap a))
                    (<[t := move Holding s]> (sessions a)))
  end.

(** [entry.mu.Unlock()]. *)
Definition unlock (t : nat) (a : App) : option App :=
  s ← at_position Holding t a;
  Some (mkApp (locks a) (alter (set_mu None) (ss_entry s) (heap a))
          (<[t := move Unlocked s]> (sessions a))).

(** The end of the returned function, under [lockMu]. *)
Definition leave (t : nat) (a : App) : option App :=
  s ← at_position Unlocked t a;
  en ← heap a !! ss_entry s;
  let n := (refs en - 1)%nat in
  Some (mkApp (if (n =? 0)%nat then delete (ss_name s) (locks a) else locks a)
          (<[ss_entry s := set_refs n en]> (heap a)) (delete t (sessions a))).

(** Sessions in any order. *)
Inductive lock_step : App → App → Prop :=
  | step_enter t name wait a : sessions a !! t = None → lock_step a (enter t name wait a).1
  | step_lock t a a' : lock t a = Some a' → lock_step a a'
  | step_unlock t a a' : unlock t a = Some a' → lock_step a a'
  | step_leave t a a' : leave t a = Some a' → lock_step a a'.

Definition no_locks : App := mkApp ∅ ∅ ∅.
Definition reachable (a : App) : Prop := rtc lock_step no_locks a.

(** ** The invariant *)

Definition attached (e : nat) (a : App) : gmap nat session :=
  filter (λ p, ss_entry p.2 = e) (sessions a).

Record locks_ok (a : App) : Prop := {
  lo_refs : ∀ e en, heap a !! e = Some en → refs en = size (attached e a);
  lo_mu : ∀ e en t, heap a !! e = Some en →
    mu en = Some t ↔ ∃ s, sessions a !! t = Some s ∧ ss_entry s = e ∧ ss_at s = Holding;
  lo_session : ∀ t s, sessions a !! t = Some s → locks a !! ss_name s = Some (ss_entry s);
  lo_locks : ∀ n e, locks a !! n = Some e →
    is_Some (heap a !! e) ∧ ∃ t s, sessions a !! t = Some s ∧ ss_entry s = e ∧ ss_name s = n;
  lo_name : ∀ t t' s s', sessions a !! t = Some s → sessions a !! t' = Some s' →
    ss_entry s = ss_entry s' → ss_name s = ss_name s';
}.

(** *** The sessions of an entry *)

Lemma attached_insert e t s a l h :
  sessions a !! t = None →
  size (attached e (mkApp l h (<[t := s]> (sessions a)))) =
    (size (attached e a) + if bool_decide (ss_entry s = e) then 1 else 0)%nat.
Proof.
  intros Ht. unfold attached. cbn [sessions]. case_bool_decide as He.
  - rewrite map_filter_insert_True by done. rewrite map_size_insert_None; [lia|].
    apply map_lookup_filter_None_2. by left.
  - rewrite map_filter_insert_False, delete_id by done. lia.
Qed.

Lemma attached_move e t s p a l h :
  sessions a !! t = Some s →
  size (attached e (mkApp l h (<[t := move p s]> (sessions a)))) = size (attached e a).
Proof.
  intros Ht. unfold attached. cbn [sessions]. destruct (decide (ss_entry s = e)) as [He|He].
  - rewrite map_filter_insert_True by done. rewrite map_size_insert_Some; [done|].
    eexists. apply map_lookup_filter_Some_2; [done|]. exact He.
  - rewrite map_filter_insert_False, map_filter_delete by done. rewrite delete_id; [done|].
    apply map_lookup_filter_None_2. right. intros s' Hs'. assert (s' = s) as -> by congruence. done.
Qed.

Lemma attached_delete e t s a l h :
  sessions a !! t = Some s →
  size (attached e (mkApp l h (delete t (sessions a)))) =
    (size (attached e a) - if bool_decide (ss_entry s = e) then 1 else 0)%nat.
Proof.
  intros Ht. unfold attached. cbn [sessions]. rewrite map_filter_delete. case_bool_decide as He.
  - rewrite map_size_delete_Some; [lia|]. eexists. by apply map_lookup_filter_Some_2.
  - rewrite delete_id; [lia|]. apply map_lookup_filter_None_2. right. intros s' Hs'.
    assert (s' = s) as -> by congruence. done.
Qed.

Lemma attached_lookup e a t s : sessions a !! t = Some s → ss_entry s = e → attached e a !! t = Some s.
Proof. intros H1 H2. by apply map_lookup_filter_Some_2. Qed.

Lemma new_address_unused a : heap a !! new_address a = None.
Proof. unfold new_address. apply not_elem_of_dom. exact (is_fresh (dom (heap a))). Qed.

Lemma entry_used a t s : locks_ok a → sessions a !! t = Some s → is_Some (heap a !! ss_entry s).
Proof. intros Ha Ht. apply (lo_locks _ Ha (ss_name s)). by eapply lo_session. Qed.

Lemma not_attached a e : locks_ok a → heap a !! e = None → size (attached e a) = 0%nat.
Proof.
  intros Ha He. apply map_size_empty_iff, map_empty. intros t. apply map_lookup_filter_None_2.
  destruct (sessions a !! t) as [s|] eqn:Ht; [right|by left]. intros s' [= <-] Hs. cbn in Hs.
  destruct (entry_used a t s Ha Ht) as [en Hen]. congruence.
Qed.

(** *** Every step keeps it *)

Ltac look H := apply lookup_insert_Some in H as [[<- <-]|[? H]].

Lemma enter_waits t name a e :
  locks_ok a → sessions a !! t = None → locks a !! name = Some e → locks_ok (enter t name true a).1.
Proof.
  intros Ha Ht Hn. unfold enter. rewrite Hn. cbn [fst].
  destruct (lo_locks _ Ha _ _ Hn) as [_ (t0 & s0 & H0 & He0 & Hn0)].
  assert (Hin : ∀ t' s', sessions a !! t' = Some s' →
    <[t := mkSession e name Waiting]> (sessions a) !! t' = Some s').
  { intros t' s' H. rewrite lookup_insert_ne; [done|]. intros <-. congruence. }
  split; cbn [locks heap sessions].
  - intros e' en H. rewrite attached_insert by done. cbn [ss_entry].
    apply lookup_alter_Some in H as [(<- & en0 & H & ->)|[Hne H]].
    + rewrite bool_decide_true by done. cbn. by rewrite (lo_refs _ Ha _ _ H).
    + rewrite bool_decide_false by done. rewrite Nat.add_0_r. by apply lo_refs.
  - intros e' en t' H.
    assert (∃ en0, heap a !! e' = Some en0 ∧ mu en = mu en0) as (en0 & H1 & ->).
    { apply lookup_alter_Some in H as [(<- & en0 & H & ->)|[Hne H]]; eauto. }
    rewrite (lo_mu _ Ha _ _ _ H1). split; intros (s & Hs & He & Hp); [eauto|].
    look Hs; [done|eauto].
  - intros t' s' H. look H; [done|]. by eapply lo_session.
  - intros n e' H. destruct (lo_locks _ Ha _ _ H) as [[en H1] (t1 & s1 & H2 & H3)]. split; [|eauto].
    rewrite lookup_alter_is_Some. by exists en.
  - intros t1 t2 s1 s2 H1 H2 He. look H1; look H2; [done| | |by eapply (lo_name _ Ha)]; cbn in *; subst.
    + rewrite <- (lo_name _ Ha t0 t2 s0 s2); [done|done|done|congruence].
    + rewrite <- (lo_name _ Ha t0 t1 s0 s1); [done|done|done|congruence].
Qed.

Lemma enter_new t name wait a :
  locks_ok a → sessions a !! t = None → locks a !! name = None → locks_ok (enter t name wait a).1.
Proof.
  intros Ha Ht Hn. unfold enter. rewrite Hn. cbn [fst].
  pose proof (new_address_unused a) as Hnew. set (e := new_address a) in *.
  assert (Hin : ∀ t' s', sessions a !! t' = Some s' →
    <[t := mkSession e name Waiting]> (sessions a) !! t' = Some s' ∧ ss_entry s' ≠ e).
  { intros t' s' H. split; [rewrite lookup_insert_ne; [done|]; intros <-; congruence|].
    intros <-. destruct (entry_used a t' s' Ha H). congruence. }
  split; cbn [locks heap sessions].
  - intros e' en H. rewrite attached_insert by done. cbn [ss_entry]. look H.
    + rewrite bool_decide_true by done. by rewrite not_attached.
    + rewrite bool_decide_false by done. rewrite Nat.add_0_r. by apply lo_refs.
  - intros e' en t' H. look H; cbn [mu].
    + split; [done|]. intros (s & Hs & He & Hp). look Hs; [done|]. by destruct (Hin _ _ Hs).
    + rewrite (lo_mu _ Ha _ _ _ H). split; intros (s & Hs & He & Hp).
      * exists s. split_and!; [by apply Hin|done..].
      * look Hs; [done|eauto].
  - intros t' s' H. look H; [apply lookup_insert_eq|].
    rewrite lookup_insert_ne; [by eapply lo_session|]. intros ->.
    pose proof (lo_session _ Ha _ _ H). congruence.
  - intros n e' H. look H.
    + split; [rewrite lookup_insert_eq; eauto|]. exists t, (mkSession e name Waiting). by rewrite lookup_insert_eq.
    + destruct (lo_locks _ Ha _ _ H) as [[en H1] (t1 & s1 & H2 & H3)]. split; [|exists t1, s1; split; [by apply Hin|done]].
      rewrite lookup_insert_ne; [by exists en|]. intros <-. congruence.
  - intros t1 t2 s1 s2 H1 H2 He. look H1; look H2; [done| | |by eapply (lo_name _ Ha)]; cbn in *; subst.
    + by destruct (Hin _ _ H2).
    + by destruct (Hin _ _ H1).
Qed.

Lemma enter_ok t name wait a : locks_ok a → sessions a !! t = None → locks_ok (enter t name wait a).1.
Proof.
  intros Ha Ht. destruct (locks a !! name) as [e|] eqn:Hn; [|by apply enter_new].
  destruct wait; [by eapply enter_waits|]. unfold enter. by rewrite Hn.
Qed.

(** A session that moves: to the mutex with [h], or away from it. *)
Lemma at_position_Some p t a s : at_position p t a = Some s ↔ sessions a !! t = Some s ∧ ss_at s = p.
Proof.
  unfold at_position. destruct (sessions a !! t) as [s'|]; [|naive_solver].
  case_bool_decide; naive_solver.
Qed.

Lemma move_ok t s p h a en :
  locks_ok a → sessions a !! t = Some s → heap a !! ss_entry s = Some en →
  (∀ t', h = Some t' ↔ ∃ s', <[t := move p s]> (sessions a) !! t' = Some s' ∧
     ss_entry s' = ss_entry s ∧ ss_at s' = Holding) →
  locks_ok (mkApp (locks a) (<[ss_entry s := set_mu h en]> (heap a)) (<[t := move p s]> (sessions a))).
Proof.
  intros Ha Ht Hen Hh.
  assert (Hold : ∀ t' s', <[t := move p s]> (sessions a) !! t' = Some s' →
    ∃ s0, sessions a !! t' = Some s0 ∧ ss_entry s' = ss_entry s0 ∧ ss_name s' = ss_name s0).
  { intros t' s' H. look H; eauto. }
  assert (Hnew : ∀ t' s', sessions a !! t' = Some s' →
    ∃ s0, <[t := move p s]> (sessions a) !! t' = Some s0 ∧ ss_entry s0 = ss_entry s' ∧ ss_name s0 = ss_name s').
  { intros t' s' H. destruct (decide (t' = t)) as [->|].
    - rewrite lookup_insert_eq. assert (s' = s) as -> by congruence. eauto.
    - rewrite lookup_insert_ne by done. eauto. }
  split; cbn [locks heap sessions].
  - intros e en' H. rewrite attached_move by done. look H; [cbn|]; by apply lo_refs.
  - intros e en' t' H. look H; [apply Hh|]. rewrite (lo_mu _ Ha _ _ _ H).
    split; intros (s' & Hs & He & Hp).
    + exists s'. split_and!; [|done..]. rewrite lookup_insert_ne; [done|]. intros <-. congruence.
    + look Hs; [done|eauto].
  - intros t' s' H. destruct (Hold _ _ H) as (s0 & H0 & -> & ->). by eapply lo_session.
  - intros n e H. destruct (lo_locks _ Ha _ _ H) as [[en' H1] (t1 & s1 & H2 & H3 & H4)]. split.
    + destruct (decide (ss_entry s = e)) as [<-|]; [rewrite lookup_insert_eq|rewrite lookup_insert_ne by done]; eauto.
    + destruct (Hnew _ _ H2) as (s0 & H5 & H6 & H7). exists t1, s0. by split_and!; [|congruence..].
  - intros t1 t2 s1 s2 H1 H2. destruct (Hold _ _ H1) as (u1 & H3 & -> & ->).
    destruct (Hold _ _ H2) as (u2 & H4 & -> & ->). by eapply (lo_name _ Ha).
Qed.

Lemma lock_ok t a a' : locks_ok a → lock t a = Some a' → locks_ok a'.
Proof.
  intros Ha. unfold lock. intros (s & [Ht Hp]%at_position_Some & H)%bind_Some.
  apply bind_Some in H as (en & Hen & H). destruct (mu en) eqn:Hmu; [done|]. injection H as <-.
  apply move_ok; [done..|]. intros t'. split.
  - intros [= <-]. exists (move Holding s). by rewrite lookup_insert_eq.
  - intros (s' & Hs & He & Hh). look Hs; [done|]. exfalso.
    assert (mu en = Some t') by (apply (lo_mu _ Ha _ _ _ Hen); eauto). congruence.
Qed.

Lemma unlock_ok t a a' : locks_ok a → unlock t a = Some a' → locks_ok a'.
Proof.
  intros Ha. unfold unlock. intros (s & [Ht Hp]%at_position_Some & [= <-])%bind_Some.
  destruct (entry_used a t s Ha Ht) as [en Hen].
  assert (alter (set_mu None) (ss_entry s) (heap a) = <[ss_entry s := set_mu None en]> (heap a)) as ->.
  { apply map_eq. intros e. destruct (decide (ss_entry s = e)) as [<-|].
    - by rewrite lookup_alter_eq, lookup_insert_eq, Hen.
    - by rewrite lookup_alter_ne, lookup_insert_ne by done. }
  apply move_ok; [done..|]. intros t'. split; [done|]. intros (s' & Hs & He & Hh). exfalso. look Hs; [done|].
  assert (mu en = Some t') by (apply (lo_mu _ Ha _ _ _ Hen); eauto).
  assert (mu en = Some t) by (apply (lo_mu _ Ha _ _ _ Hen); eauto). congruence.
Qed.

Lemma leave_ok t a a' : locks_ok a → leave t a = Some a' → locks_ok a'.
Proof.
  intros Ha. unfold leave. intros (s & [Ht Hp]%at_position_Some & H)%bind_Some.
  apply bind_Some in H as (en & Hen & H). cbv zeta in H. injection H as <-.
  set (a' := mkApp _ _ _). set (n := (refs en - 1)%nat) in *.
  assert (Hn : n = size (attached (ss_entry s) a')).
  { subst n a'. rewrite (attached_delete _ _ _ _ _ _ Ht), bool_decide_true, (lo_refs _ Ha _ _ Hen); done. }
  assert (Hgone : n = 0%nat → ∀ t' s', t' ≠ t → sessions a !! t' = Some s' → ss_entry s' ≠ ss_entry s).
  { intros H0 t' s' Hne H He. rewrite H0 in Hn. symmetry in Hn. apply map_size_empty_iff in Hn.
    assert (attached (ss_entry s) a' !! t' = Some s') as Hat.
    { apply attached_lookup; [|done]. subst a'. cbn. by rewrite lookup_delete_ne. }
    by rewrite Hn in Hat. }
  split; subst a'; cbn [locks heap sessions] in *.
  - intros e en' H. look H; [by cbn|]. rewrite (attached_delete _ _ _ _ _ _ Ht), bool_decide_false by done.
    rewrite Nat.sub_0_r. by apply lo_refs.
  - intros e en' t' H. assert (∃ en0, heap a !! e = Some en0 ∧ mu en' = mu en0) as (en0 & H1 & ->).
    { look H; eauto. }
    rewrite (lo_mu _ Ha _ _ _ H1). split; intros (s' & Hs & He & Hh).
    + exists s'. split_and!; [|done..]. rewrite lookup_delete_ne; [done|]. intros <-. congruence.
    + apply lookup_delete_Some in Hs as [_ Hs]. eauto.
  - intros t' s' [Hne H]%lookup_delete_Some. pose proof (lo_session _ Ha _ _ H) as Hl.
    destruct (n =? 0)%nat eqn:H0; [|done]. apply Nat.eqb_eq in H0.
    rewrite lookup_delete_ne; [done|]. intros Heq. rewrite <- Heq, (lo_session _ Ha _ _ Ht) in Hl.
    injection Hl as Hl. by destruct (Hgone H0 t' s').
  - intros m e H. assert (locks a !! m = Some e ∧ (n = 0%nat → m ≠ ss_name s)) as [Hl Hm].
    { destruct (n =? 0)%nat eqn:H0; [apply lookup_delete_Some in H as [? ?]; auto|].
      apply Nat.eqb_neq in H0. auto. }
    destruct (lo_locks _ Ha _ _ Hl) as [[en' H1] (t1 & s1 & H2 & H3 & H4)]. split.
    + destruct (decide (ss_entry s = e)) as [<-|]; [rewrite lookup_insert_eq|rewrite lookup_insert_ne by done]; eauto.
    + destruct (decide (t1 = t)) as [->|]; [|exists t1, s1; by rewrite lookup_delete_ne].
      assert (s1 = s) as -> by congruence. subst e m.
      destruct (map_choose (attached (ss_entry s) (mkApp (locks a) (heap a) (delete t (sessions a))))) as (t2 & s2 & H5).
      { intros Hem. apply map_size_empty_iff in Hem. by destruct Hm; [rewrite Hn|]. }
      apply map_lookup_filter_Some in H5 as [H5 H6]. cbn in H5, H6. exists t2, s2. split_and!; [done..|].
      apply lookup_delete_Some in H5 as [_ H5]. by eapply (lo_name _ Ha).
  - intros t1 t2 s1 s2 [_ H1]%lookup_delete_Some [_ H2]%lookup_delete_Some. by apply (lo_name _ Ha t1 t2).
Qed.

Lemma lock_step_ok a a' : lock_step a a' → locks_ok a → locks_ok a'.
Proof. destruct 1; eauto using enter_ok, lock_ok, unlock_ok, leave_ok. Qed.

Lemma no_locks_ok : locks_ok no_locks.
Proof. split; intros *; cbn; try rewrite lookup_empty; done. Qed.

Lemma locks_reachable_ok a : reachable a → locks_ok a.
Proof.
  unfold reachable. intros H. assert (H0 := no_locks_ok). induction H; eauto using lock_step_ok.
Qed.

(** ** What the locks promise *)

Definition holds (t : nat) (name : string) (a : App) : Prop :=
  ∃ s, sessions a !! t = Some s ∧ ss_name s = name ∧ ss_at s = Holding.

(** At most one session is inside the lock of an instance, however sessions enter, wait
    and leave. *)
Theorem lock_excludes a t t' name : reachable a → holds t name a → holds t' name a → t = t'.
Proof.
  intros Ha%locks_reachable_ok (s & Hs & Hn & Hp) (s' & Hs' & Hn' & Hp').
  pose proof (lo_session _ Ha _ _ Hs) as H1. pose proof (lo_session _ Ha _ _ Hs') as H2.
  destruct (entry_used a t s Ha Hs) as [en Hen]. assert (ss_entry s' = ss_entry s) as He by congruence.
  assert (mu en = Some t) by (apply (lo_mu _ Ha _ _ _ Hen); eauto).
  assert (mu en = Some t') by (apply (lo_mu _ Ha _ _ _ Hen); eauto). congruence.
Qed.

(** A lock is refused without waiting exactly when another session is in it or waits for
    it, and the map forgets an entry exactly when nobody is: it holds the names of the
    sessions inside, and nothing else. *)
Theorem lock_map_exact a name :
  reachable a →
  (is_Some (locks a !! name) ↔ ∃ t s, sessions a !! t = Some s ∧ ss_name s = name) ∧
  ∀ t, (enter t name false a).2 = false ↔ ∃ t' s, sessions a !! t' = Some s ∧ ss_name s = name.
Proof.
  intros Ha%locks_reachable_ok.
  assert (Hmap : is_Some (locks a !! name) ↔ ∃ t s, sessions a !! t = Some s ∧ ss_name s = name).
  { split.
    - intros [e He]. destruct (lo_locks _ Ha _ _ He) as [_ (t & s & H1 & _ & H2)]. eauto.
    - intros (t & s & H & <-). eexists. by eapply lo_session. }
  split; [done|]. intros t. rewrite <- Hmap. unfold enter. destruct (locks a !! name); cbn.
  - split; eauto.
  - split; [done|]. by intros [? ?].
Qed.

(** Nobody waits in vain: while sessions are inside the lock of a name, one of them can
    go on. *)
Theorem lock_progress a t s :
  reachable a → sessions a !! t = Some s →
  ∃ t' a', (∃ s', sessions a !! t' = Some s' ∧ ss_name s' = ss_name s) ∧
    (lock t' a = Some a' ∨ unlock t' a = Some a' ∨ leave t' a = Some a').
Proof.
  intros Ha%locks_reachable_ok Ht. destruct (entry_used a t s Ha Ht) as [en Hen].
  destruct (ss_at s) eqn:Hp.
  - destruct (mu en) as [t'|] eqn:Hmu.
    + apply (lo_mu _ Ha _ _ _ Hen) in Hmu as (s' & Hs' & He & Hh).
      assert (Hat : at_position Holding t' a = Some s') by by apply at_position_Some.
      exists t'. eexists. split; [exists s'; split; [done|]; by eapply (lo_name _ Ha)|].
      right; left. unfold unlock. rewrite Hat. reflexivity.
    + assert (Hat : at_position Waiting t a = Some s) by by apply at_position_Some.
      exists t. eexists. split; [eauto|]. left. unfold lock. rewrite Hat. cbn. rewrite Hen. cbn. rewrite Hmu. reflexivity.
  - assert (Hat : at_position Holding t a = Some s) by by apply at_position_Some.
    exists t. eexists. split; [eauto|]. right; left. unfold unlock. rewrite Hat. reflexivity.
  - assert (Hat : at_position Unlocked t a = Some s) by by apply at_position_Some.
    exists t. eexists. split; [eauto|]. right; right. unfold leave. rewrite Hat. cbn. rewrite Hen. reflexivity.
Qed.

(** *** A holder and a session that waits *)

Definition waiting_two : App := (enter 1 "web" true (enter 0 "web" true no_locks).1).1.
Definition held : App := default no_locks (lock 0 waiting_two).

Lemma held_reachable : reachable held.
Proof.
  eapply rtc_l; [by apply (step_enter 0 "web" true no_locks)|].
  eapply rtc_l; [by apply (step_enter 1 "web" true (enter 0 "web" true no_locks).1)|].
  eapply rtc_l; [|apply rtc_refl]. apply (step_lock 0). reflexivity.
Qed.

Lemma lock_excludes_witness : holds 0 "web" held ∧ ∀ t, holds t "web" held → t = 0%nat.
Proof.
  assert (H0 : holds 0 "web" held) by (eexists; by split_and!).
  split; [exact H0|]. intros t Ht. exact (lock_excludes held t 0 "web" held_reachable Ht H0).
Defined.

Lemma lock_map_exact_witness : (enter 2 "web" false held).2 = false.
Proof.
  apply (proj2 (lock_map_exact held "web" held_reachable) 2%nat).
  exists 0%nat. eexists. split; [reflexivity|reflexivity].
Defined.

Lemma lock_progress_witness :
  ∃ t' a', (∃ s', sessions held !! t' = Some s' ∧ ss_name s' = "web") ∧
    (lock t' held = Some a' ∨ unlock t' held = Some a' ∨ leave t' held = Some a').
Proof. exact (lock_progress held 1 (mkSession _ "web" Waiting) held_reachable eq_refl). Defined.
