(* ===== verification/Barrier.v ===== *)
(** * The barrier between commands and data snapshots

    Models the command gate of src/internal/service/snapshot.go: [beginCommand],
    [PromoteToSnapshot], [Release] and [waitForSnapshotBarrierToLift], which sessions run
    concurrently.  What happens under [commandMu] up to a [Wait] is one step; a waiter
    goes on only after a [Broadcast]. *)
From S2P Require Import Prelude.
From stdpp Require Import relations.

#[local] Open Scope Z_scope.

Record commandGateLease := mkLease { snapshot : bool; released : bool }.

(** Where a session is: in a [Wait], asleep or woken, or in neither. *)
Inductive position :=
  | Running
  | Promoting (awake : bool)
  | Lifting (awake : bool).

#[export] Instance position_eq_dec : EqDecision position.
Proof. solve_decision. Defined.

(** The context of a session: a cancellation is followed by the call of its [AfterFunc]. *)
Inductive context := Live | Cancelled | Notified.

#[export] Instance context_eq_dec : EqDecision context.
Proof. solve_decision. Defined.

Record command := mkCommand { lease : commandGateLease; at_ : position; ctx : context }.

Record App := mkApp { snapshotOn : bool; inFlight : Z; commands : gmap nat command }.

Definition no_commands : App := mkApp false 0 ∅.

(** ** The operations *)

Definition set_command (t : nat) (c : command) (a : App) : App :=
  mkApp (snapshotOn a) (inFlight a) (<[t := c]> (commands a)).
Definition move (p : position) (c : command) : command := mkCommand (lease c) p (ctx c).
Definition set_lease (l : commandGateLease) (c : command) : command := mkCommand l (at_ c) (ctx c).

Definition wake (p : position) : position :=
  match p with
  | Running => Running
  | Promoting _ => Promoting true
  | Lifting _ => Lifting true
  end.

(** [commandCond.Broadcast()]. *)
Definition broadcast (a : App) : App :=
  mkApp (snapshotOn a) (inFlight a) ((λ c, move (wake (at_ c)) c) <$> commands a).

(** [beginCommand]; [None]: refused. *)
Definition beginCommand (t : nat) (a : App) : option App :=
  if snapshotOn a then None
  else Some (set_command t (mkCommand (mkLease false false) Running Live)
               (mkApp (snapshotOn a) (inFlight a + 1) (commands a))).

(** The loop of [PromoteToSnapshot]: one look at the condition. *)
Definition promote_loop (t : nat) (c : command) (a : App) : App :=
  if 0 <? inFlight a then
    if bool_decide (ctx c = Live) then set_command t (move (Promoting false) c) a
    else broadcast (set_command t (move Running c) (mkApp false (inFlight a + 1) (commands a)))
  else set_command t (mkCommand (mkLease true (released (lease c))) Running (ctx c)) a.

(** [PromoteToSnapshot], up to its first wait; [false]: it returns an error at once. *)
Definition PromoteToSnapshot (t : nat) (c : command) (a : App) : App * bool :=
  if released (lease c) then (a, false)
  else if snapshot (lease c) then (a, true)
  else if snapshotOn a then (a, false)
  else (promote_loop t c (mkApp true (inFlight a - 1) (commands a)), true).

Definition Release (t : nat) (c : command) (a : App) : App :=
  if released (lease c) then a
  else
    let a := set_command t (set_lease (mkLease (snapshot (lease c)) true) c) a in
    if snapshot (lease c) then broadcast (mkApp false (inFlight a) (commands a))
    else
      let a := mkApp (snapshotOn a) (inFlight a - 1) (commands a) in
      if inFlight a =? 0 then broadcast a else a.

(** The loop of [waitForSnapshotBarrierToLift]: one look at the condition. *)
Definition lift_loop (t : nat) (c : command) (a : App) : App :=
  set_command t (move (if snapshotOn a then Lifting false else Running) c) a.

(** Sessions in any order; a session that is not waiting may end. *)
Inductive gate_step : App → App → Prop :=
  | step_begin t a a' : commands a !! t = None → beginCommand t a = Some a' → gate_step a a'
  | step_promote t c a : commands a !! t = Some c → at_ c = Running →
      gate_step a (PromoteToSnapshot t c a).1
  | step_woken t c a : commands a !! t = Some c → at_ c = Promoting true →
      gate_step a (promote_loop t c a)
  | step_release t c a : commands a !! t = Some c → at_ c = Running → gate_step a (Release t c a)
  | step_lift t c a : commands a !! t = Some c → at_ c = Running ∨ at_ c = Lifting true →
      released (lease c) = true → gate_step a (lift_loop t c a)
  | step_cancel t c a : commands a !! t = Some c → ctx c = Live →
      gate_step a (set_command t (mkCommand (lease c) (at_ c) Cancelled) a)
  | step_notify t c a : commands a !! t = Some c → ctx c = Cancelled →
      gate_step a (broadcast (set_command t (mkCommand (lease c) (at_ c) Notified) a))
  | step_end t c a : commands a !! t = Some c → at_ c = Running → released (lease c) = true →
      gate_step a (mkApp (snapshotOn a) (inFlight a) (delete t (commands a))).

Definition reachable (a : App) : Prop := rtc gate_step no_commands a.

(** ** The invariant *)

(** A command whose changes a snapshot must not see half-done. *)
Definition in_flight (c : command) : bool :=
  negb (released (lease c)) && negb (snapshot (lease c)) &&
  match at_ c with Promoting _ => false | _ => true end.

(** The session a snapshot belongs to, from its promotion to its release. *)
Definition owns (c : command) : bool :=
  match at_ c with
  | Promoting _ => true
  | _ => snapshot (lease c) && negb (released (lease c))
  end.

Definition one (c : command) : Z := if in_flight c then 1 else 0.
Definition flying (m : gmap nat command) : Z := map_fold (λ _ c n, one c + n) 0 m.

Record gate_core (a : App) : Prop := {
  go_count : inFlight a = flying (commands a);
  go_on : snapshotOn a = true ↔ ∃ t c, commands a !! t = Some c ∧ owns c = true;
  go_one : ∀ t t' c c', commands a !! t = Some c → commands a !! t' = Some c' →
    owns c = true → owns c' = true → t = t';
  go_alone : ∀ t c, commands a !! t = Some c → owns c = true → snapshot (lease c) = true → inFlight a = 0;
  go_promoting : ∀ t c b, commands a !! t = Some c → at_ c = Promoting b → lease c = mkLease false false;
  go_lifting : ∀ t c b, commands a !! t = Some c → at_ c = Lifting b → released (lease c) = true;
}.

(** Whoever sleeps has something to wait for. *)
Definition sleeper_ok (a : App) (c : command) : Prop :=
  (at_ c = Promoting false → 0 < inFlight a ∧ ctx c ≠ Notified) ∧
  (at_ c = Lifting false → snapshotOn a = true).

Definition gate_ok (a : App) : Prop :=
  gate_core a ∧ ∀ t c, commands a !! t = Some c → sleeper_ok a c.

(** *** Counting *)

Lemma flying_new t c m : m !! t = None → flying (<[t := c]> m) = one c + flying m.
Proof. intros Ht. unfold flying. rewrite map_fold_insert_L; [done|intros; lia|done]. Qed.

Lemma flying_delete t c m : m !! t = Some c → flying (delete t m) = flying m - one c.
Proof.
  intros Ht. assert (flying m = one c + flying (delete t m)) as ->; [|lia].
  rewrite <- (insert_delete_id m t c Ht) at 1. rewrite flying_new; [done|apply lookup_delete_eq].
Qed.

Lemma flying_set t c c' m : m !! t = Some c → flying (<[t := c']> m) = flying m - one c + one c'.
Proof.
  intros Ht. rewrite <- insert_delete_eq, flying_new by apply lookup_delete_eq.
  rewrite (flying_delete t c) by done. lia.
Qed.

Lemma flying_nonneg m : 0 <= flying m.
Proof.
  induction m as [|t c m Ht IH] using map_ind; [done|]. rewrite flying_new by done.
  unfold one. destruct (in_flight c); lia.
Qed.

Lemma flying_pos t c m : m !! t = Some c → in_flight c = true → 0 < flying m.
Proof.
  intros Ht Hc. pose proof (flying_nonneg (delete t m)) as H. rewrite (flying_delete t c) in H by done.
  unfold one in H. rewrite Hc in H. lia.
Qed.

Lemma flying_woken m : flying ((λ c, move (wake (at_ c)) c) <$> m) = flying m.
Proof.
  induction m as [|t c m Ht IH] using map_ind; [by rewrite fmap_empty|].
  rewrite fmap_insert, !flying_new; [|done|by rewrite lookup_fmap, Ht]. rewrite IH. f_equal.
  unfold one, in_flight, move. cbn. by destruct (at_ c).
Qed.

(** *** A broadcast keeps everything and wakes everybody *)

Lemma woken_lookup t c' a :
  commands (broadcast a) !! t = Some c' ↔ ∃ c, commands a !! t = Some c ∧ c' = move (wake (at_ c)) c.
Proof. cbn. rewrite lookup_fmap, fmap_Some. naive_solver. Qed.

Lemma owns_woken c : owns (move (wake (at_ c)) c) = owns c.
Proof. unfold owns, move. cbn. by destruct (at_ c). Qed.

Lemma broadcast_ok a : gate_core a → gate_ok (broadcast a).
Proof.
  intros Ha. split; [split|]; cbn [snapshotOn inFlight broadcast].
  - cbn. by rewrite flying_woken, (go_count _ Ha).
  - rewrite (go_on _ Ha). split; intros (t & c & H & Ho).
    + exists t, (move (wake (at_ c)) c). rewrite woken_lookup, owns_woken. eauto.
    + apply woken_lookup in H as (c0 & H & ->). rewrite owns_woken in Ho. eauto.
  - intros t t' c c' (c0 & H & ->)%woken_lookup (c1 & H1 & ->)%woken_lookup. rewrite !owns_woken.
    by apply (go_one _ Ha).
  - intros t c (c0 & H & ->)%woken_lookup. rewrite owns_woken. cbn. by eapply (go_alone _ Ha).
  - intros t c b (c0 & H & ->)%woken_lookup. cbn. destruct (at_ c0) eqn:E; try done. intros _.
    by eapply (go_promoting _ Ha).
  - intros t c b (c0 & H & ->)%woken_lookup. cbn. destruct (at_ c0) eqn:E; try done. intros _.
    by eapply (go_lifting _ Ha).
  - intros t c (c0 & H & ->)%woken_lookup. unfold sleeper_ok. cbn. by destruct (at_ c0).
Qed.

(** *** One session changes *)

Ltac look H := apply lookup_insert_Some in H as [[<- <-]|[? H]].

(** A change that keeps who owns the snapshot. *)
Lemma change_core on n t c c' a :
  gate_core a → commands a !! t = Some c →
  on = snapshotOn a → owns c' = owns c → n = inFlight a - one c + one c' →
  (owns c' = true → snapshot (lease c') = true → n = 0) →
  (∀ t' c1, t' ≠ t → commands a !! t' = Some c1 → owns c1 = true → snapshot (lease c1) = true → n = 0) →
  (∀ b, at_ c' = Promoting b → lease c' = mkLease false false) →
  (∀ b, at_ c' = Lifting b → released (lease c') = true) →
  gate_core (mkApp on n (<[t := c']> (commands a))).
Proof.
  intros Ha Ht -> Hown -> Halone Hother Hp Hl. split; cbn [commands snapshotOn inFlight].
  - by rewrite (flying_set t c), (go_count _ Ha).
  - rewrite (go_on _ Ha). split; intros (t1 & c1 & H & Ho).
    + destruct (decide (t1 = t)) as [->|].
      * exists t, c'. rewrite lookup_insert_eq. split; [done|]. congruence.
      * exists t1, c1. by rewrite lookup_insert_ne.
    + look H; [exists t, c; split; [done|congruence]|eauto].
  - intros t1 t2 c1 c2 H1 H2 O1 O2. look H1; look H2; [done| | |by eapply (go_one _ Ha)].
    + eapply (go_one _ Ha t t2); [done..|congruence|done].
    + eapply (go_one _ Ha t1 t); [done..|congruence].
  - intros t1 c1 H. look H; [done|]. by eapply Hother.
  - intros t1 c1 b H. look H; [by apply Hp|]. by eapply (go_promoting _ Ha).
  - intros t1 c1 b H. look H; [by apply Hl|]. by eapply (go_lifting _ Ha).
Qed.

Lemma drop_owner n t c c' a :
  gate_core a → commands a !! t = Some c → owns c = true → owns c' = false →
  n = inFlight a - one c + one c' → (∀ b, at_ c' ≠ Promoting b) → (∀ b, at_ c' ≠ Lifting b) →
  gate_core (mkApp false n (<[t := c']> (commands a))).
Proof.
  intros Ha Ht Hc Hc' -> Hp Hl.
  assert (Hno : ∀ t1 c1, <[t := c']> (commands a) !! t1 = Some c1 → owns c1 = true → False).
  { intros t1 c1 H Ho. look H; [congruence|]. by apply H0, (go_one _ Ha t t1 c c1). }
  split; cbn [commands snapshotOn inFlight].
  - by rewrite (flying_set t c), (go_count _ Ha).
  - split; [done|]. intros (t1 & c1 & H & Ho). by destruct (Hno t1 c1).
  - intros t1 t2 c1 c2 H1 _ O1. by destruct (Hno t1 c1).
  - intros t1 c1 H1 O1. by destruct (Hno t1 c1).
  - intros t1 c1 b H. look H; [by intros ?%Hp|]. by eapply (go_promoting _ Ha).
  - intros t1 c1 b H. look H; [by intros ?%Hl|]. by eapply (go_lifting _ Ha).
Qed.

Lemma nobody_owns a t c : gate_core a → snapshotOn a = false → commands a !! t = Some c → owns c = false.
Proof.
  intros Ha Hoff Ht. apply not_true_is_false. intros Ho.
  assert (snapshotOn a = true) by (apply (go_on _ Ha); eauto). congruence.
Qed.

Lemma take_owner n t c c' a :
  gate_core a → commands a !! t = Some c → snapshotOn a = false → at_ c' = Promoting true →
  lease c' = mkLease false false → n = inFlight a - one c + one c' →
  gate_core (mkApp true n (<[t := c']> (commands a))).
Proof.
  intros Ha Ht Hoff Hp Hl ->. pose proof (nobody_owns a) as Hno.
  assert (Ho : owns c' = true) by (unfold owns; by rewrite Hp).
  split; cbn [commands snapshotOn inFlight].
  - by rewrite (flying_set t c), (go_count _ Ha).
  - split; [|done]. intros _. exists t, c'. by rewrite lookup_insert_eq.
  - intros t1 t2 c1 c2 H1 H2 O1 O2. look H1; look H2; [done| | |];
      first [by rewrite (Hno t1 c1) in O1|by rewrite (Hno t2 c2) in O2].
  - intros t1 c1 H. look H; [by rewrite Hl|]. intros O1. by rewrite (Hno t1 c1) in O1.
  - intros t1 c1 b H. look H; [done|]. by eapply (go_promoting _ Ha).
  - intros t1 c1 b H. look H; [congruence|]. by eapply (go_lifting _ Ha).
Qed.

Lemma sleepers_set t c' on n a :
  gate_ok a → on = snapshotOn a → n = inFlight a → sleeper_ok (mkApp on n (<[t := c']> (commands a))) c' →
  ∀ t1 c1, <[t := c']> (commands a) !! t1 = Some c1 → sleeper_ok (mkApp on n (<[t := c']> (commands a))) c1.
Proof. intros [_ Hs] -> -> Hc t1 c1 H. look H; [done|]. by apply (Hs t1). Qed.

(** *** Every step keeps it *)

Lemma begin_ok t a a' : gate_ok a → commands a !! t = None → beginCommand t a = Some a' → gate_ok a'.
Proof.
  intros [Ha Hs] Ht. unfold beginCommand. destruct (snapshotOn a) eqn:Hoff; [done|]. intros [= <-].
  unfold set_command. cbn [commands snapshotOn inFlight]. pose proof (nobody_owns a) as Hno.
  split; [split|]; cbn [commands snapshotOn inFlight].
  - rewrite flying_new, (go_count _ Ha) by done. unfold one. cbn. lia.
  - split; [done|]. intros (t1 & c1 & H & Ho). look H; [done|]. by rewrite (Hno t1 c1) in Ho.
  - intros t1 t2 c1 c2 H _ O1. look H; [done|]. by rewrite (Hno t1 c1) in O1.
  - intros t1 c1 H O1. look H; [done|]. by rewrite (Hno t1 c1) in O1.
  - intros t1 c1 b H. look H; [done|]. by eapply (go_promoting _ Ha).
  - intros t1 c1 b H. look H; [done|]. by eapply (go_lifting _ Ha).
  - intros t1 c1 H. look H; [done|]. destruct (Hs t1 c1 H) as [H1 H2]. split; cbn.
    + intros Hp. destruct (H1 Hp). split; [lia|done].
    + intros Hl. apply H2 in Hl. congruence.
Qed.

Lemma promote_loop_ok t c a :
  gate_ok a → commands a !! t = Some c → at_ c = Promoting true → gate_ok (promote_loop t c a).
Proof.
  intros Ha Ht Hp. pose proof (go_promoting _ (proj1 Ha) _ _ _ Ht Hp) as Hl.
  assert (Ho : owns c = true) by (unfold owns; by rewrite Hp).
  assert (H1 : one c = 0) by (unfold one, in_flight; by rewrite Hl, Hp).
  unfold promote_loop. destruct (Z.ltb_spec 0 (inFlight a)) as [Hpos|Hpos].
  - case_bool_decide as Hc.
    + split.
      * apply (change_core _ _ t c _ a); try done; [apply Ha|..].
        -- unfold one at 2, in_flight. cbn. rewrite Hl. cbn. lia.
        -- cbn. by rewrite Hl.
        -- intros t' c1 Hne H O1. destruct Hne. by eapply (go_one _ (proj1 Ha)).
      * apply sleepers_set; try done. split; [|done]. cbn. by rewrite Hc.
    + apply broadcast_ok. apply (drop_owner _ t c _ a); try done; [apply Ha|unfold owns; cbn; by rewrite Hl|].
      unfold one at 2, in_flight, move. cbn. rewrite Hl. cbn. lia.
  - assert (Hz : inFlight a = 0) by (pose proof (flying_nonneg (commands a)); rewrite (go_count _ (proj1 Ha)) in *; lia).
    split.
    + apply (change_core _ _ t c _ a); try done; [apply Ha|unfold owns at 1; cbn; rewrite Hl; done|].
      unfold one at 2, in_flight. cbn. rewrite Hl. cbn. lia.
    + apply sleepers_set; try done.
Qed.

Lemma promote_ok t c a :
  gate_ok a → commands a !! t = Some c → at_ c = Running → gate_ok (PromoteToSnapshot t c a).1.
Proof.
  intros Ha Ht Hr. unfold PromoteToSnapshot.
  destruct (released (lease c)) eqn:Hrel; [done|]. destruct (snapshot (lease c)) eqn:Hsn; [done|].
  destruct (snapshotOn a) eqn:Hoff; [done|]. cbn [fst].
  assert (Hl : lease c = mkLease false false) by (destruct (lease c); cbn in *; congruence).
  set (c1 := move (Promoting true) c).
  set (a1 := mkApp true (inFlight a - 1) (<[t := c1]> (commands a))).
  replace (promote_loop t c _) with (promote_loop t c1 a1).
  2:{ unfold promote_loop, set_command, broadcast, a1, c1, move. cbn. by rewrite !insert_insert_eq. }
  apply promote_loop_ok; [|apply lookup_insert_eq|done]. split.
  - apply (take_owner _ t c _ a); try done; [apply Ha|]. unfold one, in_flight, c1, move. cbn. rewrite Hl, Hr. cbn. lia.
  - intros t' c' H. cbn in H. look H; [done|]. destruct Ha as [Ha Hs]. split; [|done]. intros Hp. exfalso.
    assert (Ho : owns c' = true) by (unfold owns; by rewrite Hp). by rewrite (nobody_owns a t' c') in Ho.
Qed.

Lemma release_ok t c a : gate_ok a → commands a !! t = Some c → at_ c = Running → gate_ok (Release t c a).
Proof.
  intros Ha Ht Hr. unfold Release. destruct (released (lease c)) eqn:Hrel; [done|].
  destruct (snapshot (lease c)) eqn:Hsn; cbn [set_command snapshotOn inFlight commands].
  - apply broadcast_ok. apply (drop_owner _ t c _ a); try done; [apply Ha|..].
    + unfold owns. by rewrite Hr, Hsn, Hrel.
    + unfold owns. cbn. by rewrite Hr.
    + unfold one, in_flight. cbn. rewrite Hsn, Hrel, Hr. cbn. lia.
    + cbn. by rewrite Hr.
    + cbn. by rewrite Hr.
  - assert (Hf : in_flight c = true) by (unfold in_flight; by rewrite Hrel, Hsn, Hr).
    set (c' := set_lease _ c).
    assert (Hcore : gate_core (mkApp (snapshotOn a) (inFlight a - 1) (<[t := c']> (commands a)))).
    { apply (change_core _ _ t c _ a); try done; [apply Ha|..].
      - unfold owns. cbn. by rewrite Hr, Hsn.
      - unfold one. rewrite Hf. unfold in_flight. cbn. lia.
      - intros t' c1 _ H O1 S1. pose proof (go_alone _ (proj1 Ha) _ _ H O1 S1) as Hz.
        rewrite (go_count _ (proj1 Ha)) in Hz. pose proof (flying_pos t c _ Ht Hf). lia.
      - cbn. by rewrite Hr. }
    destruct (Z.eqb_spec (inFlight a - 1) 0) as [Hz|Hz]; cbn [inFlight]; rewrite ?Hz.
    + apply broadcast_ok. by rewrite Hz in Hcore.
    + split; [done|]. intros t' c1 H. cbn in H. destruct Ha as [Ha Hs]. look H.
      * split; cbn; by rewrite Hr.
      * destruct (Hs t' c1 H) as [H1 H2]. split; cbn; [|done]. intros Hp. split; [|by apply H1].
        rewrite (go_count _ Ha) in *. pose proof (flying_pos t c _ Ht Hf). lia.
Qed.

Lemma lift_ok t c a :
  gate_ok a → commands a !! t = Some c → at_ c = Running ∨ at_ c = Lifting true →
  released (lease c) = true → gate_ok (lift_loop t c a).
Proof.
  intros Ha Ht Hr Hrel. unfold lift_loop. set (c' := move _ c).
  assert (H0 : owns c = false ∧ one c = 0) by (unfold owns, one, in_flight; rewrite Hrel; destruct Hr as [-> | ->]; cbn; by rewrite andb_false_r).
  assert (H1 : owns c' = false ∧ one c' = 0).
  { unfold owns, one, in_flight, c'. cbn. rewrite Hrel. destruct (snapshotOn a); cbn; by rewrite andb_false_r. }
  destruct H0 as [H2 H3], H1 as [H4 H5]. split.
  - apply (change_core _ _ t c _ a); try done; [apply Ha|by rewrite H2, H4|lia|by rewrite H4| |].
    + intros t' c1 _ H O1 S1. by eapply (go_alone _ (proj1 Ha)).
    + intros b. unfold c'. cbn. by destruct (snapshotOn a).
  - apply sleepers_set; try done. unfold c'. split; cbn; by destruct (snapshotOn a).
Qed.

(** A change of the context alone. *)
Lemma context_core t c x a :
  gate_core a → commands a !! t = Some c → gate_core (set_command t (mkCommand (lease c) (at_ c) x) a).
Proof.
  intros Ha Ht. apply (change_core _ _ t c _ a); try done.
  - unfold one, in_flight. cbn. lia.
  - intros Ho Hs. cbn in Ho, Hs. by eapply (go_alone _ Ha).
  - intros t' c1 _ H O1 S1. by eapply (go_alone _ Ha).
  - intros b Hb. exact (go_promoting _ Ha t c b Ht Hb).
  - intros b Hb. exact (go_lifting _ Ha t c b Ht Hb).
Qed.

Lemma end_ok t c a :
  gate_ok a → commands a !! t = Some c → at_ c = Running → released (lease c) = true →
  gate_ok (mkApp (snapshotOn a) (inFlight a) (delete t (commands a))).
Proof.
  intros [Ha Hs] Ht Hr Hrel.
  assert (Ho : owns c = false) by (unfold owns; by rewrite Hr, Hrel, andb_false_r).
  split; [split|]; cbn [commands snapshotOn inFlight].
  - rewrite (flying_delete t c), (go_count _ Ha) by done. unfold one, in_flight. rewrite Hrel. cbn. lia.
  - rewrite (go_on _ Ha). split; intros (t1 & c1 & H & O1).
    + exists t1, c1. rewrite lookup_delete_ne; [done|]. intros <-. congruence.
    + apply lookup_delete_Some in H as [_ H]. eauto.
  - intros t1 t2 c1 c2 [_ H1]%lookup_delete_Some [_ H2]%lookup_delete_Some. by eapply (go_one _ Ha).
  - intros t1 c1 [_ H1]%lookup_delete_Some. by eapply (go_alone _ Ha).
  - intros t1 c1 b [_ H1]%lookup_delete_Some. by eapply (go_promoting _ Ha).
  - intros t1 c1 b [_ H1]%lookup_delete_Some. by eapply (go_lifting _ Ha).
  - intros t1 c1 [_ H1]%lookup_delete_Some. by apply (Hs t1).
Qed.

Lemma gate_step_ok a a' : gate_step a a' → gate_ok a → gate_ok a'.
Proof.
  destruct 1 as [| | | | |t c a Ht Hc|t c a Ht Hc|];
    eauto using begin_ok, promote_ok, promote_loop_ok, release_ok, lift_ok, end_ok.
  - intros Ha. split; [by apply context_core; [apply Ha|]|]. apply sleepers_set; try done.
    destruct (proj2 Ha t c Ht) as [H1 H2]. split; cbn; [|done]. intros Hp. split; [by apply H1|done].
  - intros Ha. apply broadcast_ok, context_core; [apply Ha|done].
Qed.

Lemma no_commands_ok : gate_ok no_commands.
Proof.
  split; [split|]; cbn; try (intros *; rewrite lookup_empty; done); try done.
  split; [done|]. intros (t & c & H & _). by rewrite lookup_empty in H.
Qed.

Lemma gate_reachable_ok a : reachable a → gate_ok a.
Proof.
  unfold reachable. intros H. assert (H0 := no_commands_ok). induction H; eauto using gate_step_ok.
Qed.

(** ** What the barrier promises *)

(** A session that holds its lease, as a command or for a snapshot. *)
Definition holds_lease (t : nat) (a : App) : Prop :=
  ∃ c, commands a !! t = Some c ∧ released (lease c) = false.
Definition takes_snapshot (t : nat) (a : App) : Prop :=
  ∃ c, commands a !! t = Some c ∧ snapshot (lease c) = true ∧ released (lease c) = false.

(** C37. While a snapshot is taken no other session holds a lease and none can begin: the
    snapshot sees no command half-done, however sessions come, wait, are cancelled and
    go. *)
Theorem snapshot_alone a t t' :
  reachable a → takes_snapshot t a → beginCommand t' a = None ∧ (holds_lease t' a → t' = t).
Proof.
  intros [Ha _]%gate_reachable_ok (c & Ht & Hs & Hr).
  assert (Ho : owns c = true).
  { unfold owns. destruct (at_ c) eqn:Hp; [by rewrite Hs, Hr|done|by rewrite Hs, Hr]. }
  split.
  - unfold beginCommand. by rewrite (proj2 (go_on _ Ha)) by eauto.
  - intros (c' & Ht' & Hr'). destruct (decide (t' = t)) as [|Hne]; [done|].
    assert (Hf : in_flight c' = true).
    { unfold in_flight. rewrite Hr'. destruct (snapshot (lease c')) eqn:Hs'; cbn.
      - destruct Hne. apply (go_one _ Ha _ _ c' c Ht' Ht); [|done]. unfold owns. rewrite Hs', Hr'. by destruct (at_ c').
      - destruct (at_ c') eqn:Hp; [done| |done]. destruct Hne. apply (go_one _ Ha _ _ c' c Ht' Ht); [|done].
        unfold owns. by rewrite Hp. }
    pose proof (flying_pos t' c' _ Ht' Hf). pose proof (go_alone _ Ha t c Ht Ho Hs) as Hz.
    rewrite (go_count _ Ha) in Hz. lia.
Qed.

(** C38. No wake-up is lost: a session sleeps before its snapshot only while some command is
    in flight and its own context lives on, or is about to wake it; and a session sleeps
    behind the barrier only while a snapshot is on, which a session that is there will
    end. *)
Theorem no_lost_wakeup a t c :
  reachable a → commands a !! t = Some c →
  (at_ c = Promoting false → ctx c ≠ Notified ∧
     ∃ t' c', commands a !! t' = Some c' ∧ in_flight c' = true) ∧
  (at_ c = Lifting false → ∃ t' c', commands a !! t' = Some c' ∧ owns c' = true).
Proof.
  intros [Ha Hs]%gate_reachable_ok Ht. destruct (Hs t c Ht) as [H1 H2]. split.
  - intros Hp. destruct (H1 Hp) as [Hpos Hc]. split; [done|]. rewrite (go_count _ Ha) in Hpos. clear -Hpos.
    induction (commands a) as [|t0 c0 m Hnone IH] using map_ind; [done|].
    rewrite flying_new in Hpos by done. unfold one in Hpos. destruct (in_flight c0) eqn:Hf.
    + exists t0, c0. by rewrite lookup_insert_eq.
    + destruct IH as (t' & c' & H & Hf'); [lia|]. exists t', c'.
      rewrite lookup_insert_ne; [done|]. intros <-. congruence.
  - intros Hl. by apply (go_on _ Ha), H2.
Qed.

(** *** A snapshot that waited for a command *)

Definition begin (t : nat) (a : App) : App := default a (beginCommand t a).
Definition the (t : nat) (a : App) : command := default (mkCommand (mkLease false true) Running Live) (commands a !! t).
Definition two : App := begin 1 (begin 0 no_commands).
Definition asking : App := (PromoteToSnapshot 0 (the 0 two) two).1.
Definition left_alone : App := Release 1 (the 1 asking) asking.
Definition taking : App := promote_loop 0 (the 0 left_alone) left_alone.

Lemma asking_reachable : reachable asking.
Proof.
  eapply rtc_l; [by apply (step_begin 0)|]. eapply rtc_l; [by apply (step_begin 1)|].
  eapply rtc_l; [|apply rtc_refl]. apply (step_promote 0 (the 0 two) two); reflexivity.
Qed.
Lemma taking_reachable : reachable taking.
Proof.
  eapply rtc_r; [eapply rtc_r; [apply asking_reachable|]|].
  - apply (step_release 1 (the 1 asking) asking); reflexivity.
  - apply (step_woken 0 (the 0 left_alone) left_alone); reflexivity.
Qed.

Lemma snapshot_alone_witness : takes_snapshot 0 taking ∧ beginCommand 2 taking = None.
Proof.
  assert (H : takes_snapshot 0 taking) by (eexists; by split_and!).
  split; [exact H|]. exact (proj1 (snapshot_alone taking 0 2 taking_reachable H)).
Defined.

Lemma no_lost_wakeup_witness : ∃ t' c', commands asking !! t' = Some c' ∧ in_flight c' = true.
Proof. exact (proj2 (proj1 (no_lost_wakeup asking 0 _ asking_reachable eq_refl) eq_refl)). Defined.
