(* ===== verification/Access.v ===== *)
(** * Who may run what

    Models the gate of src/internal/service every SSH session passes: forward.go
    ([resolveCommandActor]), service.go ([authorize], [isAdmin], [canAccessInstance],
    [lookupVisibleInstance], the routing of [handleSession] and [dispatch]) and
    replacement.go ([authorizeReplacement]).  The state is the control plane's. *)
From S2P Require Import Prelude GoStrings Timestamps Model Sql StoreDB StoreInstances.
From S2P Require Import Identity Config CommandLine Provision.

#[local] Open Scope Z_scope.

(** ** Commands and their handlers *)

Inductive handler :=
  | cmdCleanupReceipt | cmdOperationResult | cmdProjectTemplate | cmdPlacement | cmdMigration
  | cmdNew | cmdOrbList | cmdIntegration | cmdResize | cmdUpgrade | cmdFSCK | cmdBackup | cmdDisk
  | cmdList | cmdInspect | cmdStatus | cmdPool | cmdRestore | cmdStart | cmdStop | cmdRestart
  | cmdDelete | helpResult | handleMigrationDisk | handleOrbBootstrapSession | handleLogsSession
  | handleTopSession | handleExportSession | handleImportSession | cmdSnapshot
  | usageError (e : error).

#[export] Instance handler_eq_dec : EqDecision handler.
Proof. solve_decision. Defined.

(** [dispatch]: the handler of a command. *)
Definition dispatch (args : list string) : handler :=
  let command := hd "" args in
  if String.eqb command "cleanup-receipt" then cmdCleanupReceipt
  else if String.eqb command "operation-result" || String.eqb command "operation-cancel" then cmdOperationResult
  else if String.eqb command "project-template" then cmdProjectTemplate
  else if String.eqb command "placement" || String.eqb command "import-placement" then cmdPlacement
  else if String.eqb command "migration" then cmdMigration
  else if String.eqb command "new" then cmdNew
  else if String.eqb command "orb" then
    match args with
    | [_; "list"] => cmdOrbList
    | _ :: "new" :: _ => cmdNew
    | _ => usageError (Errorf "usage: orb new NAME [options] | orb list | orb bootstrap NAME")
    end
  else if String.eqb command "integration" then cmdIntegration
  else if String.eqb command "resize" then cmdResize
  else if String.eqb command "upgrade" then cmdUpgrade
  else if String.eqb command "fsck" then cmdFSCK
  else if String.eqb command "backup" then cmdBackup
  else if String.eqb command "disk" then cmdDisk
  else if String.eqb command "list" then
    match args with
    | [_] => cmdList
    | [_; "--all"] => cmdList
    | _ => usageError (Errorf "usage: list [--all]")
    end
  else if String.eqb command "inspect" then cmdInspect
  else if String.eqb command "status" then cmdStatus
  else if String.eqb command "pool" then cmdPool
  else if String.eqb command "restore" then cmdRestore
  else if String.eqb command "start" then cmdStart
  else if String.eqb command "stop" then cmdStop
  else if String.eqb command "restart" then cmdRestart
  else if String.eqb command "delete" then cmdDelete
  else if String.eqb command "help" then helpResult
  else usageError (Errorf "unknown command").

(** The commands [handleSession] serves itself, before [dispatch]. *)
Definition session_handler (req : commandRequest) : handler :=
  let command := hd "" (cr_args req) in
  if String.eqb command "migration-disk" then handleMigrationDisk
  else if bool_decide (take 2 (cr_args req) = ["orb"; "bootstrap"]) then
    if bool_decide (cr_format req = outputFormatJSON)
    then usageError (Errorf "orb bootstrap does not support --json") else handleOrbBootstrapSession
  else if String.eqb command "logs" then
    match parseLogsArgs (cr_args req) with
    | inl _ => handleLogsSession
    | inr e => usageError e
    end
  else if String.eqb command "top" then handleTopSession
  else if String.eqb command "export" then handleExportSession
  else if String.eqb command "import" then handleImportSession
  else if String.eqb command "snapshot" then cmdSnapshot
  else dispatch (cr_args req).

(** What the session exits with: an error is never a success, but for two handlers that
    choose their own code. *)
Definition exit_code (h : handler) (code : Z) (err : string) : Z :=
  match h with
  | handleMigrationDisk | handleOrbBootstrapSession => code
  | _ => if (code =? 0) && nonempty err then 1 else code
  end.

(** A session: the peer's address and user name, and the words of its command. *)
Record Session := mkSession { sn_remote : string; sn_user : string; sn_command : list string }.

Section access.
(** The tables of package unicode; the tailnet daemon; the decoders of encoding/base64
    and encoding/json. *)
Context (EqualFold : string → string → bool) (LowerCase : string → string).
Context (WhoIs : string → result (option WhoIsResponse)).
Context (RawURLDecode : string → option string) (json_Actor : string → option Actor).
Context (json_strings : list string → string).
Context (cfg : Config).

(** ** The actor *)

Definition forwarded_actor (word : string) : option Actor :=
  data ← RawURLDecode word;
  actor ← json_Actor data;
  if String.eqb (TrimSpace (UserLogin actor)) "" then None else Some actor.

(** [args[2] == "forward" || (args[2] == "--json" && (len(args) < 4 || args[3] == "forward"))]. *)
Definition nested_forward (words : list string) : bool :=
  match words with
  | w :: rest =>
      String.eqb w "forward" ||
      (String.eqb w "--json" && match rest with [] => true | w' :: _ => String.eqb w' "forward" end)
  | [] => false
  end.

(** The actor, the command, and the front end it came through. *)
Definition resolveCommandActor (sess : Session) : result (Actor * list string * string) :=
  let args := sn_command sess in
  who ← WhoIs (sn_remote sess);
  match who with
  | Some (mkWhoIs (Some node) profile) =>
      if String.eqb (hd "" args) "forward" then
        let nodeID := nd_StableID node in
        if String.eqb nodeID "" || negb (bool_decide (nodeID ∈ TrustedFrontends cfg))
        then inr (Errorf "identity forwarding requires a trusted frontend node") else
        match drop 1 args with
        | word :: cmd :: rest =>
            let words := cmd :: rest in
            if 8192 <? Z.of_nat (String.length word) then inr (Errorf "invalid forwarded command") else
            match forwarded_actor word with
            | None => inr (Errorf "invalid forwarded actor")
            | Some actor =>
                if IsService LowerCase (UserLogin actor) &&
                   negb (AllowsForwarded (ProviderNodes cfg) (UserLogin actor))
                then inr (Errorf "forwarded service owner is not configured on this backend")
                else if nested_forward words
                then inr (Errorf "nested identity forwarding is not allowed")
                else inl (mkActor (UserLogin actor) (DisplayName actor) (NodeName actor) (sn_remote sess) (sn_user sess),
                          words, nodeID)
            end
        | _ => inr (Errorf "invalid forwarded command")
        end
      else
        actor ← Resolve LowerCase (ProviderNodes cfg) who (sn_remote sess) (sn_user sess);
        inl (actor, args, "")
  | _ => inr (Errorf "tailscale whois response was incomplete")
  end.

(** ** Authorization *)

Definition isAdmin (actor : Actor) : bool :=
  existsb (λ user, EqualFold user (UserLogin actor)) (AdminUsers cfg).

Definition admin_command (command : string) : bool :=
  String.eqb command "snapshot" || String.eqb command "status" || String.eqb command "integration" ||
  String.eqb command "pool".

Definition listed (actor : Actor) : bool :=
  existsb (λ user, EqualFold user (UserLogin actor)) (AllowedUsers cfg).

Definition authorize (actor : Actor) (command : string) : bool * string :=
  let login := UserLogin actor in
  if admin_command command then
    if negb (isAdmin actor) then (false, (login +:+ " is not in SRV_ADMIN_USERS")%stdpp)
    else if bool_decide (AllowedUsers cfg = [])
    then (true, (login +:+ " allowed to run " +:+ command +:+ " as admin")%stdpp)
    else if listed actor then (true, (login +:+ " allowed to run " +:+ command +:+ " as admin")%stdpp)
    else (false, (login +:+ " is not in SRV_ALLOWED_USERS")%stdpp)
  else if bool_decide (AllowedUsers cfg = []) then (true, "allowed because SRV_ALLOWED_USERS is empty")
  else if listed actor then (true, (login +:+ " allowed to run " +:+ command)%stdpp)
  else (false, (login +:+ " is not in SRV_ALLOWED_USERS")%stdpp).

(** ** Instances *)

Definition canAccessInstance (actor : Actor) (inst : Instance) : bool :=
  if isAdmin actor then true else EqualFold (CreatedByUser inst) (UserLogin actor).

Definition visibleInstances (actor : Actor) (instances : list Instance) : list Instance :=
  if isAdmin actor then instances else filter (λ inst, canAccessInstance actor inst = true) instances.

Definition lookupVisibleInstance (actor : Actor) (name : string) : M DB Instance :=
  inst ← GetInstance name;
  if canAccessInstance actor inst then mret inst else throw ErrNoRows.

Definition authorizeReplacement (actor : Actor) (name artifactOwner : string) : M DB unit :=
  if negb (isAdmin actor) && nonempty artifactOwner && negb (EqualFold artifactOwner (UserLogin actor))
  then throw (Errorf "artifact owner does not match importing user") else
  r ← try (GetInstance name);
  match r with
  | inr ErrNoRows => mret tt
  | inr e => throw e
  | inl inst =>
      if negb (String.eqb (State inst) StateDeleted) && negb (canAccessInstance actor inst)
      then throw (Errorf "instance may only be replaced by its owner or an admin") else mret tt
  end.

(** ** A session *)

(** The audit record of a session; its time and its duration are inputs. *)
Definition audit (now : time) (sess : Session) (command : string) (actor : Actor) (allowed : bool)
    (reason errorText : string) : CommandAuditOf time :=
  mkCommandAudit now (UserLogin actor) (DisplayName actor) (NodeName actor) (sn_remote sess) (sn_user sess)
    command (json_strings (sn_command sess)) allowed reason 0 errorText.

Definition finalize (now : time) (sess : Session) (command : string) (actor : Actor) (allowed : bool)
    (reason errorText : string) : M Control unit :=
  _ ← try (on_db (RecordCommand now (audit now sess command actor allowed reason errorText)));
  mret tt.

(** An actor of which nothing is known but the session. *)
Definition unresolved (sess : Session) : Actor := mkActor "" "" "" (sn_remote sess) (sn_user sess).

(** Native migration is for authenticated front ends only. *)
Definition session_authorize (actor : Actor) (command via : string) : bool * string :=
  let '(allowed, reason) := authorize actor command in
  let '(allowed, reason) :=
    if String.eqb command "migration-disk" && String.eqb via ""
    then (false, "native migration requires an authenticated trusted frontend") else (allowed, reason) in
  (allowed, if String.eqb via "" then reason else (reason +:+ "; forwarded by " +:+ via)%stdpp).

Section session.
(** What a handler does; the result is an exit code and an error's text. *)
Context (handle : handler → Actor → commandRequest → M Control (Z * string)).

(** [handleSession], from the lease on; the result is the exit code. *)
Definition handleSession (now : time) (sess : Session) : M Control Z :=
  match sn_command sess with
  | [] =>
      finalize now sess "" (unresolved sess) false "shell denied"
        "shell sessions are disabled; use an exec request such as: ssh srv list";;
      mret 2
  | first :: _ =>
      match resolveCommandActor sess with
      | inr e => finalize now sess first (unresolved sess) false "whois failed" (error_text e);; mret 1
      | inl (actor, forwardedArgs, via) =>
          match parseCommandRequest forwardedArgs with
          | inr e => finalize now sess first actor false "invalid request" (error_text e);; mret 2
          | inl req =>
              let command := hd "" (cr_args req) in
              let '(allowed, reason) := session_authorize actor command via in
              _ ← try (on_db (RecordAuthz now (mkAuthzDecision now (UserLogin actor) (NodeName actor)
                     (RemoteAddr actor) command allowed reason)));
              if negb allowed then
                finalize now sess command actor false reason ("not authorized: " +:+ reason)%stdpp;; mret 1
              else
                match maybeUnsupportedJSONCommand command (cr_format req) with
                | Some e => finalize now sess command actor true reason (error_text e);; mret 2
                | None =>
                    match session_handler req with
                    | usageError e => finalize now sess command actor true reason (error_text e);; mret 2
                    | h =>
                        '(code, err) ← handle h actor req;
                        finalize now sess command actor true reason err;;
                        mret (exit_code h code err)
                    end
                end
          end
      end
  end.
End session.
End access.
