(* ===== verification/AccessSpec.v ===== *)
(** * What the gate guarantees

    A session reaches the handler of its command only when its peer is identified and
    entitled to the command, and users see no trace of instances that are not theirs. *)
From S2P Require Import Prelude GoStrings Timestamps Model Sql StoreDB StoreRequests StoreInstances StoreDemo.
From S2P Require Import StoreTrace InstanceSpec PoolHost Provision PoolStore PoolInv RunnerSpec PoolSpec.
From S2P Require Import Identity Config CommandLine Access.

#[local] Open Scope Z_scope.

Section spec.
Context (EqualFold : string → string → bool) (LowerCase : string → string).
Context (WhoIs : string → result (option WhoIsResponse)).
Context (RawURLDecode : string → option string) (json_Actor : string → option Actor).
Context (json_strings : list string → string).
Context (cfg : Config).

#[local] Abbreviation resolve := (resolveCommandActor LowerCase WhoIs RawURLDecode json_Actor cfg).
#[local] Abbreviation admin := (isAdmin EqualFold cfg).
#[local] Abbreviation can_access := (canAccessInstance EqualFold cfg).

(** ** Who the actor is *)

(** The tailnet says who the peer is. *)
Definition peer (sess : Session) (node : Node) (profile : option UserProfile) : Prop :=
  WhoIs (sn_remote sess) = inl (Some (mkWhoIs (Some node) profile)).

(** The peer speaks for itself. *)
Definition direct (sess : Session) (actor : Actor) (words : list string) (via : string) : Prop :=
  via = "" ∧ words = sn_command sess ∧ hd "" words ≠ "forward" ∧
  ∃ node profile, peer sess node profile ∧
    Resolve LowerCase (ProviderNodes cfg) (Some (mkWhoIs (Some node) profile)) (sn_remote sess) (sn_user sess)
      = inl actor.

(** A configured front end speaks for the user it names; the address recorded is its
    own. *)
Definition by_frontend (sess : Session) (actor : Actor) (words : list string) (via : string) : Prop :=
  via ≠ "" ∧ via ∈ TrustedFrontends cfg ∧ words ≠ [] ∧ nested_forward words = false ∧
  RemoteAddr actor = sn_remote sess ∧ SSHUser actor = sn_user sess ∧ TrimSpace (UserLogin actor) ≠ "" ∧
  (IsService LowerCase (UserLogin actor) = true → AllowsForwarded (ProviderNodes cfg) (UserLogin actor) = true) ∧
  ∃ node profile word, peer sess node profile ∧ nd_StableID node = via ∧
    sn_command sess = "forward" :: word :: words.

Definition identified (sess : Session) (actor : Actor) (words : list string) (via : string) : Prop :=
  direct sess actor words via ∨ by_frontend sess actor words via.

Lemma resolve_identified sess actor words via :
  resolve sess = inl (actor, words, via) → identified sess actor words via.
Proof.
  unfold resolveCommandActor. destruct (WhoIs (sn_remote sess)) as [who|] eqn:Hw; [|done]. cbn [mbind result_bind].
  destruct who as [[[node|] profile]|]; [|done..].
  destruct (String.eqb_spec (hd "" (sn_command sess)) "forward") as [Hf|Hf].
  - destruct (String.eqb_spec (nd_StableID node) "") as [|Hid]; [done|].
    case_bool_decide as Hin; [|done]. cbn [negb orb].
    destruct (sn_command sess) as [|first [|word [|cmd rest]]] eqn:Hc; try done. cbn [drop].
    destruct (8192 <? Z.of_nat (String.length word)); [done|].
    unfold forwarded_actor. destruct (RawURLDecode word) as [data|]; [|done]. cbn [mbind option_bind].
    destruct (json_Actor data) as [a|]; [|done]. cbn [mbind option_bind].
    destruct (String.eqb_spec (TrimSpace (UserLogin a)) "") as [|Hlogin]; [done|]. destruct (IsService LowerCase (UserLogin a) && _) eqn:Hs; [done|].
    destruct (nested_forward (cmd :: rest)) eqn:Hn; [done|]. intros [= <- <- <-]. right. cbn in Hf. subst first.
    unfold by_frontend. cbn [UserLogin RemoteAddr SSHUser]. split_and!; try done.
    + intros Hsv. rewrite Hsv in Hs. by apply negb_false_iff in Hs.
    + exists node, profile, word. by split_and!.
  - destruct (Resolve _ _ _ _ _) as [a|] eqn:HR; [|done]. intros [= -> <- <-].
    left. split_and!; [done..|]. by exists node, profile.
Qed.

(** ** Who may run a command *)

Definition user_allowed (actor : Actor) : Prop :=
  AllowedUsers cfg = [] ∨ ∃ user, user ∈ AllowedUsers cfg ∧ EqualFold user (UserLogin actor) = true.
Definition admin_user (actor : Actor) : Prop :=
  ∃ user, user ∈ AdminUsers cfg ∧ EqualFold user (UserLogin actor) = true.

Definition entitled (actor : Actor) (command via : string) : Prop :=
  user_allowed actor ∧
  (command ∈ ["snapshot"; "status"; "integration"; "pool"] → admin_user actor) ∧
  (command = "migration-disk" → via ≠ "").

Lemma existsb_user l login :
  existsb (λ user, EqualFold user login) l = true ↔ ∃ user, user ∈ l ∧ EqualFold user login = true.
Proof. rewrite existsb_exists. by setoid_rewrite list_elem_of_In. Qed.

Lemma admin_spec actor : admin actor = true ↔ admin_user actor.
Proof. apply existsb_user. Qed.

Lemma admin_command_spec command :
  admin_command command = true ↔ command ∈ ["snapshot"; "status"; "integration"; "pool"].
Proof.
  unfold admin_command. rewrite !orb_true_iff, !String.eqb_eq, !elem_of_cons, elem_of_nil. tauto.
Qed.

(** Authorization allows exactly the entitled. *)
Theorem authorize_exact actor command via :
  (session_authorize EqualFold cfg actor command via).1 = true ↔ entitled actor command via.
Proof.
  unfold session_authorize, entitled. rewrite <- admin_command_spec, <- admin_spec.
  assert (Hauth : (authorize EqualFold cfg actor command).1 = true ↔
    user_allowed actor ∧ (admin_command command = true → admin actor = true)).
  { unfold authorize, user_allowed, listed. rewrite <- existsb_user.
    destruct (admin_command command), (admin actor); cbn [negb]; try case_bool_decide;
      try destruct (existsb _ _); cbn; split; try done; try tauto; intros H'; naive_solver. }
  destruct (authorize EqualFold cfg actor command) as [allowed reason]. cbn [fst] in Hauth.
  destruct (String.eqb_spec command "migration-disk") as [Hc|Hc]; cbn [andb];
    [destruct (String.eqb_spec via "") as [Hv|Hv]|]; cbn [fst].
  - split; [done|]. intros (_ & _ & H). by destruct (H Hc).
  - rewrite Hauth. tauto.
  - rewrite Hauth. tauto.
Qed.

(** ** Sessions *)

(** Only the audit tables change. *)
Definition audited (w w' : Control) : Prop :=
  ∃ cs ds, w' = set_db (set_commands cs (set_authz_decisions ds (pv_db w))) w.

Lemma audited_refl w : audited w w.
Proof. exists (commands (pv_db w)), (authz_decisions (pv_db w)). destruct w as [[] ? ? ? ? ? ? ?]. done. Qed.

Lemma audited_trans w1 w2 w3 : audited w1 w2 → audited w2 w3 → audited w1 w3.
Proof. intros (cs & ds & ->) (cs' & ds' & ->). exists cs', ds'. by destruct w1 as [[] ? ? ? ? ? ? ?]. Qed.

Lemma record_command_audited now a w :
  wp (try (on_db (RecordCommand now a))) (λ _ w', audited w w') w.
Proof.
  apply wp_try, wp_on_db, wp_env; cbn.
  1,2: rewrite set_db_same; apply audited_refl.
  all: exists (commands (pv_db w) ++ [stored_command now a])%list, (authz_decisions (pv_db w)); by destruct w as [[] ? ? ? ? ? ? ?].
Qed.
Lemma record_authz_audited now a w :
  wp (try (on_db (RecordAuthz now a))) (λ _ w', audited w w') w.
Proof.
  apply wp_try, wp_on_db, wp_env; cbn.
  1,2: rewrite set_db_same; apply audited_refl.
  all: exists (commands (pv_db w)), (authz_decisions (pv_db w) ++ [stored_decision now a])%list; by destruct w as [[] ? ? ? ? ? ? ?].
Qed.

Lemma finalize_audited now sess command actor allowed reason text w :
  wp (finalize json_strings now sess command actor allowed reason text) (λ _ w', audited w w') w.
Proof.
  unfold finalize. apply wp_bind. eapply wp_mono; [apply record_command_audited|].
  intros [] w' Hw'; [by apply wp_ret|done..].
Qed.

(** C14. A session changes nothing but the audit, unless its peer is identified as the actor
    and the actor is entitled to the command; then the handler of that command runs, and
    nothing else does.  So a property that the handlers keep on behalf of the entitled is
    kept by every session of anybody. *)
Theorem session_gate (I : Control → Prop) (handle : handler → Actor → commandRequest → M Control (Z * string))
    now sess w :
  (∀ w w', audited w w' → I w → I w') →
  (∀ actor words via req w, identified sess actor words via → parseCommandRequest words = inl req →
     entitled actor (hd "" (cr_args req)) via → I w →
     wp (handle (session_handler req) actor req) (λ _ w', I w') w) →
  I w →
  wp (handleSession EqualFold LowerCase WhoIs RawURLDecode json_Actor json_strings cfg handle now sess)
    (λ _ w', I w') w.
Proof.
  intros Haud Hhandle Hw.
  assert (Hfin : ∀ command actor allowed reason text code w, I w →
    wp (finalize json_strings now sess command actor allowed reason text;; mret code) (λ (_ : outcome Z) w', I w') w).
  { intros. apply wp_bind. eapply wp_mono; [apply finalize_audited|].
    intros [] w' Hw'; [apply wp_ret|..]; by eapply Haud. }
  unfold handleSession. destruct (sn_command sess) as [|first rest]; [by apply Hfin|].
  destruct (resolve sess) as [[[actor words] via]|e] eqn:Hr; [|by apply Hfin].
  destruct (parseCommandRequest words) as [req|e] eqn:Hreq; [|by apply Hfin].
  destruct (session_authorize EqualFold cfg actor (hd "" (cr_args req)) via) as [allowed reason] eqn:Ha.
  apply wp_bind. eapply wp_mono; [apply record_authz_audited|].
  intros [r|e|] w1 Hw1; [|by eapply Haud..]. apply (Haud w w1) in Hw; [|done].
  destruct allowed; cbn [negb]; [|by apply Hfin].
  destruct (maybeUnsupportedJSONCommand _ _); [by apply Hfin|].
  assert (Hrun : wp (handle (session_handler req) actor req) (λ _ w', I w') w1).
  { apply (Hhandle actor words via); try done; [by apply resolve_identified|]. apply authorize_exact. by rewrite Ha. }
  destruct (session_handler req); try (by apply Hfin).
  all: apply wp_bind; eapply wp_mono; [exact Hrun|]; intros [[code text]|e|] w2 Hw2; by try apply Hfin.
Qed.

(** ** Instances of others *)

(** Every row can be read back: its times are times. *)
Definition readable (d : DB) : Prop :=
  ∀ k r, instances d !! k = Some r → ∃ i, scanInstance (in_cols r) = inl i.

Definition accessible (actor : Actor) (r : instance_row) : bool :=
  match scanInstance (in_cols r) with inl i => can_access actor i | inr _ => false end.

(** The instances an actor may access, as rows. *)
Definition visible_rows (actor : Actor) (d : DB) : gmap string instance_row :=
  filter (λ p, accessible actor p.2 = true) (instances d).

(** The lookup of an instance is the lookup in the table of the rows the actor may
    access: with the same failures it has the same result, and it changes nothing.  So an
    instance of another user answers like one that does not exist. *)
Theorem lookup_sees_visible_rows actor name fs d :
  wf d → readable d →
  (lookupVisibleInstance EqualFold cfg actor name fs d).1 =
    (query (λ d, r ← select_row (named name) (visible_rows actor d); scanInstance (in_cols r)) fs d).1.
Proof.
  intros Hwf Hread.
  assert (Hvis : ∀ k r, visible_rows actor d !! k = Some r ↔ instances d !! k = Some r ∧ accessible actor r = true)
    by (intros; apply map_lookup_filter_Some).
  enough (Hsel : (r ← select_row (named name) (instances d); i ← scanInstance (in_cols r);
      if can_access actor i then inl i else inr ErrNoRows) =
    (r ← select_row (named name) (visible_rows actor d); scanInstance (in_cols r))).
  { unfold lookupVisibleInstance, GetInstance, SELECT, query, env. cbn beta iota. rewrite <- Hsel.
    unfold mbind, M_bind, result_bind. cbn.
    destruct fs as [|[] fs]; cbn; try done; (destruct (select_row (named name) (instances d)) as [r|e]; cbn;
      [destruct (scanInstance (in_cols r)) as [i|e]; cbn; [destruct (can_access actor i)|]|]; reflexivity). }
  destruct (select_row (named name) (instances d)) as [r|e] eqn:E; cbn [mbind result_bind].
  - apply select_row_Some in E as (k & Hk & Hn). destruct (Hread k r Hk) as [i Hi].
    rewrite (select_row_point (named name) (visible_rows actor d) k).
    2:{ intros k' r' [Hk' _]%Hvis Hn'. apply (named_point d k r Hwf Hk) in Hk'; [done|].
        unfold named in *. apply String.eqb_eq in Hn, Hn'. by rewrite Hn, Hn', String.eqb_refl. }
    destruct (visible_rows actor d !! k) as [r'|] eqn:Hv.
    + apply Hvis in Hv as [Hk' Ha]. assert (r' = r) as -> by congruence. rewrite Hn. cbn [mbind result_bind].
      rewrite Hi. cbn. unfold accessible in Ha. rewrite Hi in Ha. by rewrite Ha.
    + rewrite Hi. cbn. destruct (can_access actor i) eqn:Hc; [|done].
      assert (visible_rows actor d !! k = Some r) by (apply Hvis; split; [done|]; unfold accessible; by rewrite Hi).
      congruence.
  - rewrite (select_row_error _ _ _ E). destruct (select_row (named name) (visible_rows actor d)) as [r|e'] eqn:E'.
    + apply select_row_Some in E' as (k & [Hk _]%Hvis & Hn). by rewrite (select_row_none _ _ _ E k r Hk) in Hn.
    + by rewrite (select_row_error _ _ _ E').
Qed.
End spec.

(** ** A session that is turned away

    Only alice may use this host: a session of bob, and one that claims to speak for
    alice from a node that is no front end, change nothing but the audit. *)

Definition closed_config : Config :=
  mkConfig "/srv/data" "srv" ":22" 0 "" "" "" "" "" [] "" ["alice@example.com"] [] [] ∅ "" "" "" ∅ "" "" "" "" ""
    ["1.1.1.1"] 2 1024 0 0 [] ∅ "" false "" "" "" 0 "" "" 0 0 0 "" false 0 "info" "".

Definition bobs_node : Node := mkNode "desk." "" "node-bob" [].
Definition bobs_profile : option UserProfile := Some (mkUserProfile "bob@example.com" "Bob").
Definition whois_bob (_ : string) : Prelude.result (option WhoIsResponse) :=
  inl (Some (mkWhoIs (Some bobs_node) bobs_profile)).
Definition same_case (s : string) : string := s.
Definition raw (s : string) : option string := Some s.
Definition json_alice (_ : string) : option Actor := Some (mkActor "alice@example.com" "Alice" "laptop" "" "").
Definition joined_words (l : list string) : string := String.concat " " l.

(** A handler that would wipe the instances. *)
Definition wipe (_ : handler) (_ : Actor) (_ : commandRequest) : M Control (Z * string) :=
  λ fs w, (Ok (0, ""), set_db (set_instances ∅ (pv_db w)) w, fs).

Definition aw0 : Control := set_db demo_db pw0.

Definition gate (words : list string) : M Control Z :=
  handleSession String.eqb same_case whois_bob raw json_alice joined_words closed_config wipe t0
    (mkSession "100.64.0.2:1" "bob" words).

Lemma nobody_entitled sess actor words via command :
  identified same_case whois_bob closed_config sess actor words via →
  ¬ entitled String.eqb closed_config actor command via.
Proof.
  intros [(_ & _ & _ & node & profile & Hp & HR)|(_ & Hin & _)] [Ha _]; [|by apply not_elem_of_nil in Hin].
  unfold peer, whois_bob in Hp. injection Hp as <- <-. vm_compute in HR. injection HR as <-.
  destruct Ha as [Ha|(user & Hu & Heq)]; [discriminate Ha|].
  apply list_elem_of_singleton in Hu as ->. vm_compute in Heq. discriminate Heq.
Qed.

Lemma session_gate_witness :
  instances (pv_db (gate ["delete"; "demo"] [] aw0).1.2) = instances demo_db.
Proof.
  refine (session_gate String.eqb same_case whois_bob raw json_alice joined_words closed_config
    (λ w, instances (pv_db w) = instances demo_db) wipe t0 (mkSession "100.64.0.2:1" "bob" ["delete"; "demo"]) aw0 _ _ _ []).
  - intros w w' (cs & ds & ->) H. exact H.
  - intros actor ws via req w Hid _ Hent _. by destruct (nobody_entitled _ _ _ _ _ Hid Hent).
  - reflexivity.
Defined.

(** The gate is what keeps them: the handler would have. *)
Lemma wipe_wipes : instances (pv_db (wipe cmdDelete alice (mkCommandRequest [] outputFormatText) [] aw0).1.2) = ∅.
Proof. reflexivity. Qed.

Lemma demo_readable : readable demo_db.
Proof.
  intros k r Hr. assert (Hk : k = "id-1").
  { destruct (decide (k = "id-1")) as [|Hne]; [done|]. exfalso.
    assert (Hd : delete "id-1" (instances demo_db) = ∅) by (vm_compute; reflexivity).
    assert (delete "id-1" (instances demo_db) !! k = Some r) as H by by rewrite lookup_delete_ne.
    by rewrite Hd, lookup_empty in H. }
  subst k. assert (H : (λ r, match scanInstance (in_cols r) with inl _ => true | inr _ => false end) <$> instances demo_db !! "id-1" = Some true)
    by (vm_compute; reflexivity).
  rewrite Hr in H. cbn in H. destruct (scanInstance (in_cols r)) as [i|]; [by exists i|discriminate H].
Qed.

(** To bob the instance of alice does not exist. *)
Lemma lookup_sees_visible_rows_witness :
  (lookupVisibleInstance String.eqb closed_config (mkActor "bob@example.com" "" "" "" "") "demo" [] demo_db).1 =
    (Err ErrNoRows, demo_db).
Proof.
  rewrite (lookup_sees_visible_rows String.eqb closed_config _ "demo" [] demo_db
    (run_wf _ _ (op_CreateInstance _ _) wf_empty) demo_readable).
  vm_compute. reflexivity.
Defined.
