(* ===== verification/DiskLayoutSpec.v ===== *)
(** * No disk is lost while it moves

    Whatever fails while a disk moves to its subvolume, process or power, the guest's
    bytes are kept, and a move that ends has them where the record says. *)
From S2P Require Import Prelude GoStrings Timestamps Model RunnerState DiskLayout.
From stdpp Require Import relations.

#[local] Open Scope Z_scope.

Section spec.
Context (dir : string) (uuid_Parse : string → option string) (new_identity : Layout → SubvolumeIdentity).

#[local] Abbreviation canonical := (canonical dir).
#[local] Abbreviation legacy := (legacy dir).

(** ** Where the bytes are *)

Context (bytes : string).

(** The volume holds them, durably. *)
Definition filled (u : string) (l : Layout) : Prop :=
  ∃ v, l_volumes l !! u = Some v ∧ vo_rootfs v = Some bytes ∧ vo_bytes_durable v = true ∧ vo_entry_durable v = true.

(** A directory from before the stage was ready: the old file holds them. *)
Definition old (l : Layout) (d : Dir) : Prop :=
  is_Some (d_legacy d) ∧ l_legacy l = bytes ∧ d_disk d = None ∧ ∀ j, d_journal d = Some j → dm_Ready j = false.

(** A directory with a ready journal: the volume [u] holds them. *)
Definition ready (u : string) (l : Layout) (d : Dir) : Prop :=
  ∃ j id, d_journal d = Some j ∧ dm_Ready j = true ∧ u ≠ "" ∧ sv_UUID (dm_Subvolume j) = u ∧ sv_UUID id = u ∧
    (d_disk d = Some id ∨ (d_disk d = None ∧ stage (dm_Operation j) d = Some id)) ∧ filled u l ∧
    (RootFSPath (l_row l) ≠ canonical → is_Some (d_legacy d) ∧ l_legacy l = bytes).

(** A directory of a move that is over. *)
Definition done_ (u : string) (l : Layout) (d : Dir) : Prop :=
  d_journal d = None ∧ (∃ id, d_disk d = Some id ∧ sv_UUID id = u) ∧ filled u l ∧ RootFSPath (l_row l) = canonical.

(** What the directory is, and what a power loss may make of it. *)
Inductive inv (l : Layout) : Prop :=
  | inv_old : Forall (old l) (l_dir l :: l_undo l) → inv l
  | inv_ready u : ready u l (l_dir l) → Forall (λ d, old l d ∨ ready u l d) (l_undo l) → inv l
  | inv_done u : done_ u l (l_dir l) → Forall (λ d, ready u l d ∨ done_ u l d) (l_undo l) → inv l.

(** ** Changes that do not matter *)

(** All but the temporary files, and what is not synced. *)
Definition core (l : Layout) : Instance * string * SubvolumeIdentity * gmap string volume * Dir :=
  (l_row l, l_legacy l, l_legacy_subvolume l, l_volumes l, set_temps ∅ (l_dir l)).

Definition temps_only (f : Dir → Dir) : Prop := ∀ d, set_temps ∅ (f d) = set_temps ∅ d.

(** A directory with other temporary files is the same to us. *)
Lemma old_temps l d d' : set_temps ∅ d' = set_temps ∅ d → old l d → old l d'.
Proof. destruct d, d'. intros [= -> -> -> ->]. done. Qed.
Lemma ready_temps u l d d' : set_temps ∅ d' = set_temps ∅ d → ready u l d → ready u l d'.
Proof. destruct d, d'. intros [= -> -> -> ->]. done. Qed.
Lemma done_temps u l d d' : set_temps ∅ d' = set_temps ∅ d → done_ u l d → done_ u l d'.
Proof. destruct d, d'. intros [= -> -> -> ->]. done. Qed.

Lemma inv_temps f l : temps_only f → inv l → inv (change f l).
Proof.
  intros Hf [[H Hu]%Forall_cons|u H Hu|u H Hu].
  - apply inv_old. constructor; [exact (old_temps l _ _ (Hf _) H)|by constructor].
  - eapply (inv_ready _ u); [exact (ready_temps u l _ _ (Hf _) H)|]. constructor; [by right|done].
  - eapply (inv_done _ u); [exact (done_temps u l _ _ (Hf _) H)|]. constructor; [by right|done].
Qed.

Lemma inv_synced l : inv l → inv (set_undo [] l).
Proof.
  intros [[H Hu]%Forall_cons|u H Hu|u H Hu].
  - apply inv_old. by apply Forall_singleton.
  - by apply (inv_ready _ u).
  - by apply (inv_done _ u).
Qed.

Lemma core_temps f l : temps_only f → core (change f l) = core l.
Proof. intros Hf. unfold core. cbn. by rewrite Hf. Qed.

(** ** Calls *)

#[local] Abbreviation keeps m P := (λ l, wp m (post inv P) l).

(** A property that the temporary files and a sync do not touch. *)
Record stable (K : Layout → Prop) : Prop := {
  st_inv l : K l → inv l;
  st_temps l f : temps_only f → K l → K (change f l);
  st_synced l : K l → K (set_undo [] l);
}.

Lemma stable_inv_core (c : Instance * string * SubvolumeIdentity * gmap string volume * Dir) :
  stable (λ l, inv l ∧ core l = c).
Proof.
  split.
  - by intros l [].
  - intros l f Hf [Hl Hc]. split; [by apply inv_temps|by rewrite core_temps].
  - intros l [Hl Hc]. split; [by apply inv_synced|done].
Qed.

Definition all_old (l : Layout) : Prop := Forall (old l) (l_dir l :: l_undo l).

Lemma stable_old c : stable (λ l, all_old l ∧ core l = c).
Proof.
  split.
  - intros l [Hl _]. by apply inv_old.
  - intros l f Hf [[H Hu]%Forall_cons Hc]. split; [|by rewrite core_temps].
    constructor; [exact (old_temps l _ _ (Hf _) H)|by constructor].
  - intros l [[H Hu]%Forall_cons Hc]. split; [by apply Forall_singleton|done].
Qed.

Lemma keeps_check l : inv l → wp check (post inv (λ _ l', l' = l)) l.
Proof. intros Hl. by apply wp_query; split. Qed.

Lemma keeps_look {A} (f : Dir → result A) l :
  inv l → wp (look f) (post inv (λ a l', l' = l ∧ f (l_dir l) = inl a)) l.
Proof. intros Hl. unfold look. eapply post_mono; [by apply post_query|done|by intros]. Qed.

Lemma keeps_temps f l c :
  temps_only f → inv l ∧ core l = c → wp (do_change f) (post inv (λ _ l', inv l' ∧ core l' = c)) l.
Proof.
  intros Hf Hl. destruct (st_temps _ (stable_inv_core c) l f Hf Hl) as [H1 H2].
  eapply post_mono; [apply (post_env inv); [apply Hl|done]|done|]. by intros a s _ [_ ->].
Qed.

Lemma keeps_sync l c : inv l ∧ core l = c → wp SyncDir (post inv (λ _ l', inv l' ∧ core l' = c ∧ l_undo l' = [])) l.
Proof.
  intros Hl. destruct (st_synced _ (stable_inv_core c) l Hl) as [H1 H2].
  eapply post_mono; [apply (post_env inv); [apply Hl|done]|done|]. by intros a s _ [_ ->].
Qed.

Lemma remove_temp_only n : temps_only (λ d, set_temps (delete n (d_temps d)) d).
Proof. by intros []. Qed.

(** A journal is written: from [K] to [K']. *)
Lemma keeps_write j (K K' : Layout → Prop) l :
  stable K → stable K' →
  (∀ l f, K l → (∀ d, set_temps ∅ (f d) = set_temps ∅ (set_journal (Some j) d)) → K' (change f l)) →
  K l → wp (writeDiskJournal j) (post inv (λ _ l', K' l')) l.
Proof.
  intros HK HK' Hj Hl. unfold writeDiskJournal.
  assert (Hadd : ∀ n, temps_only (λ d, set_temps (<[n := true]> (d_temps d)) d)) by by intros n [].
  eapply (post_bind _ _ _ (λ _ l', K l')).
  { eapply post_mono; [apply post_env|done|]; cbn; [by apply (st_inv _ HK)|..|by intros a s _ [_ ->]; apply (st_temps _ HK)].
    by apply (st_inv _ HK), (st_temps _ HK). }
  intros n l1 _ Hl1.
  assert (Hrm : ∀ J : Layout → Prop, stable J → ∀ l2, J l2 →
    wp (env (λ l, if bool_decide (is_Some (d_temps (l_dir l) !! n))
          then (inl tt, change (λ d, set_temps (delete n (d_temps d)) d) l) else (inr ErrNotExist, l)))
       (λ _ l3, J l3) l2).
  { intros J HJ l2 H2. apply wp_env; [done..| |]; case_bool_decide; cbn; try done;
      by apply (st_temps _ HJ); [apply remove_temp_only|]. }
  apply post_finally.
  - eapply (post_bind _ _ _ (λ _ l', K l')).
    { by apply wp_query; split; try apply (st_inv _ HK). }
    intros _ l2 _ H2. eapply (post_bind _ _ _ (λ _ l', K' l')).
    { assert (K' (change (λ d, set_journal (Some j) (set_temps (delete n (d_temps d)) d)) l2)) as H3.
      { apply Hj; [done|]. by intros []. }
      eapply post_mono; [apply (post_env inv); [by apply (st_inv _ HK)|by apply (st_inv _ HK')]|done|]. by intros a s _ [_ ->]. }
    intros _ l3 _ H3. eapply post_mono; [apply (post_env inv); [by apply (st_inv _ HK')|by apply (st_inv _ HK'), (st_synced _ HK')]|done|].
    intros a s _ [_ ->]. by apply (st_synced _ HK').
  - intros l2 H2. pose proof (stable_inv_core (core l2)) as HJ.
    eapply wp_mono; [by apply (Hrm _ HJ)|]. by intros ? ? [].
  - intros _ l2 _ H2. by apply (Hrm K').
Qed.

(** ** The classes, as the code goes through them *)

(** Before: the journal and the record. *)
Definition at_old (oj : option diskMigration) (r : Instance) (l : Layout) : Prop :=
  all_old l ∧ d_journal (l_dir l) = oj ∧ l_row l = r.

(** After: with a property of the directory. *)
Definition at_ready (D : Dir → Prop) (u : string) (r : Instance) (l : Layout) : Prop :=
  ready u l (l_dir l) ∧ Forall (λ d, old l d ∨ ready u l d) (l_undo l) ∧ l_row l = r ∧ D (l_dir l).
Definition at_done (D : Dir → Prop) (u : string) (r : Instance) (l : Layout) : Prop :=
  done_ u l (l_dir l) ∧ Forall (λ d, ready u l d ∨ done_ u l d) (l_undo l) ∧ l_row l = r ∧ D (l_dir l).

(** A property that is not about temporary files. *)
Definition plain (D : Dir → Prop) : Prop := ∀ d d', set_temps ∅ d' = set_temps ∅ d → D d → D d'.

Lemma stable_at_old oj r : stable (at_old oj r).
Proof.
  split.
  - intros l [Hl _]. by apply inv_old.
  - intros l f Hf ([H Hu]%Forall_cons & Hj & Hr). split_and!; [|cbn|done].
    + constructor; [exact (old_temps l _ _ (Hf _) H)|by constructor].
    + specialize (Hf (l_dir l)). destruct (f (l_dir l)), (l_dir l). by injection Hf as -> -> -> ->.
  - intros l ([H Hu]%Forall_cons & Hj & Hr). split_and!; [by apply Forall_singleton|done..].
Qed.

Lemma stable_at_ready D u r : plain D → stable (at_ready D u r).
Proof.
  intros HD. split.
  - intros l (H & Hu & _). by apply (inv_ready _ u).
  - intros l f Hf (H & Hu & Hr & Hd). split_and!; [exact (ready_temps u l _ _ (Hf _) H)| |done|exact (HD _ _ (Hf _) Hd)].
    constructor; [by right|done].
  - intros l (H & Hu & Hr & Hd). by split_and!.
Qed.

Lemma stable_at_done D u r : plain D → stable (at_done D u r).
Proof.
  intros HD. split.
  - intros l (H & Hu & _). by apply (inv_done _ u).
  - intros l f Hf (H & Hu & Hr & Hd). split_and!; [exact (done_temps u l _ _ (Hf _) H)| |done|exact (HD _ _ (Hf _) Hd)].
    constructor; [by right|done].
  - intros l (H & Hu & Hr & Hd). by split_and!.
Qed.

(** What a journal says about the class. *)
Lemma inv_not_ready l j :
  inv l → d_journal (l_dir l) = Some j → dm_Ready j = false → at_old (Some j) (l_row l) l.
Proof.
  intros [H|u (j' & ? & Hj' & Hr & _) _|u [Hj' _] _] Hj Hn; [by split_and!|congruence..].
Qed.

Lemma inv_is_ready l j :
  inv l → d_journal (l_dir l) = Some j → dm_Ready j = true →
  ∃ u, at_ready (λ _, True) u (l_row l) l ∧ sv_UUID (dm_Subvolume j) = u ∧ u ≠ "".
Proof.
  intros [[(_ & _ & _ & H) _]%Forall_cons|u H Hu|u [Hj' _] _] Hj Hr; [by rewrite (H j Hj) in Hr| |congruence].
  exists u. split; [by split_and!|]. destruct H as (j' & id & Hj' & _ & Hne & Hs & _).
  by assert (j' = j) as -> by congruence.
Qed.

Lemma inv_no_journal l :
  inv l → d_journal (l_dir l) = None →
  at_old None (l_row l) l ∨ ∃ u, at_done (λ _, True) u (l_row l) l.
Proof.
  intros [H|u (j' & ? & Hj' & _) _|u H Hu] Hj; [by left|congruence|]. right. by exists u.
Qed.

(** ** Temporary files *)

Lemma keeps_cleanup K l : stable K → K l → wp cleanupDiskJournalTemps (post inv (λ _ l', K l' ∧ l_undo l' = [])) l.
Proof.
  intros HK Hl. unfold cleanupDiskJournalTemps.
  eapply (post_bind _ _ _ (λ _ l', K l')); [by apply wp_query; split; try apply (st_inv _ HK)|].
  intros names l1 _ H1.
  eapply (post_bind _ _ _ (λ _ l', K l')).
  { eapply wp_mono; [apply (wp_for_each _ K); [done|]|].
    - intros p l2 _ H2. apply wp_bind, wp_query; [done..|]. by apply wp_require.
    - intros o l2 H2. split; [by apply (st_inv _ HK)|done]. }
  intros _ l2 _ H2. eapply (post_bind _ _ _ (λ _ l', K l')).
  { eapply wp_mono; [apply (wp_for_each _ K); [done|]|].
    - intros p l3 _ H3. apply wp_env; [done..| |]; by apply (st_temps _ HK); [apply remove_temp_only|].
    - intros o l3 H3. split; [by apply (st_inv _ HK)|done]. }
  intros _ l3 _ H3. eapply post_mono; [apply (post_env inv); [by apply (st_inv _ HK)|by apply (st_inv _ HK), (st_synced _ HK)]|done|].
  intros a s _ [_ ->]. split; [by apply (st_synced _ HK)|done].
Qed.

(** A call that changes nothing. *)
Lemma keeps_query {A} (f : Layout → result A) l : inv l → wp (query f) (post inv (λ a l', l' = l ∧ f l = inl a)) l.
Proof. intros Hl. by apply post_query. Qed.
Lemma keeps_require b e l : inv l → wp (require b e : M Layout unit) (post inv (λ _ l', l' = l ∧ b = true)) l.
Proof. intros Hl. by apply post_require. Qed.

Lemma plain_true : plain (λ _, True).
Proof. by intros ???. Qed.

(** ** The steps of the move *)

Lemma keeps_write_old oj j r l :
  dm_Ready j = false → at_old oj r l → wp (writeDiskJournal j) (post inv (λ _ l', at_old (Some j) r l')) l.
Proof.
  intros Hn Hl. apply (keeps_write j (at_old oj r) (at_old (Some j) r)); [apply stable_at_old..| |done].
  intros l1 f ([Ho Hu]%Forall_cons & Hj1 & Hr1) Hf. specialize (Hf (l_dir l1)). split_and!; cbn.
  - constructor; [|by constructor]. destruct Ho as (H1 & H2 & H3 & _). unfold old. cbn.
    destruct (f (l_dir l1)), (l_dir l1). injection Hf as -> -> -> ->. split_and!; [done..|]. by intros ? [= <-].
  - destruct (f (l_dir l1)), (l_dir l1). by injection Hf as -> -> -> ->.
  - done.
Qed.

Lemma keeps_open op inst l :
  inv l → l_row l = inst →
  wp (open_journal dir uuid_Parse op inst (d_journal (l_dir l)))
    (post inv (λ j l', d_journal (l_dir l') = Some j ∧ l_row l' = inst)) l.
Proof.
  intros Hl Hrow. unfold open_journal. destruct (d_journal (l_dir l)) as [j|] eqn:Hj.
  - do 3 (eapply post_bind; [by apply keeps_require|]; intros _ ? _ [-> _]). by apply post_ret.
  - eapply post_bind; [by apply keeps_require|]. intros _ ? _ [-> Hpath%String.eqb_eq].
    eapply post_bind; [by apply keeps_look|]. intros _ ? _ [-> _].
    eapply post_bind; [by apply keeps_look|]. intros st ? _ [-> Hst].
    eapply post_bind; [by apply keeps_require|]. intros _ ? _ [-> _].
    eapply post_bind; [by apply keeps_query|]. intros c ? _ [-> _].
    eapply post_bind; [by apply keeps_require|]. intros _ ? _ [-> _]. cbv zeta.
    set (j := mkDiskMigration _ _ _ _ _ _ _).
    assert (Hold : at_old None inst l).
    { destruct (inv_no_journal l Hl Hj) as [H|(u & (_ & _ & _ & Hc) & _)]; [by rewrite Hrow in H|].
      exfalso. rewrite Hrow, Hpath in Hc. unfold DiskLayout.legacy, DiskLayout.canonical in Hc. by apply append_inj in Hc. }
    eapply (post_bind _ _ _ (λ _ l', d_journal (l_dir l') = Some j ∧ l_row l' = inst));
      [|intros _ l' Hl' H'; by apply post_ret].
    eapply post_mono; [by apply (keeps_write_old None j inst)|done|]. intros _ l' _ (_ & Hj' & Hr'). by split.
Qed.

Lemma keeps_check_legacy inst j l : inv l → wp (check_legacy dir inst j) (post inv (λ _ l', l' = l)) l.
Proof.
  intros Hl. unfold check_legacy. eapply post_bind; [by apply keeps_look|]. intros st ? _ [-> _].
  destruct st as [st|].
  - eapply post_bind; [by apply keeps_require|]. intros _ ? _ [-> _].
    eapply post_bind; [by apply keeps_query|]. intros c ? _ [-> _].
    eapply post_bind; [by apply keeps_require|]. intros _ ? _ [-> _]. by apply keeps_check.
  - eapply post_mono; [by apply keeps_require|done|]. by intros a ? _ [-> _].
Qed.

Lemma keeps_create op oj r l :
  at_old oj r l → wp (CreateStage new_identity op) (post inv (λ _ l', at_old oj r l')) l.
Proof.
  intros Hl. pose proof (stable_at_old oj r) as HK. pose proof (st_inv _ HK _ Hl) as Hi. unfold CreateStage.
  eapply post_bind; [by apply keeps_check|]. intros _ ? _ ->.
  eapply post_bind; [by apply keeps_look|]. intros _ ? _ [-> _].
  eapply (post_bind _ _ _ (λ _ l', at_old oj r l')).
  { assert (at_old oj r (set_volumes (<[sv_UUID (new_identity l) := mkVolume None true true 0]> (l_volumes l))
      (change (λ d, set_stages (<[op := new_identity l]> (d_stages d)) d) l))) as H1.
    { destruct Hl as ([Ho Hu]%Forall_cons & Hj & Hr). split_and!; [|done..]. constructor; [exact Ho|by constructor]. }
    eapply post_mono; [apply (post_env inv); [done|by apply (st_inv _ HK)]|done|]. by intros a s _ [_ ->]. }
  intros _ l1 _ H1. eapply post_mono; [apply (post_env inv); [by apply (st_inv _ HK)|by apply (st_inv _ HK), (st_synced _ HK)]|done|].
  intros a s _ [_ ->]. by apply (st_synced _ HK).
Qed.

Lemma keeps_identify inst j l :
  inv l → d_journal (l_dir l) = Some j → l_row l = inst →
  wp (identify_stage dir new_identity inst j)
    (post inv (λ j' l', d_journal (l_dir l') = Some j' ∧ l_row l' = inst)) l.
Proof.
  intros Hl Hj Hrow. unfold identify_stage. destruct (nonempty _) eqn:Hid; [by apply post_ret|].
  assert (Hn : dm_Ready j = false).
  { destruct (dm_Ready j) eqn:E; [|done]. destruct (inv_is_ready l j Hl Hj E) as (u & _ & Hu & Hne).
    rewrite Hu in Hid. unfold nonempty in Hid. by destruct (String.eqb_spec u ""). }
  pose proof (inv_not_ready l j Hl Hj Hn) as Hold. rewrite Hrow in Hold.
  eapply post_bind; [by apply keeps_require|]. intros _ ? _ [-> _].
  eapply post_bind; [by apply keeps_look|]. intros _ ? _ [-> _].
  eapply post_bind; [by apply keeps_look|]. intros there ? _ [-> _].
  eapply (post_bind _ _ _ (λ _ l', at_old (Some j) inst l')).
  { destruct there; [by apply post_ret|by apply keeps_create]. }
  intros _ l1 Hl1 H1. eapply post_bind; [by apply keeps_query|]. intros n ? _ [-> _].
  eapply post_bind; [by apply keeps_require|]. intros _ ? _ [-> _].
  eapply post_bind; [by apply keeps_look|]. intros id ? _ [-> _]. cbv zeta.
  eapply post_bind; [by apply (keeps_write_old (Some j) (set_Subvolume id j) inst)|].
  intros _ l2 Hl2 (_ & Hj2 & Hr2). by apply post_ret.
Qed.

(** *** The stage is filled *)

Section fill.
Context (j : diskMigration) (r : Instance) (id : SubvolumeIdentity) (l0 : Layout).
Context (Hold : at_old (Some j) r l0) (Hnone : d_disk (l_dir l0) = None).
Context (Hstage : stage (dm_Operation j) (l_dir l0) = Some id).
Context (Hid : sv_UUID (dm_Subvolume j) = sv_UUID id) (Hne : sv_UUID id ≠ "").

#[local] Abbreviation u := (sv_UUID id).

(** Only the volumes differ from the start, and that of the stage satisfies [P]. *)
Definition holding (P : volume → Prop) (l : Layout) : Prop :=
  ∃ vs, l = set_volumes vs l0 ∧ ∀ v, vs !! u = Some v → P v.
Definition holding_one (P : volume → Prop) (l : Layout) : Prop :=
  ∃ vs v, l = set_volumes vs l0 ∧ vs !! u = Some v ∧ P v.

Lemma holding_any P l : holding_one P l → holding P l.
Proof. intros (vs & v & -> & Hv & HP). exists vs. split; [done|]. intros v' Hv'. by simplify_eq. Qed.

Lemma holding_inv P l : holding P l → inv l.
Proof. intros (vs & -> & _). apply inv_old. exact (proj1 Hold). Qed.

Lemma keeps_in_volume f P P' l :
  holding P l → (∀ v, P v → P' (f bytes v)) → wp (in_volume id f) (post inv (λ _ l', holding_one P' l')) l.
Proof.
  intros Hl Hf. pose proof (holding_inv _ _ Hl) as Hi. destruct Hl as (vs & -> & Hv).
  assert (Hb : l_legacy l0 = bytes) by (destruct Hold as [[(_ & H & _) _]%Forall_cons _]; exact H).
  unfold in_volume. apply wp_env; cbn; [by split..| |]; rewrite Hb; destruct (vs !! u) as [v|] eqn:E; cbn; (split; [|try done]).
  - apply inv_old. exact (proj1 Hold).
  - intros _ _. exists (<[u := f bytes v]> vs), (f bytes v). split_and!; [done|apply lookup_insert_eq|]. by apply Hf, Hv.
  - done.
  - apply inv_old. exact (proj1 Hold).
  - done.
Qed.

Definition staged_as (d : Dir) : Prop :=
  d_disk d = None ∧ stage (dm_Operation j) d = Some id ∧
  ∀ j', d_journal d = Some j' → dm_Operation j' = dm_Operation j.

Lemma staged_plain : plain staged_as.
Proof. intros [] []. unfold staged_as, stage. cbn. by intros [= -> -> -> ->]. Qed.

Lemma keeps_fill :
  wp (fill_stage id j) (post inv (λ _ l', at_ready staged_as u r l')) l0.
Proof.
  assert (W0 : holding (λ _, True) l0) by (exists (l_volumes l0); split; [by destruct l0|done]).
  unfold fill_stage, clone_into.
  eapply post_bind; [by apply (keeps_in_volume _ (λ _, True) (λ _, True) _ W0)|]. intros ? l1 ? W1%holding_any.
  eapply (post_bind _ _ _ (λ _ l', holding_one (λ v, vo_rootfs v = Some bytes) l')).
  { eapply post_bind; [apply keeps_look; by eapply holding_inv|]. intros _ ? _ [-> _].
    eapply post_bind; [by apply (keeps_in_volume _ _ (λ _, True) _ W1)|]. intros ? l2 ? W2%holding_any.
    eapply post_bind; [by apply (keeps_in_volume _ _ (λ v, vo_rootfs v = Some bytes) _ W2)|]. intros ? l3 ? W3.
    eapply post_mono; [by apply keeps_check|done|]. by intros _ ? _ ->. }
  intros ? l2 ? W2%holding_any.
  eapply post_bind; [by apply (keeps_in_volume _ _ (λ v, vo_rootfs v = Some bytes ∧ vo_bytes_durable v = true) _ W2)|].
  intros ? l3 ? W3%holding_any.
  eapply post_bind; [by apply (keeps_in_volume _ _
    (λ v, vo_rootfs v = Some bytes ∧ vo_bytes_durable v = true ∧ vo_entry_durable v = true) _ W3); intros ? []|].
  intros ? l4 ? (vs & v & -> & Hv & HP).
  set (K := λ l, at_old (Some j) r l ∧ staged_as (l_dir l) ∧ l_volumes l !! u = Some v).
  assert (HK : stable K).
  { destruct (stable_at_old (Some j) r) as [H1' H2' H3']. split.
    - intros l [Hl _]. by apply H1'.
    - intros l f Hf (Hl & Hs & Hv'). split_and!; [by apply H2'|exact (staged_plain _ _ (Hf _) Hs)|done].
    - intros l (Hl & Hs & Hv'). split_and!; [by apply H3'|done..]. }
  apply (keeps_write _ K (at_ready staged_as u r)); [done|apply stable_at_ready, staged_plain| |].
  - intros l f (([Ho Hu]%Forall_cons & Hj & Hr) & Hs & Hv') Hf.
    assert (Hfill : filled u (change f l)) by by exists v.
    specialize (Hf (l_dir l)). split_and!; cbn.
    + destruct Hs as (Hs1 & Hs2 & _). exists (set_Ready j), id. destruct (f (l_dir l)), (l_dir l). injection Hf as -> -> -> ->.
      split_and!; try done; [by right|]. intros _. by destruct Ho as (? & ? & _).
    + constructor; [by left|]. eapply Forall_impl; [exact Hu|]. by left.
    + done.
    + eapply staged_plain; [exact Hf|]. destruct Hs as (Hs1 & Hs2 & _). split_and!; [done..|]. by intros ? [= <-].
  - split; [exact Hold|]. split; [|done]. split_and!; [done..|]. intros j' Hj'. destruct Hold as (_ & Hj & _). cbn in Hj'. congruence.
Qed.
End fill.

(** *** It is published *)

Definition published (d : Dir) : Prop := is_Some (d_disk d).
Lemma published_plain : plain published.
Proof. intros [] []. unfold published. cbn. by intros [= -> -> -> ->]. Qed.

Lemma keeps_rename op u r l :
  at_ready (λ d, d_disk d = None ∧ is_Some (stage op d) ∧ ∀ j, d_journal d = Some j → dm_Operation j = op) u r l →
  wp (do_change (λ d, set_disk (stage op d) (set_stages (delete op (d_stages d)) d));; SyncDir)
    (post inv (λ _ l', at_ready published u r l')) l.
Proof.
  intros (H & Hu & Hr & Hnone & Hst & Hop). pose proof (stable_at_ready published u r published_plain) as HK.
  assert (H1 : at_ready published u r
    (change (λ d, set_disk (stage op d) (set_stages (delete op (d_stages d)) d)) l)).
  { split_and!; [|by constructor; [right|]|done|done].
    destruct H as (j & id & Hj & Hrd & Hne & Hs & Hid & Hd & Hf & Hl). exists j, id. split_and!; try done.
    left. cbn. rewrite <- (Hop j Hj). destruct Hd as [Hd|[_ Hd]]; [congruence|done]. }
  eapply (post_bind _ _ _ (λ _ l', at_ready published u r l')).
  { eapply post_mono; [apply (post_env inv); [by apply (inv_ready _ u)|by apply (st_inv _ HK)]|done|]. by intros ? ? _ [_ ->]. }
  intros ? l1 ? Hl1. eapply post_mono; [apply (post_env inv); [by apply (st_inv _ HK)|by apply (st_inv _ HK), (st_synced _ HK)]|done|].
  intros ? ? _ [_ ->]. by apply (st_synced _ HK).
Qed.

Lemma keeps_publish j r l :
  inv l → d_journal (l_dir l) = Some j → l_row l = r →
  wp (publish j) (post inv (λ _ l', ∃ u, at_ready published u r l')) l.
Proof.
  intros Hl Hj Hrow. unfold publish.
  eapply post_bind; [by apply keeps_look|]. intros there ? _ [-> [= <-]]. cbv zeta.
  eapply post_bind; [by apply keeps_look|]. intros id ? _ [-> Hid].
  eapply post_bind; [by apply keeps_require|]. intros _ ? _ [-> [Hu%String.eqb_eq _]%andb_true_iff].
  unfold has in *. case_bool_decide as Hd.
  - eapply post_bind; [by apply keeps_require|]. intros _ ? _ [-> Hrd].
    eapply post_mono; [by apply keeps_look|done|]. intros _ ? _ [-> _].
    destruct (inv_is_ready l j Hl Hj Hrd) as (u & (H1 & H2 & H3 & _) & _). exists u. by rewrite <- Hrow.
  - assert (Hnone : d_disk (l_dir l) = None) by (destruct (d_disk (l_dir l)); [by destruct Hd; eexists|done]).
    assert (Hst : stage (dm_Operation j) (l_dir l) = Some id ∧ sv_UUID id ≠ "").
    { destruct (stage _ _) as [id'|]; [|done]. destruct (String.eqb_spec (sv_UUID id') ""); [done|]. by injection Hid as <-. }
    destruct Hst as [Hst Hne].
    assert (Hren : ∀ l1 u, at_ready (λ d, d_disk d = None ∧ is_Some (stage (dm_Operation j) d) ∧
          ∀ j', d_journal d = Some j' → dm_Operation j' = dm_Operation j) u r l1 →
      wp (do_change (λ d, set_disk (stage (dm_Operation j) d) (set_stages (delete (dm_Operation j) (d_stages d)) d));; SyncDir)
        (post inv (λ _ l', ∃ u, at_ready published u r l')) l1).
    { intros l1 u H1. eapply post_mono; [by apply (keeps_rename _ u r)|done|]. intros ? l2 ? H2. by exists u. }
    destruct (dm_Ready j) eqn:Hrd.
    + destruct (inv_is_ready l j Hl Hj Hrd) as (u & (H1 & H2 & H3 & _) & _).
      eapply post_bind; [by apply post_ret with (P := λ _ l', l' = l)|]. intros _ ? _ ->.
      apply (Hren _ u). split_and!; [done..|congruence|done|by exists id|]. intros j' Hj'. congruence.
    + pose proof (inv_not_ready l j Hl Hj Hrd) as Hold. rewrite Hrow in Hold.
      eapply post_bind; [by apply (keeps_fill j r id l)|]. intros ? l1 ? (H1 & H2 & H3 & Hn1 & Hs1 & Hop).
      apply (Hren _ (sv_UUID id)). split_and!; [done..|by exists id|done].
Qed.


(** *** The record follows *)

(** What a move that ends leaves. *)
Definition moved (r : Instance) (l : Layout) : Prop :=
  l_row l = r ∧ RootFSPath r = canonical ∧ d_legacy (l_dir l) = None ∧ d_journal (l_dir l) = None ∧
  ∃ id, d_disk (l_dir l) = Some id ∧ filled (sv_UUID id) l.

Definition no_legacy (d : Dir) : Prop := d_legacy d = None.
Lemma no_legacy_plain : plain no_legacy.
Proof. intros [] []. unfold no_legacy. cbn. by intros [= -> -> -> ->]. Qed.

Lemma moved_done u r l : at_done no_legacy u r l → moved r l.
Proof.
  intros ((Hj & (id & Hid & Hu) & Hf & Hc) & _ & Hr & Hl). split_and!; [done|by rewrite <- Hr|done|done|].
  exists id. by rewrite Hu.
Qed.

(** With the record at the new path, the old file is not needed. *)
Lemma ready_canonical u l : RootFSPath (l_row l) = canonical → ∀ d, ready u l d → ready u l (set_legacy None d).
Proof. intros Hc d (j & id & H). exists j, id. by destruct H as (?&?&?&?&?&?&?&?); split_and!. Qed.

Lemma canonical_path now inst : RootFSPath (set_UpdatedAt now (set_RootFSPath canonical inst)) = canonical.
Proof. by destruct inst. Qed.

Lemma keeps_row now u inst l :
  at_ready published u inst l →
  wp (if String.eqb (RootFSPath inst) canonical then mret inst else
      env (λ l, (inl tt, set_row (set_UpdatedAt now (set_RootFSPath canonical inst)) l));;
      mret (set_UpdatedAt now (set_RootFSPath canonical inst)))
    (post inv (λ r l', at_ready published u r l' ∧ RootFSPath r = canonical)) l.
Proof.
  intros Hl. assert (Hi : inv l) by by apply (st_inv _ (stable_at_ready published u inst published_plain)).
  destruct (String.eqb_spec (RootFSPath inst) canonical) as [Hc|Hc]; [by apply post_ret|].
  set (r := set_UpdatedAt _ _). assert (Hr : RootFSPath r = canonical) by apply canonical_path.
  assert (H1 : at_ready published u r (set_row r l)).
  { destruct Hl as (H & Hu & _ & Hd).
    assert (Hrd : ∀ d, ready u l d → ready u (set_row r l) d).
    { intros d (j & id & H'). exists j, id. destruct H' as (?&?&?&?&?&?&?&?). by split_and!. }
    split_and!; [by apply Hrd| |done|done]. eapply Forall_impl; [exact Hu|]. intros d [H'|H']; [by left|right; by apply Hrd]. }
  eapply (post_bind _ _ _ (λ _ l', at_ready published u r l')); [|intros ? l' ? H'; by apply post_ret].
  eapply post_mono; [apply (post_env inv); [done|]|done|].
  - by apply (st_inv _ (stable_at_ready published u r published_plain)).
  - by intros ? ? _ [_ ->].
Qed.

Lemma keeps_commit now u inst l :
  at_ready published u inst l → wp (commit dir now inst) (post inv (λ r l', moved r l')) l.
Proof.
  intros Hl. unfold commit. assert (Hi : inv l) by by apply (st_inv _ (stable_at_ready published u inst published_plain)).
  eapply post_bind; [by apply keeps_query|]. intros _ ? _ [-> _].
  eapply post_bind; [by apply (keeps_row now u)|]. intros r l1 Hi1 [H1 Hc].
  set (D := λ d, published d ∧ no_legacy d).
  assert (HD : plain D).
  { intros d d' Heq [Hp Hn]. split; [by eapply published_plain|by eapply no_legacy_plain]. }
  pose proof (stable_at_ready D u r HD) as HK.
  eapply (post_bind _ _ _ (λ _ l', at_ready D u r l')).
  { assert (H2 : at_ready D u r (change (set_legacy None) l1)).
    { destruct H1 as (H & Hu & Hr & Hd). split; [|split; [by constructor; [right|]|done]].
      apply (ready_canonical u (change (set_legacy None) l1)); [by cbn; rewrite Hr|exact H]. }
    eapply post_mono; [apply (post_env inv); [done|by apply (st_inv _ HK)]|done|]. by intros ? ? _ [_ ->]. }
  intros ? l2 ? H2. eapply (post_bind _ _ _ (λ _ l', at_ready D u r l' ∧ l_undo l' = [])).
  { eapply post_mono; [apply (post_env inv); [done|by apply (st_inv _ HK), (st_synced _ HK)]|done|].
    intros ? ? _ [_ ->]. split; [by apply (st_synced _ HK)|done]. }
  intros ? l3 ? [H3 Hundo]. pose proof (stable_at_done no_legacy u r no_legacy_plain) as HK'.
  eapply (post_bind _ _ _ (λ _ l', at_done no_legacy u r l')).
  { assert (H4 : at_done no_legacy u r (change (set_journal None) l3)).
    { destruct H3 as (Hrdy & Hu & Hr & [id Hid] & Hn).
      assert (Hd : done_ u (change (set_journal None) l3) (l_dir (change (set_journal None) l3))).
      { pose proof Hrdy as (j & id' & _ & _ & _ & _ & Hid' & Hd & Hf & _). split_and!; [done| |done|by cbn; rewrite Hr].
        exists id. split; [done|]. destruct Hd as [Hd|[Hd _]]; congruence. }
      split; [exact Hd|]. split; [|done]. cbn. rewrite Hundo. constructor; [by left|constructor]. }
    eapply post_mono; [apply (post_env inv); [done|by apply (st_inv _ HK')]|done|]. by intros ? ? _ [_ ->]. }
  intros ? l4 ? H4. eapply post_bind; [by apply (keeps_cleanup _ _ HK')|]. intros ? l5 Hi5 [Hdone _].
  apply post_ret; [done|by eapply moved_done].
Qed.

Lemma keeps_settled inst l :
  inv l → d_journal (l_dir l) = None → l_row l = inst → RootFSPath inst = canonical →
  wp settled (post inv (λ _ l', moved inst l')) l.
Proof.
  intros Hi Hj Hrow Hc. unfold settled.
  eapply post_bind; [by apply keeps_look|]. intros _ ? _ [-> _].
  eapply post_bind; [by apply keeps_look|]. intros ? ? _ [-> Hleg].
  assert (Hnone : d_legacy (l_dir l) = None).
  { unfold has in Hleg. case_bool_decide as H; [done|]. destruct (d_legacy (l_dir l)); [by destruct H; eexists|done]. }
  eapply post_bind; [by apply keeps_query|]. intros _ ? _ [-> _].
  assert (H1 : ∃ u, at_done no_legacy u inst l).
  { destruct (inv_no_journal l Hi Hj) as [([Ho _]%Forall_cons & _)|(u & H & Hu & Hr & _)].
    - destruct Ho as [[? Ho] _]. congruence.
    - exists u. split_and!; [done..|congruence|done]. }
  destruct H1 as [u H1]. pose proof (stable_at_done no_legacy u inst no_legacy_plain) as HK.
  eapply post_mono; [by apply (keeps_cleanup _ _ HK)|done|]. intros ? l' ? [H' _]. by eapply moved_done.
Qed.

Lemma keeps_runtime inst l : inv l → wp (runtime_proof inst) (post inv (λ _ l', l' = l)) l.
Proof.
  intros Hi. unfold runtime_proof. case_match; [by apply keeps_check|].
  eapply post_bind; [by apply keeps_require|]. intros _ ? _ [-> _]. by apply keeps_check.
Qed.

Lemma keeps_ensure now operation l :
  inv l →
  wp (ensureDiskLayout dir uuid_Parse new_identity now operation (l_row l)) (post inv moved) l.
Proof.
  intros Hi. unfold ensureDiskLayout. do 2 (eapply post_bind; [by apply keeps_check|]; intros _ ? _ ->).
  eapply post_bind; [by apply keeps_look|]. intros journal ? _ [-> [= <-]].
  destruct (bool_decide _ && _) eqn:Hs.
  - apply andb_true_iff in Hs as [Hj%bool_decide_eq_true Hc%String.eqb_eq].
    eapply post_bind; [by apply (keeps_settled (l_row l))|]. intros ? l1 Hi1 H1. by apply post_ret.
  - eapply post_bind; [by apply keeps_require|]. intros _ ? _ [-> _].
    eapply post_bind; [by apply keeps_runtime|]. intros _ ? _ ->.
    eapply post_bind; [by apply keeps_open|]. intros j l1 Hi1 [Hj1 Hr1].
    eapply post_bind; [by apply keeps_require|]. intros _ ? _ [-> _].
    eapply post_bind; [by apply keeps_check_legacy|]. intros _ ? _ ->.
    eapply post_bind; [by apply keeps_identify|]. intros j2 l2 Hi2 [Hj2 Hr2].
    eapply post_bind; [by apply keeps_publish|]. intros _ l3 Hi3 [u H3]. by eapply keeps_commit.
Qed.

End spec.

(** ** The disk over time *)

Section history.
Context (dir : string) (uuid_Parse : string → option string) (new_identity : Layout → SubvolumeIdentity).

#[local] Abbreviation canonical := (canonical dir).
#[local] Abbreviation legacy := (legacy dir).
#[local] Abbreviation ensure := (ensureDiskLayout dir uuid_Parse new_identity).

(** What a volume may be after a power loss: what was not synced may be anything. *)
Definition survives (v v' : volume) : Prop :=
  vo_bytes_durable v' = true ∧ vo_entry_durable v' = true ∧
  (vo_bytes_durable v = true → vo_entry_durable v = true → vo_rootfs v' = vo_rootfs v).

Definition power_loss (l l' : Layout) : Prop :=
  ∃ d vs, d ∈ l_dir l :: l_undo l ∧ (∀ u v, l_volumes l !! u = Some v → ∃ v', vs !! u = Some v' ∧ survives v v') ∧
    l' = mkLayout (l_row l) d [] (l_legacy l) (l_legacy_subvolume l) vs.

(** The guest, or an offline change, writes the disk the record names. *)
Definition write_disk (b : string) (l : Layout) : option Layout :=
  if String.eqb (RootFSPath (l_row l)) legacy then
    if has d_legacy (l_dir l) then Some (set_legacy_bytes b l) else None
  else if String.eqb (RootFSPath (l_row l)) canonical then
    id ← d_disk (l_dir l);
    v ← l_volumes l !! sv_UUID id;
    Some (set_volumes (<[sv_UUID id := mkVolume (Some b) true true (vo_others v)]> (l_volumes l)) l)
  else None.

(** The directory of an instance, and the bytes the guest has left on its disk. *)
Inductive layout_step : Layout * string → Layout * string → Prop :=
  | layout_move now op fs l b : layout_step (l, b) ((ensure now op (l_row l) fs l).1.2, b)
  | layout_power l l' b : power_loss l l' → layout_step (l, b) (l', b)
  | layout_write fs l l' b b' : (diskMutationFence fs l).1.1 = Ok tt → write_disk b' l = Some l' →
      layout_step (l, b) (l', b')
  (* other commands change the record, but not its path *)
  | layout_record r l b : RootFSPath r = RootFSPath (l_row l) → layout_step (l, b) (set_row r l, b).

Definition layout_initial (lb : Layout * string) : Prop :=
  let '(l, b) := lb in
  l_undo l = [] ∧ d_journal (l_dir l) = None ∧
  ((RootFSPath (l_row l) = legacy ∧ is_Some (d_legacy (l_dir l)) ∧ d_disk (l_dir l) = None ∧ l_legacy l = b) ∨
   (RootFSPath (l_row l) = canonical ∧ ∃ id, d_disk (l_dir l) = Some id ∧ filled b (sv_UUID id) l)).

Definition layout_reachable (lb : Layout * string) : Prop := ∃ lb0, layout_initial lb0 ∧ rtc layout_step lb0 lb.

#[local] Abbreviation invariant lb := (inv dir lb.2 lb.1).

Lemma layout_initial_inv lb : layout_initial lb → invariant lb.
Proof.
  destruct lb as [l b]. intros (Hu & Hj & [(Hp & Hl & Hd & Hb)|(Hp & id & Hid & Hf)]); cbn.
  - apply inv_old. rewrite Hu. apply Forall_singleton. split_and!; [done..|congruence].
  - apply (inv_done _ _ _ (sv_UUID id)); [|by rewrite Hu]. split_and!; [done|by exists id|done|done].
Qed.

(** *** A power loss *)

Lemma filled_survives b u l l' : power_loss l l' → filled b u l → filled b u l'.
Proof.
  intros (d & vs & _ & Hvs & ->) (v & Hv & Hr & Hb & He). destruct (Hvs u v Hv) as (v' & Hv' & Hb' & He' & Hs).
  exists v'. split_and!; [done| |done..]. by rewrite Hs.
Qed.

Lemma old_survives b l l' d : power_loss l l' → old b l d → old b l' d.
Proof. by intros (d' & vs & _ & _ & ->). Qed.

Lemma ready_survives b u l l' d : power_loss l l' → ready dir b u l d → ready dir b u l' d.
Proof.
  intros Hp (j & id & H1 & H2 & H3 & H4 & H5 & H6 & H7 & H8). exists j, id.
  pose proof (filled_survives b u l l' Hp H7). destruct Hp as (d' & vs & _ & _ & ->). by split_and!.
Qed.

Lemma done_survives b u l l' d : power_loss l l' → done_ dir b u l d → done_ dir b u l' d.
Proof.
  intros Hp (H1 & H2 & H3 & H4). pose proof (filled_survives b u l l' Hp H3).
  destruct Hp as (d' & vs & _ & _ & ->). by split_and!.
Qed.

Lemma power_inv l l' b : power_loss l l' → inv dir b l → inv dir b l'.
Proof.
  intros Hp Hl. pose proof Hp as (d & vs & Hd & _ & Heq).
  assert (Hdir : l_dir l' = d ∧ l_undo l' = []) by by subst l'. destruct Hdir as [Hdir Hundo].
  assert (Hold : old b l d → inv dir b l').
  { intros Ho. apply inv_old. rewrite Hdir, Hundo. apply Forall_singleton. by eapply old_survives. }
  assert (Hready : ∀ u, ready dir b u l d → inv dir b l').
  { intros u Hr. apply (inv_ready _ _ _ u); [rewrite Hdir; by eapply ready_survives|by rewrite Hundo]. }
  assert (Hdone : ∀ u, done_ dir b u l d → inv dir b l').
  { intros u Hr. apply (inv_done _ _ _ u); [rewrite Hdir; by eapply done_survives|by rewrite Hundo]. }
  destruct Hl as [H|u H Hu|u H Hu].
  - rewrite Forall_forall in H. auto.
  - apply elem_of_cons in Hd as [->|Hd]; [by eapply Hready|]. rewrite Forall_forall in Hu.
    destruct (Hu d Hd) as [?|?]; eauto.
  - apply elem_of_cons in Hd as [->|Hd]; [by eapply Hdone|]. rewrite Forall_forall in Hu.
    destruct (Hu d Hd) as [?|?]; eauto.
Qed.

(** *** A write *)

Lemma fence_journal fs l : (diskMutationFence fs l).1.1 = Ok tt → d_journal (l_dir l) = None.
Proof.
  assert (H : wp diskMutationFence (λ o l', o = Ok tt → d_journal (l_dir l) = None) l); [|by apply H].
  unfold diskMutationFence, check. apply wp_bind, wp_query; [done..|]. apply wp_bind, wp_query; [done..|].
  unfold has. case_bool_decide as Hj; cbn; [done|].
  assert (Hn : d_journal (l_dir l) = None) by (destruct (d_journal (l_dir l)); [by destruct Hj; eexists|done]).
  by apply wp_query.
Qed.

Lemma write_inv l l' b b' :
  d_journal (l_dir l) = None → write_disk b' l = Some l' → inv dir b l → inv dir b' l'.
Proof.
  intros Hj Hw Hl. unfold write_disk in Hw. destruct (inv_no_journal dir b l Hl Hj) as [(H & _)|(u & H & Hu & _)].
  - destruct (String.eqb_spec (RootFSPath (l_row l)) legacy) as [_|_].
    + destruct (has _ _); [|done]. injection Hw as <-. apply inv_old.
      eapply Forall_impl; [exact H|]. intros d (H1 & _ & H3 & H4). by split_and!.
    + apply Forall_cons in H as [(_ & _ & Hd & _) _]. case_match; [|done]. by rewrite Hd in Hw.
  - destruct H as (H1 & (id & Hid & Hui) & H3 & Hc). rewrite Hc in Hw.
    destruct (String.eqb_spec canonical legacy) as [Heq|_].
    { unfold DiskLayout.canonical, DiskLayout.legacy in Heq. by apply append_inj in Heq. }
    rewrite String.eqb_refl, Hid in Hw. cbn in Hw. destruct (l_volumes l !! sv_UUID id) as [v|] eqn:Hv; [|done].
    injection Hw as <-. rewrite Hui. set (l' := set_volumes _ _).
    assert (Hf : filled b' u l') by (eexists; split; [apply lookup_insert_eq|done]).
    apply (inv_done _ _ _ u); [split_and!; [done|by exists id|done|done]|].
    eapply Forall_impl; [exact Hu|]. intros d [(j & id' & Q1 & Q2 & Q3 & Q4 & Q5 & Q6 & _)|(Q1 & Q2 & _)].
    + left. exists j, id'. split_and!; [done..|]. intros Hne. by destruct Hne.
    + right. by split_and!.
Qed.

Lemma record_inv l b r : RootFSPath r = RootFSPath (l_row l) → inv dir b l → inv dir b (set_row r l).
Proof.
  intros Hr Hl.
  assert (Hrd : ∀ u d, ready dir b u l d → ready dir b u (set_row r l) d).
  { intros u d (j & id & Q). exists j, id. cbn. by rewrite Hr. }
  assert (Hdn : ∀ u d, done_ dir b u l d → done_ dir b u (set_row r l) d).
  { intros u d (Q1 & Q2 & Q3 & Q4). split_and!; try done. cbn. by rewrite Hr. }
  destruct Hl as [H|u H Hu|u H Hu]; [by apply inv_old|apply (inv_ready _ _ _ u)|apply (inv_done _ _ _ u)]; auto;
    (eapply Forall_impl; [exact Hu|]); intros d [?|?]; auto.
Qed.

Lemma layout_step_inv lb lb' : layout_step lb lb' → invariant lb → invariant lb'.
Proof.
  intros [now op fs l b|l l' b Hp|fs l l' b b' Hf Hw|r l b Hr] Hl; cbn in *.
  - destruct (keeps_ensure dir uuid_Parse new_identity b now op l Hl fs) as [H _]. exact H.
  - by eapply power_inv.
  - eapply write_inv; [by eapply fence_journal|done..].
  - by apply record_inv.
Qed.

Lemma layout_reachable_inv lb : layout_reachable lb → invariant lb.
Proof.
  intros (lb0 & H0%layout_initial_inv & Hs). revert H0.
  induction Hs as [lb|lb1 lb2 lb3 H1 _ IH]; intros H; [exact H|]. by apply IH, (layout_step_inv lb1).
Qed.

(** ** What is promised *)

(** The bytes are in the old file, or in the volume of the new disk, published or staged
    by a ready journal. *)
Definition kept (b : string) (l : Layout) : Prop :=
  (is_Some (d_legacy (l_dir l)) ∧ d_disk (l_dir l) = None ∧ l_legacy l = b) ∨
  ∃ id, filled b (sv_UUID id) l ∧
    (d_disk (l_dir l) = Some id ∨
     ∃ j, d_journal (l_dir l) = Some j ∧ dm_Ready j = true ∧ stage (dm_Operation j) (l_dir l) = Some id).

(** C9. No byte of the disk is lost, whatever calls fail, processes die and power goes
    between them; and the old file is gone only when the record names the new disk. *)
Theorem layout_keeps_bytes l b :
  layout_reachable (l, b) →
  kept b l ∧ (d_legacy (l_dir l) = None → RootFSPath (l_row l) = canonical).
Proof.
  intros [[H _]%Forall_cons|u H _|u H _]%layout_reachable_inv; cbn in *.
  - destruct H as (H1 & H2 & H3 & _). split; [by left|]. intros Hn. rewrite Hn in H1. by destruct H1.
  - destruct H as (j & id & Hj & Hr & _ & _ & Hid & Hd & Hf & Hl). split.
    + right. exists id. rewrite Hid. split; [done|]. destruct Hd as [Hd|[_ Hd]]; [by left|right]. by exists j.
    + intros Hn. destruct (decide (RootFSPath (l_row l) = canonical)) as [|Hne]; [done|].
      destruct (Hl Hne) as [[x Hx] _]. congruence.
  - destruct H as (Hj & (id & Hd & Hid) & Hf & Hc). split; [|done]. right. exists id. rewrite Hid. split; [done|by left].
Qed.

(** A move that succeeds leaves the record at the new disk, which durably holds what the
    guest wrote, and nothing of the old one. *)
Theorem layout_moved now op fs l b r l' fs' :
  layout_reachable (l, b) → ensure now op (l_row l) fs l = (Ok r, l', fs') → moved dir b r l'.
Proof.
  intros Hl%layout_reachable_inv He. cbn in Hl.
  destruct (keeps_ensure dir uuid_Parse new_identity b now op l Hl fs) as [_ H]. rewrite He in H. by apply H.
Qed.
End history.
