(* ===== verification/DiskLayoutLive.v ===== *)
(** * A move can always be finished

    Whatever calls failed and wherever processes died in earlier attempts, an attempt
    during which nothing fails succeeds.  (After a power loss in the middle of a failing
    sync the code may ask for an operator instead; DiskLayoutSpec.v shows that the bytes
    are kept even then.) *)
From S2P Require Import Prelude GoStrings Timestamps Model StoreDemo InstanceSpec RunnerState DiskLayout.
From S2P Require Import DiskLayoutSpec.
From stdpp Require Import relations.

#[local] Open Scope Z_scope.

(** ** Programs that keep an invariant and, undisturbed, succeed *)

Section total.
Context {S : Type} (I : S → Prop).

Definition total {A} (m : M S A) (P : A → S → Prop) (s : S) : Prop :=
  wp m (post I P) s ∧ ∃ a s', m [] s = (Ok a, s', []).

Lemma total_ret {A} (a : A) (P : A → S → Prop) s : I s → P a s → total (mret a) P s.
Proof. intros. split; [by apply post_ret|by exists a, s]. Qed.

Lemma total_bind {A B} (m : M S A) (k : A → M S B) (P : A → S → Prop) (P' : B → S → Prop) s :
  total m P s → (∀ a s', I s' → P a s' → total (k a) P' s') → total (m ≫= k) P' s.
Proof.
  intros [Hm (a & s1 & Ha)] Hk. split.
  - eapply post_bind; [exact Hm|]. intros a' s' HI HP. exact (proj1 (Hk a' s' HI HP)).
  - pose proof (Hm []) as H. rewrite Ha in H. destruct H as [HI HP].
    destruct (Hk a s1 HI (HP a eq_refl)) as [_ (b & s2 & Hb)]. exists b, s2.
    unfold mbind, M_bind. by rewrite Ha.
Qed.

Lemma total_env {A} (f : S → result A * S) a (P : A → S → Prop) s :
  (f s).1 = inl a → I s → I (f s).2 → P a (f s).2 → total (env f) P s.
Proof.
  intros Ha HI HI' HP. split.
  - eapply post_mono; [by apply (post_env I)|done|]. intros a' s' _ [Ha' ->].
    rewrite Ha in Ha'. by injection Ha' as <-.
  - exists a, (f s).2. unfold env. destruct (f s) as [r s']. cbn in *. by subst r.
Qed.

Lemma total_query {A} (f : S → result A) a (P : A → S → Prop) s : f s = inl a → I s → P a s → total (query f) P s.
Proof. intros. by apply (total_env _ a). Qed.

Lemma total_require b e s : b = true → I s → total (require b e) (λ _ s', s' = s) s.
Proof. intros -> HI. by apply total_ret. Qed.

Lemma total_mono {A} (m : M S A) (P P' : A → S → Prop) s :
  total m P s → (∀ a s', I s' → P a s' → P' a s') → total m P' s.
Proof. intros [Hm Ha] HP. split; [|done]. by eapply post_mono. Qed.

Lemma total_for_each {A} (f : A → M S unit) (J : S → Prop) l s :
  (∀ s, J s → I s) → J s → (∀ x s, x ∈ l → J s → total (f x) (λ _ s', J s') s) →
  total (for_each f l) (λ _ s', J s') s.
Proof.
  intros HJ. revert s. induction l as [|x l IH]; intros s Hs Hf; cbn; [by apply total_ret; [apply HJ|]|].
  eapply (total_bind _ _ (λ _ s', J s')); [by apply Hf; [left|]|]. intros ? s1 ? Hs1. apply IH; [done|].
  intros y s2 Hy. apply Hf. by right.
Qed.
End total.

Lemma total_finally {S} (I : S → Prop) {A} (m : M S A) c (P : A → S → Prop) s :
  total I m P s → (∀ s', I s' → wp c (λ _ s'', I s'') s') →
  (∀ a s', I s' → P a s' → wp c (λ _ s'', P a s'') s' ∧ ∃ r s'', c [] s' = (r, s'', []) ∧ r ≠ Crashed) →
  total I (finally m c) P s.
Proof.
  intros [Hm (a & s1 & Ha)] Hc HP. split.
  - eapply post_finally; [exact Hm|done|]. intros a' s' ? ?. by apply HP.
  - pose proof (Hm []) as H. rewrite Ha in H. destruct H as [HI HPa].
    destruct (HP a s1 HI (HPa a eq_refl)) as [_ (r & s2 & Hr & Hne)]. exists a, s2.
    unfold finally. rewrite Ha, Hr. by destruct r.
Qed.

Section live.
Context (dir : string) (uuid_Parse : string → option string) (new_identity : Layout → SubvolumeIdentity).
(** btrfs gives a subvolume a UUID. *)
Context (identified : ∀ l, sv_UUID (new_identity l) ≠ "").

#[local] Abbreviation canonical := (canonical dir).
#[local] Abbreviation legacy := (legacy dir).

(** ** The phases of a move *)

Definition good (l : Layout) (j : diskMigration) : Prop :=
  dm_Version j = 1 ∧ dm_InstanceID j = ID (l_row l) ∧
  sv_UUID (dm_LegacySubvolume j) = sv_UUID (l_legacy_subvolume l) ∧
  sv_ID (dm_LegacySubvolume j) = sv_ID (l_legacy_subvolume l) ∧
  dm_LegacyInode j ≠ 0 ∧ is_Some (uuid_Parse (dm_Operation j)).

Definition legacy_ok (j : diskMigration) (d : Dir) : Prop :=
  ∃ st, d_legacy d = Some st ∧ lf_regular st = true ∧ lf_inode st = dm_LegacyInode j.

Definition full (id : SubvolumeIdentity) (l : Layout) : Prop :=
  ∃ v b, l_volumes l !! sv_UUID id = Some v ∧ vo_rootfs v = Some b ∧ b ≠ "" ∧ vo_others v = 0%nat.

Definition unstaged (op : string) (l : Layout) : Prop :=
  d_stages (l_dir l) = ∅ ∨
  ∃ id v, d_stages (l_dir l) = {[op := id]} ∧ sv_UUID id ≠ "" ∧ l_volumes l !! sv_UUID id = Some v ∧ entries v = 0%nat.

Record in_stage (j : diskMigration) (id : SubvolumeIdentity) (l : Layout) : Prop := {
  is_path : RootFSPath (l_row l) = legacy;
  is_journal : d_journal (l_dir l) = Some j;
  is_good : good l j;
  is_legacy : legacy_ok j (l_dir l);
  is_disk : d_disk (l_dir l) = None;
  is_stages : d_stages (l_dir l) = {[dm_Operation j := id]};
  is_id : dm_Subvolume j = id;
  is_named : sv_UUID id ≠ "";
}.

Record published (j : diskMigration) (id : SubvolumeIdentity) (l : Layout) : Prop := {
  pb_journal : d_journal (l_dir l) = Some j;
  pb_good : good l j;
  pb_ready : dm_Ready j = true;
  pb_id : dm_Subvolume j = id;
  pb_named : sv_UUID id ≠ "";
  pb_disk : d_disk (l_dir l) = Some id;
  pb_stages : d_stages (l_dir l) = ∅;
  pb_full : full id l;
}.

Inductive phase (l : Layout) : Prop :=
  | ph_new st : RootFSPath (l_row l) = legacy → d_journal (l_dir l) = None → d_legacy (l_dir l) = Some st →
      lf_regular st = true → lf_inode st ≠ 0 → d_disk (l_dir l) = None → d_stages (l_dir l) = ∅ → phase l
  | ph_open j : RootFSPath (l_row l) = legacy → d_journal (l_dir l) = Some j → good l j → dm_Ready j = false →
      sv_UUID (dm_Subvolume j) = "" → legacy_ok j (l_dir l) → d_disk (l_dir l) = None →
      unstaged (dm_Operation j) l → phase l
  | ph_staged j id v : in_stage j id l → dm_Ready j = false → l_volumes l !! sv_UUID id = Some v →
      vo_others v = 0%nat → phase l
  | ph_ready j id : in_stage j id l → dm_Ready j = true → full id l → phase l
  | ph_published j id : published j id l →
      RootFSPath (l_row l) = legacy ∧ legacy_ok j (l_dir l) ∨
      RootFSPath (l_row l) = canonical ∧ (legacy_ok j (l_dir l) ∨ d_legacy (l_dir l) = None) → phase l
  | ph_done id : RootFSPath (l_row l) = canonical → d_journal (l_dir l) = None → d_disk (l_dir l) = Some id →
      d_stages (l_dir l) = ∅ → full id l → d_legacy (l_dir l) = None → phase l.

(** What lies around, and never changes for the worse. *)
Record ambient (l : Layout) : Prop := {
  am_temps : map_Forall (λ _ regular, regular = true) (d_temps (l_dir l));
  am_legacy : l_legacy l ≠ "";
  am_subvolume : sv_UUID (l_legacy_subvolume l) ≠ "" ∧ sv_ID (l_legacy_subvolume l) ≠ "";
}.

Definition live (l : Layout) : Prop := phase l ∧ ambient l.

Lemma core_parts l l' : core l = core l' →
  l_row l = l_row l' ∧ l_legacy l = l_legacy l' ∧ l_legacy_subvolume l = l_legacy_subvolume l' ∧
  l_volumes l = l_volumes l' ∧ d_legacy (l_dir l) = d_legacy (l_dir l') ∧ d_disk (l_dir l) = d_disk (l_dir l') ∧
  d_stages (l_dir l) = d_stages (l_dir l') ∧ d_journal (l_dir l) = d_journal (l_dir l').
Proof. destruct l as [? [] ?], l' as [? [] ?]. unfold core. cbn. intros [= -> -> -> -> -> -> -> ->]. done. Qed.

Lemma phase_core l l' : core l = core l' → phase l → phase l'.
Proof.
  intros (E1 & E2 & E3 & E4 & E5 & E6 & E7 & E8)%core_parts H.
  assert (Hgood : ∀ j, good l j → good l' j) by (intros j; unfold good; by rewrite E1, E3).
  assert (Hleg : ∀ j, legacy_ok j (l_dir l) → legacy_ok j (l_dir l')) by (intros j; unfold legacy_ok; by rewrite E5).
  assert (Hfull : ∀ id, full id l → full id l') by (intros id; unfold full; by rewrite E4).
  assert (His : ∀ j id, in_stage j id l → in_stage j id l').
  { intros j id []. split; rewrite <- ?E1, <- ?E6, <- ?E7, <- ?E8; auto. }
  assert (Hpub : ∀ j id, published j id l → published j id l').
  { intros j id []. split; rewrite <- ?E6, <- ?E7, <- ?E8; auto. }
  destruct H as [st|j|j id v|j id|j id|id].
  - apply (ph_new _ st); congruence.
  - apply (ph_open _ j); try congruence; auto. unfold unstaged in *. by rewrite <- E7, <- E4.
  - apply (ph_staged _ j id v); auto; congruence.
  - by apply (ph_ready _ j id); auto.
  - apply (ph_published _ j id); [auto|]. rewrite <- E1, <- E5. naive_solver.
  - apply (ph_done _ id); try congruence; auto.
Qed.

Lemma live_core l l' :
  core l = core l' → map_Forall (λ _ regular, regular = true) (d_temps (l_dir l')) → live l → live l'.
Proof.
  intros Hc Ht [Hp Ha]. split; [by eapply phase_core|].
  apply core_parts in Hc as (_ & E2 & E3 & _). destruct Ha. split; [done|by rewrite <- E2|by rewrite <- E3].
Qed.

(** ** Calls *)

Lemma total_check l : live l → total live check (λ _ l', l' = l) l.
Proof. intros Hl. by apply (total_query _ _ tt). Qed.

Lemma total_look {A} (f : Dir → result A) a l : f (l_dir l) = inl a → live l → total live (look f) (λ a' l', l' = l ∧ a' = a) l.
Proof. intros Hf Hl. by apply (total_query _ _ a). Qed.

Lemma has_none {A} (entry : Dir → option A) d : entry d = None → has entry d = false.
Proof. unfold has. by intros ->. Qed.
Lemma has_some {A} (entry : Dir → option A) d x : entry d = Some x → has entry d = true.
Proof. unfold has. by intros ->. Qed.

Lemma total_absent e l : e (l_dir l) = false → live l → total live (absent e) (λ _ l', l' = l) l.
Proof. intros He Hl. apply (total_query _ _ tt); [by rewrite He|done|done]. Qed.

Lemma total_change f l : live l → live (change f l) → total live (do_change f) (λ _ l', l' = change f l) l.
Proof. intros Hl Hl'. by apply (total_env _ _ tt). Qed.

Lemma live_synced l : live l → live (set_undo [] l).
Proof. intros Hl. apply (live_core l); [done|by destruct Hl as [_ []]|done]. Qed.

Lemma total_sync l : live l → total live SyncDir (λ _ l', core l' = core l) l.
Proof. intros Hl. by apply (total_env _ _ tt); [|..|apply live_synced|]. Qed.

Lemma live_temps f l :
  temps_only f → map_Forall (λ _ regular, regular = true) (d_temps (f (l_dir l))) → live l → live (change f l).
Proof. intros Hf Ht. apply live_core; [by rewrite core_temps|done]. Qed.

Lemma live_remove n l : live l → live (change (λ d, set_temps (delete n (d_temps d)) d) l).
Proof. intros Hl. apply live_temps; [apply remove_temp_only|apply map_Forall_delete, Hl|done]. Qed.

(** Temporary files go. *)
Lemma total_cleanup l : live l → total live cleanupDiskJournalTemps (λ _ l', core l' = core l) l.
Proof.
  intros Hl. unfold cleanupDiskJournalTemps. set (J := λ l', live l' ∧ core l' = core l).
  assert (HJ : ∀ l', J l' → live l') by by intros ? [].
  eapply total_bind; [by eapply total_look|]. intros ? ? _ [-> ->].
  eapply (total_bind _ _ _ (λ _ l', l' = l)).
  { eapply (total_mono live _ (λ _ l', l' = l ∧ True)); [|by intros ? ? _ []].
    eapply (total_for_each live _ (λ l', l' = l ∧ True)); [by intros ? [-> _]|done|].
    intros [n b] l1 Hin [-> _]. eapply total_bind; [by apply total_check|]. intros _ ? _ ->.
    apply elem_of_map_to_list in Hin. pose proof (am_temps _ (proj2 Hl) n b Hin) as ->. by apply total_ret. }
  intros _ ? _ ->. eapply (total_bind _ _ _ (λ _ l', J l')).
  { apply (total_for_each live _ J); [done..|]. intros p l1 _ [H1 H2].
    eapply total_mono; [apply total_change; [done|by apply live_remove]|]. intros ? ? Hi ->. split; [done|].
    by rewrite core_temps; [|apply remove_temp_only]. }
  intros _ l1 _ [H1 H2]. eapply total_mono; [by apply total_sync|]. intros; congruence.
Qed.

(** A journal is written when the phase allows it. *)
Lemma total_write j l :
  live l → phase (change (set_journal (Some j)) l) →
  total live (writeDiskJournal j) (λ _ l', core l' = core (change (set_journal (Some j)) l)) l.
Proof.
  intros Hl Hp. unfold writeDiskJournal. set (T := core (change _ l)).
  assert (Hin : ∀ n l1, live l1 → live (change (λ d, set_temps (<[n := true]> (d_temps d)) d) l1)).
  { intros n l1 H1. apply live_temps; [by intros []|apply map_Forall_insert_2; [done|apply H1]|done]. }
  eapply (total_bind _ _ _ (λ _ l', core l' = core l)).
  { apply (total_env _ _ (temp_name (l_dir l))); [done..|by apply Hin|]. apply core_temps. by intros []. }
  intros n l1 H1 Hc. apply total_finally.
  - eapply total_bind; [by apply total_check|]. intros _ ? _ ->.
    eapply (total_bind _ _ _ (λ _ l', core l' = T)).
    { assert (E : core (change (λ d, set_journal (Some j) (set_temps (delete n (d_temps d)) d)) l1) = T).
      { apply core_parts in Hc as (E1 & E2 & E3 & E4 & E5 & E6 & E7 & E8). unfold T, core, set_temps. cbn. congruence. }
      eapply total_mono; [apply total_change; [done|]|by intros ? ? _ ->].
      split; [by eapply phase_core|]. destruct H1 as [_ [? ? ?]]. split; [by apply map_Forall_delete|done..]. }
    intros _ l2 H2 Hc2. eapply total_mono; [by apply total_sync|]. intros; congruence.
  - intros l2 H2. apply wp_env; [done..| |]; case_bool_decide; cbn; try done; by apply live_remove.
  - intros [] l2 H2 Hc2. split.
    + apply wp_env; [done..| |]; case_bool_decide; cbn; try done; (rewrite core_temps; [done|apply remove_temp_only]).
    + unfold env. case_bool_decide; by eexists _, _.
Qed.

(** ** The steps of the move *)

Lemma legacy_canonical : legacy ≠ canonical.
Proof. unfold DiskLayout.legacy, DiskLayout.canonical. intros H. by apply append_inj in H. Qed.

Lemma phase_journal l j :
  phase l → d_journal (l_dir l) = Some j →
  good l j ∧ (RootFSPath (l_row l) = legacy ∨ RootFSPath (l_row l) = canonical) ∧
  (legacy_ok j (l_dir l) ∨ d_legacy (l_dir l) = None ∧ RootFSPath (l_row l) = canonical ∧ dm_Ready j = true).
Proof.
  intros [st ? Hn|j' Hp Hj' Hg _ _ Hl|j' id v [Hp Hj' Hg Hl] _ _ _|j' id [Hp Hj' Hg Hl] _ _|
    j' id [Hj' Hg Hr] Hl|id ? Hn] Hj; try congruence; (assert (j' = j) as -> by congruence); naive_solver.
Qed.

Lemma total_open op l :
  live l → is_Some (uuid_Parse op) → (d_journal (l_dir l) = None → RootFSPath (l_row l) = legacy) →
  total live (open_journal dir uuid_Parse op (l_row l) (d_journal (l_dir l)))
    (λ j l', l_row l' = l_row l ∧ d_journal (l_dir l') = Some j) l.
Proof.
  intros Hl Hop Hpath. unfold open_journal. destruct (d_journal (l_dir l)) as [j|] eqn:Hj.
  - destruct (phase_journal l j (proj1 Hl) Hj) as [(G1 & G2 & G3 & G4 & G5 & G6) _].
    pose proof (am_subvolume _ (proj2 Hl)) as [A1 A2].
    eapply total_bind; [apply total_require; [by rewrite G1, G2, String.eqb_refl|done]|]. intros _ ? _ ->.
    eapply total_bind; [apply total_require; [|done]|].
    { apply andb_true_iff; split; [apply andb_true_iff; split; apply nonempty_spec; congruence|].
      by apply negb_true_iff, Z.eqb_neq. }
    intros _ ? _ ->. eapply total_bind; [by apply total_require; [apply bool_decide_eq_true_2|]|]. intros _ ? _ ->.
    by apply total_ret.
  - specialize (Hpath eq_refl). destruct Hl as [Hp Ha]. pose proof Hp as Hp'.
    destruct Hp' as [st _ _ Hst Hreg Hino Hdisk Hstages|? ? Hn|? ? ? [? Hn]|? ? [? Hn]|? ? [Hn]|? Hc]; try congruence;
      [|destruct legacy_canonical; congruence].
    assert (Hl : live l) by done. pose proof (am_subvolume _ Ha) as [A1 A2].
    eapply total_bind; [by apply total_require; [apply String.eqb_eq|]|]. intros _ ? _ ->.
    eapply total_bind; [by apply total_absent; [by apply has_none|]|]. intros _ ? _ ->.
    eapply total_bind; [eapply total_look; [by rewrite Hst|done]|]. intros ? ? _ [-> ->].
    eapply total_bind; [by apply total_require|]. intros _ ? _ ->.
    eapply (total_bind _ _ _ (λ c l', l' = l ∧ c = l_legacy_subvolume l)); [by eapply total_query|]. intros ? ? _ [-> ->].
    eapply total_bind; [apply total_require; [|done]|].
    { apply andb_true_iff; split; by apply nonempty_spec. }
    intros _ ? _ ->. cbv zeta. set (j := mkDiskMigration _ _ _ _ _ _ _).
    assert (Hph : phase (change (set_journal (Some j)) l)).
    { apply (ph_open _ j); try done; [by exists st|by left]. }
    eapply total_bind; [by apply total_write|]. intros ? l1 Hl1 Hc. apply total_ret; [done|].
    by apply core_parts in Hc as (E1 & _ & _ & _ & _ & _ & _ & E8).
Qed.

Lemma total_check_legacy j l :
  live l → d_journal (l_dir l) = Some j → total live (check_legacy dir (l_row l) j) (λ _ l', l' = l) l.
Proof.
  intros Hl Hj. destruct (phase_journal l j (proj1 Hl) Hj) as ((_ & _ & G3 & G4 & _) & _ & H). unfold check_legacy.
  eapply total_bind; [by eapply total_look|]. intros ? ? _ [-> ->].
  destruct H as [(st & -> & Hreg & Hino)|(-> & Hc & Hr)].
  - eapply total_bind; [apply total_require; [by rewrite Hreg, Hino, Z.eqb_refl|done]|]. intros _ ? _ ->.
    eapply (total_bind _ _ _ (λ c l', l' = l ∧ c = l_legacy_subvolume l)); [by eapply total_query|]. intros ? ? _ [-> ->].
    eapply total_bind; [apply total_require; [by rewrite G3, G4, !String.eqb_refl|done]|]. intros _ ? _ ->.
    by apply total_check.
  - apply total_require; [by rewrite Hc, String.eqb_refl, Hr|done].
Qed.

(** The stage, reserved by the journal but not yet recorded in it. *)
Record reserved (j : diskMigration) (l0 l : Layout) : Prop := {
  rv_row : l_row l = l_row l0;
  rv_path : RootFSPath (l_row l) = legacy;
  rv_journal : d_journal (l_dir l) = Some j;
  rv_good : good l j;
  rv_unready : dm_Ready j = false;
  rv_legacy : legacy_ok j (l_dir l);
  rv_disk : d_disk (l_dir l) = None;
}.

Definition holds_stage (j : diskMigration) (l : Layout) : Prop :=
  ∃ id v, d_stages (l_dir l) = {[dm_Operation j := id]} ∧ sv_UUID id ≠ "" ∧
    l_volumes l !! sv_UUID id = Some v ∧ entries v = 0%nat.

Lemma reserved_core j l0 l l' : core l' = core l → reserved j l0 l → reserved j l0 l'.
Proof.
  intros (E1 & E2 & E3 & E4 & E5 & E6 & E7 & E8)%core_parts [].
  split; try congruence; [unfold good in *; by rewrite E1, E3|unfold legacy_ok in *; by rewrite E5].
Qed.

Lemma total_create j l0 l :
  live l → reserved j l0 l → sv_UUID (dm_Subvolume j) = "" → d_stages (l_dir l) = ∅ →
  total live (CreateStage new_identity (dm_Operation j)) (λ _ l', reserved j l0 l' ∧ holds_stage j l') l.
Proof.
  intros Hl Hr Hu Hs. unfold CreateStage. eapply total_bind; [by apply total_check|]. intros ? ? ? ->.
  eapply total_bind; [by apply total_absent; [apply has_none; unfold stage; by rewrite Hs|]|]. intros ? ? ? ->.
  set (id := new_identity l). set (l1 := set_volumes (<[sv_UUID id := mkVolume None true true 0]> (l_volumes l))
                 (change (λ d, set_stages (<[dm_Operation j := id]> (d_stages d)) d) l)).
  assert (H1 : reserved j l0 l1) by by destruct Hr.
  assert (H2 : holds_stage j l1).
  { exists id, (mkVolume None true true 0). split_and!; [cbn; by rewrite Hs|apply identified|apply lookup_insert_eq|done]. }
  assert (Hl1 : live l1).
  { split; [|by destruct Hl as [_ []]]. destruct H1. apply (ph_open _ j); try done. by right. }
  eapply (total_bind _ _ _ (λ _ l', l' = l1)); [by apply (total_env _ _ tt)|]. intros ? ? ? ->.
  eapply total_mono; [by apply total_sync|]. intros ? l2 ? Hc. split; [exact (reserved_core _ _ _ _ Hc H1)|].
  apply core_parts in Hc as (_ & _ & _ & E4 & _ & _ & E7 & _). unfold holds_stage. by rewrite E4, E7.
Qed.

Lemma total_identify j l :
  live l → d_journal (l_dir l) = Some j →
  total live (identify_stage dir new_identity (l_row l) j)
    (λ j' l', l_row l' = l_row l ∧ d_journal (l_dir l') = Some j' ∧ sv_UUID (dm_Subvolume j') ≠ "") l.
Proof.
  intros Hl Hj. unfold identify_stage.
  destruct (nonempty (sv_UUID (dm_Subvolume j))) eqn:Hu; [apply nonempty_spec in Hu; by apply total_ret|].
  assert (Hu' : sv_UUID (dm_Subvolume j) = "") by by apply negb_false_iff, String.eqb_eq in Hu. clear Hu.
  assert (Hr : reserved j l l ∧ unstaged (dm_Operation j) l).
  { destruct (proj1 Hl) as [? ? Hn|j' ? Hj'|j' ? ? [? Hj' ? ? ? ? <- Hne]|j' ? [? Hj' ? ? ? ? <- Hne]|j' ? [Hj' ? ? <- Hne]|? ? Hn];
      try congruence; (assert (j' = j) as -> by congruence); (split; [by split|done]). }
  destruct Hr as [Hr Hs]. pose proof Hr as [_ R2 _ _ _ _ R7].
  eapply total_bind; [by apply total_require; [apply String.eqb_eq|]|]. intros ? ? ? ->.
  eapply total_bind; [by apply total_absent; [by apply has_none|]|]. intros ? ? ? ->.
  eapply total_bind; [by eapply total_look|]. intros ? ? ? [-> ->].
  eapply (total_bind _ _ _ (λ _ l', reserved j l l' ∧ holds_stage j l')).
  { destruct Hs as [Hs|(id & v & Hs & Hid)].
    - rewrite has_none by (unfold stage; by rewrite Hs). by apply total_create.
    - rewrite (has_some _ _ id) by (unfold stage; by rewrite Hs, lookup_singleton_eq).
      apply total_ret; [done|]. split; [done|]. by exists id, v. }
  intros ? l1 Hl1 [Hr1 (id & v & Hst & Hid & Hv & Hn)].
  assert (Hstage : stage (dm_Operation j) (l_dir l1) = Some id) by (unfold stage; by rewrite Hst, lookup_singleton_eq).
  eapply (total_bind _ _ _ (λ n l', l' = l1 ∧ n = 0%nat)).
  { apply (total_query _ _ 0%nat); [by rewrite Hstage, Hv, Hn|done|done]. }
  intros ? ? ? [-> ->]. eapply total_bind; [by apply total_require|]. intros ? ? ? ->.
  eapply (total_bind _ _ _ (λ i l', l' = l1 ∧ i = id)).
  { apply (total_query _ _ id); [|done|done]. rewrite Hstage. by destruct (String.eqb_spec (sv_UUID id) ""). }
  intros ? ? ? [-> ->]. cbv zeta.
  assert (Hph : phase (change (set_journal (Some (set_Subvolume id j))) l1)).
  { destruct Hr1. apply (ph_staged _ (set_Subvolume id j) id v); [by split|done..|].
    unfold entries in Hn. destruct (bool_decide _); lia. }
  eapply total_bind; [by apply total_write|]. intros ? l2 Hl2 Hc. apply total_ret; [done|].
  apply core_parts in Hc as (E1 & _ & _ & _ & _ & _ & _ & E8). split_and!; [|done|done]. by rewrite E1, <- (rv_row _ _ _ Hr1).
Qed.

(** The stage, while it is filled. *)
Record filling (j : diskMigration) (id : SubvolumeIdentity) (l0 : Layout) (v : volume) (l : Layout) : Prop := {
  fi_live : live l;
  fi_row : l_row l = l_row l0;
  fi_stage : in_stage j id l;
  fi_volume : l_volumes l !! sv_UUID id = Some v;
  fi_others : vo_others v = 0%nat;
}.

Lemma total_in_volume f j id l0 v l :
  dm_Ready j = false → filling j id l0 v l → vo_others (f (l_legacy l) v) = 0%nat →
  total live (in_volume id f) (λ _ l', filling j id l0 (f (l_legacy l) v) l' ∧ l_legacy l' = l_legacy l) l.
Proof.
  intros Hr [Hl Hrow Hs Hv Ho] Ho'. set (l1 := set_volumes (<[sv_UUID id := f (l_legacy l) v]> (l_volumes l)) l).
  assert (Hs1 : in_stage j id l1) by by destruct Hs.
  assert (Hv1 : l_volumes l1 !! sv_UUID id = Some (f (l_legacy l) v)) by apply lookup_insert_eq.
  assert (Hl1 : live l1).
  { split; [by eapply ph_staged|by destruct Hl as [_ []]]. }
  apply (total_env _ _ tt); rewrite ?Hv; [done..|]. by split.
Qed.

Lemma total_clone j id l0 v l :
  dm_Ready j = false → filling j id l0 v l →
  total live (clone_into id) (λ _ l', ∃ v', filling j id l0 v' l' ∧ vo_rootfs v' = Some (l_legacy l) ∧ l_legacy l' = l_legacy l) l.
Proof.
  intros Hr Hf. destruct (is_legacy _ _ _ (fi_stage _ _ _ _ _ Hf)) as (st & Hst & _ & _). unfold clone_into.
  eapply total_bind; [eapply total_look; [by rewrite (has_some _ _ st)|apply Hf]|]. intros ? ? ? [-> _].
  eapply total_bind; [eapply total_in_volume; [done|done|by apply Hf]|]. intros ? l1 ? [Hf1 E1].
  eapply total_bind; [eapply total_in_volume; [done|done|by apply Hf]|]. intros ? l2 ? [Hf2 E2].
  eapply total_mono; [by apply total_check|]. intros ? ? ? ->. eexists. split; [exact Hf2|]. cbn. split; congruence.
Qed.

Lemma total_fill j id l v :
  dm_Ready j = false → filling j id l v l →
  total live (fill_stage id j) (λ _ l', l_row l' = l_row l ∧ in_stage (set_Ready j) id l' ∧ full id l') l.
Proof.
  intros Hr Hf. unfold fill_stage.
  eapply total_bind; [eapply total_in_volume; [done|done|by apply Hf]|]. intros ? l1 ? [Hf1 E1].
  eapply total_bind; [by eapply total_clone|]. intros ? l2 ? (v2 & Hf2 & Hroot & E2).
  eapply total_bind; [eapply total_in_volume; [done|done|by apply Hf2]|]. intros ? l3 ? [Hf3 E3].
  eapply total_bind; [eapply total_in_volume; [done|done|by apply Hf2]|]. intros ? l4 ? [Hf4 E4].
  assert (Hfull : full id l4).
  { destruct Hf4 as [[_ Ha%am_legacy] _ _ Hv4 Ho4]. eexists _, (l_legacy l1). split_and!; [exact Hv4|done|congruence|done]. }
  assert (Hs : in_stage (set_Ready j) id (change (set_journal (Some (set_Ready j))) l4)) by by destruct Hf4 as [_ _ []].
  assert (Hph : phase (change (set_journal (Some (set_Ready j))) l4)) by by apply (ph_ready _ (set_Ready j) id).
  eapply total_mono; [by apply total_write|]. intros ? l5 ? Hc.
  pose proof Hc as (E5 & _ & F3 & F4 & F5 & F6 & F7 & F8)%core_parts.
  split_and!; [rewrite E5; apply Hf4| |].
  - destruct Hs. split; rewrite ?E5, ?F6, ?F7, ?F8; try done; [unfold good; by rewrite E5, F3|unfold legacy_ok; by rewrite F5].
  - unfold full. by rewrite F4.
Qed.

(** Published: the record may follow. *)
Definition ready_to_commit (l0 l : Layout) : Prop := l_row l = l_row l0 ∧ ∃ j id, published j id l.

Lemma published_core j id l l' : core l' = core l → published j id l → published j id l'.
Proof.
  intros (E1 & E2 & E3 & E4 & E5 & E6 & E7 & E8)%core_parts [].
  split; try congruence; [unfold good in *; by rewrite E1, E3|unfold full in *; by rewrite E4].
Qed.

Lemma total_rename j id l0 l :
  live l → l_row l = l_row l0 → in_stage j id l → dm_Ready j = true → full id l →
  total live (do_change (λ d, set_disk (stage (dm_Operation j) d) (set_stages (delete (dm_Operation j) (d_stages d)) d));; SyncDir)
    (λ _ l', ready_to_commit l0 l') l.
Proof.
  intros Hl Hrow Hs Hr Hf. set (l1 := change (λ d, set_disk (stage (dm_Operation j) d) (set_stages (delete (dm_Operation j) (d_stages d)) d)) l).
  assert (Hp : published j id l1).
  { destruct Hs as [S1 S2 S3 S4 S5 S6 S7 S8]. split; try done; cbn.
    - unfold stage. by rewrite S6, lookup_singleton_eq.
    - by rewrite S6, delete_singleton_eq. }
  assert (Hl1 : live l1).
  { split; [|by destruct Hl as [_ []]]. apply (ph_published _ j id); [done|]. left. by destruct Hs. }
  eapply total_bind; [by apply total_change|]. intros ? ? ? ->.
  eapply total_mono; [by apply total_sync|]. intros ? l2 ? Hc. split; [|exists j, id; exact (published_core _ _ _ _ Hc Hp)].
  by apply core_parts in Hc as [-> _].
Qed.

Lemma total_publish j l :
  live l → d_journal (l_dir l) = Some j → sv_UUID (dm_Subvolume j) ≠ "" →
  total live (publish j) (λ _ l', ready_to_commit l l') l.
Proof.
  intros Hl Hj Hne. unfold publish. eapply total_bind; [by eapply total_look|]. intros ? ? ? [-> ->].
  assert (Hlook : ∀ location id, location (l_dir l) = Some id → dm_Subvolume j = id →
    total live (InspectSubvolume location) (λ i l', l' = l ∧ i = id) l).
  { intros location id Hloc <-. apply (total_query _ _ (dm_Subvolume j)); [|done|done].
    rewrite Hloc. by destruct (String.eqb_spec (sv_UUID (dm_Subvolume j)) ""). }
  destruct (proj1 Hl) as [? ? Hn|j' ? Hj' ? ? Hu|j' id v Hs Hr Hv Ho|j' id Hs Hr Hf|j' id Hp Hpath|? ? Hn]; try congruence.
  - assert (j' = j) as -> by (destruct Hs; congruence). pose proof Hs as [S1 S2 S3 S4 S5 S6 S7 S8].
    rewrite has_none by done. cbv zeta.
    eapply total_bind; [by eapply Hlook; [unfold stage; by rewrite S6, lookup_singleton_eq|]|]. intros ? ? ? [-> ->].
    eapply total_bind; [apply total_require; [by rewrite S7, !String.eqb_refl|done]|]. intros ? ? ? ->. rewrite Hr.
    eapply total_bind; [by apply (total_fill j id l v)|]. intros ? l1 ? (Hrow & Hs1 & Hf1).
    by apply (total_rename (set_Ready j) id).
  - assert (j' = j) as -> by (destruct Hs; congruence). pose proof Hs as [S1 S2 S3 S4 S5 S6 S7 S8].
    rewrite has_none by done. cbv zeta.
    eapply total_bind; [by eapply Hlook; [unfold stage; by rewrite S6, lookup_singleton_eq|]|]. intros ? ? ? [-> ->].
    eapply total_bind; [apply total_require; [by rewrite S7, !String.eqb_refl|done]|]. intros ? ? ? ->. rewrite Hr.
    eapply (total_bind _ _ _ (λ _ l', l' = l)); [by apply total_ret|]. intros ? ? ? ->. by apply (total_rename j id).
  - assert (j' = j) as -> by (destruct Hp; congruence). pose proof Hp as [S1 S2 S3 S4 S5 S6 S7 S8].
    rewrite (has_some _ _ id) by done. cbv zeta.
    eapply total_bind; [by eapply Hlook|]. intros ? ? ? [-> ->].
    eapply total_bind; [apply total_require; [by rewrite S4, !String.eqb_refl|done]|]. intros ? ? ? ->.
    eapply total_bind; [by apply total_require|]. intros ? ? ? ->.
    eapply total_mono; [apply total_absent; [apply has_none; unfold stage; by rewrite S7|done]|]. intros ? ? ? ->.
    split; [done|]. by exists j, id.
Qed.

Lemma total_validate id l : live l → d_disk (l_dir l) = Some id → full id l → total live ValidateDisk (λ _ l', l' = l) l.
Proof.
  intros Hl Hd (v & b & Hv & Hb & Hne & Ho). apply (total_query _ _ tt); [|done|done]. rewrite Hd, Hv.
  destruct v as [? ? ? ?]; cbn in *; subst. by apply nonempty_spec in Hne as ->.
Qed.

(** The end of a move. *)
Definition over (r : Instance) (l : Layout) : Prop :=
  l_row l = r ∧ RootFSPath r = canonical ∧ d_journal (l_dir l) = None ∧ d_legacy (l_dir l) = None ∧ d_stages (l_dir l) = ∅.

Lemma total_row now l :
  live l → ready_to_commit l l →
  total live (if String.eqb (RootFSPath (l_row l)) canonical then mret (l_row l) else
      let updated := set_UpdatedAt now (set_RootFSPath canonical (l_row l)) in
      env (λ l, (inl tt, set_row updated l));; mret updated)
    (λ r l', l_row l' = r ∧ RootFSPath r = canonical ∧ ready_to_commit l' l') l.
Proof.
  intros Hl [_ (j & id & Hp)]. pose proof (pb_journal _ _ _ Hp) as Hj.
  destruct (phase_journal l j (proj1 Hl) Hj) as (Hg & Hpath & Hleg).
  destruct (String.eqb_spec (RootFSPath (l_row l)) canonical) as [Hc|Hc].
  - apply total_ret; [done|]. do 3 (split; [done|]). by exists j, id.
  - cbv zeta. set (r := set_UpdatedAt _ _). assert (Hr : RootFSPath r = canonical ∧ ID r = ID (l_row l)).
    { unfold r. by destruct (l_row l). }
    assert (Hp1 : published j id (set_row r l)).
    { destruct Hp as [S1 S2 S3 S4 S5 S6 S7 S8]. split; try done. unfold good. cbn. by rewrite (proj2 Hr). }
    assert (Hl1 : live (set_row r l)).
    { split; [|by destruct Hl as [_ []]]. apply (ph_published _ j id); [done|]. right. split; [apply Hr|].
      cbn. destruct Hleg as [?|(? & ? & _)]; auto. }
    eapply (total_bind _ _ _ (λ _ l', l' = set_row r l)); [by apply (total_env _ _ tt)|]. intros ? ? ? ->.
    apply total_ret; [done|]. split; [done|]. split; [apply Hr|]. split; [done|]. by exists j, id.
Qed.

Lemma total_commit now l :
  live l → ready_to_commit l l → total live (commit dir now (l_row l)) (λ r l', over r l') l.
Proof.
  intros Hl Hc. pose proof Hc as [_ (j0 & id0 & Hp0)]. unfold commit.
  eapply total_bind; [eapply total_validate; [done|apply Hp0|apply Hp0]|]. intros ? ? ? ->.
  eapply total_bind; [by apply total_row|]. intros r l1 Hl1 (Hrow & Hcan & _ & j & id & Hp).
  set (l2 := change (set_legacy None) l1).
  assert (Hp2 : published j id l2) by by destruct Hp.
  assert (Hl2 : live l2).
  { split; [|by destruct Hl1 as [_ []]]. apply (ph_published _ j id); [done|]. right. cbn. rewrite Hrow. auto. }
  eapply total_bind; [by apply total_change|]. intros ? ? ? ->.
  eapply total_bind; [by apply total_sync|]. intros ? l3 Hl3 Hc3. pose proof (published_core _ _ _ _ Hc3 Hp2) as Hp3.
  apply core_parts in Hc3 as (F1 & _ & _ & _ & F5 & _).
  assert (Ho : over r (change (set_journal None) l3)).
  { destruct Hp3. split_and!; [cbn; by rewrite F1|done|done|exact F5|done]. }
  assert (Hl4 : live (change (set_journal None) l3)).
  { split; [|by destruct Hl3 as [_ []]]. destruct Hp3, Ho as (Q1 & Q2 & Q3 & Q4 & Q5).
    apply (ph_done _ id); try done. by rewrite Q1. }
  eapply total_bind; [by apply total_change|]. intros ? ? ? ->.
  eapply total_bind; [by apply total_cleanup|]. intros ? l5 Hl5 Hc5. apply total_ret; [done|].
  destruct Ho as (Q1 & Q2 & Q3 & Q4 & Q5). apply core_parts in Hc5 as (G1 & _ & _ & _ & G5 & _ & G7 & G8).
  split_and!; congruence.
Qed.

Lemma total_settled l :
  live l → d_journal (l_dir l) = None → RootFSPath (l_row l) = canonical → total live settled (λ _ l', over (l_row l) l') l.
Proof.
  intros Hl Hj Hpath.
  assert (Hd : ∃ id, d_disk (l_dir l) = Some id ∧ d_stages (l_dir l) = ∅ ∧ full id l ∧ d_legacy (l_dir l) = None).
  { destruct (proj1 Hl) as [? Hn|? ? Hn|? ? ? [? Hn]|? ? [? Hn]|? ? [Hn]|id]; try congruence.
    - destruct legacy_canonical. congruence.
    - by exists id. }
  destruct Hd as (id & Hd & Hs & Hf & Hleg). unfold settled.
  eapply total_bind; [by eapply total_look; [rewrite bool_decide_eq_true_2|]|]. intros ? ? ? [-> _].
  eapply total_bind; [by apply total_absent; [apply has_none|]|]. intros ? ? ? ->.
  eapply total_bind; [by eapply total_validate|]. intros ? ? ? ->.
  eapply total_mono; [by apply total_cleanup|]. intros ? l' ? Hc.
  apply core_parts in Hc as (G1 & _ & _ & _ & G5 & _ & G7 & G8). split_and!; congruence.
Qed.

(** The runtime identity of the record is whole. *)
Definition whole_identity (i : Instance) : Prop := StartRequestID i = "" ↔ StartBootID i = "".

Lemma total_runtime l :
  live l → whole_identity (l_row l) → total live (runtime_proof (l_row l)) (λ _ l', l' = l) l.
Proof.
  intros Hl Hw. unfold runtime_proof.
  destruct (String.eqb_spec (StartRequestID (l_row l)) "") as [H1|H1],
    (String.eqb_spec (StartBootID (l_row l)) "") as [H2|H2]; cbn; try by (destruct H2; apply Hw) || (destruct H1; apply Hw).
  - by apply total_check.
  - eapply total_bind; [apply total_require; [|done]|intros ? ? ? ->; by apply total_check].
    apply andb_true_iff; split; by apply nonempty_spec.
Qed.

#[local] Abbreviation ensure := (ensureDiskLayout dir uuid_Parse new_identity).

(** What follows the checks of the runtime. *)
#[local] Abbreviation finish now op inst journal :=
  (j ← open_journal dir uuid_Parse op inst journal;
   require (String.eqb (RootFSPath inst) legacy || String.eqb (RootFSPath inst) canonical)
     (Errorf "database disk path conflicts with migration");;
   check_legacy dir inst j;;
   j ← identify_stage dir new_identity inst j;
   publish j;;
   commit dir now inst).

Lemma total_finish now op l :
  live l → is_Some (uuid_Parse op) →
  bool_decide (d_journal (l_dir l) = None) && String.eqb (RootFSPath (l_row l)) canonical = false →
  total live (finish now op (l_row l) (d_journal (l_dir l))) (λ r l', over r l') l.
Proof.
  intros Hl Hop Hs. eapply total_bind; [apply total_open; [done|done|]|].
  { intros Hj. rewrite Hj, bool_decide_eq_true_2 in Hs by done. cbn in Hs. apply String.eqb_neq in Hs.
    by destruct (proj1 Hl) as [? Hp|? Hp|? ? ? [Hp]|? ? [Hp]|? ? [Hn]|]; try congruence. }
  intros j l1 Hl1 [Hr1 Hj1]. rewrite <- Hr1.
  destruct (phase_journal l1 j (proj1 Hl1) Hj1) as (_ & Hpath & _).
  eapply total_bind; [apply total_require; [|done]|].
  { apply orb_true_iff. destruct Hpath as [->| ->]; [left|right]; apply String.eqb_refl. }
  intros ? ? ? ->. eapply total_bind; [by apply total_check_legacy|]. intros ? ? ? ->.
  eapply total_bind; [by apply total_identify|]. intros j2 l2 Hl2 (Hr2 & Hj2 & Hne).
  eapply total_bind; [by apply total_publish|]. intros ? l3 Hl3 [Hr3 Hp3]. rewrite <- Hr2, <- Hr3.
  apply total_commit; [done|]. by split.
Qed.

Lemma total_ensure now op l :
  live l → is_Some (uuid_Parse op) → State (l_row l) = StateStopped → FirecrackerPID (l_row l) = 0 →
  whole_identity (l_row l) →
  total live (ensure now op (l_row l)) (λ r l', over r l') l.
Proof.
  intros Hl Hop Hst Hpid Hw. unfold ensureDiskLayout.
  do 2 (eapply total_bind; [by apply total_check|]; intros ? ? ? ->).
  eapply total_bind; [by eapply total_look|]. intros ? ? ? [-> ->].
  destruct (bool_decide _ && _) eqn:Hs.
  - apply andb_true_iff in Hs as [Hj%bool_decide_eq_true Hc%String.eqb_eq].
    eapply total_bind; [by apply total_settled|]. intros ? l1 ? Ho. by apply total_ret.
  - eapply total_bind; [by apply total_require; [rewrite Hst, Hpid|]|]. intros ? ? ? ->.
    eapply total_bind; [by apply total_runtime|]. intros ? ? ? ->. by apply total_finish.
Qed.

(** An attempt that is refused changes nothing. *)
Lemma attempt_live now op l :
  live l → is_Some (uuid_Parse op) → wp (ensure now op (l_row l)) (post live (λ _ _, True)) l.
Proof.
  intros Hl Hop. unfold ensureDiskLayout.
  do 2 (eapply post_bind; [by apply total_check|]; intros ? ? ? ->).
  eapply post_bind; [by eapply total_look|]. intros ? ? ? [-> ->].
  destruct (bool_decide _ && _) eqn:Hs.
  - apply andb_true_iff in Hs as [Hj%bool_decide_eq_true Hc%String.eqb_eq].
    eapply post_bind; [by apply total_settled|]. intros ? l1 ? Ho. by apply post_ret.
  - eapply post_bind; [by apply post_require|]. intros ? ? ? [-> _].
    eapply (post_bind _ _ _ (λ _ l', l' = l)).
    { unfold runtime_proof. case_match; [by apply total_check|].
      eapply post_bind; [by apply post_require|]. intros ? ? ? [-> _]. by apply total_check. }
    intros ? ? ? ->. eapply post_mono; [by apply total_finish|done..].
Qed.

(** ** The disk over time, without a power loss *)

Inductive attempt_step : relation Layout :=
  | attempt_move now op fs l : is_Some (uuid_Parse op) → attempt_step l (ensure now op (l_row l) fs l).1.2
  | attempt_write fs b l l' : (diskMutationFence fs l).1.1 = Ok tt → write_disk dir b l = Some l' → b ≠ ""%string →
      attempt_step l l'
  | attempt_record r l : RootFSPath r = RootFSPath (l_row l) → ID r = ID (l_row l) → attempt_step l (set_row r l).

(** An instance with a disk of the old layout. *)
Definition legacy_layout (l : Layout) : Prop :=
  RootFSPath (l_row l) = legacy ∧ d_journal (l_dir l) = None ∧ d_disk (l_dir l) = None ∧ d_stages (l_dir l) = ∅ ∧
  (∃ st, d_legacy (l_dir l) = Some st ∧ lf_regular st = true ∧ lf_inode st ≠ 0) ∧ ambient l.

Lemma write_live b l l' :
  d_journal (l_dir l) = None → write_disk dir b l = Some l' → b ≠ ""%string → live l → live l'.
Proof.
  intros Hj Hw Hb [Hp Ha]. unfold write_disk in Hw.
  destruct Hp as [st Hc|? ? Hn|? ? ? [? Hn]|? ? [? Hn]|? ? [Hn]|id Hc _ Hd Hs (v & b0 & Hv & _ & _ & Ho) Hleg]; try congruence.
  - rewrite Hc, String.eqb_refl, (has_some _ _ st) in Hw by done. injection Hw as <-.
    split; [by apply (ph_new _ st)|by destruct Ha].
  - rewrite Hc in Hw. destruct (String.eqb_spec canonical legacy) as [He|_]; [by destruct legacy_canonical|].
    rewrite String.eqb_refl, Hd in Hw. cbn in Hw. rewrite Hv in Hw. injection Hw as <-.
    split; [|by destruct Ha]. apply (ph_done _ id); try done. eexists _, b. by split; [apply lookup_insert_eq|].
Qed.

Lemma record_live r l : RootFSPath r = RootFSPath (l_row l) → ID r = ID (l_row l) → live l → live (set_row r l).
Proof.
  intros Hr Hid [Hp Ha]. split; [|by destruct Ha].
  assert (Hg : ∀ j, good l j → good (set_row r l) j) by (unfold good; cbn; by rewrite Hid).
  destruct Hp as [st|j|j id v [] |j id [] |j id [] |id].
  - by apply (ph_new _ st); [cbn; congruence|..].
  - apply (ph_open _ j); auto; cbn; congruence.
  - apply (ph_staged _ j id v); try done. split; auto; cbn; congruence.
  - apply (ph_ready _ j id); try done. split; auto; cbn; congruence.
  - apply (ph_published _ j id); [by split; auto|]. cbn. by rewrite Hr.
  - by apply (ph_done _ id); [cbn; congruence|..].
Qed.

Lemma attempts_live l0 l : legacy_layout l0 → rtc attempt_step l0 l → live l.
Proof.
  intros (H1 & H2 & H3 & H4 & (st & H5 & H6 & H7) & Ha).
  assert (Hl : live l0) by (split; [by apply (ph_new _ st)|done]). clear -Hl identified. induction 1 as [|l1 l2 l3 Hs _ IH]; [done|].
  apply IH. destruct Hs as [now op fs l1 Hop|fs b l1 l2 Hf Hw Hb|r l1 Hr Hid].
  - by apply (attempt_live now op l1 Hl Hop fs).
  - eapply write_live; [by eapply fence_journal|done..].
  - by apply record_live.
Qed.

(** C10. However many attempts failed, and at whatever call their processes died, the next
    attempt that nothing disturbs succeeds, and nothing of the old layout is left: for a
    record that is stopped, has no process and has a whole identity, and while the power
    stays on.  After a loss of power the bytes are kept ([layout_keeps_bytes]), but the move
    may need an operator. *)
Theorem interrupted_move_completes now op l0 l :
  legacy_layout l0 → rtc attempt_step l0 l → is_Some (uuid_Parse op) →
  State (l_row l) = StateStopped → FirecrackerPID (l_row l) = 0 → whole_identity (l_row l) →
  ∃ r l', run (ensure now op (l_row l)) l = (Ok r, l') ∧ over r l'.
Proof.
  intros H0 Hs Hop Hst Hpid Hw. pose proof (attempts_live l0 l H0 Hs) as Hl.
  destruct (total_ensure now op l Hl Hop Hst Hpid Hw) as [Hwp (r & l' & He)]. exists r, l'.
  specialize (Hwp []). unfold run. rewrite He in *. split; [done|]. by apply Hwp.
Qed.
End live.

(** ** A disk moves, interrupted

    The host dies while a legacy disk moves to its subvolume, then loses power before the
    rename is synced; the next start finishes the move.  The theorems are used on that. *)

Definition layout_dir : string := "/srv/instances/demo".
Definition layout_uuid (s : string) : option string := if nonempty s then Some s else None.
Definition layout_identity (l : Layout) : SubvolumeIdentity := mkSubvolumeIdentity "uuid-2" "258" "" "".

Definition layout_ensure := ensureDiskLayout layout_dir layout_uuid layout_identity.

Definition layout_row : Instance := set_RootFSPath (legacy layout_dir) demo_stopped.

Definition layout_start : Layout :=
  mkLayout layout_row (mkDir (Some (mkLegacy 7 true)) None ∅ None ∅) [] "bytes"
    (mkSubvolumeIdentity "uuid-1" "256" "" "") ∅.

(** The process dies just after the rename that publishes the disk. *)
Definition layout_cut : list fault := (replicate 42 Pass ++ [CrashAfter])%list.
Definition layout_dead : Layout := (layout_ensure t0 "op-1" layout_row layout_cut layout_start).1.2.

(** The power goes before the directory is synced, and the rename is lost. *)
Definition layout_dark : Layout :=
  mkLayout (l_row layout_dead) (default (l_dir layout_dead) (head (l_undo layout_dead))) [] (l_legacy layout_dead)
    (l_legacy_subvolume layout_dead) (l_volumes layout_dead).

Definition layout_end : Layout := (run (layout_ensure t0 "op-2" (l_row layout_dark)) layout_dark).2.

Lemma layout_start_initial : layout_initial layout_dir (layout_start, "bytes"%string).
Proof. split_and!; [done..|]. left. split_and!; [vm_compute; reflexivity|by eexists|done..]. Qed.

Lemma layout_goes_dark : power_loss layout_dead layout_dark.
Proof.
  exists (l_dir layout_dark), (l_volumes layout_dead). split_and!.
  - replace (l_dir layout_dead :: l_undo layout_dead) with [l_dir layout_dead; l_dir layout_dark]
      by (vm_compute; reflexivity). right. by left.
  - intros u v Hv. exists v. split; [done|].
    assert (H : map_Forall (λ _ v, vo_bytes_durable v = true ∧ vo_entry_durable v = true) (l_volumes layout_dead)).
    { refine (bool_decide_unpack _ _). vm_compute. exact I. }
    destruct (H u v Hv). by split_and!.
  - vm_compute. reflexivity.
Qed.

Lemma layout_dark_reachable : layout_reachable layout_dir layout_uuid layout_identity (layout_dark, "bytes"%string).
Proof.
  exists (layout_start, "bytes"%string). split; [exact layout_start_initial|].
  eapply rtc_l; [apply (layout_move _ _ _ t0 "op-1" layout_cut)|].
  eapply rtc_l; [|apply rtc_refl]. apply layout_power, layout_goes_dark.
Qed.

(** The rename is lost, and the disk is the staged one; the second attempt publishes it. *)
Lemma layout_keeps_bytes_witness :
  d_disk (l_dir layout_dark) = None ∧ d_disk (l_dir layout_dead) = Some (layout_identity layout_start) ∧
  kept "bytes" layout_dark.
Proof.
  split_and!; [vm_compute; reflexivity..|].
  apply (layout_keeps_bytes layout_dir layout_uuid layout_identity layout_dark "bytes" layout_dark_reachable).
Defined.

Lemma layout_moved_witness :
  RootFSPath (l_row layout_dark) = legacy layout_dir ∧ moved layout_dir "bytes" (l_row layout_end) layout_end.
Proof.
  split; [vm_compute; reflexivity|].
  apply (layout_moved layout_dir layout_uuid layout_identity t0 "op-2" [] layout_dark "bytes" (l_row layout_end)
           layout_end [] layout_dark_reachable).
  vm_compute. reflexivity.
Defined.

Lemma interrupted_move_completes_witness :
  d_legacy (l_dir layout_dead) = Some (mkLegacy 7 true) ∧
  ∃ r l', run (layout_ensure t0 "op-2" (l_row layout_dead)) layout_dead = (Ok r, l') ∧ over layout_dir r l'.
Proof.
  split; [vm_compute; reflexivity|].
  apply (interrupted_move_completes layout_dir layout_uuid layout_identity) with (l0 := layout_start).
  - intros l. vm_compute. discriminate.
  - split; [reflexivity|]. do 3 (split; [reflexivity|]). split; [by eexists|]. split; [done| |]; vm_compute; try split; discriminate.
  - eapply rtc_l; [apply (attempt_move _ _ _ t0 "op-1" layout_cut); by eexists|]. apply rtc_refl.
  - by eexists.
  - vm_compute. reflexivity.
  - vm_compute. reflexivity.
  - vm_compute. by split.
Defined.
