(* ===== verification/Front.v ===== *)
(** * The front end

    Models src/internal/front: front.go (the router of commands over hosts, the choice of
    a host for a new instance, the cold migration between two hosts) and of daemon.go the
    check of a configuration, the words of a forwarded command and the exit status.
    The state is what the hosts are and what was sent to them; what a host does with a
    command, and what JSON means, are parameters. *)
From S2P Require Import Prelude GoStrings Paths Model RunnerState Identity.
From stdpp Require Import pretty.

#[local] Open Scope Z_scope.

(** ** Hosts and what is sent to them *)

Record Host := mkHost { ho_Name : string; ho_Address : string; ho_HostKey : string }.
Definition no_host : Host := mkHost "" "" "".

Record FrontConfig := mkFrontConfig {
  fc_Hostname : string;
  fc_DataDir : string;
  fc_ListenAddr : string;
  fc_AllowedUsers : list string;
  fc_Hosts : list Host;
  fc_ProviderNodes : Providers;
}.

(** What a session of a host ends with: its output, its exit status, or nothing. *)
Inductive reply :=
  | Replied (out : string)
  | Exited (status : Z) (out : string)
  | Lost.

(** The standard input of a command: none, the user's, the output of another command, or
    one that broke off. *)
Inductive input := NoInput | UserInput | Piped (data : string) | Broken.

Record sent := mkSent { se_host : Host; se_actor : Actor; se_args : list string; se_input : input; se_reply : reply }.

(** Of a request, [expected_disk], which the router leaves out, is not here, nor of a result
    [serialized_payload], which it does not read. *)
Record MigrationDisk := mkMigrationDisk { md_Disk : Object; md_Base : option Object }.
Record MigrationDiskRequest := mkMigrationDiskRequest {
  mq_Action : string;
  mq_Name : string;
  mq_InstanceID : string;
  mq_Token : string;
  mq_Transfer : MigrationDisk;
}.
Record MigrationDiskResult := mkMigrationDiskResult { mr_Transfer : MigrationDisk; mr_BasePresent : bool }.

Definition no_transfer : MigrationDisk := mkMigrationDisk (mkObject "" "" "" 0 "") None.
Definition with_action (action : string) (q : MigrationDiskRequest) : MigrationDiskRequest :=
  mkMigrationDiskRequest action (mq_Name q) (mq_InstanceID q) (mq_Token q) (mq_Transfer q).
Definition with_instance (id : string) (q : MigrationDiskRequest) : MigrationDiskRequest :=
  mkMigrationDiskRequest (mq_Action q) (mq_Name q) id (mq_Token q) (mq_Transfer q).
Definition with_transfer (t : MigrationDisk) (q : MigrationDiskRequest) : MigrationDiskRequest :=
  mkMigrationDiskRequest (mq_Action q) (mq_Name q) (mq_InstanceID q) (mq_Token q) t.

(** What the router reads of the answers. *)
Record listed := mkListed { li_Name : string; li_MigrationPhase : string }.
Record placement := mkPlacement { pl_Eligible : bool; pl_Reason : string; pl_Memory : Z; pl_Disk : Z }.
Record inspected := mkInspected {
  in_ID : string; in_Image : string; in_CPUs : Z; in_RAM : Z; in_Disk : Z; in_Pool : string; in_Mode : string;
  in_Integrations : nat;
}.
Record prepared := mkPrepared {
  pr_InstanceID : string; pr_Token : string; pr_Target : string; pr_WasRunning : bool; pr_Phase : string;
}.
Record receipt := mkTransferReceipt { rc_Token : string; rc_SourceInstanceID : string; rc_Phase : string }.

(** [encoding/json] and [base64.RawURLEncoding] as the router uses them. *)
Class Codec := {
  json_Valid : string → bool;
  decode_list : string → option (list listed);
  decode_placement : string → option placement;
  decode_inspect : string → option inspected;
  decode_prepared : string → option prepared;
  decode_transfer : string → option MigrationDiskResult;
  decode_receipt : string → option receipt;
  encode_request : MigrationDiskRequest → string;
  encode_actor : Actor → string;
}.

(** [json.Unmarshal]. *)
Definition Unmarshal {A} (decode : string → option A) (data : string) : result A :=
  match decode data with Some a => inl a | None => inr (Errorf "json: cannot unmarshal") end.

(** [fmt.Errorf("...: %w", err)]: the sentinel stays. *)
Definition wrap (text : string) (e : error) : error :=
  match e with
  | ErrExit n cause => ErrExit n (text +:+ cause)%stdpp
  | ErrNoEligibleHost => ErrNoEligibleHost
  | e => Errorf (text +:+ error_text e)%stdpp
  end.

(** The [defer] that rewrites the error of [m]. *)
Definition wrapping {S A} (text : string) (m : M S A) : M S A :=
  r ← try m;
  match r with inl a => mret a | inr e => throw (wrap text e) end.

Definition Contains (s : string) (c : ascii) : bool := ContainsByte s c.

(** ** The configuration *)

(** [[a-zA-Z0-9]] *)
Definition is_host_alnum (c : ascii) : bool :=
  let n := byte_value c in is_alnum c || ((65 <=? n) && (n <=? 90)).
(** [^[a-zA-Z0-9][a-zA-Z0-9_.-]*$] *)
Definition valid_host_name (s : string) : bool :=
  match s with
  | String c rest =>
      is_host_alnum c &&
      all_chars (λ c, is_host_alnum c || Ascii.eqb c "_" || Ascii.eqb c "." || Ascii.eqb c "-") rest
  | EmptyString => false
  end.

Section config.
(** [strings.ToLower]; [net.SplitHostPort]; [ssh.ParseAuthorizedKey] with what follows the
    key. *)
Context (ToLower : string → string) (SplitHostPort : string → bool) (ParseAuthorizedKey : string → option string).

Definition valid_host (seen : list string) (h : Host) : result unit :=
  if negb (valid_host_name (ho_Name h)) || bool_decide (ho_Name h ∈ seen)
  then inr (Errorf "invalid or duplicate host name") else
  if negb (SplitHostPort (ho_Address h)) then inr (Errorf "host address") else
  match ParseAuthorizedKey (ho_HostKey h) with
  | Some rest => if nonempty (TrimSpace rest) then inr (Errorf "host requires one pinned OpenSSH public host key") else inl tt
  | None => inr (Errorf "host requires one pinned OpenSSH public host key")
  end.

Fixpoint valid_hosts (seen : list string) (hosts : list Host) : result unit :=
  match hosts with
  | [] => inl tt
  | h :: hosts' => _ ← valid_host seen h; valid_hosts (ho_Name h :: seen) hosts'
  end.

Definition Validate (c : FrontConfig) : result unit :=
  _ ← ValidateProviders ToLower (fc_ProviderNodes c) [];
  if negb (nonempty (fc_Hostname c) && nonempty (fc_DataDir c) && nonempty (fc_ListenAddr c)) ||
     bool_decide (fc_AllowedUsers c = []) || bool_decide (fc_Hosts c = [])
  then inr (Errorf "hostname, data_dir, listen_addr, nonempty allowed_users and hosts required") else
  if existsb (λ u, String.eqb (TrimSpace u) "" || String.eqb u "*") (fc_AllowedUsers c)
  then inr (Errorf "allowed_users must contain explicit login names") else
  valid_hosts [] (fc_Hosts c).
End config.

(** ** The words of a forwarded command *)

(** [strings.ReplaceAll(s, "'", "'\\''")]. *)
Fixpoint escape_quotes (s : string) : string :=
  match s with
  | EmptyString => EmptyString
  | String c s' =>
      if Ascii.eqb c "'" then ("'\''" +:+ escape_quotes s')%stdpp else String c (escape_quotes s')
  end.
Definition quote (s : string) : string := ("'" +:+ escape_quotes s +:+ "'")%stdpp.

(** [model.ExitCreateRejected] when no host was eligible, the status of a host, else 1. *)
Definition ExitStatus (e : error) : Z :=
  match e with ErrExit n _ => n | ErrNoEligibleHost => ExitCreateRejected | _ => 1 end.

(** ** The router *)

(** [--host] and [--json] may stand anywhere. *)
Fixpoint front_options (args : list string) (hostName : string) (clean : list string) (asJSON : bool)
  : result (string * list string * bool) :=
  match args with
  | [] => inl (hostName, clean, asJSON)
  | arg :: args' =>
      if String.eqb arg "--host" then
        match args' with
        | v :: args'' =>
            if String.eqb v "" || nonempty hostName then inr (Errorf "--host requires one nonempty value")
            else front_options args'' v clean asJSON
        | [] => inr (Errorf "--host requires one nonempty value")
        end
      else if HasPrefix arg "--host=" then
        if nonempty hostName || String.eqb arg "--host=" then inr (Errorf "--host requires one nonempty value")
        else front_options args' (TrimPrefix arg "--host=") clean asJSON
      else if String.eqb arg "--json" then front_options args' hostName clean true
      else front_options args' hostName (clean ++ [arg])%list asJSON
  end.

(** The command without [orb], and whether it was there. *)
Definition orb_command (args : list string) (asJSON : bool) : result (bool * list string) :=
  if negb (String.eqb (hd "" args) "orb") then inl (false, args) else
  match args with
  | _ :: cmd :: _ =>
      if negb (String.eqb cmd "new" || String.eqb cmd "list" || String.eqb cmd "bootstrap")
      then inr (Errorf "usage: orb new NAME [options] | orb list | orb bootstrap NAME") else
      let args := drop 1 args in
      if String.eqb cmd "bootstrap" && (negb ((length args =? 2) || (length args =? 8))%nat || asJSON)
      then inr (Errorf "usage: orb bootstrap NAME (without --json)") else inl (true, args)
  | _ => inr (Errorf "usage: orb new NAME [options] | orb list | orb bootstrap NAME")
  end.

(** Commands the front end keeps to itself. *)
Definition reserved_command (args : list string) (hostName : string) : result unit :=
  let cmd := hd "" args in
  if String.eqb cmd "forward" || String.eqb cmd "migration-disk" then inr (Errorf "reserved command") else
  if String.eqb cmd "migration" &&
     (negb (length args =? 3)%nat || negb (String.eqb (nth 1 args "") "status" || String.eqb (nth 1 args "") "receipt") ||
      String.eqb hostName "")
  then inr (Errorf "only migration status/receipt NAME --host HOST are supported") else
  if String.eqb cmd "top" then inr (Errorf "top/PTY is not supported by srv-front") else inl tt.

Definition is_template (arg : string) : bool := String.eqb arg "--template" || HasPrefix arg "--template=".

Definition owner_commands : list string :=
  ["inspect"; "start"; "stop"; "restart"; "delete"; "resize"; "upgrade"; "fsck"; "restore"; "backup"; "disk"; "logs";
   "export"; "bootstrap"].
Definition host_commands : list string :=
  ["list"; "status"; "pool"; "integration"; "snapshot"; "migration"; "import"; "project-template"; "help";
   "cleanup-receipt"; "operation-result"; "operation-cancel"].

(** Where [logs] has its name. *)
Fixpoint log_name (i : nat) (args : list string) : option nat :=
  match args with
  | [] => None
  | arg :: args' =>
      if negb (HasPrefix arg "-") && negb (String.eqb arg "serial") && negb (String.eqb arg "firecracker")
      then Some i else log_name (S i) args'
  end.
Definition name_index (args : list string) : option nat :=
  let cmd := hd "" args in
  let i := if String.eqb cmd "logs" then log_name 1 (drop 1 args)
           else Some (if String.eqb cmd "backup" || String.eqb cmd "disk" then 2%nat else 1%nat) in
  match i with Some i => if (i <? length args)%nat then Some i else None | None => None end.

(** [x] is placed before [y]. *)
Definition before (x y : Host * placement) : bool :=
  if negb (pl_Memory x.2 =? pl_Memory y.2) then pl_Memory y.2 <? pl_Memory x.2
  else if negb (pl_Disk x.2 =? pl_Disk y.2) then pl_Disk y.2 <? pl_Disk x.2
  else String.ltb (ho_Name x.1) (ho_Name y.1).
Definition not_after (x y : Host * placement) : Prop := before y x = false.
#[export] Instance not_after_dec : RelDecision not_after := λ x y, decide (before y x = false).
(** [sort.Slice]. *)
Definition sort_candidates (l : list (Host * placement)) : list (Host * placement) := merge_sort not_after l.

(** What the router reads of [inspect] before a migration, or why it does not begin. *)
Definition migration_policy (policy : list string) : result (string * bool) :=
  match policy with
  | [] => inl ("", false)
  | ["--fixed-memory"] => inl ("", true)
  | ["--pool"; pool] =>
      if nonempty pool && negb (HasPrefix pool "--") then inl (pool, false)
      else inr (Errorf "specify either --pool TARGET_POOL or --fixed-memory")
  | _ => inr (Errorf "specify either --pool TARGET_POOL or --fixed-memory")
  end.

Definition preflight_args (name pool : string) (v : inspected) : list string :=
  (["--json"; "import-placement"; name; "--image"; in_Image v; "--cpus"; pretty (in_CPUs v);
    "--ram"; (pretty (in_RAM v) +:+ "MiB")%stdpp; "--rootfs-size"; (pretty (in_Disk v) +:+ "B")%stdpp] ++
   (if nonempty pool then ["--pool"; pool] else []))%list.

(** What the hosts are, and what was sent to them. *)
Record Net (B : Type) := mkNet { nt_backend : B; nt_sent : list sent }.
Arguments mkNet {B} nt_backend nt_sent.
Arguments nt_backend {B} n.
Arguments nt_sent {B} n.

Section router.
Context {B : Type} {codec : Codec}.
(** What a host does with a command. *)
Context (serve : Host → Actor → list string → input → B → reply * B).
(** [Router.Hosts]. *)
Context (Hosts : list Host).

#[local] Abbreviation Net := (Net B).

Definition forward_words (a : Actor) (args : list string) : list string := ("forward" :: encode_actor a :: args)%list.
Definition forward_command (a : Actor) (args : list string) : string := GoStrings.Join (map quote (forward_words a args)) " ".

Definition reply_result (r : reply) : result string :=
  match r with
  | Replied out => inl out
  | Exited n _ => inr (ErrExit n "process exited")
  | Lost => inr (Errorf "connection lost")
  end.

(** [Transport.Run]. *)
Definition transport_Run (h : Host) (a : Actor) (args : list string) (inp : input) : M Net string :=
  env (λ s, let '(r, b) := serve h a args inp (nt_backend s) in
            (reply_result r, mkNet b (nt_sent s ++ [mkSent h a args inp r])%list)).

Definition commandJSON (h : Host) (a : Actor) (args : list string) : M Net string :=
  out ← wrapping "" (transport_Run h a args NoInput);
  require (json_Valid out) (Errorf "invalid backend JSON");;
  mret out.

(** [Router.query]: within a time limit, whose end is a failure. *)
Definition query_host (h : Host) (a : Actor) (args : list string) : M Net string := commandJSON h a args.

(** [Router.all]: the hosts are asked at the same time. *)
Definition query_all (hosts : list Host) (a : Actor) (args : list string) : M Net (list (Host * result string)) :=
  mapM (λ h, r ← try (query_host h a args); mret (h, r)) hosts.

Definition find_host (name : string) : result Host :=
  match find (λ h, String.eqb (ho_Name h) name) Hosts with
  | Some h => inl h
  | None => inr (Errorf "unknown host")
  end.

(** The hosts among the answers that list [name]. *)
Fixpoint matches (name : string) (answers : list (Host * result string)) : result (list Host) :=
  match answers with
  | [] => inl []
  | (h, inr e) :: _ => inr (Errorf ("cannot resolve: host: " +:+ error_text e)%stdpp)
  | (h, inl data) :: answers' =>
      p ← Unmarshal decode_list data;
      rest ← matches name answers';
      let here := filter (λ v, li_Name v = name ∧ li_MigrationPhase v ≠ "completed") p in
      inl (map (λ _, match find_host (ho_Name h) with inl h' => h' | inr _ => no_host end) here ++ rest)%list
  end.

(** The host, the name there, and an error that may come with them. *)
Definition resolve (a : Actor) (name : string) : M Net (Host * string * option error) :=
  match Cut name "/" with
  | (h, n, true) =>
      let host := find_host h in
      let err := if String.eqb n "" || Contains n "/" then Some (Errorf "invalid canonical name")
                 else match host with inr e => Some e | inl _ => None end in
      mret (match host with inl h => h | inr _ => no_host end, n, err)
  | _ =>
      answers ← query_all Hosts a ["--json"; "list"; "--all"];
      match matches name answers with
      | inr e => mret (no_host, "", Some e)
      | inl [h] => mret (h, name, None)
      | inl _ => mret (no_host, "", Some (Errorf "name resolves to several hosts or none; use host/name"))
      end
  end.

(** The hosts that would take the instance. *)
Definition candidates (answers : list (Host * result string)) : list (Host * placement) :=
  omap (λ '(h, r), match r with
                   | inl data =>
                       p ← decode_placement data;
                       if pl_Eligible p
                       then Some (match find_host (ho_Name h) with inl h' => h' | inr _ => no_host end, p) else None
                   | inr _ => None
                   end) answers.

Definition choose (a : Actor) (args : list string) : M Net Host :=
  answers ← query_all Hosts a ("--json" :: "placement" :: args);
  match sort_candidates (candidates answers) with
  | c :: _ => mret c.1
  | [] => throw ErrNoEligibleHost
  end.

(** *** Migration *)

Definition migrationDiskArgs (q : MigrationDiskRequest) : list string := ["migration-disk"; encode_request q].

(** What [send] writes is what [receive] reads; both run at the same time. *)
Definition migrationStream (a : Actor) (source target : Host) (send receive : list string) : M Net unit :=
  sending ← try (transport_Run source a send NoInput);
  received ← try (transport_Run target a receive (match sending with inl data => Piped data | inr _ => Broken end));
  match received, sending with
  | inr e, _ => throw e
  | _, inr e => throw e
  | inl _, inl _ => mret tt
  end.

(** The transfer of the disk, with its base where the target lacks it. *)
Definition transfer_disk (a : Actor) (source target : Host) (policy : list string) (q : MigrationDiskRequest) : M Net unit :=
  data ← commandJSON target a (migrationDiskArgs (with_action "base-present" q));
  base ← lift (Unmarshal decode_transfer data);
  (if bool_decide (is_Some (md_Base (mq_Transfer q))) && negb (mr_BasePresent base)
   then migrationStream a source target (migrationDiskArgs (with_action "send-base" q))
          (migrationDiskArgs (with_action "receive-base" q))
   else mret tt);;
  migrationStream a source target (migrationDiskArgs (with_action "send-disk" q))
    (migrationDiskArgs (with_action "receive-disk" q));;
  migrationStream a source target (migrationDiskArgs (with_action "metadata" q)) ("migration-disk" :: "import" :: policy).

(** From the preparation of the source on, nothing is retried. *)
Definition migrate_hosts (a : Actor) (source target : Host) (name token : string) (policy : list string)
    (q : MigrationDiskRequest) : M Net unit :=
  data ← commandJSON source a (["--json"; "migration"; "prepare"; name; ho_Name target; token] ++ policy)%list;
  p ← lift (Unmarshal decode_prepared data);
  require (String.eqb (pr_Token p) token && String.eqb (pr_Target p) (ho_Name target) && String.eqb (pr_Phase p) "prepared")
    (Errorf "prepare response mismatch");;
  let q := with_instance (pr_InstanceID p) (with_action "prepare" q) in
  data ← commandJSON source a (migrationDiskArgs q);
  transfer ← lift (Unmarshal decode_transfer data);
  require (String.eqb (ob_ID (md_Disk (mr_Transfer transfer))) token) (Errorf "native source transfer token mismatch");;
  let q := with_transfer (mr_Transfer transfer) q in
  transfer_disk a source target policy q;;
  data ← query_host target a ["--json"; "migration"; "receipt"; name];
  r ← lift (Unmarshal decode_receipt data);
  require (nonempty (pr_InstanceID p) && String.eqb (rc_SourceInstanceID r) (pr_InstanceID p) &&
           String.eqb (rc_Token r) (pr_Token p) && String.eqb (rc_Phase r) "imported")
    (Errorf "target import receipt mismatch");;
  commandJSON source a ["--json"; "migration"; "complete"; name; token];;
  try (commandJSON source a (migrationDiskArgs (with_action "cleanup" q)));;
  if pr_WasRunning p then transport_Run target a ["start"; name] NoInput;; mret tt else mret tt.

(** What makes the migration of [v] possible at all. *)
Definition migratable (v : inspected) (pool : string) (fixed : bool) : result unit :=
  if negb (in_Integrations v =? 0)%nat then inr (Errorf "migration of integrations is not supported") else
  if (nonempty (in_Pool v) || String.eqb (in_Mode v) "pool") && String.eqb pool "" && negb fixed
  then inr (Errorf "pooled source requires --pool TARGET_POOL or --fixed-memory") else
  if String.eqb (in_Image v) "" || (in_CPUs v <=? 0) || (in_RAM v <=? 0) || (in_Disk v <=? 0)
  then inr (Errorf "source inspect lacks migration shape") else inl tt.

(** The source, by its host where [--host] gives it. *)
Definition migration_reference (args : list string) (override : string) : string :=
  let reference := nth 1 args "" in
  if nonempty override && negb (Contains reference "/") then (override +:+ "/" +:+ reference)%stdpp else reference.

(** [token]: what [uuid.NewString] returns. *)
Definition migrate (a : Actor) (args : list string) (override token : string) : M Net unit :=
  require ((4 <=? length args)%nat && String.eqb (nth 2 args "") "--to")
    (Errorf "usage: migrate NAME --to HOST [--pool TARGET_POOL | --fixed-memory]");;
  let policy := drop 4 args in
  '(pool, fixed) ← lift (migration_policy policy);
  '(source, name, err) ← resolve a (migration_reference args override);
  match err with Some e => throw e | None => mret tt end;;
  require (String.eqb override "" || String.eqb override (ho_Name source)) (Errorf "conflicting source host");;
  target ← lift (find_host (nth 3 args ""));
  require (negb (String.eqb (ho_Name source) (ho_Name target))) (Errorf "source and target are identical");;
  data ← query_host source a ["--json"; "inspect"; name];
  v ← lift (Unmarshal decode_inspect data);
  lift (migratable v pool fixed);;
  data ← query_host target a (preflight_args name pool v);
  p ← lift (Unmarshal decode_placement data);
  require (pl_Eligible p) (Errorf "target ineligible");;
  let q := mkMigrationDiskRequest "check" name (in_ID v) token no_transfer in
  for_each (λ h, wrapping "host native migration unavailable (source not prepared): "
                   (commandJSON h a (migrationDiskArgs q));; mret tt) [source; target];;
  wrapping "do not retry automatically; inspect migration status on source and receipt on target: "
    (migrate_hosts a source target name token policy q).

(** *** Commands *)

(** [list], [status] and [node list] ask every host. *)
Definition aggregate (a : Actor) (orb : bool) (args : list string) (hostName : string) : M Net unit :=
  let node := String.eqb (hd "" args) "node" in
  require (negb node || ((length args =? 2)%nat && String.eqb (nth 1 args "") "list"))
    (Errorf "usage: node list [--host HOST] [--json]");;
  hosts ← (if node && nonempty hostName then h ← lift (find_host hostName); mret [h] else mret Hosts);
  let queryArgs := if node then ["--json"; "status"]
                   else if orb then "--json" :: "orb" :: args else "--json" :: args in
  results ← query_all hosts a queryArgs;
  query (λ _, inl tt);; (* renderAggregate, renderNodes *)
  require (forallb (λ r : Host * result string, match r.2 with inl _ => true | inr _ => false end) results)
    (Errorf "partial response: one or more hosts failed").

(** The host of [new], if the command names or needs one, and the command. *)
Definition route_new (a : Actor) (args : list string) (hostName : string) : M Net (Host * list string) :=
  require (negb (String.eqb hostName "" && existsb is_template (drop 1 args)))
    (Errorf "new --template requires --host; templates are host-local");;
  require ((2 <=? length args)%nat && negb (HasPrefix (nth 1 args "") "-")) (Errorf "new requires NAME before its options");;
  if Contains (nth 1 args "") "/" then
    '(h, n, err) ← resolve a (nth 1 args "");
    match err with Some e => throw e | None => mret tt end;;
    require (String.eqb hostName "" || String.eqb hostName (ho_Name h)) (Errorf "conflicting host");;
    mret (h, <[1%nat := n]> args)
  else if String.eqb hostName "" then h ← choose a (drop 1 args); mret (h, args)
  else mret (no_host, args).

(** The host that has the instance. *)
Definition route_owner (a : Actor) (orb : bool) (args : list string) (hostName : string) : M Net (Host * list string) :=
  let cmd := hd "" args in
  require (negb (String.eqb cmd "delete" && (2 <? length args)%nat && String.eqb (nth 2 args "") "--expect" &&
                 String.eqb hostName "")) (Errorf "delete --expect requires --host");;
  require (negb (String.eqb cmd "bootstrap" && negb orb)) (Errorf "use orb bootstrap NAME");;
  match name_index args with
  | None => throw (Errorf "command requires name")
  | Some i =>
      let name := nth i args "" in
      if String.eqb hostName "" || Contains name "/" then
        '(h, n, err) ← resolve a name;
        require (String.eqb hostName "" || String.eqb hostName (ho_Name h)) (Errorf "conflicting host");;
        match err with Some e => throw e | None => mret tt end;;
        mret (h, <[i := n]> args)
      else mret (no_host, args)
  end.

Definition route (a : Actor) (orb : bool) (args : list string) (hostName : string) : M Net (Host * list string) :=
  let cmd := hd "" args in
  if String.eqb cmd "new" then route_new a args hostName
  else if bool_decide (cmd ∈ owner_commands) then route_owner a orb args hostName
  else if bool_decide (cmd ∈ host_commands) then
    require (nonempty hostName) (Errorf "command requires --host");; mret (no_host, args)
  else throw (Errorf "unsupported command").

(** [Router.Run]: [inp] is the user's standard input. *)
Definition Run (a : Actor) (token : string) (args : list string) : M Net unit :=
  '(hostName, args, asJSON) ← lift (front_options args "" [] false);
  require (negb (bool_decide (args = []))) (Errorf "command required");;
  '(orb, args) ← lift (orb_command args asJSON);
  let cmd := hd "" args in
  if String.eqb cmd "help" && String.eqb hostName "" then require (negb asJSON) (Errorf "help does not support --json") else
  lift (reserved_command args hostName);;
  if ((String.eqb cmd "list" || String.eqb cmd "status") && String.eqb hostName "") || String.eqb cmd "node"
  then aggregate a orb args hostName else
  if String.eqb cmd "migrate"
  then require (negb asJSON) (Errorf "migrate does not support --json");; migrate a args hostName token else
  '(h, args) ← route a orb args hostName;
  h ← (if String.eqb (ho_Name h) "" then lift (find_host hostName) else mret h);
  let words := ((if asJSON then ["--json"] else []) ++ (if (orb : bool) then ["orb"] else []) ++ args)%list in
  let inp := if String.eqb cmd "import" || (orb && String.eqb cmd "bootstrap") then UserInput else NoInput in
  wrapping "host: outcome may be uncertain; not retried: " (transport_Run h a words inp);;
  mret tt.
End router.
