(* ===== verification/FrontSpec.v ===== *)
(** * What the front end sends, and where

    A command reaches one host, the right one, once; a migration follows its protocol. *)
From S2P Require Import Prelude GoStrings Model RunnerState Identity Config Access Front.
From stdpp Require Import relations.

#[local] Open Scope Z_scope.

(** ** The order of candidates *)

Lemma ltb_leb a b : String.ltb a b = false ↔ String.le b a.
Proof.
  unfold String.le, String.ltb, String.leb. rewrite (String.compare_antisym a b).
  destruct (String.compare b a); cbn; split; done.
Qed.

(** More memory first, then more disk, then by name. *)
Lemma not_after_iff x y : not_after x y ↔
  pl_Memory y.2 < pl_Memory x.2 ∨ pl_Memory x.2 = pl_Memory y.2 ∧
  (pl_Disk y.2 < pl_Disk x.2 ∨ pl_Disk x.2 = pl_Disk y.2 ∧ String.le (ho_Name x.1) (ho_Name y.1)).
Proof.
  unfold not_after, before.
  destruct (Z.eqb_spec (pl_Memory y.2) (pl_Memory x.2)), (Z.eqb_spec (pl_Disk y.2) (pl_Disk x.2)); cbn.
  - rewrite ltb_leb. split; [auto|]. intros [|[_ [|[_ ]]]]; [lia..|done].
  - rewrite Z.ltb_ge. split; [|lia]. intros. right. split; [done|]. left. lia.
  - rewrite Z.ltb_ge. split; [|lia]. intros. left. lia.
  - rewrite Z.ltb_ge. split; [|lia]. intros. left. lia.
Qed.

#[export] Instance not_after_trans : Transitive not_after.
Proof.
  intros x y z. rewrite !not_after_iff. intros [|[E1 [|[E2 H1]]]] [|[E3 [|[E4 H2]]]]; [lia..|].
  right. split; [lia|]. right. split; [lia|]. by transitivity (ho_Name y.1).
Qed.
#[export] Instance not_after_total : Total not_after.
Proof.
  intros x y. rewrite !not_after_iff. destruct (total String.le (ho_Name x.1) (ho_Name y.1)); lia || auto.
  - destruct (Z.lt_trichotomy (pl_Memory x.2) (pl_Memory y.2)) as [|[|]]; [auto| |auto].
    destruct (Z.lt_trichotomy (pl_Disk x.2) (pl_Disk y.2)) as [|[|]]; auto 6.
  - destruct (Z.lt_trichotomy (pl_Memory x.2) (pl_Memory y.2)) as [|[|]]; [auto| |auto].
    destruct (Z.lt_trichotomy (pl_Disk x.2) (pl_Disk y.2)) as [|[|]]; auto 6.
Qed.

Lemma sort_candidates_first l c l' :
  sort_candidates l = c :: l' → c ∈ l ∧ ∀ c', c' ∈ l → not_after c c'.
Proof.
  intros Hl. pose proof (merge_sort_Permutation not_after l) as Hp. pose proof (StronglySorted_merge_sort not_after l) as Hs.
  unfold sort_candidates in Hl. rewrite Hl in Hp, Hs. split; [rewrite <- Hp; by left|].
  intros c'. rewrite <- Hp. intros [->|Hc]%elem_of_cons.
  - rewrite not_after_iff. right. split; [done|]. right. by split.
  - apply StronglySorted_inv in Hs as [_ Hs]. rewrite Forall_forall in Hs. auto.
Qed.

(** ** What a program sends *)

Section sends.
Context {B : Type} {codec : Codec} (serve : Host → Actor → list string → input → B → reply * B).

#[local] Abbreviation Net := (Net B).
#[local] Abbreviation transport_Run := (transport_Run serve).
#[local] Abbreviation commandJSON := (commandJSON serve).

(** The hosts, as the commands change them. *)
Inductive evolves : B → list sent → B → Prop :=
  | evolves_nil b : evolves b [] b
  | evolves_cons b e b1 t b2 :
      serve (se_host e) (se_actor e) (se_args e) (se_input e) b = (se_reply e, b1) → evolves b1 t b2 →
      evolves b (e :: t) b2.

Lemma evolves_app b t1 b1 t2 b2 : evolves b t1 b1 → evolves b1 t2 b2 → evolves b (t1 ++ t2) b2.
Proof. induction 1; [done|]. intros. econstructor; eauto. Qed.

Lemma evolves_split b t1 t2 b2 : evolves b (t1 ++ t2) b2 → ∃ b1, evolves b t1 b1 ∧ evolves b1 t2 b2.
Proof.
  revert b. induction t1 as [|e t1 IH]; intros b H; cbn in H.
  - exists b. split; [constructor|done].
  - inversion H as [|? ? b1 ? ? Hs H']; subst. destruct (IH _ H') as (b3 & H1 & H2). exists b3.
    split; [by econstructor|done].
Qed.

(** However [m] ends, it has sent [t], and [P] holds of both. *)
Definition sends {A} (m : M Net A) (P : outcome A → list sent → Prop) : Prop :=
  ∀ s, wp m (λ o s', ∃ t, nt_sent s' = (nt_sent s ++ t)%list ∧ evolves (nt_backend s) t (nt_backend s') ∧ P o t) s.

Lemma sends_mono {A} (m : M Net A) (P P' : outcome A → list sent → Prop) :
  sends m P → (∀ o t, P o t → P' o t) → sends m P'.
Proof. intros Hm HP s. eapply wp_mono; [apply Hm|]. intros o s' (t & Ht & Hb & H). exists t. auto. Qed.

Lemma sends_silent {A} (m : M Net A) (P : outcome A → list sent → Prop) :
  (∀ s, wp m (λ o s', s' = s ∧ P o []) s) → sends m P.
Proof. intros Hm s. eapply wp_mono; [apply Hm|]. intros o s' [-> H]. exists []. rewrite app_nil_r. split; [done|]. split; [constructor|done]. Qed.

Lemma sends_ret {A} (a : A) (P : outcome A → list sent → Prop) : P (Ok a) [] → sends (mret a) P.
Proof. intros H. apply sends_silent. intros s. by apply wp_ret. Qed.
Lemma sends_throw {A} e (P : outcome A → list sent → Prop) : P (Err e) [] → sends (throw e) P.
Proof. intros H. apply sends_silent. intros s. by apply wp_throw. Qed.
Lemma sends_lift {A} (r : result A) (P : outcome A → list sent → Prop) : P (of_result r) [] → sends (lift r) P.
Proof. intros H. apply sends_silent. intros s. by apply wp_lift. Qed.
Lemma sends_require b e (P : outcome unit → list sent → Prop) :
  (b = true → P (Ok tt) []) → (b = false → P (Err e) []) → sends (require b e) P.
Proof. intros H1 H2. apply sends_silent. intros s. apply wp_require; auto. Qed.

Lemma sends_bind {A C} (m : M Net A) (k : A → M Net C) (P : outcome C → list sent → Prop) :
  sends m (λ o t, match o with
                  | Ok a => sends (k a) (λ o' t', P o' (t ++ t')%list)
                  | Err e => P (Err e) t
                  | Crashed => P Crashed t
                  end) →
  sends (m ≫= k) P.
Proof.
  intros Hm s. apply wp_bind. eapply wp_mono; [apply Hm|]. intros [a|e|] s' (t & Ht & Hb & H); [|by exists t..].
  eapply wp_mono; [apply H|]. intros o s'' (t' & Ht' & Hb' & H'). exists (t ++ t')%list.
  rewrite Ht', Ht, app_assoc. split; [done|]. split; [by eapply evolves_app|done].
Qed.

Lemma sends_try {A} (m : M Net A) (P : outcome (result A) → list sent → Prop) :
  sends m (λ o t, match o with Ok a => P (Ok (inl a)) t | Err e => P (Ok (inr e)) t | Crashed => P Crashed t end) →
  sends (try m) P.
Proof.
  intros Hm s. apply wp_try. eapply wp_mono; [apply Hm|]. intros [a|e|] s' (t & Ht & Hb & H); by exists t.
Qed.

Lemma sends_wrapping {A} text (m : M Net A) (P : outcome A → list sent → Prop) :
  sends m (λ o t, match o with Err e => P (Err (wrap text e)) t | o => P o t end) → sends (wrapping text m) P.
Proof.
  intros Hm. apply sends_bind, sends_try. eapply sends_mono; [exact Hm|]. intros [a|e|] t H; [| |done].
  - apply sends_ret. by rewrite app_nil_r.
  - apply sends_throw. by rewrite app_nil_r.
Qed.

(** A command that may be lost before it is sent, and after it was carried out. *)
Lemma sends_run h a args inp (P : outcome string → list sent → Prop) :
  P (Err ErrIO) [] → P Crashed [] →
  (∀ r, P (of_result (reply_result r)) [mkSent h a args inp r]) → (∀ r, P Crashed [mkSent h a args inp r]) →
  sends (transport_Run h a args inp) P.
Proof.
  intros H1 H2 H3 H4 s. unfold Front.transport_Run. destruct (serve h a args inp (nt_backend s)) as [r b] eqn:Hs.
  assert (Hev : evolves (nt_backend s) [mkSent h a args inp r] b) by by econstructor; [|constructor].
  assert (Hno : evolves (nt_backend s) [] (nt_backend s)) by constructor.
  apply wp_env; rewrite ?Hs; cbn; [exists []; by rewrite app_nil_r..|by eexists|by eexists].
Qed.

(** A query: at most one command, answered if the query succeeds. *)
Definition asked (h : Host) (a : Actor) (args : list string) (o : outcome string) (t : list sent) : Prop :=
  (t = [] ∧ (∀ out, o ≠ Ok out)) ∨
  ∃ r, t = [mkSent h a args NoInput r] ∧ (o = Crashed ∨ ∀ out, o = Ok out ↔ r = Replied out ∧ json_Valid out = true).

(** An error that is not a refusal by the router itself. *)
Definition from_host (t : list sent) (e : error) : Prop :=
  e ≠ ErrNoEligibleHost ∧ ∀ n c, e = ErrExit n c → ∃ x out, x ∈ t ∧ se_reply x = Exited n out.

Lemma sends_command h a args (P : outcome string → list sent → Prop) :
  (∀ o t, asked h a args o t → (∀ e, o = Err e → from_host t e) → P o t) → sends (commandJSON h a args) P.
Proof.
  intros HP. unfold Front.commandJSON. apply sends_bind, sends_wrapping.
  assert (Hone : ∀ r o, (o = Crashed ∨ ∀ out, o = Ok out ↔ r = Replied out ∧ json_Valid out = true) →
    (∀ e, o = Err e → from_host [mkSent h a args NoInput r] e) → P o [mkSent h a args NoInput r]).
  { intros r o Ho He. apply HP; [right; by exists r|done]. }
  apply sends_run; [|apply HP; [left; by split|done]| |].
  - apply HP; [left; by split|]. intros e [= <-]. by split.
  - intros [out|n out|]; cbn.
    + apply sends_bind, sends_require; intros Hv.
      * apply sends_ret. apply Hone; [|done]. right. intros out'. split; [by intros [= <-]|by intros [[= ->] _]].
      * apply Hone; [|intros e [= <-]; by split]. right. intros out'. split; [done|]. intros [[= ->] ?]. congruence.
    + apply Hone; [right; intros ?; split; [done|by intros []]|]. intros e [= <-]. split; [done|]. intros n' c [= -> _].
      eexists _, _. split; [by left|done].
    + apply Hone; [right; intros ?; split; [done|by intros []]|]. intros e [= <-]. by split.
  - intros r. apply Hone; [by left|done].
Qed.

(** *** All hosts at once *)

Definition query_of (hosts : list Host) (a : Actor) (args : list string) (e : sent) : Prop :=
  se_host e ∈ hosts ∧ se_actor e = a ∧ se_args e = args ∧ se_input e = NoInput.

(** The answers of the hosts, in their order. *)
Inductive heard (a : Actor) (args : list string) : list Host → list (Host * result string) → list sent → Prop :=
  | heard_nil : heard a args [] [] []
  | heard_cons h hosts r answers t1 t2 :
      asked h a args (of_result r) t1 → (∀ e, r = inr e → from_host t1 e) → heard a args hosts answers t2 →
      heard a args (h :: hosts) ((h, r) :: answers) (t1 ++ t2).

Lemma asked_query h a args o t : asked h a args o t → Forall (query_of [h] a args) t.
Proof. intros [[-> _]|(r & -> & _)]; [done|]. apply Forall_singleton. split_and!; try done. by left. Qed.

Lemma query_of_mono hosts hosts' a args t :
  (∀ h, h ∈ hosts → h ∈ hosts') → Forall (query_of hosts a args) t → Forall (query_of hosts' a args) t.
Proof. intros Hh Ht. eapply Forall_impl; [exact Ht|]. intros e (H1 & H2). split; auto. Qed.

Lemma sends_all hosts a args :
  sends (query_all serve hosts a args) (λ o t,
    Forall (query_of hosts a args) t ∧ (∀ e, o ≠ Err e) ∧ ∀ answers, o = Ok answers → heard a args hosts answers t).
Proof.
  induction hosts as [|h hosts IH]; cbn.
  { apply sends_ret. split_and!; [done..|]. intros ? [= <-]. constructor. }
  assert (Hh : ∀ t, Forall (query_of [h] a args) t → Forall (query_of (h :: hosts) a args) t).
  { intros t. apply query_of_mono. intros ? ->%list_elem_of_singleton. by left. }
  apply sends_bind, sends_bind, sends_try. unfold query_host. apply sends_command. intros o t Ho He.
  pose proof (Hh _ (asked_query _ _ _ _ _ Ho)) as Hq.
  assert (Hrest : ∀ r, of_result r = o →
    sends (mret (h, r)) (λ o0 t', match o0 with
      | Ok a0 => sends (xs ← mapM (λ h, r ← try (commandJSON h a args); mret (h, r)) hosts; mret (a0 :: xs))
          (λ o' t'', Forall (query_of (h :: hosts) a args) ((t ++ t') ++ t'') ∧ (∀ e, o' ≠ Err e) ∧
            ∀ answers, o' = Ok answers → heard a args (h :: hosts) answers ((t ++ t') ++ t''))
      | Err e => False | Crashed => False end)).
  { intros r <-. apply sends_ret. rewrite app_nil_r. apply sends_bind. eapply sends_mono; [exact IH|].
    intros o' t' (H1 & H2 & H3).
    assert (Hall : Forall (query_of (h :: hosts) a args) (t ++ t')).
    { apply Forall_app_2; [done|]. eapply query_of_mono; [|exact H1]. intros ? ?. by right. }
    destruct o' as [answers|e|]; [|by destruct (H2 e)|by split_and!].
    apply sends_ret. rewrite app_nil_r. split_and!; [done..|]. intros ? [= <-].
    constructor; [done| |by apply H3]. intros e ->. by apply He. }
  destruct o as [out|e|]; [| |by split_and!].
  - eapply sends_mono; [by apply (Hrest (inl out))|]. by intros [] ?.
  - eapply sends_mono; [by apply (Hrest (inr e))|]. by intros [] ?.
Qed.
End sends.

(** ** Which host *)

Section router.
Context {B : Type} {codec : Codec} (serve : Host → Actor → list string → input → B → reply * B).
Context (Hosts : list Host) (distinct : NoDup (map ho_Name Hosts)).

#[local] Abbreviation sends := (sends serve).

#[local] Abbreviation find_host := (find_host Hosts).

Lemma find_host_in name h : find_host name = inl h → h ∈ Hosts ∧ ho_Name h = name.
Proof.
  unfold Front.find_host. destruct (find _ Hosts) as [h'|] eqn:Hf; [|done]. intros [= ->].
  apply find_some in Hf as [Hin Hn%String.eqb_eq]. split; [by apply list_elem_of_In|done].
Qed.

Lemma find_host_self h : h ∈ Hosts → find_host (ho_Name h) = inl h.
Proof.
  clear -distinct. unfold Front.find_host. induction Hosts as [|h0 hs IH]; [by intros ?%not_elem_of_nil|].
  apply NoDup_cons in distinct as [Hno Hd]. intros [->|Hh]%elem_of_cons; cbn; [by rewrite String.eqb_refl|].
  destruct (String.eqb_spec (ho_Name h0) (ho_Name h)) as [He|]; [|by apply IH].
  destruct Hno. rewrite He. by apply list_elem_of_fmap_2.
Qed.

Lemma heard_in a args hosts answers t :
  heard a args hosts answers t →
  (∀ h data, (h, inl data) ∈ answers → h ∈ hosts ∧ mkSent h a args NoInput (Replied data) ∈ t) ∧
  (∀ h, h ∈ hosts → ∃ r, (h, r) ∈ answers) ∧
  (∀ h out, mkSent h a args NoInput (Replied out) ∈ t → json_Valid out = true → (h, inl out) ∈ answers).
Proof.
  induction 1 as [|h hosts r answers t1 t2 Ha He _ (IH1 & IH2 & IH3)].
  { split_and!; [by intros ?? ?%not_elem_of_nil|by intros ? ?%not_elem_of_nil|by intros ?? ?%not_elem_of_nil]. }
  split_and!.
  - intros h' data [[= -> <-]|Hin]%elem_of_cons.
    + destruct Ha as [[_ Hn]|(r' & -> & [Hc|Hr])]; [by destruct (Hn data)|done|].
      destruct (proj1 (Hr data) eq_refl) as [-> _]. split; by left.
    + destruct (IH1 h' data Hin). split; [by right|]. apply elem_of_app. by right.
  - intros h' [->|Hin]%elem_of_cons; [exists r; by left|]. destruct (IH2 h' Hin) as [r' Hr]. exists r'. by right.
  - intros h' out [Hin|Hin]%elem_of_app Hv; [|right; by apply IH3].
    destruct Ha as [[-> _]|(r' & -> & [Hc|Hr])]; [by apply not_elem_of_nil in Hin|by destruct r|].
    apply list_elem_of_singleton in Hin as [= -> <-]. destruct (Hr out) as [_ Hok].
    specialize (Hok (conj eq_refl Hv)). destruct r as [out'|e]; [|done]. injection Hok as ->. by left.
Qed.

(** *** The owner of a name *)

Definition list_args : list string := ["--json"; "list"; "--all"].

(** A host says that it has the instance, and has not given it away. *)
Definition lists (name out : string) : Prop :=
  ∃ p v, decode_list out = Some p ∧ v ∈ p ∧ li_Name v = name ∧ li_MigrationPhase v ≠ "completed"%string.

(** Every host answered, and [h] alone has the instance. *)
Definition owner (a : Actor) (name : string) (h : Host) (t : list sent) : Prop :=
  (∀ h', h' ∈ Hosts → ∃ out, mkSent h' a list_args NoInput (Replied out) ∈ t ∧ is_Some (decode_list out)) ∧
  (∃ out, mkSent h a list_args NoInput (Replied out) ∈ t ∧ lists name out) ∧
  ∀ h' out, mkSent h' a list_args NoInput (Replied out) ∈ t → json_Valid out = true → lists name out → h' = h.

Lemma matches_ok name answers hs :
  (∀ h r, (h, r) ∈ answers → h ∈ Hosts) → matches Hosts name answers = inl hs →
  (∀ h r, (h, r) ∈ answers → ∃ data, r = inl data ∧ is_Some (decode_list data)) ∧
  ∀ h, h ∈ hs ↔ ∃ data, (h, inl data) ∈ answers ∧ lists name data.
Proof.
  revert hs. induction answers as [|[h0 r0] answers IH]; intros hs Hin; cbn.
  { intros [= <-]. split; [by intros ?? ?%not_elem_of_nil|]. intros h. split; [by intros ?%not_elem_of_nil|].
    by intros (? & ?%not_elem_of_nil & _). }
  destruct r0 as [data|e]; [|done]. unfold Unmarshal. destruct (decode_list data) as [p|] eqn:Hd; [|done]. cbn.
  destruct (matches Hosts name answers) as [rest|e] eqn:Hm; [|done]. cbn. intros [= <-].
  destruct (IH rest) as [IH1 IH2]; [intros h r ?; apply (Hin h r); by right|done|].
  rewrite (find_host_self h0) by (apply (Hin h0 (inl data)); by left). split.
  - intros h r [[= -> ->]|Hr]%elem_of_cons; [exists data; split; [done|by eexists]|by eapply IH1].
  - intros h. rewrite elem_of_app, IH2. split.
    + intros [Hh|(d & Hd' & Hl)]; [|exists d; split; [by right|done]].
      apply list_elem_of_fmap in Hh as (v & -> & [[Hn Hp] Hv]%list_elem_of_filter).
      exists data. split; [by left|]. by exists p, v.
    + intros (d & [[= -> ->]|Hd']%elem_of_cons & Hl); [left|right; by exists d].
      destruct Hl as (p' & v & Hp' & Hv & Hn & Hph). assert (p' = p) as -> by congruence.
      apply list_elem_of_fmap. exists v. split; [done|]. by apply list_elem_of_filter.
Qed.

Lemma matches_error name answers e : matches Hosts name answers = inr e → ExitStatus e = 1.
Proof.
  induction answers as [|[h [data|e0]] answers IH]; cbn; [done| |by intros [= <-]].
  unfold Unmarshal. destruct (decode_list data); [|by intros [= <-]]. cbn.
  destruct (matches Hosts name answers) as [rest|e1]; [done|]. intros [= <-]. by apply IH.
Qed.

Lemma find_host_error name e : find_host name = inr e → ExitStatus e = 1.
Proof. unfold Front.find_host. destruct (find _ Hosts); [done|]. by intros [= <-]. Qed.

(** The host a name leads to, and the name there. *)
Definition resolved (a : Actor) (name : string) (h : Host) (n : string) (t : list sent) : Prop :=
  h ∈ Hosts ∧ (Cut name "/" = (ho_Name h, n, true) ∧ t = [] ∨ (Cut name "/").2 = false ∧ n = name ∧ owner a name h t).

Lemma sends_resolve a name :
  sends (resolve serve Hosts a name) (λ o t,
    Forall (query_of Hosts a list_args) t ∧ (∀ e, o ≠ Err e) ∧
    ∀ h n err, o = Ok (h, n, err) →
      (∀ e, err = Some e → ExitStatus e = 1) ∧ (err = None → resolved a name h n t)).
Proof.
  unfold resolve. destruct (Cut name "/") as [[hn n] []] eqn:Hcut.
  - apply sends_ret. split_and!; [done..|]. intros h n' err [= <- <- <-]. destruct (find_host hn) as [h|e] eqn:Hh.
    + case_match; split; try done; [by intros ? [= <-]|]. intros _. apply find_host_in in Hh as [Hin <-].
      split; [done|by left].
    + pose proof (find_host_error _ _ Hh). case_match; split; try done; by intros ? [= <-].
  - apply sends_bind. eapply sends_mono; [apply sends_all|]. intros o t (Hq & Hne & Hok).
    destruct o as [answers|e|]; [|by destruct (Hne e)|by split_and!]. specialize (Hok answers eq_refl).
    pose proof (heard_in _ _ _ _ _ Hok) as (H1 & H2 & H3).
    assert (Hend : ∀ h n err, (∀ e, err = Some e → ExitStatus e = 1) → (err = None → resolved a name h n t) →
      sends (mret (h, n, err)) (λ o' t', Forall (query_of Hosts a list_args) (t ++ t') ∧ (∀ e, o' ≠ Err e) ∧
        ∀ h' n' err', o' = Ok (h', n', err') →
          (∀ e, err' = Some e → ExitStatus e = 1) ∧ (err' = None → resolved a name h' n' (t ++ t')))).
    { intros h n' err He Hr. apply sends_ret. rewrite app_nil_r. split_and!; [done..|]. by intros ??? [= <- <- <-]. }
    destruct (matches Hosts name answers) as [hs|e] eqn:Hm; [|apply Hend; [|done]; intros ? [= <-]; by eapply matches_error].
    destruct hs as [|h [|h' hs]]; [apply Hend; [by intros ? [= <-]|done]| |apply Hend; [by intros ? [= <-]|done]].
    apply Hend; [done|]. intros _.
    assert (Hin : ∀ h r, (h, r) ∈ answers → h ∈ Hosts).
    { clear -Hok. induction Hok as [|h hosts r answers t1 t2 _ _ _ IH]; [by intros ?? ?%not_elem_of_nil|].
      intros h' r' [[= -> _]|Hr]%elem_of_cons; [by left|right; by eapply IH]. }
    destruct (matches_ok name answers [h] Hin Hm) as [M1 M2].
    destruct (proj1 (M2 h)) as (data & Hd & Hl); [by left|]. destruct (H1 h data Hd) as [Hh Ht].
    split; [done|]. right. split; [by rewrite Hcut|]. split; [done|]. split_and!.
    + intros h' Hh'. destruct (H2 h' Hh') as [r Hr]. destruct (M1 h' r Hr) as (d & -> & Hdec).
      exists d. split; [by apply H1|done].
    + by exists data.
    + intros h' out Hs Hv Hls. apply list_elem_of_singleton, M2. exists out. split; [by apply H3|done].
Qed.

(** *** The choice of a host *)

Definition placement_args (args : list string) : list string := "--json" :: "placement" :: args.

(** [h] takes the instance, and no host that takes it is better. *)
Definition best (a : Actor) (args : list string) (h : Host) (t : list sent) : Prop :=
  h ∈ Hosts ∧ ∃ out p, mkSent h a (placement_args args) NoInput (Replied out) ∈ t ∧ decode_placement out = Some p ∧
    pl_Eligible p = true ∧
    ∀ h' out' p', mkSent h' a (placement_args args) NoInput (Replied out') ∈ t → json_Valid out' = true →
      decode_placement out' = Some p' → pl_Eligible p' = true → not_after (h, p) (h', p').

Lemma candidates_in answers h p :
  (∀ h r, (h, r) ∈ answers → h ∈ Hosts) →
  (h, p) ∈ candidates Hosts answers ↔
  ∃ out, (h, inl out) ∈ answers ∧ decode_placement out = Some p ∧ pl_Eligible p = true.
Proof.
  intros Hin. unfold candidates. rewrite list_elem_of_omap. split.
  - intros ([h0 [out|e]] & H0 & H); [|done]. destruct (decode_placement out) as [p0|] eqn:Hd; [|done]. cbn in H.
    destruct (pl_Eligible p0) eqn:He; [|done]. rewrite (find_host_self h0) in H by by eapply Hin.
    injection H as -> ->. by exists out.
  - intros (out & H0 & Hd & He). exists (h, inl out). split; [done|]. rewrite Hd. cbn. rewrite He.
    by rewrite (find_host_self h) by by eapply Hin.
Qed.

Lemma sends_choose a args :
  sends (choose serve Hosts a args) (λ o t,
    Forall (query_of Hosts a (placement_args args)) t ∧ (∀ e, o = Err e → e = ErrNoEligibleHost) ∧
    ∀ h, o = Ok h → best a args h t).
Proof.
  unfold choose. apply sends_bind. eapply sends_mono; [apply sends_all|]. intros o t (Hq & Hne & Hok).
  destruct o as [answers|e|]; [|by destruct (Hne e)|by split_and!]. specialize (Hok answers eq_refl).
  pose proof (heard_in _ _ _ _ _ Hok) as (H1 & H2 & H3).
  destruct (sort_candidates (candidates Hosts answers)) as [|[h p] l] eqn:Hs.
  { apply sends_throw. rewrite app_nil_r. split_and!; [done|by intros ? [= <-]|done]. }
  apply sends_ret. rewrite app_nil_r. split_and!; [done..|]. intros ? [= <-].
  assert (Hin : ∀ h r, (h, r) ∈ answers → h ∈ Hosts).
  { clear -Hok. induction Hok as [|h0 hosts r answers t1 t2 _ _ _ IH]; [by intros ?? ?%not_elem_of_nil|].
    intros h' r' [[= -> _]|Hr]%elem_of_cons; [by left|right; by eapply IH]. }
  apply sort_candidates_first in Hs as [Hc Hbest]. apply candidates_in in Hc as (out & Ha & Hd & He); [|done].
  destruct (H1 h out Ha) as [Hh Ht]. split; [done|]. exists out, p. split_and!; [done..|].
  intros h' out' p' Hs' Hv Hd' He'. apply Hbest, candidates_in; [done|]. exists out'. split; [by apply H3|done].
Qed.

(** *** Commands *)

(** A command that changes nothing on its host. *)
Definition reads (e : sent) : Prop :=
  se_input e = NoInput ∧ ∃ c l, c ∈ ["list"; "status"; "placement"] ∧
    (se_args e = "--json" :: c :: l ∨ c = "list" ∧ se_args e = "--json" :: "orb" :: c :: l).

Lemma query_reads hosts a c l t :
  c ∈ ["list"; "status"; "placement"] → Forall (query_of hosts a ("--json" :: c :: l)) t → Forall reads t.
Proof.
  intros Hc Ht. eapply Forall_impl; [exact Ht|]. intros e (_ & _ & Ha & Hi). split; [done|]. exists c, l. auto.
Qed.

(** Where the command goes, and as what. *)
Definition destination (a : Actor) (args : list string) (hostName : string) (h : Host) (args' : list string)
    (t : list sent) : Prop :=
  (h = no_host ∧ hostName ≠ "" ∧ args' = args ∧ t = []) ∨
  (hostName = "" ∧ hd "" args = "new" ∧ args' = args ∧ best a (drop 1 args) h t) ∨
  ∃ i n, (0 < i < length args)%nat ∧ args' = <[i := n]> args ∧ resolved a (nth i args "") h n t ∧
    (hostName = "" ∨ hostName = ho_Name h).

Definition refusal (e : error) : Prop := ExitStatus e = 1 ∨ e = ErrNoEligibleHost.

Definition routed (a : Actor) (args : list string) (hostName : string) (o : outcome (Host * list string))
    (t : list sent) : Prop :=
  Forall reads t ∧ (∀ e, o = Err e → refusal e) ∧ ∀ h args', o = Ok (h, args') → destination a args hostName h args' t.

Lemma routed_err a args hostName e t : Forall reads t → refusal e → routed a args hostName (Err e) t.
Proof. intros Ht He. split; [done|]. split; [by intros ? [= <-]|done]. Qed.
Lemma routed_ok a args hostName h args' t :
  Forall reads t → destination a args hostName h args' t → routed a args hostName (Ok (h, args')) t.
Proof. intros Ht Hd. split; [done|]. split; [done|]. by intros ?? [= <- <-]. Qed.

(** [resolve] within a command; both orders of its checks. *)
Lemma sends_resolved a args hostName i (k : Host * string * option error → M (Net B) (Host * list string)) :
  (0 < i < length args)%nat →
  (∀ h n, hostName = "" ∨ hostName = ho_Name h → k (h, n, None) = mret (h, <[i := n]> args)) →
  (∀ h n err, (∃ e, k (h, n, err) = throw e ∧ (ExitStatus e = 1 ∨ err = Some e)) ∨
     err = None ∧ (hostName = "" ∨ hostName = ho_Name h)) →
  sends (r ← resolve serve Hosts a (nth i args ""); k r) (routed a args hostName).
Proof.
  intros Hi Hk Hbad. apply sends_bind. eapply sends_mono; [apply sends_resolve|]. intros o t (Hq & Hne & Hok).
  assert (Hr : Forall reads t) by (eapply query_reads; [|exact Hq]; by left).
  destruct o as [[[h n] err]|e|]; [|by destruct (Hne e)|by split_and!].
  destruct (Hok h n err eq_refl) as [He Hn]. destruct (Hbad h n err) as [(e & -> & Hst)|[-> Hh]].
  - apply sends_throw. rewrite app_nil_r. apply routed_err; [done|]. left. destruct Hst; auto.
  - rewrite Hk by done. apply sends_ret. rewrite app_nil_r. apply routed_ok; [done|]. right. right.
    exists i, n. split_and!; [lia|lia|done|by apply Hn|done].
Qed.

Lemma sends_route_new a args hostName :
  hd "" args = "new" → sends (route_new serve Hosts a args hostName) (routed a args hostName).
Proof.
  intros Hcmd. unfold route_new. apply sends_bind, sends_require; intros _; [|by apply routed_err; [|left]].
  apply sends_bind, sends_require; intros Hname; [|by apply routed_err; [|left]].
  apply andb_true_iff in Hname as [Hlen%Nat.leb_le _]. cbn [app].
  destruct (Contains (nth 1 args "") "/").
  - apply (sends_resolved a args hostName 1); [lia| |].
    + intros h n Hh. cbn. assert (String.eqb hostName "" || String.eqb hostName (ho_Name h) = true) as ->; [|done].
      apply orb_true_iff. rewrite !String.eqb_eq. done.
    + intros h n [e|]; cbn; [left; exists e; by split; [|right]|].
      destruct (String.eqb_spec hostName "") as [->|]; cbn; [right; auto|].
      destruct (String.eqb_spec hostName (ho_Name h)); cbn; [right; auto|]. left. eexists. split; [done|by left].
  - destruct (String.eqb_spec hostName "") as [->|Hne].
    + apply sends_bind. eapply sends_mono; [apply sends_choose|]. intros o t (Hq & He & Hok).
      assert (Hr : Forall reads t) by (eapply query_reads; [|exact Hq]; set_solver).
      destruct o as [h|e|]; [|by apply routed_err; [|right; apply He]|by split_and!].
      apply sends_ret. rewrite app_nil_r. apply routed_ok; [done|]. right. left. split_and!; auto.
    + apply sends_ret. apply routed_ok; [done|]. left. by split_and!.
Qed.

Lemma name_index_bound args i : name_index args = Some i → (0 < i < length args)%nat.
Proof.
  assert (Hlog : ∀ l k, match log_name k l with Some j => (k <= j)%nat | None => True end).
  { induction l as [|x l IH]; intros k; cbn; [done|]. destruct (_ && _ && _); [lia|]. specialize (IH (S k)). destruct (log_name _ _); [lia|done]. }
  unfold name_index. specialize (Hlog (drop 1 args) 1%nat).
  destruct (String.eqb _ "logs").
  - destruct (log_name 1 (drop 1 args)) as [n|]; [|done]. destruct (Nat.ltb_spec n (length args)); [|done]. intros [= <-]. lia.
  - set (n := if _ || _ then 2%nat else 1%nat). assert (0 < n)%nat by (unfold n; destruct (_ || _); lia).
    destruct (Nat.ltb_spec n (length args)); [|done]. intros [= <-]. lia.
Qed.

Lemma sends_route_owner a orb args hostName :
  sends (route_owner serve Hosts a orb args hostName) (routed a args hostName).
Proof.
  unfold route_owner. apply sends_bind, sends_require; intros _; [|by apply routed_err; [|left]].
  apply sends_bind, sends_require; intros _; [|by apply routed_err; [|left]]. cbn [app].
  destruct (name_index args) as [i|] eqn:Hi; [|apply sends_throw; by apply routed_err; [|left]].
  apply name_index_bound in Hi. destruct (String.eqb hostName "" || _) eqn:Hq.
  - apply (sends_resolved a args hostName i); [done| |].
    + intros h n Hh. cbn. assert (String.eqb hostName "" || String.eqb hostName (ho_Name h) = true) as ->; [|done].
      apply orb_true_iff. rewrite !String.eqb_eq. done.
    + intros h n err. destruct (String.eqb_spec hostName "") as [->|]; cbn.
      * destruct err as [e1|]; cbn; [left; exists e1; by split; [|right]|right; auto].
      * destruct (String.eqb_spec hostName (ho_Name h)); cbn; [|left; eexists; split; [done|by left]].
        destruct err as [e1|]; cbn; [left; exists e1; by split; [|right]|right; auto].
  - apply sends_ret. apply routed_ok; [done|]. left. apply orb_false_iff in Hq as [Hq%String.eqb_neq _]. by split_and!.
Qed.

Lemma sends_route a orb args hostName : sends (route serve Hosts a orb args hostName) (routed a args hostName).
Proof.
  unfold route. destruct (String.eqb_spec (hd "" args) "new"); [by apply sends_route_new|].
  case_bool_decide; [by apply sends_route_owner|]. case_bool_decide; [|apply sends_throw; by apply routed_err; [|left]].
  apply sends_bind, sends_require; intros Hh%nonempty_spec || intros Hh; [|by apply routed_err; [|left]].
  apply sends_ret. apply routed_ok; [done|]. left. by split_and!.
Qed.

(** *** [Run] *)

Context (named : ∀ h, h ∈ Hosts → ho_Name h ≠ "").

(** The command went to the host that was named, that was chosen for it, or that alone has
    its instance; [qs] was asked before. *)
Definition addressed (a : Actor) (words : list string) (hostName : string) (qs : list sent) (h : Host)
    (words' : list string) : Prop :=
  h ∈ Hosts ∧
  ((hostName ≠ "" ∧ ho_Name h = hostName ∧ words' = words) ∨
   (hostName = "" ∧ hd "" words = "new" ∧ words' = words ∧ best a (drop 1 words) h qs) ∨
   ∃ i n, (0 < i < length words)%nat ∧ words' = <[i := n]> words ∧ resolved a (nth i words "") h n qs ∧
     (hostName = "" ∨ hostName = ho_Name h)).

(** Commands that concern no single host. *)
Definition local_command (words : list string) (hostName : string) : bool :=
  (String.eqb (hd "" words) "help" || String.eqb (hd "" words) "list" || String.eqb (hd "" words) "status") &&
  String.eqb hostName "" || String.eqb (hd "" words) "node".

Definition command_words (asJSON orb : bool) (words : list string) : list string :=
  ((if asJSON then ["--json"] else []) ++ (if orb then ["orb"] else []) ++ words)%list.

(** What [Run] sends: queries, and then the command, at most once. *)
Definition ran (a : Actor) (words : list string) (hostName : string) (asJSON orb : bool) (o : outcome unit)
    (t : list sent) : Prop :=
  ∃ qs rest, t = (qs ++ rest)%list ∧ Forall reads qs ∧
    ((rest = [] ∧ (o = Ok tt → local_command words hostName = true) ∧ ∀ e, o = Err e → refusal e) ∨
     ∃ h words' inp r, rest = [mkSent h a (command_words asJSON orb words') inp r] ∧
       (inp = UserInput → hd "" words = "import" ∨ hd "" words = "bootstrap") ∧
       addressed a words hostName qs h words' ∧ (o = Ok tt → ∃ out, r = Replied out) ∧
       ∀ e, o = Err e → ExitStatus e = 1 ∨ ∃ n out, r = Exited n out ∧ ExitStatus e = n).

Lemma ran_nothing a words hostName asJSON orb o t :
  Forall reads t → (o = Ok tt → local_command words hostName = true) → (∀ e, o = Err e → refusal e) →
  ran a words hostName asJSON orb o t.
Proof. intros Ht Ho He. exists t, []. rewrite app_nil_r. split_and!; [done..|]. by left. Qed.

Lemma sends_aggregate a orb words hostName asJSON :
  (orb = true → hd "" words = "list") → local_command words hostName = true →
  hd "" words ≠ "help" →
  sends (aggregate serve Hosts a orb words hostName) (ran a words hostName asJSON orb).
Proof.
  intros Horb Hlocal Hhelp. unfold aggregate.
  assert (Hq : ∀ hosts t, Forall (query_of hosts a
      (if String.eqb (hd "" words) "node" then ["--json"; "status"]
       else if orb then "--json" :: "orb" :: words else "--json" :: words)) t → Forall reads t).
  { intros hosts t Ht. destruct (String.eqb_spec (hd "" words) "node") as [|Hn].
    - eapply query_reads; [|exact Ht]. set_solver.
    - assert (Hc : hd "" words ∈ ["list"; "status"]).
      { unfold local_command in Hlocal. destruct (String.eqb_spec (hd "" words) "help"); [done|].
        destruct (String.eqb_spec (hd "" words) "list") as [->|]; [set_solver|].
        destruct (String.eqb_spec (hd "" words) "status") as [->|]; [set_solver|].
        by destruct (String.eqb_spec (hd "" words) "node"). }
      destruct words as [|c l]; [set_solver|]. cbn in *. eapply Forall_impl; [exact Ht|].
      intros e (_ & _ & Ha & Hi). split; [done|]. exists c, l. split; [set_solver|].
      destruct orb; [right; split; [by apply Horb|done]|left; done]. }
  apply sends_bind, sends_require; intros _; [|apply ran_nothing; [done|done|]; intros ? [= <-]; by left].
  apply sends_bind. set (hosts := if _ && _ then _ else _).
  assert (Hh : sends hosts (λ o t, t = [] ∧ ∀ e, o = Err e → refusal e)).
  { unfold hosts. destruct (_ && _); [|by apply sends_ret]. apply sends_bind, sends_lift.
    destruct (find_host hostName) as [h|e] eqn:Hh; cbn; [by apply sends_ret|]. split; [done|].
    intros ? [= <-]. left. by eapply find_host_error. }
  eapply sends_mono; [exact Hh|]. intros o t [-> He]. destruct o as [l|e|]; cbn [app];
    [|apply ran_nothing; [done|done|]; intros ? [= <-]; by apply He|by apply ran_nothing].
  apply sends_bind. eapply sends_mono; [apply sends_all|]. intros o t (Ht & Hne & _).
  destruct o as [answers|e|]; [|by destruct (Hne e)|apply ran_nothing; [by eapply Hq|done..]].
  apply sends_bind, sends_silent. intros s. apply wp_query; (split; [done|]); rewrite ?app_nil_r; cbn [app of_result].
  - apply ran_nothing; [by eapply Hq|done|]. intros ? [= <-]. by left.
  - apply ran_nothing; [by eapply Hq|done..].
  - apply sends_require; intros _; rewrite ?app_nil_r; (apply ran_nothing; [by eapply Hq|done|]); [done|].
    intros ? [= <-]. by left.
Qed.

Lemma sends_command_line a token args hostName clean asJSON orb words :
  front_options args "" [] false = inl (hostName, clean, asJSON) → orb_command clean asJSON = inl (orb, words) →
  hd "" words ≠ "migrate" →
  sends (Run serve Hosts a token args) (ran a words hostName asJSON orb).
Proof.
  intros Hopt Horb Hmig. unfold Run. rewrite Hopt. cbn [lift of_result].
  assert (Hfail : ∀ e, refusal e → ran a words hostName asJSON orb (Err e) []).
  { intros e He. apply ran_nothing; [done|done|]. by intros ? [= <-]. }
  apply sends_bind, sends_ret, sends_bind, sends_require; intros _; [|by apply Hfail; left].
  apply sends_bind, sends_lift. rewrite Horb. cbn.
  assert (Hol : orb = true → hd "" words ∈ ["new"; "list"; "bootstrap"]).
  { clear -Horb. unfold orb_command in Horb. destruct (negb _); [by injection Horb as <- _|].
    destruct clean as [|c1 [|c2 l]]; [done..|]. destruct (negb _) eqn:Hc; [done|]. apply negb_false_iff in Hc.
    destruct (_ && _); [done|]. injection Horb as <- <-. intros _. cbn.
    rewrite !orb_true_iff, !String.eqb_eq in Hc. set_solver. }
  destruct (String.eqb (hd "" words) "help" && String.eqb hostName "") eqn:Hhelp.
  { apply andb_true_iff in Hhelp as [Hhelp Hh]. apply sends_require; intros _; [|by apply Hfail; left].
    apply ran_nothing; [done| |done]. intros _. unfold local_command. by rewrite Hhelp, Hh. }
  apply sends_bind, sends_lift. destruct (reserved_command words hostName) as [[]|e] eqn:Hres; cbn.
  2: { apply Hfail. left. unfold reserved_command in Hres. cbv zeta in Hres.
       do 3 (match type of Hres with (if ?b then _ else _) = _ => destruct b end; [by injection Hres as <-|]). done. }
  destruct ((_ && _) || _) eqn:Hagg.
  - apply sends_aggregate.
    + intros ->. specialize (Hol eq_refl). apply orb_true_iff in Hagg as [[Hagg _]%andb_true_iff|Hagg%String.eqb_eq].
      * apply orb_true_iff in Hagg as [Hagg|Hagg]; apply String.eqb_eq in Hagg; [done|].
        rewrite Hagg in Hol. by apply elem_of_cons in Hol as [|[|[|?%not_elem_of_nil]%elem_of_cons]%elem_of_cons].
      * rewrite Hagg in Hol. by apply elem_of_cons in Hol as [|[|[|?%not_elem_of_nil]%elem_of_cons]%elem_of_cons].
    + unfold local_command. destruct (String.eqb (hd "" words) "help"); cbn; [|done].
      apply orb_true_iff in Hagg as [[_ ->]%andb_true_iff| ->]; [done|]. by rewrite orb_true_r.
    + intros He. rewrite He in *. cbn in *. done.
  - destruct (String.eqb_spec (hd "" words) "migrate"); [done|].
    apply sends_bind. eapply sends_mono; [apply sends_route|]. intros o t (Ht & He & Hd).
    destruct o as [[h words']|e|]; [|apply ran_nothing; [done|done|]; intros ? [= <-]; by apply He|by apply ran_nothing].
    specialize (Hd h words' eq_refl). cbn.
    assert (Hdest : sends (if String.eqb (ho_Name h) "" then lift (find_host hostName) else mret h)
      (λ o t', t' = [] ∧ (∀ e, o = Err e → refusal e) ∧ ∀ h', o = Ok h' → addressed a words hostName t h' words')).
    { destruct Hd as [(-> & Hh & -> & ->)|Hd].
      - cbn. apply sends_lift. destruct (find_host hostName) as [h'|e] eqn:Hf; cbn; (split; [done|]); split; try done.
        + intros ? [= <-]. apply find_host_in in Hf as [Hin Hn]. split; [done|]. by left.
        + intros ? [= <-]. left. by eapply find_host_error.
      - assert (Hin : h ∈ Hosts) by by destruct Hd as [(_ & _ & _ & [? _])|(? & ? & _ & _ & [? _] & _)].
        destruct (String.eqb_spec (ho_Name h) "") as [Hn|_]; [by destruct (named h)|].
        apply sends_ret. split; [done|]. split; [done|]. intros ? [= <-]. split; [done|]. right. exact Hd. }
    apply sends_bind. eapply sends_mono; [exact Hdest|]. intros o ? (-> & He' & Ha). rewrite app_nil_r.
    destruct o as [h'|e|]; [|apply ran_nothing; [done|done|]; intros ? [= <-]; by apply He'|by apply ran_nothing].
    specialize (Ha h' eq_refl). cbv zeta. set (inp := if _ || _ then UserInput else NoInput).
    assert (Hinp : inp = UserInput → hd "" words = "import" ∨ hd "" words = "bootstrap").
    { unfold inp. rewrite <- !String.eqb_eq. destruct (String.eqb (hd "" words) "import"); [by left|]. cbn.
      destruct orb; [|done]. cbn. destruct (String.eqb (hd "" words) "bootstrap"); [by right|done]. }
    assert (Hsent : ∀ r o, (o = Ok tt → ∃ out, r = Replied out) →
      (∀ e, o = Err e → ExitStatus e = 1 ∨ ∃ n out, r = Exited n out ∧ ExitStatus e = n) →
      ran a words hostName asJSON orb o (t ++ [mkSent h' a (command_words asJSON orb words') inp r])).
    { intros r o Ho Her. exists t, [mkSent h' a (command_words asJSON orb words') inp r]. split_and!; [done..|].
      right. exists h', words', inp, r. by split_and!. }
    apply sends_bind, sends_wrapping, sends_run.
    + apply ran_nothing; [by rewrite app_nil_r|done|]. intros ? [= <-]. by left.
    + apply ran_nothing; [by rewrite app_nil_r|done..].
    + intros r. destruct r as [out|k out|]; cbn.
      * apply sends_ret, Hsent; [|done]. intros _. by exists out.
      * apply Hsent; [done|]. intros ? [= <-]. right. by exists k, out.
      * apply Hsent; [done|]. intros ? [= <-]. by left.
    + intros r. by apply Hsent.
Qed.
End router.

(** ** What is promised of commands *)

Lemma valid_hosts_spec SplitHostPort ParseAuthorizedKey seen hosts :
  valid_hosts SplitHostPort ParseAuthorizedKey seen hosts = inl tt →
  NoDup (map ho_Name hosts) ∧ ∀ h, h ∈ hosts → ho_Name h ≠ "" ∧ ho_Name h ∉ seen.
Proof.
  revert seen. induction hosts as [|h hosts IH]; intros seen; cbn.
  { intros _. split; [constructor|]. by intros ? ?%not_elem_of_nil. }
  unfold valid_host. destruct (negb _ || _) eqn:Hv; [done|]. apply orb_false_iff in Hv as [Hn Hs%bool_decide_eq_false].
  destruct (negb (SplitHostPort _)); [done|]. destruct (ParseAuthorizedKey _); [|done]. destruct (nonempty _); [done|].
  cbn. intros Hrest. destruct (IH _ Hrest) as [Hd Hall]. split.
  - constructor; [|done]. intros (h' & He & Hin)%list_elem_of_fmap. destruct (Hall h' Hin) as [_ Hno].
    apply Hno. rewrite He. by left.
  - intros h' [->|Hin]%elem_of_cons.
    + split; [|done]. intros He. by rewrite He in Hn.
    + destruct (Hall h' Hin) as [H1 H2]. split; [done|]. intros H3. apply H2. by right.
Qed.

Section promises.
Context {B : Type} {codec : Codec} (serve : Host → Actor → list string → input → B → reply * B).
Context (ToLower : string → string) (SplitHostPort : string → bool) (ParseAuthorizedKey : string → option string).
Context (c : FrontConfig) (valid : Validate ToLower SplitHostPort ParseAuthorizedKey c = inl tt).

#[local] Abbreviation Hosts := (fc_Hosts c).

Lemma Validate_hosts : NoDup (map ho_Name Hosts) ∧ ∀ h, h ∈ Hosts → ho_Name h ≠ "".
Proof.
  revert valid. unfold Validate. destruct (ValidateProviders _ _ _) as [[]|]; [|done]. cbn.
  destruct (_ || _); [done|]. destruct (existsb _ _); [done|]. intros Hv%valid_hosts_spec.
  split; [apply Hv|]. intros h Hh. by apply Hv.
Qed.

(** C17. A command other than a migration asks only, and then goes to one host, at most once
    and never again: to the host that is named, to the best of the hosts that take a new
    instance, or to the one host that has the instance when every host has answered. *)
Theorem command_sent_once a token args hostName clean asJSON orb words fs s :
  front_options args "" [] false = inl (hostName, clean, asJSON) → orb_command clean asJSON = inl (orb, words) →
  hd "" words ≠ "migrate" →
  let '(o, s', _) := Run serve Hosts a token args fs s in
  ∃ t, nt_sent s' = (nt_sent s ++ t)%list ∧ ran Hosts a words hostName asJSON orb o t.
Proof.
  intros Hopt Horb Hmig. destruct Validate_hosts as [Hd Hn].
  pose proof (sends_command_line serve Hosts Hd Hn a token args _ _ _ _ _ Hopt Horb Hmig s fs) as H.
  destruct (Run _ _ _ _ _ _ _) as [[o s'] fs']. destruct H as (t & Ht & _ & H). by exists t.
Qed.

(** C18. The exit status of a rejected creation means that nothing was created: either no host
    was given a command, or the one that was rejected it itself. *)
Theorem refusal_is_clean a token args hostName clean asJSON orb words fs s s' e fs' :
  front_options args "" [] false = inl (hostName, clean, asJSON) → orb_command clean asJSON = inl (orb, words) →
  hd "" words ≠ "migrate" →
  Run serve Hosts a token args fs s = (Err e, s', fs') → ExitStatus e = ExitCreateRejected →
  ∃ t, nt_sent s' = (nt_sent s ++ t)%list ∧
    (Forall reads t ∨ ∃ qs x out, t = (qs ++ [x])%list ∧ Forall reads qs ∧ se_reply x = Exited ExitCreateRejected out).
Proof.
  intros Hopt Horb Hmig Hrun He. destruct Validate_hosts as [Hd Hn].
  pose proof (sends_command_line serve Hosts Hd Hn a token args _ _ _ _ _ Hopt Horb Hmig s fs) as H.
  rewrite Hrun in H. destruct H as (t & Ht & _ & qs & rest & -> & Hq & H). exists (qs ++ rest)%list. split; [done|].
  destruct H as [(-> & _)|(h & w & inp & r & -> & _ & _ & _ & Her)]; [left; by rewrite app_nil_r|]. right.
  destruct (Her e eq_refl) as [H1|(n & out & -> & Hst)]; [by rewrite H1 in He|].
  eexists qs, _, out. split; [done|]. split; [done|]. cbn. by rewrite <- He, Hst.
Qed.
End promises.
