(* ===== verification/FrontMigration.v ===== *)
(** * A migration between two hosts

    The protocol as an account of what may be sent when; the router follows it, and so an
    instance is never startable on both hosts.  At the end two hosts run the router. *)
From S2P Require Import Prelude GoStrings Model RunnerState Identity Config Access Front FrontSpec.
From stdpp Require Import relations.

#[local] Open Scope Z_scope.

(** ** The protocol of a migration

    An abstract account: what may be sent when.  After [Halted] nothing is sent. *)

(** What the source sends to the target: its base snapshot, if the target lacks it, the
    disk, and the record. *)
Inductive stream := BaseStream | DiskStream | RecordStream.

(** How far the disk of a prepared source is; [Piping s w]: the source's end of the stream
    has run, and has written [w], or failed. *)
Inductive progress := ToSnapshot | ToCompare | ToSend | BaseThere | DiskThere | Piping (s : stream) (w : option string).

Inductive stage :=
  | Looking (n : nat)         (* [n] of the four looks before the source is prepared *)
  | Fenced (p : prepared) (d : progress)   (* the source does not start the instance any more *)
  | Imported (p : prepared)   (* the target has it *)
  | Confirmed (p : prepared)  (* and says so of this very transfer *)
  | Given (p : prepared)      (* the source has given it up *)
  | Cleaned (p : prepared)    (* and has been told to forget the snapshots *)
  | Started
  | Halted.

Definition send_action (s : stream) : string :=
  match s with BaseStream => "send-base" | DiskStream => "send-disk" | RecordStream => "metadata" end.

Definition may_send (s : stream) (d : progress) : Prop :=
  match s with
  | BaseStream => d = ToSend
  | DiskStream => d = ToSend ∨ d = BaseThere
  | RecordStream => d = DiskThere
  end.

(** What the other end of a stream reads. *)
Definition pipe (w : option string) : input := match w with Some data => Piped data | None => Broken end.

Section protocol.
Context {codec : Codec}.
Context (a : Actor) (source target : Host) (name token : string) (policy : list string).

Definition prepare_args : list string :=
  (["--json"; "migration"; "prepare"; name; ho_Name target; token] ++ policy)%list.
Definition import_args : list string := "migration-disk" :: "import" :: policy.
Definition receipt_args : list string := ["--json"; "migration"; "receipt"; name].
Definition complete_args : list string := ["--json"; "migration"; "complete"; name; token].

Definition is_prepared (p : prepared) : Prop :=
  pr_Token p = token ∧ pr_Target p = ho_Name target ∧ pr_Phase p = "prepared"%string.
Definition confirms (p : prepared) (r : receipt) : Prop :=
  pr_InstanceID p ≠ ""%string ∧ rc_SourceInstanceID r = pr_InstanceID p ∧ rc_Token r = token ∧ rc_Phase r = "imported"%string.

Definition is_command (h : Host) (args : list string) (e : sent) : Prop :=
  se_host e = h ∧ se_actor e = a ∧ se_args e = args.

Definition disk_command (h : Host) (action : string) (e : sent) : Prop :=
  ∃ q, mq_Action q = action ∧ is_command h (migrationDiskArgs q) e.

(** ... of the transfer that was prepared. *)
Definition transfer_command (p : prepared) (h : Host) (action : string) (e : sent) : Prop :=
  ∃ q, mq_Action q = action ∧ mq_Token q = token ∧ mq_InstanceID q = pr_InstanceID p ∧
    is_command h (migrationDiskArgs q) e.

(** The looks: the instance's shape, the target's room, and whether both can transfer. *)
Definition look (n : nat) (e : sent) : Prop :=
  match n with
  | 0%nat => is_command source ["--json"; "inspect"; name] e
  | 1%nat => ∃ pool v, is_command target (preflight_args name pool v) e
  | 2%nat => disk_command source "check" e
  | 3%nat => disk_command target "check" e
  | _ => False
  end.

(** The target's end of a stream. *)
Definition receives (s : stream) (p : prepared) (e : sent) : Prop :=
  match s with
  | BaseStream => transfer_command p target "receive-base" e
  | DiskStream => transfer_command p target "receive-disk" e
  | RecordStream => is_command target import_args e
  end.

Definition after_stream (s : stream) (p : prepared) : stage :=
  match s with BaseStream => Fenced p BaseThere | DiskStream => Fenced p DiskThere | RecordStream => Imported p end.

Inductive mstep : stage → sent → stage → Prop :=
  | m_look n e out : look n e → se_reply e = Replied out → mstep (Looking n) e (Looking (S n))
  | m_look_fails n e : look n e → mstep (Looking n) e Halted
  | m_prepare e out p : is_command source prepare_args e → se_input e = NoInput → se_reply e = Replied out →
      decode_prepared out = Some p → is_prepared p → mstep (Looking 4) e (Fenced p ToSnapshot)
  | m_prepare_fails e : is_command source prepare_args e → mstep (Looking 4) e Halted
  | m_snapshot e p out : transfer_command p source "prepare" e → se_reply e = Replied out →
      mstep (Fenced p ToSnapshot) e (Fenced p ToCompare)
  | m_snapshot_fails e p : transfer_command p source "prepare" e → mstep (Fenced p ToSnapshot) e Halted
  | m_compare e p out : transfer_command p target "base-present" e → se_reply e = Replied out →
      mstep (Fenced p ToCompare) e (Fenced p ToSend)
  | m_compare_fails e p : transfer_command p target "base-present" e → mstep (Fenced p ToCompare) e Halted
  | m_send s d e p : may_send s d → transfer_command p source (send_action s) e → se_input e = NoInput →
      mstep (Fenced p d) e (Fenced p (Piping s (match se_reply e with Replied out => Some out | _ => None end)))
  | m_receive s e p data out : receives s p e → se_input e = Piped data → se_reply e = Replied out →
      mstep (Fenced p (Piping s (Some data))) e (after_stream s p)
  | m_receive_fails s e p w : receives s p e → se_input e = pipe w → mstep (Fenced p (Piping s w)) e Halted
  | m_receive_alone s d e p : (* the source could not be asked *)
      may_send s d → receives s p e → se_input e = Broken → mstep (Fenced p d) e Halted
  | m_receipt e p out r : is_command target receipt_args e → se_reply e = Replied out →
      decode_receipt out = Some r → confirms p r → mstep (Imported p) e (Confirmed p)
  | m_receipt_fails e p : is_command target receipt_args e → mstep (Imported p) e Halted
  | m_complete e p out : is_command source complete_args e → se_reply e = Replied out →
      mstep (Confirmed p) e (Given p)
  | m_complete_fails e p : is_command source complete_args e → mstep (Confirmed p) e Halted
  | m_cleanup e p : disk_command source "cleanup" e → mstep (Given p) e (Cleaned p)
  | m_start e p st : st = Given p ∨ st = Cleaned p → pr_WasRunning p = true → is_command target ["start"; name] e →
      mstep st e Started.

Inductive mrun : stage → list sent → stage → Prop :=
  | mrun_nil st : mrun st [] st
  | mrun_cons st e st1 t st2 : mstep st e st1 → mrun st1 t st2 → mrun st (e :: t) st2.

Lemma mrun_app st t1 st1 t2 st2 : mrun st t1 st1 → mrun st1 t2 st2 → mrun st (t1 ++ t2) st2.
Proof. induction 1; [done|]. intros. econstructor; eauto. Qed.

(** *** Nothing is sent twice *)

(** The commands in their order. *)
Definition numbered (i : nat) (e : sent) : Prop :=
  match i with
  | 0%nat | 1%nat | 2%nat | 3%nat => look i e
  | 4%nat => is_command source prepare_args e
  | 5%nat => disk_command source "prepare" e
  | 6%nat => disk_command target "base-present" e
  | 7%nat => disk_command source "send-base" e
  | 8%nat => disk_command target "receive-base" e
  | 9%nat => disk_command source "send-disk" e
  | 10%nat => disk_command target "receive-disk" e
  | 11%nat => disk_command source "metadata" e
  | 12%nat => is_command target import_args e
  | 13%nat => is_command target receipt_args e
  | 14%nat => is_command source complete_args e
  | 15%nat => disk_command source "cleanup" e
  | 16%nat => is_command target ["start"; name] e
  | _ => False
  end.

(** The number of the next command. *)
Definition position (st : stage) : nat :=
  match st with
  | Looking n => n
  | Fenced _ ToSnapshot => 5 | Fenced _ ToCompare => 6 | Fenced _ ToSend => 7
  | Fenced _ (Piping BaseStream _) => 8 | Fenced _ BaseThere => 9 | Fenced _ (Piping DiskStream _) => 10
  | Fenced _ DiskThere => 11 | Fenced _ (Piping RecordStream _) => 12
  | Imported _ => 13 | Confirmed _ => 14 | Given _ => 15 | Cleaned _ => 16
  | Started | Halted => 17
  end%nat.

Lemma transfer_disk_command p h action e : transfer_command p h action e → disk_command h action e.
Proof. intros (q & H & _ & _ & Hc). by exists q. Qed.

Lemma look_numbered n e : look n e → numbered n e ∧ (n < 4)%nat.
Proof. do 4 (destruct n as [|n]; [split; [done|lia]|]). done. Qed.

Lemma mstep_numbered st e st' :
  mstep st e st' → ∃ i, numbered i e ∧ (position st ≤ i)%nat ∧ (i < position st')%nat.
Proof.
  pose proof transfer_disk_command as Ht.
  destruct 1 as [n e out H|n e H|e out p H|e H|e p out H|e p H|e p out H|e p H|s d e p Hd H|s e p data out H|s e p w H|
    s d e p Hd H|e p out r H|e p H|e p out H|e p H|e p H|e p st Hst _ H]; cbn [position].
  1,2: exists n; destruct (look_numbered _ _ H); split; [done|lia].
  1,2: exists 4%nat; split; [done|lia].
  1,2: exists 5%nat; split; [by eapply Ht|lia].
  1,2: exists 6%nat; split; [by eapply Ht|lia].
  - destruct s; cbn in Hd.
    + subst d. exists 7%nat. split; [by eapply Ht|cbn; lia].
    + exists 9%nat. split; [by eapply Ht|]. destruct Hd as [-> | ->]; cbn; lia.
    + subst d. exists 11%nat. split; [by eapply Ht|cbn; lia].
  - destruct s; cbn; [exists 8%nat|exists 10%nat|exists 12%nat]; (split; [first [by eapply Ht|exact H]|lia]).
  - destruct s; cbn; [exists 8%nat|exists 10%nat|exists 12%nat]; (split; [first [by eapply Ht|exact H]|lia]).
  - destruct s; cbn in Hd.
    + subst d. exists 8%nat. split; [by eapply Ht|cbn; lia].
    + exists 10%nat. split; [by eapply Ht|]. destruct Hd as [-> | ->]; cbn; lia.
    + subst d. exists 12%nat. split; [exact H|cbn; lia].
  - exists 13%nat. split; [exact H|lia].
  - exists 13%nat. split; [exact H|lia].
  - exists 14%nat. split; [exact H|lia].
  - exists 14%nat. split; [exact H|lia].
  - exists 15%nat. split; [exact H|lia].
  - exists 16%nat. split; [exact H|]. destruct Hst as [-> | ->]; cbn; lia.
Qed.

Lemma mrun_numbered st t st' :
  mrun st t st' → ∀ e, e ∈ t → ∃ i, numbered i e ∧ (position st ≤ i)%nat.
Proof.
  induction 1 as [st|st e st1 t st2 Hs _ IH]; [by intros e ?%not_elem_of_nil|].
  destruct (mstep_numbered _ _ _ Hs) as (i & Hi & H1 & H2). intros e' [->|Hin]%elem_of_cons; [by exists i|].
  destruct (IH _ Hin) as (j & Hj & H3). exists j. split; [done|lia].
Qed.

(** What a host sees of a command. *)
Definition command_key (e : sent) : string * list string := (ho_Name (se_host e), se_args e).

(** The encoding of a request keeps its action, and is not the word of an import. *)
Class FaithfulCodec : Prop := {
  fc_action q q' : encode_request q = encode_request q' → mq_Action q = mq_Action q';
  fc_import q : encode_request q ≠ "import"%string;
}.

Lemma numbered_inj `{!FaithfulCodec} i j e e' :
  ho_Name source ≠ ho_Name target → numbered i e → numbered j e' → command_key e = command_key e' → i = j.
Proof.
  intros Hne Hi Hj [= Hh Ha].
  assert (Hdd : ∀ h h' x x', disk_command h x e → disk_command h' x' e' → ho_Name h = ho_Name h' ∧ x = x').
  { intros h h' x x' (q & <- & Hq1 & _ & Hq2) (q' & <- & Hq1' & _ & Hq2'). split; [congruence|]. apply fc_action.
    rewrite Hq2, Hq2' in Ha. by injection Ha. }
  assert (Hdi : ∀ h x, disk_command h x e → is_command target import_args e' → False).
  { intros h x (q & _ & _ & _ & Hq) (_ & _ & Hi'). rewrite Hq, Hi' in Ha. injection Ha as Hx. by apply fc_import in Hx. }
  assert (Hid : ∀ h x, is_command target import_args e → disk_command h x e' → False).
  { intros h x (_ & _ & Hi') (q & _ & _ & _ & Hq). rewrite Hq, Hi' in Ha. injection Ha as Hx. by destruct (fc_import q). }
  assert (Hdw : ∀ h x h' w ws, disk_command h x e → is_command h' (w :: ws) e' → w ≠ "migration-disk"%string → False).
  { intros h x h' w ws (q & _ & _ & _ & Hq) (_ & _ & Hq'). rewrite Hq, Hq' in Ha. by injection Ha as <-. }
  assert (Hwd : ∀ h x h' w ws, is_command h' (w :: ws) e → disk_command h x e' → w ≠ "migration-disk"%string → False).
  { intros h x h' w ws (_ & _ & Hq') (q & _ & _ & _ & Hq). rewrite Hq, Hq' in Ha. by injection Ha as ->. }
  assert (Hww : ∀ h ws h' ws', is_command h ws e → is_command h' ws' e' → ws = ws').
  { intros h ws h' ws' (_ & _ & Hq) (_ & _ & Hq'). congruence. }
  do 17 (try destruct i as [|i]); cbn in Hi; try done.
  all: do 17 (try destruct j as [|j]); cbn in Hj; try done; exfalso.
  all: repeat match goal with
    | H : ∃ _, ∃ _, is_command _ _ _ |- _ => destruct H as (? & ? & H)
    end.
  all: first
    [ match goal with H1 : disk_command _ _ _, H2 : disk_command _ _ _ |- _ =>
        destruct (Hdd _ _ _ _ H1 H2) as [? Hx]; first [discriminate Hx|congruence] end
    | by eapply Hdi | by eapply Hid
    | match goal with H1 : disk_command _ _ _, H2 : is_command _ _ _ |- _ => by eapply (Hdw _ _ _ _ _ H1 H2) end
    | match goal with H1 : is_command _ _ _, H2 : disk_command _ _ _ |- _ => by eapply (Hwd _ _ _ _ _ H1 H2) end
    | match goal with H1 : is_command _ _ _, H2 : is_command _ _ _ |- _ => pose proof (Hww _ _ _ _ H1 H2); discriminate end ].
Qed.

Lemma mrun_once `{!FaithfulCodec} st t st' :
  ho_Name source ≠ ho_Name target → mrun st t st' → NoDup (map command_key t).
Proof.
  intros Hne. induction 1 as [st|st e st1 t st2 Hs Hr IH]; [constructor|]. cbn. constructor; [|done].
  destruct (mstep_numbered _ _ _ Hs) as (i & Hi & H1 & H2).
  intros (e' & He & Hin)%list_elem_of_fmap. destruct (mrun_numbered _ _ _ Hr e' Hin) as (j & Hj & H3).
  pose proof (numbered_inj i j e e' Hne Hi Hj He). lia.
Qed.
End protocol.

(** *** Programs that follow it *)

Section follows.
Context {B : Type} {codec : Codec} (serve : Host → Actor → list string → input → B → reply * B).
Context (a : Actor) (source target : Host) (name token : string) (policy : list string).

#[local] Abbreviation mrun := (mrun a source target name token policy).
#[local] Abbreviation mstep := (mstep a source target name token policy).

(** From the stage [st], [m] sends what may be sent; it ends in a stage of [P], or of [E]
    with an error. *)
Definition moves {A} (st : stage) (m : M (Net B) A) (P : A → stage → Prop) (E : stage → Prop) : Prop :=
  sends serve m (λ o t, ∃ st', mrun st t st' ∧ match o with Ok x => P x st' | Err _ => E st' | Crashed => True end).

Lemma moves_mono {A} st (m : M (Net B) A) (P P' : A → stage → Prop) (E E' : stage → Prop) :
  moves st m P E → (∀ x st', P x st' → P' x st') → (∀ st', E st' → E' st') → moves st m P' E'.
Proof.
  intros Hm HP HE. eapply sends_mono; [exact Hm|]. intros o t (st' & Ht & H). exists st'. split; [done|].
  destruct o; auto.
Qed.

Lemma moves_ret {A} st (x : A) (P : A → stage → Prop) E : P x st → moves st (mret x) P E.
Proof. intros H. apply sends_ret. exists st. split; [constructor|done]. Qed.
Lemma moves_throw {A} st e (P : A → stage → Prop) (E : stage → Prop) : E st → moves st (throw e) P E.
Proof. intros H. apply sends_throw. exists st. split; [constructor|done]. Qed.
Lemma moves_lift {A} st (r : result A) (P : A → stage → Prop) (E : stage → Prop) :
  (∀ x, r = inl x → P x st) → E st → moves st (lift r) P E.
Proof. intros H HE. apply sends_lift. exists st. split; [constructor|]. destruct r; cbn; auto. Qed.
Lemma moves_require st b e (P : unit → stage → Prop) (E : stage → Prop) :
  (b = true → P tt st) → E st → moves st (require b e) P E.
Proof. intros H HE. apply sends_require; intros Hb; exists st; (split; [constructor|]); auto. Qed.

Lemma moves_bind {A C} st (m : M (Net B) A) (k : A → M (Net B) C) P P' E :
  moves st m P E → (∀ x st', P x st' → moves st' (k x) P' E) → moves st (m ≫= k) P' E.
Proof.
  intros Hm Hk. apply sends_bind. eapply sends_mono; [exact Hm|]. intros o t (st' & Ht & H).
  destruct o as [x|e|]; [|by exists st'..]. eapply sends_mono; [by apply (Hk x st')|].
  intros o t' (st'' & Ht' & H'). exists st''. split; [by eapply mrun_app|done].
Qed.

Lemma moves_try {A} st (m : M (Net B) A) (P : A → stage → Prop) (E E' : stage → Prop) :
  moves st m P E → moves st (try m) (λ r st', match r with inl x => P x st' | inr _ => E st' end) E'.
Proof.
  intros Hm. apply sends_try. eapply sends_mono; [exact Hm|]. intros o t (st' & Ht & H).
  destruct o; by exists st'.
Qed.

Lemma moves_wrapping {A} text st (m : M (Net B) A) P E : moves st m P E → moves st (wrapping text m) P E.
Proof.
  intros Hm. apply sends_wrapping. eapply sends_mono; [exact Hm|]. intros o t (st' & Ht & H).
  destruct o; by exists st'.
Qed.

Lemma moves_run st h args inp (P : string → stage → Prop) (E : stage → Prop) :
  E st →
  (∀ r, ∃ st', mstep st (mkSent h a args inp r) st' ∧ match r with Replied out => P out st' | _ => E st' end) →
  moves st (transport_Run serve h a args inp) P E.
Proof.
  intros HE Hr.
  assert (Hnil : mrun st [] st) by constructor.
  assert (Hone : ∀ e st', mstep st e st' → mrun st [e] st') by (intros; econstructor; [done|constructor]).
  apply sends_run.
  - by exists st.
  - by exists st.
  - intros r. destruct (Hr r) as (st' & Hs & HP). exists st'. split; [by apply Hone|]. by destruct r.
  - intros r. destruct (Hr r) as (st' & Hs & _). exists st'. split; [by apply Hone|done].
Qed.

Definition anywhere (st : stage) : Prop := True.

Lemma moves_any {A} st (m : M (Net B) A) P E : moves st m P E → moves st m P anywhere.
Proof. intros Hm. by eapply moves_mono. Qed.

Lemma moves_command st h args (P : string → stage → Prop) :
  (∀ r, ∃ st', mstep st (mkSent h a args NoInput r) st' ∧ ∀ out, r = Replied out → P out st') →
  moves st (commandJSON serve h a args) P anywhere.
Proof.
  intros Hr. unfold commandJSON. eapply moves_bind; [apply moves_wrapping, (moves_run _ _ _ _ P)|].
  - done.
  - intros r. destruct (Hr r) as (st' & Hs & HP). exists st'. split; [done|]. destruct r; [by apply HP|done..].
  - intros out st' HP. eapply (moves_bind _ _ _ (λ _ st'', st'' = st')); [by apply moves_require|].
    intros _ ? ->. by apply moves_ret.
Qed.

(** The next command, after whose failure nothing is sent. *)
Lemma moves_next st st' h args :
  (∀ out, mstep st (mkSent h a args NoInput (Replied out)) st') → (∀ r, mstep st (mkSent h a args NoInput r) Halted) →
  moves st (commandJSON serve h a args) (λ _ st'', st'' = st') anywhere.
Proof.
  intros Hok Hfail. apply moves_command. intros r.
  destruct r as [out|n out|]; [exists st'; split; [apply Hok|done]|exists Halted; split; [apply Hfail|done]..].
Qed.

(** *** The transfer *)

Lemma transfer_is p h action q :
  mq_Token q = token → mq_InstanceID q = pr_InstanceID p →
  ∀ inp r, transfer_command a token p h action (mkSent h a (migrationDiskArgs (with_action action q)) inp r).
Proof. intros T I inp r. by exists (with_action action q). Qed.

(** A stream: the source's end, and the target's with what the source wrote. *)
Lemma moves_stream s d p q receive :
  mq_Token q = token → mq_InstanceID q = pr_InstanceID p → may_send s d →
  (∀ inp r, receives a target token policy s p (mkSent target a receive inp r)) →
  moves (Fenced p d) (migrationStream serve a source target (migrationDiskArgs (with_action (send_action s) q)) receive)
    (λ _ st, st = after_stream s p) anywhere.
Proof.
  intros T I Hd Hrec. unfold migrationStream.
  eapply (moves_bind _ _ _ (λ r st, match r with
    | inl x => st = Fenced p (Piping s (Some x)) | inr _ => st = Fenced p (Piping s None) ∨ st = Fenced p d end)).
  { eapply moves_mono; [apply (moves_try _ _ (λ x st, st = Fenced p (Piping s (Some x)))
      (λ st, st = Fenced p (Piping s None) ∨ st = Fenced p d)), moves_run| |by intros ? H; exact H].
    - by right.
    - intros r. eexists. split; [by apply (m_send _ _ _ _ _ _ s d); [|apply transfer_is|]|]. destruct r; cbn; auto.
    - done. }
  intros sending st Hst.
  eapply (moves_bind _ _ _ (λ r st', match r, sending with inl _, inl _ => st' = after_stream s p | _, _ => True end)).
  { eapply moves_mono; [apply (moves_try _ _ (λ _ st', match sending with inl _ => st' = after_stream s p | _ => True end)
      anywhere), moves_run| |by intros ? H; exact H].
    - done.
    - intros r. destruct sending as [data|e].
      + subst st. destruct r as [out|n out|]; [eexists; split; [by eapply m_receive|done]|..];
          (exists Halted; split; [by eapply (m_receive_fails _ _ _ _ _ _ s _ p (Some data))|done]).
      + exists Halted. split; [|by destruct r]. destruct Hst as [-> | ->].
        * by eapply (m_receive_fails _ _ _ _ _ _ s _ p None).
        * by eapply m_receive_alone.
    - by intros [] ? ?. }
  intros received st' Hst'. destruct received, sending; by (apply moves_ret || apply moves_throw).
Qed.

Lemma moves_transfer p q :
  mq_Token q = token → mq_InstanceID q = pr_InstanceID p →
  moves (Fenced p ToCompare) (transfer_disk serve a source target policy q) (λ _ st, st = Imported p) anywhere.
Proof.
  intros T I. unfold transfer_disk. pose proof (transfer_is p) as Hq.
  eapply (moves_bind _ _ _ (λ _ st, st = Fenced p ToSend)).
  { apply moves_next; [intros out; eapply m_compare; [by apply Hq|done]|intros r; apply m_compare_fails; by apply Hq]. }
  intros data ? ->. eapply (moves_bind _ _ _ (λ _ st, st = Fenced p ToSend)); [by apply moves_lift|].
  intros base ? ->. eapply (moves_bind _ _ _ (λ _ st, st = Fenced p ToSend ∨ st = Fenced p BaseThere)).
  { destruct (_ && _); [|by apply moves_ret; left].
    eapply moves_mono; [apply (moves_stream BaseStream ToSend p q); [done..|by intros; apply Hq]|by right|done]. }
  intros ? st Hst. eapply (moves_bind _ _ _ (λ _ st, st = Fenced p DiskThere)).
  { destruct Hst as [-> | ->]; apply (moves_stream DiskStream _ p q); first [done|by left|by right|by intros; apply Hq]. }
  intros ? ? ->. by apply (moves_stream RecordStream DiskThere p q).
Qed.

(** The end of a migration. *)
Definition migrated (st : stage) : Prop :=
  (∃ p, (st = Given p ∨ st = Cleaned p) ∧ pr_WasRunning p = false) ∨ st = Started.

Lemma moves_prepare :
  moves (Looking 4) (commandJSON serve source a (prepare_args target name token policy))
    (λ out st, ∀ p, decode_prepared out = Some p → is_prepared target token p → st = Fenced p ToSnapshot) anywhere.
Proof.
  apply moves_command. intros r.
  assert (Hfail : mstep (Looking 4) (mkSent source a (prepare_args target name token policy) NoInput r) Halted)
    by by apply m_prepare_fails.
  destruct r as [out|n out|]; [|by exists Halted..].
  destruct (decode_prepared out) as [p|] eqn:Hd.
  - destruct (decide (pr_Token p = token)), (decide (pr_Target p = ho_Name target)),
      (decide (pr_Phase p = "prepared"%string)).
    1: { exists (Fenced p ToSnapshot). split; [by eapply m_prepare|]. intros ? [= <-] p'. congruence. }
    all: exists Halted; split; [done|]; intros ? [= <-] p' Hp' (? & ? & ?); congruence.
  - exists Halted. split; [done|]. intros ? [= <-] p'. congruence.
Qed.

Lemma moves_receipt p :
  moves (Imported p) (commandJSON serve target a (receipt_args name))
    (λ out st, ∀ r, decode_receipt out = Some r → confirms token p r → st = Confirmed p) anywhere.
Proof.
  apply moves_command. intros r.
  assert (Hfail : mstep (Imported p) (mkSent target a (receipt_args name) NoInput r) Halted) by by apply m_receipt_fails.
  destruct r as [out|n out|]; [|by exists Halted..].
  destruct (decode_receipt out) as [r|] eqn:Hd.
  - destruct (decide (pr_InstanceID p = "")), (decide (rc_SourceInstanceID r = pr_InstanceID p)),
      (decide (rc_Token r = token)), (decide (rc_Phase r = "imported"%string)).
    9: { exists (Confirmed p). split; [by eapply m_receipt|]. intros ? [= <-] r'. congruence. }
    all: exists Halted; split; [done|]; intros ? [= <-] r' Hr' (? & ? & ? & ?); congruence.
  - exists Halted. split; [done|]. intros ? [= <-] r'. congruence.
Qed.

Lemma moves_complete p :
  moves (Confirmed p) (commandJSON serve source a (complete_args name token)) (λ _ st, st = Given p) anywhere.
Proof. apply moves_next; [intros out; by eapply m_complete|intros r; by apply m_complete_fails]. Qed.

Lemma moves_end p q :
  moves (Given p)
    (try (commandJSON serve source a (migrationDiskArgs (with_action "cleanup" q)));;
     if pr_WasRunning p then transport_Run serve target a ["start"; name] NoInput;; mret tt else mret tt)
    (λ _ st, migrated st) anywhere.
Proof.
  eapply (moves_bind _ _ _ (λ _ st, st = Given p ∨ st = Cleaned p)).
  { unfold commandJSON.
    eapply moves_mono; [apply (moves_try _ _ (λ _ st, st = Given p ∨ st = Cleaned p) (λ st, st = Given p ∨ st = Cleaned p))
      | |by intros ? H; exact H]; [|by intros [] ?].
    eapply moves_bind.
    - apply moves_wrapping, (moves_run _ _ _ _ (λ _ st, st = Cleaned p)); [by left|].
      intros r. exists (Cleaned p). split; [apply m_cleanup; by exists (with_action "cleanup" q)|].
      destruct r; [done|by right..].
    - intros out ? ->. eapply (moves_bind _ _ _ (λ _ st, st = Cleaned p)); [by apply moves_require; [|right]|].
      intros ? ? ->. apply moves_ret. by right. }
  intros ? st Hst. destruct (pr_WasRunning p) eqn:Hw; [|by apply moves_ret; left; exists p].
  eapply (moves_bind _ _ _ (λ _ st, st = Started)); [|intros ? ? ->; apply moves_ret; by right].
  apply moves_run; [done|]. intros r. exists Started. split; [by eapply m_start|by destruct r].
Qed.

Lemma moves_migrate q :
  mq_Token q = token →
  moves (Looking 4) (migrate_hosts serve a source target name token policy q) (λ _ st, migrated st) anywhere.
Proof.
  intros T. unfold migrate_hosts. eapply moves_bind; [apply moves_prepare|]. intros out st Hst.
  eapply (moves_bind _ _ _ (λ p st', st' = st ∧ decode_prepared out = Some p)).
  { apply moves_lift; [|done]. unfold Unmarshal. intros p. by destruct (decode_prepared out) as [p'|]; [intros [= ->]|]. }
  intros p ? [-> Hp]. eapply (moves_bind _ _ _ (λ _ st', st' = Fenced p ToSnapshot ∧ pr_Token p = token)).
  { apply moves_require; [|done]. intros [[H1%String.eqb_eq H2%String.eqb_eq]%andb_true_iff H3%String.eqb_eq]%andb_true_iff.
    split; [by apply Hst|done]. }
  intros ? ? [-> Hpt]. cbv zeta. set (q1 := with_instance _ _).
  eapply (moves_bind _ _ _ (λ _ st', st' = Fenced p ToCompare)).
  { apply moves_next; [intros o; eapply m_snapshot|intros r; eapply m_snapshot_fails]; try done; by exists q1. }
  intros data ? ->. eapply (moves_bind _ _ _ (λ _ st', st' = Fenced p ToCompare)); [by apply moves_lift|].
  intros transfer ? ->.
  eapply (moves_bind _ _ _ (λ _ st', st' = Fenced p ToCompare)); [by apply moves_require|]. intros ? ? ->.
  set (q2 := with_transfer _ _). eapply moves_bind; [by apply moves_transfer|]. intros ? ? ->.
  eapply moves_bind; [apply moves_receipt|]. intros rout st2 Hst2.
  eapply (moves_bind _ _ _ (λ r st', st' = st2 ∧ decode_receipt rout = Some r)).
  { apply moves_lift; [|done]. unfold Unmarshal. intros r. by destruct (decode_receipt rout) as [r'|]; [intros [= ->]|]. }
  intros r ? [-> Hr]. eapply (moves_bind _ _ _ (λ _ st', st' = Confirmed p)).
  { apply moves_require; [|done].
    intros [[[H1%nonempty_spec H2%String.eqb_eq]%andb_true_iff H3%String.eqb_eq]%andb_true_iff H4%String.eqb_eq]%andb_true_iff.
    apply (Hst2 r Hr). split_and!; [done|done|congruence|done]. }
  intros ? ? ->. eapply moves_bind; [apply moves_complete|]. intros ? ? ->. by apply moves_end.
Qed.

Lemma moves_look n h args :
  (∀ r, look a source target name n (mkSent h a args NoInput r)) →
  moves (Looking n) (commandJSON serve h a args) (λ _ st, st = Looking (S n)) anywhere.
Proof. intros H. apply moves_next; [intros out; by eapply m_look|intros r; by apply m_look_fails]. Qed.
End follows.

Section migration.
Context {B : Type} {codec : Codec} {faithful : FaithfulCodec} (serve : Host → Actor → list string → input → B → reply * B).
Context (Hosts : list Host) (distinct : NoDup (map ho_Name Hosts)).

(** A migration asks for its source, and then follows the protocol between two hosts; it
    sends no command to a host twice. *)
Definition followed (a : Actor) (args : list string) (override token : string) (o : outcome unit) (t : list sent) : Prop :=
  (Forall reads t ∧ o ≠ Ok tt) ∨
  ∃ source target name st t0 t1,
    t = (t0 ++ t1)%list ∧ Forall reads t0 ∧ resolved Hosts a (migration_reference args override) source name t0 ∧
    target ∈ Hosts ∧ ho_Name target = nth 3 args "" ∧ ho_Name source ≠ ho_Name target ∧
    mrun a source target name token (drop 4 args) (Looking 0) t1 st ∧ NoDup (map command_key t1) ∧
    (o = Ok tt → migrated st).

Lemma sends_migrate a args override token :
  sends serve (migrate serve Hosts a args override token) (followed a args override token).
Proof.
  assert (Hfail : ∀ o t, Forall reads t → o ≠ Ok tt → followed a args override token o t) by by left.
  unfold migrate. apply sends_bind, sends_require; intros _; [|by apply Hfail]. cbv zeta.
  apply sends_bind, sends_lift. destruct (migration_policy _) as [[pool fixed]|e]; cbn; [|by apply Hfail].
  apply sends_bind. eapply sends_mono; [by apply sends_resolve|]. intros o t (Ht & Hne & Hok).
  assert (Hq : Forall reads t) by (eapply query_reads; [|exact Ht]; by left).
  destruct o as [[[source name] err]|e|]; [|by destruct (Hne e)|by apply Hfail].
  destruct (Hok source name err eq_refl) as [_ Hres].
  apply sends_bind. destruct err as [e|]; [apply sends_throw; rewrite app_nil_r; by apply Hfail|].
  specialize (Hres eq_refl). apply sends_ret. cbn [app].
  apply sends_bind, sends_require; intros _; cbn [app]; [|rewrite app_nil_r; by apply Hfail].
  apply sends_bind, sends_lift.
  destruct (find_host Hosts (nth 3 args "")) as [target|e] eqn:Hf; cbn [of_result app]; [|rewrite app_nil_r; by apply Hfail].
  apply find_host_in in Hf as [Htin Htn].
  apply sends_bind, sends_require; intros Hdiff; cbn [app]; [|rewrite app_nil_r; by apply Hfail].
  apply negb_true_iff, String.eqb_neq in Hdiff.
  match goal with |- sends _ ?m _ => assert (Hm : moves serve a source target name token (drop 4 args) (Looking 0) m (λ _ st, migrated st) anywhere) end.
  2: { eapply sends_mono; [exact Hm|]. intros o t' (st & Hrun & H). right. exists source, target, name, st, t, t'.
       rewrite <- Htn. split_and!; [done..|by eapply mrun_once|]. by intros ->. }
  eapply moves_bind; [by apply (moves_look _ _ _ _ _ _ _ 0)|].
  intros data ? ->. eapply (moves_bind _ _ _ _ _ _ _ _ _ _ (λ _ st, st = Looking 1)); [by apply moves_lift|].
  intros v ? ->. eapply (moves_bind _ _ _ _ _ _ _ _ _ _ (λ _ st, st = Looking 1)); [by apply moves_lift|].
  intros ? ? ->. eapply moves_bind; [apply (moves_look _ _ _ _ _ _ _ 1); intros r; by exists pool, v|].
  intros data2 ? ->. eapply (moves_bind _ _ _ _ _ _ _ _ _ _ (λ _ st, st = Looking 2)); [by apply moves_lift|].
  intros pl ? ->. eapply (moves_bind _ _ _ _ _ _ _ _ _ _ (λ _ st, st = Looking 2)); [by apply moves_require|].
  intros ? ? ->. cbv zeta. set (q := mkMigrationDiskRequest _ _ _ _ _).
  assert (Hcheck : ∀ n h, (∀ r, look a source target name n (mkSent h a (migrationDiskArgs q) NoInput r)) →
    moves serve a source target name token (drop 4 args) (Looking n)
      (wrapping "host native migration unavailable (source not prepared): "
        (commandJSON serve h a (migrationDiskArgs q));; mret tt) (λ _ st, st = Looking (S n)) anywhere).
  { intros n h Hl. eapply moves_bind; [by apply moves_wrapping, moves_look|]. intros ? ? ->. by apply moves_ret. }
  eapply (moves_bind _ _ _ _ _ _ _ _ _ _ (λ _ st, st = Looking 4)).
  { cbn [for_each]. eapply moves_bind; [apply (Hcheck 2%nat); intros r; by exists q|].
    intros ? ? ->. eapply moves_bind; [apply (Hcheck 3%nat); intros r; by exists q|].
    intros ? ? ->. by apply moves_ret. }
  intros ? ? ->. by apply moves_wrapping, moves_migrate.
Qed.
End migration.

(** ** What is promised of migrations *)

(** The hosts keep their side of a migration of [name]: where it may be started. *)
Class CarefulHosts {B : Type} {codec : Codec} (serve : Host → Actor → list string → input → B → reply * B)
    (name : string) (startable : string → B → Prop) (passive : list string → Prop) : Prop := {
  (* a command to one host is no matter of the others *)
  ch_local h a args inp b r b' h' :
    serve h a args inp b = (r, b') → h' ≠ ho_Name h → startable h' b' → startable h' b;
  (* a passive command makes nothing startable *)
  ch_passive h a args inp b r b' h' :
    serve h a args inp b = (r, b') → passive args → startable h' b' → startable h' b;
  (* who is prepared does not start it any more *)
  ch_prepared h a target token policy b out b' p :
    serve h a (prepare_args target name token policy) NoInput b = (Replied out, b') → decode_prepared out = Some p →
    is_prepared target token p → ¬ startable (ho_Name h) b';
}.

(** Every command of a migration but the import. *)
Definition no_import (args : list string) : Prop :=
  match args with
  | "--json" :: "migration" :: sub :: _ => sub ∈ ["prepare"; "receipt"; "complete"]
  | "--json" :: "orb" :: sub :: _ => sub = "list"%string
  | "--json" :: sub :: _ => sub ∈ ["list"; "status"; "placement"; "inspect"; "import-placement"]
  | ["migration-disk"; word] => word ≠ "import"%string
  | ["start"; _] => True
  | _ => False
  end.

Section owners.
Context {B : Type} {codec : Codec} (serve : Host → Actor → list string → input → B → reply * B).
Context (name : string) (startable : string → B → Prop) `{!CarefulHosts serve name startable no_import}.
Context {faithful : FaithfulCodec}.
Context (a : Actor) (source target : Host) (token : string) (policy : list string).
Context (different : ho_Name source ≠ ho_Name target).

(** Not both. *)
Definition apart (b : B) : Prop := ¬ (startable (ho_Name source) b ∧ startable (ho_Name target) b).

Definition owners (st : stage) (b : B) : Prop :=
  match st with
  | Looking _ | Halted => apart b
  | _ => ¬ startable (ho_Name source) b
  end.

Lemma passive_keeps h e b b' :
  serve (se_host e) (se_actor e) (se_args e) (se_input e) b = (se_reply e, b') → no_import (se_args e) →
  ¬ startable h b → ¬ startable h b'.
Proof. intros Hs Hp Hn Hb. by eapply Hn, ch_passive. Qed.

Lemma reads_passive e : reads e → no_import (se_args e).
Proof.
  intros (_ & c & l & Hc & [->|[-> ->]]); [|done]. cbn.
  apply elem_of_cons in Hc as [->|[->|[->|?%not_elem_of_nil]%elem_of_cons]%elem_of_cons]; [..|done];
    by apply (bool_decide_unpack _).
Qed.

Lemma disk_passive h x e : disk_command a h x e → no_import (se_args e).
Proof. intros (q & _ & _ & _ & ->). apply fc_import. Qed.

Lemma look_passive n e : look a source target name n e → no_import (se_args e).
Proof.
  do 4 (try destruct n as [|n]); cbn; [..|done].
  - intros (_ & _ & ->). by apply (bool_decide_unpack _).
  - intros (pool & v & _ & _ & ->). by apply (bool_decide_unpack _).
  - apply disk_passive.
  - apply disk_passive.
Qed.

Lemma owners_apart st b : owners st b → apart b.
Proof. destruct st; cbn; [done|..|done]; by intros Hn [H _]. Qed.

(** Every command but the import, and that one leaves the source alone. *)
Lemma step_source st e st' b b' :
  mstep a source target name token policy st e st' →
  serve (se_host e) (se_actor e) (se_args e) (se_input e) b = (se_reply e, b') →
  no_import (se_args e) ∨ (se_host e = target ∧ ∃ p d, st = Fenced p d).
Proof.
  intros Hs _. assert (Hmig : ∀ h sub l, is_command a h ("--json" :: "migration" :: sub :: l) e →
    sub ∈ ["prepare"; "receipt"; "complete"] → no_import (se_args e)) by by intros h sub l (_ & _ & ->).
  assert (Ht : ∀ p h x, transfer_command a token p h x e → no_import (se_args e))
    by (intros p h x H; by eapply disk_passive, transfer_disk_command).
  assert (Hrec : ∀ s p, receives a target token policy s p e → no_import (se_args e) ∨ se_host e = target).
  { intros [] p H; [left; by eapply Ht..|right; apply H]. }
  destruct Hs as [n e out H|n e H|e out p H|e H|e p out H|e p H|e p out H|e p H|s d e p Hd H|s e p data out H|s e p w H|
    s d e p Hd H|e p out r H|e p H|e p out H|e p H|e p H|e p st Hst _ H].
  1,2: left; by eapply look_passive.
  1,2: left; eapply Hmig; [exact H|by apply (bool_decide_unpack _)].
  1-5: left; by eapply Ht.
  1-3: destruct (Hrec _ _ H) as [?|?]; [by left|right; eauto].
  1-4: left; eapply Hmig; [exact H|by apply (bool_decide_unpack _)].
  - left. by eapply disk_passive.
  - left. destruct H as (_ & _ & ->). done.
Qed.

Lemma owners_step st e st' b b' :
  mstep a source target name token policy st e st' →
  serve (se_host e) (se_actor e) (se_args e) (se_input e) b = (se_reply e, b') → owners st b → owners st' b'.
Proof.
  intros Hs Hserve Ho.
  destruct (step_source _ _ _ _ _ Hs Hserve) as [Hp|[He (p & d & ->)]].
  - assert (Hkeep : ∀ h, ¬ startable h b → ¬ startable h b') by (intros; by eapply passive_keeps).
    assert (Hapart : apart b → apart b').
    { intros Hn [H1 H2]. apply Hn. split; by eapply ch_passive. }
    destruct Hs; cbn in Ho |- *; auto; try (by apply Hapart, (owners_apart (Fenced _ _)));
      try (by apply Hapart; intros [? _]).
    + destruct H as (Hh & Ha & Hw). rewrite Hh, Ha, Hw, H0, H1 in Hserve. by eapply ch_prepared.
    + destruct s; cbn; auto.
    + destruct H as [-> | ->]; cbn in Ho; auto.
  - assert (Hn : ¬ startable (ho_Name source) b').
    { intros Hb. apply Ho. eapply ch_local; [exact Hserve|by rewrite He|done]. }
    inversion Hs; subst; cbn; try done; try (by intros [? _]).
    all: by destruct s.
Qed.

Lemma owners_run st t st' b b' :
  mrun a source target name token policy st t st' → evolves serve b t b' → owners st b → owners st' b'.
Proof.
  intros Hr. revert b. induction Hr as [st|st e st1 t st2 Hs Hr IH]; intros b Hev Ho.
  - by inversion Hev; subst.
  - inversion Hev as [|? ? b1 ? ? Hserve Hev']; subst. eapply IH; [exact Hev'|]. by eapply owners_step.
Qed.

Lemma reads_keep h t b b' : Forall reads t → evolves serve b t b' → ¬ startable h b → ¬ startable h b'.
Proof.
  intros Ht Hev. induction Hev as [|b e b1 t b2 Hs _ IH]; [done|]. apply Forall_cons in Ht as [He Ht]. intros Hn.
  apply IH; [done|]. eapply passive_keeps; [exact Hs|by apply reads_passive|done].
Qed.

Lemma reads_apart h h' t b b' :
  Forall reads t → evolves serve b t b' → ¬ (startable h b ∧ startable h' b) → ¬ (startable h b' ∧ startable h' b').
Proof.
  intros Ht Hev. induction Hev as [|b e b1 t b2 Hs _ IH]; [done|]. apply Forall_cons in Ht as [He Ht]. intros Hn.
  apply IH; [done|]. intros [H1 H2]. apply Hn. split; eapply ch_passive; [exact Hs|by apply reads_passive|done|exact Hs|
    by apply reads_passive|done].
Qed.
End owners.

Section migrations.
Context {B : Type} {codec : Codec} {faithful : FaithfulCodec} (serve : Host → Actor → list string → input → B → reply * B).
Context (ToLower : string → string) (SplitHostPort : string → bool) (ParseAuthorizedKey : string → option string).
Context (c : FrontConfig) (valid : Validate ToLower SplitHostPort ParseAuthorizedKey c = inl tt).

#[local] Abbreviation Hosts := (fc_Hosts c).

Lemma sends_Run_migrate a token args hostName clean asJSON orb words :
  front_options args "" [] false = inl (hostName, clean, asJSON) → orb_command clean asJSON = inl (orb, words) →
  hd "" words = "migrate" →
  sends serve (Run serve Hosts a token args) (followed Hosts a words hostName token).
Proof.
  intros Hopt Horb Hmig. unfold Run. rewrite Hopt. cbn [lift of_result].
  assert (Hfail : ∀ e, followed Hosts a words hostName token (Err e) []) by by left.
  apply sends_bind, sends_ret, sends_bind, sends_require; intros _; [|by apply Hfail].
  apply sends_bind, sends_lift. rewrite Horb. cbn [of_result app]. rewrite Hmig. cbn.
  apply sends_bind, sends_lift. destruct (reserved_command words hostName) as [[]|e]; cbn; [|by apply Hfail].
  apply sends_bind, sends_require; intros _; cbn [app]; [|by apply Hfail].
  eapply sends_migrate. by eapply Validate_hosts.
Qed.

(** C16. A migration asks every host for its source, if the user has not named it, and then
    follows the protocol step by step: four looks, the preparation of the source, the
    transfer of the disk and the record, the receipt, the completion, and the start.
    After a command that fails nothing is sent but the other end of its stream; the source
    is completed only when the target has confirmed the import of this very transfer; the
    instance is started only on the target, only after that, and only if it ran before.
    No two of these commands to one host are the same, for codecs that keep the action of a
    request ([FaithfulCodec]). *)
Theorem migration_follows_protocol a token args hostName clean asJSON orb words fs s :
  front_options args "" [] false = inl (hostName, clean, asJSON) → orb_command clean asJSON = inl (orb, words) →
  hd "" words = "migrate" →
  let '(o, s', _) := Run serve Hosts a token args fs s in
  ∃ t, nt_sent s' = (nt_sent s ++ t)%list ∧ followed Hosts a words hostName token o t.
Proof.
  intros Hopt Horb Hmig. pose proof (sends_Run_migrate a token args _ _ _ _ _ Hopt Horb Hmig s fs) as H.
  destruct (Run _ _ _ _ _ _ _) as [[o s'] fs']. destruct H as (t & Ht & _ & H). by exists t.
Qed.

(** The instance of a reference [HOST/NAME] or [NAME]. *)
Definition referred (reference : string) : string :=
  match Cut reference "/" with (_, n, true) => n | _ => reference end.

(** C15. However a migration ends and wherever it is cut off, its source (the host that the user
    named, or the only one that lists the instance) and its target do not both start the
    instance, if they did not before and each host keeps its side ([CarefulHosts]). *)
Theorem one_owner startable a token args hostName clean asJSON orb words fs s :
  CarefulHosts serve (referred (migration_reference words hostName)) startable no_import →
  front_options args "" [] false = inl (hostName, clean, asJSON) → orb_command clean asJSON = inl (orb, words) →
  hd "" words = "migrate" →
  let target := nth 3 words "" in
  (∀ source, source ≠ target → ¬ (startable source (nt_backend s) ∧ startable target (nt_backend s))) →
  let '(_, s', _) := Run serve Hosts a token args fs s in
  ∃ t, nt_sent s' = (nt_sent s ++ t)%list ∧
    ((Forall reads t ∧
      ∀ source, source ≠ target → ¬ (startable source (nt_backend s') ∧ startable target (nt_backend s'))) ∨
     ∃ source name t0 t1, t = (t0 ++ t1)%list ∧ resolved Hosts a (migration_reference words hostName) source name t0 ∧
       ¬ (startable (ho_Name source) (nt_backend s') ∧ startable target (nt_backend s'))).
Proof.
  intros Hch Hopt Horb Hmig target Hstart.
  pose proof (sends_Run_migrate a token args _ _ _ _ _ Hopt Horb Hmig s fs) as H.
  destruct (Run _ _ _ _ _ _ _) as [[o s'] fs']. cbn in H.
  destruct H as (t & Ht & Hev & [[Hr _]|(source & tg & n & st & t0 & t1 & -> & Ht0 & Hres & Htin & Htn & Hdiff & Hrun & _)]);
    (eexists; split; [exact Ht|]).
  - left. split; [done|]. intros source Hne. eapply (reads_apart serve _ startable); [exact Hr|exact Hev|auto].
  - right. exists source, n, t0, t1. split_and!; [done..|]. change target with (nth 3 words ""). rewrite <- Htn.
    assert (Hname : n = referred (migration_reference words hostName)).
    { unfold referred. destruct Hres as [_ [[-> _]|(Hc & -> & _)]]; [done|].
      destruct (Cut _ "/") as [[? ?] []]; [by cbn in Hc|done]. }
    rewrite <- Hname in Hch. destruct (evolves_split serve (nt_backend s) t0 t1 (nt_backend s')) as (b1 & Hev0 & Hev1); [done|].
    eapply (owners_apart startable source tg st), (owners_run serve n startable); [exact Hdiff|exact Hrun|exact Hev1|].
    eapply (reads_apart serve n startable); [exact Ht0|exact Hev0|]. rewrite Htn. apply Hstart. exact (λ E, Hdiff (eq_trans E (eq_sym Htn))).
Qed.
End migrations.

(** ** Two hosts

    [a] has [vm]; [b] has more room, but its admission rejects every new instance. *)

#[local] Instance demo_codec : Codec := {|
  json_Valid _ := true;
  decode_list out := if String.eqb out "vm" then Some [mkListed "vm" ""] else if String.eqb out "" then Some [] else None;
  decode_placement out :=
    if String.eqb out "small" then Some (mkPlacement true "" 8 100)
    else if String.eqb out "roomy" then Some (mkPlacement true "" 64 100) else None;
  decode_inspect _ := Some (mkInspected "id-1" "arch" 2 1024 4096 "" "fixed" 0);
  decode_prepared out := if String.eqb out "prepared" then Some (mkPrepared "id-1" "tok-1" "b" true "prepared") else None;
  decode_transfer _ := Some (mkMigrationDiskResult (mkMigrationDisk (mkObject "tok-1" "" "" 0 "") None) false);
  decode_receipt out := if String.eqb out "receipt" then Some (mkTransferReceipt "tok-1" "id-1" "imported") else None;
  encode_request q := ("eyJ" +:+ mq_Action q)%stdpp;
  encode_actor a := ("eyJ" +:+ UserLogin a)%stdpp;
|}.

(** The hosts that would start [vm]. *)
Definition two_hosts_effect (args : list string) (h : string) (b : gset string) : gset string :=
  if String.eqb (nth 0 args "") "--json" && String.eqb (nth 1 args "") "migration" && String.eqb (nth 2 args "") "prepare"
  then b ∖ {[h]}
  else if String.eqb (nth 0 args "") "migration-disk" && String.eqb (nth 1 args "") "import" then {[h]} ∪ b else b.

Definition two_hosts_reply (args : list string) (h : string) (b : gset string) : reply :=
  let w := nth 1 args "" in
  if String.eqb (nth 0 args "") "new" then Exited ExitCreateRejected "create rejected"
  else if negb (String.eqb (nth 0 args "") "--json") then Replied ""
  else if String.eqb w "list" then Replied (if bool_decide (h ∈ b) then "vm" else "")
  else if String.eqb w "placement" || String.eqb w "import-placement" then Replied (if String.eqb h "a" then "small" else "roomy")
  else if String.eqb w "migration" then
    Replied (if String.eqb (nth 2 args "") "prepare" then "prepared" else if String.eqb (nth 2 args "") "receipt" then "receipt" else "")
  else Replied "".

Definition two_hosts (h : Host) (a : Actor) (args : list string) (inp : input) (b : gset string) : reply * gset string :=
  (two_hosts_reply args (ho_Name h) b, two_hosts_effect args (ho_Name h) b).

#[local] Instance demo_faithful : FaithfulCodec.
Proof.
  split.
  - intros q q' [= H]. done.
  - intros q [=].
Qed.

#[local] Instance two_hosts_careful : CarefulHosts two_hosts "vm" (λ h b, h ∈ b) no_import.
Proof.
  split.
  - intros h a args inp b r b' h' [= _ <-] Hne. unfold two_hosts_effect.
    destruct (_ && _ && _); [set_solver|]. destruct (_ && _); set_solver.
  - intros h a args inp b r b' h' [= _ <-] Hp. unfold two_hosts_effect. destruct (_ && _ && _); [set_solver|].
    destruct (_ && _) eqn:Hi; [|done]. exfalso. apply andb_true_iff in Hi as [H0%String.eqb_eq H1%String.eqb_eq].
    destruct args as [|w0 [|w1 [|w2 l]]]; cbn in *; by subst.
  - intros h a target token policy b out b' p [= _ <-] _ _. set_solver.
Qed.

Definition front_config : FrontConfig :=
  mkFrontConfig "front" "/var/lib/front" ":22" ["alice@example.com"]
    [mkHost "a" "a:22" "ssh-ed25519 A"; mkHost "b" "b:22" "ssh-ed25519 B"] ∅.
Definition front_alice : Actor := mkActor "alice@example.com" "Alice" "laptop" "" "".
Definition front_start : Net (gset string) := mkNet {["a"%string]} [].
Definition one_key (_ : string) : option string := Some "".
Definition any_address (_ : string) : bool := true.
Definition ascii_lower (s : string) : string := s.

Definition front_run (args : list string) : outcome unit * Net (gset string) :=
  run (Run two_hosts (fc_Hosts front_config) front_alice "tok-1" args) front_start.
Definition sent_words (s : Net (gset string)) : list (string * string) :=
  map (λ e, (ho_Name (se_host e), GoStrings.Join (se_args e) " ")) (nt_sent s).

Lemma front_config_valid : Validate ascii_lower any_address one_key front_config = inl tt.
Proof. vm_compute. reflexivity. Qed.

(** [start] goes to the host that has the instance, after both have answered. *)
Lemma command_sent_once_witness :
  sent_words (front_run ["start"; "vm"; "--json"]).2 =
    [("a", "--json list --all"); ("b", "--json list --all"); ("a", "--json start vm")]%string ∧
  let '(o, s', _) := Run two_hosts (fc_Hosts front_config) front_alice "tok-1" ["start"; "vm"; "--json"] [] front_start in
  ∃ t, nt_sent s' = (nt_sent front_start ++ t)%list ∧
    ran (fc_Hosts front_config) front_alice ["start"; "vm"] "" true false o t.
Proof.
  split; [vm_compute; reflexivity|].
  apply (command_sent_once two_hosts ascii_lower any_address one_key front_config front_config_valid front_alice "tok-1"
           ["start"; "vm"; "--json"] "" ["start"; "vm"] true false ["start"; "vm"] [] front_start);
    first [reflexivity|discriminate].
Defined.

(** The best host rejects the new instance. *)
Lemma refusal_is_clean_witness :
  ∃ e s', front_run ["new"; "vm2"] = (Err e, s') ∧ ExitStatus e = ExitCreateRejected ∧
    ∃ t, nt_sent s' = (nt_sent front_start ++ t)%list ∧
      (Forall reads t ∨ ∃ qs x out, t = (qs ++ [x])%list ∧ Forall reads qs ∧ se_reply x = Exited ExitCreateRejected out).
Proof.
  eexists _, _. split; [vm_compute; reflexivity|]. split; [reflexivity|].
  apply (refusal_is_clean two_hosts ascii_lower any_address one_key front_config front_config_valid front_alice "tok-1"
           ["new"; "vm2"] "" ["new"; "vm2"] false false ["new"; "vm2"] [] front_start _
           (ErrExit 3 "host: outcome may be uncertain; not retried: process exited") []);
    first [reflexivity|discriminate|vm_compute; reflexivity].
Defined.

Lemma migration_follows_protocol_witness :
  let '(o, s', _) := Run two_hosts (fc_Hosts front_config) front_alice "tok-1" ["migrate"; "a/vm"; "--to"; "b"] [] front_start in
  ∃ t, nt_sent s' = (nt_sent front_start ++ t)%list ∧
    followed (fc_Hosts front_config) front_alice ["migrate"; "a/vm"; "--to"; "b"] "" "tok-1" o t.
Proof.
  apply (migration_follows_protocol two_hosts ascii_lower any_address one_key front_config front_config_valid front_alice
           "tok-1" ["migrate"; "a/vm"; "--to"; "b"] "" ["migrate"; "a/vm"; "--to"; "b"] false false
           ["migrate"; "a/vm"; "--to"; "b"] [] front_start); reflexivity.
Defined.

(** Cut off just after the import: [b] has the instance, [a] does not start it. *)
Definition after_import : list fault := (replicate 12 Pass ++ [CrashAfter])%list.
Example after_import_owner :
  nt_backend (Run two_hosts (fc_Hosts front_config) front_alice "tok-1" ["migrate"; "vm"; "--to"; "b"] after_import front_start).1.2 =
  {["b"%string]}.
Proof. vm_compute. reflexivity. Qed.

Lemma one_owner_witness :
  let '(_, s', _) := Run two_hosts (fc_Hosts front_config) front_alice "tok-1" ["migrate"; "vm"; "--to"; "b"]
                       after_import front_start in
  ∃ t, nt_sent s' = (nt_sent front_start ++ t)%list ∧
    ((Forall reads t ∧ ∀ source, source ≠ "b"%string → ¬ (source ∈ nt_backend s' ∧ "b"%string ∈ nt_backend s')) ∨
     ∃ source name t0 t1, t = (t0 ++ t1)%list ∧
       resolved (fc_Hosts front_config) front_alice (migration_reference ["migrate"; "vm"; "--to"; "b"] "") source name t0 ∧
       ¬ (ho_Name source ∈ nt_backend s' ∧ "b"%string ∈ nt_backend s')).
Proof.
  apply (one_owner two_hosts ascii_lower any_address one_key front_config front_config_valid (λ h b, h ∈ b)
           front_alice "tok-1" ["migrate"; "vm"; "--to"; "b"] "" ["migrate"; "vm"; "--to"; "b"] false false
           ["migrate"; "vm"; "--to"; "b"] after_import front_start);
    [exact two_hosts_careful|reflexivity..|].
  intros source _ [_ H]. change ("b"%string ∈ ({["a"%string]} : gset string)) in H. set_solver.
Defined.
