(* ===== verification/Balloons.v ===== *)
(** * The balloons of the machines

    Models src/internal/vmrunner/balloon_pool.go and the balloon loop of vmrunner.go: the
    target of a balloon by the statistics of its guest, the plan of a command under the
    mutex of a pool, and a sweep over all machines, whose workers interleave.
    The files and sockets of the host are what they are at the moment of each call. *)
From S2P Require Import Prelude GoStrings Paths Timestamps RunnerState.
From stdpp Require Import relations.

#[local] Open Scope Z_scope.

(** ** Constants and 64-bit helpers *)

Definition balloonSettleTime : Z := 10 * ns_per_sec.
Definition balloonStallTime : Z := 30 * ns_per_sec.
Definition balloonTargetStepMiB : Z := 64.
Definition balloonMaxTargetChangeMiB : Z := 512.
Definition balloonGuestHeadroomFloorMiB : Z := 256.
Definition balloonGuestHeadroomDivisor : Z := 8.
Definition balloonMaxTargetDivisor : Z := 2.
Definition miBBytes : Z := 1024 * 1024.

Definition bytesToMiBFloor (bytes : Z) : Z := if bytes <=? 0 then 0 else bytes `quot` miBBytes.
Definition bytesToMiBCeil (bytes : Z) : Z :=
  if bytes <=? 0 then 0 else int64 (int64 (bytes + miBBytes) - 1) `quot` miBBytes.
Definition roundDownToMultiple (value multiple : Z) : Z :=
  if (value <=? 0) || (multiple <=? 1) then Z.max value 0 else value - value `rem` multiple.
Definition roundUpToMultiple (value multiple : Z) : Z :=
  if (value <=? 0) || (multiple <=? 1) then Z.max value 0 else
  let remainder := value `rem` multiple in
  if remainder =? 0 then value else int64 (int64 (value + multiple) - remainder).
Definition absInt64 (value : Z) : Z := if value <? 0 then int64 (- value) else value.

(** ** The target of one balloon *)

Record firecrackerBalloonStats := mkBalloonStats {
  ActualMiB : option Z;
  AvailableMemory : option Z;
  TargetMiB : option Z;
  TotalMemory : Z;
}.

Definition balloonAdjustmentStepMiB (guestTotalMiB : Z) : Z :=
  Z.max 1 (Z.min balloonTargetStepMiB (Z.max (guestTotalMiB `quot` 8) 1)).

(** The target, the step, and whether the statistics allow of one. *)
Definition desiredBalloonTargetMiB (stats : firecrackerBalloonStats) : Z * Z * bool :=
  match TargetMiB stats, ActualMiB stats, AvailableMemory stats with
  | Some target, Some actual, Some available =>
      if TotalMemory stats <? 1 then (0, 0, false) else
      if (target <? 0) || (actual <? 0) || (available <? 0) || (TotalMemory stats <? available) then (0, 0, false) else
      let guestTotalMiB := bytesToMiBCeil (TotalMemory stats) in
      if (guestTotalMiB <? actual) || (guestTotalMiB <? target) then (0, 0, false) else
      let headroomMiB := Z.max balloonGuestHeadroomFloorMiB (guestTotalMiB `quot` balloonGuestHeadroomDivisor) in
      let desired := Z.max 0 (int64 (int64 (actual + bytesToMiBFloor available) - headroomMiB)) in
      let maxTargetMiB := Z.max (guestTotalMiB `quot` balloonMaxTargetDivisor) 1 in
      let desired := Z.min desired maxTargetMiB in
      (if negb (actual =? target) then Z.min desired target else desired, balloonAdjustmentStepMiB guestTotalMiB, true)
  | _, _, _ => (0, 0, false)
  end.

(** One move towards [desiredMiB], by whole steps and at most 512 MiB. *)
Definition nextBalloonTargetMiB (currentMiB desiredMiB stepMiB : Z) : Z :=
  let stepMiB := if stepMiB <? 1 then 1 else stepMiB in
  let currentMiB := if currentMiB <? 0 then 0 else currentMiB in
  let desiredMiB := if desiredMiB <? 0 then 0 else desiredMiB in
  if currentMiB =? desiredMiB then currentMiB else
  if negb (currentMiB `rem` stepMiB =? 0) then
    if desiredMiB <? currentMiB then roundDownToMultiple currentMiB stepMiB
    else Z.min (roundUpToMultiple currentMiB stepMiB) desiredMiB
  else
  let deltaMiB := int64 (desiredMiB - currentMiB) in
  if absInt64 deltaMiB <? stepMiB then currentMiB else
  let maxChangeMiB := Z.max stepMiB (roundDownToMultiple balloonMaxTargetChangeMiB stepMiB) in
  if 0 <? deltaMiB then int64 (currentMiB + Z.min deltaMiB maxChangeMiB)
  else int64 (currentMiB - Z.min (int64 (- deltaMiB)) maxChangeMiB).

(** ** Pools *)

(** [os.FileInfo] as [os.SameFile] compares it: device and inode. *)
Definition FileInfo : Type := Z * Z.
Definition SameFile (a b : FileInfo) : bool := bool_decide (a = b).

Record balloonVM := mkBalloonVM {
  bv_Name : string; bv_CgroupPath : string; bv_SocketPath : string; bv_UseTarget : bool; bv_PoolPath : string;
}.

Record balloonObservation := mkObservation {
  bo_socket : FileInfo; bo_cgroup : FileInfo; bo_target : Z; bo_actual : Z; bo_changed : time; bo_progress : time;
}.

(** A member without an observation is there with [None]. *)
Record balloonPool := mkBalloonPool {
  bp_identity : FileInfo;
  bp_limit : Z;
  bp_members : gmap string (option balloonObservation);
  bp_inflated : Z;
  bp_returned : Z;
  bp_saturated : bool;
}.

Definition set_members v p := mkBalloonPool (bp_identity p) (bp_limit p) v (bp_inflated p) (bp_returned p) (bp_saturated p).
Definition set_commanded inflated returned p :=
  mkBalloonPool (bp_identity p) (bp_limit p) (bp_members p) inflated returned (bp_saturated p).
Definition set_saturated v p := mkBalloonPool (bp_identity p) (bp_limit p) (bp_members p) (bp_inflated p) (bp_returned p) v.

(** What the calls of a worker would find at a moment. *)
Record BalloonHost := mkBalloonHost {
  bh_ReadDir : string → result (list (string * bool));  (* names, and whether a directory *)
  bh_Stat : string → result FileInfo;
  bh_Int64 : string → result Z;                         (* readInt64File *)
  bh_Lock : string → result unit;                       (* lockNameContext *)
  bh_Stats : string → result firecrackerBalloonStats;   (* readBalloonStats *)
  bh_Patch : string → Z → result unit;                  (* patchBalloonTarget *)
}.

(** The numbers have 64 bits. *)
Definition typed_stats (st : firecrackerBalloonStats) : Prop :=
  (∀ v, ActualMiB st = Some v → fits v) ∧ (∀ v, AvailableMemory st = Some v → fits v) ∧
  (∀ v, TargetMiB st = Some v → fits v) ∧ fits (TotalMemory st).
Definition typed (h : BalloonHost) : Prop :=
  (∀ path v, bh_Int64 h path = inl v → fits v) ∧ (∀ socket st, bh_Stats h socket = inl st → typed_stats st).

(** *** The machines *)

Definition fixed_vm (cfg : ServerConfig) (fixedRoot : string) (e : string * bool) : option (result balloonVM) :=
  if e.2 then Some (paths ← resolveInstanceRuntimePaths (InstancesDir cfg) e.1;
                    mret (mkBalloonVM e.1 (JoinPath [fixedRoot; e.1]) (ip_SocketPath paths) false "")) else None.
Definition pooled_vm (cfg : ServerConfig) (poolPath : string) (e : string * bool) : option (result balloonVM) :=
  if e.2 then Some (paths ← resolveInstanceRuntimePaths (InstancesDir cfg) e.1;
                    mret (mkBalloonVM e.1 (JoinPath [poolPath; e.1]) (ip_SocketPath paths) true poolPath)) else None.

(** All of them, or the first failure. *)
Fixpoint sequence {A} (l : list (result A)) : result (list A) :=
  match l with
  | [] => inl []
  | r :: l' => x ← r; xs ← sequence l'; mret (x :: xs)
  end.

Definition pool_vms (cfg : ServerConfig) (h : BalloonHost) (poolRoot : string) (e : string * bool)
  : option (result (list balloonVM)) :=
  if e.2 then Some (let poolPath := JoinPath [poolRoot; e.1] in
                    match bh_ReadDir h poolPath with
                    | inr _ => inr (Errorf "list pooled vm cgroups")
                    | inl entries => sequence (omap (pooled_vm cfg poolPath) entries)
                    end) else None.

(** [root]: [cgroupPathOnHost(rootRel)]. *)
Definition listBalloonVMs (cfg : ServerConfig) (root : string) (h : BalloonHost) : result (list balloonVM) :=
  let fixedRoot := JoinPath [root; "firecracker-vms"] in
  let poolRoot := JoinPath [root; "firecracker-pools"] in
  entries ← match bh_ReadDir h fixedRoot with
            | inl entries => inl entries
            | inr ErrNotExist => inl []
            | inr _ => inr (Errorf "list fixed vm cgroups")
            end;
  vms ← sequence (omap (fixed_vm cfg fixedRoot) entries);
  match bh_ReadDir h poolRoot with
  | inr ErrNotExist => if bool_decide (vms = []) then inr ErrNotExist else inl vms
  | inr e => inr e
  | inl pools => pooled ← sequence (omap (pool_vms cfg h poolRoot) pools); mret (vms ++ concat pooled)%list
  end.

(** *** The start of a sweep *)

(** The pool of a path as it goes into a sweep. *)
Definition prepare_pool (h : BalloonHost) (old : gmap string balloonPool) (path : string) : option balloonPool :=
  match bh_Stat h path with
  | inr _ => None
  | inl info =>
      match bh_Int64 h (JoinPath [path; "memory.max"]) with
      | inr _ => None
      | inl limit =>
          if limit <=? 0 then None else
          let fresh := mkBalloonPool info limit ∅ 0 0 false in
          Some (set_commanded 0 0
                  match old !! path with
                  | Some p => if SameFile (bp_identity p) info && (bp_limit p =? limit) then p else fresh
                  | None => fresh
                  end)
      end
  end.

Definition prepare_pools (old : gmap string balloonPool) (vms : list (balloonVM * BalloonHost)) : gmap string balloonPool :=
  fold_left (λ pools '(vm, h),
    if negb (bv_UseTarget vm) then pools else
    match pools !! bv_PoolPath vm with
    | Some _ => pools
    | None => match prepare_pool h old (bv_PoolPath vm) with Some p => <[bv_PoolPath vm := p]> pools | None => pools end
    end) vms ∅.

(** Only the present members stay, with what is known of them. *)
Definition current_members (path : string) (vms : list balloonVM) (members : gmap string (option balloonObservation))
  : gmap string (option balloonObservation) :=
  fold_left (λ ms vm, if String.eqb (bv_PoolPath vm) path
                      then <[bv_Name vm := default None (members !! bv_Name vm)]> ms else ms) vms ∅.

(** With each machine the moment its pool is looked at. *)
Definition prepareBalloonPools (vms : list (balloonVM * BalloonHost)) (old : gmap string balloonPool)
  : gmap string balloonPool :=
  map_imap (λ path p, Some (set_members (current_members path vms.*1 (bp_members p)) p)) (prepare_pools old vms).

(** ** The plan of one command *)

(** First critical section: a replaced socket or cgroup is another incarnation. *)
Definition identify (name : string) (socket cgroup : FileInfo) (pool : balloonPool) : balloonPool :=
  match bp_members pool !! name with
  | Some (Some previous) =>
      if SameFile (bo_socket previous) socket && SameFile (bo_cgroup previous) cgroup then pool
      else set_members (<[name := None]> (bp_members pool)) pool
  | _ => set_members (<[name := None]> (bp_members pool)) pool
  end.

(** The observation after [target] and [actual] were reported, and whether the guest took
    memory back on its own. *)
Definition observe (previous : option balloonObservation) (socket cgroup : FileInfo) (target actual : Z) (now : time)
  : balloonObservation * bool :=
  match previous with
  | None => (mkObservation socket cgroup target actual now now, false)
  | Some o =>
      let moved := negb (actual =? bo_actual o) || negb (target =? bo_target o) in
      (mkObservation (bo_socket o) (bo_cgroup o) target actual
         (if moved then now else bo_changed o) (if moved then now else bo_progress o),
       (actual <? bo_actual o) && (bo_target o <=? target))
  end.

Definition observed (members : gmap string (option balloonObservation)) : list balloonObservation :=
  omap snd (map_to_list members).
Definition allObserved (members : gmap string (option balloonObservation)) : bool :=
  forallb (λ m : string * option balloonObservation, match m.2 with Some _ => true | None => false end) (map_to_list members).
Definition inflating (o : balloonObservation) : Z := Z.max (int64 (bo_target o - bo_actual o)) 0.
Definition returning (o : balloonObservation) : Z := Z.max (int64 (bo_actual o - bo_target o)) 0.
Definition pendingInflate (members : gmap string (option balloonObservation)) : Z := sum_int64 inflating (observed members).
Definition pendingReturn (members : gmap string (option balloonObservation)) : Z := sum_int64 returning (observed members).

Definition roundBudget (limit : Z) : Z := Z.min balloonMaxTargetChangeMiB (bytesToMiBFloor limit `quot` 20).

(** What a machine gets back: at most what is free below 90% of the limit. *)
Definition return_grant (pool : balloonPool) (obs : balloonObservation) (limit used safe step : Z) (now : time) : Z :=
  let free := bytesToMiBFloor (int64 (int64 (limit - limit `quot` 10) - used)) in
  let grant := Z.max 0 (int64 (free - pendingReturn (bp_members pool))) in
  let grant := Z.min grant (Z.max 0 (int64 (roundBudget limit - bp_returned pool))) in
  let grant := if negb (allObserved (bp_members pool)) || (now - bo_changed obs <? balloonSettleTime) ||
                  negb (bo_actual obs =? bo_target obs) then 0 else grant in
  let deficit := int64 (bo_actual obs - safe) in
  let grant := Z.min grant (Z.max deficit 0) in
  if negb (grant =? deficit) then roundDownToMultiple grant step else grant.

(** What a machine gives up: at most what is used above 75% of the limit. *)
Definition reclaim_delta (pool : balloonPool) (obs : balloonObservation) (limit used safe step : Z) : Z :=
  let excess := bytesToMiBFloor (int64 (used - int64 (limit - limit `quot` 4))) in
  let budget := Z.max 0 (int64 (excess - pendingInflate (bp_members pool))) in
  let budget := Z.min budget (Z.max 0 (int64 (roundBudget limit - bp_inflated pool))) in
  roundDownToMultiple (Z.min budget (int64 (safe - bo_target obs))) step.

(** The new target of [obs], and the pool with what it commands. *)
Definition decide_target (pool : balloonPool) (obs : balloonObservation) (cancelInflation : bool) (limit used safe step : Z)
    (now : time) : Z * balloonPool :=
  let target := bo_target obs in
  let actual := bo_actual obs in
  let step := Z.min step (Z.max 1 (roundBudget limit)) in
  let settled := (actual =? target) && (balloonSettleTime <=? now - bo_changed obs) in
  if cancelInflation then (actual, pool)
  else if safe <? target then
    let grant := return_grant pool obs limit used safe step now in
    (Z.min target (int64 (actual - grant)), set_commanded (bp_inflated pool) (int64 (bp_returned pool + grant)) pool)
  else if allObserved (bp_members pool) && settled && (limit - limit `quot` 5 <? used) && (target <? safe) then
    let delta := reclaim_delta pool obs limit used safe step in
    (int64 (target + delta), set_commanded (int64 (bp_inflated pool + delta)) (bp_returned pool) pool)
  else (target, pool).

(** Second critical section: the command, if there is one, is reserved. *)
Definition plan (name : string) (socket cgroup : FileInfo) (stats : firecrackerBalloonStats) (limit used : result Z)
    (now : time) (pool : balloonPool) : result (option Z) * balloonPool :=
  let '(safe, step, ok) := desiredBalloonTargetMiB stats in
  match TargetMiB stats, ActualMiB stats with
  | Some target, Some actual =>
      if (target <? 0) || (actual <? 0) then (inl None, pool) else
      match limit with
      | inr e => (inr e, pool)
      | inl limit =>
          if negb (limit =? bp_limit pool) then (inl None, pool) else
          match used with
          | inr _ => (inr (Errorf "read balloon pool usage"), pool)
          | inl used =>
              if used <? 0 then (inr (Errorf "read balloon pool usage"), pool) else
              let '(obs, fallen) := observe (default None (bp_members pool !! name)) socket cgroup target actual now in
              let pool := set_members (<[name := Some obs]> (bp_members pool)) pool in
              let cancelInflation :=
                (actual <? target) && (fallen || (balloonStallTime <=? now - bo_progress obs)) in
              if negb ok && negb cancelInflation then (inl None, pool) else
              let '(desired, pool) := decide_target pool obs cancelInflation limit used safe step now in
              if desired =? target then (inl None, pool) else
              (inl (Some desired),
               set_members (<[name := Some (mkObservation (bo_socket obs) (bo_cgroup obs) desired actual now now)]>
                              (bp_members pool)) pool)
          end
      end
  | _, _ => (inl None, pool)
  end.

(** ** A sweep *)

(** Where a worker is: [reconcilePoolBalloon] for a machine of a pool, [reconcileBalloon]
    for the others. *)
Inductive position :=
  | Waiting
  | Locked
  | FoundSocket (socket : FileInfo)
  | FoundBoth (socket cgroup : FileInfo)
  | Identified (socket cgroup : FileInfo)
  | Planning (socket cgroup : FileInfo) (stats : firecrackerBalloonStats)
  | Resident
  | Commanding (desired : Z)
  | Done (r : result unit).

(** A command as it is reserved, with what was known then; for the theorems. *)
Record command := mkCommand {
  co_time : time;
  co_pool : option string;  (* none: a fixed machine *)
  co_name : string;
  co_stats : firecrackerBalloonStats;
  co_limit : Z;
  co_used : Z;
  co_members : gmap string (option balloonObservation);  (* with the command *)
  co_desired : Z;
}.

Definition value_of (r : result Z) : Z := match r with inl v => v | inr _ => 0 end.

(** The target of a fixed machine is 0: its free pages are reported. *)
Definition fixed_target (stats : firecrackerBalloonStats) : option Z :=
  match TargetMiB stats with
  | Some current => if 0 =? current then None else Some 0
  | None => None
  end.

Definition after {A} (r : result A) (next : A → position) : position :=
  match r with inl x => next x | inr e => Done (inr e) end.

(** One call or critical section of the worker of [vm]; [pool]: the pool of its path. *)
Definition advance (h : BalloonHost) (now : time) (vm : balloonVM) (pool : option balloonPool) (pos : position)
  : position * option balloonPool * list command :=
  match pos, pool with
  | Waiting, None =>
      if bv_UseTarget vm then (Done (inl tt), None, [])
      else (after (bh_Int64 h (JoinPath [bv_CgroupPath vm; "memory.current"])) (λ _, Resident), None, [])
  | Waiting, Some _ =>
      (if bv_UseTarget vm then after (bh_Lock h (bv_Name vm)) (λ _, Locked)
       else after (bh_Int64 h (JoinPath [bv_CgroupPath vm; "memory.current"])) (λ _, Resident), pool, [])
  | Locked, _ => (after (bh_Stat h (bv_SocketPath vm)) FoundSocket, pool, [])
  | FoundSocket socket, _ => (after (bh_Stat h (bv_CgroupPath vm)) (FoundBoth socket), pool, [])
  | FoundBoth socket cgroup, Some p => (Identified socket cgroup, Some (identify (bv_Name vm) socket cgroup p), [])
  | Identified socket cgroup, _ => (after (bh_Stats h (bv_SocketPath vm)) (Planning socket cgroup), pool, [])
  | Planning socket cgroup stats, Some p =>
      let limit := bh_Int64 h (JoinPath [bv_PoolPath vm; "memory.max"]) in
      let used := bh_Int64 h (JoinPath [bv_PoolPath vm; "memory.current"]) in
      let '(r, p) := plan (bv_Name vm) socket cgroup stats limit used now p in
      match r with
      | inr e => (Done (inr e), Some p, [])
      | inl None => (Done (inl tt), Some p, [])
      | inl (Some desired) =>
          (Commanding desired, Some p,
           [mkCommand now (Some (bv_PoolPath vm)) (bv_Name vm) stats (value_of limit) (value_of used) (bp_members p) desired])
      end
  | Resident, _ =>
      match bh_Stats h (bv_SocketPath vm) with
      | inr e => (Done (inr e), pool, [])
      | inl stats =>
          match fixed_target stats with
          | None => (Done (inl tt), pool, [])
          | Some desired => (Commanding desired, pool, [mkCommand now None (bv_Name vm) stats 0 0 ∅ desired])
          end
      end
  | Commanding desired, _ => (Done (bh_Patch h (bv_SocketPath vm) desired), pool, [])
  | Done _, _ | FoundBoth _ _, None | Planning _ _ _, None => (pos, pool, [])
  end.

Definition is_done (pos : position) : bool := match pos with Done _ => true | _ => false end.

(** *** The report *)

Definition saturated_now (used now : Z) (p : balloonPool) : bool :=
  let waiting := existsb (λ o, negb (bo_target o =? bo_actual o) || (now - bo_changed o <? balloonSettleTime))
                   (observed (bp_members p)) in
  (bp_limit p - bp_limit p `quot` 5 <? used) && (bp_inflated p =? 0) && negb waiting.
(** Only a transition is logged. *)
Definition report_pool (h : BalloonHost) (now : time) (path : string) (p : balloonPool) : balloonPool * list (string * bool) :=
  match bh_Int64 h (JoinPath [path; "memory.current"]) with
  | inr _ => (p, [])
  | inl used =>
      if used <? 0 then (p, []) else
      let saturated := saturated_now used now p in
      (set_saturated saturated p, if Bool.eqb saturated (bp_saturated p) then [] else [(path, saturated)])
  end.
Definition reportBalloonPools (h : BalloonHost) (now : time) (pools : gmap string balloonPool)
  : gmap string balloonPool * list (string * bool) :=
  (map_imap (λ path p, Some (report_pool h now path p).1) pools,
   concat (map (λ '(path, p), (report_pool h now path p).2) (map_to_list pools))).

(** *** The loop

    [bl_commands]: the commands of the present sweep; [bl_past]: those of the earlier ones. *)
Record Balloons := mkBalloons {
  bl_now : time;
  bl_pools : gmap string balloonPool;
  bl_workers : option (list (balloonVM * position));  (* between sweeps: none *)
  bl_commands : list command;
  bl_past : list command;
}.

Definition set_pool (path : string) (p : option balloonPool) (pools : gmap string balloonPool) : gmap string balloonPool :=
  match p with Some p => <[path := p]> pools | None => pools end.

(** [reconcileBalloonsAt], cut into the calls and critical sections of its workers. *)
Inductive balloon_step (cfg : ServerConfig) (root : string) : Balloons → Balloons → Prop :=
  | bs_begin b now h vms : bl_workers b = None → bl_now b <= now → typed h → Forall typed vms.*2 →
      listBalloonVMs cfg root h = inl vms.*1 →
      balloon_step cfg root b
        (mkBalloons now (prepareBalloonPools vms (bl_pools b)) (Some (map (λ vm, (vm, Waiting)) vms.*1)) []
           (bl_past b ++ bl_commands b))
  | bs_work b h ws i vm pos pos' p' cs : bl_workers b = Some ws → ws !! i = Some (vm, pos) → typed h →
      advance h (bl_now b) vm (bl_pools b !! bv_PoolPath vm) pos = (pos', p', cs) →
      balloon_step cfg root b
        (mkBalloons (bl_now b) (set_pool (bv_PoolPath vm) p' (bl_pools b)) (Some (<[i := (vm, pos')]> ws))
           (bl_commands b ++ cs) (bl_past b))
  | bs_report b h ws : bl_workers b = Some ws → forallb (λ w : balloonVM * position, is_done w.2) ws = true →
      balloon_step cfg root b
        (mkBalloons (bl_now b) (reportBalloonPools h (bl_now b) (bl_pools b)).1 None (bl_commands b) (bl_past b)).

Definition no_balloons (now : time) : Balloons := mkBalloons now ∅ None [] [].
Definition balloons_reachable (cfg : ServerConfig) (root : string) (b : Balloons) : Prop :=
  ∃ now, rtc (balloon_step cfg root) (no_balloons now) b.
