(* ===== verification/BalloonsSpec.v ===== *)
(** * What the balloons promise

    Over every interleaving of the workers of any number of sweeps: what a pool takes and
    gives back in a sweep is within its budget, every command is called for by what was
    measured, and a machine is left in peace for a while after each. *)
From stdpp Require Import relations.
From S2P Require Import Prelude GoStrings Paths Timestamps RunnerState Balloons.

#[local] Open Scope Z_scope.

(** ** The guest's side *)

(** In MiB: its memory, what it keeps free, and the largest balloon it can bear. *)
Definition guest_total (st : firecrackerBalloonStats) : Z := (TotalMemory st + miBBytes - 1) / miBBytes.
Definition guest_headroom (st : firecrackerBalloonStats) : Z := Z.max 256 (guest_total st / 8).
Definition reported (v : option Z) : Z := match v with Some z => z | None => 0 end.
Definition guest_bound (st : firecrackerBalloonStats) : Z :=
  Z.min (Z.max 0 (reported (ActualMiB st) + reported (AvailableMemory st) / miBBytes - guest_headroom st))
        (Z.max (guest_total st / 2) 1).

Lemma floor_mib b : 0 <= b → bytesToMiBFloor b = b / miBBytes.
Proof. unfold bytesToMiBFloor, miBBytes. case_match; dlia. Qed.
Lemma floor_range b : fits b → 0 <= bytesToMiBFloor b < 2 ^ 43.
Proof. unfold bytesToMiBFloor, miBBytes, fits. case_match; dlia. Qed.
(** Just past the end, a number wraps around to a negative one. *)
Lemma int64_past z : 2 ^ 63 <= z < 2 ^ 64 → int64 z = z - 2 ^ 64.
Proof. unfold int64. intros H. replace (z + 2 ^ 63) with (z - 2 ^ 63 + 1 * 2 ^ 64) by lia. rewrite Z.mod_add, Z.mod_small; lia. Qed.
Lemma int64_near z : - 2 ^ 63 <= z < 2 ^ 64 → 0 < int64 z → int64 z = z.
Proof.
  intros H H0. destruct (Z_lt_ge_dec z (2 ^ 63)); [apply int64_id; unfold fits; lia|]. rewrite int64_past in H0; lia.
Qed.
Lemma ceil_mib b : 1 <= b → fits b → bytesToMiBCeil b < 0 ∨ bytesToMiBCeil b = (b + miBBytes - 1) / miBBytes.
Proof.
  unfold bytesToMiBCeil, fits, miBBytes. intros Hb Hf. rewrite (proj2 (Z.leb_gt _ _)) by lia. cbv zeta.
  change (int64 (b + 1024 * 1024) - 1) with (int64 (b + 1024 * 1024) + -1). rewrite int64_add_l.
  destruct (Z_lt_ge_dec (b + 1024 * 1024 - 1) (2 ^ 63)).
  - right. rewrite int64_id by (unfold fits; lia). dlia.
  - left. rewrite int64_past by lia. dlia.
Qed.

(** The statistics that are used: the bound of the guest, but nothing on top of what is
    under way. *)
Lemma desired_ok st safe step : typed_stats st → desiredBalloonTargetMiB st = (safe, step, true) →
  ∃ target actual, TargetMiB st = Some target ∧ ActualMiB st = Some actual ∧ 0 <= target ∧ 0 <= actual ∧
    0 <= safe < 2 ^ 62 ∧ 1 <= step <= 64 ∧
    safe = if actual =? target then guest_bound st else Z.min (guest_bound st) target.
Proof.
  intros (Ha & Hv & Ht & Hm). unfold desiredBalloonTargetMiB, guest_bound, guest_headroom, guest_total, reported.
  destruct (TargetMiB st) as [target|]; [|done]. destruct (ActualMiB st) as [actual|]; [|done].
  destruct (AvailableMemory st) as [available|]; [|done].
  specialize (Ha _ eq_refl). specialize (Hv _ eq_refl). specialize (Ht _ eq_refl).
  destruct (TotalMemory st <? 1) eqn:E1; [done|]. destruct (_ || _) eqn:E2; [done|]. cbv zeta.
  destruct (_ || (_ <? target)) eqn:E3; [done|].
  apply Z.ltb_ge in E1. rewrite !orb_false_iff, !Z.ltb_ge in E2. rewrite !orb_false_iff, !Z.ltb_ge in E3.
  destruct E2 as [[[Ht0 Ha0] Hv0] Hvm], E3 as [E3 E4]. pose proof (ceil_mib _ E1 Hm) as [Hc|Hc]; [lia|].
  rewrite Hc in *. rewrite floor_mib by done. pose proof Hv as Hv'. unfold fits in Hv, Hm.
  assert (Hat : 0 <= available / miBBytes < 2 ^ 43) by (unfold miBBytes; dlia).
  assert (Htot : 0 <= (TotalMemory st + miBBytes - 1) / miBBytes < 2 ^ 44) by (unfold miBBytes; dlia).
  set (tot := (TotalMemory st + miBBytes - 1) / miBBytes) in *. set (av := available / miBBytes) in *.
  clearbody tot av. unfold balloonGuestHeadroomFloorMiB, balloonGuestHeadroomDivisor, balloonMaxTargetDivisor,
    balloonAdjustmentStepMiB, balloonTargetStepMiB.
  rewrite (int64_id (actual + av)) by (unfold fits; lia).
  assert (H8 : tot `quot` 8 = tot / 8) by dlia. assert (H2 : tot `quot` 2 = tot / 2) by dlia. rewrite H8, H2.
  assert (0 <= tot / 8 < 2 ^ 44) by dlia. assert (0 <= tot / 2 < 2 ^ 44) by dlia.
  rewrite (int64_id (actual + av - _)) by (unfold fits; lia).
  intros [= <- <-]. exists target, actual. split; [done|]. split; [done|].
  destruct (actual =? target); cbn [negb]; split_and!; lia.
Qed.

(** ** The pool's side *)

(** In MiB: what is free below 90% of the limit, what is used above 75% of it. *)
Definition free_space (limit used : Z) : Z := Z.max 0 ((limit - limit / 10 - used) / miBBytes).
Definition excess (limit used : Z) : Z := Z.max 0 ((used - (limit - limit / 4)) / miBBytes).
(** 512 MiB or 5% of the limit. *)
Definition budget (limit : Z) : Z := Z.min 512 (limit / miBBytes / 20).

Definition observation_ok (now : time) (o : balloonObservation) : Prop :=
  0 <= bo_target o < 2 ^ 63 ∧ 0 <= bo_actual o < 2 ^ 63 ∧ bo_changed o <= now.
Record pool_ok (now : time) (p : balloonPool) : Prop := {
  po_limit : 0 < bp_limit p < 2 ^ 63;
  po_inflated : 0 <= bp_inflated p <= budget (bp_limit p);
  po_returned : 0 <= bp_returned p <= budget (bp_limit p);
  po_members n o : bp_members p !! n = Some (Some o) → observation_ok now o;
}.

Lemma budget_range limit : 0 < limit < 2 ^ 63 → roundBudget limit = budget limit ∧ 0 <= budget limit <= 512.
Proof.
  unfold roundBudget, budget, balloonMaxTargetChangeMiB. intros H. rewrite floor_mib by lia. unfold miBBytes. dlia.
Qed.
Lemma floor_spread z : z < 2 ^ 63 →
  bytesToMiBFloor z = Z.max 0 (z / miBBytes) ∧ Z.max 0 (z / miBBytes) < 2 ^ 43.
Proof. unfold bytesToMiBFloor, miBBytes. intros. case_match; dlia. Qed.
Lemma free_floor limit used : 0 < limit < 2 ^ 63 → 0 <= used < 2 ^ 63 →
  bytesToMiBFloor (int64 (int64 (limit - limit `quot` 10) - used)) = free_space limit used ∧ free_space limit used < 2 ^ 43.
Proof.
  intros Hl Hu. assert (limit `quot` 10 = limit / 10) as -> by dlia. assert (0 <= limit / 10 <= limit) by dlia.
  rewrite (int64_id (limit - _)) by (unfold fits; lia). rewrite int64_id by (unfold fits; lia).
  apply (floor_spread (limit - limit / 10 - used)). lia.
Qed.
Lemma excess_floor limit used : 0 < limit < 2 ^ 63 → 0 <= used < 2 ^ 63 →
  bytesToMiBFloor (int64 (used - int64 (limit - limit `quot` 4))) = excess limit used ∧ excess limit used < 2 ^ 43.
Proof.
  intros Hl Hu. assert (limit `quot` 4 = limit / 4) as -> by dlia. assert (0 <= limit / 4 <= limit) by dlia.
  rewrite (int64_id (limit - _)) by (unfold fits; lia). rewrite int64_id by (unfold fits; lia).
  apply (floor_spread (used - (limit - limit / 4))). lia.
Qed.

(** Rounding down: by whole steps, and not to nothing. *)
Lemma round_down v step : 0 <= v → 1 <= step →
  0 <= roundDownToMultiple v step <= v ∧ (step <= v → 0 < roundDownToMultiple v step).
Proof.
  unfold roundDownToMultiple. intros Hv Hs. destruct (_ || _) eqn:E.
  - rewrite orb_true_iff, !Z.leb_le in E. lia.
  - rewrite orb_false_iff, !Z.leb_gt in E.
    assert (0 <= v `rem` step < step) by (apply Z.rem_bound_pos; lia).
    assert (v `rem` step <= v) by (apply Z.rem_le; lia). lia.
Qed.

(** What [decide_target] can come to. *)
Inductive decided (p : balloonPool) (o : balloonObservation) (limit used safe : Z) (now : time) : Z → Z → Z → Prop :=
  | d_hold : decided p o limit used safe now (bo_target o) (bp_inflated p) (bp_returned p)
  | d_cancel : bo_actual o < bo_target o → decided p o limit used safe now (bo_actual o) (bp_inflated p) (bp_returned p)
  | d_return g : bo_actual o = bo_target o → 0 < g → g <= bo_actual o - safe → allObserved (bp_members p) = true →
      balloonSettleTime <= now - bo_changed o → pendingReturn (bp_members p) + g <= free_space limit used →
      bp_returned p + g <= budget limit →
      decided p o limit used safe now (bo_target o - g) (bp_inflated p) (bp_returned p + g)
  | d_take d : bo_actual o = bo_target o → 0 < d → d <= safe - bo_target o → allObserved (bp_members p) = true →
      balloonSettleTime <= now - bo_changed o → limit - limit / 5 < used →
      pendingInflate (bp_members p) + d <= excess limit used → bp_inflated p + d <= budget limit →
      decided p o limit used safe now (bo_target o + d) (bp_inflated p + d) (bp_returned p).

Lemma int64_sum_fits {A} (f : A → Z) l : fits (sum_int64 f l).
Proof. rewrite sum_int64_total. apply int64_fits. Qed.

Lemma pending_room free p b r :
  0 <= free < 2 ^ 43 → fits p → 0 <= r <= b → b <= 512 →
  let g := Z.min (Z.max 0 (int64 (free - p))) (Z.max 0 (int64 (b - r))) in
  0 <= g <= 512 ∧ (0 < g → p + g <= free ∧ r + g <= b).
Proof.
  intros Hf Hp Hr Hb g. unfold fits in Hp. assert (int64 (b - r) = b - r) as Hbr by (apply int64_id; unfold fits; lia).
  unfold g. rewrite Hbr. split; [lia|]. intros Hg. pose proof (int64_near (free - p)). lia.
Qed.

Lemma decide_target_spec p o cancel limit used safe step now :
  pool_ok now p → limit = bp_limit p → 0 <= used < 2 ^ 63 → observation_ok now o → 0 <= safe < 2 ^ 62 →
  (cancel = true → bo_actual o < bo_target o) →
  (cancel = false → 1 <= step ∧ (bo_actual o ≠ bo_target o → safe <= bo_target o)) →
  ∃ desired i r, decide_target p o cancel limit used safe step now = (desired, set_commanded i r p) ∧
    decided p o limit used safe now desired i r.
Proof.
  intros Hp -> Hu (Ht & Ha & _) Hsafe Hcancel Hok. pose proof (po_limit _ _ Hp) as Hl.
  destruct (budget_range _ Hl) as [HB HB'], (free_floor _ _ Hl Hu) as [Hf Hf'], (excess_floor _ _ Hl Hu) as [He He'].
  unfold decide_target. destruct cancel.
  { exists (bo_actual o), (bp_inflated p), (bp_returned p). split; [by destruct p|]. apply d_cancel. by apply Hcancel. }
  destruct (Hok eq_refl) as [Hstep Hsafe']. rewrite HB. set (st := Z.min step _).
  assert (Hst : 1 <= st) by (unfold st; lia). clearbody st.
  destruct (Z.ltb_spec safe (bo_target o)) as [Hlt|Hlt].
  - unfold return_grant. rewrite HB, Hf.
    pose proof (pending_room (free_space (bp_limit p) used) (pendingReturn (bp_members p)) _ _
      ltac:(unfold free_space in *; lia) (int64_sum_fits _ _) (po_returned _ _ Hp) ltac:(lia)) as [Hg Hroom].
    set (g0 := Z.min (Z.max 0 _) (Z.max 0 _)) in *. clearbody g0.
    assert (Hd : int64 (bo_actual o - safe) = bo_actual o - safe) by (apply int64_id; unfold fits; lia). rewrite Hd.
    set (cond := _ || _ || _). set (g1 := Z.min (if cond then 0 else g0) _).
    assert (Hg1 : 0 <= g1 ∧ g1 <= g0 ∧ g1 <= Z.max (bo_actual o - safe) 0 ∧ (0 < g1 → cond = false))
      by (unfold g1; destruct cond; split_and!; try done; lia).
    clearbody g1. set (g := if negb (g1 =? _) then _ else g1).
    assert (Hg' : 0 <= g <= g1) by (unfold g; case_match; [by apply round_down; lia|lia]). clearbody g.
    pose proof (po_returned _ _ Hp) as Hr. rewrite (int64_id (bp_returned p + g)) by (unfold fits; lia).
    rewrite (int64_id (bo_actual o - g)) by (unfold fits; lia).
    eexists _, _, _. split; [done|]. destruct (Z.eq_dec g 0) as [->|Hne].
    + rewrite Z.add_0_r, Z.sub_0_r. destruct (Z_lt_ge_dec (bo_actual o) (bo_target o)).
      * rewrite Z.min_r by lia. by apply d_cancel.
      * rewrite Z.min_l by lia. apply d_hold.
    + destruct Hg1 as (_ & H1 & H2 & H3). specialize (H3 ltac:(lia)). unfold cond in H3.
      rewrite !orb_false_iff, !negb_false_iff, Z.ltb_ge, Z.eqb_eq in H3. destruct H3 as [[Hall Hsettle] Heq].
      rewrite Z.min_r, Heq by lia. apply d_return; try done; lia.
  - destruct (_ && _ && _) eqn:E.
    2:{ exists (bo_target o), (bp_inflated p), (bp_returned p). split; [by destruct p|]. apply d_hold. }
    rewrite !andb_true_iff, Z.eqb_eq, Z.leb_le, !Z.ltb_lt in E. destruct E as [[[Hall [Heq Hsettle]] Hover] Hlt'].
    assert (bp_limit p `quot` 5 = bp_limit p / 5) as H5 by dlia. rewrite H5 in Hover.
    unfold reclaim_delta. rewrite HB, He.
    pose proof (pending_room (excess (bp_limit p) used) (pendingInflate (bp_members p)) _ _
      ltac:(unfold excess in *; lia) (int64_sum_fits _ _) (po_inflated _ _ Hp) ltac:(lia)) as [Hg Hroom].
    set (g0 := Z.min (Z.max 0 _) (Z.max 0 _)) in *. clearbody g0.
    rewrite (int64_id (safe - bo_target o)) by (unfold fits; lia). set (g := roundDownToMultiple _ _).
    assert (Hg' : 0 <= g <= Z.min g0 (safe - bo_target o)) by (apply round_down; lia). clearbody g.
    pose proof (po_inflated _ _ Hp) as Hr. rewrite (int64_id (bp_inflated p + g)) by (unfold fits; lia).
    rewrite (int64_id (bo_target o + g)) by (unfold fits; lia).
    eexists _, _, _. split; [done|]. destruct (Z.eq_dec g 0) as [->|Hne].
    + rewrite !Z.add_0_r. apply d_hold.
    + apply d_take; try done; lia.
Qed.

(** ** The account of a command *)

Definition target_of (c : command) : Z := reported (TargetMiB (co_stats c)).
Definition actual_of (c : command) : Z := reported (ActualMiB (co_stats c)).
(** What it takes from the guest, and what it gives back of what the balloon held. *)
Definition raised (c : command) : Z := Z.max 0 (co_desired c - target_of c).
Definition lowered (c : command) : Z := Z.max 0 (actual_of c - co_desired c).
(** It is more than the end of an inflation. *)
Definition resizes (c : command) : Prop := co_desired c ≠ actual_of c.

(** The reasons for a command: an inflation is called off where it stands; a guest short of
    headroom gets back no more than it lacks, of what the pool has free; a pool under
    pressure takes what the guest can spare.  The sums are those with the command. *)
Definition called_off (c : command) : Prop := co_desired c = actual_of c ∧ actual_of c < target_of c.
Definition given_back (c : command) : Prop :=
  actual_of c = target_of c ∧ guest_bound (co_stats c) <= co_desired c < target_of c ∧
  allObserved (co_members c) = true ∧
  (fits (total returning (observed (co_members c))) →
   total returning (observed (co_members c)) <= free_space (co_limit c) (co_used c)).
Definition taken (c : command) : Prop :=
  actual_of c = target_of c ∧ target_of c < co_desired c <= guest_bound (co_stats c) ∧
  co_limit c - co_limit c / 5 < co_used c ∧ allObserved (co_members c) = true ∧
  (fits (total inflating (observed (co_members c))) →
   total inflating (observed (co_members c)) <= excess (co_limit c) (co_used c)).
Definition justified (c : command) : Prop := called_off c ∨ given_back c ∨ taken c.

Lemma allObserved_spec ms : allObserved ms = true ↔ ∀ n, ms !! n ≠ Some None.
Proof.
  unfold allObserved. rewrite forallb_forall. split.
  - intros H n Hn. specialize (H (n, None)). rewrite <- list_elem_of_In, elem_of_map_to_list in H. by specialize (H Hn).
  - intros H [n m] Hm. rewrite <- list_elem_of_In, elem_of_map_to_list in Hm. cbn. destruct m; [done|]. by specialize (H n).
Qed.
Lemma allObserved_insert ms n o o' : allObserved (<[n := Some o]> ms) = allObserved (<[n := Some o']> ms).
Proof.
  apply eq_true_iff_eq. rewrite !allObserved_spec. split; intros H k; specialize (H k); destruct (decide (k = n)) as [->|].
  all: rewrite ?lookup_insert_eq, ?lookup_insert_ne in * by done; done.
Qed.
Lemma total_observed f ms n o :
  total f (observed (<[n := Some o]> ms)) = f o + total f (observed (delete n ms)).
Proof.
  rewrite <- insert_delete_eq. unfold observed.
  rewrite (total_perm f _ (omap snd ((n, Some o) :: map_to_list (delete n ms)))); [done|].
  apply omap_Permutation, map_to_list_insert, lookup_delete_eq.
Qed.
Lemma inflating_nonneg o : 0 <= inflating o.
Proof. unfold inflating. lia. Qed.
Lemma returning_nonneg o : 0 <= returning o.
Proof. unfold returning. lia. Qed.

(** The pending sum grows by the command. *)
Lemma pending_after f ms n o o' g room :
  (∀ x, 0 <= f x) → f o = 0 → f o' = g → 0 <= g →
  sum_int64 f (observed (<[n := Some o]> ms)) + g <= room →
  fits (total f (observed (<[n := Some o']> ms))) → total f (observed (<[n := Some o']> ms)) <= room.
Proof.
  intros Hf Ho Ho' Hg. rewrite sum_int64_total, !total_observed, Ho, Ho', Z.add_0_l. intros Hroom Hfit.
  pose proof (total_nonneg f (observed (delete n ms)) (λ x _, Hf x)). rewrite int64_id in Hroom; [lia|]. unfold fits in *. lia.
Qed.

Definition earlier (name : string) (p : balloonPool) (o' : balloonObservation) : Prop :=
  ∃ o, bp_members p !! name = Some (Some o) ∧ bo_changed o <= bo_changed o'.
Record planned (name : string) (now : time) (p p' : balloonPool) : Prop := {
  pl_ok : pool_ok now p';
  pl_limit : bp_limit p' = bp_limit p;
  pl_identity : bp_identity p' = bp_identity p;
  pl_others n : n ≠ name → bp_members p' !! n = bp_members p !! n;
  pl_changed o' : bp_members p' !! name = Some (Some o') → bo_changed o' = now ∨ earlier name p o';
}.
Record commanded (c : command) (name : string) (now : time) (p p' : balloonPool) : Prop := {
  cm_inflated : bp_inflated p' = bp_inflated p + raised c;
  cm_returned : bp_returned p' = bp_returned p + lowered c;
  cm_justified : justified c;
  cm_changed : ∃ o, bp_members p' !! name = Some (Some o) ∧ bo_changed o = now;
  cm_settled : resizes c → ∃ o, bp_members p !! name = Some (Some o) ∧ bo_changed o + balloonSettleTime <= now;
}.

Lemma observe_spec prev socket cgroup target actual now o fallen :
  observe prev socket cgroup target actual now = (o, fallen) → (∀ q, prev = Some q → bo_changed q <= now) →
  bo_target o = target ∧ bo_actual o = actual ∧ bo_changed o <= now ∧
  (∀ q, prev = Some q → bo_changed q <= bo_changed o) ∧ (prev = None → bo_changed o = now).
Proof.
  unfold observe. destruct prev as [q|].
  - intros [= <- _] Hq. specialize (Hq _ eq_refl). cbn. split_and!; try done; [by case_match|].
    intros ? [= <-]. by case_match.
  - intros [= <- _] _. cbn. by split_and!.
Qed.

Lemma desired_not_ok st safe step : desiredBalloonTargetMiB st = (safe, step, false) → safe = 0.
Proof. unfold desiredBalloonTargetMiB. repeat case_match; congruence. Qed.

Lemma planned_refl name now p : pool_ok now p → planned name now p p.
Proof. intros Hp. constructor; try done. intros o Ho. right. by exists o. Qed.

Lemma planned_observed name now p o i r :
  pool_ok now p → observation_ok now o → 0 <= i <= budget (bp_limit p) → 0 <= r <= budget (bp_limit p) →
  bo_changed o = now ∨ earlier name p o →
  planned name now p (set_members (<[name := Some o]> (bp_members p)) (set_commanded i r p)).
Proof.
  intros [Hl Hi Hr Hm] Ho Hi' Hr' Hq. constructor; cbn; try done.
  - constructor; cbn; try done. intros n q. destruct (decide (n = name)) as [->|Hne].
    + rewrite lookup_insert_eq. by intros [= <-].
    + rewrite lookup_insert_ne by done. apply Hm.
  - intros n Hne. by rewrite lookup_insert_ne.
  - intros q. rewrite lookup_insert_eq. by intros [= <-].
Qed.

Section plan.
Context (name : string) (socket cgroup : FileInfo) (st : firecrackerBalloonStats) (now : time).

(** The decision on the observation [o] becomes a command. *)
Lemma decided_command p o path target actual safe used desired i r :
  pool_ok now p → bo_target o = target → bo_actual o = actual → TargetMiB st = Some target → ActualMiB st = Some actual →
  (actual = target → safe = guest_bound st) →
  decided (set_members (<[name := Some o]> (bp_members p)) p) o (bp_limit p) used safe now desired i r →
  desired ≠ target →
  let o' := mkObservation (bo_socket o) (bo_cgroup o) desired actual now now in
  let c := mkCommand now (Some path) name st (bp_limit p) used (<[name := Some o']> (bp_members p)) desired in
  i = bp_inflated p + raised c ∧ r = bp_returned p + lowered c ∧ justified c ∧
  (resizes c → balloonSettleTime <= now - bo_changed o) ∧ i <= budget (bp_limit p) ∧ r <= budget (bp_limit p) ∧
  0 <= i ∧ 0 <= r.
Proof.
  intros Hp Ht Ha HT HA Hsafe Hd Hne o' c. pose proof (po_inflated _ _ Hp). pose proof (po_returned _ _ Hp).
  assert (HTc : target_of c = target) by (unfold target_of; cbn; by rewrite HT).
  assert (HAc : actual_of c = actual) by (unfold actual_of; cbn; by rewrite HA).
  unfold resizes, justified, called_off, given_back, taken, raised, lowered. rewrite HTc, HAc.
  change (co_desired c) with desired. change (co_stats c) with st. change (co_used c) with used.
  change (co_limit c) with (bp_limit p). change (co_members c) with (<[name := Some o']> (bp_members p)).
  destruct Hd as [|Hlt|g Heq Hg Hgle Hall Hset Hpend Hbud|g Heq Hg Hgle Hall Hset Hover Hpend Hbud]; cbn in *; subst target actual.
  - done.
  - rewrite !Z.max_l by lia. split_and!; lia.
  - specialize (Hsafe Heq). split_and!; try lia. right. left. split_and!; try lia.
    + by rewrite (allObserved_insert _ _ _ o).
    + apply (pending_after _ _ _ o _ g); try done; [apply returning_nonneg|unfold returning..|lia].
      * rewrite Heq, Z.sub_diag. done.
      * cbn. rewrite int64_id; [lia|]. pose proof (po_limit _ _ Hp).
        destruct (budget_range _ (po_limit _ _ Hp)). unfold fits. lia.
  - specialize (Hsafe Heq). split_and!; try lia. right. right. split_and!; try lia.
    + by rewrite (allObserved_insert _ _ _ o).
    + apply (pending_after _ _ _ o _ g); try done; [apply inflating_nonneg|unfold inflating..|lia].
      * rewrite Heq, Z.sub_diag. done.
      * cbn. rewrite int64_id; [lia|].
        destruct (budget_range _ (po_limit _ _ Hp)). unfold fits. lia.
Qed.

Lemma plan_spec path limit used p r p' :
  pool_ok now p → typed_stats st → (∀ v, limit = inl v → fits v) → (∀ v, used = inl v → fits v) →
  plan name socket cgroup st limit used now p = (r, p') →
  planned name now p p' ∧
  match r with
  | inl (Some desired) =>
      commanded (mkCommand now (Some path) name st (value_of limit) (value_of used) (bp_members p') desired) name now p p'
  | _ => bp_inflated p' = bp_inflated p ∧ bp_returned p' = bp_returned p
  end.
Proof.
  intros Hp Hst Hlimit Hused. unfold plan. destruct (desiredBalloonTargetMiB st) as [[safe step] ok] eqn:Hd.
  pose proof (planned_refl name now p Hp) as Hrefl.
  destruct (TargetMiB st) as [target|] eqn:HT; [|by intros [= <- <-]].
  destruct (ActualMiB st) as [actual|] eqn:HA; [|by intros [= <- <-]].
  destruct (_ || _) eqn:E0; [by intros [= <- <-]|].
  destruct limit as [limit|e]; [|by intros [= <- <-]].
  destruct (negb (limit =? bp_limit p)) eqn:E1; [by intros [= <- <-]|].
  destruct used as [used|e]; [|by intros [= <- <-]].
  destruct (used <? 0) eqn:E2; [by intros [= <- <-]|].
  rewrite orb_false_iff, !Z.ltb_ge in E0. rewrite negb_false_iff, Z.eqb_eq in E1. rewrite Z.ltb_ge in E2. subst limit.
  specialize (Hused _ eq_refl). clear Hlimit. destruct Hst as (HfA & HfV & HfT & HfM).
  assert (HfT' := HfT _ HT). assert (HfA' := HfA _ HA). unfold fits in HfT', HfA', Hused.
  destruct (observe _ _ _ _ _ _) as [o fallen] eqn:Hobs.
  apply observe_spec in Hobs as (Hot & Hoa & Hon & Hoq & Hofresh).
  2:{ intros q Hq. destruct (bp_members p !! name) as [[q'|]|] eqn:Hm; simplify_eq/=. by destruct (po_members _ _ Hp _ _ Hm) as (_ & _ & ?). }
  assert (Ho : observation_ok now o) by (split_and!; lia).
  assert (Hq : bo_changed o = now ∨ earlier name p o).
  { destruct (bp_members p !! name) as [[q|]|] eqn:Hm; [right; exists q; split; [done|by apply Hoq]|left; by apply Hofresh..]. }
  set (cancel := (actual <? target) && _).
  assert (Hsame : planned name now p (set_members (<[name := Some o]> (bp_members p)) p)).
  { pose proof (planned_observed name now p o _ _ Hp Ho (po_inflated _ _ Hp) (po_returned _ _ Hp) Hq) as H. by destruct p. }
  destruct (negb ok && negb cancel) eqn:Hgo; [by intros [= <- <-]|].
  assert (Hsafe : 0 <= safe < 2 ^ 62 ∧ (cancel = false → 1 <= step ∧ (actual ≠ target → safe <= target)) ∧
                  (actual = target → safe = guest_bound st)).
  { destruct ok.
    - destruct (desired_ok st safe step) as (t' & a' & HT' & HA' & _ & _ & Hs & Hst' & Heq); [done..|].
      assert (t' = target) as -> by congruence. assert (a' = actual) as -> by congruence.
      split; [done|]. split; [intros _; split; [lia|]|]; destruct (Z.eqb_spec actual target); lia.
    - rewrite (desired_not_ok _ _ _ Hd). split; [lia|]. destruct cancel eqn:Hc; [|done].
      unfold cancel in Hc. rewrite andb_true_iff, Z.ltb_lt in Hc. split; [done|lia]. }
  destruct Hsafe as (Hs0 & Hs1 & Hs2).
  destruct (decide_target_spec (set_members (<[name := Some o]> (bp_members p)) p) o cancel (bp_limit p) used safe step now)
    as (desired & i & rr & -> & Hdec); try done; [apply Hsame|lia| |by rewrite Hot, Hoa|].
  { unfold cancel. rewrite andb_true_iff, Z.ltb_lt. lia. }
  destruct (Z.eqb_spec desired target) as [->|Hne].
  { intros [= <- <-]. inversion Hdec; subst; cbn in *; try lia.
    pose proof (planned_observed name now p o _ _ Hp Ho (po_inflated _ _ Hp) (po_returned _ _ Hp) Hq) as Hpl. by destruct p. }
  intros [= <- <-]. cbn [bp_members set_members set_commanded]. rewrite insert_insert_eq.
  destruct (decided_command p o path target actual safe used desired i rr) as (Hi & Hr & Hj & Hset & Hib & Hrb & Hi0 & Hr0); try done.
  set (o' := mkObservation _ _ _ _ _ _) in *.
  assert (Ho' : observation_ok now o').
  { inversion Hdec; subst; unfold o'; split_and!; cbn in *; lia. }
  split.
  - pose proof (planned_observed name now p o' i rr Hp Ho' ltac:(lia) ltac:(lia)) as H. destruct p. apply H. by left.
  - constructor; try done.
    + exists o'. cbn. by rewrite lookup_insert_eq.
    + intros Hre. specialize (Hset Hre). destruct (bp_members p !! name) as [[q|]|] eqn:Hm.
      * exists q. split; [done|]. specialize (Hoq _ eq_refl). lia.
      * unfold balloonSettleTime, ns_per_sec in Hset. rewrite (Hofresh eq_refl) in Hset. lia.
      * unfold balloonSettleTime, ns_per_sec in Hset. rewrite (Hofresh eq_refl) in Hset. lia.
Qed.
End plan.

(** ** Sweeps *)

(** The commands to the machines of a pool. *)
Definition of_pool (path : string) (l : list command) : list command := filter (λ c, co_pool c = Some path) l.
#[local] Arguments of_pool : simpl never.
#[local] Arguments total : simpl never.
Definition history (b : Balloons) : list command := (bl_past b ++ bl_commands b)%list.

(** After any command to a machine it is left alone for ten seconds, but for the end of an
    inflation. *)
Definition spaced (l : list command) : Prop :=
  ∀ i j c1 c2, (i < j)%nat → l !! i = Some c1 → l !! j = Some c2 →
    is_Some (co_pool c1) → co_pool c2 = co_pool c1 → co_name c2 = co_name c1 → resizes c2 →
    co_time c1 + balloonSettleTime <= co_time c2.

Definition typed_position (pos : position) : Prop := match pos with Planning _ _ st => typed_stats st | _ => True end.

Record balloons_ok (b : Balloons) : Prop := {
  bk_pools path p : bl_pools b !! path = Some p → pool_ok (bl_now b) p;
  bk_account path p : bl_pools b !! path = Some p →
    bp_inflated p = total raised (of_pool path (bl_commands b)) ∧ bp_returned p = total lowered (of_pool path (bl_commands b));
  bk_times c : c ∈ history b → co_time c <= bl_now b;
  bk_justified c : c ∈ history b → if co_pool c is Some _ then justified c else co_desired c = 0;
  bk_changed path p n o c : bl_pools b !! path = Some p → bp_members p !! n = Some (Some o) → c ∈ history b →
    co_pool c = Some path → co_name c = n → co_time c <= bo_changed o;
  bk_spaced : spaced (history b);
  bk_workers ws i vm pos : bl_workers b = Some ws → ws !! i = Some (vm, pos) → typed_position pos;
}.

Lemma prepare_pools_spec old vms path p : Forall typed vms.*2 → prepare_pools old vms !! path = Some p →
  ∃ h, typed h ∧ prepare_pool h old path = Some p.
Proof.
  unfold prepare_pools. intros Hvms.
  assert (H : ∀ (acc : gmap string balloonPool), (∀ p, acc !! path = Some p → ∃ h, typed h ∧ prepare_pool h old path = Some p) →
    ∀ p, fold_left (λ pools '(vm, h), if negb (bv_UseTarget vm) then pools else
        match pools !! bv_PoolPath vm with
        | Some _ => pools
        | None => match prepare_pool h old (bv_PoolPath vm) with Some p => <[bv_PoolPath vm := p]> pools | None => pools end
        end) vms acc !! path = Some p → ∃ h, typed h ∧ prepare_pool h old path = Some p).
  { induction vms as [|[vm h] vms IH]; intros acc Hacc; cbn; [done|].
    apply Forall_cons in Hvms as [Hh Hvms]. apply (IH Hvms). intros q.
    destruct (negb _); [apply Hacc|]. destruct (acc !! bv_PoolPath vm) eqn:Ha; [apply Hacc|].
    destruct (prepare_pool h old (bv_PoolPath vm)) as [q'|] eqn:Hq; [|apply Hacc].
    destruct (decide (bv_PoolPath vm = path)) as [<-|Hne]; [|rewrite lookup_insert_ne by done; apply Hacc].
    rewrite lookup_insert_eq. intros [= <-]. by exists h. }
  apply H. by intros ? ?%lookup_empty_Some.
Qed.

Lemma current_members_spec path vms members n o :
  current_members path vms members !! n = Some (Some o) → members !! n = Some (Some o).
Proof.
  unfold current_members.
  assert (H : ∀ (acc : gmap string (option balloonObservation)),
    (∀ n o, acc !! n = Some (Some o) → members !! n = Some (Some o)) → ∀ n o,
    fold_left (λ ms vm, if String.eqb (bv_PoolPath vm) path
      then <[bv_Name vm := default None (members !! bv_Name vm)]> ms else ms) vms acc !! n = Some (Some o) →
    members !! n = Some (Some o)).
  { induction vms as [|vm vms IH]; intros acc Hacc; cbn; [done|]. apply IH. intros k q.
    case_match; [|apply Hacc]. destruct (decide (bv_Name vm = k)) as [<-|Hne]; [|rewrite lookup_insert_ne by done; apply Hacc].
    rewrite lookup_insert_eq. destruct (members !! bv_Name vm) as [[]|]; cbn; congruence. }
  apply H. by intros ? ? ?%lookup_empty_Some.
Qed.

(** The pools a sweep begins with. *)
Lemma prepare_spec old vms path p now now' :
  (∀ path p, old !! path = Some p → pool_ok now p) → now <= now' → Forall typed vms.*2 →
  prepareBalloonPools vms old !! path = Some p →
  pool_ok now' p ∧ bp_inflated p = 0 ∧ bp_returned p = 0 ∧
  ∀ n o, bp_members p !! n = Some (Some o) → ∃ p0, old !! path = Some p0 ∧ bp_members p0 !! n = Some (Some o).
Proof.
  intros Hold Hnow Hvms. unfold prepareBalloonPools. rewrite map_lookup_imap.
  destruct (prepare_pools old vms !! path) as [p1|] eqn:Hp1; [|done]. cbn. intros [= <-].
  apply prepare_pools_spec in Hp1 as (h & Hh & Hp1); [|done]. unfold prepare_pool in Hp1.
  destruct (bh_Stat h path) as [info|]; [|done]. destruct (bh_Int64 h _) as [limit|] eqn:Hl; [|done].
  destruct (limit <=? 0) eqn:Hpos; [done|]. apply Z.leb_gt in Hpos. apply Hh in Hl. unfold fits in Hl.
  destruct (budget_range limit ltac:(lia)) as [_ Hbud].
  assert (Hmem : ∀ n o, bp_members p1 !! n = Some (Some o) → ∃ p0, old !! path = Some p0 ∧ bp_members p0 !! n = Some (Some o)).
  { intros n o. destruct (old !! path) as [p0|]; [|by simplify_eq/=; intros ?%lookup_empty_Some].
    destruct (_ && _); simplify_eq/=; [by exists p0|by intros ?%lookup_empty_Some]. }
  assert (Hp1' : bp_limit p1 = limit ∧ bp_inflated p1 = 0 ∧ bp_returned p1 = 0).
  { destruct (old !! path) as [p0|]; [|by simplify_eq/=]. destruct (_ && _) eqn:E; simplify_eq/=; [|done].
    apply andb_true_iff in E as [_ E%Z.eqb_eq]. done. }
  destruct Hp1' as (Hl1 & Hi1 & Hr1). split_and!; try done.
  - constructor; cbn; rewrite ?Hl1, ?Hi1, ?Hr1; try lia. intros n o Ho%current_members_spec.
    destruct (Hmem _ _ Ho) as (p0 & Hp0 & Ho'). destruct (po_members _ _ (Hold _ _ Hp0) _ _ Ho') as (? & ? & ?).
    split_and!; lia.
  - cbn. intros n o Ho%current_members_spec. by apply Hmem.
Qed.

(** One call of a worker: the pool as it may change, and the commands. *)
Inductive worked (now : time) (vm : balloonVM) : option balloonPool → option balloonPool → list command → Prop :=
  | wk_none : worked now vm None None []
  | wk_fixed p c : co_pool c = None → co_desired c = 0 → co_time c = now → worked now vm p p [c]
  | wk_quiet p p' : planned (bv_Name vm) now p p' → bp_inflated p' = bp_inflated p → bp_returned p' = bp_returned p →
      worked now vm (Some p) (Some p') []
  | wk_command p p' c : planned (bv_Name vm) now p p' → commanded c (bv_Name vm) now p p' →
      co_pool c = Some (bv_PoolPath vm) → co_name c = bv_Name vm → co_time c = now → worked now vm (Some p) (Some p') [c].

Lemma identify_planned now name socket cgroup p : pool_ok now p →
  planned name now p (identify name socket cgroup p) ∧
  bp_inflated (identify name socket cgroup p) = bp_inflated p ∧ bp_returned (identify name socket cgroup p) = bp_returned p.
Proof.
  intros Hp. assert (Hnone : planned name now p (set_members (<[name := None]> (bp_members p)) p)).
  { destruct Hp as [Hl Hi Hr Hm]. constructor; cbn; try done.
    - constructor; cbn; try done. intros n o. destruct (decide (n = name)) as [->|Hne]; [by rewrite lookup_insert_eq|].
      rewrite lookup_insert_ne by done. apply Hm.
    - intros n Hne. by rewrite lookup_insert_ne.
    - intros o'. by rewrite lookup_insert_eq. }
  unfold identify. destruct (bp_members p !! name) as [[o|]|]; try by split.
  destruct (_ && _); split; try done. by apply planned_refl.
Qed.

Lemma advance_worked h now vm pool pos pos' pool' cs :
  typed h → typed_position pos → (∀ p, pool = Some p → pool_ok now p) → advance h now vm pool pos = (pos', pool', cs) →
  worked now vm pool pool' cs.
Proof.
  intros Hh Hpos Hp. assert (Hquiet : worked now vm pool pool []).
  { destruct pool as [p|]; [|apply wk_none]. apply wk_quiet; try done. by apply planned_refl, Hp. }
  destruct pos as [| |socket|socket cgroup|socket cgroup|socket cgroup st| |desired|r]; cbn.
  - destruct pool; [|destruct (bv_UseTarget vm)]; by intros [= <- <- <-].
  - by intros [= <- <- <-].
  - by intros [= <- <- <-].
  - destruct pool as [p|]; [|by intros [= <- <- <-]]. intros [= <- <- <-].
    destruct (identify_planned now (bv_Name vm) socket cgroup p (Hp _ eq_refl)) as (H1 & H2 & H3). by apply wk_quiet.
  - by intros [= <- <- <-].
  - destruct pool as [p|]; [|by intros [= <- <- <-]]. destruct (plan _ _ _ _ _ _ _ _) as [r q] eqn:Hplan.
    apply (plan_spec _ _ _ _ _ (bv_PoolPath vm)) in Hplan as [Hpl H]; [|by apply Hp|done|by intros v Hv; eapply (proj1 Hh)..].
    destruct r as [[desired|]|e]; intros [= <- <- <-]; [by apply wk_command|by destruct H; apply wk_quiet..].
  - destruct (bh_Stats h _) as [st|e]; [|by intros [= <- <- <-]].
    unfold fixed_target. destruct (TargetMiB st) as [cur|]; [|by intros [= <- <- <-]].
    destruct (0 =? cur); [by intros [= <- <- <-]|]. intros [= <- <- <-]. by apply wk_fixed.
  - by intros [= <- <- <-].
  - by intros [= <- <- <-].
Qed.

Lemma advance_typed h now vm pool pos pos' pool' cs :
  typed h → advance h now vm pool pos = (pos', pool', cs) → typed_position pos → typed_position pos'.
Proof.
  intros Hh. destruct pos, pool; cbn; unfold after; intros H Hpos; repeat case_match; simplify_eq; cbn; try done; by eapply Hh.
Qed.

Lemma of_pool_app path l1 l2 : of_pool path (l1 ++ l2) = (of_pool path l1 ++ of_pool path l2)%list.
Proof. apply filter_app. Qed.

Lemma of_pool_one path c : co_pool c = Some path → of_pool path [c] = [c].
Proof. intros H. unfold of_pool. by rewrite filter_cons_True, filter_nil. Qed.
Lemma of_pool_other path c : co_pool c ≠ Some path → of_pool path [c] = [].
Proof. intros H. unfold of_pool. by rewrite filter_cons_False, filter_nil. Qed.

Lemma spaced_snoc l c :
  spaced l → (∀ c1, c1 ∈ l → is_Some (co_pool c1) → co_pool c = co_pool c1 → co_name c = co_name c1 → resizes c →
    co_time c1 + balloonSettleTime <= co_time c) → spaced (l ++ [c]).
Proof.
  intros Hl Hc i j c1 c2 Hij H1 H2. apply lookup_app_Some in H2 as [H2|[Hj H2]].
  - apply (Hl i j); [done| |done]. apply lookup_lt_Some in H2. rewrite lookup_app_l in H1 by lia. done.
  - apply list_lookup_singleton_Some in H2 as [Hj' <-]. apply Hc. rewrite lookup_app_l in H1 by lia.
    by eapply list_elem_of_lookup_2.
Qed.

(** No command to a machine is later than the last change of its observation. *)
Lemma changed_kept name now p q path (l : list command) n o c :
  planned name now p q → (∀ c, c ∈ l → co_time c <= now) →
  (∀ n o c, bp_members p !! n = Some (Some o) → c ∈ l → co_pool c = Some path → co_name c = n → co_time c <= bo_changed o) →
  bp_members q !! n = Some (Some o) → c ∈ l → co_pool c = Some path → co_name c = n → co_time c <= bo_changed o.
Proof.
  intros Hpl Ht Hc Hm Hin Hco Hna. destruct (decide (n = name)) as [->|Hne].
  - destruct (pl_changed _ _ _ _ Hpl _ Hm) as [->|(o0 & Ho0 & Hle)]; [by apply Ht|].
    pose proof (Hc _ _ _ Ho0 Hin Hco Hna). lia.
  - rewrite (pl_others _ _ _ _ Hpl _ Hne) in Hm. by apply (Hc n o).
Qed.

Section sweeps.
Context (cfg : ServerConfig) (root : string).

Lemma begin_command_ok b now vms :
  balloons_ok b → bl_workers b = None → bl_now b <= now → Forall typed vms.*2 →
  balloons_ok (mkBalloons now (prepareBalloonPools vms (bl_pools b)) (Some (map (λ vm, (vm, Waiting)) vms.*1)) []
                 (bl_past b ++ bl_commands b)).
Proof.
  intros [Hp Ha Ht Hj Hc Hs Hw] Hnone Hnow Hvms.
  assert (Hprep : ∀ path p, prepareBalloonPools vms (bl_pools b) !! path = Some p → _)
    by (intros path p Hq; exact (prepare_spec _ _ _ _ _ now Hp Hnow Hvms Hq)).
  constructor; cbn; unfold history; cbn; rewrite ?app_nil_r; try done.
  - intros path p Hq. by apply Hprep in Hq as [? _].
  - intros path p Hq. apply Hprep in Hq as (_ & ? & ? & _). done.
  - intros c Hin%Ht. lia.
  - intros path p n o c Hq Hm. apply Hprep in Hq as (_ & _ & _ & Hq). destruct (Hq _ _ Hm) as (p0 & Hp0 & Hm0).
    by apply (Hc path p0).
  - intros ws i vm pos [= <-]. rewrite list_lookup_fmap. destruct (vms.*1 !! i); cbn; [|done]. by intros [= <- <-].
Qed.

Lemma report_ok b h : balloons_ok b →
  balloons_ok (mkBalloons (bl_now b) (reportBalloonPools h (bl_now b) (bl_pools b)).1 None (bl_commands b) (bl_past b)).
Proof.
  intros [Hp Ha Ht Hj Hc Hs Hw].
  assert (Hrep : ∀ path p, (reportBalloonPools h (bl_now b) (bl_pools b)).1 !! path = Some p →
    ∃ p0, bl_pools b !! path = Some p0 ∧ ∃ v, p = set_saturated v p0).
  { intros path p. cbn. rewrite map_lookup_imap. destruct (bl_pools b !! path) as [p0|]; [|done]. cbn. intros [= <-].
    exists p0. split; [done|]. unfold report_pool. repeat case_match; cbn; eauto; exists (bp_saturated p0); by destruct p0. }
  constructor; try done.
  - intros path p Hq. destruct (Hrep _ _ Hq) as (p0 & Hp0 & v & ->). by destruct (Hp _ _ Hp0); constructor.
  - intros path p Hq. destruct (Hrep _ _ Hq) as (p0 & Hp0 & v & ->). by apply (Ha _ _ Hp0).
  - intros path p n o c Hq. destruct (Hrep _ _ Hq) as (p0 & Hp0 & v & ->). by apply (Hc _ _ _ _ _ Hp0).
Qed.

Lemma elem_of_snoc {A} (x c : A) l : x ∈ (l ++ [c])%list ↔ x ∈ l ∨ x = c.
Proof. by rewrite elem_of_app, list_elem_of_singleton. Qed.

Lemma work_ok b h ws i vm pos pos' p' cs :
  balloons_ok b → bl_workers b = Some ws → ws !! i = Some (vm, pos) → typed h →
  advance h (bl_now b) vm (bl_pools b !! bv_PoolPath vm) pos = (pos', p', cs) →
  balloons_ok (mkBalloons (bl_now b) (set_pool (bv_PoolPath vm) p' (bl_pools b)) (Some (<[i := (vm, pos')]> ws))
                 (bl_commands b ++ cs) (bl_past b)).
Proof.
  intros [Hp Ha Ht Hj Hc Hs Hw] Hws Hi Hh Hadv.
  assert (Hworkers : ∀ ws' j vm' q, Some (<[i := (vm, pos')]> ws) = Some ws' → ws' !! j = Some (vm', q) → typed_position q).
  { intros ws' j vm' q [= <-]. pose proof (lookup_lt_Some _ _ _ Hi) as Hlt. destruct (decide (i = j)) as [<-|Hne].
    - rewrite list_lookup_insert_eq by done. intros [= <- <-]. eapply advance_typed; [done..|by eapply Hw].
    - rewrite list_lookup_insert_ne by done. by apply (Hw ws). }
  apply advance_worked in Hadv as Hwk; [|done|by eapply Hw|apply Hp].
  assert (Hpast : ∀ cs, (bl_past b ++ bl_commands b ++ cs = history b ++ cs)%list) by (intros; apply app_assoc).
  set (path := bv_PoolPath vm) in *. remember (bl_pools b !! path) as pool eqn:Hpool.
  destruct Hwk as [|pool c Hco Hd Htm|p q Hpl Hin Hre|p q c Hpl Hcm Hco Hna Htm].
  - rewrite app_nil_r in *. by constructor.
  - assert (set_pool path pool (bl_pools b) = bl_pools b) as ->.
    { unfold set_pool. destruct pool; [|done]. by rewrite insert_id. }
    constructor; cbn; unfold history; cbn; rewrite ?Hpast; try done.
    + intros path' p Hq. rewrite of_pool_app, of_pool_other, app_nil_r by (by rewrite Hco).
      by apply Ha.
    + intros c' [Hin| ->]%elem_of_snoc; [by apply Ht|lia].
    + intros c' [Hin| ->]%elem_of_snoc; [by apply Hj|]. by rewrite Hco.
    + intros path' p n o c' Hq Hm [Hin| ->]%elem_of_snoc; [by apply (Hc path' p)|]. by rewrite Hco.
    + apply spaced_snoc; [done|]. intros c1 _ [? Hc1]. rewrite Hco, Hc1. done.
  - rewrite app_nil_r in *. cbn [set_pool]. constructor; cbn; try done.
    + intros path' p'. destruct (decide (path = path')) as [<-|Hne]; [|rewrite lookup_insert_ne by done; apply Hp].
      rewrite lookup_insert_eq. intros [= <-]. apply Hpl.
    + intros path' p'. destruct (decide (path = path')) as [<-|Hne]; [|rewrite lookup_insert_ne by done; apply Ha].
      rewrite lookup_insert_eq. intros [= <-]. rewrite Hin, Hre. by apply Ha.
    + intros path' p' n o c'. destruct (decide (path = path')) as [<-|Hne]; [|rewrite lookup_insert_ne by done; apply Hc].
      rewrite lookup_insert_eq. intros [= <-] Hm Hcin Hco Hna.
      apply (changed_kept _ _ _ _ path _ _ _ _ Hpl Ht (λ n o c, Hc path p n o c (eq_sym Hpool)) Hm Hcin Hco Hna).
  - cbn [set_pool]. symmetry in Hpool. change (co_pool c = Some path) in Hco. clearbody path. constructor; cbn; unfold history; cbn; rewrite ?Hpast; try done.
    + intros path' p'. destruct (decide (path = path')) as [<-|Hne]; [|rewrite lookup_insert_ne by done; apply Hp].
      rewrite lookup_insert_eq. intros [= <-]. apply Hpl.
    + intros path' p'. rewrite of_pool_app, !total_app. destruct (decide (path = path')) as [<-|Hne].
      * rewrite lookup_insert_eq. intros [= <-]. destruct (Ha _ _ Hpool) as [H1 H2].
        rewrite (cm_inflated _ _ _ _ _ Hcm), (cm_returned _ _ _ _ _ Hcm), H1, H2.
        rewrite of_pool_one, !total_cons by done. change (total _ []) with 0. lia.
      * rewrite lookup_insert_ne by done. intros Hq%Ha.
        rewrite of_pool_other by congruence. change (total _ []) with 0. by rewrite !Z.add_0_r.
    + intros c' [Hin| ->]%elem_of_snoc; [by apply Ht|lia].
    + intros c' [Hin| ->]%elem_of_snoc; [by apply Hj|]. rewrite Hco. apply Hcm.
    + intros path' p' n o c'. destruct (decide (path = path')) as [<-|Hne].
      * rewrite lookup_insert_eq. intros [= <-] Hm [Hin| ->]%elem_of_snoc Hco' Hna'.
        1:{ apply (changed_kept _ _ _ _ path _ _ _ _ Hpl Ht (λ n o c, Hc path p n o c Hpool) Hm Hin Hco' Hna'). }
        destruct (cm_changed _ _ _ _ _ Hcm) as (o' & Ho' & Hch). rewrite Hna in Hna'. subst n. rewrite Ho' in Hm. simplify_eq. lia.
      * rewrite lookup_insert_ne by done. intros Hq Hm [Hin| ->]%elem_of_snoc Hco'; [by apply (Hc path' p')|congruence].
    + apply spaced_snoc; [done|]. intros c1 Hin1 [x Hx] Hco1 Hna1 Hres.
      destruct (cm_settled _ _ _ _ _ Hcm Hres) as (o & Ho & Hset).
      assert (co_time c1 <= bo_changed o) by (eapply (Hc path p); eauto; congruence). lia.
Qed.

Lemma sweep_step_ok b b' : balloons_ok b → balloon_step cfg root b b' → balloons_ok b'.
Proof.
  intros Hb Hs. destruct Hs; [by apply begin_command_ok|by eapply work_ok|by apply report_ok].
Qed.

Lemma reachable_ok b : balloons_reachable cfg root b → balloons_ok b.
Proof.
  intros (now & Hr). assert (balloons_ok (no_balloons now)) as H0.
  { assert (Hno : ∀ path p, bl_pools (no_balloons now) !! path = Some p → False)
      by (intros path p; cbn; by rewrite lookup_empty).
    assert (Hnil : ∀ c, c ∈ history (no_balloons now) → False) by (intros c Hin; by apply not_elem_of_nil in Hin).
    constructor; try (by intros; exfalso; eauto). by intros i j c1 c2 _ ?. }
  induction Hr as [|b b1 b2 Hs Hr IH]; [done|]. by apply IH, (sweep_step_ok b).
Qed.
End sweeps.

Section promises.
Context (cfg : ServerConfig) (root : string) (b : Balloons) (reach : balloons_reachable cfg root b).

(** C32. In a sweep, the commands to the machines of a pool take no more than 512 MiB or 5% of
    its limit from them, and give no more back, however the workers interleave. *)
Theorem balloon_budget path p :
  bl_pools b !! path = Some p →
  total raised (of_pool path (bl_commands b)) <= budget (bp_limit p) ∧
  total lowered (of_pool path (bl_commands b)) <= budget (bp_limit p).
Proof.
  intros Hp. pose proof (reachable_ok cfg root b reach) as Hb. destruct (bk_account _ Hb _ _ Hp) as [<- <-].
  destruct (bk_pools _ Hb _ _ Hp) as [_ [_ Hi] [_ Hr] _]. done.
Qed.

(** C33. Every command ever sent has its reason: it ends an inflation where it stands, gives a
    guest what it lacks of what is free in its pool, or takes for a pool under pressure what
    the guest can spare; a fixed machine is told to hold nothing. *)
Theorem balloon_commands_justified c :
  c ∈ history b → if co_pool c is Some _ then justified c else co_desired c = 0.
Proof. apply (bk_justified _ (reachable_ok cfg root b reach)). Qed.

(** A machine that was sent a command is for ten seconds sent no other but the end of an
    inflation, over all sweeps and also when it is replaced by another of its name. *)
Theorem balloon_settles i j c1 c2 path :
  (i < j)%nat → history b !! i = Some c1 → history b !! j = Some c2 →
  co_pool c1 = Some path → co_pool c2 = Some path → co_name c2 = co_name c1 → resizes c2 →
  co_time c1 + balloonSettleTime <= co_time c2.
Proof.
  intros Hij H1 H2 Hc1 Hc2 Hn Hr.
  refine (bk_spaced _ (reachable_ok cfg root b reach) i j c1 c2 Hij H1 H2 _ _ Hn Hr); [by rewrite Hc1|by rewrite Hc1, Hc2].
Qed.
End promises.

(** ** The answer to need *)

Section answer.
Context (name : string) (socket cgroup : FileInfo) (st : firecrackerBalloonStats) (now : time) (p : balloonPool) (used : Z).
Context (o : balloonObservation) (target actual : Z).
Context (ok : pool_ok now p) (used_ok : 0 <= used < 2 ^ 63) (member : bp_members p !! name = Some (Some o)).
Context (reports_target : TargetMiB st = Some target) (reports_actual : ActualMiB st = Some actual).

#[local] Abbreviation planned_now := (plan name socket cgroup st (inl (bp_limit p)) (inl used) now p).

(** The machine reports what it reported before. *)
Definition unmoved : Prop := bo_target o = target ∧ bo_actual o = actual.
(** It has its target, and has been left alone for ten seconds. *)
Definition settled : Prop := unmoved ∧ actual = target ∧ balloonSettleTime <= now - bo_changed o.
(** The sums of what is under way in the pool have not wrapped around. *)
Definition summed : Prop := 0 <= pendingReturn (bp_members p) ∧ 0 <= pendingInflate (bp_members p).
(** The step of a command to a machine of the pool: at most 64 MiB, less in a small pool. *)
Definition stride (step : Z) : Z := Z.min step (Z.max 1 (budget (bp_limit p))).
(** What can still be promised to a guest of the pool, or asked of one, in this sweep. *)
Definition room_to_return : Z :=
  Z.min (free_space (bp_limit p) used - pendingReturn (bp_members p)) (budget (bp_limit p) - bp_returned p).
Definition room_to_take : Z :=
  Z.min (excess (bp_limit p) used - pendingInflate (bp_members p)) (budget (bp_limit p) - bp_inflated p).

Lemma observe_same : unmoved → observe (Some o) socket cgroup target actual now = (o, false).
Proof.
  intros [<- <-]. unfold observe. rewrite !Z.eqb_refl, Z.ltb_irrefl. cbn. by destruct o.
Qed.

(** The plan of an unchanged machine. *)
Lemma plan_same safe step : 0 <= target → 0 <= actual → unmoved → desiredBalloonTargetMiB st = (safe, step, true) →
  planned_now =
  let cancel := (actual <? target) && (balloonStallTime <=? now - bo_progress o) in
  let '(desired, q) := decide_target p o cancel (bp_limit p) used safe step now in
  if desired =? target then (inl None, q)
  else (inl (Some desired),
        set_members (<[name := Some (mkObservation (bo_socket o) (bo_cgroup o) desired actual now now)]> (bp_members q)) q).
Proof.
  intros Ht Ha Hsame Hd. unfold plan. rewrite Hd, reports_target, reports_actual.
  rewrite (proj2 (Z.ltb_ge target 0)), (proj2 (Z.ltb_ge actual 0)) by done. cbn [orb]. rewrite Z.eqb_refl. cbn [negb].
  rewrite (proj2 (Z.ltb_ge used 0)) by lia. rewrite member. change (default None (Some (Some o))) with (Some o).
  rewrite observe_same by done. cbn [negb andb orb]. rewrite insert_id by done. by destruct p.
Qed.

(** An inflation is called off whatever the guest says of its memory. *)
Lemma plan_called_off :
  0 <= actual < target →
  balloonStallTime <= now - bo_progress o ∧ unmoved ∨ actual < bo_actual o ∧ bo_target o <= target →
  ∃ q, planned_now = (inl (Some actual), q).
Proof.
  intros Ha Hwhy. unfold plan. destruct (desiredBalloonTargetMiB st) as [[safe step] able].
  rewrite reports_target, reports_actual. rewrite (proj2 (Z.ltb_ge target 0)), (proj2 (Z.ltb_ge actual 0)) by lia. cbn [orb].
  rewrite Z.eqb_refl. cbn [negb]. rewrite (proj2 (Z.ltb_ge used 0)) by lia.
  rewrite member. change (default None (Some (Some o))) with (Some o).
  destruct (observe _ _ _ _ _ _) as [o' fallen] eqn:Ho. cbv zeta.
  assert (Hc : (actual <? target) && (fallen || (balloonStallTime <=? now - bo_progress o')) = true).
  { rewrite (proj2 (Z.ltb_lt actual target)) by lia. destruct Hwhy as [[Hw Hs]|[Hf Hg]].
    - rewrite observe_same in Ho by done. injection Ho as <- <-. apply Z.leb_le, Hw.
    - cbn in Ho. injection Ho as _ <-. by rewrite (proj2 (Z.ltb_lt _ _)), (proj2 (Z.leb_le _ _)). }
  rewrite Hc. cbn [negb]. rewrite andb_false_r. unfold decide_target.
  apply observe_spec in Ho as (_ & Hao & _); [|intros q [= <-]; by apply (po_members _ _ ok _ _ member)].
  rewrite Hao, (proj2 (Z.eqb_neq _ _)) by lia. by eexists.
Qed.

(** C34. A machine of a pool whose machines all report, which has reached its target ten
    seconds ago, gets memory back when its guest is short of headroom and what the pool has
    free, beyond what is pending, and may still return in the sweep covers what the guest
    lacks or a step; it gets all that it lacks when that is covered.  It gives memory up when
    the pool is under pressure and the guest can spare a step that the pool is asked for.
    An inflation is called off where it stands when the machine stood still for 30 seconds
    or took memory back, even when its guest reports no memory that could be used. *)
Theorem balloon_answers :
  (∀ safe step, typed_stats st → desiredBalloonTargetMiB st = (safe, step, true) → settled → summed →
     allObserved (bp_members p) = true →
     let lack := actual - guest_bound st in
     0 < lack → Z.min lack (stride step) <= room_to_return →
     ∃ desired q, planned_now = (inl (Some desired), q) ∧ desired < target ∧
       (lack <= room_to_return → desired = guest_bound st)) ∧
  (∀ safe step, typed_stats st → desiredBalloonTargetMiB st = (safe, step, true) → settled → summed →
     allObserved (bp_members p) = true → bp_limit p - bp_limit p / 5 < used →
     stride step <= Z.min room_to_take (guest_bound st - target) →
     ∃ desired q, planned_now = (inl (Some desired), q) ∧ target < desired) ∧
  (0 <= actual < target →
     balloonStallTime <= now - bo_progress o ∧ unmoved ∨ actual < bo_actual o ∧ bo_target o <= target →
     ∃ q, planned_now = (inl (Some actual), q)).
Proof.
  split_and!; [| |apply plan_called_off].
  all: intros safe step Htyped Hd ([Hto Hao] & Heq & Hset) [Hpr Hpi] Hall.
  all: destruct (desired_ok _ _ _ Htyped Hd) as (t' & a' & Ht' & Ha' & Ht & Ha & Hs & Hstep & Hsafe).
  all: assert (t' = actual) as -> by congruence; assert (a' = actual) as -> by congruence.
  all: rewrite Z.eqb_refl in Hsafe; subst safe.
  all: pose proof (po_limit _ _ ok) as Hl; destruct (budget_range _ Hl) as [HB HB'].
  all: destruct (free_floor _ _ Hl used_ok) as [Hf Hf'], (excess_floor _ _ Hl used_ok) as [He He'].
  all: destruct (po_members _ _ ok _ _ member) as (Hto' & Hao' & _).
  all: pose proof (po_returned _ _ ok) as Hret; pose proof (po_inflated _ _ ok) as Hinf.
  all: rewrite (plan_same (guest_bound st) step) by (by rewrite <-?Heq).
  all: unfold decide_target; rewrite Hto, Hao, HB, <- Heq, Z.ltb_irrefl, Z.eqb_refl.
  all: cbn [andb]; fold (stride step); assert (Hst : 1 <= stride step <= 64) by (unfold stride; lia).
  - intros Hlack Hroom. set (lack := actual - guest_bound st) in *. unfold room_to_return in *. set (stp := stride step) in *. clearbody stp.
    rewrite (proj2 (Z.ltb_lt _ actual)) by lia. unfold return_grant. rewrite HB, Hf, Hall, Hto, Hao, <- Heq, Z.eqb_refl.
    rewrite (proj2 (Z.ltb_ge _ _)) by lia. cbn [negb orb].
    rewrite (int64_id (free_space _ _ - _)) by (unfold fits; lia). rewrite (int64_id (budget _ - _)) by (unfold fits; lia).
    rewrite (int64_id (actual - guest_bound st)) by (unfold fits; lia). fold lack.
    set (g0 := Z.min (Z.min _ _) _). set (g := if negb (g0 =? _) then _ else _).
    assert (Hg : 0 < g <= lack ∧ (g0 = lack → g = lack)).
    { unfold g. destruct (Z.eqb_spec g0 lack) as [Hq|Hne]; cbn [negb]; [lia|].
      destruct (round_down g0 stp) as [Hg1 Hg2]; [unfold g0; lia..|]. specialize (Hg2 ltac:(unfold g0 in *; lia)). unfold g0 in *. lia. }
    rewrite (int64_id (actual - g)) by (unfold fits; lia). rewrite Z.min_r, (proj2 (Z.eqb_neq _ _)) by lia.
    eexists _, _. split; [done|]. split; [lia|]. intros Hcov. rewrite (proj2 Hg); unfold g0; lia.
  - intros Hover Hroom. unfold room_to_take in *. set (stp := stride step) in *. clearbody stp.
    assert (bp_limit p `quot` 5 = bp_limit p / 5) as -> by dlia.
    rewrite (proj2 (Z.ltb_ge _ actual)), Hall, (proj2 (Z.leb_le _ _)), (proj2 (Z.ltb_lt _ used)), (proj2 (Z.ltb_lt actual _)) by lia.
    cbn [andb]. unfold reclaim_delta. rewrite HB, He, Hto, <- Heq.
    rewrite (int64_id (excess _ _ - _)) by (unfold fits; lia). rewrite (int64_id (budget _ - _)) by (unfold fits; lia).
    rewrite (int64_id (guest_bound st - actual)) by (unfold fits; lia).
    set (d := roundDownToMultiple _ _). assert (Hg : 0 < d <= guest_bound st - actual).
    { unfold d. set (v := Z.min _ _). destruct (round_down v stp) as [Hg1 Hg2]; [unfold v; lia..|].
      specialize (Hg2 ltac:(unfold v; lia)). unfold v in *. lia. }
    rewrite (int64_id (actual + d)), (proj2 (Z.eqb_neq _ _)) by (unfold fits; lia).
    eexists _, _. split; [done|]. lia.
Qed.
End answer.

(** ** Two machines of a pool *)

Section runs.
Context (cfg : ServerConfig) (root : string).

Definition work (h : BalloonHost) (b : Balloons) (i : nat) : Balloons :=
  match bl_workers b with
  | Some ws =>
      match ws !! i with
      | Some (vm, pos) =>
          let '(pos', p', cs) := advance h (bl_now b) vm (bl_pools b !! bv_PoolPath vm) pos in
          mkBalloons (bl_now b) (set_pool (bv_PoolPath vm) p' (bl_pools b)) (Some (<[i := (vm, pos')]> ws))
            (bl_commands b ++ cs) (bl_past b)
      | None => b
      end
  | None => b
  end.

(** A sweep whose workers take turns in the given order. *)
Definition begun (h : BalloonHost) (now : time) (b : Balloons) : Balloons :=
  match listBalloonVMs cfg root h with
  | inl vms => mkBalloons now (prepareBalloonPools (map (λ vm, (vm, h)) vms) (bl_pools b))
                 (Some (map (λ vm, (vm, Waiting)) vms)) [] (bl_past b ++ bl_commands b)
  | inr _ => b
  end.
Definition swept (h : BalloonHost) (now : time) (turns : list nat) (b : Balloons) : Balloons :=
  let b := fold_left (work h) turns (begun h now b) in
  mkBalloons (bl_now b) (reportBalloonPools h (bl_now b) (bl_pools b)).1 None (bl_commands b) (bl_past b).

Lemma work_reaches h turns b : typed h → rtc (balloon_step cfg root) b (fold_left (work h) turns b).
Proof.
  intros Hh. revert b. induction turns as [|i turns IH]; intros b; [done|]. cbn. etrans; [|apply IH].
  unfold work. destruct (bl_workers b) as [ws|] eqn:Hws; [|done]. destruct (ws !! i) as [[vm pos]|] eqn:Hi; [|done].
  destruct (advance _ _ _ _ _) as [[pos' p'] cs] eqn:Ha. by apply rtc_once, (bs_work _ _ _ h _ _ _ pos).
Qed.

Lemma swept_reaches h now turns b vms :
  typed h → bl_workers b = None → bl_now b <= now → listBalloonVMs cfg root h = inl vms →
  (match bl_workers (fold_left (work h) turns (begun h now b)) with
   | Some ws => forallb (λ w : balloonVM * position, is_done w.2) ws | None => false end) = true →
  rtc (balloon_step cfg root) b (swept h now turns b).
Proof.
  intros Hh Hnone Hnow Hl Hdone.
  assert (H1 : (map (λ vm, (vm, h)) vms).*1 = vms) by (clear; induction vms as [|vm vms IH]; cbn; [done|by rewrite IH]).
  assert (H2 : Forall typed (map (λ vm, (vm, h)) vms).*2) by (clear -Hh; induction vms; cbn; by constructor).
  pose proof (bs_begin cfg root b now h _ Hnone Hnow Hh H2) as Hbegin. rewrite H1 in Hbegin.
  eapply rtc_l; [by apply Hbegin|]. unfold swept, begun in *. rewrite Hl in *.
  etrans; [by apply (work_reaches h turns)|].
  destruct (bl_workers (fold_left _ _ _)) as [ws|] eqn:Hws; [|done]. by apply rtc_once, (bs_report _ _ _ h ws).
Qed.
End runs.

(** Sixteen GiB, of which [used] MiB are in use; [idle] and [busy] report. *)
Definition gib (n : Z) : Z := n * 1024 * miBBytes.
Definition pool_host (used : Z) (idle busy : firecrackerBalloonStats) : BalloonHost :=
  mkBalloonHost
    (λ path, if String.eqb path "/cg/firecracker-pools" then inl [("web", true)]
             else if String.eqb path "/cg/firecracker-pools/web" then inl [("busy", true); ("idle", true)] else inr ErrNotExist)
    (λ path, inl (1, Z.of_nat (String.length path)))
    (λ path, if String.eqb path "/cg/firecracker-pools/web/memory.max" then inl (gib 16)
             else if String.eqb path "/cg/firecracker-pools/web/memory.current" then inl (used * miBBytes) else inr ErrNotExist)
    (λ _, inl tt)
    (λ socket, inl (if String.eqb socket "/srv/data/instances/idle/firecracker.sock" then idle else busy))
    (λ _ _, inl tt).
Definition guest (balloon available : Z) : firecrackerBalloonStats :=
  mkBalloonStats (Some balloon) (Some (available * miBBytes)) (Some balloon) (gib 4).

Definition balloon_cfg : ServerConfig :=
  mkServerConfig "/usr/bin/firecracker" "/srv/jailer" "/srv/data/instances" "cold.example".
(** The workers take turns. *)
Definition in_turns : list nat := concat (replicate 7 [0; 1]%nat).
Definition sweep_at (t used : Z) (idle busy : firecrackerBalloonStats) (b : Balloons) : Balloons :=
  swept balloon_cfg "/cg" (pool_host used idle busy) (t * ns_per_sec) in_turns b.

(** Both are seen; under pressure the idle one gives memory up; then it runs short. *)
Definition bb1 : Balloons := sweep_at 15 14000 (guest 0 2048) (guest 0 100) (no_balloons 0).
Definition bb2 : Balloons := sweep_at 30 14000 (guest 0 2048) (guest 0 100) bb1.
Definition bb3 : Balloons := sweep_at 35 9000 (guest 512 2048) (guest 0 600) bb2.
Definition bb4 : Balloons := sweep_at 50 9000 (guest 512 400) (guest 0 600) bb3.

Example balloon_run :
  (map (λ c, (co_name c, co_time c / ns_per_sec, target_of c, co_desired c)) (history bb4)) =
  [("idle", 30, 0, 512); ("idle", 50, 512, 400)].
Proof. vm_compute. reflexivity. Qed.

Lemma typed_guest b a : 0 <= b < 2 ^ 40 → 0 <= a < 2 ^ 40 → typed_stats (guest b a).
Proof. intros Hb Ha. unfold guest, gib, miBBytes. split_and!; cbn; intros; simplify_eq; unfold fits; lia. Qed.
Lemma typed_pool_host used b1 a1 b2 a2 :
  0 <= used < 2 ^ 40 → 0 <= b1 < 2 ^ 40 → 0 <= a1 < 2 ^ 40 → 0 <= b2 < 2 ^ 40 → 0 <= a2 < 2 ^ 40 →
  typed (pool_host used (guest b1 a1) (guest b2 a2)).
Proof.
  intros. split.
  - intros path v. cbn. unfold gib, miBBytes. repeat case_match; intros; simplify_eq; unfold fits; lia.
  - intros socket st [= <-]. case_match; by apply typed_guest.
Qed.

Lemma sweep_at_reaches t used b1 a1 b2 a2 b vms :
  typed (pool_host used (guest b1 a1) (guest b2 a2)) → bl_workers b = None → bl_now b <= t * ns_per_sec →
  listBalloonVMs balloon_cfg "/cg" (pool_host used (guest b1 a1) (guest b2 a2)) = inl vms →
  (match bl_workers (fold_left (work (pool_host used (guest b1 a1) (guest b2 a2))) in_turns
                       (begun balloon_cfg "/cg" (pool_host used (guest b1 a1) (guest b2 a2)) (t * ns_per_sec) b)) with
   | Some ws => forallb (λ w : balloonVM * position, is_done w.2) ws | None => false end) = true →
  balloons_reachable balloon_cfg "/cg" b →
  balloons_reachable balloon_cfg "/cg" (sweep_at t used (guest b1 a1) (guest b2 a2) b).
Proof. intros Hh Hnone Hnow Hl Hdone [n0 Hb]. exists n0. etrans; [exact Hb|]. by eapply swept_reaches. Qed.

Ltac next_sweep lemma :=
  eapply sweep_at_reaches; [apply typed_pool_host; lia|reflexivity|vm_compute; congruence|vm_compute; reflexivity
                           |vm_compute; reflexivity|apply lemma].
Lemma bb0_reachable : balloons_reachable balloon_cfg "/cg" (no_balloons 0).
Proof. by exists 0. Qed.
Lemma bb1_reachable : balloons_reachable balloon_cfg "/cg" bb1.
Proof. next_sweep bb0_reachable. Qed.
Lemma bb2_reachable : balloons_reachable balloon_cfg "/cg" bb2.
Proof. next_sweep bb1_reachable. Qed.
Lemma bb3_reachable : balloons_reachable balloon_cfg "/cg" bb3.
Proof. next_sweep bb2_reachable. Qed.
Lemma bb4_reachable : balloons_reachable balloon_cfg "/cg" bb4.
Proof. next_sweep bb3_reachable. Qed.

Definition web : string := "/cg/firecracker-pools/web".

(** 512 MiB are taken, all that a sweep may take of this pool. *)
Lemma balloon_budget_witness :
  ∃ p, bl_pools bb2 !! web = Some p ∧ budget (bp_limit p) = 512 ∧ total raised (of_pool web (bl_commands bb2)) = 512 ∧
    total raised (of_pool web (bl_commands bb2)) <= budget (bp_limit p) ∧
    total lowered (of_pool web (bl_commands bb2)) <= budget (bp_limit p).
Proof.
  destruct (bl_pools bb2 !! web) as [p|] eqn:Hp; [|vm_compute in Hp; discriminate].
  exists p. split; [done|]. split; [|split; [vm_compute; reflexivity|exact (balloon_budget _ _ _ bb2_reachable web p Hp)]].
  vm_compute in Hp. injection Hp as <-. reflexivity.
Defined.

Lemma balloon_commands_justified_witness :
  ∃ c, history bb4 !! 1%nat = Some c ∧ justified c ∧ co_desired c = 400.
Proof.
  destruct (history bb4 !! 1%nat) as [c|] eqn:Hc; [|vm_compute in Hc; discriminate]. exists c. split; [done|].
  pose proof (balloon_commands_justified _ _ _ bb4_reachable c (list_elem_of_lookup_2 _ _ _ Hc)) as H.
  vm_compute in Hc. injection Hc as <-. split; [exact H|reflexivity].
Defined.

Lemma balloon_settles_witness :
  ∃ c1 c2, history bb4 !! 0%nat = Some c1 ∧ history bb4 !! 1%nat = Some c2 ∧ co_time c1 = 30 * ns_per_sec ∧
    co_time c2 = 50 * ns_per_sec ∧ co_time c1 + balloonSettleTime <= co_time c2.
Proof.
  destruct (history bb4 !! 0%nat) as [c1|] eqn:H1; [|vm_compute in H1; discriminate].
  destruct (history bb4 !! 1%nat) as [c2|] eqn:H2; [|vm_compute in H2; discriminate].
  pose proof (balloon_settles _ _ _ bb4_reachable 0 1 c1 c2 web ltac:(lia) H1 H2) as H.
  exists c1, c2. split; [done|]. split; [done|]. vm_compute in H1, H2. injection H1 as <-. injection H2 as <-.
  split; [reflexivity|]. split; [reflexivity|]. apply H; try reflexivity. vm_compute. discriminate.
Defined.

Lemma pool_ok_later now now' p : pool_ok now p → now <= now' → pool_ok now' p.
Proof.
  intros [Hl Hi Hr Hm] Hnow. constructor; try done. intros n o Ho. destruct (Hm n o Ho) as (? & ? & ?). split_and!; lia.
Qed.

Definition web1 : balloonPool :=
  match bl_pools bb1 !! web with Some p => p | None => mkBalloonPool (0, 0) 1 ∅ 0 0 false end.
Definition idle1 : balloonObservation :=
  match bp_members web1 !! "idle" with Some (Some o) => o | _ => mkObservation (0, 0) (0, 0) 1 1 0 0 end.

Lemma web1_ok : pool_ok (30 * ns_per_sec) web1.
Proof.
  apply (pool_ok_later (bl_now bb1)); [|vm_compute; discriminate].
  apply (bk_pools _ (reachable_ok _ _ _ bb1_reachable) web). vm_compute. reflexivity.
Qed.

(** The idle machine can spare memory: at 30 s it is asked for some. *)
Lemma balloon_answers_witness :
  ∃ desired q, plan "idle" (0, 0) (0, 0) (guest 0 2048) (inl (bp_limit web1)) (inl (14000 * miBBytes)) (30 * ns_per_sec) web1 =
      (inl (Some desired), q) ∧ 0 < desired.
Proof.
  assert (Hu : 0 <= 14000 * miBBytes < 2 ^ 63) by (unfold miBBytes; lia).
  assert (Hm : bp_members web1 !! "idle" = Some (Some idle1)) by (vm_compute; reflexivity).
  assert (Hd : desiredBalloonTargetMiB (guest 0 2048) = (1536, 64, true)) by (vm_compute; reflexivity).
  refine (proj1 (proj2 (balloon_answers "idle" (0, 0) (0, 0) (guest 0 2048) (30 * ns_per_sec) web1 (14000 * miBBytes) idle1
    0 0 web1_ok Hu Hm eq_refl eq_refl)) 1536 64 (typed_guest 0 2048 ltac:(lia) ltac:(lia)) Hd _ _ _ _ _).
  - split; [split; vm_compute; reflexivity|]. split; [done|]. vm_compute. discriminate.
  - split; vm_compute; discriminate.
  - vm_compute. reflexivity.
  - vm_compute. reflexivity.
  - vm_compute. discriminate.
Defined.
