(* ===== verification/Operations.v ===== *)
(** * Bound operations

    Models starting and stopping an instance for a user: [cmdStart] and [cmdStop] of
    src/internal/service/service.go with the bound operations of orb_operation.go
    ([checkInstanceBinding], [checkOrbBinding], [beginOrbOperation],
    [finishOrbOperation], [cmdOperationResult]), and the fence [Run] puts behind a
    restart.  A session is a state machine: each stage is one call of the store or of
    the provisioner, and the stages of many sessions interleave.  The provisioner is
    reached through the interface [Provisioner]. *)
From S2P Require Import Prelude GoStrings Timestamps Model Sql StoreDB StoreRequests StoreInstances.
From S2P Require Import StoreCleanup StoreMigration Identity Config Provision Lifecycle LifecycleFrame Access.
From stdpp Require Import relations.

#[local] Open Scope Z_scope.

(** ** The provisioner, as its client sees it *)

Class Provisioner := {
  pr_StartWithOptions : inputs → bool → string → M Control Instance;
  pr_StopWithOptions : inputs → bool → string → M Control Instance;
  pr_ColdDisk : inputs → string → string → M Control unit;
}.

Definition missing (n : string) (w : Control) : Prop :=
  ∀ k r, instances (pv_db w) !! k = Some r → row_Name r ≠ n.

(** It touches the record of the instance it is asked about, and no request; nothing,
    when there is no such instance. *)
Class LawfulProvisioner `{Provisioner} := {
  pr_start_framed n k d0 i discard w :
    framed n k d0 w → wp (pr_StartWithOptions i discard n) (post (framed n k d0) (λ a _, Name a = n)) w;
  pr_stop_framed n k d0 i save w :
    framed n k d0 w → wp (pr_StopWithOptions i save n) (post (framed n k d0) (λ a _, Name a = n)) w;
  pr_cold_framed n k d0 i action w :
    framed n k d0 w → wp (pr_ColdDisk i n action) (post (framed n k d0) (λ _ _, True)) w;
  pr_start_missing n i discard w : missing n w → wp (pr_StartWithOptions i discard n) (λ _ w', w' = w) w;
  pr_stop_missing n i save w : missing n w → wp (pr_StopWithOptions i save n) (λ _ w', w' = w) w;
  pr_cold_missing n i action w : missing n w → wp (pr_ColdDisk i n action) (λ _ w', w' = w) w;
}.

(** ** State *)

(** What the provisioner was asked to do for a bound request, and what it answered
    (history variables). *)
Inductive effect :=
  | Ran (id operation : string)
  | Succeeded (id operation : string)
  | Refused (id operation : string).

#[export] Instance effect_eq_dec : EqDecision effect.
Proof. solve_decision. Defined.

Record Service := mkService { sv_control : Control; sv_effects : list effect }.

Definition set_control v s := mkService v (sv_effects s).

Definition on_control {A} (m : M Control A) : M Service A := λ fs s,
  let '(o, w, fs') := m fs (sv_control s) in (o, set_control w s, fs').
Definition on_store {A} (m : M DB A) : M Service A := on_control (on_db m).
Definition note (e : option effect) : M Service unit := λ fs s,
  (Ok tt, mkService (sv_control s) (match e with Some e => e :: sv_effects s | None => sv_effects s end), fs).

(** ** Sessions *)

(** [start NAME] or [stop NAME], with its flag and what follows the name: nothing, or
    [--expect REQUEST_ID UUID CREATED_AT BACKEND_ID IMAGE]. *)
Record operation := mkOperation {
  op_actor : Actor;
  op_command : string;
  op_flag : bool;
  op_name : string;
  op_expect : list string;
}.

(** The words of [cmdStart] and [cmdStop]; [None]: a usage error. *)
Definition parse_operation (actor : Actor) (args : list string) : option operation :=
  match args with
  | command :: name :: rest =>
      let flag_name := if String.eqb command "start" then "--discard-state" else "--save-state" in
      let flag := String.eqb (hd "" rest) flag_name in
      let rest := if flag then drop 1 rest else rest in
      if bool_decide (length rest = 0%nat ∨ length rest = 6%nat)
      then Some (mkOperation actor command flag name rest) else None
  | _ => None
  end.

Definition bound (o : operation) : bool := negb (bool_decide (op_expect o = [])).
Definition request_id (o : operation) : string := nth 1 (op_expect o) "".
Definition is_start (o : operation) : bool := String.eqb (op_command o) "start".

(** Where a session is in its command. *)
Inductive stage :=
  | Looking
  | Checking (inst : Instance)
  | Admitting (inst : Instance)
  | Beginning
  | Running
  | Rejecting
  | Finishing (inst : Instance)
  | Offloading (inst : Instance)
  | Over (code : Z).

Definition event (o : operation) (e : string → string → effect) : option effect :=
  if bound o then Some (e (request_id o) (op_command o)) else None.

Definition is_rejected (e : error) : bool :=
  match e with ErrStartRejected _ => true | _ => false end.

Section operations.
Context `{Provisioner}.
(** The unicode tables, and the parsers and encoders of the libraries. *)
Context (EqualFold : string → string → bool) (uuid_Parse : string → option string).
Context (time_Parse : string → result time) (json_strings : list string → string).
(** The service: its configuration and the fingerprint of its host key. *)
Context (cfg : Config) (backendID : string).

Definition checkInstanceBinding (inst : Instance) (identity : list string) : result unit :=
  match identity with
  | [uuid; created_at; backend; image] =>
      created ← time_Parse created_at;
      if negb (String.eqb (ID inst) uuid) || negb (CreatedAt inst =? created) || String.eqb backendID "" ||
         negb (String.eqb backendID backend) || negb (String.eqb (ImageName inst) image)
      then inr (Errorf "instance incarnation or backend identity mismatch") else inl tt
  | _ => inr (Errorf "expected UUID CREATED_AT BACKEND_ID IMAGE")
  end.

Definition checkOrbBinding (inst : Instance) (identity : list string) : M DB unit :=
  lift (checkInstanceBinding inst identity);;
  require (String.eqb (KindName inst) KindOrb) (Errorf "orb incarnation required");;
  m ← try (GetMigration (ID inst));
  match m with
  | inl m => require (String.eqb (mg_Phase m) "aborted") (Errorf "migration excludes bound orb operations")
  | inr ErrNoRows => mret tt
  | inr e => throw e
  end;;
  r ← try (GetImportReceipt (ID inst));
  match r with
  | inr ErrNoRows => mret tt
  | _ => throw (Errorf "import history excludes bound orb operations")
  end.

Definition checkOrbIdentity (inst : Instance) (identity : list string) : M DB unit :=
  checkOrbBinding inst identity;;
  CheckCleanupFence (ID inst).

Definition orbOperationRequest (actor : Actor) (operation name id : string) (identity : list string)
  : LifecycleRequest :=
  mkLifecycleRequest id (UserLogin actor) operation name (json_strings (operation :: name :: identity)) "" 0.

Definition bound_request (o : operation) (name : string) : LifecycleRequest :=
  orbOperationRequest (op_actor o) (op_command o) name (request_id o) (drop 2 (op_expect o)).

(** [beginOrbOperation], up to its admission. *)
Definition check_operation (o : operation) (inst : Instance) : M DB unit :=
  require (bool_decide (length (op_expect o) = 6%nat) && String.eqb (hd "" (op_expect o)) "--expect")
    (Errorf "expected --expect REQUEST_ID UUID CREATED_AT BACKEND_ID IMAGE");;
  require (bool_decide (is_Some (uuid_Parse (request_id o)))) (Errorf "invalid UUID");;
  checkOrbIdentity inst (drop 2 (op_expect o)).

Definition offloads (o : operation) : bool :=
  negb (is_start o) && negb (op_flag o) && ColdStorageAfterStop cfg && nonempty (ColdStorageHost cfg).

Definition run_operation (i : inputs) (o : operation) : M Control Instance :=
  if is_start o then pr_StartWithOptions i (op_flag o) (op_name o)
  else pr_StopWithOptions i (op_flag o) (op_name o).

(** One stage: a call, and where its answer leads. *)
Definition advance (i : inputs) (o : operation) (st : stage) : M Service stage :=
  let now := si_now i 0%nat in
  match st with
  | Looking =>
      r ← try (on_store (lookupVisibleInstance EqualFold cfg (op_actor o) (op_name o)));
      mret (match r with inl inst => Checking inst | inr _ => Over 1 end)
  | Checking inst =>
      if negb (bound o) then mret Running else
      r ← try (on_store (check_operation o inst));
      mret (match r with inl _ => Admitting inst | inr _ => Over 75 end)
  | Admitting inst =>
      r ← try (on_store (AdmitLifecycleRequest now (bound_request o (Name inst))));
      (* not admitted: query operation-result, never replay *)
      mret (match r with inl true => Beginning | _ => Over 75 end)
  | Beginning =>
      r ← try (on_store (BeginLifecycleRequest (request_id o) (UserLogin (op_actor o))));
      mret (match r with inl _ => Running | inr _ => Over 75 end)
  | Running =>
      note (event o Ran);;
      r ← try (on_control (run_operation i o));
      match r with
      | inl inst => note (event o Succeeded);; mret (Finishing inst)
      | inr e =>
          if is_start o && bound o && is_rejected e
          then note (event o Refused);; mret Rejecting else mret (Over 1)
      end
  | Rejecting =>
      r ← try (on_store (RejectLifecycleStart (request_id o) (UserLogin (op_actor o))));
      mret (match r with inl _ => Over 1 | inr _ => Over 75 end)
  | Finishing inst =>
      let done := if offloads o then Offloading inst else Over 0 in
      if negb (bound o) then mret done else
      r ← try (on_store (FinishLifecycleRequest (request_id o) (UserLogin (op_actor o)) 0));
      mret (match r with inl true => done | _ => Over 75 end)
  | Offloading inst =>
      _ ← try (on_control (pr_ColdDisk i (Name inst) "offload"));
      mret (Over 0)
  | Over code => mret (Over code)
  end.

(** A command from its first call to its exit code, with the inputs of its stages: every
    stage leads further, so nine are enough. *)
Fixpoint run_command (is_ : list inputs) (o : operation) (st : stage) : M Service stage :=
  match is_ with
  | [] => mret st
  | i :: rest => st ← advance i o st; run_command rest o st
  end.

(** ** The outcome of a request *)

(** [cmdOperationResult]: the exit code, and the request if there is an answer. *)
Definition cmdOperationResult (now : time) (actor : Actor) (args : list string)
  : M Service (Z * option LifecycleRequest) :=
  let cancel : M Service unit :=
    match args with
    | command :: id :: name :: operation :: identity =>
        if String.eqb command "operation-cancel" && bool_decide (length args = 8%nat) then
          require (String.eqb operation "start" || String.eqb operation "stop")
            (Errorf "unsupported cancellable operation");;
          require (bool_decide (is_Some (uuid_Parse id))) (Errorf "invalid UUID");;
          inst ← on_store (lookupVisibleInstance EqualFold cfg actor name);
          on_store (checkOrbIdentity inst identity);;
          on_store (CancelLifecycleRequest now (orbOperationRequest actor operation name id identity))
        else throw (Errorf "usage: operation-result REQUEST_ID | operation-cancel REQUEST_ID NAME OPERATION UUID CREATED_AT BACKEND_ID IMAGE")
    | [command; _] =>
        require (String.eqb command "operation-result")
          (Errorf "usage: operation-result REQUEST_ID | operation-cancel REQUEST_ID NAME OPERATION UUID CREATED_AT BACKEND_ID IMAGE")
    | _ => throw (Errorf "usage: operation-result REQUEST_ID | operation-cancel REQUEST_ID NAME OPERATION UUID CREATED_AT BACKEND_ID IMAGE")
    end in
  r ← try (cancel;;
           r ← on_store (GetLifecycleRequest (nth 1 args "") (UserLogin actor));
           require (bool_decide (lr_Command r ∈ ["start"; "stop"; "bootstrap"])) (Errorf "not an orb operation");;
           mret r);
  mret (match r with inl r => (0, Some r) | inr _ => (75, None) end).

(** ** The service over time *)

Record System := mkSystem { sy_service : Service; sy_sessions : gmap nat (operation * stage) }.

Definition set_service v y := mkSystem v (sy_sessions y).
Definition set_sessions v y := mkSystem (sy_service y) v.

Definition sy_db (y : System) : DB := pv_db (sv_control (sy_service y)).

(** The rows of bound operations. *)
Definition bound_row (r : request_row) : bool := has_command "start" r || has_command "stop" r.

(** What everything else does to the requests: rows stay what they are, and those of
    bound operations as they are. *)
Definition elsewhere (d d' : DB) : Prop :=
  wf d' ∧ ∀ id, match lifecycle_requests d !! id with
    | Some r => ∃ r', lifecycle_requests d' !! id = Some r' ∧ lr_Command (rq r') = lr_Command (rq r) ∧
                  (bound_row r = true → r' = r)
    | None => ∀ r', lifecycle_requests d' !! id = Some r' → bound_row r' = false
    end.

(** A session's call; if the process dies in it, no session is left. *)
Definition session_call (t : nat) (i : inputs) (o : operation) (st : stage) (fs : list fault) (y : System) : System :=
  let '(r, s, _) := advance i o st fs (sy_service y) in
  match r with
  | Ok st' => mkSystem s (<[t := (o, st')]> (sy_sessions y))
  | Err _ => mkSystem s (delete t (sy_sessions y))
  | Crashed => mkSystem s ∅
  end.

Inductive sy_step : System → System → Prop :=
  | sy_arrive t o y : sy_sessions y !! t = None → op_command o = "start" ∨ op_command o = "stop" →
      sy_step y (set_sessions (<[t := (o, Looking)]> (sy_sessions y)) y)
  | sy_advance t i o st fs y : sy_sessions y !! t = Some (o, st) →
      sy_step y (session_call t i o st fs y)
  | sy_leave t y : sy_step y (set_sessions (delete t (sy_sessions y)) y)
  | sy_result now actor args fs y :
      sy_step y (set_service (cmdOperationResult now actor args fs (sy_service y)).1.2 y)
  (* [Run]: after a restart, before any session *)
  | sy_run fs y :
      sy_step y (mkSystem (on_store InterruptLifecycleRequests fs (sy_service y)).1.2 ∅)
  | sy_other w y : elsewhere (sy_db y) (pv_db w) →
      sy_step y (set_service (set_control w (sy_service y)) y).

Definition sy_initial (y : System) : Prop :=
  wf (sy_db y) ∧ sv_effects (sy_service y) = [] ∧ sy_sessions y = ∅ ∧
  map_Forall (λ _ r, bound_row r = false) (lifecycle_requests (sy_db y)).

Definition sy_reachable (y : System) : Prop := ∃ y0, sy_initial y0 ∧ rtc sy_step y0 y.
End operations.
