(* ===== verification/Deletion.v ===== *)
(** * The deletion of an instance

    Models src/internal/provision/cleanup.go ([Delete] and [DeleteWithProof]), the removal of
    cold copies in src/internal/provision/cold_disk.go, and src/internal/service/cleanup.go
    ([cmdDeleteExpected], [closeInstanceGateways], [cmdCleanupReceipt]): the store, the
    runner with its disks and the cold store, the network helper, the tailnet and the
    gateways, each as it is modelled in its own file, in one command. *)
From S2P Require Import Prelude GoStrings Paths Timestamps Model Sql StoreDB StoreRequests StoreInstances.
From S2P Require Import StoreCleanup StoreMigration Identity Config Provision Lifecycle Access Operations.
From S2P Require Import RunnerState Runtime Receipts ReceiptStop ColdDisk Network.

#[local] Open Scope Z_scope.

(** ** State *)

(** [es_tailnet]: the node IDs of the devices of the tailnet; [es_gateways]: the listeners of
    the gateways, by manager and instance name.  Directories and disks are those of the
    runner's host ([w_dirs] and [disks]). *)
Record Estate (R K : Type) := mkEstate {
  es_db : DB;
  es_cold : World R;
  es_net : NetHost K;
  es_tailnet : list string;
  es_gateways : gset (string * string);
}.
Arguments mkEstate {R K}.
Arguments es_db {R K}.
Arguments es_cold {R K}.
Arguments es_net {R K}.
Arguments es_tailnet {R K}.
Arguments es_gateways {R K}.

Section parts.
Context {R K : Type}.
#[local] Abbreviation Estate := (Estate R K).
Implicit Types e : Estate.
Definition put_db v e := mkEstate v (es_cold e) (es_net e) (es_tailnet e) (es_gateways e).
Definition put_cold (v : World R) e : Estate := mkEstate (es_db e) v (es_net e) (es_tailnet e) (es_gateways e).
Definition put_net (v : NetHost K) e : Estate := mkEstate (es_db e) (es_cold e) v (es_tailnet e) (es_gateways e).
Definition put_tailnet v e := mkEstate (es_db e) (es_cold e) (es_net e) v (es_gateways e).
Definition put_gateways v e := mkEstate (es_db e) (es_cold e) (es_net e) (es_tailnet e) v.

(** What the server does itself, and what another process does: its death is an error. *)
Definition locally {S A} (get : Estate → S) (put : S → Estate → Estate) (m : M S A) : M Estate A := λ fs e,
  let '(o, s, fs') := m fs (get e) in (o, put s e, fs').
Definition elsewhere {S A} (get : Estate → S) (put : S → Estate → Estate) (m : M S A) : M Estate A := λ fs e,
  let '(o, s, fs') := m fs (get e) in (match o with Crashed => Err ErrIO | _ => o end, put s e, fs').

Definition in_store {A} (m : M DB A) : M Estate A := locally es_db put_db m.
Definition call : M Estate unit := query (λ _, inl tt).
(** A request may not arrive, its answer may be lost. *)
Definition at_runner {A} (m : M (World R) A) : M Estate A := call;; a ← elsewhere es_cold put_cold m; call;; mret a.
Definition at_helper {A} (m : M (NetHost K) A) : M Estate A := call;; a ← elsewhere es_net put_net m; call;; mret a.

(** [p] is there: a directory, a disk, or the file of a disk. *)
Definition path_there (p : string) (w : World R) : bool :=
  bool_decide (p ∈ w_dirs w) || bool_decide (is_Some (w_disks w !! p)) ||
  existsb (λ d, String.eqb (JoinPath [d; "rootfs.img"]) p) (map fst (map_to_list (w_disks w))).
End parts.

Section deletion.
Context {R K : Type} `{!coldRemote R} `{!NetTools K}.
(** The runner, the helper, the libraries, as in the files of these parts. *)
Context (rcfg : ServerConfig) (guest_shutdown : string → Machine → Machine).
Context (new_identity : World R → string → SubvolumeIdentity) (NewString : World R → string) (canonicalColdUUID : string → bool).
Context (uuid_Parse : string → option string) (ParseCIDR6 : string → bool).
(** [uuid.NewSHA1], [json.Marshal] and [json.Unmarshal] of words, [time.Parse], what
    [outboundInterface] finds, and the service's configuration. *)
Context (NewSHA1 : string → string) (json_strings : list string → string) (json_words : string → result (list string)).
Context (time_Parse : string → result time) (outboundInterface : Estate R K → result string).
Context (EqualFold : string → string → bool) (cfg : Config) (backendID : string) (has_tsClient : bool).
(** The gateway managers that are configured. *)
Context (managers : list string).

#[local] Abbreviation Estate := (Estate R K).
#[local] Abbreviation ME := (M Estate).

(** ** Cold copies (provision/cold_disk.go) *)

Definition instanceDir (name : string) : result string := directChildPath (cf_InstancesDir cfg) name.
Definition instanceBackupsDir (name : string) : result string := directChildPath (BackupsDir cfg) name.

Definition coldMarker (inst : Instance) : ME (option (string * bool)) :=
  dir ← lift (instanceDir (Name inst));
  let path := JoinPath [dir; "cold-disk.json"] in
  call;; call;; (* ValidatePath, Lstat *)
  m ← query (λ e, inl (markers (w_host (es_cold e)) !! path));
  match m with
  | None => mret None
  | Some (id, phase, remote) =>
      require (nonempty id && String.eqb id (ID inst) && nonempty phase)
        (Errorf "invalid cold disk marker identity or phase");;
      mret (Some (phase, remote))
  end.

Definition known_phase (p : string) : bool := bool_decide (p ∈ ["hot"; "offloading"; "evicting"; "cold"; "restoring"; "purged"]).

Definition client_ColdDisk (q : ColdRequest) : ME ColdStatus :=
  status ← at_runner (handleColdDisk rcfg new_identity NewString canonicalColdUUID q);
  require (known_phase (cs_Phase status)) (Errorf "unknown cold disk runner phase");;
  mret status.

Definition runColdDisk (inst : Instance) (action : string) : ME ColdStatus :=
  let q := mkColdRequest (Name inst) (ID inst) action no_subvolume in
  q ← (if String.eqb action "offload" then
         status ← client_ColdDisk (mkColdRequest (Name inst) (ID inst) "status" no_subvolume);
         if String.eqb (cs_Phase status) "hot" || String.eqb (cs_Phase status) "purged" then
           id ← locally es_cold put_cold (ValidateDisk (JoinPath [cf_InstancesDir cfg; Name inst; "disk"]));
           mret (mkColdRequest (Name inst) (ID inst) action id)
         else mret q
       else mret q);
  client_ColdDisk q.

Definition recovery_error : error := Errorf "instance has cold disk recovery/remote state".

Definition coldDiskFence (inst : Instance) (anyMarker : bool) : ME unit :=
  m ← coldMarker inst;
  require (match m with Some (phase, _) => negb (anyMarker || negb (String.eqb phase "hot")) | None => true end) recovery_error;;
  status ← runColdDisk inst "status";
  require (String.eqb (cs_Phase status) "hot" && negb (anyMarker && (cs_Remote status || cs_JournalPresent status))) recovery_error.

(** The root file system is a regular file. *)
Definition coldDiskRootFSPresent (inst : Instance) : ME unit :=
  call;;
  query (λ e, if path_there (RootFSPath inst) (es_cold e) then inl tt
              else inr (Errorf "authoritative local rootfs unavailable")).

Definition hydrateColdDisk (inst : Instance) : ME unit :=
  m ← coldMarker inst;
  status ← runColdDisk inst "status";
  if String.eqb (cs_Phase status) "hot" && match m with Some (phase, _) => String.eqb phase "hot" | None => true end
  then coldDiskRootFSPresent inst else
  status ← runColdDisk inst "hydrate";
  require (String.eqb (cs_Phase status) "hot") (Errorf "cold disk hydration did not produce a hot disk");;
  coldDiskRootFSPresent inst;;
  coldDiskFence inst false.

Definition cleanupColdForRemoval (inst : Instance) : ME unit :=
  _ ← coldMarker inst;
  status ← runColdDisk inst "delete";
  require (String.eqb (cs_Phase status) "hot" && negb (cs_Remote status) && negb (cs_JournalPresent status))
    (Errorf "cold disk deletion did not clear retained state");;
  m ← coldMarker inst;
  require (match m with None => true | Some _ => false end) (Errorf "cold disk marker remains after deletion").

(** ** The steps of a deletion *)

(** [manager.listeners[inst.Name].close(ctx)], and its entry. *)
Definition close_gateway (inst : Instance) (manager : string) : ME unit :=
  call;;
  env (λ e, (inl tt, put_gateways (es_gateways e ∖ {[(manager, Name inst)]}) e)).
Definition closeInstanceGateways (inst : Instance) : ME unit :=
  call;; (* ctx.Err *)
  for_each (close_gateway inst) managers;;
  call.

(** The runner's client. *)
Definition resolve_start (inst : Instance) : ME StartResponse :=
  lift (Validate (attempt_of inst));;
  resp ← at_runner (ColdDisk.on_host (resolveStart rcfg (attempt_of inst)));
  lift (validateStartResponse resp);;
  mret resp.
Definition stopFirecracker (inst : Instance) : ME unit :=
  let req := mkStopRequest false (ID inst) (StartRequestID inst) (StartBootID inst) (Name inst) (FirecrackerPID inst) in
  lift (validate_stop req);;
  at_runner (ColdDisk.on_host (receiptStop guest_shutdown rcfg req)).
Definition VerifyInstanceAbsent (q : StartResultRequest) : ME unit :=
  at_runner (ColdDisk.on_host (verifyDeletion rcfg q)).

Definition or_no_rows {A} (m : ME A) : ME (option A) :=
  r ← try m;
  match r with inl a => mret (Some a) | inr ErrNoRows => mret None | inr e => throw e end.

(** The device of the instance leaves the tailnet, unless the instance lives on elsewhere. *)
Definition remove_device (node : string) (device : string) : ME unit :=
  if String.eqb device node
  then env (λ e, (inl tt, put_tailnet (filter (λ d, d ≠ device) (es_tailnet e)) e))
  else mret tt.
Definition tailnet_step (inst : Instance) (moved partialImport : bool) : ME string :=
  if negb (nonempty (TailnetNodeID inst)) then mret "absent" else
  if moved || partialImport then mret "retained" else
  require has_tsClient (Errorf "tailnet API required to delete this instance's identity");;
  devices ← query (λ e, inl (es_tailnet e));
  for_each (remove_device (TailnetNodeID inst)) devices;;
  mret "removed".

Definition absentPath (path : string) : ME unit :=
  query (λ e, if path_there path (es_cold e) then inr (Errorf "cleanup path present or unreadable") else inl tt).

Definition cleanup_receipt (now : time) (inst : Instance) (requestID actor backend disposition dir backups : string) : CleanupReceipt :=
  mkCleanupReceipt 5 backend (KindName inst) (ImageName inst) requestID actor (ID inst) (Name inst) (CreatedAt inst)
    (CreatedByUser inst) (CreatedByNode inst)
    (if String.eqb (KindName inst) KindOrb then "never-minted" else "not-asserted")
    (TailnetNodeID inst) disposition None true true true true true true (TapDevice inst) (NetworkCIDR inst)
    dir (RootFSPath inst) backups true false false now.

(** Before the fence: nothing is touched yet.  Whether the instance has moved, and whether
    it is an import that was not finished; its directories. *)
Definition delete_preflight (inst : Instance) (backend : string) : ME (bool * bool * (string * string)) :=
  require ((String.eqb (KindName inst) KindOrb || String.eqb (KindName inst) KindVM) && nonempty backend)
    (Errorf "cleanup requires a supported instance and backend identity");;
  migration ← or_no_rows (in_store (GetMigration (ID inst)));
  let moved := match migration with Some m => String.eqb (mg_Phase m) "completed" | None => false end in
  require (match migration with Some m => moved || String.eqb (mg_Phase m) "aborted" | None => true end)
    (Errorf "active migration excludes deletion");;
  receipt ← or_no_rows (in_store (GetImportReceipt (ID inst)));
  let partialImport := match receipt with Some r => String.eqb (ir_Phase r) "importing" | None => false end in
  (if String.eqb (KindName inst) KindOrb then
     key ← try (in_store (EnrollmentKey (ID inst)));
     require (match key with inr ErrNoRows => negb (nonempty (TailnetNodeID inst)) | _ => false end)
       (Errorf "native orb enrollment history is not empty")
   else mret tt);;
  backups ← lift (instanceBackupsDir (Name inst));
  dir ← lift (instanceDir (Name inst));
  mret (moved, partialImport, (backups, dir)).

(** The runtime of the fenced instance ends, and is proved absent. *)
Definition delete_runtime (inst : Instance) : ME unit :=
  closeInstanceGateways inst;;
  (if nonempty (StartRequestID inst) then
     resp ← resolve_start inst;
     require (String.eqb (Outcome resp) StartAbsent || String.eqb (Outcome resp) StartRunning)
       (Errorf "runtime outcome remains uncertain")
   else mret tt);;
  stopFirecracker inst;;
  cleanupColdForRemoval inst;;
  VerifyInstanceAbsent (attempt_of inst).

(** The network, the device and the directory go. *)
Definition delete_resources (inst : Instance) (requestID dir : string) (moved partialImport : bool) : ME string :=
  call;; (* AcquirePayload *)
  outbound ← try (query outboundInterface);
  let outbound := match outbound with inl o => o | inr _ => "" end in
  at_helper (FinalizeInstanceNetwork uuid_Parse ParseCIDR6
    (mkFinalizeRequest (mkNetCleanup (ID inst) (TapDevice inst) (NetworkCIDR inst) outbound) requestID));;
  disposition ← tailnet_step inst moved partialImport;
  locally es_cold put_cold (RemoveTree dir);;
  call;; call;; (* Lstat, SyncPath of the parent *)
  absentPath dir;;
  absentPath (RootFSPath inst);;
  mret disposition.

Definition DeleteWithProof (now : nat → time) (inst : Instance) (requestID actor backend : string) : ME CleanupReceipt :=
  '(moved, partialImport, (backups, dir)) ← delete_preflight inst backend;
  in_store (BeginCleanup (now 0%nat) requestID actor inst);;
  delete_runtime inst;;
  disposition ← delete_resources inst requestID dir moved partialImport;
  let r := cleanup_receipt (now 1%nat) inst requestID actor backend disposition dir backups in
  in_store (CommitCleanup (now 2%nat) r);;
  mret r.

(** ** Delete *)

(** The request of an instance: the one that fences it, or a new one that its identity names. *)
Definition delete_request (inst : Instance) : LifecycleRequest :=
  mkLifecycleRequest (NewSHA1 ("srv-delete:" +:+ ID inst)%stdpp) (CreatedByUser inst) "delete" (Name inst)
    (json_strings [ID inst; Name inst; format_RFC3339Nano (CreatedAt inst); backendID; ImageName inst]) "" 0.

Definition stored_request (now : time) (inst : Instance) : ME LifecycleRequest :=
  r ← or_no_rows (in_store (CleanupRequest (ID inst)));
  match r with
  | Some r => mret r
  | None => _ ← in_store (AdmitLifecycleRequest now (delete_request inst)); mret (delete_request inst)
  end.

(** The incarnation that the request names. *)
Definition request_identity (inst : Instance) (request : LifecycleRequest) : result (list string) :=
  identity ← json_words (lr_Arguments request);
  if String.eqb (lr_Command request) "delete-proof" then
    match identity with
    | [command; id; name; uuid; created; backend; image] =>
        if String.eqb command (lr_Command request) && String.eqb id (lr_ID request) && String.eqb name (Name inst)
        then inl [uuid; name; created; backend; image] else inr (Errorf "cleanup request binding changed")
    | _ => inr (Errorf "cleanup request binding changed")
    end
  else inl identity.

Definition check_identity (inst : Instance) (request : LifecycleRequest) (identity : list string) : result unit :=
  match identity with
  | [id; name; created; backend; image] =>
      if negb (String.eqb (lr_Name request) (Name inst)) || negb (String.eqb id (ID inst)) ||
         negb (String.eqb name (Name inst)) || negb (String.eqb backend backendID) || negb (String.eqb image (ImageName inst))
      then inr (Errorf "cleanup incarnation or backend binding changed") else
      match time_Parse created with
      | inl t => if t =? CreatedAt inst then inl tt else inr (Errorf "cleanup creation binding changed")
      | inr _ => inr (Errorf "cleanup creation binding changed")
      end
  | _ => inr (Errorf "cleanup incarnation or backend binding changed")
  end.

Definition delete_failed (t : time) (e : error) (inst : Instance) : Instance :=
  set_UpdatedAt t (set_LastError ("delete failed: " +:+ error_text e)%stdpp inst).

Definition Delete (now : nat → time) (name : string) : ME Instance :=
  inst ← in_store (GetInstance name);
  require (negb (String.eqb (State inst) StateDeleted)) (Errorf "instance is already deleted");;
  request ← stored_request (now 0%nat) inst;
  identity ← lift (request_identity inst request);
  lift (check_identity inst request identity);;
  r ← try (DeleteWithProof (later 1 now) inst (lr_ID request) (lr_Actor request) backendID);
  current ← try (in_store (GetInstance name));
  match current, r with
  | inl inst, inl _ => mret inst
  | inl inst, inr e =>
      (if String.eqb (State inst) StateDeleting
       then _ ← try (in_store (UpdateInstance (now 4%nat) (delete_failed (now 4%nat) e inst))); mret tt
       else mret tt);;
      throw e
  | inr readErr, inl _ => throw readErr
  | inr _, inr e => throw e
  end.

(** ** The commands *)

(** [delete NAME --expect REQUEST_ID UUID CREATED_AT BACKEND_ID IMAGE], as its durable request. *)
Definition delete_proof_words (args : list string) : option (list string) :=
  match args with
  | [_; name; flag; id; uuid; created; backend; image] =>
      if String.eqb flag "--expect" then Some ["delete-proof"; id; name; uuid; created; backend; image] else None
  | _ => None
  end.

Definition cmdDeleteExpected (now : nat → time) (actor : Actor) (args : list string) : ME CleanupReceipt :=
  match delete_proof_words args with
  | Some ([_; id; name; uuid; _; _; _] as words) =>
      require (bool_decide (is_Some (uuid_Parse id))) (Errorf "invalid UUID");;
      require (bool_decide (is_Some (uuid_Parse uuid))) (Errorf "invalid UUID");;
      let request := mkLifecycleRequest id (UserLogin actor) "delete-proof" name (json_strings words) "" 0 in
      old ← or_no_rows (in_store (GetLifecycleRequest id (UserLogin actor)));
      proof ← match old with
              | None => mret None
              | Some old =>
                  require (String.eqb (lr_Command old) (lr_Command request) && String.eqb (lr_Name old) name &&
                           String.eqb (lr_Arguments old) (lr_Arguments request)) (Errorf "request binding mismatch");;
                  or_no_rows (in_store (GetCleanupReceipt id (UserLogin actor)))
              end;
      match proof with
      | Some proof => mret proof
      | None =>
          inst ← in_store (lookupVisibleInstance EqualFold cfg actor name);
          lift (checkInstanceBinding time_Parse backendID inst (drop 3 words));;
          _ ← in_store (AdmitLifecycleRequest (now 0%nat) request);
          r ← try (DeleteWithProof (later 1 now) inst id (UserLogin actor) backendID);
          match r with
          | inl proof => mret proof
          | inr e =>
              current ← try (in_store (GetLifecycleRequest id (UserLogin actor)));
              (if match current with inl q => String.eqb (lr_Phase q) "admitted" | inr _ => false end
               then _ ← in_store (FinishLifecycleRequest id (UserLogin actor) 75); mret tt
               else mret tt);;
              throw e
          end
      end
  | _ => throw (Errorf "usage: delete NAME --expect REQUEST_ID UUID CREATED_AT BACKEND_ID IMAGE")
  end.

Definition cmdCleanupReceipt (actor : Actor) (args : list string) : ME CleanupReceipt :=
  match args with
  | [_; flag; uuid] =>
      require (String.eqb flag "--instance") (Errorf "usage: cleanup-receipt REQUEST_ID | cleanup-receipt --instance UUID");;
      require (bool_decide (is_Some (uuid_Parse uuid))) (Errorf "invalid UUID");;
      r ← in_store (CleanupReceiptForInstance uuid);
      (* the owner of the deleted incarnation, not of a replacement *)
      require (isAdmin EqualFold cfg actor || EqualFold (cr_CreatedByUser r) (UserLogin actor)) ErrNoRows;;
      mret r
  | [_; id] =>
      r ← try (in_store (GetCleanupReceipt id (UserLogin actor)));
      match r with
      | inl r => mret r
      | inr e =>
          request ← try (in_store (GetLifecycleRequest id (UserLogin actor)));
          match request with
          | inl q => throw (Errorf ("cleanup request " +:+ lr_Phase q +:+ "; no committed receipt")%stdpp)
          | inr _ => throw e
          end
      end
  | _ => throw (Errorf "usage: cleanup-receipt REQUEST_ID | cleanup-receipt --instance UUID")
  end.
End deletion.
