(* ===== verification/DeletionSpec.v ===== *)
(** * What a cleanup receipt promises

    A deletion that succeeds has done all that its receipt says, in every part of the
    system at once; nothing is touched before the deletion is fenced; and a deletion of one
    incarnation never reaches another. *)
From stdpp Require Import relations.
From S2P Require Import Prelude GoStrings Paths Timestamps Model Sql StoreDB StoreRequests StoreInstances.
From S2P Require Import StoreCleanup StoreMigration StorePools StoreTrace CleanupSpec InstanceSpec PoolStore PoolCmds Identity Config Provision Lifecycle Access Operations.
From S2P Require Import Deletion RunnerState Runtime Receipts ReceiptStop RunnerTrace RunnerOps RunnerSpec.
From S2P Require Import ColdDisk ColdInv ColdOps ColdMoves ColdHandle ColdDiskSpec Network NetworkSpec StoreDemo AccessSpec ColdDemo.

#[local] Open Scope Z_scope.

(** ** The runner and the disks

    Resolving and stopping an attempt leave the disks and the journals of the cold disks as
    they are; what a guest writes as it shuts down counts as written before. *)

Definition same_disks : relation Host := λ h h',
  disks (machine h') = disks (machine h) ∧ colds h' = colds h.
#[export] Instance same_disks_preorder : PreOrder same_disks.
Proof. split; [by intros h|]. intros h1 h2 h3 [??] [??]. split; congruence. Qed.

Section stop.
Context (rcfg : ServerConfig) (guest_shutdown : string → Machine → Machine).
Hypothesis shutdown_disks : ∀ path m, disks (guest_shutdown path m) = disks m.

Lemma kept_disks_query {A} (f : Machine → result A) : within same_disks (query_machine f).
Proof. apply within_query, _. Qed.
Lemma kept_disks_machine {A} (f : Machine → result A * Machine) :
  (∀ m, disks (f m).2 = disks m) → within same_disks (env_machine f).
Proof.
  intros Hf. apply within_env; [apply _|]. intros h. specialize (Hf (machine h)).
  destruct (f (machine h)). by split.
Qed.
Lemma kept_disks_put D f r : within same_disks (env (λ h, (inl tt, put_file rcfg D f r h))).
Proof. by apply within_env; [apply _|]. Qed.
Lemma kept_disks_lock name : within same_disks (lockName rcfg name).
Proof.
  unfold lockName, syscall. repeat within_step; (apply within_env; [apply _|]); intros h; cbn; try done.
  - unfold mkdir_receipts. by case_match.
  - unfold touch_lock. by case_match.
Qed.
Lemma kept_disks_syscall : within same_disks syscall.
Proof. apply within_query, _. Qed.
#[local] Hint Resolve kept_disks_query kept_disks_put kept_disks_lock kept_disks_syscall : srv.
Lemma kept_disks_ticks pid : within same_disks (processTicks pid).
Proof. apply within_query, _. Qed.
Lemma kept_disks_boot : within same_disks hostBootID.
Proof. unfold hostBootID, query_machine. repeat within_step. Qed.
#[local] Hint Resolve kept_disks_ticks kept_disks_boot : srv.

Ltac kept_disks :=
  repeat first
    [ within_step
    | solve [auto with srv nocore]
    | apply kept_disks_machine; intros ?; cbn; repeat case_match; cbn; by auto ].

Lemma kept_disks_active name : within same_disks (activeReceipt rcfg name).
Proof.
  unfold activeReceipt. apply within_bind; [apply _|by apply within_query, _|]. intros es.
  generalize (None : option startReceipt).
  induction es as [|e es IH]; intros a; simpl; [apply within_ret, _|].
  unfold read_entry, readReceipt. repeat first [apply IH | within_step].
Qed.
#[local] Hint Resolve kept_disks_active : srv.
Lemma kept_disks_live name : within same_disks (noLiveRuntimeLocked rcfg name).
Proof. unfold noLiveRuntimeLocked, listRunningVMs. kept_disks. Qed.
Lemma kept_disks_cgroup name : within same_disks (cleanupFirecrackerCgroup name).
Proof. unfold cleanupFirecrackerCgroup, rmdir_cgroup. kept_disks. Qed.
Lemma kept_disks_both a b : within same_disks a → within same_disks b → within same_disks (both a b).
Proof. intros Ha Hb. unfold both. kept_disks. destruct a0, a1; kept_disks. Qed.
Lemma kept_disks_ignore m : within same_disks m → within same_disks (ignore_missing m).
Proof. intros Hm. unfold ignore_missing. kept_disks. Qed.
#[local] Hint Resolve kept_disks_live kept_disks_cgroup kept_disks_both kept_disks_ignore : srv.
Lemma kept_disks_runtime name : within same_disks (cleanupVMRuntime rcfg name).
Proof.
  unfold cleanupVMRuntime, cleanupJailedRuntimePaths. kept_disks.
  all: repeat apply kept_disks_both; kept_disks.
Qed.
Lemma kept_disks_write r : within same_disks (writeReceipt rcfg r).
Proof. unfold writeReceipt, syscall. kept_disks. Qed.
#[local] Hint Resolve kept_disks_runtime kept_disks_write : srv.
Lemma kept_disks_finish r : within same_disks (finishDeadReceiptLocked rcfg r).
Proof. unfold finishDeadReceiptLocked. kept_disks. Qed.
Lemma kept_disks_vacant name : within same_disks (nameVacantLocked rcfg name).
Proof. unfold nameVacantLocked, lstat_jail, lstat_socket. kept_disks. Qed.
Lemma kept_disks_validate r : within same_disks (validateRuntime rcfg r).
Proof. unfold validateRuntime. kept_disks. Qed.
#[local] Hint Resolve kept_disks_finish kept_disks_vacant kept_disks_validate : srv.
Lemma kept_disks_resolve q : within same_disks (resolveStart rcfg q).
Proof. unfold resolveStart, readReceipt, resultLocked, hostBootID, processTicks. kept_disks. Qed.
Lemma kept_disks_kill p t : within same_disks (wait_or_kill p t).
Proof. unfold wait_or_kill, waitPidfd, sigkill. kept_disks. Qed.
#[local] Hint Resolve kept_disks_kill : srv.
Lemma kept_disks_save r : within same_disks (saveRAMState rcfg r).
Proof. unfold saveRAMState, readRAMState, stampFile, syscall. kept_disks. Qed.
#[local] Hint Resolve kept_disks_save : srv.
Lemma kept_disks_live_stop r : within same_disks (stop_live guest_shutdown rcfg r).
Proof. unfold stop_live, syscall, requestGuestShutdown. kept_disks. Qed.
Lemma kept_disks_legacy name pid : within same_disks (stopLegacyLocked guest_shutdown rcfg name pid).
Proof.
  unfold stopLegacyLocked, listRunningVMs, stop_legacy_process, processTicks, syscall, requestGuestShutdown. kept_disks.
Qed.
#[local] Hint Resolve kept_disks_live_stop kept_disks_legacy : srv.
Lemma kept_disks_stop req : within same_disks (receiptStop guest_shutdown rcfg req).
Proof.
  unfold receiptStop, legacyStop, managedStop, intend_save, checkRAMStateLayout, probe_rename, stopReceiptLocked, absent_or_reason,
    readReceipt, readRAMState, hostBootID, processTicks, syscall. kept_disks.
Qed.
Lemma kept_disks_verify q : within same_disks (verifyDeletion rcfg q).
Proof. unfold verifyDeletion, readReceipt, readCold, storageIdleLocked, syscall. kept_disks. Qed.
End stop.

(** ** One part of the estate at a time *)

Section parts.
Context {R K : Type}.
#[local] Abbreviation Estate := (Estate R K).
Implicit Types e : Estate.

Lemma wp_locally {S A} get put (m : M S A) (Q : outcome A → Estate → Prop) e :
  wp m (λ o s, Q o (put s e)) (get e) → wp (locally get put m) Q e.
Proof. intros H fs. specialize (H fs). unfold locally. by destruct (m fs (get e)) as [[o s] fs']. Qed.
Lemma wp_elsewhere {S A} get put (m : M S A) (Q : outcome A → Estate → Prop) e :
  wp m (λ o s, Q (match o with Crashed => Err ErrIO | _ => o end) (put s e)) (get e) → wp (elsewhere get put m) Q e.
Proof. intros H fs. specialize (H fs). unfold elsewhere. by destruct (m fs (get e)) as [[o s] fs']. Qed.

Lemma put_db_same e : put_db (es_db e) e = e.
Proof. by destruct e. Qed.

(** A read of the store. *)
Lemma in_store_read {A} (m : M DB A) : within eq m → within eq (in_store (R := R) (K := K) m).
Proof.
  intros Hm e. apply wp_locally. eapply wp_mono; [apply Hm|]. intros o d <-. by rewrite put_db_same.
Qed.
Lemma call_post (I : Estate → Prop) e : I e → wp call (post I (λ _ e', e' = e)) e.
Proof. intros HI. apply wp_query; by split. Qed.
Lemma ask_post (I : Estate → Prop) {A} (f : Estate → result A) e :
  I e → wp (query f) (post I (λ a e', e' = e ∧ f e = inl a)) e.
Proof.
  intros HI. apply wp_query; [by split..|]. destruct (f e) eqn:Hf; cbn; split; try done. by intros ? [= <-].
Qed.

(** A request to another process. *)
Lemma remote_post {S A} get put (m : M S A) (J : S → Prop) (P : A → S → Prop) (I : Estate → Prop) (P' : A → Estate → Prop) e :
  wp m (post J P) (get e) → I e → (∀ s, J s → I (put s e)) → (∀ a s, J s → P a s → P' a (put s e)) →
  wp (call;; a ← elsewhere get put m; call;; mret a) (post I P') e.
Proof.
  intros Hm HI Hput HP. eapply post_bind; [by apply call_post|]. intros _ ? _ ->.
  apply (post_bind I _ _ P').
  { apply wp_elsewhere. eapply wp_mono; [exact Hm|]. intros o s [HJ Ho]. split; [by apply Hput|].
    intros a Ha. destruct o; try done. injection Ha as <-. by apply HP, Ho. }
  intros a e' HI' Ha. eapply post_bind; [by apply call_post|]. intros _ ? _ ->. by apply post_ret.
Qed.
End parts.

(** ** The runner's journals under the handler of the cold disks *)

Section moves.
Context {R : Type} `{!coldRemote R, !coldRemoteView R, !coldRemoteLaws R}.
Context (rcfg : ServerConfig).
Context (new_identity : World R → string → SubvolumeIdentity) (NewString : World R → string) (canonicalColdUUID : string → bool).
Implicit Types w : World R.

Definition moves w w' : Prop :=
  remote_ok (w_remote w) → remote_ok (w_remote w') ∧ jsteps rcfg (w_host w) (w_host w').
#[export] Instance moves_preorder : PreOrder moves.
Proof.
  split; [by intros w|]. intros w1 w2 w3 H1 H2 Hok. destruct (H1 Hok) as [Hok2 Hj]. destruct (H2 Hok2). split; [done|by etransitivity].
Qed.

Lemma moves_same w w' : w_remote w' = w_remote w → receipts (w_host w') = receipts (w_host w) →
  launches (w_host w') = launches (w_host w) → moves w w'.
Proof. intros Hr Hre Hl Hok. rewrite Hr. split; [done|]. by apply rtc_once, js_frame. Qed.
Lemma moves_on_host {A} (m : M Host A) : within (jsteps rcfg) m → within moves (on_host m).
Proof. intros Hm w. apply wp_on_host. eapply wp_mono; [apply Hm|]. by intros o h' Hj Hok. Qed.
Lemma moves_quiet {A} (m : M Host A) : quiet m → within moves (on_host m).
Proof. intros Hm. apply moves_on_host. intros h. eapply wp_mono; [apply Hm|]. intros o h' Hs. by apply same_jsteps. Qed.
Lemma moves_reg : within (S:=World R) moves get_reg.
Proof. by intros w fs. Qed.
Lemma moves_update_reg f : within (S:=World R) moves (update_reg f).
Proof. intros w fs. by apply moves_same. Qed.
Lemma moves_Put o p parent : within moves (Put o p parent).
Proof. intros w fs Hok. destruct (law_put o p parent w Hok fs) as (x & -> & Hs & _). split; [apply Hs|done]. Qed.
Lemma moves_Get o d parent : within moves (Get o d parent).
Proof.
  intros w fs Hok. destruct (law_get o d parent w Hok fs) as (x & dirs & ds & -> & Hs & _). split; [apply Hs|]. by apply rtc_once, js_frame.
Qed.
Lemma moves_Delete id : within moves (Delete id).
Proof. intros w fs Hok. destruct (law_delete id w Hok fs) as (x & -> & Hs & _). split; [apply Hs|done]. Qed.

Ltac moves_call :=
  repeat first
    [ within_step
    | lazymatch goal with
      | |- within _ (query _) => apply within_query, _
      | |- within _ get_reg => apply moves_reg
      | |- within _ (update_reg _) => apply moves_update_reg
      | |- within _ (Put _ _ _) => apply moves_Put
      | |- within _ (Get _ _ _) => apply moves_Get
      | |- within _ (Delete _) => apply moves_Delete
      | |- within _ (on_host _) => apply moves_quiet; solve [auto with quiet nocore | unfold quiet; apply within_query, _]
      | |- within _ (env _) => apply within_env; [apply _|intros ?; repeat case_match; by apply moves_same]
      end ].

Lemma moves_writeCold name : within moves (writeCold rcfg name).
Proof. unfold writeCold, atomicColdJSON, step. moves_call. Qed.
Lemma moves_RemoveTree p : within moves (RemoveTree (R:=R) p).
Proof. unfold RemoveTree, step. moves_call. Qed.
Lemma moves_clean name : within moves (cleanColdStages (R:=R) rcfg name).
Proof. unfold cleanColdStages, step. moves_call; apply moves_RemoveTree. Qed.
Lemma moves_Snapshot src dst ro : within moves (SnapshotSubvolume new_identity src dst ro).
Proof. unfold SnapshotSubvolume, step. moves_call. Qed.
Lemma moves_disk p : within moves (ValidateDisk (R:=R) p).
Proof. unfold ValidateDisk. moves_call. Qed.
Lemma moves_coldObject id p : within moves (coldObject (R:=R) id p).
Proof. unfold coldObject, RequireReadonly, step. moves_call; apply moves_disk. Qed.
Lemma moves_base_usable r : within moves (base_usable (R:=R) rcfg r).
Proof. unfold base_usable, RequireReadonly. moves_call; apply moves_disk. Qed.
Lemma moves_find_base p ns : within moves (find_base (R:=R) rcfg p ns).
Proof. induction ns as [|n ns IH]; cbn; unfold RequireReadonly; moves_call; try apply moves_disk; apply IH. Qed.
Lemma moves_choose_base : within moves (choose_base (R:=R) rcfg).
Proof. unfold choose_base, findColdBase. moves_call; first [apply moves_base_usable|apply moves_find_base]. Qed.
Lemma moves_put_generation s p : within (S:=World R) moves (put_generation s p).
Proof.
  unfold put_generation. apply within_bind; [apply _|apply moves_reg|]. intros r.
  apply within_bind; [apply _| |intros _; apply moves_Put]. intros w fs. by apply moves_same.
Qed.
Lemma moves_recover name : within moves (recoverLocalCold (R:=R) rcfg name).
Proof. unfold recoverLocalCold. moves_call; first [apply moves_disk|apply moves_writeCold|apply moves_clean]. Qed.
Lemma moves_offload name : within moves (offloadCold rcfg new_identity name).
Proof.
  unfold offloadCold, destination, put_base, evict, DeleteSubvolume, step. moves_call;
    first [apply moves_disk|apply moves_writeCold|apply moves_RemoveTree|apply moves_Snapshot|apply moves_coldObject
      |apply moves_choose_base|apply moves_put_generation].
Qed.
Lemma moves_hydrate name : within moves (hydrateCold rcfg new_identity name).
Proof.
  unfold hydrateCold, disk_exists, destination, receive_candidate, mkdir, rename_noreplace, step. moves_call;
    first [apply moves_disk|apply moves_writeCold|apply moves_clean|apply moves_Snapshot|apply moves_recover|apply moves_base_usable].
Qed.
Lemma moves_finish name : within moves (finishColdPurge (R:=R) rcfg name).
Proof. unfold finishColdPurge, rmdir, step. moves_call. Qed.
Lemma moves_purge name : within moves (purgeCold rcfg name).
Proof. unfold purgeCold, destination. moves_call; first [apply moves_writeCold|apply moves_clean|apply moves_finish]. Qed.
Lemma moves_act q : within moves (act rcfg new_identity q).
Proof. unfold act. moves_call; first [apply moves_offload|apply moves_recover|apply moves_hydrate|apply moves_purge]. Qed.
Lemma moves_fence name id : within moves (on_host (R:=R) (env (λ h, (inl tt, put_file rcfg name (fence_file id) (F_fence id) h)))).
Proof. apply moves_on_host, within_env; [apply _|]. intros h. apply rtc_once, js_fence. Qed.
Lemma moves_lock name : within moves (on_host (R:=R) (lockName rcfg name)).
Proof. apply moves_on_host. intros h. apply lockName_spec. Qed.
Lemma moves_handle q : within moves (handleColdDisk rcfg new_identity NewString canonicalColdUUID q).
Proof.
  unfold handleColdDisk, coldDiskLocked, legacy_stage, admission, prepare_stage, expected_disk, settle, new_generation, rmdir, step.
  moves_call; first [apply moves_lock|apply moves_fence|apply moves_recover|apply moves_purge|apply moves_finish|apply moves_act
    |apply moves_writeCold|apply moves_disk|intros w fs; by apply moves_same].
Qed.
End moves.

(** ** The deletion *)

Section spec.
Context {R K : Type} `{!coldRemote R, !coldRemoteView R, !coldRemoteLaws R, !NetTools K}.
Context (rcfg : ServerConfig) (guest_shutdown : string → Machine → Machine).
Context (new_identity : World R → string → SubvolumeIdentity) (NewString : World R → string) (canonicalColdUUID : string → bool).
Context (uuid_Parse : string → option string) (ParseCIDR6 : string → bool).
Context (NewSHA1 : string → string) (json_strings : list string → string) (json_words : string → result (list string)).
Context (time_Parse : string → result time) (outboundInterface : Estate R K → result string).
Context (EqualFold : string → string → bool) (cfg : Config) (backendID : string) (has_tsClient : bool) (managers : list string).
Implicit Types e : Estate R K.
Implicit Types w : World R.

#[local] Abbreviation coldMarker := (Deletion.coldMarker cfg).
#[local] Abbreviation runColdDisk := (runColdDisk rcfg new_identity NewString canonicalColdUUID cfg).
#[local] Abbreviation cleanupColdForRemoval := (cleanupColdForRemoval rcfg new_identity NewString canonicalColdUUID cfg).
#[local] Abbreviation delete_runtime := (delete_runtime rcfg guest_shutdown new_identity NewString canonicalColdUUID cfg managers).
#[local] Abbreviation delete_resources := (delete_resources uuid_Parse ParseCIDR6 outboundInterface has_tsClient).
#[local] Abbreviation DeleteWithProof := (DeleteWithProof rcfg guest_shutdown new_identity NewString canonicalColdUUID uuid_Parse ParseCIDR6
  outboundInterface cfg has_tsClient managers).

(** *** Before the fence *)

Lemma or_no_rows_read {A} (m : M (Estate R K) A) : within eq m → within eq (or_no_rows m).
Proof. intros Hm. unfold or_no_rows. repeat first [done|within_step]. Qed.
Lemma store_reads {A} (m : M DB A) (f : DB → result A) : m = query f → within eq (in_store (R:=R) (K:=K) m).
Proof. intros ->. apply in_store_read, within_query, _. Qed.
Lemma read_select {D T A} `{Countable T} (t : Table D T A) p : within eq (SELECT t p).
Proof. apply within_query, _. Qed.

Lemma preflight_reads inst backend : within eq (delete_preflight (R:=R) (K:=K) cfg inst backend).
Proof.
  unfold delete_preflight, GetMigration, GetImportReceipt, EnrollmentKey.
  repeat first [apply or_no_rows_read|apply in_store_read|apply read_select|within_step].
Qed.

(** *** The runner's part *)

Section runner.
Context (inst : Instance).
Hypothesis layout : layout_ok rcfg (Name inst).
Hypothesis jailer : JailerBaseDir rcfg ≠ "".
Hypothesis shutdown_disks : ∀ path m, disks (guest_shutdown path m) = disks m.

(** What the runner always keeps: the data and the uploads are accounted for, and its
    receipts are in order. *)
Record runner_ok w : Prop := {
  ro_inv : inv rcfg (Name inst) (ID inst) w;
  ro_journals : journal_ok rcfg (w_host w);
}.
(** What the proof of absence finds. *)
Definition sealed w : Prop := proved_absent rcfg (attempt_of inst) (w_host w).

Lemma host_call {A} (m : M Host A) (P : A → Host → Prop) w :
  within same_disks m → wp m (λ o h, jsteps rcfg (w_host w) h ∧ ∀ a, o = Ok a → P a h) (w_host w) → runner_ok w →
  wp (on_host m) (post runner_ok (λ a w', P a (w_host w'))) w.
Proof.
  intros Hd Hj [Hinv Hjo]. apply wp_on_host. eapply wp_mono; [apply wp_and; [apply Hd|apply Hj]|].
  intros o h [[Hdisks Hcolds] [Hjs Ho]]. split; [|done]. constructor.
  - apply (inv_calm rcfg (Name inst) (ID inst) w); [|done]. apply calm_host. split; [done|]. split; [done|].
    intros Hf. by apply (jsteps_fenced rcfg _ _ _ _ jailer Hf Hjs).
  - by apply (jsteps_ok rcfg _ _ Hjs).
Qed.

Lemma runner_post {A} (m : M (World R) A) (P : A → World R → Prop) (Q : A → Estate R K → Prop) e :
  wp m (post runner_ok P) (es_cold e) → runner_ok (es_cold e) →
  (∀ a w, runner_ok w → P a w → Q a (put_cold w e)) →
  wp (at_runner m) (post (λ e', runner_ok (es_cold e') ∧ e' = put_cold (es_cold e') e) Q) e.
Proof.
  intros Hm Hok HQ. unfold at_runner. eapply remote_post; [exact Hm|split; [done|by destruct e]|by intros w Hw|done].
Qed.

Lemma delete_resolve_post e : runner_ok (es_cold e) →
  wp (resolve_start rcfg inst) (post (λ e', runner_ok (es_cold e') ∧ e' = put_cold (es_cold e') e) (λ _ _, True)) e.
Proof.
  intros Hok. unfold resolve_start.
  assert (HI : runner_ok (es_cold e) ∧ e = put_cold (es_cold e) e) by (split; [done|by destruct e]).
  eapply (post_bind _ _ _ (λ _ e', e' = e)); [apply wp_lift; destruct (Validate _); by split|]. intros _ ? _ ->.
  eapply (post_bind _ _ _ (λ _ _, True)).
  - eapply runner_post; [|done|done]. apply (host_call _ (λ _ _, True)); [apply kept_disks_resolve| |done].
    eapply wp_mono; [apply resolveStart_spec|]. by intros o h [Hj _].
  - intros resp e' HI' _. eapply (post_bind _ _ _ (λ _ e1, e1 = e')); [apply wp_lift; destruct (validateStartResponse _); by split|].
    intros _ ? _ ->. by apply post_ret.
Qed.

Lemma delete_stop_post e : runner_ok (es_cold e) →
  wp (stopFirecracker rcfg guest_shutdown inst) (post (λ e', runner_ok (es_cold e') ∧ e' = put_cold (es_cold e') e) (λ _ _, True)) e.
Proof.
  intros Hok. unfold stopFirecracker. cbv zeta.
  assert (HI : runner_ok (es_cold e) ∧ e = put_cold (es_cold e) e) by (split; [done|by destruct e]).
  eapply (post_bind _ _ _ (λ _ e', e' = e)); [apply wp_lift; destruct (validate_stop _); by split|]. intros _ ? _ ->.
  eapply runner_post; [|done|done]. apply (host_call _ (λ _ _, True)); [by apply kept_disks_stop| |done].
  eapply wp_mono; [apply receiptStop_spec|]. by intros o h [Hj _].
Qed.

Lemma verify_post e : runner_ok (es_cold e) →
  wp (VerifyInstanceAbsent rcfg (attempt_of inst))
    (post (λ e', runner_ok (es_cold e') ∧ e' = put_cold (es_cold e') e) (λ _ e', sealed (es_cold e'))) e.
Proof.
  intros Hok. unfold VerifyInstanceAbsent. eapply runner_post; [|done|].
  - apply (host_call _ (λ _ h, proved_absent rcfg (attempt_of inst) h)); [apply kept_disks_verify| |done].
    eapply wp_mono; [apply (verifyDeletion_spec rcfg (attempt_of inst))|]. intros o h [Hj Ho]. split; [done|]. intros [] ->. by apply Ho.
  - by intros [] w _.
Qed.

Lemma cold_post e q : cq_Name q = Name inst → cq_InstanceID q = ID inst → runner_ok (es_cold e) →
  wp (at_runner (handleColdDisk rcfg new_identity NewString canonicalColdUUID q))
    (post (λ e', runner_ok (es_cold e') ∧ e' = put_cold (es_cold e') e) (λ _ _, True)) e.
Proof.
  intros Hn Hi Hok. eapply (runner_post _ (λ _ _, True)); [|done|done]. destruct Hok as [Hinv Hjo].
  pose proof (handle_post rcfg q) as Hp. rewrite Hn, Hi in Hp.
  eapply wp_mono; [apply wp_and; [apply (Hp layout new_identity NewString canonicalColdUUID _ Hinv)|apply moves_handle]|].
  intros o w [[Hw _] Hm]. split; [|done]. destruct (Hm (inv_remote _ _ _ _ Hinv)) as [_ Hj].
  constructor; [done|]. by apply (jsteps_ok rcfg _ _ Hj).
Qed.

Lemma marker_reads : within (S := Estate R K) eq (coldMarker inst).
Proof. unfold Deletion.coldMarker, call. repeat within_step. Qed.

(** The whole runtime's part: what it may touch. *)
Definition runtime_only e e' : Prop :=
  es_db e' = es_db e ∧ es_net e' = es_net e ∧ es_tailnet e' = es_tailnet e ∧ es_gateways e' ⊆ es_gateways e.
#[local] Instance runtime_only_preorder : PreOrder runtime_only.
Proof.
  split; [by intros e|]. intros e1 e2 e3 (?&?&?&?) (?&?&?&?). repeat split; try congruence. by etransitivity.
Qed.
Definition during e e' : Prop := runner_ok (es_cold e') ∧ runtime_only e e'.

Lemma during_refl e : runner_ok (es_cold e) → during e e.
Proof. by intros. Qed.
Lemma during_bind {A B} (m : M (Estate R K) A) (k : A → M (Estate R K) B) (P : A → Estate R K → Prop) (Q : B → Estate R K → Prop) e :
  wp m (post (during e) P) e → (∀ a e1, during e e1 → P a e1 → wp (k a) (post (during e1) Q) e1) →
  wp (m ≫= k) (post (during e) Q) e.
Proof.
  intros Hm Hk. eapply post_bind; [exact Hm|]. intros a e1 [Hok Hrt] HP. eapply wp_mono; [by apply Hk|].
  intros o e2 [[Hok2 Hrt2] Ho]. split; [|done]. split; [done|by transitivity e1].
Qed.
Lemma during_runner {A} (m : M (Estate R K) A) (P : A → Estate R K → Prop) e :
  wp m (post (λ e', runner_ok (es_cold e') ∧ e' = put_cold (es_cold e') e) P) e →
  wp m (post (during e) (λ a e', P a e' ∧ es_gateways e' = es_gateways e)) e.
Proof.
  intros Hm. eapply wp_mono; [exact Hm|]. intros o e' [[Hok Heq] Ho].
  assert (Hg : es_gateways e' = es_gateways e) by (by rewrite Heq).
  split; [|by intros a Ha; split; [apply Ho|]]. split; [done|]. rewrite Heq. done.
Qed.
Lemma during_reads {A} (m : M (Estate R K) A) e : runner_ok (es_cold e) → within eq m → wp m (post (during e) (λ _ e', e' = e)) e.
Proof. intros Hok Hm. eapply wp_mono; [apply Hm|]. intros o e' <-. by split. Qed.

Definition gateways_closed e : Prop := ∀ m, m ∈ managers → (m, Name inst) ∉ es_gateways e.

Definition closes e e' : Prop := e' = put_gateways (es_gateways e') e ∧ es_gateways e' ⊆ es_gateways e.
#[local] Instance closes_preorder : PreOrder closes.
Proof.
  split; [by intros []|]. intros e1 e2 e3 [H1 S1] [H2 S2]. split; [|by etransitivity]. rewrite H2 at 1. by rewrite H1.
Qed.

Lemma gateways_post e : runner_ok (es_cold e) →
  wp (closeInstanceGateways managers inst) (post (during e) (λ _ e', gateways_closed e')) e.
Proof.
  intros Hok. unfold closeInstanceGateways.
  eapply during_bind; [by apply during_reads, within_query, _|]. intros _ ? _ ->.
  eapply (during_bind _ _ (λ _ e', gateways_closed e')).
  - eapply wp_mono; [apply (wp_for_each_all _ closes (λ m e, (m, Name inst) ∉ es_gateways e))|].
    + intros m e1 e2 [_ Hs] Hn Hin. by apply Hn, Hs.
    + intros m e1 _ _. unfold close_gateway. apply wp_bind, wp_query; [by split..|]. cbn [of_result].
      apply wp_env; [by split|by split| |]; cbn; (split; [split; [done|apply subseteq_difference_l, reflexivity]|]);
        [intros _ [_ Hn]%elem_of_difference; by apply Hn, elem_of_singleton|done].
    + intros o e' [[Heq Hs] Ho]. split; [split; [by rewrite Heq|by rewrite Heq]|]. intros [] ->. intros m Hm. by apply Ho.
  - intros _ e1 Hd Hc. eapply wp_mono; [apply call_post; by apply during_refl, Hd|]. intros o e2 [HI Ho].
    split; [done|]. intros [] ->. by rewrite (Ho tt eq_refl).
Qed.

Lemma cleanup_cold_post e : runner_ok (es_cold e) →
  wp (cleanupColdForRemoval inst) (post (during e) (λ _ e', es_gateways e' = es_gateways e)) e.
Proof.
  intros Hok. unfold Deletion.cleanupColdForRemoval.
  eapply during_bind; [by apply during_reads, marker_reads|]. intros _ ? _ ->.
  eapply (during_bind _ _ (λ _ e', es_gateways e' = es_gateways e)).
  - unfold Deletion.runColdDisk, client_ColdDisk. change (String.eqb "delete" "offload") with false. cbv iota.
    apply wp_bind, wp_ret. cbv beta iota.
    eapply (during_bind _ _ (λ _ e', es_gateways e' = es_gateways e)).
    + eapply wp_mono; [apply during_runner; by apply cold_post|]. intros o e' [Hd Ho]. split; [done|]. intros a Ha. by apply (Ho a Ha).
    + intros status e1 [Hok1 _] Hg. eapply during_bind; [by apply during_reads, within_require, _|].
      intros _ ? _ ->. by apply post_ret; [apply during_refl|].
  - intros status e1 [Hok1 _] Hg. eapply during_bind; [by apply during_reads, within_require, _|]. intros _ ? _ ->.
    eapply during_bind; [by apply during_reads, marker_reads|]. intros m ? _ ->.
    eapply wp_mono; [by apply during_reads, within_require, _|]. intros o e' [Hd Ho]. split; [done|].
    intros [] ->. by rewrite (Ho tt eq_refl).
Qed.

(** The runtime of the fenced incarnation has ended, whatever it took. *)
Lemma delete_runtime_post e : runner_ok (es_cold e) →
  wp (delete_runtime inst) (post (during e) (λ _ e', sealed (es_cold e') ∧ gateways_closed e')) e.
Proof.
  intros Hok. unfold Deletion.delete_runtime.
  eapply during_bind; [by apply gateways_post|]. intros _ e1 [Hok1 _] Hg1.
  assert (Hkeep : ∀ e', es_gateways e' = es_gateways e1 → gateways_closed e') by (unfold gateways_closed; intros e' ->; done).
  eapply (during_bind _ _ (λ _ e', es_gateways e' = es_gateways e1)).
  { destruct (nonempty _); [|by apply post_ret; [apply during_refl|]].
    eapply during_bind; [apply during_runner; by apply delete_resolve_post|]. intros resp e2 [Hok2 _] [_ Hg].
    eapply wp_mono; [by apply during_reads, within_require, _|]. intros o e' [Hd Ho]. split; [done|]. intros [] ->. by rewrite (Ho tt eq_refl). }
  intros _ e2 [Hok2 _] Hg2. eapply during_bind; [apply during_runner; by apply delete_stop_post|]. intros _ e3 [Hok3 _] [_ Hg3].
  eapply during_bind; [by apply cleanup_cold_post|]. intros _ e4 [Hok4 _] Hg4.
  eapply wp_mono; [apply during_runner; by apply verify_post|]. intros o e5 [Hd Ho]. split; [done|]. intros a Ha.
  destruct (Ho a Ha) as [Hs Hg5]. split; [done|]. apply Hkeep. congruence.
Qed.
End runner.

(** *** The network, the device and the files *)

Definition files_only w w' : Prop :=
  receipts (w_host w') = receipts (w_host w) ∧ colds (w_host w') = colds (w_host w) ∧
  launches (w_host w') = launches (w_host w) ∧ w_remote w' = w_remote w ∧ w_tried w' = w_tried w ∧
  sockets (machine (w_host w')) = sockets (machine (w_host w)) ∧ jails (machine (w_host w')) = jails (machine (w_host w)) ∧
  cgroups (machine (w_host w')) = cgroups (machine (w_host w)).
#[local] Instance files_only_preorder : PreOrder files_only.
Proof. split; [by intros w|]. intros w1 w2 w3 (?&?&?&?&?&?&?&?) (?&?&?&?&?&?&?&?). repeat split; congruence. Qed.

Lemma RemoveTree_files path : within files_only (RemoveTree (R:=R) path).
Proof.
  unfold RemoveTree, step. repeat first [within_step|apply within_query; apply _|apply within_env; [apply _|by intros w]].
Qed.

Section resources.
Context (inst : Instance) (requestID dir : string).

Definition network_request (outbound : string) : FinalizeRequest :=
  mkFinalizeRequest (mkNetCleanup (ID inst) (TapDevice inst) (NetworkCIDR inst) outbound) requestID.
Definition network_gone e : Prop := ∃ v, NetworkSpec.finalized (ID inst) (mkNetworkDeletion (network_request v) true) (es_net e).
Definition device_gone (disposition : string) e : Prop :=
  (disposition = "removed" → TailnetNodeID inst ∉ es_tailnet e) ∧ (disposition = "absent" → TailnetNodeID inst = "").

Definition resources_only e e' : Prop :=
  es_db e' = es_db e ∧ es_gateways e' = es_gateways e ∧ files_only (es_cold e) (es_cold e').

Lemma finalize_post (I : Estate R K → Prop) o e : I e → (∀ s, I (put_net s e)) →
  wp (at_helper (FinalizeInstanceNetwork uuid_Parse ParseCIDR6 (network_request o))) (post I (λ _ e', network_gone e')) e.
Proof.
  intros HI Hput. unfold at_helper. eapply (remote_post _ _ _ (λ _, True) (λ _ s, ∃ v, NetworkSpec.finalized (ID inst) (mkNetworkDeletion (network_request v) true) s));
    [|done|by intros|by intros].
  unfold FinalizeInstanceNetwork, client_post. apply wp_bind, wp_lift. destruct (validate_finalize _ _ _); [|by split].
  cbn [of_result]. apply wp_bind, wp_query; [by split..|]. cbn [of_result]. apply wp_bind.
  eapply wp_mono; [apply finalize_succeeds|]. intros [[]|err|] s Ho; [|by split..].
  destruct (Ho eq_refl) as (v & Hv & _). apply wp_query; [by split..|]. cbn. split; [done|]. intros _ _. by exists v.
Qed.

Definition unlisted e e' : Prop := e' = put_tailnet (es_tailnet e') e ∧ ∀ d, d ∈ es_tailnet e' → d ∈ es_tailnet e.
#[local] Instance unlisted_preorder : PreOrder unlisted.
Proof.
  split; [by intros []|]. intros e1 e2 e3 [H1 S1] [H2 S2]. split; [|by auto]. rewrite H2 at 1. by rewrite H1.
Qed.

Lemma tailnet_post moved partial e :
  wp (tailnet_step has_tsClient inst moved partial) (post (unlisted e) (λ d e', device_gone d e')) e.
Proof.
  unfold tailnet_step. destruct (nonempty (TailnetNodeID inst)) eqn:Hnode; cbn [negb].
  2: { apply post_ret; [done|]. split; [done|]. intros _. by destruct (TailnetNodeID inst). }
  destruct (moved || partial); [by apply post_ret|].
  eapply post_bind; [by apply (post_require (unlisted e))|]. intros _ ? _ [-> _].
  eapply post_bind; [by apply ask_post|]. intros devices ? _ [-> [= <-]].
  eapply (post_bind _ _ _ (λ _ e', TailnetNodeID inst ∉ es_tailnet e')).
  - eapply wp_mono; [apply (wp_for_each_all _ unlisted (λ d e', d = TailnetNodeID inst → TailnetNodeID inst ∉ es_tailnet e'))|].
    + intros d e1 e2 [_ Hs] Hn Hd Hin. by apply (Hn Hd), Hs.
    + intros d e1 _ _. unfold remove_device. destruct (String.eqb_spec d (TailnetNodeID inst)) as [->|Hne]; [|by apply wp_ret].
      assert (Hf : TailnetNodeID inst ∉ filter (λ d, d ≠ TailnetNodeID inst) (es_tailnet e1)) by (by intros [? _]%list_elem_of_filter).
      apply wp_env; [by split|by split| |]; cbn; (split; [split; [done|cbn; intros d [_ ?]%list_elem_of_filter; done]|done]).
    + intros o e' [Hu Ho]. split; [done|]. intros [] -> Hin. destruct Hu as [_ Hs]. by apply (Ho eq_refl _ (Hs _ Hin) eq_refl).
  - intros _ e' HI Hn. by apply post_ret.
Qed.

Lemma delete_resources_post moved partial e :
  wp (delete_resources inst requestID dir moved partial) (post (resources_only e) (λ d e',
    network_gone e' ∧ device_gone d e' ∧ path_there dir (es_cold e') = false ∧ path_there (RootFSPath inst) (es_cold e') = false)) e.
Proof.
  unfold Deletion.delete_resources. assert (HI : resources_only e e) by done.
  eapply post_bind; [by apply call_post|]. intros _ ? _ ->.
  eapply (post_bind _ _ _ (λ _ e', e' = e)); [apply wp_try, wp_query; [by split..|]; by destruct (outboundInterface e)|]. intros ob ? _ ->.
  eapply (post_bind _ _ _ (λ _ e', network_gone e')); [by apply finalize_post|]. intros _ e1 HI1 Hn1.
  eapply (post_bind _ _ _ (λ d e', network_gone e' ∧ device_gone d e')).
  { eapply wp_mono; [apply tailnet_post|]. intros o e' [[Heq _] Ho]. split; [by rewrite Heq|]. intros d Hd. split; [by rewrite Heq|by apply Ho]. }
  intros d e2 HI2 [Hn2 Hd2].
  eapply (post_bind _ _ _ (λ _ e', network_gone e' ∧ device_gone d e')).
  { apply wp_locally. eapply wp_mono; [apply RemoveTree_files|]. intros o w Hw. split; [|done].
    destruct HI2 as (? & ? & ?). split; [done|]. split; [done|]. by transitivity (es_cold e2). }
  intros _ e3 HI3 [Hn3 Hd3]. do 2 (eapply post_bind; [by apply call_post|]; intros _ ? _ ->).
  unfold absentPath. eapply post_bind; [by apply ask_post|]. intros [] ? _ [-> Hp1].
  eapply post_bind; [by apply ask_post|]. intros [] ? _ [-> Hp2]. apply post_ret; [done|].
  destruct (path_there dir _); [done|]. by destruct (path_there (RootFSPath inst) _).
Qed.
End resources.

(** *** The receipt *)

(** What a receipt says, of every part of the estate. *)
Record accomplished (marshal : StartRequest → string) (start : StartRequest → M Host StartResponse)
    (inst : Instance) (requestID actor : string) (r : CleanupReceipt) e : Prop := {
  ac_names : cr_InstanceID r = ID inst ∧ cr_Name r = Name inst ∧ cr_RequestID r = requestID ∧ cr_Actor r = actor;
  ac_store : cleanup_receipts (es_db e) !! requestID = Some (mkReceiptRow requestID actor r) ∧
    (∃ row, instances (es_db e) !! ID inst = Some row ∧ row_State row = StateDeleted) ∧
    (∃ q, lifecycle_requests (es_db e) !! requestID = Some q ∧ lr_Phase (rq q) = "done") ∧
    cleanup_fences (es_db e) !! ID inst = None;
  (** The last attempt of the incarnation is closed, the runtime, its jail and its cgroup
      are absent, and it is never launched again. *)
  ac_runtime : ((StartRequestID inst ≠ "" → closed_at rcfg (attempt_of inst) (w_host (es_cold e))) ∧
      vacant rcfg (Name inst) (machine (w_host (es_cold e)))) ∧
    ∀ h, after rcfg marshal start guest_shutdown (w_host (es_cold e)) h →
      ∀ q, q_Name q = Name inst → q_InstanceID q = ID inst → q ∈ launches h → q ∈ launches (w_host (es_cold e));
  (** Every copy ever sent to the cold store is gone for good. *)
  ac_copies i : i ∈ w_tried (es_cold e) → settled (es_cold e) i;
  ac_network : network_gone inst requestID e;
  ac_gateways m : m ∈ managers → (m, Name inst) ∉ es_gateways e;
  ac_device : device_gone inst (cr_TailnetDisposition r) e;
  ac_files : path_there (cr_InstanceDir r) (es_cold e) = false ∧ path_there (cr_RootFSPath r) (es_cold e) = false;
}.

Lemma sealed_files inst w w' : files_only w w' → sealed inst w → sealed inst w'.
Proof.
  intros (Hr & Hc & _ & _ & _ & Hso & Hja & Hcg) [Hf Hcl Hs Hv [V1 V2 V3]].
  assert (Hl : ∀ n f, lookup_file rcfg n f (w_host w') = lookup_file rcfg n f (w_host w)) by (intros; unfold lookup_file, dir_of; by rewrite Hr).
  constructor; [by rewrite Hl| |by rewrite Hc| |constructor; by rewrite ?Hso, ?Hja, ?Hcg].
  - intros Hid. destruct (Hcl Hid) as (r & Hfile & Hst). exists r. unfold file_of in *. by rewrite Hl.
  - intros f r Hfr. rewrite Hl in Hfr. by apply Hv.
Qed.

Lemma sealed_final inst marshal start w w' : JailerBaseDir rcfg ≠ "" → (∀ req, quiet (start req)) → runner_ok inst w → sealed inst w →
  files_only w w' →
  (((StartRequestID inst ≠ "" → closed_at rcfg (attempt_of inst) (w_host w')) ∧
    vacant rcfg (Name inst) (machine (w_host w'))) ∧
    ∀ h, after rcfg marshal start guest_shutdown (w_host w') h →
      ∀ q, q_Name q = Name inst → q_InstanceID q = ID inst → q ∈ launches h → q ∈ launches (w_host w')) ∧
  ∀ i, i ∈ w_tried w' → settled w' i.
Proof.
  intros Hdir Hq [Hinv Hjo] Hs Hfiles. pose proof (sealed_files _ _ _ Hfiles Hs) as Hs'.
  pose proof Hfiles as (Hr & _ & Hl & Hre & Ht & _). split; [split; [split; [apply Hs'|apply (pa_vacant _ _ _ Hs')]|]|].
  - intros h Ha. assert (Hjo' : journal_ok rcfg (w_host w')) by (apply (jsteps_ok rcfg (w_host w)); [by apply rtc_once, js_frame|done]).
    destruct (after_jsteps rcfg marshal start guest_shutdown Hq _ _ Hjo' Ha) as [Hj _].
    apply (jsteps_fenced rcfg _ _ _ _ Hdir); [|done]. exists (F_fence (ID inst)). apply Hs'.
  - destruct Hinv as [_ _ Htr]. unfold journal_tracks, journal in Htr. rewrite (pa_settled _ _ _ Hs : colds _ !! receiptDir rcfg (Name inst) = None) in Htr.
    intros i. rewrite Ht. unfold settled. rewrite Hre. apply Htr.
Qed.

Lemma committed_row now r d d' : committed now r d d' →
  cleanup_receipts d' !! cr_RequestID r = Some (mkReceiptRow (cr_RequestID r) (cr_Actor r) r) ∧
  (∃ row, instances d' !! cr_InstanceID r = Some row ∧ row_State row = StateDeleted) ∧
  (∃ q, lifecycle_requests d' !! cr_RequestID r = Some q ∧ lr_Phase (rq q) = "done") ∧
  cleanup_fences d' !! cr_InstanceID r = None.
Proof.
  intros (q & row & f & _ & _ & _ & _ & _ & _ & _ & ->). unfold commit_effect. cbn. split; [apply lookup_insert_eq|].
  split; [eexists; split; [apply lookup_insert_eq|by destruct row as [[] ?]]|]. split; [eexists; split; [apply lookup_insert_eq|by destruct q as [[]]]|apply lookup_delete_eq].
Qed.

Lemma begin_cleanup_kept now requestID actor inst e : wf (es_db e) →
  wp (in_store (R:=R) (K:=K) (BeginCleanup now requestID actor inst)) (λ o e', e' = put_db (es_db e') e ∧ wf (es_db e') ∧
    (o = Ok tt → begun now requestID actor inst (es_db e) (es_db e')) ∧
    (o ≠ Ok tt → es_db e' = es_db e ∨ begun now requestID actor inst (es_db e) (es_db e'))) e.
Proof.
  intros Hwf. apply wp_locally.
  assert (Hop : store_op _ (BeginCleanup now requestID actor inst)) by constructor.
  eapply wp_mono; [apply wp_and; [by apply begin_cleanup_atomic|by apply (op_wf _ _ Hop)]|].
  intros o d [Hb Hwf']. split; [done|]. split; [by apply Hwf'|]. destruct o as [[]|err|]; cbn; (split; [try done|]); intros ?; auto.
Qed.

(** C3. A deletion that succeeds has done what its receipt says, whatever failed on the way
    and in whichever attempt: the store holds the receipt, the tombstone and the finished
    request and has released the fence; the last attempt of the incarnation is closed, no
    socket, jail or cgroup of its name is left, and the runner never launches it again; no
    copy of its disk is left at the cold store; its network is finally deleted; no gateway
    listens for it; its device is gone from the tailnet when the receipt says so; and its
    directory and root file system are gone.  (A guest that is
    asked to shut down is taken to leave the list of disks of the host as it is.) *)
Theorem cleanup_receipt_true marshal start now inst requestID actor backend r fs e :
  layout_ok rcfg (Name inst) → JailerBaseDir rcfg ≠ "" → (∀ path m, disks (guest_shutdown path m) = disks m) →
  (∀ req, quiet (start req)) →
  wf (es_db e) → runner_ok inst (es_cold e) →
  (DeleteWithProof now inst requestID actor backend fs e).1.1 = Ok r →
  accomplished marshal start inst requestID actor r (DeleteWithProof now inst requestID actor backend fs e).1.2.
Proof.
  intros Hlayout Hdir Hshut Hq Hwf Hok Hres.
  enough (Hwp : wp (DeleteWithProof now inst requestID actor backend) (post (λ _, True) (accomplished marshal start inst requestID actor)) e)
    by (by destruct (Hwp fs) as [_ Ho]; apply Ho).
  clear fs r Hres. unfold Deletion.DeleteWithProof.
  eapply (post_bind _ _ _ (λ _ e', e' = e)); [eapply wp_mono; [apply preflight_reads|]; by intros o e' <-|].
  intros [[moved partial] [backups dir]] ? _ ->.
  eapply (post_bind _ _ _ (λ _ e', wf (es_db e') ∧ es_cold e' = es_cold e)).
  { eapply wp_mono; [by apply begin_cleanup_kept|]. intros o e' (Heq & Hwf' & _). split; [done|]. intros _ _. by rewrite Heq. }
  intros _ e1 _ [Hwf1 Hc1]. rewrite <- Hc1 in Hok.
  eapply (post_bind _ _ _ (λ _ e', during inst e1 e' ∧ sealed inst (es_cold e') ∧ gateways_closed inst e')).
  { eapply wp_mono; [by apply delete_runtime_post|]. intros o e' [Hd Ho]. split; [done|]. intros [] Ht. split; [done|]. by apply (Ho tt Ht). }
  intros _ e2 _ ([Hok2 (Hdb2 & _)] & Hsealed & Hgate).
  eapply (post_bind _ _ _ (λ d e', resources_only e2 e' ∧ network_gone inst requestID e' ∧ device_gone inst d e' ∧
    path_there dir (es_cold e') = false ∧ path_there (RootFSPath inst) (es_cold e') = false)).
  { eapply wp_mono; [apply delete_resources_post|]. intros o e' [Hr Ho]. split; [done|]. intros d Hd. split; [done|]. by apply (Ho d Hd). }
  intros disposition e3 _ ((Hdb3 & Hg3 & Hf3) & Hnet & Hdev & Hp1 & Hp2). cbv zeta.
  set (r := cleanup_receipt _ _ _ _ _ _ _ _).
  eapply (post_bind _ _ _ (λ _ e', e' = put_db (es_db e') e3 ∧ committed (now 2%nat) r (es_db e3) (es_db e'))).
  { apply wp_locally. eapply wp_mono; [apply CommitCleanup_spec; by rewrite Hdb3, Hdb2|]. intros o d Hd. split; [done|]. intros [] ->. cbn in Hd. destruct Hd as [_ Hd]. split; [done|exact Hd]. }
  intros _ e4 _ [-> Hcom]. apply post_ret; [done|]. apply committed_row in Hcom.
  destruct (sealed_final inst marshal start _ _ Hdir Hq Hok2 Hsealed Hf3) as [Hrun Hcopies].
  constructor; try done. unfold gateways_closed in Hgate. cbn. by rewrite Hg3.
Qed.

(** *** Nothing before the fence *)

Definition fence_held (inst : Instance) (requestID : string) (d : DB) : Prop :=
  (∃ f, cleanup_fences d !! ID inst = Some f ∧ fc_request_id f = requestID) ∧
  ∃ row, instances d !! ID inst = Some row ∧ row_State row = StateDeleting.

Lemma begun_held now requestID actor inst d d' : begun now requestID actor inst d d' → fence_held inst requestID d'.
Proof.
  intros (fresh & q & row & _ & _ & _ & _ & _ & _ & Hcase & ->). unfold begin_effect. split.
  - destruct fresh; [|by destruct Hcase as [(f & Hf & Hid) _]; exists f].
    exists (mkFenceRow (ID inst) requestID). split; [|done]. apply lookup_insert_eq.
  - exists (stopped_update (λ i, set_State StateDeleting (set_UpdatedAt (timeString now now) i)) row).
    split; [destruct fresh; apply lookup_insert_eq|by destruct row as [[] ?]].
Qed.

(** Everything but the store is left to the other parts. *)
Definition same_db e e' : Prop := es_db e' = es_db e.
#[local] Instance same_db_preorder : PreOrder same_db.
Proof. split; [by intros e|]. unfold same_db. intros e1 e2 e3 ? ?. congruence. Qed.
Lemma same_db_elsewhere {S A} get put (m : M S A) : (∀ s e, es_db (put s e) = es_db e) → within same_db (elsewhere get put m).
Proof. intros Hp e. apply wp_elsewhere. intros fs. apply Hp. Qed.
Lemma same_db_locally {S A} get put (m : M S A) : (∀ s e, es_db (put s e) = es_db e) → within same_db (locally get put m).
Proof. intros Hp e. apply wp_locally. intros fs. apply Hp. Qed.

Ltac same_db :=
  unfold at_runner, at_helper, call; repeat first
    [ within_step
    | apply same_db_elsewhere; done
    | apply same_db_locally; done
    | apply within_env; [apply _|done] ].

Lemma runtime_same_db inst : within same_db (delete_runtime inst).
Proof.
  unfold Deletion.delete_runtime, closeInstanceGateways, close_gateway, resolve_start, stopFirecracker, VerifyInstanceAbsent,
    Deletion.cleanupColdForRemoval, Deletion.coldMarker, Deletion.runColdDisk, client_ColdDisk. same_db.
Qed.
Lemma resources_same_db inst requestID dir moved partial : within same_db (delete_resources inst requestID dir moved partial).
Proof. unfold Deletion.delete_resources, tailnet_step, remove_device, absentPath. same_db. Qed.

(** C4. Wherever a deletion stops, by an error or a crash: either it has touched nothing but the
    store, or the store holds the fence of its request over the instance, now deleting, which
    keeps every start and every other deletion out, or the receipt is filed. *)
Theorem fenced_before_touched now inst requestID actor backend fs e :
  wf (es_db e) →
  let e' := (DeleteWithProof now inst requestID actor backend fs e).1.2 in
  e' = put_db (es_db e') e ∨ fence_held inst requestID (es_db e') ∨ is_Some (cleanup_receipts (es_db e') !! requestID).
Proof.
  intros Hwf. set (Q := λ e', e' = put_db (es_db e') e ∨ fence_held inst requestID (es_db e') ∨ is_Some (cleanup_receipts (es_db e') !! requestID)).
  enough (Hwp : wp (DeleteWithProof now inst requestID actor backend) (λ _ e', Q e') e) by apply Hwp.
  assert (Hheld : ∀ e', fence_held inst requestID (es_db e') → Q e') by (intros e' ?; right; by left).
  unfold Deletion.DeleteWithProof. apply wp_bind. eapply wp_mono; [apply preflight_reads|].
  intros o ? <-. destruct o as [[[moved partial] [backups dir]]|err|]; [|by left; destruct e..].
  apply wp_bind. eapply wp_mono; [by apply begin_cleanup_kept|]. intros o e1 (Heq & Hwf1 & Hb & Hn).
  destruct o as [[]|err|]; [|by left..]. specialize (Hb eq_refl). apply begun_held in Hb. clear Hn Heq.
  apply wp_bind. eapply wp_mono; [apply runtime_same_db|]. intros o e2 Hdb2. unfold same_db in Hdb2. rewrite <- Hdb2 in Hb, Hwf1. clear e1 Hdb2.
  destruct o as [[]|err|]; [|by apply Hheld..].
  apply wp_bind. eapply wp_mono; [apply resources_same_db|]. intros o e3 Hdb3. unfold same_db in Hdb3. rewrite <- Hdb3 in Hb, Hwf1. clear e2 Hdb3.
  destruct o as [disposition|err|]; [|by apply Hheld..]. cbv zeta. set (r := cleanup_receipt _ _ _ _ _ _ _ _).
  apply wp_bind, wp_locally. eapply wp_mono; [by apply CommitCleanup_spec|]. intros o d Hc.
  assert (Hfiled : committed (now 2%nat) r (es_db e3) d → Q (put_db d e3)).
  { intros Hcom. right. right. cbn. destruct (committed_row _ _ _ _ Hcom) as (Hrow & _). by exists (mkReceiptRow requestID actor r). }
  destruct o as [[]|err|]; [apply wp_ret; apply Hfiled, Hc|rewrite Hc; by apply Hheld|].
  destruct Hc as [->|[_ Hc]]; [by apply Hheld|by apply Hfiled].
Qed.

(** *** One incarnation *)

#[local] Abbreviation cmdDeleteExpected := (cmdDeleteExpected rcfg guest_shutdown new_identity NewString canonicalColdUUID uuid_Parse ParseCIDR6
  json_strings time_Parse outboundInterface EqualFold cfg backendID has_tsClient managers).

Definition others_kept (uuid : string) e e' : Prop := ∀ k, k ≠ uuid → instances (es_db e') !! k = instances (es_db e) !! k.
#[local] Instance others_kept_preorder uuid : PreOrder (others_kept uuid).
Proof. split; [by intros e k|]. intros e1 e2 e3 H1 H2 k Hk. by rewrite H2, H1. Qed.

Lemma deletion_others now inst requestID actor backend e : wf (es_db e) →
  wp (DeleteWithProof now inst requestID actor backend) (λ _ e', others_kept (ID inst) e e') e.
Proof.
  intros Hwf. unfold Deletion.DeleteWithProof. apply wp_bind. eapply wp_mono; [apply preflight_reads|].
  intros o ? <-. destruct o as [[[moved partial] [backups dir]]|err|]; [|done..].
  apply wp_bind. eapply wp_mono; [by apply begin_cleanup_kept|]. intros o e1 (_ & Hwf1 & Hb & Hn).
  assert (Hbegun : begun (now 0%nat) requestID actor inst (es_db e) (es_db e1) → others_kept (ID inst) e e1).
  { intros (fresh & q & row & _ & _ & _ & _ & _ & _ & _ & Heq) k Hk. rewrite Heq. unfold begin_effect.
    destruct fresh; cbn; by rewrite lookup_insert_ne. }
  assert (Ho1 : others_kept (ID inst) e e1).
  { destruct o as [[]|err|]; [by apply Hbegun, Hb|..]; (destruct Hn as [Heq|?]; [done|intros k _; by rewrite Heq|by apply Hbegun]). }
  destruct o as [[]|err|]; [|done..].
  apply wp_bind. eapply wp_mono; [apply runtime_same_db|]. intros o e2 Hdb2. unfold same_db in Hdb2.
  destruct o as [[]|err|]; [|intros k Hk; rewrite Hdb2; by apply Ho1..].
  apply wp_bind. eapply wp_mono; [apply resources_same_db|]. intros o e3 Hdb3. unfold same_db in Hdb3. rewrite Hdb2 in Hdb3.
  assert (Ho3 : others_kept (ID inst) e e3) by (intros k Hk; rewrite Hdb3; by apply Ho1).
  destruct o as [disposition|err|]; [|done..]. cbv zeta. set (r := cleanup_receipt _ _ _ _ _ _ _ _).
  apply wp_bind, wp_locally. eapply wp_mono; [apply CommitCleanup_spec; by rewrite Hdb3|]. intros o d Hc.
  assert (Hcom : committed (now 2%nat) r (es_db e3) d → others_kept (ID inst) e (put_db d e3)).
  { intros (q & row & f & _ & _ & _ & _ & _ & _ & _ & ->) k Hk. cbn. rewrite lookup_insert_ne by done. by apply Ho3. }
  destruct o as [[]|err|]; [apply wp_ret; apply Hcom, Hc|intros k Hk; rewrite Hc; by apply Ho3|].
  destruct Hc as [->|[_ Hc]]; [by intros k Hk; apply Ho3|by apply Hcom].
Qed.

(** A change of requests only. *)
Definition rows_kept : relation DB := λ d d', instances d' = instances d.
#[local] Instance rows_kept_preorder : PreOrder rows_kept.
Proof. split; [by intros d|]. unfold rows_kept. intros d1 d2 d3 ? ?. congruence. Qed.
Lemma request_rows_kept now q id actor code : within rows_kept (AdmitLifecycleRequest now q) ∧ within rows_kept (FinishLifecycleRequest id actor code).
Proof.
  unfold AdmitLifecycleRequest, FinishLifecycleRequest, GetLifecycleRequest. split;
    repeat first [within_step|apply within_INSERT_OR_NOTHING; [apply _|done]|apply within_UPDATE; [apply _|done]
      |apply within_SELECT_EXISTS; apply _|apply within_SELECT; apply _].
Qed.
Lemma in_store_rows {A} (m : M DB A) uuid : within rows_kept m → within (others_kept uuid) (in_store (R:=R) (K:=K) m).
Proof. intros Hm e. apply wp_locally. eapply wp_mono; [apply Hm|]. intros o d Hd k _. cbn. by rewrite Hd. Qed.

Lemma answered_reads id user name (request : LifecycleRequest) (old : option LifecycleRequest) :
  within (S := Estate R K) eq (match old with
    | None => mret None
    | Some old =>
        require (String.eqb (lr_Command old) (lr_Command request) && String.eqb (lr_Name old) name &&
                 String.eqb (lr_Arguments old) (lr_Arguments request)) (Errorf "request binding mismatch");;
        or_no_rows (in_store (GetCleanupReceipt id user))
    end).
Proof.
  destruct old; repeat first [apply or_no_rows_read|apply in_store_read|within_step].
  unfold GetCleanupReceipt. repeat first [apply read_select|within_step].
Qed.
Lemma lookup_incarnation actor name e : wf (es_db e) →
  wp (in_store (R:=R) (K:=K) (lookupVisibleInstance EqualFold cfg actor name)) (λ o e', e' = e ∧ ∀ inst, o = Ok inst →
    ∃ row, instances (es_db e) !! ID inst = Some row ∧ scanInstance (in_cols row) = inl inst ∧ Name inst = name ∧
      canAccessInstance EqualFold cfg actor inst = true) e.
Proof.
  intros Hwf. apply wp_locally. unfold lookupVisibleInstance. apply wp_bind. eapply wp_mono; [apply GetInstance_reads|].
  intros o d [-> Hi]. rewrite put_db_same. destruct o as [inst|err|]; [|by rewrite ?put_db_same..].
  destruct (Hi inst eq_refl) as (k & r & Hk & Hn & Hscan).
  destruct (canAccessInstance _ _ _ _) eqn:Hacc; [apply wp_ret|apply wp_throw]; rewrite put_db_same; [|done].
  split; [done|]. intros ? [= <-]. exists r. pose proof (wf_instances _ Hwf _ _ Hk) as Hkey. cbn in Hkey.
  pose proof Hscan as (HID & HName & _)%scan_fields. assert (k = ID inst) as -> by (by rewrite HID, <- Hkey).
  split; [done|]. split; [done|]. split; [by rewrite HName|done].
Qed.
Lemma binding_exact inst uuid created backend image :
  checkInstanceBinding time_Parse backendID inst [uuid; created; backend; image] = inl tt →
  ID inst = uuid ∧ time_Parse created = inl (CreatedAt inst) ∧ backend = backendID ∧ image = ImageName inst.
Proof.
  unfold checkInstanceBinding. destruct (time_Parse created) as [t|]; [|done]. cbn [mbind result_bind].
  destruct (_ || _) eqn:Hb; [done|]. intros _. rewrite !orb_false_iff, !negb_false_iff in Hb.
  destruct Hb as ((((H1%String.eqb_eq & H2%Z.eqb_eq) & _) & H4%String.eqb_eq) & H5%String.eqb_eq). by rewrite H2.
Qed.
(** The deletion of the incarnation that was found, and the end of its request. *)
Lemma deletion_answered now inst id user request e : wf (es_db e) →
  wp (_ ← in_store (AdmitLifecycleRequest (now 0%nat) request);
      r ← try (DeleteWithProof (later 1 now) inst id user backendID);
      match r with
      | inl proof => mret proof
      | inr e =>
          current ← try (in_store (GetLifecycleRequest id user));
          (if match current with inl q => String.eqb (lr_Phase q) "admitted" | inr _ => false end
           then _ ← in_store (FinishLifecycleRequest id user 75); mret tt
           else mret tt);;
          throw e
      end) (λ _ e', others_kept (ID inst) e e') e.
Proof.
  intros Hwf. destruct (request_rows_kept (now 0%nat) request id user 75) as [Hadmit Hfinish].
  assert (Hop : store_op _ (AdmitLifecycleRequest (now 0%nat) request)) by constructor.
  apply wp_bind. eapply wp_mono; [apply (wp_and _ (λ _ e', others_kept (ID inst) e e') (λ _ e', wf (es_db e'))); [by apply (in_store_rows _ (ID inst))|]|].
  { apply wp_locally. eapply wp_mono; [by apply (op_wf _ _ Hop)|]. intros o d Hd. exact (Hd Hwf). }
  intros o e1 [Ho1 Hwf1]. destruct o as [b|err|]; [|done..]. cbn in Hwf1.
  apply wp_bind, wp_try. eapply wp_mono; [by apply deletion_others|]. intros o e2 Ho2.
  assert (Ho : others_kept (ID inst) e e2) by (by transitivity e1).
  destruct o as [proof|err|]; [by apply wp_ret| |done].
  assert (Hend : ∀ b : bool, wp ((if b then _ ← in_store (FinishLifecycleRequest id user 75); mret tt else mret tt);; throw err)
    (λ (_ : outcome CleanupReceipt) e', others_kept (ID inst) e e') e2).
  { intros []; apply wp_bind; [|by apply wp_ret, wp_throw]. apply wp_bind. eapply wp_mono; [by apply (in_store_rows _ (ID inst))|].
    intros o e3 Ho3. assert (Ho' : others_kept (ID inst) e e3) by (by transitivity e2). destruct o; [by apply wp_ret, wp_throw|done..]. }
  apply wp_bind, wp_try. eapply wp_mono; [apply in_store_read; unfold GetLifecycleRequest; repeat first [apply read_select|within_step]|].
  intros o ? <-. destruct o as [q|err2|]; [apply Hend|apply (Hend false)|done].
Qed.

(** C5. A deletion of a named incarnation changes nothing at all unless the instance that has
    the name now is that very incarnation, as its identity, creation, host and image say,
    and the user may access it; and then every other instance keeps its row, whatever
    fails.  So a late or repeated deletion never harms the instance that has taken the name. *)
Theorem stale_deletion_harmless now actor args command id name uuid created backend image fs e :
  wf (es_db e) → delete_proof_words args = Some [command; id; name; uuid; created; backend; image] →
  let e' := (cmdDeleteExpected now actor args fs e).1.2 in
  e' = e ∨
  (∃ inst row, instances (es_db e) !! uuid = Some row ∧ scanInstance (in_cols row) = inl inst ∧ Name inst = name ∧
     canAccessInstance EqualFold cfg actor inst = true ∧ time_Parse created = inl (CreatedAt inst) ∧
     backend = backendID ∧ image = ImageName inst) ∧ others_kept uuid e e'.
Proof.
  intros Hwf Hargs. set (T := ∃ inst row, _). 
  enough (Hwp : wp (cmdDeleteExpected now actor args) (λ _ e', e' = e ∨ T ∧ others_kept uuid e e') e) by apply Hwp.
  unfold Deletion.cmdDeleteExpected. rewrite Hargs.
  apply wp_bind, wp_require; [intros _|by left]. apply wp_bind, wp_require; [intros _|by left]. cbv zeta.
  apply wp_bind. eapply wp_mono; [apply or_no_rows_read, in_store_read; unfold GetLifecycleRequest; repeat first [apply read_select|within_step]|].
  intros o ? <-. destruct o as [old|err|]; [|by left..].
  apply wp_bind. eapply wp_mono; [apply answered_reads|]. intros o ? <-. destruct o as [[proof|]|err|]; [by apply wp_ret; left| |by left..].
  apply wp_bind. eapply wp_mono; [by apply lookup_incarnation|]. intros o ? [-> Hi]. destruct o as [inst|err|]; [|by left..].
  destruct (Hi inst eq_refl) as (row & Hrow & Hscan & Hname & Hacc). clear Hi.
  apply wp_bind, wp_lift. cbn [drop]. destruct (checkInstanceBinding _ _ _ _) as [[]|err] eqn:Hbind; [|by left]. cbn [of_result].
  destruct (binding_exact _ _ _ _ _ Hbind) as (Hid & Hcr & Hb & Him). clear Hbind. rewrite Hid in *.
  assert (Ht : T) by (by exists inst, row). eapply wp_mono; [|intros o e' Ho; right; split; [done|exact Ho]].
  rewrite <- Hid. by apply deletion_answered.
Qed.
End spec.

(** *** A machine whose disk is at the cold store *)

Definition cold_instance : Instance :=
  mkInstance "id-1" "demo" "vm" "" StateStopped t0 "alice@example.com" "laptop" 2 1024 "fixed" "" 0
    "/srv/data/instances/demo/disk/rootfs.img" "/srv/vmlinux" "" "/run/fc.sock" "/log" "/serial" "tap0" "mac"
    "172.28.0.0/30" "172.28.0.1/30" "172.28.0.2/30" "172.28.0.1" 0 "" "" "node-1" "" "" "" None t0.
Definition cold_request : LifecycleRequest := mkLifecycleRequest "req-9" "alice@example.com" "delete" "demo" "[]" "" 0.
Definition cold_db : DB := (run (CreateInstance t0 cold_instance) empty_DB).2.
Definition cold_admitted : DB := (run (AdmitLifecycleRequest t0 cold_request) cold_db).2.
Definition cold_estate : Estate ColdServer.Store (list (list string)) :=
  mkEstate cold_admitted (ColdDisk.set_dirs ({["/srv/data/instances/demo"]} ∪ w_dirs offloaded) offloaded) bare_host
    ["node-1"; "node-2"] {[("zen", "demo")]}.

Definition cold_config : Config :=
  mkConfig "/srv/data" "srv" ":22" 0 "" "" "" "" "" [] "" ["alice@example.com"] [] [] ∅ "" "" "" ∅ "" "" "" "" ""
    ["1.1.1.1"] 2 1024 0 0 [] ∅ "" false "" "" "" 0 "" "" 0 0 0 "" false 0 "info" "/srv/data".
#[local] Abbreviation delete_cold faults e :=
  (DeleteWithProof (NetTools0 := bare_tools) cfg0 guest0 new_identity_d NewString_d canonical_d demo_uuid no_CIDR6 (λ _, inl "eth0")
    cold_config true ["zen"; "integration"] (λ _, t0) cold_instance "req-9" "alice@example.com" "SHA256:backend" faults e).
Definition cold_receipt : CleanupReceipt :=
  cleanup_receipt t0 cold_instance "req-9" "alice@example.com" "SHA256:backend" "removed" "/srv/data/instances/demo" "/srv/data/backups/demo".
Lemma after_delete_ok : (delete_cold [] cold_estate).1.1 = Ok cold_receipt.
Proof. vm_compute. reflexivity. Qed.

Lemma cold_wf : wf (es_db cold_estate).
Proof. apply run_wf; [constructor|]. apply run_wf; [constructor|apply wf_empty]. Qed.
Lemma runner_ok_dirs {R} `{!coldRemote R, !coldRemoteView R} rcfg inst d (w : World R) :
  runner_ok rcfg inst w → runner_ok rcfg inst (ColdDisk.set_dirs d w).
Proof.
  intros [Hinv Hjo]. constructor; [|done]. eapply inv_calm; [|exact Hinv]. split; [by split|done..].
Qed.
Lemma world_moves : moves cfg0 world_d offloaded.
Proof. exact (moves_handle cfg0 new_identity_d NewString_d canonical_d (request_d "offload") world_d []). Qed.
Lemma world_remote_ok : remote_ok (w_remote world_d).
Proof. exact (proj1 starts_d). Qed.
Lemma world_journals : journal_ok cfg0 (w_host world_d).
Proof. apply (jsteps_ok cfg0 host0); [by apply rtc_once, js_frame|apply host0_ok]. Qed.
Lemma offloaded_runner_ok : runner_ok cfg0 cold_instance offloaded.
Proof.
  destruct (world_moves world_remote_ok) as [_ Hj]. constructor.
  - apply (disk_later_inv cfg0 new_identity_d NewString_d canonical_d "demo" "id-1" layout_d world_d); [apply starts_inv, starts_d|apply offloaded_later].
  - exact (jsteps_ok cfg0 _ _ Hj world_journals).
Qed.
Lemma cold_runner_ok : runner_ok cfg0 cold_instance (es_cold cold_estate).
Proof. exact (runner_ok_dirs cfg0 cold_instance _ offloaded offloaded_runner_ok). Qed.

Lemma cleanup_receipt_true_witness :
  accomplished cfg0 guest0 ["zen"; "integration"] marshal0 start0 cold_instance "req-9" "alice@example.com"
    cold_receipt (delete_cold [] cold_estate).1.2 ∧ generation_d ∈ w_tried (es_cold cold_estate).
Proof.
  split; [|vm_compute; left].
  apply (cleanup_receipt_true (NetTools0 := bare_tools) cfg0 guest0 new_identity_d NewString_d canonical_d demo_uuid no_CIDR6 (λ _, inl "eth0")
    cold_config true ["zen"; "integration"] marshal0 start0 (λ _, t0) cold_instance "req-9" "alice@example.com" "SHA256:backend" cold_receipt []
    cold_estate layout_d).
  - discriminate.
  - intros path m. unfold guest0. by destruct (sockets m !! path) as [[]|].
  - exact start0_quiet.
  - exact cold_wf.
  - exact cold_runner_ok.
  - exact after_delete_ok.
Defined.

(** The same deletion, when the network helper does not answer. *)
Lemma fenced_before_touched_witness :
  let e' := (delete_cold (replicate 60 Pass ++ [Fail]) cold_estate).1.2 in
  e' = put_db (es_db e') cold_estate ∨ fence_held cold_instance "req-9" (es_db e') ∨ is_Some (cleanup_receipts (es_db e') !! "req-9").
Proof.
  apply (fenced_before_touched (NetTools0 := bare_tools) cfg0 guest0 new_identity_d NewString_d canonical_d demo_uuid no_CIDR6 (λ _, inl "eth0")
    cold_config true ["zen"; "integration"] (λ _, t0) cold_instance "req-9" "alice@example.com" "SHA256:backend" (replicate 60 Pass ++ [Fail]) cold_estate).
  exact cold_wf.
Defined.

(** A deletion of the incarnation before: nothing changes. *)
Definition stale_args : list string := ["delete"; "demo"; "--expect"; "req-7"; "id-0"; "then"; "SHA256:backend"; "arch"].
Definition clock_d (s : string) : result time := if String.eqb s "then" then inl t0 else inr (Errorf "no time").
Lemma stale_deletion_harmless_witness :
  (cmdDeleteExpected (NetTools0 := bare_tools) cfg0 guest0 new_identity_d NewString_d canonical_d demo_uuid no_CIDR6 (String.concat " ") clock_d
    (λ _, inl "eth0") String.eqb cold_config "SHA256:backend" true ["zen"] (λ _, t0) (mkActor "alice@example.com" "" "" "" "")
    stale_args [] cold_estate).1.2 = cold_estate.
Proof.
  destruct (stale_deletion_harmless (NetTools0 := bare_tools) cfg0 guest0 new_identity_d NewString_d canonical_d demo_uuid no_CIDR6
    (String.concat " ") clock_d (λ _, inl "eth0") String.eqb cold_config "SHA256:backend" true ["zen"] (λ _, t0)
    (mkActor "alice@example.com" "" "" "" "") stale_args "delete-proof" "req-7" "demo" "id-0" "then" "SHA256:backend" "arch" [] cold_estate
    cold_wf eq_refl) as [H|((inst & row & Hrow & _) & _)]; [exact H|]. exfalso. vm_compute in Hrow. discriminate.
Defined.
