(* ===== verification/OperationsSpec.v ===== *)
(** * What bound operations guarantee

    A bound start or stop runs at most once, whatever fails and however sessions
    interleave; what [operation-result] answers is what happened; a cancelled request
    never runs; and a user's command leaves the instances of others alone. *)
From S2P Require Import Prelude GoStrings Timestamps Model Sql StoreDB StoreRequests StoreInstances StoreCleanup.
From S2P Require Import StoreMigration StoreTrace InstanceSpec Identity Config Provision PoolStore HostCapacity Lifecycle LifecycleFrame Access AccessSpec Operations PoolInv.
From stdpp Require Import relations.

#[local] Open Scope Z_scope.

(** ** Requests, statement by statement *)

(** A row of [id] that satisfies [p] became [f] of it. *)
Definition changed (id : string) (p : request_row → bool) (f : request_row → request_row) (d d' : DB) : Prop :=
  ∃ r, lifecycle_requests d !! id = Some r ∧ p r = true ∧
       d' = set_lifecycle_requests (<[id := f r]> (lifecycle_requests d)) d.

Lemma update_request p f id d :
  points_at Requests p id → wf d →
  wp (UPDATE Requests p f) (λ o d', (d' = d ∧ o ≠ Ok 1) ∨ (changed id p f d d' ∧ (o = Ok 1 ∨ o = Crashed))) d.
Proof.
  intros Hp Hwf. assert (Hsame : set_lifecycle_requests (lifecycle_requests d) d = d) by by destruct d.
  apply (wp_UPDATE_request p f id); [done|done|by left..| |].
  - intros r Hr Hpr. cbn zeta. split; right; (split; [by exists r|tauto]).
  - cbn zeta. rewrite Hsame. split; by left.
Qed.

Lemma Begin_wp id actor d :
  wf d → wp (BeginLifecycleRequest id actor) (λ o d', (d' = d ∧ o ≠ Ok tt) ∨
    (changed id (in_phase "admitted") (set_phase "executing") d d' ∧ (o = Ok tt ∨ o = Crashed))) d.
Proof.
  intros Hwf. unfold BeginLifecycleRequest. apply wp_bind. eapply wp_mono.
  { apply (update_request _ _ id); [|done]. apply (owned_points id actor). intros r. by intros [? _]%andb_true_iff. }
  intros [n|e|] d' [[-> Hn]|[(r & Hr & Hp & ->) Ho]]; try (by left; split).
  - apply wp_require; intros Hb; [apply Z.eqb_eq in Hb; congruence|by left].
  - destruct Ho as [[= ->]|]; [|done]. cbn. apply wp_ret. right. apply andb_true_iff in Hp as [_ Hp].
    split; [by exists r|by left].
  - destruct Ho; done.
  - right. apply andb_true_iff in Hp as [_ Hp]. split; [by exists r|by right].
Qed.

Lemma Finish_wp id actor d :
  wf d → wp (FinishLifecycleRequest id actor 0) (λ o d', (d' = d ∧ o ≠ Ok true) ∨
    (changed id (in_phase "executing") (with_phase "done" 0) d d' ∧ (o = Ok true ∨ o = Crashed))) d.
Proof.
  intros Hwf. unfold FinishLifecycleRequest. cbv zeta. rewrite Z.eqb_refl. cbn [negb]. apply wp_bind. eapply wp_mono.
  { apply (update_request _ _ id); [|done]. apply (owned_points id actor). intros r. by intros [? _]%andb_true_iff. }
  assert (Hex : ∀ r, owned id actor r && (in_phase "executing" r || in_phase "admitted" r && false) = true →
    in_phase "executing" r = true) by (intros r; rewrite andb_false_r, orb_false_r; by intros [_ ?]%andb_true_iff).
  intros [n|e|] d' [[-> Hn]|[(r & Hr & Hp%Hex & ->) Ho]]; try (by left; split).
  - apply wp_ret. left. split; [done|]. intros [= Hb%Z.eqb_eq]. congruence.
  - destruct Ho as [[= ->]|]; [|done]. apply wp_ret. right. split; [by exists r|by left].
  - destruct Ho; done.
  - right. split; [by exists r|by right].
Qed.

Lemma Reject_wp id actor d :
  wf d → wp (RejectLifecycleStart id actor) (λ o d', (d' = d ∧ o ≠ Ok tt) ∨
    (changed id (in_phase "executing") (with_phase "rejected" 1) d d' ∧ (o = Ok tt ∨ o = Crashed))) d.
Proof.
  intros Hwf. unfold RejectLifecycleStart. apply wp_bind. eapply wp_mono.
  { apply (update_request _ _ id); [|done]. apply (owned_points id actor). intros r.
    by intros [[? _]%andb_true_iff _]%andb_true_iff. }
  intros [n|e|] d' [[-> Hn]|[(r & Hr & [_ Hp]%andb_true_iff & ->) Ho]]; try (by left; split).
  - apply wp_require; intros Hb; [apply Z.eqb_eq in Hb; congruence|by left].
  - destruct Ho as [[= ->]|]; [|done]. cbn. apply wp_ret. right. split; [by exists r|by left].
  - destruct Ho; done.
  - right. split; [by exists r|by right].
Qed.

(** A new row, or the table as it was. *)
Definition added (r : request_row) (d d' : DB) : Prop :=
  lifecycle_requests d !! lr_ID (rq r) = None ∧
  d' = set_lifecycle_requests (<[lr_ID (rq r) := r]> (lifecycle_requests d)) d.

Lemma insert_request r d :
  wp (INSERT_OR_NOTHING Requests r)
    (λ o d', (d' = d ∧ o ≠ Ok 1) ∨ (added r d d' ∧ (o = Ok 1 ∨ o = Crashed))) d.
Proof.
  unfold added. apply wp_env; cbn beta; [by left..| |]; rewrite violates_free by done; cbn;
    destruct (lifecycle_requests d !! lr_ID (rq r)) eqn:E; cbn; auto 6.
Qed.

Lemma Admit_wp now q d :
  wp (AdmitLifecycleRequest now q) (λ o d', (d' = d ∧ o ≠ Ok true) ∨
    (added (new_request q "admitted" now) d d' ∧ (o = Ok true ∨ o = Crashed))) d.
Proof.
  unfold AdmitLifecycleRequest. apply wp_bind. eapply wp_mono; [apply insert_request|].
  intros [n|e|] d' [[-> Hn]|[Ha Ho]]; try (by left; split).
  - destruct (Z.eqb_spec n 1) as [->|_]; [done|]. apply wp_bind.
    eapply wp_mono; [apply (GetLifecycleRequest_within eq)|]. intros [old|e|] d' <-; try (by left; split).
    case_match; [by apply wp_throw; left|by apply wp_ret; left].
  - destruct Ho as [[= ->]|]; [|done]. cbn. apply wp_ret. right. by split; [|left].
  - destruct Ho; done.
  - right. by split; [|right].
Qed.

Lemma Cancel_wp now q d :
  wp (CancelLifecycleRequest now q) (λ _ d', d' = d ∨ added (new_request q "cancelled" now) d d') d.
Proof.
  unfold CancelLifecycleRequest. apply wp_bind. eapply wp_mono; [apply insert_request|].
  assert (Hget : ∀ d1, (d1 = d ∨ added (new_request q "cancelled" now) d d1) →
    wp (old ← GetLifecycleRequest (lr_ID q) (lr_Actor q);
        if negb (same_operation old q) then throw (Errorf "request binding differs") else mret tt)
       (λ _ d', d' = d ∨ added (new_request q "cancelled" now) d d') d1).
  { intros d1 Hd1. eapply wp_mono; [apply (within_wp eq _ (λ d2, d2 = d1))|by intros ? ? ->].
    - within_sql. by apply GetLifecycleRequest_within, _.
    - by intros ? <-. }
  intros [n|e|] d' [[-> Hn]|[Ha Ho]]; auto.
Qed.

(** ** The invariant *)

(** What the phase of a bound request says about its effect. *)
Inductive standing (log : list effect) (id command : string) : string → Prop :=
  | standing_admitted : (∀ c, Ran id c ∉ log) → standing log id command "admitted"
  | standing_cancelled : (∀ c, Ran id c ∉ log) → standing log id command "cancelled"
  | standing_executing : standing log id command "executing"
  | standing_interrupted : standing log id command "interrupted"
  | standing_done : Succeeded id command ∈ log → standing log id command "done"
  | standing_rejected : Refused id command ∈ log → standing log id command "rejected".

Definition ran_ids (log : list effect) : list string :=
  omap (λ e, match e with Ran id _ => Some id | _ => None end) log.

Lemma elem_ran_ids id log : id ∈ ran_ids log ↔ ∃ c, Ran id c ∈ log.
Proof.
  unfold ran_ids. rewrite list_elem_of_omap. split.
  - intros ([i c|i c|i c] & Hin & [= ->]). by exists c.
  - intros [c Hc]. by exists (Ran id c).
Qed.

Definition never_ran (log : list effect) (id : string) : Prop := ∀ c, Ran id c ∉ log.

(** A request that executes and whose effect has not begun. *)
Definition armed (d : DB) (log : list effect) (id : string) : Prop :=
  never_ran log id ∧
  ∃ r, lifecycle_requests d !! id = Some r ∧ bound_row r = true ∧ in_phase "executing" r = true.

Record base (d : DB) (log : list effect) : Prop := {
  ba_wf : wf d;
  ba_rows : ∀ id r, lifecycle_requests d !! id = Some r → bound_row r = true →
    standing log id (lr_Command (rq r)) (lr_Phase (rq r));
  ba_ran : ∀ id c, Ran id c ∈ log → ∃ r, lifecycle_requests d !! id = Some r ∧ lr_Command (rq r) = c ∧
    bound_row r = true;
  ba_once : NoDup (ran_ids log);
  ba_answers : ∀ id c, Succeeded id c ∈ log ∨ Refused id c ∈ log → Ran id c ∈ log;
  ba_exclusive : ∀ id c c', Succeeded id c ∈ log → Refused id c' ∉ log;
}.

(** A session's request is in the table. *)
Definition entered (d : DB) (o : operation) : Prop :=
  ∃ r, lifecycle_requests d !! request_id o = Some r ∧ lr_Command (rq r) = op_command o.

Definition session_ok (d : DB) (log : list effect) (o : operation) (st : stage) : Prop :=
  match st with
  | Beginning => bound o = true → entered d o
  | Running => bound o = true → entered d o ∧ armed d log (request_id o)
  | Rejecting => entered d o ∧ Refused (request_id o) (op_command o) ∈ log
  | Finishing _ => bound o = true → entered d o ∧ Succeeded (request_id o) (op_command o) ∈ log
  | _ => True
  end.

Definition is_operation (o : operation) : Prop := op_command o = "start" ∨ op_command o = "stop".

Record sessions_ok (d : DB) (log : list effect) (ss : gmap nat (operation * stage)) : Prop := {
  se_each : ∀ t o st, ss !! t = Some (o, st) →
    is_operation o ∧ session_ok d log o st;
  se_alone : ∀ t t' o o', ss !! t = Some (o, Running) → ss !! t' = Some (o', Running) →
    bound o = true → bound o' = true → request_id o = request_id o' → t = t';
}.

(** *** Changes of the table and of the log *)

Lemma bound_is_operation r o : is_operation o → lr_Command (rq r) = op_command o → bound_row r = true.
Proof. intros Ho Hc. unfold bound_row, has_command. rewrite Hc. by destruct Ho as [-> | ->]. Qed.

Lemma wf_requests_insert d id r :
  wf d → lr_ID (rq r) = id → wf (set_lifecycle_requests (<[id := r]> (lifecycle_requests d)) d).
Proof. intros [] Hr. split; try done. cbn. by apply map_Forall_insert_2. Qed.

Lemma base_added d d' log r :
  base d log → added r d d' → lr_Phase (rq r) = "admitted" ∨ lr_Phase (rq r) = "cancelled" → base d' log.
Proof.
  intros Hb [Hnew ->] Hph. split; try apply Hb; cbn.
  - by apply wf_requests_insert; [apply Hb|].
  - intros id r'. rewrite lookup_insert_Some. intros [[<- <-]|[_ Hr']]; [|by apply Hb].
    intros _. assert (Hn : never_ran log (lr_ID (rq r))).
    { intros c (r' & Hr' & _)%(ba_ran _ _ Hb). congruence. }
    destruct Hph as [-> | ->]; by constructor.
  - intros id c (r' & Hr' & ?)%(ba_ran _ _ Hb). exists r'. split; [|done]. rewrite lookup_insert_ne; [done|]. congruence.
Qed.

(** A change of the phase, and of nothing a request is known by. *)
Definition rephased (f : request_row → request_row) : Prop :=
  ∀ r, lr_ID (rq (f r)) = lr_ID (rq r) ∧ lr_Command (rq (f r)) = lr_Command (rq r).

Lemma rephased_bound f r : rephased f → bound_row (f r) = bound_row r.
Proof. intros Hf. unfold bound_row, has_command. by rewrite (proj2 (Hf r)). Qed.

Lemma base_changed d d' log id p f :
  base d log → changed id p f d d' → rephased f →
  (∀ r, lifecycle_requests d !! id = Some r → bound_row r = true →
     standing log id (lr_Command (rq r)) (lr_Phase (rq (f r)))) →
  base d' log.
Proof.
  intros Hb (r & Hr & Hp & ->) Hf Hst. split; try apply Hb; cbn.
  - apply wf_requests_insert; [apply Hb|]. rewrite (proj1 (Hf r)). by apply (wf_requests _ (ba_wf _ _ Hb) id r).
  - intros id' r'. rewrite lookup_insert_Some. intros [[<- <-]|[_ Hr']]; [|by apply Hb].
    rewrite rephased_bound, (proj2 (Hf r)) by done. by apply Hst.
  - intros id' c (r' & Hr' & Hc & Hbd)%(ba_ran _ _ Hb). destruct (decide (id' = id)) as [->|Hne].
    + assert (r' = r) as -> by congruence. rewrite lookup_insert_eq. exists (f r).
      rewrite rephased_bound by done. by rewrite (proj2 (Hf r)).
    + rewrite lookup_insert_ne by done. by exists r'.
Qed.

Lemma standing_mono log log' id c ph :
  log ⊆ log' → (never_ran log id → never_ran log' id) → standing log id c ph → standing log' id c ph.
Proof. intros Hl Hn []; constructor; first [by apply Hn|by apply Hl]. Qed.

Lemma base_same d d' log :
  base d log → wf d' → lifecycle_requests d' = lifecycle_requests d → base d' log.
Proof. intros [] Hwf Hl. split; try done; by rewrite Hl. Qed.

(** A bound request begins to run. *)
Lemma base_ran d log id :
  base d log → armed d log id →
  ∃ r, lifecycle_requests d !! id = Some r ∧ base d (Ran id (lr_Command (rq r)) :: log).
Proof.
  intros Hb (Hn & r & Hr & Hbd & Hex). exists r. split; [done|].
  split; try apply Hb.
  - intros id' r' Hr' Hbd'. destruct (decide (id' = id)) as [->|Hne].
    + assert (r' = r) as -> by congruence. apply String.eqb_eq in Hex. rewrite Hex. constructor.
    + eapply standing_mono; [|intros Hno|by apply Hb]; [by intros ? ?; right|].
      intros c [[= ->]|?]%elem_of_cons; [done|by eapply Hno].
  - intros id' c [[= -> ->]|Hc]%elem_of_cons; [by exists r|by apply (ba_ran _ _ Hb)].
  - cbn. constructor; [|apply Hb]. by intros [c Hc%Hn]%elem_ran_ids.
  - intros id' c Ha. right. apply (ba_answers _ _ Hb). by rewrite !elem_of_cons in Ha; destruct Ha as [[?|?]|[?|?]]; auto.
  - intros id' c c' [?|Hs]%elem_of_cons [?|Hr']%elem_of_cons; try done. by apply (ba_exclusive _ _ Hb _ _ _ Hs Hr').
Qed.

(** It gets its answer. *)
Lemma base_answered d log id c e :
  base d log → Ran id c ∈ log → (∀ c', (Succeeded id c' ∉ log) ∧ (Refused id c' ∉ log)) →
  e = Succeeded id c ∨ e = Refused id c → base d (e :: log).
Proof.
  intros Hb Hran Hno He.
  assert (Hids : ∀ id' c', (Ran id' c' ∈ e :: log) ↔ (Ran id' c' ∈ log)).
  { intros id' c'. rewrite elem_of_cons. split; [|by right]. intros [<-|?]; [by destruct He|done]. }
  split; try apply Hb.
  - intros id' r' Hr' Hbd'. eapply standing_mono; [|intros Hn c' Hc'%Hids|by apply Hb]; [by intros ? ?; right|].
    by eapply Hn.
  - intros id' c' Hc'%Hids. by apply Hb.
  - assert (ran_ids (e :: log) = ran_ids log) as -> by (by destruct He as [-> | ->]). apply Hb.
  - intros id' c' Ha. apply Hids. rewrite !elem_of_cons in Ha.
    destruct He as [-> | ->]; destruct Ha as [[[= -> ->]|?]|[[= -> ->]|?]]; try done; apply (ba_answers _ _ Hb); auto.
  - intros id' c1 c2. rewrite !elem_of_cons.
    intros [Hs|Hs] [Hr|Hr]; try (by destruct He; simplify_eq).
    + destruct He; simplify_eq. by destruct (Hno c2).
    + destruct He; simplify_eq. by destruct (Hno c1).
    + by apply (ba_exclusive _ _ Hb id' c1 c2).
Qed.

(** Requests are kept, and their commands. *)
Definition kept_rows (d d' : DB) : Prop :=
  ∀ id r, lifecycle_requests d !! id = Some r →
    ∃ r', lifecycle_requests d' !! id = Some r' ∧ lr_Command (rq r') = lr_Command (rq r).

Lemma kept_added d d' r : added r d d' → kept_rows d d'.
Proof. intros [Hn ->] id r' Hr'. exists r'. cbn. rewrite lookup_insert_ne; [done|congruence]. Qed.

Lemma kept_changed d d' id p f : changed id p f d d' → rephased f → kept_rows d d'.
Proof.
  intros (r & Hr & _ & ->) Hf id' r' Hr'. cbn. destruct (decide (id' = id)) as [->|Hne].
  - rewrite lookup_insert_eq. eexists. split; [done|]. assert (r' = r) as -> by congruence. apply Hf.
  - rewrite lookup_insert_ne by done. by exists r'.
Qed.

Lemma rows_kept_same d d' : lifecycle_requests d' = lifecycle_requests d → kept_rows d d'.
Proof. intros H id r. rewrite H. eauto. Qed.

(** *** Sessions *)

Lemma sessions_less d log ss ss' : sessions_ok d log ss → ss' ⊆ ss → sessions_ok d log ss'.
Proof.
  intros [] Hs. split.
  - intros t o st H. by eapply se_each0, lookup_weaken.
  - intros t t' o o' H H'. eapply se_alone0; by eapply lookup_weaken.
Qed.

Lemma sessions_kept d log d' log' ss :
  sessions_ok d log ss → kept_rows d d' → log ⊆ log' →
  (∀ t o, ss !! t = Some (o, Running) → bound o = true → armed d log (request_id o) → armed d' log' (request_id o)) →
  sessions_ok d' log' ss.
Proof.
  intros [Heach Halone] Hk Hl Ha. split; [|done]. intros t o st Ht. destruct (Heach t o st Ht) as [Ho Hok].
  split; [done|].
  assert (Hent : entered d o → entered d' o).
  { intros (r & Hr & Hc). destruct (Hk _ _ Hr) as (r' & Hr' & Hc'). exists r'. split; [done|congruence]. }
  destruct st; cbn in *; try tauto; intros.
  - split; [by apply Hent, Hok|]. by apply (Ha t), Hok.
  - split; [by apply Hent, Hok|]. by apply Hl, Hok.
  - split; [by apply Hent, Hok|]. by apply Hl, Hok.
Qed.

Lemma sessions_insert d log ss t o st :
  sessions_ok d log (delete t ss) → is_operation o → session_ok d log o st →
  (bound o = true → st = Running → ∀ t' o', t' ≠ t → ss !! t' = Some (o', Running) → bound o' = true →
     request_id o' ≠ request_id o) →
  sessions_ok d log (<[t := (o, st)]> ss).
Proof.
  intros [Heach Halone] Ho Hok Hne. rewrite <- insert_delete_eq. split.
  - intros t' o' st'. rewrite lookup_insert_Some. intros [[<- [= <- <-]]|[_ H]]; [done|by apply (Heach t')].
  - intros t1 t2 o1 o2 H1 H2 Hb1 Hb2 Heq. revert H1 H2. rewrite !lookup_insert_Some, !lookup_delete_Some.
    intros [[<- [= <- ->]]|[H1 [_ H1']]] [[<- [= <-]]|[H2 [_ H2']]]; try done.
    + by destruct (Hne Hb1 eq_refl t2 o2 ltac:(done) H2' Hb2).
    + subst st. by destruct (Hne Hb2 eq_refl t1 o1 ltac:(done) H1' Hb1).
    + eapply (Halone t1 t2 o1 o2); try done; by rewrite lookup_delete_ne.
Qed.

(** ** One stage of one session *)

(** Closed requests stay what they are. *)
Definition closed (r : request_row) : bool := negb (in_phase "admitted" r) && negb (in_phase "executing" r).
Definition settled_kept (d d' : DB) : Prop :=
  ∀ id r, lifecycle_requests d !! id = Some r → bound_row r = true → closed r = true →
    lifecycle_requests d' !! id = Some r.

Lemma settled_same d d' : lifecycle_requests d' = lifecycle_requests d → settled_kept d d'.
Proof. intros H id r. by rewrite H. Qed.

Lemma settled_added d d' r : added r d d' → settled_kept d d'.
Proof. intros [Hn ->] id r' Hr' _ _. cbn. rewrite lookup_insert_ne; [done|congruence]. Qed.

Lemma settled_changed d d' id p f :
  changed id p f d d' → (∀ r, p r = true → closed r = false) → settled_kept d d'.
Proof.
  intros (r & Hr & Hp & ->) Hop id' r' Hr' _ Hc. cbn. rewrite lookup_insert_ne; [done|]. intros <-.
  assert (r' = r) as -> by congruence. by rewrite (Hop r Hp) in Hc.
Qed.

Lemma closed_in_phase ph r : in_phase ph r = true → ph = "admitted" ∨ ph = "executing" → closed r = false.
Proof. intros Hp [-> | ->]; unfold closed; rewrite Hp; [done|apply andb_false_r]. Qed.

Lemma armed_changed d d' log id id' p f :
  changed id p f d d' → id' ≠ id → armed d log id' → armed d' log id'.
Proof.
  intros (r & Hr & Hp & ->) Hne (Hn & r' & Hr' & H). split; [done|].
  exists r'. split; [|exact H]. cbn. by rewrite lookup_insert_ne.
Qed.

Lemma armed_added d d' log id r : added r d d' → armed d log id → armed d' log id.
Proof.
  intros [Hnew ->] (Hn & r' & Hr' & H). split; [done|]. exists r'. cbn. rewrite lookup_insert_ne; [done|congruence].
Qed.

#[local] Abbreviation db s := (pv_db (sv_control s)).

(** A session's call is over, and everything is as it should be. *)
Definition ended (d : DB) (t : nat) (o : operation) (ss : gmap nat (operation * stage))
    (r : outcome stage) (s : Service) : Prop :=
  base (db s) (sv_effects s) ∧ settled_kept d (db s) ∧
  sessions_ok (db s) (sv_effects s) (match r with Ok st => <[t := (o, st)]> ss | _ => delete t ss end).

Lemma wp_on_store {A} (m : M DB A) Q s :
  wp m (λ o d, Q o (set_control (set_db d (sv_control s)) s)) (db s) → wp (on_store m) Q s.
Proof.
  intros H fs. specialize (H fs). unfold on_store, on_control, on_db.
  destruct (m fs (db s)) as [[r d] fs']. exact H.
Qed.

Lemma wp_on_control {A} (m : M Control A) Q s :
  wp m (λ o w, Q o (set_control w s)) (sv_control s) → wp (on_control m) Q s.
Proof. intros H fs. specialize (H fs). unfold on_control. by destruct (m fs (sv_control s)) as [[r w] fs']. Qed.

Lemma wp_note e Q s :
  Q (Ok tt) (mkService (sv_control s) (match e with Some e => e :: sv_effects s | None => sv_effects s end)) →
  wp (note e) Q s.
Proof. intros H fs. exact H. Qed.

Lemma set_same s : set_control (set_db (db s) (sv_control s)) s = s.
Proof. by destruct s as [[] ?]. Qed.

Lemma reads_on_store {A} (m : M DB A) s : within eq m → wp (on_store m) (λ _ s', s' = s) s.
Proof. intros Hm. apply wp_on_store. eapply wp_mono; [apply Hm|]. intros r d' <-. apply set_same. Qed.

Section session.
Context (d : DB) (t : nat) (o : operation) (ss : gmap nat (operation * stage)).
Context (Ho : is_operation o).

(** The state after a call: what to show. *)
Lemma ended_next log s st r :
  sessions_ok d log ss → base (db s) (sv_effects s) → settled_kept d (db s) → kept_rows d (db s) →
  log ⊆ sv_effects s →
  (∀ t' o', t' ≠ t → ss !! t' = Some (o', Running) → bound o' = true →
     armed d log (request_id o') → armed (db s) (sv_effects s) (request_id o')) →
  (∀ st', r = Ok st' → st' = st) →
  session_ok (db s) (sv_effects s) o st →
  (bound o = true → st = Running → ∀ t' o', t' ≠ t → ss !! t' = Some (o', Running) → bound o' = true →
     request_id o' ≠ request_id o) →
  ended d t o ss r s.
Proof.
  intros Hss Hb Hset Hk Hl Ha Hr Hok Hal. split_and!; [done..|].
  assert (Hd : sessions_ok (db s) (sv_effects s) (delete t ss)).
  { apply (sessions_kept d log); [by eapply sessions_less, delete_subseteq|done..|].
    intros t' o' [Hne Ht']%lookup_delete_Some. by apply (Ha t'). }
  destruct r as [st'| |]; [rewrite (Hr st' eq_refl)|done..]. by apply sessions_insert.
Qed.

(** A call that changed nothing leads to a stage that claims nothing. *)
Lemma ended_same s st r :
  d = db s → base d (sv_effects s) → sessions_ok d (sv_effects s) ss →
  (∀ st', r = Ok st' → st' = st) → session_ok d (sv_effects s) o st →
  (bound o = true → st ≠ Running) → ended d t o ss r s.
Proof.
  intros Hd Hb Hss Hr Hok Hne. apply (ended_next (sv_effects s) s st); rewrite <- ?Hd; try done.
  - by apply settled_same.
  - by apply rows_kept_same.
  - intros H1 H2. by destruct (Hne H1).
Qed.
End session.

(** *** What the provisioner leaves alone *)

Definition requests_same (w w' : Control) : Prop :=
  wf (pv_db w') ∧ lifecycle_requests (pv_db w') = lifecycle_requests (pv_db w).

Lemma framed_self n k r w :
  wf (pv_db w) → instances (pv_db w) !! k = Some r → row_Name r = n → framed n k (pv_db w) w.
Proof. intros Hwf Hr Hn. split; [done|by exists r|done..]. Qed.

Lemma named_or_missing n w :
  (∃ k r, instances (pv_db w) !! k = Some r ∧ row_Name r = n) ∨ missing n w.
Proof.
  destruct (select_row (named n) (instances (pv_db w))) as [r|e] eqn:E.
  - left. apply select_row_Some in E as (k & Hk & Hn). exists k, r. split; [done|]. by apply String.eqb_eq.
  - right. intros k r Hk Hn. pose proof (select_row_none _ _ _ E k r Hk) as H. unfold named in H.
    by rewrite Hn, String.eqb_refl in H.
Qed.

Lemma framed_requests {A} (m : M Control A) n w :
  (∀ k d0, framed n k d0 w → wp m (λ _, framed n k d0) w) →
  (missing n w → wp m (λ _ w', w' = w) w) → wf (pv_db w) → wp m (λ _ w', requests_same w w') w.
Proof.
  intros Hf Hm Hwf. destruct (named_or_missing n w) as [(k & r & Hr & Hn)|Hno].
  - eapply wp_mono; [by apply (Hf k (pv_db w)); eapply framed_self|].
    intros a w' []. by split.
  - eapply wp_mono; [by apply Hm|]. by intros a w' ->.
Qed.

Section operations.
Context `{LawfulProvisioner}.
Context (EqualFold : string → string → bool) (uuid_Parse : string → option string).
Context (time_Parse : string → result time) (json_strings : list string → string).
Context (cfg : Config) (backendID : string).

#[local] Abbreviation advance := (advance EqualFold uuid_Parse time_Parse json_strings cfg backendID).

Lemma run_operation_requests i o w :
  wf (pv_db w) → wp (run_operation i o) (λ _ w', requests_same w w') w.
Proof.
  intros Hwf. unfold run_operation. destruct (is_start o).
  - apply (framed_requests _ (op_name o)); [|by apply pr_start_missing|done].
    intros k d0 Hf. eapply wp_mono; [by apply pr_start_framed|by intros ? ? []].
  - apply (framed_requests _ (op_name o)); [|by apply pr_stop_missing|done].
    intros k d0 Hf. eapply wp_mono; [by apply pr_stop_framed|by intros ? ? []].
Qed.

Lemma cold_requests i n action w :
  wf (pv_db w) → wp (pr_ColdDisk i n action) (λ _ w', requests_same w w') w.
Proof.
  intros Hwf. apply (framed_requests _ n); [|by apply pr_cold_missing|done].
  intros k d0 Hf. eapply wp_mono; [by apply pr_cold_framed|by intros ? ? []].
Qed.

Lemma lookup_within actor n : within eq (lookupVisibleInstance EqualFold cfg actor n).
Proof. unfold lookupVisibleInstance. pose proof within_GetInstance. solve_reads; auto. Qed.

Lemma check_identity_within inst identity : within eq (checkOrbIdentity time_Parse backendID inst identity).
Proof.
  unfold checkOrbIdentity, checkOrbBinding, CheckCleanupFence, GetImportReceipt, GetMigration. solve_reads.
Qed.

Lemma check_within o inst : within eq (check_operation uuid_Parse time_Parse backendID o inst).
Proof. unfold check_operation. pose proof check_identity_within. solve_reads; auto. Qed.


Section stages.
Context (i : inputs) (t : nat) (o : operation) (st : stage) (ss : gmap nat (operation * stage)) (s : Service).
Context (Hb : base (db s) (sv_effects s)) (Hss : sessions_ok (db s) (sv_effects s) ss).
Context (Ht : ss !! t = Some (o, st)).

#[local] Abbreviation fine := (ended (db s) t o ss).

Lemma the_operation : is_operation o.
Proof. by apply (se_each _ _ _ Hss t o st). Qed.

Lemma the_session : session_ok (db s) (sv_effects s) o st.
Proof. by apply (se_each _ _ _ Hss t o st). Qed.

(** The state did not change, and the next stage claims nothing. *)
Lemma fine_same r st' :
  (∀ a, r = Ok a → a = st') → (bound o = true → st' ≠ Running) →
  session_ok (db s) (sv_effects s) o st' → fine r s.
Proof. intros Hr Hne Hok. by apply (ended_same _ t o ss the_operation _ st'). Qed.

Lemma fine_reads {A} (m : M DB A) (k : result A → stage) :
  within eq m →
  (∀ r, (bound o = true → k r ≠ Running) ∧ session_ok (db s) (sv_effects s) o (k r)) →
  wp (r ← try (on_store m); mret (k r)) fine s.
Proof.
  intros Hm Hk. apply wp_bind, wp_try. eapply wp_mono; [by apply reads_on_store|].
  intros [a|e|] s' ->; [apply wp_ret|apply wp_ret|].
  - apply (fine_same _ (k (inl a))); [by intros ? [= <-]|apply Hk..].
  - apply (fine_same _ (k (inr e))); [by intros ? [= <-]|apply Hk..].
  - by apply (fine_same _ (Over 0)).
Qed.

Lemma fine_looking : st = Looking → wp (advance i o Looking) fine s.
Proof. intros _. apply fine_reads; [apply lookup_within|]. by intros []. Qed.

Lemma fine_checking inst : wp (advance i o (Checking inst)) fine s.
Proof.
  cbn -[check_operation]. destruct (bound o) eqn:Hbd; cbn [negb].
  - apply fine_reads; [apply check_within|]. by intros [].
  - apply wp_ret, (fine_same _ Running); [by intros ? [= <-]|by cbn; rewrite Hbd..].
Qed.

(** The table changed, the log did not. *)
Lemma fine_moved r d' st' :
  base d' (sv_effects s) → settled_kept (db s) d' → kept_rows (db s) d' →
  (∀ t' o', t' ≠ t → ss !! t' = Some (o', Running) → bound o' = true →
     armed (db s) (sv_effects s) (request_id o') → armed d' (sv_effects s) (request_id o')) →
  (∀ a, r = Ok a → a = st') → session_ok d' (sv_effects s) o st' →
  (bound o = true → st' = Running → ∀ t' o', t' ≠ t → ss !! t' = Some (o', Running) → bound o' = true →
     request_id o' ≠ request_id o) →
  fine r (set_control (set_db d' (sv_control s)) s).
Proof. intros. by apply (ended_next (db s) t o ss the_operation (sv_effects s) _ st'). Qed.

Lemma fine_admitting inst : wp (advance i o (Admitting inst)) fine s.
Proof.
  cbn -[AdmitLifecycleRequest]. apply wp_bind, wp_try, wp_on_store. eapply wp_mono; [apply Admit_wp|].
  assert (Hadd : ∀ d' r, added (new_request (bound_request json_strings o (Name inst)) "admitted" (si_now i 0%nat)) (db s) d' →
    (∀ a, r = Ok a → a = Beginning) → fine r (set_control (set_db d' (sv_control s)) s)).
  { intros d' r Ha Hr. apply (fine_moved _ _ Beginning); try done.
    - eapply base_added; [done..|]. by left.
    - by eapply settled_added.
    - by eapply kept_added.
    - intros t' o' _ _ _. by apply (armed_added _ _ _ _ _ Ha).
    - intros _. destruct Ha as [_ ->]. eexists. split; [apply lookup_insert_eq|done]. }
  intros [b|e|] d' [[-> Hn]|[Ha Hr]]; rewrite ?set_same; try (destruct Hr; by simplify_eq).
  - apply wp_ret, (fine_same _ (Over 75)); [|done..]. destruct b; [done|]. by intros ? [= <-].
  - destruct Hr as [[= ->]|]; [|done]. apply wp_ret, Hadd; [done|]. by intros ? [= <-].
  - apply wp_ret, (fine_same _ (Over 75)); [|done..]. by intros ? [= <-].
  - by apply (fine_same _ (Over 75)).
  - by apply Hadd.
Qed.

(** A request that is armed is not one whose row has another phase. *)
Lemma not_armed id r :
  lifecycle_requests (db s) !! id = Some r → in_phase "executing" r = false → ¬ armed (db s) (sv_effects s) id.
Proof. intros Hr Hp (_ & r' & Hr' & _ & He). congruence. Qed.

Lemma fine_beginning : st = Beginning → wp (advance i o Beginning) fine s.
Proof.
  intros Hst. cbn -[BeginLifecycleRequest]. apply wp_bind, wp_try, wp_on_store.
  eapply wp_mono; [apply Begin_wp, Hb|].
  assert (Hmv : ∀ d' r, changed (request_id o) (in_phase "admitted") (set_phase "executing") (db s) d' →
    (∀ a, r = Ok a → a = Running) → fine r (set_control (set_db d' (sv_control s)) s)).
  { intros d' r Hch Hr. pose proof Hch as (row & Hrow & Hp & Hd').
    assert (Hph : lr_Phase (rq row) = "admitted") by by apply String.eqb_eq.
    assert (Hno : ¬ armed (db s) (sv_effects s) (request_id o)).
    { apply (not_armed _ row Hrow). unfold in_phase. by rewrite Hph. }
    assert (Harm : ∀ t' o', ss !! t' = Some (o', Running) → bound o' = true →
      armed (db s) (sv_effects s) (request_id o') ∧ request_id o' ≠ request_id o).
    { intros t' o' Ht' Hbd. destruct (se_each _ _ _ Hss _ _ _ Ht') as [_ Hok]. destruct (Hok Hbd) as [_ Ha].
      split; [done|]. intros Heq. by rewrite Heq in Ha. }
    apply (fine_moved _ _ Running); try done.
    - apply (base_changed _ _ _ _ _ _ Hb Hch); [done|]. intros. constructor.
    - eapply settled_changed; [exact Hch|]. intros r' Hr'. apply (closed_in_phase _ _ Hr'). by left.
    - by eapply kept_changed.
    - intros t' o' _ Ht' Hbd _. destruct (Harm t' o' Ht' Hbd). by apply (armed_changed _ _ _ _ _ _ _ Hch).
    - intros Hbd. pose proof the_session as Hent. rewrite Hst in Hent. destruct (Hent Hbd) as (row' & Hrow' & Hc).
      assert (row' = row) as -> by congruence. rewrite Hd'.
      split; [exists (set_phase "executing" row); split; [apply lookup_insert_eq|done]|].
      assert (Hbr : bound_row row = true) by by apply (bound_is_operation _ o the_operation).
      split; [|exists (set_phase "executing" row); by split; [apply lookup_insert_eq|]].
      pose proof (ba_rows _ _ Hb _ _ Hrow Hbr) as Hs. rewrite Hph in Hs. by inversion Hs.
    - intros _ _ t' o' _ Ht' Hbd. by apply (Harm t' o'). }
  intros [b|e|] d' [[-> Hn]|[Ha Hr]]; rewrite ?set_same; try (destruct Hr; by simplify_eq).
  - by destruct b.
  - apply wp_ret, Hmv; [done|]. by intros ? [= <-].
  - apply wp_ret, (fine_same _ (Over 75)); [|done..]. by intros ? [= <-].
  - by apply (fine_same _ (Over 75)).
  - by apply Hmv.
Qed.

(** The last statement of a request that has its answer. *)
Lemma fine_closing ph code d' r st' :
  changed (request_id o) (in_phase "executing") (with_phase ph code) (db s) d' →
  Ran (request_id o) (op_command o) ∈ sv_effects s →
  entered (db s) o → standing (sv_effects s) (request_id o) (op_command o) ph →
  (∀ a, r = Ok a → a = st') → st' ≠ Running → session_ok d' (sv_effects s) o st' →
  fine r (set_control (set_db d' (sv_control s)) s).
Proof.
  intros Hch Hran (row & Hrow & Hc) Hst Hr Hne Hok. apply (fine_moved _ _ st'); try done.
  - apply (base_changed _ _ _ _ _ _ Hb Hch); [done|]. intros r' Hr' _.
    assert (r' = row) as -> by congruence. by rewrite Hc.
  - eapply settled_changed; [exact Hch|]. intros r' Hr'. apply (closed_in_phase _ _ Hr'). by right.
  - by eapply kept_changed.
  - intros t' o' _ _ _ Ha. apply (armed_changed _ _ _ _ _ _ _ Hch); [|done]. intros Heq.
    destruct Ha as [Hn _]. rewrite Heq in Hn. by apply (Hn (op_command o)).
Qed.

Lemma fine_rejecting : st = Rejecting → wp (advance i o Rejecting) fine s.
Proof.
  intros Hst. cbn -[RejectLifecycleStart]. apply wp_bind, wp_try, wp_on_store.
  eapply wp_mono; [apply Reject_wp, Hb|]. pose proof the_session as Hok. rewrite Hst in Hok. destruct Hok as [Hent Href].
  assert (Hran : Ran (request_id o) (op_command o) ∈ sv_effects s) by (apply (ba_answers _ _ Hb); auto).
  intros [b|e|] d' [[-> Hn]|[Ha Hr]]; rewrite ?set_same; try (destruct Hr; by simplify_eq).
  - by destruct b.
  - apply wp_ret. apply (fine_closing "rejected" 1 _ _ (Over 1)); try done; [by constructor|by intros ? [= <-]].
  - apply wp_ret, (fine_same _ (Over 75)); [|done..]. by intros ? [= <-].
  - by apply (fine_same _ (Over 75)).
  - apply (fine_closing "rejected" 1 _ _ (Over 1)); try done. by constructor.
Qed.

Lemma fine_finishing inst : st = Finishing inst → wp (advance i o (Finishing inst)) fine s.
Proof.
  intros Hst. pose proof the_session as Hok. rewrite Hst in Hok. cbn -[FinishLifecycleRequest] in *. cbv zeta.
  set (next := if offloads cfg o then Offloading inst else Over 0).
  assert (Hnext : next ≠ Running ∧ ∀ d log, session_ok d log o next) by (unfold next; by case_match).
  destruct (bound o) eqn:Hbd; cbn [negb].
  2:{ apply wp_ret, (fine_same _ next); [by intros ? [= <-]|intros; apply Hnext..]. }
  apply wp_bind, wp_try, wp_on_store.
  eapply wp_mono; [apply Finish_wp, Hb|]. destruct (Hok eq_refl) as [Hent Hsuc].
  assert (Hran : Ran (request_id o) (op_command o) ∈ sv_effects s) by (apply (ba_answers _ _ Hb); auto).
  intros [b|e|] d' [[-> Hn]|[Ha Hr]]; rewrite ?set_same; try (destruct Hr; by simplify_eq).
  - apply wp_ret, (fine_same _ (Over 75)); [|done..]. destruct b; [done|]. by intros ? [= <-].
  - destruct Hr as [[= ->]|]; [|done]. apply wp_ret.
    apply (fine_closing "done" 0 _ _ next); try done; [by constructor|by intros ? [= <-]|apply Hnext..].
  - apply wp_ret, (fine_same _ (Over 75)); [|done..]. by intros ? [= <-].
  - by apply (fine_same _ (Over 75)).
  - apply (fine_closing "done" 0 _ _ next); try done; [by constructor|apply Hnext..].
Qed.

(** The provisioner was called: the requests are as they were, the log may have grown. *)
Lemma fine_called log' w' r st' :
  requests_same (sv_control s) w' → base (db s) log' → sv_effects s ⊆ log' →
  (∀ t' o', t' ≠ t → ss !! t' = Some (o', Running) → bound o' = true →
     never_ran (sv_effects s) (request_id o') → never_ran log' (request_id o')) →
  (∀ a, r = Ok a → a = st') → st' ≠ Running → session_ok (db s) log' o st' → fine r (mkService w' log').
Proof.
  intros [Hwf Hreq] Hb' Hl Hn Hr Hne Hok.
  apply (ended_next (db s) t o ss the_operation (sv_effects s) _ st'); cbn; try done.
  - by eapply base_same.
  - by apply settled_same.
  - by apply rows_kept_same.
  - intros t' o' Ht' Ho' Hbd [Hno Hrow]. unfold armed. rewrite Hreq. split; [by eapply Hn|done].
  - destruct st'; cbn in *; try done; unfold entered; by rewrite Hreq.
Qed.

Lemma fine_offloading inst : wp (advance i o (Offloading inst)) fine s.
Proof.
  cbn. apply wp_bind, wp_try, wp_on_control. eapply wp_mono; [apply cold_requests, Hb|].
  intros [a|e|] w' Hw'; [apply wp_ret|apply wp_ret|];
    (apply (fine_called _ _ _ (Over 0)); [done..|by intros ? [= <-]|done|done]).
Qed.

(** What the log is after a call of the provisioner, and after its answer. *)
Lemma running_logs :
  st = Running → bound o = true →
  let log1 := Ran (request_id o) (op_command o) :: sv_effects s in
  entered (db s) o ∧ base (db s) log1 ∧
  (∀ e, e = Succeeded (request_id o) (op_command o) ∨ e = Refused (request_id o) (op_command o) →
     base (db s) (e :: log1)) ∧
  (∀ t' o', t' ≠ t → ss !! t' = Some (o', Running) → bound o' = true → request_id o' ≠ request_id o).
Proof.
  intros Hst Hbd. pose proof the_session as Hok. rewrite Hst in Hok. destruct (Hok Hbd) as [Hent Harm].
  destruct (base_ran _ _ _ Hb Harm) as (row & Hrow & Hb1).
  assert (Hc : lr_Command (rq row) = op_command o) by (destruct Hent as (r' & Hr' & <-); congruence).
  rewrite Hc in Hb1. split_and!; [done..| |].
  - intros e He. apply (base_answered _ _ (request_id o) (op_command o)); [done|by left| |done].
    assert (Hno : ∀ c', Ran (request_id o) c' ∉ sv_effects s) by apply Harm. intros c'. split.
    + intros [?|Hs]%elem_of_cons; [done|]. apply (Hno c'), (ba_answers _ _ Hb). by left.
    + intros [?|Hs]%elem_of_cons; [done|]. apply (Hno c'), (ba_answers _ _ Hb). by right.
  - intros t' o' Hne Ht' Hbd' Heq. apply Hne. rewrite Hst in Ht. by eapply (se_alone _ _ _ Hss).
Qed.

Lemma fine_running : st = Running → wp (advance i o Running) fine s.
Proof.
  intros Hst. cbn -[run_operation]. apply wp_bind, wp_note. unfold event.
  apply wp_bind, wp_try, wp_on_control. eapply wp_mono; [apply run_operation_requests, Hb|].
  destruct (bound o) eqn:Hbd.
  - destruct (running_logs Hst Hbd) as (Hent & Hb1 & Hb2 & Hal).
    assert (Hother : ∀ log', (∀ id c, Ran id c ∈ log' → Ran id c ∈ sv_effects s ∨ id = request_id o) →
      ∀ t' o', t' ≠ t → ss !! t' = Some (o', Running) → bound o' = true →
        never_ran (sv_effects s) (request_id o') → never_ran log' (request_id o')).
    { intros log' Hlog t' o' Hne Ht' Hbd' Hn c [Hc|Hc]%Hlog; [by apply (Hn c)|by apply (Hal t' o')]. }
    assert (Hdone : ∀ r w', requests_same (sv_control s) w' → (∀ a, r = Ok a → a = Over 1) →
      fine r (mkService w' (Ran (request_id o) (op_command o) :: sv_effects s))).
    { intros r w' Hw' Hr. apply (fine_called _ _ _ (Over 1)); try done; [by intros ? ?; right|].
      apply Hother. intros id c [[= -> ->]|?]%elem_of_cons; auto. }
    assert (Hans : ∀ e w' st', requests_same (sv_control s) w' →
      e = Succeeded (request_id o) (op_command o) ∨ e = Refused (request_id o) (op_command o) → st' ≠ Running →
      session_ok (db s) (e :: Ran (request_id o) (op_command o) :: sv_effects s) o st' →
      fine (Ok st') (mkService w' (e :: Ran (request_id o) (op_command o) :: sv_effects s))).
    { intros e w' st' Hw' He Hne Hok. apply (fine_called _ _ _ st'); try done; [by apply Hb2|by intros ? ?; do 2 right| |by intros ? [= <-]].
      apply Hother. intros id c. rewrite !elem_of_cons. intros [<-|[[= -> ->]|?]]; [by destruct He|auto..]. }
    intros [inst|e|] w' Hw'; [| |by apply Hdone].
    + cbn. apply wp_bind, wp_note, wp_ret, Hans; [done|by left|done|]. intros _. by split; [|left].
    + destruct (is_start o && true && is_rejected e); [|by apply wp_ret, Hdone; [|intros ? [= <-]]].
      apply wp_bind, wp_note, wp_ret, Hans; [done|by right|done|]. by split; [|left].
  - intros [inst|e|] w' Hw'.
    + cbn. apply wp_bind, wp_note, wp_ret. apply (fine_called _ _ _ (Finishing inst)); try done; [by intros ? [= <-]|].
      cbn. by rewrite Hbd.
    + rewrite andb_false_r. cbn. apply wp_ret. by apply (fine_called _ _ _ (Over 1)); [..|intros ? [= <-]| |].
    + by apply (fine_called _ _ _ (Over 1)).
Qed.

Lemma advance_ended : wp (advance i o st) fine s.
Proof.
  enough (Hall : ∀ st', st = st' → wp (advance i o st') fine s) by by apply Hall. intros [] Hst.
  - by apply fine_looking.
  - apply fine_checking.
  - apply fine_admitting.
  - by apply fine_beginning.
  - by apply fine_running.
  - by apply fine_rejecting.
  - by apply fine_finishing.
  - apply fine_offloading.
  - cbn. apply wp_ret, (fine_same _ (Over code)); [by intros ? [= <-]|done..].
Qed.
End stages.

(** ** The service over time *)

#[local] Abbreviation result := (cmdOperationResult EqualFold uuid_Parse time_Parse json_strings cfg backendID).
#[local] Abbreviation step := (sy_step EqualFold uuid_Parse time_Parse json_strings cfg backendID).

(** A question changes nothing; a cancellation may add a cancelled request. *)
Definition asked (s s' : Service) : Prop :=
  s' = s ∨ ∃ r d', lr_Phase (rq r) = "cancelled" ∧ added r (db s) d' ∧
    s' = set_control (set_db d' (sv_control s)) s.

(** ... and what it answers is what the table says. *)
Definition answered (s' : Service) (a : Z * option LifecycleRequest) : Prop :=
  ∀ r, a.2 = Some r → ∃ row, lifecycle_requests (db s') !! lr_ID r = Some row ∧ rq row = r.

Lemma reads_stored id actor (s : Service) :
  wf (db s) → wp (on_store (GetLifecycleRequest id actor)) (λ o s', s' = s ∧
    ∀ r, o = Ok r → ∃ row, lifecycle_requests (db s) !! lr_ID r = Some row ∧ rq row = r) s.
Proof.
  intros Hwf. apply wp_on_store. unfold GetLifecycleRequest. apply wp_bind, wp_query; rewrite ?set_same; [done..|].
  destruct (select_row (owned id actor) _) as [row|e] eqn:E; cbn; [|done].
  apply wp_ret. rewrite set_same. split; [done|]. intros r [= <-].
  apply select_row_Some in E as (k & Hk & _). exists row. split; [|done].
  by assert (lr_ID (rq row) = k) as -> by by apply (wf_requests _ Hwf k row).
Qed.

Lemma result_wp now actor args s :
  wf (db s) → wp (result now actor args) (λ o s', asked s s' ∧ ∀ a, o = Ok a → answered s' a) s.
Proof.
  intros Hwf. unfold cmdOperationResult. apply wp_bind, wp_try, wp_bind.
  assert (Hwf' : ∀ s', asked s s' → wf (db s')).
  { intros s' [->|(r & d' & _ & [Hn ->] & ->)]; [done|]. cbn. by apply wf_requests_insert. }
  assert (Hno : ∀ s', asked s s' → asked s s' ∧ ∀ a, Ok (75, None) = Ok a → answered s' a)
    by (intros s' Hs; split; [done|]; by intros ? [= <-] ?).
  eapply (wp_mono _ (λ _ s', asked s s')).
  - assert (Hid : asked s s) by by left. destruct args as [|command [|id [|name [|operation identity]]]];
      try (by apply wp_throw); [by apply wp_require|].
    case_match; [|by apply wp_throw].
    apply wp_bind, wp_require; intros _; [|done]. apply wp_bind, wp_require; intros _; [|done].
    apply wp_bind. eapply wp_mono; [apply reads_on_store, lookup_within|]. intros [inst|e|] s1 ->; [|done..].
    apply wp_bind. eapply wp_mono; [apply reads_on_store, check_identity_within|]. intros [[]|e|] s1 ->; [|done..].
    apply wp_on_store. eapply wp_mono; [apply Cancel_wp|]. intros _o d' [->|Ha]; [rewrite set_same; by left|].
    right. by exists (new_request (orbOperationRequest json_strings actor operation name id identity) "cancelled" now), d'.
  - intros [[]|e|] s1 Hs1; [|apply wp_ret; by apply Hno|done].
    apply wp_bind. eapply wp_mono; [apply reads_stored, Hwf', Hs1|]. intros [r|e|] s2 [-> Hr]; [|apply wp_ret; by apply Hno|done].
    apply wp_bind, wp_require; intros _; [|apply wp_ret; by apply Hno].
    apply wp_ret, wp_ret. split; [done|]. intros ? [= <-] ? [= <-]. by apply Hr.
Qed.

(** [Run]: what was admitted is cancelled, what executed is interrupted. *)
Definition interrupted (d d' : DB) : Prop :=
  wf d' ∧ ∀ id, lifecycle_requests d' !! id =
    (λ r, if in_phase "admitted" r then set_phase "cancelled" r
          else if in_phase "executing" r then set_phase "interrupted" r else r) <$> lifecycle_requests d !! id.

Lemma Interrupt_wp d :
  wf d → wp InterruptLifecycleRequests (λ _ d', d' = d ∨ interrupted d d') d.
Proof.
  intros Hwf. unfold InterruptLifecycleRequests.
  assert (Hint : ∀ d', d' = set_lifecycle_requests (update_where
      (λ r, in_phase "admitted" r || in_phase "executing" r)
      (λ r, set_phase (if in_phase "admitted" r then "cancelled" else "interrupted") r) (lifecycle_requests d)) d →
    interrupted d d').
  { intros d' ->. split.
    - destruct Hwf. split; try done. cbn. intros id r. rewrite lookup_update_where.
      destruct (lifecycle_requests d !! id) as [r0|] eqn:E; [|done]. cbn. intros [= <-].
      pose proof (wf_requests id r0 E). by case_match.
    - intros id. cbn. rewrite lookup_update_where. destruct (lifecycle_requests d !! id) as [r|]; [|done]. cbn.
      by destruct (in_phase "admitted" r), (in_phase "executing" r). }
  apply wp_bind, wp_env; cbn zeta; [by left..| |]; (destruct (exists_where _ _); [by left|]).
  - apply wp_ret. right. by apply Hint.
  - right. by apply Hint.
Qed.

(** *** The invariant holds *)

Definition sys_ok (y : System) : Prop :=
  base (sy_db y) (sv_effects (sy_service y)) ∧ sessions_ok (sy_db y) (sv_effects (sy_service y)) (sy_sessions y).

Lemma no_sessions_ok d log : sessions_ok d log ∅.
Proof. by split. Qed.

Lemma sessions_changed_table d d' log ss :
  sessions_ok d log ss → kept_rows d d' → (∀ id, armed d log id → armed d' log id) → sessions_ok d' log ss.
Proof. intros Hss Hk Ha. apply (sessions_kept d log); auto. Qed.

Lemma advance_step t i o st fs y :
  sys_ok y → sy_sessions y !! t = Some (o, st) →
  let y' := session_call EqualFold uuid_Parse time_Parse json_strings cfg backendID t i o st fs y in
  sys_ok y' ∧ settled_kept (sy_db y) (sy_db y').
Proof.
  intros [Hb Hss] Ht. unfold session_call.
  pose proof (advance_ended i t o st (sy_sessions y) (sy_service y) Hb Hss Ht fs) as H'.
  destruct (advance i o st fs (sy_service y)) as [[[st'|e|] s] fs']; cbn in *; destruct H' as (Hb' & Hset & Hss').
  all: by split; [split|].
Qed.

Lemma result_step now actor args fs y :
  sys_ok y →
  let y' := set_service (result now actor args fs (sy_service y)).1.2 y in
  sys_ok y' ∧ settled_kept (sy_db y) (sy_db y').
Proof.
  intros [Hb Hss]. cbn zeta. destruct (result_wp now actor args (sy_service y) (ba_wf _ _ Hb) fs) as [Has _].
  destruct (result now actor args fs (sy_service y)) as [[r s] fs']. cbn in *.
  destruct Has as [->|(row & d' & Hph & Hadd & ->)]; unfold sys_ok, sy_db; cbn in *.
  - by split; [|apply settled_same].
  - split; [split|by eapply settled_added].
    + eapply base_added; [done..|by right].
    + eapply sessions_changed_table; [done|by eapply kept_added|]. intros id. by apply (armed_added _ _ _ _ row).
Qed.

Lemma run_step fs y :
  sys_ok y →
  let y' := mkSystem (on_store InterruptLifecycleRequests fs (sy_service y)).1.2 ∅ in
  sys_ok y' ∧ settled_kept (sy_db y) (sy_db y').
Proof.
  intros [Hb _]. cbn zeta.
  assert (Hwp : wp (on_store InterruptLifecycleRequests) (λ _ s', ∃ d',
    s' = set_control (set_db d' (sv_control (sy_service y))) (sy_service y) ∧ (d' = sy_db y ∨ interrupted (sy_db y) d'))
    (sy_service y)).
  { apply wp_on_store. eapply wp_mono; [apply Interrupt_wp, Hb|]. intros ? d' Hd'. by exists d'. }
  destruct (Hwp fs) as (d' & -> & Hd'). unfold sys_ok, sy_db. cbn. destruct Hd' as [->|[Hwf Hint]].
  { split; [split; [done|apply no_sessions_ok]|by apply settled_same]. }
  split; [split; [|apply no_sessions_ok]|].
  - split; try apply Hb; [done|..].
    + intros id r'. rewrite Hint, fmap_Some. intros (r & Hr & ->) Hbd.
      assert (Hbd' : bound_row r = true) by (by repeat case_match).
      pose proof (ba_rows _ _ Hb _ _ Hr Hbd') as Hst. unfold in_phase in *.
      destruct (String.eqb_spec (lr_Phase (rq r)) "admitted") as [Hp|Hp]; [rewrite Hp in Hst; inversion Hst; by constructor|].
      destruct (String.eqb_spec (lr_Phase (rq r)) "executing"); [constructor|done].
    + intros id c (r & Hr & Hc & Hbd)%(ba_ran _ _ Hb). rewrite Hint, Hr. eexists. split; [done|].
      by repeat case_match.
  - intros id r Hr _ Hc. unfold sy_db in *. rewrite Hint, Hr. cbn. unfold closed in Hc.
    by destruct (in_phase "admitted" r), (in_phase "executing" r).
Qed.

Lemma other_step w y :
  sys_ok y → elsewhere (sy_db y) (pv_db w) →
  let y' := set_service (set_control w (sy_service y)) y in
  sys_ok y' ∧ settled_kept (sy_db y) (sy_db y').
Proof.
  intros [Hb Hss] [Hwf Hel]. unfold sys_ok, sy_db in *. cbn.
  assert (Hk : kept_rows (db (sy_service y)) (pv_db w)).
  { intros id r Hr. specialize (Hel id). rewrite Hr in Hel. destruct Hel as (r' & Hr' & Hc & _). by exists r'. }
  assert (Hrow : ∀ id r, lifecycle_requests (db (sy_service y)) !! id = Some r → bound_row r = true →
    lifecycle_requests (pv_db w) !! id = Some r).
  { intros id r Hr Hbd. specialize (Hel id). rewrite Hr in Hel. destruct Hel as (r' & Hr' & _ & He).
    by rewrite Hr', (He Hbd). }
  split; [split|].
  - split; try apply Hb; [done|..].
    + intros id r' Hr' Hbd. specialize (Hel id).
      destruct (lifecycle_requests (db (sy_service y)) !! id) as [r|] eqn:Hr.
      * destruct Hel as (r'' & Hr'' & Hbr & He). assert (r'' = r') as -> by congruence.
        assert (Hbd' : bound_row r = true) by (revert Hbd; unfold bound_row, has_command; by rewrite Hbr).
        rewrite (He Hbd') in *. by apply (ba_rows _ _ Hb id r).
      * by rewrite (Hel r' Hr') in Hbd.
    + intros id c (r & Hr & Hc & Hbd)%(ba_ran _ _ Hb). exists r. by split_and!; [apply Hrow|..].
  - eapply sessions_changed_table; [done..|]. intros id (Hn & r & Hr & Hbd & He). split; [done|].
    exists r. by split; [apply Hrow|].
  - intros id r Hr Hbd _. by apply Hrow.
Qed.

Lemma step_ok y y' : sys_ok y → step y y' → sys_ok y' ∧ settled_kept (sy_db y) (sy_db y').
Proof.
  intros Hy Hs. destruct Hs as [t o y Ht Ho|t i o st fs y Ht|t y|now actor args fs y|fs y|w y Hel].
  - split; [split; [apply Hy|]|by apply settled_same]. apply sessions_insert; [|done..].
    rewrite delete_id by done. apply Hy.
  - by apply advance_step.
  - split; [split; [apply Hy|]|by apply settled_same]. eapply sessions_less; [apply Hy|apply delete_subseteq].
  - by apply result_step.
  - by apply run_step.
  - by apply other_step.
Qed.

Lemma steps_ok y y' : sys_ok y → rtc step y y' → sys_ok y' ∧ settled_kept (sy_db y) (sy_db y').
Proof.
  intros Hy Hs. revert Hy. induction Hs as [y|y1 y2 y3 H1 _ IH]; intros Hy; [by split; [|apply settled_same]|].
  destruct (step_ok _ _ Hy H1) as [Hy2 Hk]. destruct (IH Hy2) as [Hy3 Hk']. split; [done|].
  intros id r Hr Hbd Hc. by apply Hk', Hc; [apply Hk|].
Qed.

#[local] Abbreviation reachable := (sy_reachable EqualFold uuid_Parse time_Parse json_strings cfg backendID).

Lemma system_ok y : reachable y → sys_ok y.
Proof.
  intros (y0 & (Hwf & Hlog & Hss & Hnone) & Hs). apply (steps_ok y0); [|done].
  unfold sys_ok. rewrite Hlog, Hss. split; [|apply no_sessions_ok].
  split; cbn; [done|..|constructor| |]; try by intros ? ? [].
  - intros id r Hr Hbd. by rewrite (Hnone id r Hr) in Hbd.
  - intros id c H'. by apply not_elem_of_nil in H'.
  - intros id c [H'|H']; by apply not_elem_of_nil in H'.
  - intros id c c' H'. by apply not_elem_of_nil in H'.
Qed.

(** C11. A bound start or stop runs at most once, in every history of sessions, faults and
    restarts, and only as the request of that identifier in the table. *)
Theorem bound_runs_once y :
  reachable y →
  NoDup (ran_ids (sv_effects (sy_service y))) ∧
  ∀ id command, Ran id command ∈ sv_effects (sy_service y) →
    ∃ r, lifecycle_requests (sy_db y) !! id = Some r ∧ lr_Command (rq r) = command.
Proof.
  intros [Hb _]%system_ok. split; [apply Hb|]. intros id c (r & Hr & Hc & _)%(ba_ran _ _ Hb). by exists r.
Qed.

(** C12. What [operation-result] answers about a start or a stop is what happened: done, it
    ran and succeeded; rejected, it ran and was refused; cancelled or merely admitted, it
    never ran. *)
Theorem result_is_truthful y now actor args fs code r s' fs' :
  reachable y → result now actor args fs (sy_service y) = (Ok (code, Some r), s', fs') →
  lr_Command r = "start" ∨ lr_Command r = "stop" →
  standing (sv_effects s') (lr_ID r) (lr_Command r) (lr_Phase r).
Proof.
  intros Hy%system_ok Hres Hc. destruct (result_step now actor args fs y Hy) as [[Hb _] _].
  destruct (result_wp now actor args (sy_service y) (ba_wf _ _ (proj1 Hy)) fs) as [_ Ha].
  rewrite Hres in Hb, Ha. cbn in Hb, Ha. destruct (Ha _ eq_refl r eq_refl) as (row & Hrow & Hq).
  rewrite <- Hq at 2 3. apply (ba_rows _ _ Hb); [done|]. unfold bound_row, has_command. rewrite Hq.
  by destruct Hc as [-> | ->].
Qed.

(** A closed request stays closed as it is, and says the truth for ever: a cancelled one
    never runs, however late the session that brought it. *)
Theorem settled_is_final y y' id r :
  reachable y → lifecycle_requests (sy_db y) !! id = Some r → bound_row r = true → closed r = true →
  rtc step y y' →
  lifecycle_requests (sy_db y') !! id = Some r ∧
  (lr_Phase (rq r) = "cancelled" → ∀ command, Ran id command ∉ sv_effects (sy_service y')).
Proof.
  intros Hy%system_ok Hr Hbd Hc Hs. destruct (steps_ok _ _ Hy Hs) as [[Hb _] Hk].
  assert (Hr' : lifecycle_requests (sy_db y') !! id = Some r) by by apply Hk. split; [done|].
  intros Hph. pose proof (ba_rows _ _ Hb _ _ Hr' Hbd) as Hst. rewrite Hph in Hst. by inversion Hst.
Qed.

(** ** The instances of others *)

Section isolation.
Context (n k0 : string) (d0 : DB).

(** Only the row [k0], whose name is [n], may differ from [d0]. *)
Definition only (s : Service) : Prop :=
  wf (db s) ∧ (∃ r, instances (db s) !! k0 = Some r ∧ row_Name r = n) ∧
  ∀ k, k ≠ k0 → instances (db s) !! k = instances d0 !! k.

Definition about (st : stage) : Prop :=
  match st with Looking => False | Finishing inst | Offloading inst => Name inst = n | _ => True end.

Lemma only_framed s : only s → framed n k0 (set_lifecycle_requests (lifecycle_requests (db s)) d0) (sv_control s).
Proof. by intros (Hwf & Hr & Hk). Qed.

Lemma framed_only w e rs : framed n k0 (set_lifecycle_requests rs d0) w → only (mkService w e).
Proof. by intros []. Qed.

Lemma only_store {A} (m : M DB A) s :
  within wf_le m → wp m (λ _ d', instances d' = instances (db s)) (db s) → only s →
  wp (on_store m) (λ _ s', only s') s.
Proof.
  intros Hwf Hm (H1 & H2 & H3). apply wp_on_store. eapply wp_mono; [apply (wp_and _ _ _ _ Hm (Hwf _))|].
  intros _o d' [Hi Hw]. unfold only. cbn. rewrite Hi. split_and!; [by apply Hw|done..].
Qed.

Lemma only_reads {A} (m : M DB A) s : within eq m → only s → wp (on_store m) (λ _ s', only s') s.
Proof. intros Hm Hs. eapply wp_mono; [by apply reads_on_store|]. by intros ? ? ->. Qed.

Lemma only_next {A} (m : M Service A) (k : Prelude.result A → stage) s :
  wp m (λ _ s', only s') s → (∀ r, about (k r)) →
  wp (r ← try m; mret (k r)) (post only (λ st' _, about st')) s.
Proof.
  intros Hm Hk. apply wp_bind, wp_try. eapply wp_mono; [exact Hm|].
  intros [a|e|] s' Hs'; [by apply post_ret..|by split].
Qed.

Lemma running_only i o s :
  op_name o = n → only s → wp (advance i o Running) (post only (λ st' _, about st')) s.
Proof.
  intros Ho Hs. cbn -[run_operation]. apply wp_bind, wp_note.
  set (s1 := mkService _ _). assert (Hs1 : only s1) by exact Hs. clearbody s1.
  apply wp_bind, wp_try, wp_on_control.
  assert (Hrun : wp (run_operation i o)
    (post (framed n k0 (set_lifecycle_requests (lifecycle_requests (db s1)) d0)) (λ a _, Name a = n)) (sv_control s1)).
  { unfold run_operation. rewrite Ho. case_match; [by apply pr_start_framed, only_framed|by apply pr_stop_framed, only_framed]. }
  eapply wp_mono; [exact Hrun|]. intros [inst|e|] w [Hw Hn].
  - apply wp_bind, wp_note. apply post_ret; [by eapply framed_only|]. by apply Hn.
  - case_match; [apply wp_bind, wp_note|]; apply post_ret; by try eapply framed_only.
  - split; [by eapply framed_only|done].
Qed.

Lemma advance_only i o st s :
  op_name o = n → about st → only s → wp (advance i o st) (post only (λ st' _, about st')) s.
Proof.
  intros Ho Hst Hs. pose proof Hs as (Hwf & _).
  destruct st as [|inst|inst| | | |inst|inst|code]; cbn -[check_operation AdmitLifecycleRequest BeginLifecycleRequest
    RejectLifecycleStart FinishLifecycleRequest run_operation]; [done|..].
  - case_match; [by apply post_ret|]. apply only_next; [|by intros []].
    by apply only_reads; [apply check_within|].
  - apply only_next; [|by intros [[]|]]. apply only_store; [apply (op_wf _ _ (op_AdmitLifecycleRequest _ _))| |done].
    eapply wp_mono; [apply Admit_wp|]. by intros ? d' [[-> _]|[[_ ->] _]].
  - apply only_next; [|by intros [[]|]]. apply only_store; [apply (op_wf _ _ (op_BeginLifecycleRequest _ _))| |done].
    eapply wp_mono; [by apply Begin_wp|]. by intros ? d' [[-> _]|[(? & _ & _ & ->) _]].
  - by apply running_only.
  - apply only_next; [|by intros [[]|]]. apply only_store; [apply (op_wf _ _ (op_RejectLifecycleStart _ _))| |done].
    eapply wp_mono; [by apply Reject_wp|]. by intros ? d' [[-> _]|[(? & _ & _ & ->) _]].
  - assert (Hdone : about (if offloads cfg o then Offloading inst else Over 0)) by by case_match.
    destruct (bound o); cbn [negb]; [|by apply post_ret].
    apply only_next; [|by intros [[]|]]. apply only_store; [apply (op_wf _ _ (op_FinishLifecycleRequest _ _ _))| |done].
    eapply wp_mono; [by apply Finish_wp|]. by intros ? d' [[-> _]|[(? & _ & _ & ->) _]].
  - apply only_next; [|done]. apply wp_on_control. rewrite Hst.
    eapply wp_mono; [by apply pr_cold_framed, only_framed|]. intros ? w [Hw _]. by eapply framed_only.
  - by apply post_ret.
Qed.

Lemma run_only is_ o st s :
  op_name o = n → about st → only s →
  wp (run_command EqualFold uuid_Parse time_Parse json_strings cfg backendID is_ o st) (λ _ s', only s') s.
Proof.
  intros Ho. revert st s. induction is_ as [|i is_ IH]; intros st s Hst Hs; cbn [run_command]; [by apply wp_ret|].
  apply wp_bind. eapply wp_mono; [by apply advance_only|]. intros [st'|e|] s' [Hs' Hst']; [|done..].
  apply IH; [by apply Hst'|done].
Qed.
End isolation.

(** C13. A user's start or stop, whatever its words and whatever fails, leaves the record of
    every instance the user may not access as it is. *)
Theorem users_isolated is_ o s k r :
  wf (db s) → instances (db s) !! k = Some r → accessible EqualFold cfg (op_actor o) r = false →
  wp (run_command EqualFold uuid_Parse time_Parse json_strings cfg backendID is_ o Looking)
    (λ _ s', instances (db s') !! k = Some r) s.
Proof.
  intros Hwf Hr Hacc. destruct is_ as [|i is_]; cbn [run_command]; [by apply wp_ret|].
  apply wp_bind, wp_bind, wp_try.
  assert (Hlook : wp (on_store (lookupVisibleInstance EqualFold cfg (op_actor o) (op_name o))) (λ out s', s' = s ∧
    (∀ inst, out = Ok inst → ∃ k0 r0, instances (db s) !! k0 = Some r0 ∧ row_Name r0 = op_name o ∧ k0 ≠ k)) s).
  { apply wp_on_store. unfold lookupVisibleInstance. apply wp_bind. eapply wp_mono; [apply GetInstance_reads|].
    intros [inst|e|] d' [-> Hi]; rewrite ?set_same; [|done..].
    destruct (Hi inst eq_refl) as (k0 & r0 & Hk0 & Hn & Hscan).
    destruct (canAccessInstance EqualFold cfg (op_actor o) inst) eqn:Hc; [|by apply wp_throw; rewrite set_same].
    apply wp_ret. rewrite set_same. split; [done|]. intros _ _. exists k0, r0. split_and!; [done..|]. intros ->.
    assert (r0 = r) as -> by congruence. unfold accessible in Hacc. rewrite Hscan in Hacc. congruence. }
  eapply wp_mono; [exact Hlook|]. intros [inst|e|] s' [-> Hi]; [|..|done].
  - destruct (Hi inst eq_refl) as (k0 & r0 & Hk0 & Hn & Hne). apply wp_ret.
    eapply wp_mono; [by apply (run_only (op_name o) k0 (db s)); [..|split_and!; [|exists r0|]]|].
    intros ? s' (_ & _ & Hothers). by rewrite Hothers.
  - apply wp_ret. clear Hlook Hi. revert is_. induction is_ as [|j is_ IH]; [by apply wp_ret|].
    cbn [run_command]. by apply wp_bind, wp_ret.
Qed.
End operations.
