(* ===== verification/Operated.v ===== *)
(** * The provisioner behind the service, and a bound start

    Starting and stopping as in Lifecycle.v and ColdDisk of
    src/internal/provision/cold_disk.go implement what the commands of users rely on;
    then an orb is started for its owner, and the theorems are used on what happened. *)
From S2P Require Import Prelude GoStrings Timestamps Model Sql StoreDB StoreRequests StoreInstances StoreCleanup.
From S2P Require Import StoreMigration StoreTrace StoreDemo InstanceSpec Identity Config RunnerState Runtime Receipts ReceiptStop RunnerSpec.
From S2P Require Import PoolHost Provision PoolStore HostCapacity PoolInv PoolSpec.
From S2P Require Import Lifecycle LifecycleInv LifecycleStart LifecycleFrame Access AccessSpec Operations OperationsSpec LifecycleSpec.
From stdpp Require Import relations.

#[local] Open Scope Z_scope.

Section provisioner.
Context (cfg : Config) (has_tsClient : bool).
Context (rcfg : ServerConfig) (marshal : StartRequest → string)
  (start : StartRequest → M Host StartResponse) (guest_shutdown : string → Machine → Machine).
Context (ParseMAC ParseCIDR ParseIP : string → bool).
Context (serial_log : Machine → string → option string).
Context (pid_payload : Z → string) (error_payload : string → string)
  (net_payload tailnet_payload : string → string → string).

(** [ColdDisk]: its fences.  The marker file and the runner's disk (ColdDisk.v) are not
    part of this state; asking about them is a call that can fail. *)
Definition ColdDisk (now : nat → time) (name action : string) : M Control unit :=
  inst ← on_db (GetInstance name);
  host_check;; (* coldMarker *)
  if String.eqb action "status" then host_check else
  require (String.eqb action "offload" || String.eqb action "hydrate" || String.eqb action "purge")
    (Errorf "invalid cold disk action");;
  migrationFence name;;
  inst ← resolveRuntime rcfg marshal start guest_shutdown now inst;
  require (String.eqb (State inst) StateStopped && (FirecrackerPID inst =? 0))
    (Errorf "cold disk operation requires a stopped instance");;
  (if String.eqb action "offload"
   then require (nonempty (ColdStorageHost cfg)) (Errorf "cold storage is disabled");; host_check;; host_check
   else mret tt);;
  host_check.

#[local] Instance provisioner : Provisioner := {
  pr_StartWithOptions i := StartWithOptions cfg has_tsClient rcfg marshal start guest_shutdown ParseMAC ParseCIDR
    ParseIP serial_log pid_payload error_payload net_payload tailnet_payload i;
  pr_StopWithOptions i := StopWithOptions rcfg marshal start guest_shutdown (si_now i);
  pr_ColdDisk i := ColdDisk (si_now i);
}.

Lemma keeps_cold n k d0 now action w :
  framed n k d0 w → wp (ColdDisk now n action) (post (framed n k d0) (λ _ _, True)) w.
Proof.
  intros Hw. unfold ColdDisk, host_check. eapply post_bind; [by apply keeps_get|]. intros inst w1 Hw1 Hi.
  eapply post_bind; [apply keeps_read; [repeat within_step|done]|]. intros _ w2 Hw2 _.
  case_match; [apply keeps_read; [repeat within_step|done]|].
  eapply post_bind; [apply keeps_read; [repeat within_step|done]|]. intros _ w3 Hw3 _.
  eapply post_bind; [apply keeps_read; [apply migrationFence_within|done]|]. intros _ w4 Hw4 _.
  eapply post_bind; [by apply keeps_resolve|]. intros inst' w5 Hw5 _.
  apply keeps_read; [repeat within_step|done].
Qed.

(** Without such an instance the first look at the table is the last. *)
Lemma missing_get {A} n (k : Instance → M Control A) w :
  missing n w → wp (inst ← on_db (GetInstance n); k inst) (λ o w', w' = w ∧ ∀ a, o ≠ Ok a) w.
Proof.
  intros Hm. apply wp_bind. eapply wp_mono; [apply reads_on_db, GetInstance_reads|].
  intros [inst|e|] w' [-> Hi]; [|done..]. destruct (Hi inst eq_refl) as (k' & r & Hk & Hn & _). by apply (Hm k' r) in Hk.
Qed.

#[local] Instance lawful_provisioner : LawfulProvisioner.
Proof.
  split; cbn.
  - intros n k d0 i discard w Hw. eapply post_mono; [by apply keeps_start|done|]. by intros a ? _ [? _].
  - intros n k d0 i save w Hw. eapply post_mono; [by apply keeps_stop|done|]. by intros a ? _ [? _].
  - intros n k d0 i action w. apply keeps_cold.
  - intros n i discard w Hm. unfold StartWithOptions. apply wp_bind.
    eapply wp_mono; [apply migrationFence_within|]. intros [[]|e|] w' <-; [|done..].
    apply wp_bind. eapply wp_mono; [by apply missing_get|]. intros [inst|e|] w' [-> Hno]; [|done..].
    by destruct (Hno inst).
  - intros n i save w Hm. eapply wp_mono; [by apply missing_get|]. by intros ? ? [].
  - intros n i action w Hm. eapply wp_mono; [by apply missing_get|]. by intros ? ? [].
Qed.
End provisioner.

(** ** An orb is started for its owner *)

#[local] Instance demo_provisioner : Provisioner :=
  provisioner lc_config true cfg0 marshal0 start0 guest0 any_text any_text any_text no_log no_payload
    no_payload no_payload2 no_payload2.
#[local] Instance demo_lawful : LawfulProvisioner :=
  lawful_provisioner lc_config true cfg0 marshal0 start0 guest0 any_text any_text any_text no_log no_payload
    no_payload no_payload2 no_payload2.

Definition at_t0 (_ : string) : Prelude.result time := inl t0.
Definition words (l : list string) : string := String.concat " " l.
Definition the_backend : string := "SHA256:backend".

#[local] Abbreviation call := (session_call String.eqb any_uuid at_t0 words lc_config the_backend).
#[local] Abbreviation step := (sy_step String.eqb any_uuid at_t0 words lc_config the_backend).
#[local] Abbreviation reachable := (sy_reachable String.eqb any_uuid at_t0 words lc_config the_backend).
#[local] Abbreviation result := (cmdOperationResult String.eqb any_uuid at_t0 words lc_config the_backend).

Definition owner : Actor := mkActor "alice@example.com" "Alice" "laptop" "100.64.0.1" "".
Definition bob : Actor := mkActor "bob@example.com" "Bob" "desk" "100.64.0.2" "".

Definition binding : list string := ["id-1"; "2025-11-30T00:00:00Z"; the_backend; ImageName orb].
Definition start_words : list string := (["start"; "demo"; "--expect"; "req-1"] ++ binding)%list.
Definition op_start : operation :=
  mkOperation owner "start" false "demo" (drop 2 start_words).

Lemma op_start_parsed : parse_operation owner start_words = Some op_start.
Proof. reflexivity. Qed.

(** The calls of one session, up to the given stage. *)
Definition next_call (y : System) : System :=
  match sy_sessions y !! 0%nat with Some (o, st) => call 0 in0 o st [] y | None => y end.
Definition calls (n : nat) (y : System) : System := Nat.iter n next_call y.

Definition arrives (y : System) : System := set_sessions (<[0%nat := (op_start, Looking)]> (sy_sessions y)) y.

Definition yw0 : System := mkSystem (mkService lw0 []) ∅.
Definition yw1 : System := calls 7 (arrives yw0).

Lemma calls_reachable n y : reachable y → reachable (calls n y).
Proof.
  intros Hy. induction n as [|n IH]; [exact Hy|]. change (reachable (next_call (calls n y))).
  set (y' := calls n y) in *. clearbody y'. unfold next_call.
  destruct (sy_sessions y' !! 0%nat) as [[o st]|] eqn:E; [|exact IH].
  destruct IH as (y0 & H0 & Hs). exists y0. split; [done|]. eapply rtc_r; [exact Hs|]. by apply sy_advance.
Qed.

Lemma yw0_initial : sy_initial yw0.
Proof.
  split_and!; [apply lw0_initial|done..|]. intros id r H. exfalso. revert H.
  assert (lifecycle_requests (sy_db yw0) = ∅) as -> by (vm_compute; reflexivity). by rewrite lookup_empty.
Qed.

Lemma arrives_reachable y : reachable y → sy_sessions y !! 0%nat = None → reachable (arrives y).
Proof.
  intros (y0 & H0 & Hs) Hn. exists y0. split; [done|]. eapply rtc_r; [exact Hs|]. apply sy_arrive; [exact Hn|by left].
Qed.

Lemma yw1_reachable : reachable yw1.
Proof. apply calls_reachable, arrives_reachable; [|reflexivity]. exists yw0. split; [apply yw0_initial|apply rtc_refl]. Qed.

Definition asked_1 : outcome (Z * option LifecycleRequest) :=
  (result t0 owner ["operation-result"; "req-1"] [] (sy_service yw1)).1.1.

Lemma asked_1_done :
  ∃ r s fs, result t0 owner ["operation-result"; "req-1"] [] (sy_service yw1) = (Ok (0, Some r), s, fs) ∧
    lr_Command r = "start" ∧ lr_Phase r = "done".
Proof.
  set (answer := result _ _ _ _ _). assert (H : match answer with
    | (Ok (c, Some r), _, _) => (c, lr_Command r, lr_Phase r) = (0, "start", "done") | _ => False end)
    by (vm_compute; reflexivity).
  clearbody answer. destruct answer as [[[[c [r|]]|e|] s] fs]; try contradiction.
  injection H as -> Hc Hp. exact (ex_intro _ r (ex_intro _ s (ex_intro _ fs (conj eq_refl (conj Hc Hp))))).
Qed.

Lemma bound_runs_once_witness : NoDup (ran_ids (sv_effects (sy_service yw1))) ∧ yw1 ≠ yw0.
Proof.
  split; [exact (proj1 (bound_runs_once String.eqb any_uuid at_t0 words lc_config the_backend yw1 yw1_reachable))|].
  intros H. assert (sv_effects (sy_service yw1) = sv_effects (sy_service yw0)) as He by by rewrite H.
  vm_compute in He. discriminate He.
Defined.

Lemma result_is_truthful_witness :
  ∃ r s fs, result t0 owner ["operation-result"; "req-1"] [] (sy_service yw1) = (Ok (0, Some r), s, fs) ∧
    standing (sv_effects s) (lr_ID r) "start" "done".
Proof.
  destruct asked_1_done as (r & s & fs & Hres & Hc & Hp). exists r, s, fs. split; [exact Hres|].
  pose proof (result_is_truthful String.eqb any_uuid at_t0 words lc_config the_backend yw1 t0 owner _ [] 0 r s fs
    yw1_reachable Hres (or_introl Hc)) as H. rewrite Hc, Hp in H. exact H.
Defined.

(** *** Another session cancels the request before it is admitted *)

Definition cancel_words : list string := (["operation-cancel"; "req-1"; "demo"; "start"] ++ binding)%list.
Definition yw2 : System := calls 2 (arrives yw0).
Definition yw3 : System := set_service (result t0 owner cancel_words [] (sy_service yw2)).1.2 yw2.
Definition yw4 : System := calls 4 yw3.

Lemma yw3_reachable : reachable yw3.
Proof.
  assert (H2 : reachable yw2).
  { apply calls_reachable, arrives_reachable; [|reflexivity]. exists yw0. split; [apply yw0_initial|apply rtc_refl]. }
  destruct H2 as (y0 & H0 & Hs). exists y0. split; [exact H0|]. eapply rtc_r; [exact Hs|]. apply sy_result.
Qed.

Lemma calls_steps n y : rtc step y (calls n y).
Proof.
  induction n as [|n IH]; [apply rtc_refl|]. change (rtc step y (next_call (calls n y))).
  set (y' := calls n y) in *. clearbody y'. unfold next_call.
  destruct (sy_sessions y' !! 0%nat) as [[o st]|] eqn:E; [|exact IH].
  eapply rtc_r; [exact IH|]. by apply sy_advance.
Qed.

Lemma yw3_cancelled :
  ∃ r, lifecycle_requests (sy_db yw3) !! "req-1" = Some r ∧ bound_row r = true ∧ closed r = true ∧
    lr_Phase (rq r) = "cancelled".
Proof.
  assert (H : (λ r, (bound_row r, closed r, lr_Phase (rq r))) <$>
    lifecycle_requests (sy_db yw3) !! "req-1" = Some (true, true, "cancelled")) by (vm_compute; reflexivity).
  apply fmap_Some in H as (r & Hr & [= Hb Hc Hp]).
  exact (ex_intro _ r (conj Hr (conj (eq_sym Hb) (conj (eq_sym Hc) (eq_sym Hp))))).
Qed.

(** The session that brought the request goes on, and runs nothing. *)
Lemma settled_is_final_witness :
  (∀ command, Ran "req-1" command ∉ sv_effects (sy_service yw4)) ∧
  (snd <$> sy_sessions yw4 !! 0%nat) = Some (Over 75).
Proof.
  destruct yw3_cancelled as (r & Hr & Hb & Hc & Hp). split; [|vm_compute; reflexivity].
  exact (proj2 (settled_is_final String.eqb any_uuid at_t0 words lc_config the_backend yw3 yw4 "req-1" r
    yw3_reachable Hr Hb Hc (calls_steps 4 yw3)) Hp).
Defined.

(** *** Somebody else's command *)

Definition op_stop_bob : operation := mkOperation bob "stop" false "demo" [].

Lemma orb_row :
  ∃ r, instances (pv_db (sv_control (sy_service yw1))) !! "id-1" = Some r ∧
    accessible String.eqb lc_config bob r = false ∧ row_State r = StateReady.
Proof.
  assert (H : (λ r, (accessible String.eqb lc_config bob r, row_State r)) <$>
    instances (pv_db (sv_control (sy_service yw1))) !! "id-1" = Some (false, StateReady)) by (vm_compute; reflexivity).
  apply fmap_Some in H as (r & Hr & [= Ha Hs]).
  exact (ex_intro _ r (conj Hr (conj (eq_sym Ha) (eq_sym Hs)))).
Qed.

Lemma users_isolated_witness :
  row_State <$> instances (pv_db (sv_control
    (run_command String.eqb any_uuid at_t0 words lc_config the_backend (replicate 9 in0) op_stop_bob Looking []
       (sy_service yw1)).1.2)) !! "id-1" = Some StateReady.
Proof.
  destruct orb_row as (r & Hr & Ha & Hs).
  assert (Hwf : wf (pv_db (sv_control (sy_service yw1)))).
  { apply (ba_wf _ _ (proj1 (system_ok String.eqb any_uuid at_t0 words lc_config the_backend yw1 yw1_reachable))). }
  pose proof (users_isolated String.eqb any_uuid at_t0 words lc_config the_backend (replicate 9 in0) op_stop_bob
    (sy_service yw1) "id-1" r Hwf Hr Ha []) as H.
  exact (eq_trans (f_equal (fmap row_State) H) (f_equal Some Hs)).
Defined.
